(* ===== verification/_CoqProject ===== *)
-Q . S2P
Prelude.v
RustStr.v
Bytes.v
LinksDid.v
LinksAtUri.v
LinksRecord.v
RocksApi.v
ConstellationTypes.v
ConstellationMem.v
ConstellationRocks.v
ConstellationRocksView.v
ConstellationRefine.v
ConstellationUnlink.v
ConstellationSim.v
ConstellationReaders.v
ConstellationContract.v
ConstellationBytes.v
ConstellationStats.v
ConstellationService.v
ConstellationClients.v
ConstellationTests.v
ConstellationConsumer.v
LinkTests.v
ConstellationServer.v
ConstellationHttp.v
ConstellationBrowse.v
ConstellationStream.v
UfosCursor.v
UfosDbTypes.v
UfosStoreTypes.v
UfosRollupKeys.v
UfosBatch.v
UfosFixture.v
UfosFjallApi.v
UfosStorage.v
UfosRollup.v
UfosBackground.v
UfosInsert.v
UfosInit.v
UfosTrim.v
UfosUpkeep.v
UfosRuns.v
UfosReader.v
UfosCounts.v
UfosRanks.v
UfosQueries.v
UfosPipeline.v
UfosTop.v
UfosRecords.v
UfosPrefix.v
UfosServer.v
UfosHttp.v
UfosLivePages.v
UfosQueryRuns.v
UfosPipelineRuns.v
UfosRankRuns.v
UfosTests.v
UfosTypeTests.v
SpacedustQueue.v
SpacedustConsumer.v
SpacedustSubscriber.v
SpacedustService.v
JetstreamEvents.v
JetstreamClient.v
UfosReplay.v
SlingshotIdentity.v
SlingshotServer.v
SlingshotTasks.v
SlingshotService.v
WhoAmITasks.v
WhoAmIServer.v
WhoAmISessions.v
WhoAmIRuns.v
Shutdown.v
WhoAmIKeys.v
