(* ===== verification/Prelude.v ===== *)
(** * microcosm: a verification development

    The repository holds services over the event stream of the AT protocol.
    [links] finds links in records.  [jetstream] is the client of the stream.
    [constellation] consumes the stream, keeps an index of who links to what,
    in memory or in RocksDB, and answers queries over HTTP.  [ufos] counts
    records per collection and keeps samples of them in a fjall key-value
    store, which its server reads.  [spacedust] sends the links of the stream
    on to subscribers, at once or after a delay in which a deletion takes them
    back.  [slingshot] caches records and identities and serves them.
    [who-am-i] is a sign-in service.

    ** How the parts are modelled

    Source functions are Rocq functions with the names of the source where they
    are free.  Errors are values of [result]; a panic is an error value of its
    own, so that "does not panic" is a theorem.  State is passed explicitly.
    Integers are [N] or [nat] with their bounds written where they matter;
    unsigned overflow of [+] is a panic, as in a build with overflow checks.
    Bytes and strings are both [string].  Third-party code is a parameter: a
    class of operations and a class of laws with its documented behaviour, and
    an instance of both that shows they can be met and on which concrete runs
    evaluate.  Failures of the disk and of the network inside a call of such an
    interface are outside the model, unless a definition takes them as input.

    Shared:
    - [Prelude]: the result type, loops that may fail ([foldl_res]), automation,
      lists, counting occurrences;
    - [RustStr]: the [str] functions of the standard library that are used;
    - [Bytes]: big-endian integers and the byte order.

    links (src/links/src):
    - [LinksDid]: did.rs;
    - [LinksAtUri]: at_uri.rs, with fluent-uri as a parameter;
    - [LinksRecord]: lib.rs and record.rs, over tinyjson's value type.

    constellation (src/constellation/src):
    - [ConstellationTypes]: lib.rs and storage/mod.rs: events, pages, and the
      traits [LinkStorage] and [LinkReader] as classes;
    - [ConstellationMem]: storage/mem_store.rs;
    - [RocksApi]: what is used of RocksDB and bincode, as a class with laws;
    - [ConstellationRocks]: storage/rocks_store.rs at the level of bytes;
    - [ConstellationRocksView]: a typed view of the database and of batches;
    - [ConstellationRefine], [ConstellationUnlink], [ConstellationSim]: the
      simulation between the two stores, for writing;
    - [ConstellationReaders]: the same for the queries;
    - [ConstellationContract]: the contract: RocksDB answers like memory;
    - [ConstellationBytes]: the structs and codecs of rocks_store.rs, from the
      integers of bincode up, and its prefix iterations over bytes;
    - [ConstellationStats]: bin/rocks-link-stats.rs, over a store in service;
    - [ConstellationService]: bin/main.rs, bin/rocks-restore-from-backup.rs,
      consumer/jsonl_file.rs, and the backups of rocks_store.rs, over an
      interface to RocksDB's backup engine;
    - [ConstellationClients]: client programs over the storage interface;
    - [ConstellationTests]: the tests of storage/mod.rs as such programs;
    - [ConstellationConsumer]: consumer/mod.rs and consumer/jetstream.rs;
    - [LinkTests]: the tests of links, of the consumer and of bin/main.rs;
    - [ConstellationServer]: server/: handlers, cursors, content negotiation;
    - [ConstellationHttp]: the routes of server/mod.rs, and sessions of requests
      over either store;
    - [ConstellationBrowse]: clients that page while the store is written;
    - [ConstellationStream]: stream, store and server put together.

    ufos (src/ufos/src):
    - [UfosCursor]: truncated cursors and buckets of store_types.rs;
    - [UfosDbTypes]: db_types.rs, with the codec interfaces [PrefixCodec],
      [TailCodec] and [OrderedCodec] that the key types are built from;
    - [UfosStoreTypes]: the keys and values of store_types.rs;
    - [UfosRollupKeys]: the operations of its weekly and all-time keys;
    - [UfosBatch]: lib.rs, consumer.rs and the event types of jetstream;
    - [UfosFixture]: file_consumer.rs;
    - [UfosFjallApi]: what is used of fjall, as a class with laws;
    - [UfosStorage]: the writing side of storage_fjall.rs and storage.rs;
    - [UfosRollup], [UfosBackground]: what the rollup does to counts;
    - [UfosInsert]: what a batch does to records and counts;
    - [UfosInit]: starting and restarting;
    - [UfosTrim]: trimming a collection;
    - [UfosUpkeep]: trimming, restarts and the start of the background task leave
      the counts alone;
    - [UfosRuns]: concrete runs of the storage;
    - [UfosReader]: the reading side of storage_fjall.rs: every query of
      [FjallReader], iterators as lists of the results they yield;
    - [UfosCounts]: stores in service (started and restarted, fed, rolled up,
      trimmed and worked on by the background task), and the counts of a collection and of a time series there;
    - [UfosRanks]: the index of collections by records created;
    - [UfosQueries]: listing and searching collections;
    - [UfosTop]: listing them by records created;
    - [UfosRecords]: samples of records;
    - [UfosPrefix]: the children of an nsid prefix;
    - [UfosServer]: server/mod.rs and server/collections_query.rs: the trait
      [StoreReader] as a class, the handlers over it, and fjall behind it;
    - [UfosHttp]: the endpoints of server/mod.rs, server/cors.rs and the counting
      of requests;
    - [UfosLivePages]: clients that page while batches come in;
    - [UfosPipeline], [UfosPipelineRuns]: batcher, queue, store and rollup put
      together, and a concrete run;
    - [UfosReplay]: the loop of the batcher and the sources in front of it;
    - [UfosTests], [UfosTypeTests]: the tests of storage_fjall.rs, db_types.rs,
      store_types.rs and lib.rs;
    - [UfosQueryRuns], [UfosRankRuns]: concrete runs of the queries and requests.

    jetstream (src/jetstream/src):
    - [JetstreamClient]: lib.rs and error.rs: configuration, the reader of a
      connection, reconnecting; the event types are in [UfosBatch];
    - [JetstreamEvents]: the cursors of events.rs and the clock.

    spacedust (src/spacedust/src):
    - [SpacedustQueue]: removable_delay_queue.rs and delay.rs, with producer and
      delay task as interleaved steps on the shared queue;
    - [SpacedustConsumer]: consumer.rs and lib.rs, over that queue;
    - [SpacedustSubscriber]: subscriber.rs and the choice of the broadcast in
      server.rs: a subscriber as a state machine;
    - [SpacedustService]: server.rs, and all tasks together over two broadcast
      channels of tokio, which are an interface.

    slingshot (src/slingshot/src):
    - [SlingshotIdentity]: identity.rs: resolution with a cache that may forget,
      and the refresher;
    - [SlingshotServer]: record.rs, consumer.rs and the handlers of server.rs;
    - [SlingshotTasks]: the handlers and the refresher as tasks that others
      interrupt at their awaits;
    - [SlingshotService]: the routes, the listener and the DID document of
      server.rs, and runs in which these tasks, events of the stream, forgetting
      caches and restarts interleave.

    who-am-i (src/who-am-i/src):
    - [WhoAmITasks]: expiring_task_map.rs, with the sleeping tasks in the state;
    - [WhoAmIServer]: the handlers of server.rs, with what they call of oauth.rs
      and jwt.rs;
    - [WhoAmISessions]: runs of the service against clients that replay cookies;
    - [WhoAmIRuns]: concrete runs;
    - [WhoAmIKeys]: jwt.rs, the set-up of oauth.rs, the routes of server.rs and
      the start of main.rs.

    The processes:
    - [Shutdown]: the mains of spacedust, slingshot and ufos as supervisors of
      their tasks, healthcheck.rs of slingshot, the arguments of who-am-i.

    ** What is shown

    - The two stores of constellation: MemStorage never panics and its two
      indexes stay inverse to one another; its counts are the numbers of links;
      RocksStorage, from an empty database through any admissible sequence of
      events and restarts, answers every query like MemStorage.  An event is
      admissible when it names no target twice at one path of a record, a
      creation has links and is of a record without any, an update without
      links is of a known account, and, for the removal of an account, no two
      of its records link one target from one path.  Theorems on concrete runs
      show that the stores differ on repeated targets and on such removals.
    - Serving: pages of the links endpoint are complete and without repetition;
      the errors of the handler; the loop at [limit=0].
    - Serving over HTTP: a client that pages while links are written sees every
      link that lasts, once.  A run shows
      that pages of distinct DIDs can miss one.
    - Bytes: every law that the model of RocksStorage assumes of bincode follows
      from two facts about its integers, and the prefix iterations of the store
      are exact over bytes.
    - Consuming: what an event turns into; the stored cursor; reconnecting.
    - End to end: an orderly stream with restarts is served as exactly the
      records that link to a target; the repository's tests of the storage
      interface pass on every database that behaves as documented.
    - Operating constellation: a restored backup answers as the store did when
      it was taken, also between the batches of an account deletion; the
      statistics tool counts every link once; the other threads end when one of
      them returns, but not when the consumer or the server panics.  Runs show a
      backup that fails but is reported, is not waited for, or whose wait panics.
    - Parsing: DIDs, at-uris, and that exactly the links of a record are found,
      in whatever order its maps are iterated.
    - ufos encodings: round trips, order, and that range bounds select what
      they should; buckets tile a span.
    - ufos batching: the batcher loses no update, delete or removal; the bounded
      list stays bounded; limits that do not hold are shown by runs.
    - ufos storage: a rollup step conserves, for every collection and bucket,
      the counts rolled up plus the counts pending, and enough steps leave
      nothing pending; a batch adds exactly what it counted and applies its
      commits in order; deleting an account removes its records and no others;
      trimming keeps the newest live entries; restarts give the cursor back.
    - ufos queries: in a store in service a week holds the sum of its hours, so
      that counts over a span are those of its hours whatever buckets they are
      read from; time series likewise; a client that follows cursors gets every
      collection once, in order, and is done, also over HTTP, and while batches
      are inserted and rolled up misses none that was listed before; samples are the
      newest live records; requests for collections, statistics and search are
      bad requests, failures or successes exactly as their parameters say; from the stream to the counts, however the tasks
      interleave, every commit is counted once, and when the stream pauses the
      clients read its numbers; a recorded file resumes at its cursor without
      gap or repetition; the first page of a prefix adds up; search.  Runs
      show where the pages of a prefix repeat and where its query panics.
    - ufos ranks: over the service of a new store the index by records created
      has one entry for each rollup with records created, at its count, and no key is inserted twice,
      which the weak removals of fjall need; listing collections in this order
      over all time gives the true top.
    - jetstream: through any failures of connections, replay is without gap and
      repetition when the client started from a cursor; it gives up after its
      retries; without a cursor it never replays.
    - spacedust: in every interleaving a delayed message was neither removed nor
      replaced before the delay task took it, and is not early; the queue
      implements a list of pending entries and drains; what an event sends and
      queues; a subscriber gets what matches its query, in order.  With all
      tasks together, over every interleaving: each subscriber gets exactly the
      matching links since it connected while it keeps up, and links that
      waited out their delay arrive.
    - processes: the mains wait while nobody asks, and then end within their
      grace period with no task left; which task the grace period cuts off; the
      process of ufos lives as long as its consumer.
    - slingshot: in every run, over changes outside and forgetting, a handle is
      only resolved to a DID whose document names it; cached values have the
      type of their key; the refresher drains or, on an unusable document, is
      stuck; a record served has the uri and CID asked for; however requests,
      refresher, stream and restarts interleave, it is what the stream said, or
      the server of the repository before it was stored, and since then or since
      the last restart the stream said nothing about it.  Runs show an old
      version that is fetched and cached, an event that is overwritten by an
      answer which is older, and records that outlive a restart.
    - who-am-i: the map of tasks implements a map with deadlines; the prompt is
      shown to listed pages only; tokens are only for DIDs that signed in,
      whatever cookies are replayed; a failed sign-in keeps the old session;
      tokens verify with the published keys, which hold no private part.

    ** Fuel and bounds

    [displace] gets one turn more than the list has slots, [spanning_loop] as
    many turns as the span has hours; the theorems show that neither runs out.
    [merge_records] gets one turn per entry of the feeds and one more, [chunks]
    one per entry of the list, [request_loop] two; the clients of the paging
    theorems get one request per entry of the list and one more.  None of them
    runs out.  Byte strings that go through bincode are bounded by its limit of
    one mebibyte.  All other recursion is structural.

    ** What is not modelled

    Metrics, logging, OpenAPI documents, rendering and templates; parsing of
    arguments; the set-up of caches, resolvers and listeners; routing in
    spacedust.  A request to constellation, ufos or who-am-i is one step of its
    service, also where who-am-i waits for another server; requests to slingshot
    run in segments in [SlingshotService], while the theorems of
    [SlingshotIdentity] and [SlingshotServer] are about one that is not
    interrupted.  An event of spacedust is one step of its consumer, although
    other tasks can run between its links; a backup is taken at one instant, of
    a snapshot, between any two batches of the writer; a task that is aborted is
    taken to stop.  Clocks and
    randomness are arguments.  Hash maps are finite maps whose iteration order
    is that of the model, and where it shows in a result the theorems are up to
    permutation.  Threads and tasks are modelled by the order of the steps they
    make on what they share.  Of who-am-i the attributes of cookies are
    left out.  A weak
    tombstone of fjall is only given a meaning for keys that were inserted at
    most once, by a count of insertions that the laws of its class keep.  No
    theorem covers the order of collections over several buckets, which its
    source describes as an approximation, nor the index by distinct users. *)

From Stdlib Require Export SpecFloat Ascii.
From stdpp Require Export base strings gmap option numbers list.

(** ** Scope and result type *)

Declare Scope microcosm_scope.
Delimit Scope microcosm_scope with mc.

(** [Result<T, E>] of the sources. *)
Inductive result (E A : Type) : Type :=
  | Ok (a : A)
  | Err (e : E).
Arguments Ok {E A} a.
Arguments Err {E A} e.

Definition result_bind {E A B} (r : result E A) (f : A → result E B) : result E B :=
  match r with Ok a => f a | Err e => Err e end.

(** The [?] operator: continue with the value or return the error. *)
Notation "x ←? r ; k" := (result_bind r (λ x, k))
  (at level 20, r at level 100, k at level 200, right associativity) : microcosm_scope.
Notation "' p ←? r ; k" := (result_bind r (λ x, match x with p => k end))
  (at level 20, p pattern, r at level 100, k at level 200, right associativity) : microcosm_scope.

#[global] Open Scope microcosm_scope.

Definition result_to_option {E A} (r : result E A) : option A :=
  match r with Ok a => Some a | Err _ => None end.

Lemma result_bind_Ok {E A B} (r : result E A) (f : A → result E B) b :
  result_bind r f = Ok b ↔ ∃ a, r = Ok a ∧ f a = Ok b.
Proof. destruct r; naive_solver. Qed.

(** Two outcomes of one computation. *)
Lemma ok_inj {E A} (r : result E A) a b : r = Ok a → r = Ok b → a = b.
Proof. intros -> E'. by injection E'. Qed.

(** ** Tactics *)

(** Case analysis on every [match]/[if] scrutinee of hypothesis [H], closing
    the branches that are contradictory. *)
Ltac break_in H :=
  repeat match type of H with
  | context [match ?x with _ => _ end] => destruct x eqn:?; simplify_eq/=; try done
  end.

(** The same for the goal. *)
Ltac break_goal :=
  repeat match goal with
  | |- context [match ?x with _ => _ end] => destruct x eqn:?; simplify_eq/=; try done
  end.

(** Hints shared by the components; each file adds the facts its proofs use
    without naming. *)
Create HintDb microcosm.

(** ** Monadic folds with failure *)

(** A [for] loop whose body may panic. *)
Fixpoint foldl_opt {A B} (f : B → A → option B) (b : B) (l : list A) : option B :=
  match l with
  | [] => Some b
  | a :: l => b' ← f b a; foldl_opt f b' l
  end.

Lemma foldl_opt_app {A B} (f : B → A → option B) b l1 l2 :
  foldl_opt f b (l1 ++ l2) = (b' ← foldl_opt f b l1; foldl_opt f b' l2).
Proof.
  revert b; induction l1 as [|a l1 IH]; intros b; simpl; [done|].
  destruct (f b a); simpl; auto.
Qed.

(** Loop invariants: a property of the state and of the elements still to be
    processed, that each iteration preserves without panicking. *)
Lemma foldl_opt_inv {A B} (f : B → A → option B) (P : B → list A → Prop) b l :
  P b l →
  (∀ b a l, P b (a :: l) → ∃ b', f b a = Some b' ∧ P b' l) →
  ∃ b', foldl_opt f b l = Some b' ∧ P b' [].
Proof.
  intros HP Hstep; revert b HP; induction l as [|a l IH]; intros b HP; simpl; [by eauto|].
  destruct (Hstep _ _ _ HP) as (b' & -> & HP'); simpl; eauto.
Qed.

(** The same loop with an error value ([?] or a panic in the body). *)
Fixpoint foldl_res {E A B} (f : B → A → result E B) (b : B) (l : list A) : result E B :=
  match l with
  | [] => Ok b
  | a :: l => b' ←? f b a; foldl_res f b' l
  end.

Lemma foldl_res_app {E A B} (f : B → A → result E B) b l1 l2 :
  foldl_res f b (l1 ++ l2) = (b' ←? foldl_res f b l1; foldl_res f b' l2).
Proof.
  revert b; induction l1 as [|a l1 IH]; intros b; simpl; [done|].
  destruct (f b a); simpl; auto.
Qed.

Lemma foldl_res_inv {E A B} (f : B → A → result E B) (P : B → list A → Prop) b l :
  P b l →
  (∀ b a l, P b (a :: l) → ∃ b', f b a = Ok b' ∧ P b' l) →
  ∃ b', foldl_res f b l = Ok b' ∧ P b' [].
Proof.
  intros HP Hstep; revert b HP; induction l as [|a l IH]; intros b HP; simpl; [by eauto|].
  destruct (Hstep _ _ _ HP) as (b' & -> & HP'); simpl; eauto.
Qed.

(** ** Occurrences *)

Section Occ.
Context {A : Type} `{EqDecision A}.
Implicit Types (x y : A) (l : list A).

(** Number of occurrences of [x] in [l]. *)
Definition occ x l : nat := length (filter (λ y, y = x) l).

Lemma occ_nil x : occ x [] = 0.
Proof. done. Qed.
Lemma occ_cons x y l : occ x (y :: l) = (if decide (y = x) then 1 else 0) + occ x l.
Proof. unfold occ. rewrite filter_cons. by case_decide. Qed.
Lemma occ_app x l1 l2 : occ x (l1 ++ l2) = occ x l1 + occ x l2.
Proof. unfold occ. by rewrite filter_app, length_app. Qed.
Lemma occ_pos x l : 0 < occ x l ↔ x ∈ l.
Proof.
  induction l as [|y l IH]; [rewrite occ_nil, elem_of_nil; lia|].
  rewrite occ_cons, elem_of_cons, <- IH. case_decide; [split; [by auto|lia]|].
  split; [intros; right; lia|]. intros [->|]; [done|lia].
Qed.
Lemma occ_zero x l : occ x l = 0 ↔ x ∉ l.
Proof. rewrite <- occ_pos. lia. Qed.
Lemma occ_replicate x y n : occ x (replicate n y) = if decide (y = x) then n else 0.
Proof. induction n as [|n IH]; simpl; [by case_decide|]. rewrite occ_cons, IH. by case_decide. Qed.
Lemma occ_NoDup x l : NoDup l → x ∈ l → occ x l = 1.
Proof.
  induction 1 as [|y l Hy Hl IH]; [by intros ?%not_elem_of_nil|]. rewrite occ_cons, elem_of_cons.
  intros [->|Hx]; case_decide as E; try done.
  - apply occ_zero in Hy. lia.
  - by subst.
  - auto.
Qed.

#[global] Instance occ_perm x : Proper ((≡ₚ) ==> (=)) (occ x).
Proof. intros l1 l2 Hl. unfold occ. by rewrite Hl. Qed.

Lemma occ_NoDup_le x l : NoDup l → occ x l ≤ 1.
Proof.
  intros Hnd. destruct (decide (x ∈ l)) as [Hx|Hx].
  - by rewrite occ_NoDup.
  - apply occ_zero in Hx. lia.
Qed.
Lemma occ_le_NoDup l : (∀ x, occ x l ≤ 1) → NoDup l.
Proof.
  induction l as [|y l IH]; intros Hl; constructor.
  - intros Hy%occ_pos. specialize (Hl y). rewrite occ_cons, decide_True in Hl by done. lia.
  - apply IH. intros x. specialize (Hl x). rewrite occ_cons in Hl. case_decide; lia.
Qed.

Lemma occ_Permutation l1 l2 : (∀ x, occ x l1 = occ x l2) → l1 ≡ₚ l2.
Proof.
  revert l2; induction l1 as [|x l1 IH]; intros l2 Hocc.
  - destruct l2 as [|y l2]; [done|]. specialize (Hocc y). rewrite occ_cons in Hocc.
    by rewrite decide_True in Hocc.
  - assert (x ∈ l2) as Hx.
    { apply occ_pos. rewrite <- Hocc, occ_cons. rewrite decide_True by done. lia. }
    apply list_elem_of_split in Hx as (l3 & l4 & ->).
    rewrite <- Permutation_middle. f_equiv. apply IH. intros y. specialize (Hocc y).
    rewrite <- Permutation_middle, !occ_cons in Hocc. lia.
Qed.
End Occ.

(** ** Replacing the last or the first match, in place *)

Section Replace.
Context {A : Type}.
Implicit Types (p : A → bool) (l : list A).

(** [*l.iter_mut().rfind(p)? = y]. *)
Fixpoint replace_last p (y : A) l : option (list A) :=
  match l with
  | [] => None
  | x :: l =>
      match replace_last p y l with
      | Some l' => Some (x :: l')
      | None => if p x then Some (y :: l) else None
      end
  end.

(** [*l.iter_mut().find(p)? = y]. *)
Fixpoint replace_first p (y : A) l : option (list A) :=
  match l with
  | [] => None
  | x :: l => if p x then Some (y :: l) else cons x <$> replace_first p y l
  end.

Lemma replace_last_None p y l : replace_last p y l = None ↔ Forall (λ x, p x = false) l.
Proof.
  induction l as [|x l IH]; simpl; [done|]. rewrite Forall_cons, <- IH.
  destruct (replace_last p y l); [naive_solver|]. destruct (p x); naive_solver.
Qed.

Lemma replace_last_Some p y l l' :
  replace_last p y l = Some l' →
  ∃ l1 x l2, l = l1 ++ x :: l2 ∧ p x = true ∧ l' = l1 ++ y :: l2.
Proof.
  revert l'; induction l as [|x l IH]; intros l'; simpl; [done|].
  destruct (replace_last p y l) as [l''|] eqn:E.
  - intros [= <-]. destruct (IH _ eq_refl) as (l1 & z & l2 & -> & ? & ->). by exists (x :: l1), z, l2.
  - destruct (p x) eqn:Hx; [|done]. intros [= <-]. by exists [], x, l.
Qed.

Lemma replace_first_None p y l : replace_first p y l = None ↔ Forall (λ x, p x = false) l.
Proof.
  induction l as [|x l IH]; simpl; [done|]. rewrite Forall_cons, <- IH.
  destruct (p x); [naive_solver|]. destruct (replace_first p y l); naive_solver.
Qed.

Lemma replace_first_Some p y l l' :
  replace_first p y l = Some l' →
  ∃ l1 x l2, l = l1 ++ x :: l2 ∧ p x = true ∧ l' = l1 ++ y :: l2.
Proof.
  revert l'; induction l as [|x l IH]; intros l'; simpl; [done|].
  destruct (p x) eqn:Hx; [intros [= <-]; by exists [], x, l|].
  destruct (replace_first p y l) as [l''|]; [|done]. intros [= <-].
  destruct (IH _ eq_refl) as (l1 & z & l2 & -> & ? & ->). by exists (x :: l1), z, l2.
Qed.

(** With at most one match, both are a [map]. *)
Lemma replace_none_map p y l : Forall (λ x, p x = false) l → map (λ x, if p x then y else x) l = l.
Proof. induction 1 as [|x l Hx Hl IH]; simpl; [done|]. by rewrite Hx, IH. Qed.

Lemma replace_last_unique p y l1 x l2 :
  p x = true → Forall (λ x, p x = false) (l1 ++ l2) →
  replace_last p y (l1 ++ x :: l2) = Some (map (λ x, if p x then y else x) (l1 ++ x :: l2)).
Proof.
  intros Hx [Hl1 Hl2]%Forall_app. rewrite map_app. simpl. rewrite Hx, !replace_none_map by done.
  clear Hl1. induction l1 as [|z l1 IH]; simpl; [|by rewrite IH].
  by rewrite (proj2 (replace_last_None p y l2) Hl2), Hx.
Qed.

Lemma replace_first_unique p y l1 x l2 :
  p x = true → Forall (λ x, p x = false) (l1 ++ l2) →
  replace_first p y (l1 ++ x :: l2) = Some (map (λ x, if p x then y else x) (l1 ++ x :: l2)).
Proof.
  intros Hx [Hl1 Hl2]%Forall_app. rewrite map_app. simpl. rewrite Hx, !replace_none_map by done.
  induction Hl1 as [|z l1 Hz Hl1 IH]; simpl; [by rewrite Hx|]. by rewrite Hz, IH.
Qed.
End Replace.

(** Parallel lists with matching predicates are replaced in parallel. *)
Lemma Forall2_replace_last {A B} (R : A → B → Prop) p p' y y' l l' :
  Forall2 R l l' → (∀ x x', R x x' → p x = p' x') → R y y' →
  option_Forall2 (Forall2 R) (replace_last p y l) (replace_last p' y' l').
Proof.
  intros Hl Hp Hy. induction Hl as [|x x' l l' Hx Hl IH]; simpl; [constructor|].
  destruct IH as [l1 l1' Hl1|]; [by repeat constructor|]. rewrite (Hp _ _ Hx).
  destruct (p' x'); repeat constructor; done.
Qed.

(** At most one occurrence: [rfind] and replace is a [map]. *)
Lemma replace_last_occ {A} `{EqDecision A} (x y : A) l :
  occ x l ≤ 1 →
  default l (replace_last (λ z, bool_decide (z = x)) y l) = map (λ z, if decide (z = x) then y else z) l.
Proof.
  intros Hocc.
  assert (Hmap : ∀ l, map (λ z, if bool_decide (z = x) then y else z) l = map (λ z, if decide (z = x) then y else z) l).
  { intros l'. apply map_ext. intros z. rewrite <- decide_bool_decide. by case_decide. }
  destruct (decide (x ∈ l)) as [Hin|Hnin].
  - apply list_elem_of_split in Hin as (l1 & l2 & ->).
    rewrite replace_last_unique; [apply Hmap|by apply bool_decide_eq_true|].
    rewrite occ_app, occ_cons, decide_True in Hocc by done.
    apply Forall_forall. intros z Hz. apply bool_decide_eq_false. intros ->.
    apply occ_pos in Hz. rewrite occ_app in Hz. lia.
  - rewrite (proj2 (replace_last_None _ y l)).
    + simpl. rewrite <- Hmap. symmetry. apply replace_none_map.
      apply Forall_forall. intros z Hz. apply bool_decide_eq_false. by intros ->.
    + apply Forall_forall. intros z Hz. apply bool_decide_eq_false. by intros ->.
Qed.

(** ** Maps of maps with defaults *)

Section MapMap.
Context `{Countable K1, Countable K2} {V : Type}.
Implicit Types m : gmap K1 (gmap K2 (list V)).

(** Reading a nested map of lists, absent meaning empty. *)
Definition get2 m (k1 : K1) (k2 : K2) : list V :=
  default [] (m !! k1 ≫= (lookup k2 : gmap K2 (list V) → option (list V))).

(** [m.entry(k1).or_default().entry(k2).or_default()] set to [f] of it. *)
Definition update2 (f : list V → list V) (k1 : K1) (k2 : K2) m : gmap K1 (gmap K2 (list V)) :=
  let inner := default ∅ (m !! k1) in
  <[k1 := <[k2 := f (default [] (inner !! k2))]> inner]> m.

Lemma lookup2_update2 f k1 k2 m j1 j2 :
  update2 f k1 k2 m !! j1 ≫= lookup j2 =
  if decide (j1 = k1 ∧ j2 = k2) then Some (f (get2 m k1 k2)) else m !! j1 ≫= lookup j2.
Proof.
  unfold get2, update2. destruct (decide (j1 = k1)) as [->|Hne].
  - rewrite lookup_insert_eq. simpl. destruct (decide (j2 = k2)) as [->|Hne2].
    + rewrite lookup_insert_eq, decide_True by done. do 2 f_equal.
      destruct (m !! k1); simpl; [done|]. by rewrite lookup_empty.
    + rewrite lookup_insert_ne, decide_False by naive_solver.
      destruct (m !! k1); simpl; [done|]. by rewrite lookup_empty.
  - rewrite lookup_insert_ne, decide_False by naive_solver. done.
Qed.

Lemma get2_update2 f k1 k2 m j1 j2 :
  get2 (update2 f k1 k2 m) j1 j2 =
  if decide (j1 = k1 ∧ j2 = k2) then f (get2 m k1 k2) else get2 m j1 j2.
Proof. unfold get2 at 1. rewrite lookup2_update2. by case_decide. Qed.
End MapMap.

(** ** Occurrences in a flattened map *)

Lemma occ_flat_map_keys {K V B} `{Countable K} `{EqDecision B} (f : K * V → list B)
    (l : list (K * V)) (k : K) (x : B) :
  NoDup l.*1 → (∀ k' v, k' ≠ k → x ∉ f (k', v)) →
  occ x (flat_map f l) =
  match (list_to_map l : gmap K V) !! k with Some v => occ x (f (k, v)) | None => 0 end.
Proof.
  intros Hnd Hf. induction l as [|[k' v'] l IH]; simpl; [by rewrite lookup_empty|].
  apply NoDup_cons in Hnd as [Hk Hnd]. rewrite occ_app, IH by done.
  destruct (decide (k' = k)) as [->|Hne].
  - rewrite lookup_insert_eq, (not_elem_of_list_to_map_1 l k) by done. lia.
  - rewrite lookup_insert_ne by done. by rewrite (proj2 (occ_zero x (f (k', v')))) by auto.
Qed.

Lemma occ_flat_map_map {K V B} `{Countable K} `{EqDecision B} (f : K * V → list B)
    (m : gmap K V) (k : K) (x : B) :
  (∀ k' v, k' ≠ k → x ∉ f (k', v)) →
  occ x (flat_map f (map_to_list m)) = match m !! k with Some v => occ x (f (k, v)) | None => 0 end.
Proof.
  intros Hf. rewrite (occ_flat_map_keys _ _ k) by (done || apply NoDup_fst_map_to_list).
  by rewrite list_to_map_to_list.
Qed.

Lemma elem_of_flat_map {A B} (f : A → list B) (l : list A) y :
  y ∈ flat_map f l ↔ ∃ x, x ∈ l ∧ y ∈ f x.
Proof.
  rewrite list_elem_of_In, in_flat_map. setoid_rewrite list_elem_of_In. done.
Qed.

Lemma Forall2_elem_l {A B} (R : A → B → Prop) l k x : Forall2 R l k → x ∈ l → ∃ y, R x y ∧ y ∈ k.
Proof.
  induction 1 as [|a b l k Hab Hl IH]; intros Hx; [by apply not_elem_of_nil in Hx|].
  apply elem_of_cons in Hx as [->|Hx]; [exists b; split; [done|by left]|].
  destruct (IH Hx) as (y & ? & ?). exists y. split; [done|by right].
Qed.

Lemma Forall2_elem_r {A B} (R : A → B → Prop) l k y : Forall2 R l k → y ∈ k → ∃ x, R x y ∧ x ∈ l.
Proof. intros HF. apply (Forall2_elem_l (flip R)). by apply Forall2_flip. Qed.

(** Without duplicates, the parts of a [flat_map] are disjoint. *)
Lemma NoDup_flat_map_disjoint {A B} (f : A → list B) l x y z :
  NoDup (flat_map f l) → x ∈ l → y ∈ l → z ∈ f x → z ∈ f y → x = y.
Proof.
  induction l as [|a l IH]; simpl; intros Hnd Hx Hy Hzx Hzy; [by apply not_elem_of_nil in Hx|].
  apply NoDup_app in Hnd as (_ & Hdisj & Hnd).
  apply elem_of_cons in Hx as [->|Hx], Hy as [->|Hy]; [done| | |by apply IH].
  - destruct (Hdisj z Hzx). apply elem_of_flat_map. eauto.
  - destruct (Hdisj z Hzy). apply elem_of_flat_map. eauto.
Qed.

(** An element of a [flat_map] splits the list it comes from. *)
Lemma flat_map_split {A B} (f : A → list B) l a x b :
  flat_map f l = a ++ x :: b →
  ∃ l1 y l2 a2 b1, l = l1 ++ y :: l2 ∧ f y = a2 ++ x :: b1 ∧
    a = flat_map f l1 ++ a2 ∧ b = b1 ++ flat_map f l2.
Proof.
  revert a; induction l as [|y l IH]; intros a; simpl; [by destruct a|]. intros E.
  apply app_eq_app in E as (k & [[Hy Hb]|[Ha Hb]]).
  - destruct k as [|x' k]; simpl in Hb.
    + destruct (IH [] (eq_sym Hb)) as (l1 & z & l2 & a2 & b1 & -> & Hz & Ha & ->).
      exists (y :: l1), z, l2, a2, b1. split_and!; [done|done| |done].
      simpl. rewrite Hy, app_nil_r, <- app_assoc, <- Ha. by rewrite app_nil_r.
    + injection Hb as -> ->. by exists [], y, l, a, k.
  - destruct (IH k Hb) as (l1 & z & l2 & a2 & b1 & -> & Hz & -> & ->).
    exists (y :: l1), z, l2, a2, b1. split_and!; [done|done| |done]. by rewrite Ha, app_assoc.
Qed.

(** Success as a test, for runs that are evaluated. *)
Lemma elem_of_rev {A} (x : A) l : x ∈ rev l ↔ x ∈ l.
Proof. by rewrite !list_elem_of_In, <- in_rev. Qed.

Lemma if_decide_iff {A} (P Q : Prop) `{Decision P, Decision Q} (a b : A) :
  (P ↔ Q) → (if decide P then a else b) = (if decide Q then a else b).
Proof. intros HPQ. repeat case_decide; tauto. Qed.

Definition is_ok {E A} (r : result E A) : bool := match r with Ok _ => true | Err _ => false end.
Lemma is_ok_Ok {E A} (r : result E A) : is_ok r = true → ∃ a, r = Ok a.
Proof. destruct r; [by eexists|done]. Qed.

(** [Result::ok]. *)
Definition ok {E A} (r : result E A) : option A := match r with Ok a => Some a | Err _ => None end.
