(* ===== verification/RustStr.v ===== *)
(** * Rust strings

    The [str]/[String]/[char] operations the sources call, on [string] read as
    the UTF-8 bytes of the Rust string (one [ascii] is one byte), with the
    lemmas that relate them to concatenation. *)

From S2P Require Import Prelude.

(** ** Bytes *)

Definition byte_n (c : ascii) : N := N_of_ascii c.

Definition between (lo hi : ascii) (c : ascii) : bool :=
  ((byte_n lo <=? byte_n c) && (byte_n c <=? byte_n hi))%N.

(** [char::is_ascii_lowercase], and the pattern ['a'..='z']. *)
Definition is_ascii_lowercase (c : ascii) : bool := between "a" "z" c.
Definition is_ascii_uppercase (c : ascii) : bool := between "A" "Z" c.
Definition is_ascii_digit (c : ascii) : bool := between "0" "9" c.

(** [u8::is_ascii]. *)
Definition byte_is_ascii (c : ascii) : bool := (byte_n c <? 128)%N.

Definition byte_to_ascii_lowercase (c : ascii) : ascii :=
  if is_ascii_uppercase c then ascii_of_N (byte_n c + 32) else c.
Definition byte_to_ascii_uppercase (c : ascii) : ascii :=
  if is_ascii_lowercase c then ascii_of_N (byte_n c - 32) else c.

(** [is_utf8_char_boundary]: a byte that is not a continuation byte. *)
Definition byte_is_boundary (c : ascii) : bool :=
  negb ((128 <=? byte_n c) && (byte_n c <? 192))%N.

(** ** Searching and splitting *)

Fixpoint str_forallb (p : ascii → bool) (s : string) : bool :=
  match s with
  | EmptyString => true
  | String c s => p c && str_forallb p s
  end.

(** [str::contains(char)]. *)
Fixpoint str_contains (c : ascii) (s : string) : bool :=
  match s with
  | EmptyString => false
  | String d s => bool_decide (d = c) || str_contains c s
  end.

Fixpoint str_map (f : ascii → ascii) (s : string) : string :=
  match s with
  | EmptyString => EmptyString
  | String c s => String (f c) (str_map f s)
  end.

Definition is_ascii : string → bool := str_forallb byte_is_ascii.
Definition to_ascii_lowercase : string → string := str_map byte_to_ascii_lowercase.
Definition to_ascii_uppercase : string → string := str_map byte_to_ascii_uppercase.

(** [str::eq_ignore_ascii_case]. *)
Definition eq_ignore_ascii_case (s t : string) : bool :=
  bool_decide (to_ascii_lowercase s = to_ascii_lowercase t).

(** [str::split_once(char)]: split at the first occurrence. *)
Fixpoint split_once (c : ascii) (s : string) : option (string * string) :=
  match s with
  | EmptyString => None
  | String d s =>
      if bool_decide (d = c) then Some (EmptyString, s)
      else match split_once c s with
           | Some (a, b) => Some (String d a, b)
           | None => None
           end
  end.

(** [str::split(char)]: the segments between occurrences; never empty. *)
Fixpoint split_first (c : ascii) (s : string) : string * list string :=
  match s with
  | EmptyString => (EmptyString, [])
  | String d s =>
      let '(h, t) := split_first c s in
      if bool_decide (d = c) then (EmptyString, h :: t) else (String d h, t)
  end.
Definition str_split (c : ascii) (s : string) : list string :=
  let '(h, t) := split_first c s in h :: t.

(** [str::strip_prefix]. *)
Fixpoint strip_prefix (p s : string) : option string :=
  match p, s with
  | EmptyString, s => Some s
  | String _ _, EmptyString => None
  | String c p, String d s => if bool_decide (c = d) then strip_prefix p s else None
  end.

Definition starts_with (p s : string) : bool :=
  match strip_prefix p s with Some _ => true | None => false end.

(** [str::ends_with(char)]. *)
Fixpoint ends_with (c : ascii) (s : string) : bool :=
  match s with
  | EmptyString => false
  | String d EmptyString => bool_decide (d = c)
  | String _ s => ends_with c s
  end.

(** [str::trim_end_matches(char)]. *)
Fixpoint trim_end_matches (c : ascii) (s : string) : string :=
  match s with
  | EmptyString => EmptyString
  | String d s =>
      match trim_end_matches c s with
      | EmptyString => if bool_decide (d = c) then EmptyString else String d EmptyString
      | t => String d t
      end
  end.

Fixpoint str_split_at (n : nat) (s : string) : option (string * string) :=
  match n, s with
  | O, s => Some (EmptyString, s)
  | S _, EmptyString => None
  | S n, String c s =>
      match str_split_at n s with Some (a, b) => Some (String c a, b) | None => None end
  end.

(** [str::split_at_checked]: [None] past the end or inside a character. *)
Definition split_at_checked (n : nat) (s : string) : option (string * string) :=
  match str_split_at n s with
  | Some (a, b) =>
      match n, b with
      | S _, String c _ => if byte_is_boundary c then Some (a, b) else None
      | _, _ => Some (a, b)
      end
  | None => None
  end.

(** ** Numbers in text *)

(** [char::to_digit(16)]. *)
Definition hex_digit (c : ascii) : option N :=
  if is_ascii_digit c then Some (byte_n c - 48)%N
  else if between "a" "f" c then Some (byte_n c - 87)%N
  else if between "A" "F" c then Some (byte_n c - 55)%N
  else None.

Fixpoint hex_digits (acc : N) (s : string) : option N :=
  match s with
  | EmptyString => Some acc
  | String c s =>
      d ← hex_digit c;
      let acc := (acc * 16 + d)%N in
      if (acc <? 256)%N then hex_digits acc s else None
  end.

(** [u8::from_str_radix(s, 16)]: a leading [+] is accepted when digits follow. *)
Definition u8_from_hex (s : string) : option N :=
  match s with
  | EmptyString => None
  | String c EmptyString => hex_digits 0 s
  | String c rest => if bool_decide (c = "+"%char) then hex_digits 0 rest else hex_digits 0 s
  end.

Fixpoint dec_digits (acc : N) (s : string) : option N :=
  match s with
  | EmptyString => Some acc
  | String c s =>
      if is_ascii_digit c then
        let acc := (acc * 10 + (byte_n c - 48))%N in
        if (acc <? 2 ^ 64)%N then dec_digits acc s else None
      else None
  end.

(** [str::parse::<u64>]. *)
Definition parse_u64 (s : string) : option N :=
  match s with
  | EmptyString => None
  | String c EmptyString => dec_digits 0 s
  | String c rest => if bool_decide (c = "+"%char) then dec_digits 0 rest else dec_digits 0 s
  end.

(** ** Lemmas *)

Lemma str_app_nil_r s : s +:+ "" = s.
Proof. induction s as [|c s IH]; [done|]. change (String c (s +:+ "") = String c s). by rewrite IH. Qed.

Lemma str_app_cons c a b : String c a +:+ b = String c (a +:+ b).
Proof. done. Qed.

Lemma str_app_nil_l (a : string) : "" +:+ a = a.
Proof. done. Qed.

(** Push [+:+] inwards and simplify equations between strings. *)
Ltac str_simpl :=
  repeat (rewrite ?str_app_cons, ?str_app_nil_l in *; simplify_eq/=).

Lemma str_app_assoc a b c : (a +:+ b) +:+ c = a +:+ (b +:+ c).
Proof. induction a as [|d a IH]; [done|]. by rewrite !str_app_cons, IH. Qed.

Lemma str_length_app a b : String.length (a +:+ b) = String.length a + String.length b.
Proof. induction a as [|d a IH]; [done|]. rewrite str_app_cons. simpl. by rewrite IH. Qed.

Lemma str_app_inj_l a b c : a +:+ b = a +:+ c → b = c.
Proof. induction a as [|d a IH]; [done|]. rewrite !str_app_cons. intros; simplify_eq; auto. Qed.

Lemma str_app_inj_len a b c d :
  String.length a = String.length c → a +:+ b = c +:+ d → a = c ∧ b = d.
Proof.
  revert c; induction a as [|x a IH]; intros [|y c]; simpl; try done.
  rewrite !str_app_cons. intros Hlen Heq; simplify_eq. destruct (IH c) as [-> ->]; auto.
Qed.

Lemma str_forallb_app p a b : str_forallb p (a +:+ b) = str_forallb p a && str_forallb p b.
Proof. induction a as [|c a IH]; [done|]. rewrite str_app_cons; simpl. rewrite IH. by destruct (p c). Qed.

Lemma str_contains_app c a b : str_contains c (a +:+ b) = str_contains c a || str_contains c b.
Proof.
  induction a as [|d a IH]; [done|]. rewrite str_app_cons; simpl. rewrite IH. by destruct (bool_decide _).
Qed.

Lemma split_once_Some c s a b :
  split_once c s = Some (a, b) ↔ s = a +:+ String c b ∧ str_contains c a = false.
Proof.
  revert a b; induction s as [|d s IH]; intros a b; simpl.
  { split; [done|]. intros [H _]. destruct a; discriminate H. }
  case_bool_decide as Hd.
  - subst d. split; [intros [= <- <-]; by split|].
    intros [H Hc]. destruct a as [|x a]; [by str_simpl|].
    rewrite str_app_cons in H; simplify_eq. simpl in Hc. by rewrite bool_decide_true in Hc.
  - destruct (split_once c s) as [[a' b']|] eqn:E.
    + destruct (IH a' b') as [H1 _]. destruct (H1 eq_refl) as [-> Hc]. split.
      * intros [= <- <-]. split; [done|]. simpl. by rewrite bool_decide_false.
      * intros [H Hc']. destruct a as [|x a]; [by str_simpl|].
        rewrite str_app_cons in H. simplify_eq. simpl in Hc'.
        apply orb_false_iff in Hc' as [_ Hc'].
        assert (Some (a', b') = Some (a, b)) as [= -> ->]; [|done].
        apply IH. done.
    + split; [done|]. intros [H Hc]. destruct a as [|x a]; [by str_simpl|].
      rewrite str_app_cons in H. simplify_eq. simpl in Hc. apply orb_false_iff in Hc as [_ Hc].
      destruct (IH a b) as [_ H2]. by discriminate H2.
Qed.

Lemma split_once_None c s : split_once c s = None ↔ str_contains c s = false.
Proof.
  induction s as [|d s IH]; simpl; [done|].
  case_bool_decide; simpl; [done|]. rewrite <- IH. by destruct (split_once c s) as [[??]|].
Qed.

Lemma split_once_app c a b :
  str_contains c a = false → split_once c (a +:+ String c b) = Some (a, b).
Proof. intros. by apply split_once_Some. Qed.

Lemma strip_prefix_Some p s t : strip_prefix p s = Some t ↔ s = p +:+ t.
Proof.
  revert s; induction p as [|c p IH]; intros s; simpl.
  { rewrite str_app_nil_l. naive_solver. }
  rewrite str_app_cons. destruct s as [|d s]; [done|].
  case_bool_decide; [subst; rewrite IH; naive_solver|naive_solver].
Qed.

Lemma strip_prefix_app p t : strip_prefix p (p +:+ t) = Some t.
Proof. by apply strip_prefix_Some. Qed.

Lemma starts_with_spec p s : starts_with p s = true ↔ ∃ t, s = p +:+ t.
Proof.
  unfold starts_with. destruct (strip_prefix p s) as [t|] eqn:E.
  - apply strip_prefix_Some in E. naive_solver.
  - split; [done|]. intros [t ->]. by rewrite strip_prefix_app in E.
Qed.

Lemma ends_with_spec c s : ends_with c s = true ↔ ∃ t, s = t +:+ String c "".
Proof.
  induction s as [|d s IH].
  { split; [done|]. intros [[|??] ?]; discriminate. }
  destruct s as [|e s].
  - simpl. rewrite bool_decide_eq_true. split.
    + intros ->. by exists "".
    + intros [[|x [|y t]] Ht]; by str_simpl.
  - change (ends_with c (String d (String e s))) with (ends_with c (String e s)).
    rewrite IH. split.
    + intros [t ->]. by exists (String d t).
    + intros [[|x t] Ht]; str_simpl. eauto.
Qed.

Lemma trim_end_matches_no_suffix c s : ends_with c (trim_end_matches c s) = false.
Proof.
  induction s as [|d s IH]; [done|]. simpl.
  destruct (trim_end_matches c s) as [|e t].
  - case_bool_decide; [done|]. simpl. by rewrite bool_decide_false.
  - done.
Qed.

Lemma trim_end_matches_id c s : ends_with c s = false → trim_end_matches c s = s.
Proof.
  induction s as [|d s IH]; [done|]. destruct s as [|e s].
  - simpl. by case_bool_decide.
  - intros H. change (ends_with c (String e s) = false) in H. specialize (IH H).
    simpl in IH |- *. by rewrite IH.
Qed.

Lemma trim_end_matches_forallb p c s :
  str_forallb p s = true → str_forallb p (trim_end_matches c s) = true.
Proof.
  induction s as [|d s IH]; [done|]. simpl. intros [Hd Hs]%andb_true_iff. specialize (IH Hs).
  destruct (trim_end_matches c s); [case_bool_decide; simpl; by rewrite ?Hd|]. simpl in *. by rewrite Hd.
Qed.

Lemma str_split_at_Some n s a b :
  str_split_at n s = Some (a, b) ↔ s = a +:+ b ∧ String.length a = n.
Proof.
  revert s a b; induction n as [|n IH]; intros s a b; simpl.
  { split; [intros [= <- <-]; done|]. intros [-> Hl]. by destruct a. }
  destruct s as [|c s].
  { split; [done|]. intros [H Hl]. destruct a; [done|]. discriminate H. }
  destruct (str_split_at n s) as [[a' b']|] eqn:E.
  - apply IH in E as [-> <-]. split.
    + intros [= <- <-]. done.
    + intros [H Hl]. destruct a as [|x a]; [done|]. rewrite str_app_cons in H. simplify_eq/=.
      destruct (str_app_inj_len a' b' a b) as [-> ->]; congruence.
  - split; [done|]. intros [H Hl]. destruct a as [|x a]; [done|]. rewrite str_app_cons in H.
    simplify_eq/=. destruct (IH (a +:+ b) a b) as [_ H2]. rewrite E in H2. by discriminate H2.
Qed.

Lemma split_at_checked_Some n s a b :
  split_at_checked n s = Some (a, b) → s = a +:+ b ∧ String.length a = n.
Proof.
  unfold split_at_checked. intros H.
  destruct (str_split_at n s) as [[a' b']|] eqn:E; [|done].
  apply str_split_at_Some in E. by break_in H.
Qed.

(** On ASCII input every index is a character boundary. *)
Lemma byte_is_ascii_boundary c : byte_is_ascii c = true → byte_is_boundary c = true.
Proof.
  unfold byte_is_ascii, byte_is_boundary. intros H%N.ltb_lt.
  by rewrite (proj2 (N.leb_gt _ _) H).
Qed.

Lemma split_at_checked_ascii n s :
  is_ascii s = true → split_at_checked n s = str_split_at n s.
Proof.
  unfold split_at_checked. intros Ha. destruct (str_split_at n s) as [[a b]|] eqn:E; [|done].
  apply str_split_at_Some in E as [-> _]. unfold is_ascii in Ha.
  rewrite str_forallb_app in Ha. apply andb_true_iff in Ha as [_ Hb].
  destruct n, b; try done. simpl in Hb. apply andb_true_iff in Hb as [Hb _].
  by rewrite byte_is_ascii_boundary.
Qed.

Lemma split_at_checked_app a b :
  str_forallb byte_is_boundary b = true → split_at_checked (String.length a) (a +:+ b) = Some (a, b).
Proof.
  intros Hb. unfold split_at_checked.
  rewrite (proj2 (str_split_at_Some _ _ a b)) by done.
  destruct (String.length a), b; try done. simpl in Hb. apply andb_true_iff in Hb as [-> _]. done.
Qed.

(** Literals are not unrolled by [simpl]; the lemmas above are used instead. *)
#[global] Arguments strip_prefix : simpl never.
#[global] Arguments split_at_checked : simpl never.
#[global] Arguments str_split_at : simpl never.
#[global] Arguments starts_with : simpl never.
