(* ===== verification/Bytes.v ===== *)
(** * Fixed-width integers as bytes

    [u64::to_be_bytes], [to_le_bytes] and their inverses, on [string] read as
    a byte vector, with the facts the key encodings rely on: fixed length,
    injectivity, round trips, and that big-endian bytes sort like numbers. *)

From S2P Require Import Prelude RustStr.

#[local] Open Scope N_scope.

Definition u64_bound : N := 2 ^ 64.

Definition byte_of (v : N) : ascii := ascii_of_N (v mod 256).

(** Little endian, [n] bytes. *)
Fixpoint le_bytes (n : nat) (v : N) : string :=
  match n with
  | O => EmptyString
  | S n => String (byte_of v) (le_bytes n (v / 256))
  end.

(** Big endian, [n] bytes. *)
Fixpoint be_bytes (n : nat) (v : N) : string :=
  match n with
  | O => EmptyString
  | S n => String (byte_of (v / 256 ^ N.of_nat n)) (be_bytes n v)
  end.

Fixpoint le_value (s : string) : N :=
  match s with
  | EmptyString => 0
  | String c s => byte_n c + 256 * le_value s
  end.

Fixpoint be_value (s : string) : N :=
  match s with
  | EmptyString => 0
  | String c s => byte_n c * 256 ^ N.of_nat (String.length s) + be_value s
  end.

Definition u64_to_be_bytes : N → string := be_bytes 8.
Definition u64_to_le_bytes : N → string := le_bytes 8.

(** [u64::from_be_bytes] of exactly eight bytes, else [None]. *)
Definition u64_from_be_bytes (s : string) : option N :=
  if bool_decide (String.length s = 8%nat) then Some (be_value s) else None.
Definition u64_from_le_bytes (s : string) : option N :=
  if bool_decide (String.length s = 8%nat) then Some (le_value s) else None.

Lemma byte_n_byte_of v : byte_n (byte_of v) = v mod 256.
Proof. unfold byte_n, byte_of. apply N_ascii_embedding. apply N.mod_lt. lia. Qed.

Lemma byte_n_lt c : byte_n c < 256.
Proof. apply N_ascii_bounded. Qed.

Lemma byte_n_inj c d : byte_n c = byte_n d → c = d.
Proof. unfold byte_n. intros H. by rewrite <- (ascii_N_embedding c), H, ascii_N_embedding. Qed.

Lemma be_bytes_length n v : String.length (be_bytes n v) = n.
Proof. induction n; simpl; congruence. Qed.

Lemma le_bytes_length n v : String.length (le_bytes n v) = n.
Proof. revert v; induction n; intros; simpl; congruence. Qed.

Lemma pow256_S n : 256 ^ N.of_nat (S n) = 256 * 256 ^ N.of_nat n.
Proof. rewrite Nat2N.inj_succ, N.pow_succ_r'. done. Qed.

Lemma pow256_pos n : 0 < 256 ^ N.of_nat n.
Proof. apply N.neq_0_lt_0, N.pow_nonzero. lia. Qed.

Lemma be_value_bytes n v : be_value (be_bytes n v) = v mod 256 ^ N.of_nat n.
Proof.
  induction n as [|n IH]; [simpl; by rewrite N.mod_1_r|].
  cbn [be_bytes be_value]. rewrite be_bytes_length, byte_n_byte_of, IH, pow256_S.
  pose proof (pow256_pos n). rewrite (N.mul_comm 256), N.Div0.mod_mul_r. lia.
Qed.

Lemma le_value_bytes n v : le_value (le_bytes n v) = v mod 256 ^ N.of_nat n.
Proof.
  revert v; induction n as [|n IH]; intros v; [simpl; by rewrite N.mod_1_r|].
  cbn [le_bytes le_value]. rewrite byte_n_byte_of, IH, pow256_S.
  pose proof (pow256_pos n). rewrite N.Div0.mod_mul_r. lia.
Qed.

Lemma be_value_lt s : be_value s < 256 ^ N.of_nat (String.length s).
Proof.
  induction s as [|c s IH]; simpl; [lia|]. pose proof (byte_n_lt c).
  change (String.length (String c s)) with (S (String.length s)). rewrite pow256_S. nia.
Qed.

Lemma be_bytes_value s : be_bytes (String.length s) (be_value s) = s.
Proof.
  induction s as [|c s IH]; [done|]. cbn [String.length be_bytes be_value].
  pose proof (pow256_pos (String.length s)) as Hp. pose proof (be_value_lt s) as Hs. f_equal.
  - apply byte_n_inj. rewrite byte_n_byte_of.
    rewrite N.div_add_l, (N.div_small (be_value s)), N.add_0_r by lia.
    apply N.mod_small, byte_n_lt.
  - etrans; [|exact IH]. clear IH Hp. revert Hs. generalize (be_value s), (String.length s); intros v n Hs.
    assert (∀ k, (k ≤ n)%nat → be_bytes k (byte_n c * 256 ^ N.of_nat n + v) = be_bytes k v) as Hk; [|by apply Hk].
    induction k as [|k IHk]; intros Hk; [done|]. simpl. rewrite IHk by lia. f_equal.
    unfold byte_of. f_equal. pose proof (pow256_pos k).
    replace (256 ^ N.of_nat n) with (256 ^ N.of_nat k * (256 * 256 ^ N.of_nat (n - S k))).
    + rewrite (N.mul_comm (byte_n c)), <- N.mul_assoc, N.mul_comm, N.div_add_l by lia.
      rewrite <- N.mul_assoc, (N.mul_comm 256), N.add_comm, N.Div0.mod_add. done.
    + rewrite N.mul_assoc, (N.mul_comm _ 256), <- pow256_S, <- N.pow_add_r. f_equal. lia.
Qed.

Lemma u64_be_roundtrip v : v < u64_bound → u64_from_be_bytes (u64_to_be_bytes v) = Some v.
Proof.
  intros Hv. unfold u64_from_be_bytes, u64_to_be_bytes. rewrite be_bytes_length, bool_decide_true by done.
  rewrite be_value_bytes. f_equal. by apply N.mod_small.
Qed.

Lemma u64_le_roundtrip v : v < u64_bound → u64_from_le_bytes (u64_to_le_bytes v) = Some v.
Proof.
  intros Hv. unfold u64_from_le_bytes, u64_to_le_bytes. rewrite le_bytes_length, bool_decide_true by done.
  rewrite le_value_bytes. f_equal. by apply N.mod_small.
Qed.

Lemma u64_be_inj a b : a < u64_bound → b < u64_bound → u64_to_be_bytes a = u64_to_be_bytes b → a = b.
Proof.
  intros Ha Hb H. apply u64_be_roundtrip in Ha, Hb. rewrite H in Ha. congruence.
Qed.

(** ** Order *)

(** Bytewise lexicographic comparison, the key order of the LSM stores. *)
Fixpoint bytes_compare (a b : string) : comparison :=
  match a, b with
  | EmptyString, EmptyString => Eq
  | EmptyString, _ => Lt
  | _, EmptyString => Gt
  | String c a, String d b =>
      match byte_n c ?= byte_n d with Eq => bytes_compare a b | o => o end
  end.

Lemma bytes_compare_value a b :
  String.length a = String.length b → bytes_compare a b = (be_value a ?= be_value b).
Proof.
  revert b; induction a as [|c a IH]; intros [|d b]; try done. simpl. intros [= Hlen].
  rewrite Hlen. pose proof (be_value_lt a) as Ha. pose proof (be_value_lt b) as Hb.
  rewrite Hlen in Ha. set (p := 256 ^ N.of_nat (String.length b)) in *.
  symmetry. destruct (N.compare_spec (byte_n c) (byte_n d)) as [->|Hlt|Hgt].
  - rewrite (IH b Hlen). destruct (N.compare_spec (be_value a) (be_value b)) as [->| |].
    + apply N.compare_refl.
    + apply N.compare_lt_iff. lia.
    + apply N.compare_gt_iff. lia.
  - apply N.compare_lt_iff. nia.
  - apply N.compare_gt_iff. nia.
Qed.

Lemma bytes_compare_refl a : bytes_compare a a = Eq.
Proof. induction a as [|c a IH]; [done|]. simpl. by rewrite N.compare_refl. Qed.

Lemma bytes_compare_antisym a b : bytes_compare b a = CompOpp (bytes_compare a b).
Proof.
  revert b; induction a as [|c a IH]; intros [|d b]; try done. simpl.
  rewrite (N.compare_antisym (byte_n c) (byte_n d)), (IH b).
  by destruct (byte_n c ?= byte_n d)%N.
Qed.

Lemma bytes_compare_eq a b : bytes_compare a b = Eq → a = b.
Proof.
  revert b; induction a as [|c a IH]; intros [|d b]; try done. simpl.
  destruct (N.compare_spec (byte_n c) (byte_n d)) as [E|?|?]; try done.
  apply byte_n_inj in E as <-. intros Hab. f_equal. by apply IH.
Qed.

(** Big-endian bytes sort like the numbers they encode. *)
Lemma u64_be_order a b :
  a < u64_bound → b < u64_bound →
  bytes_compare (u64_to_be_bytes a) (u64_to_be_bytes b) = (a ?= b).
Proof.
  intros Ha Hb. rewrite bytes_compare_value by (unfold u64_to_be_bytes; by rewrite !be_bytes_length).
  unfold u64_to_be_bytes. rewrite !be_value_bytes.
  by rewrite !N.mod_small.
Qed.

#[global] Arguments u64_to_be_bytes : simpl never.
#[global] Arguments u64_to_le_bytes : simpl never.
#[global] Arguments u64_from_be_bytes : simpl never.
#[global] Arguments u64_from_le_bytes : simpl never.
