(* ===== verification/LinksDid.v ===== *)
(** * links: DIDs (links/src/did.rs)

    [parse_did] and its grammar.  The theorem gives the exact language the
    parser accepts. *)

From S2P Require Import Prelude RustStr.

Module Did.

(** The characters a DID may contain: letters, digits and [._:%-]. *)
Definition did_char (c : ascii) : bool :=
  is_ascii_uppercase c || is_ascii_lowercase c || is_ascii_digit c
  || bool_decide (c ∈ [".";"_";":";"%";"-"]%char).

Definition DID_MAX_LEN : N := (2 * 2 ^ 10)%N.

Definition parse_did (s : string) : option string :=
  if negb (str_forallb did_char s) then None
  else
    unprefixed ← strip_prefix "did:" s;
    '(method, identifier) ← split_once ":" unprefixed;
    if negb (str_forallb is_ascii_lowercase method) then None
    else if ends_with ":" identifier then None
    else if (DID_MAX_LEN <? N.of_nat (String.length s))%N then None
    else if bool_decide (identifier = "") then None
    else Some s.

(** ** The accepted language *)

(** A DID as [parse_did] understands it: [did:METHOD:IDENTIFIER]. *)
Record valid_did (s : string) : Prop := {
  vd_chars : str_forallb did_char s = true;
  vd_len : (N.of_nat (String.length s) ≤ 2048)%N;
  vd_shape : ∃ method identifier,
    s = "did:" +:+ method +:+ ":" +:+ identifier ∧
    str_forallb is_ascii_lowercase method = true ∧
    identifier ≠ "" ∧ ends_with ":" identifier = false
}.

Lemma lowercase_no_colon m : str_forallb is_ascii_lowercase m = true → str_contains ":" m = false.
Proof.
  induction m as [|c m IH]; [done|]. simpl. intros [Hc Hm]%andb_true_iff.
  rewrite (IH Hm), orb_false_r. apply bool_decide_eq_false. by intros ->.
Qed.

Lemma parse_did_valid s t : parse_did s = Some t → t = s ∧ valid_did s.
Proof.
  unfold parse_did. intros H.
  destruct (str_forallb did_char s) eqn:Hch; simpl in H; [|done].
  destruct (strip_prefix "did:" s) as [u|] eqn:Hu; simpl in H; [|done].
  destruct (split_once ":" u) as [[m i]|] eqn:Hm; simpl in H; [|done].
  destruct (str_forallb is_ascii_lowercase m) eqn:Hlow; simpl in H; [|done].
  destruct (ends_with ":" i) eqn:Hend; [done|].
  destruct (N.ltb_spec DID_MAX_LEN (N.of_nat (String.length s))) as [|Hlen]; [done|].
  case_bool_decide as Hi; [done|]. injection H as <-. split; [done|].
  apply strip_prefix_Some in Hu. apply split_once_Some in Hm as [-> _].
  split; [done|exact Hlen|]. by exists m, i.
Qed.

Lemma valid_parse_did s : valid_did s → parse_did s = Some s.
Proof.
  intros [Hch Hlen (m & i & Hs & Hlow & Hi & Hend)]. unfold parse_did.
  rewrite Hch. simpl. rewrite Hs at 1. rewrite strip_prefix_app. simpl.
  change (":" +:+ i) with (String ":" i).
  rewrite split_once_app by (by apply lowercase_no_colon). simpl.
  rewrite Hlow, Hend. simpl.
  destruct (N.ltb_spec DID_MAX_LEN (N.of_nat (String.length s))) as [Hl|]; [|by rewrite bool_decide_false].
  change DID_MAX_LEN with 2048%N in Hl. lia.
Qed.

(** The parser accepts exactly the strings of [valid_did] and returns them
    unchanged: nothing is normalised, nothing outside the grammar passes. *)
Theorem parse_did_spec s t : parse_did s = Some t ↔ t = s ∧ valid_did s.
Proof.
  split; [apply parse_did_valid|]. intros [-> ?]. by apply valid_parse_did.
Qed.

(** Parsing is idempotent. *)
Lemma parse_did_idem s t : parse_did s = Some t → parse_did t = Some t.
Proof. intros [-> ?]%parse_did_valid. by apply valid_parse_did. Qed.

(** An empty method passes: [all] holds of the empty string. *)
Theorem parse_did_empty_method : parse_did "did::x" = Some "did::x".
Proof. reflexivity. Qed.

Example parse_did_tests :
  parse_did "did:plc" = None ∧ parse_did "did:plc:" = None ∧
  parse_did "did:web:bad-example.com" = Some "did:web:bad-example.com" ∧
  parse_did "DID:plc:hdhoaan3xa3jiuq4fg4mefid" = None ∧
  parse_did "did:BAD:z" = None ∧ parse_did "did:bad:z$z" = None ∧
  parse_did "did:ok:z:z" = Some "did:ok:z:z" ∧ parse_did "did:bad:z:" = None ∧
  parse_did "did:method::::val" = Some "did:method::::val".
Proof. vm_compute. tauto. Qed.

End Did.
