(* ===== verification/LinksAtUri.v ===== *)
(** * links: at-uris (links/src/at_uri.rs)

    [parse_at_uri] and [at_uri_collection].  The URI crate [fluent_uri] is a
    parameter ([FluentUri]); the theorems that need one of its guarantees take
    it as a class of laws ([FluentUriLaws]). *)

From S2P Require Import Prelude RustStr.

(** What [links] calls of the [fluent_uri] crate. *)
Class FluentUri := {
  (** [Uri::parse(s).map(|u| u.normalize().into_string()).ok()] *)
  uri_parse_normalized : string → option string;
  (** [UriRef::parse(p).ok()], then
      [resolve_against("https://example.com").unwrap().normalize().path()] *)
  uri_ref_resolved_path : string → option string;
}.

(** RFC 3986: a URI path is ASCII and contains neither [?] nor [#]. *)
Class FluentUriLaws `{FluentUri} := {
  resolved_path_chars p q :
    uri_ref_resolved_path p = Some q →
    is_ascii q = true ∧ str_contains "?" q = false ∧ str_contains "#" q = false;
}.

Module AtUri.

(** ** Percent-encoding *)

(** RFC 3986 unreserved characters. *)
Definition unreserved (c : ascii) : bool :=
  is_ascii_uppercase c || is_ascii_lowercase c || is_ascii_digit c
  || bool_decide (c ∈ [".";"-";"_";"~"]%char).

(** The replacement of [%XY]: the character when unreserved, else the
    upper-cased escape. *)
Definition percent_replacement (hex2 : string) (decoded : ascii) : string :=
  if unreserved decoded then String decoded ""
  else String "%" (to_ascii_uppercase hex2).

(** One iteration of the loop over [rest.split('%')]. *)
Definition decode_segment (out segment : string) : option string :=
  '(hex2, unencoded_suffix) ← split_at_checked 2 segment;
  decoded ← u8_from_hex hex2;
  Some (out +:+ percent_replacement hex2 (ascii_of_N decoded) +:+ unencoded_suffix).

Definition percent_normalize (s : string) : option string :=
  match split_once "%" s with
  | Some (unencoded_prefix, rest) => foldl_opt decode_segment unencoded_prefix (str_split "%" rest)
  | None => Some s
  end.

(** ** Parsing *)

Definition AT_URI_MAX_LEN : N := (8 * 2 ^ 10)%N.

(** [if let Some((pre, x)) = base.split_once(c) { base = pre; part = Some(x) }] *)
Definition cut_part (c : ascii) (base : string) : string * option string :=
  match split_once c base with
  | Some (pre, x) => (pre, Some x)
  | None => (base, None)
  end.

Definition push_part (c : ascii) (part : option string) (out : string) : string :=
  match part with Some p => out +:+ String c p | None => out end.

Definition normalize_authority (authority : string) : string :=
  if starts_with "did:" authority then authority else to_ascii_lowercase authority.

Section WithUri.
Context `{FluentUri}.

(** [None] is the early return of the whole parser. *)
Definition normalize_path (path : option string) : option (option string) :=
  match path with
  | Some p =>
      normalized ← uri_ref_resolved_path (trim_end_matches "/" p);
      Some (Some (trim_end_matches "/" normalized))
  | None => Some None
  end.

Definition parse_at_uri (s0 : string) : option string :=
  if negb (is_ascii s0) then None
  else if (AT_URI_MAX_LEN <? N.of_nat (String.length s0))%N then None
  else
    s ← percent_normalize s0;
    '(proto, rest) ← split_at_checked 5 s;
    if negb (eq_ignore_ascii_case proto "at://") then None
    else
      let '(base, fragment) := cut_part "#" rest in
      let '(base, query) := cut_part "?" base in
      let '(authority, path) := cut_part "/" base in
      if bool_decide (authority = "") then None
      else
        path ← normalize_path path;
        let out := "at://" +:+ normalize_authority authority in
        let out := match path with Some p => out +:+ p | None => out end in
        Some (push_part "#" fragment (push_part "?" query out)).

End WithUri.

Definition at_uri_collection (at_uri : string) : option string :=
  '(proto, rest) ← split_at_checked 5 at_uri;
  if negb (eq_ignore_ascii_case proto "at://") then None
  else
    '(_, rest) ← split_once "/" rest;
    match split_once "/" rest with
    | Some (collection, _) => Some collection
    | None =>
        match split_once "?" rest with
        | Some (collection, _) => Some collection
        | None =>
            match split_once "#" rest with
            | Some (collection, _) => Some collection
            | None => Some rest
            end
        end
    end.

(** ** Percent-normalisation: the reference scanner *)

(** Left-to-right reading of the same rule, character by character. *)
Fixpoint percent_scan (s : string) : option string :=
  match s with
  | EmptyString => Some EmptyString
  | String c s =>
      if bool_decide (c = "%"%char) then
        match s with
        | String a (String b s) =>
            decoded ← u8_from_hex (String a (String b ""));
            t ← percent_scan s;
            Some (percent_replacement (String a (String b "")) (ascii_of_N decoded) +:+ t)
        | _ => None
        end
      else t ← percent_scan s; Some (String c t)
  end.

Lemma percent_scan_no_percent a b :
  str_contains "%" a = false → percent_scan (a +:+ b) = (t ← percent_scan b; Some (a +:+ t)).
Proof.
  induction a as [|c a IH]; intros Ha.
  { rewrite str_app_nil_l. by destruct (percent_scan b). }
  rewrite str_app_cons. simpl in *. apply orb_false_iff in Ha as [Hc Ha].
  rewrite Hc, (IH Ha). by destruct (percent_scan b).
Qed.

(** [percent_scan] after a [%], on a segment that has no further [%]. *)
Lemma percent_scan_segment a b :
  str_contains "%" a = false →
  percent_scan (String "%" (a +:+ b)) =
    match split_at_checked 2 a with
    | Some (hex2, suffix) =>
        decoded ← u8_from_hex hex2; t ← percent_scan b;
        Some (percent_replacement hex2 (ascii_of_N decoded) +:+ suffix +:+ t)
    | None => percent_scan (String "%" (a +:+ b))
    end.
Proof.
  intros Ha. destruct (split_at_checked 2 a) as [[h sfx]|] eqn:E; [|done].
  apply split_at_checked_Some in E as [-> Hlen].
  destruct h as [|x [|y [|]]]; try discriminate Hlen. rewrite str_app_assoc, !str_app_cons, str_app_nil_l.
  change (percent_scan (String "%" (String x (String y (sfx +:+ b))))) with
    (decoded ← u8_from_hex (String x (String y "")); t ← percent_scan (sfx +:+ b);
     Some (percent_replacement (String x (String y "")) (ascii_of_N decoded) +:+ t)).
  rewrite str_contains_app in Ha. apply orb_false_iff in Ha as [_ Hs].
  rewrite (percent_scan_no_percent _ _ Hs).
  destruct (u8_from_hex _); simpl; [|done]. by destruct (percent_scan b).
Qed.

Lemma split_first_cons c s :
  ∃ h t, split_first c s = (h, t) ∧ str_contains c h = false ∧
    (t = [] ∧ s = h ∨ ∃ s', s = h +:+ String c s' ∧ t = str_split c s').
Proof.
  induction s as [|d s IH]; simpl; [by eexists _, _; eauto|].
  destruct IH as (h & t & -> & Hh & Ht). case_bool_decide as Hd.
  - subst d. eexists _, _; split_and!; [done|done|]. right. exists s. rewrite str_app_nil_l. split; [done|].
    unfold str_split. destruct Ht as [[-> ->]|(s' & -> & ->)].
    + assert (split_first c h = (h, [])) as ->; [|done].
      clear -Hh. induction h as [|x h IHh]; [done|]. simpl in *.
      apply orb_false_iff in Hh as [-> Hh]. by rewrite (IHh Hh).
    + assert (split_first c (h +:+ String c s') = (h, str_split c s')) as ->; [|done].
      clear -Hh. induction h as [|x h IHh].
      { rewrite str_app_nil_l. simpl. unfold str_split. destruct (split_first c s').
        by rewrite bool_decide_true. }
      rewrite str_app_cons. simpl in *. apply orb_false_iff in Hh as [-> Hh]. by rewrite (IHh Hh).
  - eexists _, _; split_and!; [done| |].
    + simpl. by rewrite bool_decide_false.
    + destruct Ht as [[-> ->]|(s' & -> & ->)]; [by left|]. right. by eexists.
Qed.

Lemma hex_percent_r x : u8_from_hex (String x (String "%" "")) = None.
Proof.
  unfold u8_from_hex. case_bool_decide; [done|]. simpl.
  destruct (hex_digit x); simpl; [|done]. by case_match.
Qed.

(** A [%] that is not followed by two characters before the next [%]. *)
Lemma percent_scan_short a b :
  str_split_at 2 a = None → b = "" ∨ (∃ b', b = String "%" b') →
  percent_scan (String "%" (a +:+ b)) = None.
Proof.
  intros Ha Hb. destruct a as [|x [|y a]]; [| |done].
  - rewrite str_app_nil_l. destruct Hb as [->|[[|y b'] ->]];  done.
  - rewrite str_app_cons, str_app_nil_l. destruct Hb as [->|[b' ->]]; [done|].
    cbn [percent_scan]. rewrite bool_decide_true by done. by rewrite hex_percent_r.
Qed.

Lemma is_ascii_app a b : is_ascii (a +:+ b) = is_ascii a && is_ascii b.
Proof. apply str_forallb_app. Qed.

(** One segment of the loop agrees with the scanner. *)
Lemma decode_segment_scan out h b :
  str_contains "%" h = false → is_ascii h = true → b = "" ∨ (∃ b', b = String "%" b') →
  (out' ← decode_segment out h; t ← percent_scan b; Some (out' +:+ t)) =
  (t ← percent_scan (String "%" (h +:+ b)); Some (out +:+ t)).
Proof.
  intros Hh Ha Hb. rewrite percent_scan_segment by done. unfold decode_segment.
  rewrite split_at_checked_ascii by done.
  destruct (str_split_at 2 h) as [[hex2 sfx]|] eqn:E; cbn [mbind option_bind].
  - destruct (u8_from_hex hex2); simpl; [|done]. destruct (percent_scan b); simpl; [|done].
    by rewrite !str_app_assoc.
  - by rewrite (percent_scan_short _ _ E Hb).
Qed.

Lemma decode_segments_scan rest out :
  is_ascii rest = true →
  foldl_opt decode_segment out (str_split "%" rest) =
  (t ← percent_scan (String "%" rest); Some (out +:+ t)).
Proof.
  remember (String.length rest) as n eqn:Hn. revert rest out Hn.
  induction n as [n IH] using lt_wf_ind; intros rest out -> Ha.
  destruct (split_first_cons "%" rest) as (h & t & E & Hh & Ht).
  unfold str_split. rewrite E. cbn [foldl_opt]. destruct Ht as [[-> ->]|(s' & -> & ->)].
  - pose proof (decode_segment_scan out h "" Hh Ha (or_introl eq_refl)) as Hseg.
    rewrite str_app_nil_r in Hseg. rewrite <- Hseg.
    destruct (decode_segment out h); [|done]. cbn. by rewrite str_app_nil_r.
  - rewrite is_ascii_app in Ha. apply andb_true_iff in Ha as [Ha Ha'].
    pose proof (decode_segment_scan out h (String "%" s') Hh Ha ltac:(eauto)) as Hseg.
    etrans; [|exact Hseg]. destruct (decode_segment out h) as [out'|]; [|done].
    unfold mbind, option_bind. eapply IH; [|done|done].
    rewrite str_length_app. simpl. lia.
Qed.

(** The segment loop of [parse_at_uri] computes the scanner. *)
Lemma percent_normalize_scan s : is_ascii s = true → percent_normalize s = percent_scan s.
Proof.
  intros Ha. unfold percent_normalize. destruct (split_once "%" s) as [[a b]|] eqn:E.
  - apply split_once_Some in E as [-> Hc]. rewrite is_ascii_app in Ha.
    apply andb_true_iff in Ha as [_ Hb]. rewrite decode_segments_scan by done.
    by rewrite percent_scan_no_percent.
  - apply split_once_None in E. rewrite <- (str_app_nil_r s) at 2.
    rewrite percent_scan_no_percent by done. simpl. by rewrite str_app_nil_r.
Qed.

(** ** Normal forms *)

Lemma ascii_ind_256 (P : ascii → bool) :
  forallb (λ n, P (ascii_of_nat n)) (seq 0 256) = true → ∀ c, P c = true.
Proof.
  intros H c. rewrite <- (ascii_nat_embedding c). rewrite forallb_forall in H. apply H.
  apply in_seq. pose proof (nat_ascii_bounded c). lia.
Qed.

Lemma hex_digit_upper c : hex_digit (byte_to_ascii_uppercase c) = hex_digit c ∨ hex_digit c = None.
Proof.
  pose proof (ascii_ind_256 (λ c, bool_decide
    (hex_digit (byte_to_ascii_uppercase c) = hex_digit c ∨ hex_digit c = None)) eq_refl c) as Hc.
  by apply bool_decide_eq_true in Hc.
Qed.

Lemma upper_upper c : byte_to_ascii_uppercase (byte_to_ascii_uppercase c) = byte_to_ascii_uppercase c.
Proof.
  pose proof (ascii_ind_256 (λ c, bool_decide
    (byte_to_ascii_uppercase (byte_to_ascii_uppercase c) = byte_to_ascii_uppercase c)) eq_refl c) as Hc.
  by apply bool_decide_eq_true in Hc.
Qed.

Lemma upper_plus c : byte_to_ascii_uppercase c = "+"%char ↔ c = "+"%char.
Proof.
  pose proof (ascii_ind_256 (λ c, bool_decide
    (byte_to_ascii_uppercase c = "+"%char ↔ c = "+"%char)) eq_refl c) as Hc.
  by apply bool_decide_eq_true in Hc.
Qed.

Lemma unreserved_not_percent c : unreserved c = true → c ≠ "%"%char.
Proof. by intros Hc ->. Qed.

Lemma u8_from_hex_upper a b d :
  u8_from_hex (String a (String b "")) = Some d →
  u8_from_hex (String (byte_to_ascii_uppercase a) (String (byte_to_ascii_uppercase b) "")) = Some d.
Proof.
  unfold u8_from_hex. rewrite !(bool_decide_ext _ _ (upper_plus a)). cbn [hex_digits].
  case_bool_decide.
  - destruct (hex_digit_upper b) as [->| ->]; done.
  - destruct (hex_digit_upper a) as [->| ->]; [|done].
    destruct (hex_digit a) as [x|]; [|done]. cbn [mbind option_bind].
    case_match; [|done]. destruct (hex_digit_upper b) as [->| ->]; done.
Qed.

(** The scanner's output is a fixed point of the scanner. *)
Lemma percent_scan_idem s t : percent_scan s = Some t → percent_scan t = Some t.
Proof.
  remember (String.length s) as n eqn:Hn. revert s t Hn.
  induction n as [n IH] using lt_wf_ind; intros s t -> H.
  destruct s as [|c s]; [by injection H as <-|]. cbn [percent_scan] in H.
  case_bool_decide as Hc.
  - destruct s as [|a [|b s]]; try done.
    destruct (u8_from_hex _) as [d|] eqn:Hd; [|done]. simpl in H.
    destruct (percent_scan s) as [t'|] eqn:Ht; [|done]. injection H as <-.
    assert (percent_scan t' = Some t') as Ht'. { eapply IH, Ht; [|done]. simpl. lia. }
    unfold percent_replacement. destruct (unreserved (ascii_of_N d)) eqn:Hu.
    + rewrite str_app_cons, str_app_nil_l. cbn [percent_scan].
      rewrite bool_decide_false by (by apply unreserved_not_percent). by rewrite Ht'.
    + rewrite str_app_cons. unfold to_ascii_uppercase. cbn [str_map]. rewrite !str_app_cons, str_app_nil_l.
      cbn [percent_scan]. rewrite bool_decide_true by done.
      rewrite (u8_from_hex_upper _ _ _ Hd). cbn [mbind option_bind]. rewrite Ht'. cbn [mbind option_bind].
      unfold percent_replacement. rewrite Hu. unfold to_ascii_uppercase. cbn [str_map].
      by rewrite !upper_upper, !str_app_cons, str_app_nil_l.
  - destruct (percent_scan s) as [t'|] eqn:Ht; [|done]. injection H as <-.
    assert (percent_scan t' = Some t') as Ht'. { eapply IH, Ht; [|done]. simpl. lia. }
    cbn [percent_scan]. rewrite bool_decide_false by done. by rewrite Ht'.
Qed.

Lemma unreserved_ascii c : negb (unreserved c) || byte_is_ascii c = true.
Proof. apply (ascii_ind_256 (λ c, negb (unreserved c) || byte_is_ascii c)). reflexivity. Qed.

Lemma upper_ascii c : negb (byte_is_ascii c) || byte_is_ascii (byte_to_ascii_uppercase c) = true.
Proof.
  apply (ascii_ind_256 (λ c, negb (byte_is_ascii c) || byte_is_ascii (byte_to_ascii_uppercase c))).
  reflexivity.
Qed.

Lemma percent_replacement_ascii a b d :
  byte_is_ascii a = true → byte_is_ascii b = true →
  is_ascii (percent_replacement (String a (String b "")) d) = true.
Proof.
  intros Ha Hb. unfold percent_replacement. pose proof (unreserved_ascii d) as Hd.
  pose proof (upper_ascii a) as Hua. pose proof (upper_ascii b) as Hub.
  destruct (unreserved d); unfold is_ascii, to_ascii_uppercase; simpl in *.
  - by rewrite Hd.
  - rewrite Ha, Hb in *. simpl in *. by rewrite Hua, Hub.
Qed.

(** Scanning keeps the text ASCII and never makes it longer. *)
Lemma percent_scan_bounds s t :
  percent_scan s = Some t → is_ascii s = true →
  is_ascii t = true ∧ String.length t ≤ String.length s.
Proof.
  remember (String.length s) as n eqn:Hn. revert s t Hn.
  induction n as [n IH] using lt_wf_ind; intros s t -> H Ha.
  destruct s as [|c s]; [by injection H as <-|]. cbn [percent_scan] in H.
  apply andb_true_iff in Ha as [Hc0 Ha]. case_bool_decide as Hc.
  - destruct s as [|a [|b s]]; try done.
    apply andb_true_iff in Ha as [Haa [Hab Has]%andb_true_iff].
    destruct (u8_from_hex _) as [d|] eqn:Hd; [|done].
    destruct (percent_scan s) as [t'|] eqn:Ht; [|done]. injection H as <-.
    destruct (IH (String.length s) ltac:(simpl; lia) s t') as [IH1 IH2]; [done..|].
    rewrite is_ascii_app, str_length_app, percent_replacement_ascii, IH1 by done. split; [done|].
    unfold percent_replacement, to_ascii_uppercase. destruct (unreserved _); simpl; lia.
  - destruct (percent_scan s) as [t'|] eqn:Ht; [|done]. injection H as <-.
    destruct (IH (String.length s) ltac:(simpl; lia) s t') as [IH1 IH2]; [done..|].
    split; [|simpl; lia]. unfold is_ascii in *. simpl. by rewrite Hc0, IH1.
Qed.

(** Percent-normalisation of an ASCII string is idempotent: unreserved
    escapes are decoded and the others upper-cased once and for all. *)
Theorem percent_normalize_idem s t :
  is_ascii s = true → percent_normalize s = Some t →
  percent_normalize t = Some t ∧ is_ascii t = true ∧ String.length t ≤ String.length s.
Proof.
  intros Ha H. rewrite percent_normalize_scan in H by done.
  destruct (percent_scan_bounds _ _ H Ha) as [Ht Hlen].
  rewrite percent_normalize_scan by done. eauto using percent_scan_idem.
Qed.

Lemma percent_normalize_idem_witness :
  is_ascii "a%3a%61" = true ∧ percent_normalize "a%3Aa" = Some "a%3Aa".
Proof.
  split; [reflexivity|]. exact (proj1 (percent_normalize_idem "a%3a%61" "a%3Aa" eq_refl eq_refl)).
Defined.

(** [%+5] passes as a percent-escape: [u8::from_str_radix] accepts a sign. *)
Theorem percent_plus_accepted : percent_normalize "a%+5" = Some "a%+5".
Proof. reflexivity. Qed.

(** ** The shape of the output *)

Lemma cut_part_spec c s base part :
  cut_part c s = (base, part) → str_contains c base = false ∧ s = push_part c part base.
Proof.
  unfold cut_part. destruct (split_once c s) as [[a b]|] eqn:E; intros [= <- <-].
  - apply split_once_Some in E as [-> ?]. done.
  - by apply split_once_None in E.
Qed.

Lemma str_contains_push c d part s :
  str_contains d (push_part c part s) = false → str_contains d s = false.
Proof. destruct part; simpl; [|done]. rewrite str_contains_app. by intros [? _]%orb_false_iff. Qed.

Lemma str_contains_part c d p s :
  str_contains d (push_part c (Some p) s) = false → str_contains d p = false.
Proof.
  simpl. rewrite str_contains_app. simpl. by intros [_ [_ ?]%orb_false_iff]%orb_false_iff.
Qed.

Lemma lowercase_special c d :
  d ∈ ["/";"?";"#"]%char → byte_to_ascii_lowercase c = d ↔ c = d.
Proof.
  intros Hd. pose proof (ascii_ind_256 (λ c, forallb (λ d, bool_decide
    (byte_to_ascii_lowercase c = d ↔ c = d)) ["/";"?";"#"]%char) eq_refl c) as Hc.
  rewrite forallb_forall in Hc. specialize (Hc d). rewrite bool_decide_eq_true in Hc.
  apply Hc. by apply list_elem_of_In.
Qed.

Lemma str_contains_lowercase d s :
  d ∈ ["/";"?";"#"]%char → str_contains d (to_ascii_lowercase s) = str_contains d s.
Proof.
  intros Hd. unfold to_ascii_lowercase. induction s as [|c s IH]; [done|]. simpl.
  rewrite IH. f_equal. apply bool_decide_ext, lowercase_special, Hd.
Qed.

Lemma lower_lower s : to_ascii_lowercase (to_ascii_lowercase s) = to_ascii_lowercase s.
Proof.
  unfold to_ascii_lowercase. induction s as [|c s IH]; [done|]. simpl. rewrite IH. f_equal.
  pose proof (ascii_ind_256 (λ c, bool_decide
    (byte_to_ascii_lowercase (byte_to_ascii_lowercase c) = byte_to_ascii_lowercase c)) eq_refl c) as Hc.
  by apply bool_decide_eq_true in Hc.
Qed.

Lemma normalize_authority_spec a :
  (∀ d, d ∈ ["/";"?";"#"]%char → str_contains d (normalize_authority a) = str_contains d a) ∧
  (normalize_authority a = "" ↔ a = "") ∧
  (starts_with "did:" (normalize_authority a) = true ∨
   to_ascii_lowercase (normalize_authority a) = normalize_authority a).
Proof.
  unfold normalize_authority. destruct (starts_with "did:" a) eqn:E; [by eauto|].
  split_and!; [intros; by apply str_contains_lowercase|by destruct a|]. right. apply lower_lower.
Qed.

(** An at-uri in the form [parse_at_uri] produces. *)
Record at_uri_form (t authority path : string) (query fragment : option string) : Prop := {
  auf_eq : t = push_part "#" fragment (push_part "?" query ("at://" +:+ authority +:+ path));
  auf_authority : authority ≠ "";
  auf_authority_chars : ∀ d, d ∈ ["/";"?";"#"]%char → str_contains d authority = false;
  auf_authority_case : starts_with "did:" authority = true ∨ to_ascii_lowercase authority = authority;
  auf_path_end : ends_with "/" path = false;
  auf_path_chars : ∀ d, d ∈ ["?";"#"]%char → str_contains d path = false;
  auf_query : ∀ q, query = Some q → str_contains "#" q = false
}.

Lemma str_forallb_contains p d s : str_forallb p s = true → p d = false → str_contains d s = false.
Proof.
  intros Hs Hd. induction s as [|c s IH]; [done|]. simpl in *. apply andb_true_iff in Hs as [Hc Hs].
  rewrite (IH Hs), orb_false_r. apply bool_decide_eq_false. intros ->. congruence.
Qed.

Lemma str_contains_trim c d s :
  str_contains d s = false → str_contains d (trim_end_matches c s) = false.
Proof.
  intros Hs.
  assert (str_forallb (λ x, negb (bool_decide (x = d))) s = true) as Hf.
  { induction s as [|x s IH]; [done|]. simpl in *. apply orb_false_iff in Hs as [-> Hs]. by rewrite IH. }
  apply (trim_end_matches_forallb _ c) in Hf. apply (str_forallb_contains _ _ _ Hf).
  by rewrite bool_decide_true.
Qed.

Lemma normalize_path_spec `{FluentUriLaws} path0 path :
  normalize_path path0 = Some path →
  ends_with "/" (default "" path) = false ∧
  ∀ d, d ∈ ["?";"#"]%char → str_contains d (default "" path) = false.
Proof.
  unfold normalize_path. destruct path0 as [p|]; [|by intros [= <-]].
  destruct (uri_ref_resolved_path _) as [q|] eqn:E; [|done]. intros [= <-]. simpl.
  split; [apply trim_end_matches_no_suffix|]. apply resolved_path_chars in E as (_ & Hq & Hh).
  intros d Hd. apply str_contains_trim. set_solver.
Qed.

(** Every parsed at-uri is [at://AUTHORITY PATH ?QUERY #FRAGMENT] with a
    non-empty, delimiter-free authority, lower-cased unless it is a DID, and a
    path without trailing slash. *)
Theorem parse_at_uri_form `{FluentUriLaws} s t :
  parse_at_uri s = Some t →
  ∃ authority path query fragment, at_uri_form t authority path query fragment.
Proof.
  unfold parse_at_uri. intros Hp.
  destruct (is_ascii s) eqn:Ha; cbn [negb] in Hp; [|done]. case_match; [done|].
  destruct (percent_normalize s) as [s'|]; cbn [mbind option_bind] in Hp; [|done].
  destruct (split_at_checked 5 s') as [[proto rest]|]; cbn [mbind option_bind] in Hp; [|done].
  destruct (eq_ignore_ascii_case _ _); cbn [negb] in Hp; [|done].
  destruct (cut_part "#" rest) as [base fragment] eqn:Ef.
  destruct (cut_part "?" base) as [base' query] eqn:Eq.
  destruct (cut_part "/" base') as [authority path0] eqn:Ep.
  apply cut_part_spec in Ef as [Hf _], Eq as [Hq Eq], Ep as [Hsl Ep].
  case_bool_decide as Hne; [done|].
  destruct (normalize_path path0) as [path|] eqn:Epath; cbn [mbind option_bind] in Hp; [|done].
  injection Hp as <-. apply normalize_path_spec in Epath as [Hend Hchars].
  destruct (normalize_authority_spec authority) as (Hac & Hae & Hcase).
  assert (Hb' : str_contains "#" base' = false) by (subst base; by eapply str_contains_push).
  exists (normalize_authority authority), (default "" path), query, fragment. split; try done.
  - destruct path; [by rewrite <- str_app_assoc|]. simpl. by rewrite str_app_nil_r.
  - by rewrite Hae.
  - intros d Hd. rewrite Hac by done. subst base'.
    rewrite !elem_of_cons, elem_of_nil in Hd.
    destruct Hd as [->|[->|[->|[]]]]; [done|by eapply str_contains_push..].
  - intros q ->. subst base. by eapply str_contains_part.
Qed.

(** A small URI resolver that satisfies the laws: it accepts the references
    without scheme, query or fragment that need no normalisation. *)
Definition plain_ref (p : string) : bool :=
  is_ascii p && negb (str_contains "?" p) && negb (str_contains "#" p) && negb (str_contains ":" p).

#[local] Instance plain_uri : FluentUri := {
  uri_parse_normalized s := if starts_with "https://" s then Some s else None;
  uri_ref_resolved_path p :=
    if plain_ref p then Some (String "/" p)
    else match split_once ":" p with
         | Some (_, path) => if plain_ref path then Some path else None
         | None => None
         end;
}.

Lemma plain_ref_chars p :
  plain_ref p = true →
  is_ascii p = true ∧ str_contains "?" p = false ∧ str_contains "#" p = false.
Proof.
  unfold plain_ref. intros [[[H1 H2]%andb_true_iff H3]%andb_true_iff _]%andb_true_iff.
  by rewrite negb_true_iff in H2, H3.
Qed.

#[local] Instance plain_uri_laws : FluentUriLaws.
Proof.
  split. intros p q. simpl. destruct (plain_ref p) eqn:E.
  - intros [= <-]. apply plain_ref_chars in E as (? & ? & ?). done.
  - destruct (split_once ":" p) as [[a b]|]; [|done]. destruct (plain_ref b) eqn:E'; [|done].
    intros [= <-]. by apply plain_ref_chars.
Qed.

Lemma parse_at_uri_form_witness :
  parse_at_uri "AT://Bad-Example.com/a/%62/?q#f" = Some "at://bad-example.com/a/b?q#f" ∧
  ∃ authority path query fragment,
    at_uri_form "at://bad-example.com/a/b?q#f" authority path query fragment.
Proof.
  split; [reflexivity|].
  exact (parse_at_uri_form "AT://Bad-Example.com/a/%62/?q#f" "at://bad-example.com/a/b?q#f" eq_refl).
Defined.

(** When [fluent_uri] reads a path as an absolute URI, as RFC 3986 5.2.2
    prescribes for a first segment with a colon, the resolved path has no
    leading slash and is glued to the authority. *)
Theorem parse_at_uri_colon_path `{FluentUri} :
  uri_ref_resolved_path "a:b" = Some "b" →
  parse_at_uri "at://bad-example.com/a:b" = Some "at://bad-example.comb".
Proof.
  intros Hab. lazy -[uri_ref_resolved_path]. by rewrite Hab.
Qed.

Lemma parse_at_uri_colon_path_witness :
  parse_at_uri "at://bad-example.com/a:b" = Some "at://bad-example.comb".
Proof. exact (parse_at_uri_colon_path eq_refl). Defined.

(** ** Collections *)

Lemma split_at_checked_at rest :
  str_forallb byte_is_boundary rest = true → split_at_checked 5 ("at://" +:+ rest) = Some ("at://", rest).
Proof. apply (split_at_checked_app "at://"). Qed.

(** The collection of a well-formed record uri [at://REPO/COLLECTION/REST]
    and of a bare [at://REPO/COLLECTION] is the second segment. *)
Theorem at_uri_collection_spec repo collection tail :
  str_forallb byte_is_ascii (repo +:+ collection +:+ tail) = true →
  str_contains "/" repo = false →
  (∀ d, d ∈ ["/";"?";"#"]%char → str_contains d collection = false) →
  at_uri_collection ("at://" +:+ repo +:+ String "/" (collection +:+ String "/" tail)) = Some collection ∧
  at_uri_collection ("at://" +:+ repo +:+ String "/" collection) = Some collection.
Proof.
  intros Ha Hr Hc. rewrite !str_forallb_app, !andb_true_iff in Ha. destruct Ha as (Ha1 & Ha2 & Ha3).
  assert (Hmono : ∀ s, str_forallb byte_is_ascii s = true → str_forallb byte_is_boundary s = true).
  { clear. induction s as [|c s IH]; [done|]. simpl. intros [? ?]%andb_true_iff.
    by rewrite byte_is_ascii_boundary, IH. }
  unfold at_uri_collection.
  rewrite !split_at_checked_at
    by (rewrite !str_forallb_app; simpl; rewrite ?str_forallb_app; simpl; by rewrite !Hmono).
  cbn [mbind option_bind negb eq_ignore_ascii_case]. rewrite !split_once_app by done.
  cbn [mbind option_bind]. rewrite split_once_app by (apply Hc; set_solver).
  rewrite !(proj2 (split_once_None _ collection)) by (apply Hc; set_solver). done.
Qed.

Lemma at_uri_collection_spec_witness :
  at_uri_collection "at://did:plc:x/app.bsky.feed.post/3k" = Some "app.bsky.feed.post".
Proof.
  refine (proj1 (at_uri_collection_spec "did:plc:x" "app.bsky.feed.post" "3k" eq_refl eq_refl _)).
  intros d Hd. rewrite !elem_of_cons, elem_of_nil in Hd. by destruct Hd as [->|[->|[->|[]]]].
Defined.

(** A slash inside the query is taken for the end of the collection. *)
Theorem at_uri_collection_query_slash :
  at_uri_collection "at://did:web:x/collec.tion?q=a/b" = Some "collec.tion?q=a".
Proof. reflexivity. Qed.

End AtUri.
