(* ===== verification/LinksRecord.v ===== *)
(** * links: links of a record (links/src/lib.rs, links/src/record.rs)

    The [Link] type, [parse_any_link], and the walk that collects the links of
    a JSON record with their paths. *)

From S2P Require Import Prelude RustStr LinksDid LinksAtUri.

(** ** JSON (the [tinyjson::JsonValue] enum) *)

(** An object is the list of its entries in the order the hash map yields
    them; keys are distinct in a parsed value ([json_wf]). *)
#[warnings="-register-all"]
Inductive JsonValue : Type :=
  | JNumber (n : spec_float)
  | JBoolean (b : bool)
  | JString (s : string)
  | JNull
  | JArray (a : list JsonValue)
  | JObject (o : list (string * JsonValue)).

Section JsonInd.
Variable P : JsonValue → Prop.
Hypothesis Hnum : ∀ n, P (JNumber n).
Hypothesis Hbool : ∀ b, P (JBoolean b).
Hypothesis Hstr : ∀ s, P (JString s).
Hypothesis Hnull : P JNull.
Hypothesis Harr : ∀ a, Forall P a → P (JArray a).
Hypothesis Hobj : ∀ o, Forall (λ e, P e.2) o → P (JObject o).

Fixpoint json_ind (v : JsonValue) : P v :=
  match v with
  | JNumber n => Hnum n
  | JBoolean b => Hbool b
  | JString s => Hstr s
  | JNull => Hnull
  | JArray a => Harr a ((fix go a : Forall P a :=
      match a with [] => Forall_nil_2 _ | x :: a => Forall_cons_2 _ _ _ (json_ind x) (go a) end) a)
  | JObject o => Hobj o ((fix go o : Forall (λ e, P e.2) o :=
      match o with [] => Forall_nil_2 _ | x :: o => Forall_cons_2 _ _ _ (json_ind x.2) (go o) end) o)
  end.
End JsonInd.

(** [HashMap::get]. *)
Fixpoint obj_get (key : string) (o : list (string * JsonValue)) : option JsonValue :=
  match o with
  | [] => None
  | (k, v) :: o => if bool_decide (k = key) then Some v else obj_get key o
  end.

Module Links.

(** ** links/src/lib.rs *)

Inductive Link : Type :=
  | AtUri (s : string)
  | Uri (s : string)
  | DidLink (s : string).

#[global] Instance Link_eq_dec : EqDecision Link.
Proof. solve_decision. Defined.

Definition as_str (l : Link) : string :=
  match l with AtUri s | Uri s | DidLink s => s end.

Definition into_string (l : Link) : string :=
  match l with AtUri s | Uri s | DidLink s => s end.

Definition name (l : Link) : string :=
  match l with AtUri _ => "at-uri" | Uri _ => "uri" | DidLink _ => "did" end.

Definition link_at_uri_collection (l : Link) : option string :=
  match l with AtUri s => AtUri.at_uri_collection s | _ => None end.

Definition did (l : Link) : option string :=
  match l with
  | AtUri s =>
      rest ← strip_prefix "at://" s;
      match split_once "/" rest with
      | Some (did, _) => Some did
      | None => Some rest
      end
  | Uri _ => None
  | DidLink did => Some did
  end.

Record CollectedLink : Type := mkCollectedLink {
  path : string;
  target : Link
}.

#[global] Instance CollectedLink_eq_dec : EqDecision CollectedLink.
Proof. solve_decision. Defined.

Section WithUri.
Context `{FluentUri}.

Definition parse_uri (s : string) : option string := uri_parse_normalized s.

Definition parse_any_link (s : string) : option Link :=
  match AtUri.parse_at_uri s with
  | Some u => Some (AtUri u)
  | None =>
      match Did.parse_did s with
      | Some d => Some (DidLink d)
      | None => Uri <$> parse_uri s
      end
  end.

(** ** links/src/record.rs *)

(** The path of an array element. *)
Definition child_path (p : string) (child : JsonValue) : string :=
  match child with
  | JObject o =>
      match obj_get "$type" o with
      | Some (JString t) => p +:+ "[" +:+ t +:+ "]"
      | _ => p +:+ "[]"
      end
  | _ => p +:+ "[]"
  end.

Fixpoint walk_record (p : string) (v : JsonValue) (found : list CollectedLink)
    : list CollectedLink :=
  match v with
  | JObject o =>
      fold_left (λ found e, walk_record (p +:+ "." +:+ e.1) e.2 found) o found
  | JArray a =>
      fold_left (λ found child, walk_record (child_path p child) child found) a found
  | JString s =>
      match parse_any_link s with
      | Some link => found ++ [mkCollectedLink p link]
      | None => found
      end
  | _ => found
  end.

Definition collect_links (v : JsonValue) : list CollectedLink := walk_record "" v [].

(** ** What is collected *)

(** [found] is only ever appended to. *)
Lemma fold_walk_acc {A} (f : A → JsonValue) (g : A → string) (l : list A) found :
  Forall (λ e, ∀ p found, walk_record p (f e) found = found ++ walk_record p (f e) []) l →
  fold_left (λ found e, walk_record (g e) (f e) found) l found =
  found ++ flat_map (λ e, walk_record (g e) (f e) []) l.
Proof.
  intros Hl; revert found; induction Hl as [|e l He Hl IH]; intros found; simpl.
  - by rewrite app_nil_r.
  - rewrite IH, He. by rewrite <- app_assoc.
Qed.

Lemma walk_record_acc v p found : walk_record p v found = found ++ walk_record p v [].
Proof.
  revert p found; induction v using json_ind; intros p found; simpl; try by rewrite app_nil_r.
  - by destruct (parse_any_link s); rewrite ?app_nil_r.
  - rewrite !(fold_walk_acc (λ x, x)) by done. done.
  - rewrite !(fold_walk_acc snd) by done. done.
Qed.

Lemma walk_record_object p o :
  walk_record p (JObject o) [] = flat_map (λ e, walk_record (p +:+ "." +:+ e.1) e.2 []) o.
Proof.
  simpl. rewrite (fold_walk_acc snd); [done|].
  apply Forall_forall; intros; apply walk_record_acc.
Qed.

Lemma walk_record_array p a :
  walk_record p (JArray a) [] = flat_map (λ v, walk_record (child_path p v) v []) a.
Proof.
  simpl. rewrite (fold_walk_acc (λ x, x)); [done|].
  apply Forall_forall; intros; apply walk_record_acc.
Qed.

(** [leaf_at p v q s]: walking [v] from path [p] meets the string [s] at [q]. *)
Inductive leaf_at : string → JsonValue → string → string → Prop :=
  | leaf_string p s : leaf_at p (JString s) p s
  | leaf_array p a v q s :
      v ∈ a → leaf_at (child_path p v) v q s → leaf_at p (JArray a) q s
  | leaf_object p o k v q s :
      (k, v) ∈ o → leaf_at (p +:+ "." +:+ k) v q s → leaf_at p (JObject o) q s.

Lemma walk_record_leaf v p q l :
  mkCollectedLink q l ∈ walk_record p v [] ↔ ∃ s, leaf_at p v q s ∧ parse_any_link s = Some l.
Proof.
  revert p; induction v as [| |s| |a IH|o IH] using json_ind; intros p.
  1,2,4: split; [by intros ?%not_elem_of_nil|intros (? & Hl & _); inversion Hl].
  - simpl. split.
    + destruct (parse_any_link s) eqn:E; simpl; [|by intros ?%not_elem_of_nil].
      intros [= -> ->]%list_elem_of_singleton. exists s. split; [constructor|done].
    + intros (s' & Hl & Hs). inversion Hl; subst. rewrite Hs. by apply list_elem_of_singleton.
  - rewrite walk_record_array, list_elem_of_In, in_flat_map. rewrite list.Forall_forall in IH. split.
    + intros (v & Hv & Hq). apply list_elem_of_In in Hv, Hq.
      destruct (proj1 (IH _ Hv _) Hq) as (s & Hs & ?). exists s. split; [|done]. by eapply leaf_array.
    + intros (s & Hl & Hs). inversion Hl; subst. eexists; split; [by apply list_elem_of_In|].
      apply list_elem_of_In, IH; eauto.
  - rewrite walk_record_object, list_elem_of_In, in_flat_map. rewrite list.Forall_forall in IH. split.
    + intros ([k v] & Hv & Hq). apply list_elem_of_In in Hv, Hq.
      destruct (proj1 (IH _ Hv _) Hq) as (s & Hs & ?). exists s. split; [|done]. by eapply leaf_object.
    + intros (s & Hl & Hs). inversion Hl; subst. eexists (_, _); split; [by apply list_elem_of_In|].
      apply list_elem_of_In, (IH (_, _)); eauto.
Qed.

(** [collect_links] is sound and complete: a link is reported at a path
    exactly when the record holds, at that path, a string that parses to it. *)
Theorem collect_links_spec v q l :
  mkCollectedLink q l ∈ collect_links v ↔ ∃ s, leaf_at "" v q s ∧ parse_any_link s = Some l.
Proof. apply walk_record_leaf. Qed.

(** ** Independence of the hash map order *)

(** Same value up to the order of object entries, at any depth. *)
#[warnings="-register-all"]
Inductive json_perm : JsonValue → JsonValue → Prop :=
  | jp_refl v : json_perm v v
  | jp_array a a' : Forall2 json_perm a a' → json_perm (JArray a) (JArray a')
  | jp_object o o1 o' :
      NoDup o.*1 → o ≡ₚ o1 → Forall2 (λ e e', e.1 = e'.1 ∧ json_perm e.2 e'.2) o1 o' →
      json_perm (JObject o) (JObject o').

Lemma obj_get_Some k o v : NoDup o.*1 → obj_get k o = Some v ↔ (k, v) ∈ o.
Proof.
  induction o as [|[k' v'] o IH]; simpl; intros Hnd.
  { split; [done|by intros ?%not_elem_of_nil]. }
  apply NoDup_cons in Hnd as [Hk Hnd]. rewrite elem_of_cons. case_bool_decide as E.
  - subst. split; [intros [= ->]; by left|]. intros [[= ->]|Hin]; [done|].
    destruct Hk. apply list_elem_of_fmap. by exists (k, v).
  - rewrite IH by done. naive_solver.
Qed.

Lemma obj_get_Permutation k o o' : NoDup o.*1 → o ≡ₚ o' → obj_get k o = obj_get k o'.
Proof.
  intros Hnd Hp. apply option_eq; intros v. rewrite !obj_get_Some; [by rewrite Hp|by rewrite <- Hp|done].
Qed.

Lemma obj_get_Forall2 k o o' :
  Forall2 (λ e e', e.1 = e'.1 ∧ json_perm e.2 e'.2) o o' →
  option_Forall2 json_perm (obj_get k o) (obj_get k o').
Proof.
  induction 1 as [|[k1 v1] [k2 v2] o o' [Hk Hv] Ho IH]; simpl in *; [constructor|].
  subst. by case_bool_decide; [constructor|].
Qed.

Lemma obj_get_json_perm k o o' :
  json_perm (JObject o) (JObject o') → option_Forall2 json_perm (obj_get k o) (obj_get k o').
Proof.
  inversion 1 as [|? ? ?|? o1 ? Hnd Hp Hf]; subst.
  - destruct (obj_get k o'); constructor. constructor.
  - erewrite (obj_get_Permutation k o o1) by done. by apply obj_get_Forall2.
Qed.

Lemma child_path_json_perm p v v' : json_perm v v' → child_path p v = child_path p v'.
Proof.
  intros Hv. destruct Hv as [v|a a' Ha|o o1 o' Hnd Hp Hf]; try done. simpl.
  assert (Hg : option_Forall2 json_perm (obj_get "$type" o) (obj_get "$type" o')).
  { apply obj_get_json_perm. by econstructor. }
  destruct Hg as [x y Hxy|]; [|done]. by destruct Hxy.
Qed.

Lemma flat_map_perm {A B} (f g : A → list B) (R : A → A → Prop) (l l' : list A) :
  Forall2 R l l' → (∀ x y, x ∈ l → R x y → f x ≡ₚ g y) → flat_map f l ≡ₚ flat_map g l'.
Proof.
  induction 1 as [|x y l l' Hxy Hl IH]; intros Hf; simpl; [done|].
  rewrite (Hf x y), IH; [done| |by left|done]. intros; apply Hf; [by right|done].
Qed.

Lemma walk_record_json_perm v v' p : json_perm v v' → walk_record p v [] ≡ₚ walk_record p v' [].
Proof.
  revert v' p. induction v as [| |s| |a IH|o IH] using json_ind; intros v' p Hp.
  1-4: by inversion Hp; subst.
  - inversion Hp as [|? a' Ha|]; subst; [done|]. rewrite !walk_record_array.
    rewrite list.Forall_forall in IH. eapply flat_map_perm; [done|].
    intros x y Hx Hxy. rewrite (child_path_json_perm _ _ _ Hxy). by apply IH.
  - inversion Hp as [|? ? ?|? o1 o' Hnd Hperm Hf]; subst; [done|]. rewrite !walk_record_object.
    rewrite list.Forall_forall in IH. rewrite Hperm.
    eapply flat_map_perm; [done|]. intros x y Hx [Hk Hxy]. rewrite Hk. apply IH; [|done]. by rewrite Hperm.
Qed.

(** The links collected from a record do not depend on the order in which
    the hash maps of its objects are iterated, up to the order of the result. *)
Theorem collect_links_order_independent v v' :
  json_perm v v' → collect_links v ≡ₚ collect_links v'.
Proof. apply walk_record_json_perm. Qed.

End WithUri.

Section Witness.
#[local] Existing Instance AtUri.plain_uri.

Lemma collect_links_order_independent_witness :
  collect_links (JObject [("a", JString "https://e.com"); ("b", JString "did:plc:x")]) ≡ₚ
  collect_links (JObject [("b", JString "did:plc:x"); ("a", JString "https://e.com")]).
Proof.
  apply collect_links_order_independent. eapply jp_object; [| |].
  - apply (bool_decide_eq_true_1 (NoDup ["a"; "b"])). reflexivity.
  - apply perm_swap.
  - repeat constructor.
Defined.

Example collect_links_facet :
  collect_links (JObject [("facets", JArray [JObject
    [("features", JArray [JObject [("$type", JString "app.bsky.richtext.facet#link");
                                   ("uri", JString "https://youtu.be/oKXm4szEP1Q")]])]]);
    ("text", JString "hello")]) =
  [mkCollectedLink ".facets[].features[app.bsky.richtext.facet#link].uri"
     (Uri "https://youtu.be/oKXm4szEP1Q")].
Proof. reflexivity. Qed.

End Witness.

End Links.
