(* ===== verification/RocksApi.v ===== *)
(** * The RocksDB and bincode interfaces

    [rocksdb] and [bincode] are third-party crates: they enter the model of
    [RocksStorage] as type classes, with the documented behaviour the store
    relies on as classes of laws.  Section [Reference] gives an instance of
    both, which shows that the laws can hold and lets concrete runs evaluate. *)

From stdpp Require Import pretty.
From S2P Require Import Prelude RustStr Bytes.

(** ** bincode *)

(** [_bincode_opts().serialize] and [.deserialize] at one type. *)
Class Codec (A : Type) := {
  ser : A → string;
  de : string → option A
}.

(** The types the store serialises: strings (dids, targets), [u64] ids and
    cursors, [DidIdValue], [TargetKey], [TargetLinkers], [RecordLinkKey] and
    [RecordLinkTargets]. *)
Class Bincode := {
  #[global] bc_string :: Codec string;
  #[global] bc_u64 :: Codec N;
  #[global] bc_did_id_value :: Codec (N * bool);
  #[global] bc_target_key :: Codec (string * string * string);
  #[global] bc_target_linkers :: Codec (list (N * string));
  #[global] bc_record_link_key :: Codec (N * string * string);
  #[global] bc_record_link_targets :: Codec (list (string * N))
}.

(** Deserialising what was serialised gives the value back, for every value
    the Rust types hold; struct fields are encoded in order with self-delimiting
    codes, so that a serialised first field is a prefix of exactly the structs
    that start with it. *)
Class BincodeLaws `{Bincode} := {
  rt_string (s : string) : de (ser s) = Some s;
  rt_u64 (n : N) : (n < u64_bound)%N → de (ser n) = Some n;
  rt_did_id_value (n : N) (b : bool) : (n < u64_bound)%N → de (ser (n, b)) = Some (n, b);
  rt_target_key (k : string * string * string) : de (ser k) = Some k;
  rt_target_linkers (l : list (N * string)) :
    Forall (λ x, x.1 < u64_bound)%N l → de (ser l) = Some l;
  rt_record_link_key (n : N) (c r : string) : (n < u64_bound)%N → de (ser (n, c, r)) = Some (n, c, r);
  rt_record_link_targets (l : list (string * N)) :
    Forall (λ x, x.2 < u64_bound)%N l → de (ser l) = Some l;
  prefix_record_link_key (p n : N) (c r : string) :
    (p < u64_bound)%N → (n < u64_bound)%N →
    starts_with (ser p) (ser (n, c, r)) = true ↔ p = n;
  prefix_target_key (t t' c p : string) :
    starts_with (ser t) (ser (t', c, p)) = true ↔ t = t';
  (** A serialised string starts with its length and is never eight bytes that
      start with a zero. *)
  string_not_small_id (s : string) (id : N) :
    (id < 2 ^ 56)%N → ser s ≠ u64_to_be_bytes id
}.

(** ** RocksDB *)

Inductive WriteOp : Type :=
  | Put (cf key value : string)
  | Merge (cf key value : string)
  | Delete (cf key : string).

(** A getter: column family and key to the stored bytes. *)
Abbreviation getter := (string → string → option string).

(** Column family, key, existing value and operands to the merged value. *)
Abbreviation merge_operator := (string → string → option string → list string → option string).

Class RocksDb := {
  DB : Type;
  (** [db.get_cf] ([db.get] reads the "default" family). *)
  db_get_cf : DB → getter;
  (** [db.write(batch)]. *)
  db_write : DB → list WriteOp → DB;
  (** [iterator_cf_opt] over a [PrefixRange]. *)
  db_prefix_iter : DB → string → string → list (string * string);
  (** [property_value_cf(cf, ESTIMATE_NUM_KEYS)]. *)
  db_estimate_num_keys : DB → string → option string
}.

(** The effect of a batch on one key: operations apply in order; a merge calls
    the merge operator of the column family on the value so far. *)
Definition apply_op (merge_op : merge_operator)
    (cf key : string) (cur : option string) (op : WriteOp) : option string :=
  match op with
  | Put cf' key' v => if decide (cf' = cf ∧ key' = key) then Some v else cur
  | Merge cf' key' v => if decide (cf' = cf ∧ key' = key) then merge_op cf key cur [v] else cur
  | Delete cf' key' => if decide (cf' = cf ∧ key' = key) then None else cur
  end.

Definition apply_ops (merge_op : merge_operator) (g : getter) (ops : list WriteOp) : getter :=
  λ cf key, fold_left (apply_op merge_op cf key) ops (g cf key).

(** [db] opened with the merge operator [merge_op]. *)
Class RocksDbLaws `{RocksDb} (merge_op : merge_operator) := {
  db_get_write (d : DB) (ops : list WriteOp) cf key :
    db_get_cf (db_write d ops) cf key = apply_ops merge_op (db_get_cf d) ops cf key;
  db_prefix_iter_spec (d : DB) cf p k v :
    (k, v) ∈ db_prefix_iter d cf p ↔ db_get_cf d cf k = Some v ∧ starts_with p k = true;
  db_prefix_iter_NoDup (d : DB) cf p : NoDup (db_prefix_iter d cf p).*1
}.

Definition op_touches (cf key : string) (op : WriteOp) : Prop :=
  match op with
  | Put cf' key' _ | Merge cf' key' _ | Delete cf' key' => cf' = cf ∧ key' = key
  end.

Section ApplyOps.
Context (merge_op : merge_operator).

Lemma apply_ops_app g ops1 ops2 cf key :
  apply_ops merge_op g (ops1 ++ ops2) cf key = apply_ops merge_op (apply_ops merge_op g ops1) ops2 cf key.
Proof. unfold apply_ops. apply fold_left_app. Qed.

Lemma apply_ops_cons g op ops cf key :
  apply_ops merge_op g (op :: ops) cf key = apply_ops merge_op (apply_ops merge_op g [op]) ops cf key.
Proof. done. Qed.

Lemma apply_op_untouched cf key cur op : ¬ op_touches cf key op → apply_op merge_op cf key cur op = cur.
Proof. destruct op; simpl; intros; by rewrite decide_False. Qed.

Lemma apply_ops_untouched g ops cf key :
  Forall (λ op, ¬ op_touches cf key op) ops → apply_ops merge_op g ops cf key = g cf key.
Proof.
  unfold apply_ops. generalize (g cf key). intros cur Hops; revert cur.
  induction Hops as [|op ops Hop Hops IH]; intros cur; simpl; [done|].
  by rewrite apply_op_untouched.
Qed.

Lemma apply_ops_ext g g' ops cf key :
  g cf key = g' cf key → apply_ops merge_op g ops cf key = apply_ops merge_op g' ops cf key.
Proof. unfold apply_ops. by intros ->. Qed.
End ApplyOps.

(** ** Reading typed values *)

(** [get_cf] followed by deserialisation of the value, the pattern of every
    typed read of the store; undecodable bytes are an error. *)
Section Typed.
Context {E K V : Type} `{Codec K, Codec V}.

Definition decode_value (err : E) (o : option string) : result E (option V) :=
  match o with
  | Some bytes => match de bytes with Some v => Ok (Some v) | None => Err err end
  | None => Ok None
  end.

Definition read (err : E) (g : getter) (cf : string) (k : K) : result E (option V) :=
  decode_value err (g cf (ser k)).
End Typed.

Section ReadLemmas.
Context {E K V : Type} `{CK : Codec K, CV : Codec V}.

Lemma read_ext (err : E) g g' cf (k : K) :
  g cf (ser k) = g' cf (ser k) → read (V := V) err g cf k = read err g' cf k.
Proof. unfold read. by intros ->. Qed.

Lemma read_ser (err : E) (g : getter) cf (k : K) (v : V) :
  de (ser v) = Some v → g cf (ser k) = Some (ser v) → read err g cf k = Ok (Some v).
Proof. unfold read. by intros Hv ->; simpl; rewrite Hv. Qed.
End ReadLemmas.

(** ** A reference instance *)

Module Reference.

(** A self-delimiting code: every character is announced by a [1], the end by
    a [0]. *)
Fixpoint enc_string (s : string) : string :=
  match s with
  | EmptyString => "0"
  | String c s => String "1" (String c (enc_string s))
  end.

Fixpoint dec_string (s : string) : option (string * string) :=
  match s with
  | String m s =>
      if bool_decide (m = "0"%char) then Some (EmptyString, s)
      else if bool_decide (m = "1"%char) then
        match s with
        | String c s => '(a, rest) ← dec_string s; Some (String c a, rest)
        | EmptyString => None
        end
      else None
  | EmptyString => None
  end.

Lemma dec_enc_string a rest : dec_string (enc_string a +:+ rest) = Some (a, rest).
Proof.
  induction a as [|c a IH]; [done|]. cbn [enc_string]. rewrite !str_app_cons.
  cbn [dec_string]. rewrite bool_decide_false, bool_decide_true by done. by rewrite IH.
Qed.

Definition enc_u64 (n : N) : string := enc_string (u64_to_be_bytes n).
Definition dec_u64 (s : string) : option (N * string) :=
  '(b, rest) ← dec_string s; n ← u64_from_be_bytes b; Some (n, rest).

Lemma dec_enc_u64 n rest : (n < u64_bound)%N → dec_u64 (enc_u64 n +:+ rest) = Some (n, rest).
Proof.
  intros Hn. unfold dec_u64, enc_u64. rewrite dec_enc_string. cbn [mbind option_bind].
  by rewrite u64_be_roundtrip.
Qed.

Definition enc_list {A} (enc : A → string) (l : list A) : string :=
  fold_right (λ a s, String "1" (enc a +:+ s)) "0" l.

Fixpoint dec_list {A} (dec : string → option (A * string)) (fuel : nat) (s : string)
    : option (list A * string) :=
  match fuel, s with
  | S fuel, String m s =>
      if bool_decide (m = "0"%char) then Some ([], s)
      else if bool_decide (m = "1"%char) then
        '(a, s) ← dec s; '(l, s) ← dec_list dec fuel s; Some (a :: l, s)
      else None
  | _, _ => None
  end.

Lemma dec_enc_list {A} (enc : A → string) (dec : string → option (A * string)) (l : list A) fuel rest :
  Forall (λ a, ∀ rest, dec (enc a +:+ rest) = Some (a, rest)) l → length l < fuel →
  dec_list dec fuel (enc_list enc l +:+ rest) = Some (l, rest).
Proof.
  intros Hl; revert fuel; induction Hl as [|a l Ha Hl IH]; intros [|fuel] Hf; simpl in Hf; try lia.
  - done.
  - change (enc_list enc (a :: l)) with (String "1" (enc a +:+ enc_list enc l)).
    rewrite str_app_cons, str_app_assoc. cbn [dec_list]. rewrite bool_decide_false, bool_decide_true by done.
    rewrite Ha. cbn [mbind option_bind]. rewrite IH by lia. done.
Qed.

Lemma enc_list_length {A} (enc : A → string) l : length l < String.length (enc_list enc l).
Proof. induction l as [|a l IH]; simpl; [lia|]. rewrite str_length_app. lia. Qed.

Definition complete {A} (o : option (A * string)) : option A :=
  match o with Some (a, "") => Some a | _ => None end.

#[export] Instance ref_bincode : Bincode := {
  bc_string := {| ser := enc_string; de s := complete (dec_string s) |};
  bc_u64 := {| ser := enc_u64; de s := complete (dec_u64 s) |};
  bc_did_id_value :=
    {| ser (x : N * bool) := enc_u64 x.1 +:+ (if x.2 then "1" else "0");
       de s := '(n, r) ← dec_u64 s;
               if decide (r = "1") then Some (n, true) else if decide (r = "0") then Some (n, false) else None |};
  bc_target_key :=
    {| ser (x : string * string * string) := enc_string x.1.1 +:+ enc_string x.1.2 +:+ enc_string x.2;
       de s := '(a, r) ← dec_string s; '(b, r) ← dec_string r; c ← complete (dec_string r); Some (a, b, c) |};
  bc_target_linkers :=
    {| ser (l : list (N * string)) := enc_list (λ x, enc_u64 x.1 +:+ enc_string x.2) l;
       de s := complete (dec_list (λ s, '(n, r) ← dec_u64 s; '(a, r) ← dec_string r; Some ((n, a), r))
                           (String.length s) s) |};
  bc_record_link_key :=
    {| ser (x : N * string * string) := enc_u64 x.1.1 +:+ enc_string x.1.2 +:+ enc_string x.2;
       de s := '(a, r) ← dec_u64 s; '(b, r) ← dec_string r; c ← complete (dec_string r); Some (a, b, c) |};
  bc_record_link_targets :=
    {| ser (l : list (string * N)) := enc_list (λ x, enc_string x.1 +:+ enc_u64 x.2) l;
       de s := complete (dec_list (λ s, '(a, r) ← dec_string s; '(n, r) ← dec_u64 r; Some ((a, n), r))
                           (String.length s) s) |}
}.

Lemma enc_string_prefix a b r s : enc_string a +:+ r = enc_string b +:+ s → a = b.
Proof.
  intros H. pose proof (dec_enc_string a r) as Ha. rewrite H, dec_enc_string in Ha. congruence.
Qed.

Lemma enc_u64_prefix a b r s :
  (a < u64_bound)%N → (b < u64_bound)%N → enc_u64 a +:+ r = enc_u64 b +:+ s → a = b.
Proof. intros Ha Hb H. by apply enc_string_prefix, u64_be_inj in H. Qed.

Lemma complete_app {A} (dec : string → option (A * string)) enc (a : A) :
  (∀ rest, dec (enc +:+ rest) = Some (a, rest)) → complete (dec enc) = Some a.
Proof. intros H. rewrite <- (str_app_nil_r enc), H. done. Qed.

Lemma dec_list_complete {A} (enc : A → string) (dec : string → option (A * string)) (l : list A) :
  Forall (λ a, ∀ rest, dec (enc a +:+ rest) = Some (a, rest)) l →
  complete (dec_list dec (String.length (enc_list enc l)) (enc_list enc l)) = Some l.
Proof.
  intros Hl. pose proof (dec_enc_list enc dec l (String.length (enc_list enc l)) "" Hl
    (enc_list_length enc l)) as H. rewrite str_app_nil_r in H. by rewrite H.
Qed.

#[export] Instance ref_bincode_laws : BincodeLaws.
Proof.
  split.
  - intros s. apply (complete_app dec_string). intros. apply dec_enc_string.
  - intros n Hn. apply (complete_app dec_u64). intros. by apply dec_enc_u64.
  - intros n b Hn. cbn [ser de bc_did_id_value ref_bincode fst snd]. rewrite dec_enc_u64 by done. by destruct b.
  - intros [[a b] c]. cbn [ser de bc_target_key ref_bincode fst snd]. rewrite dec_enc_string. cbn [mbind option_bind].
    rewrite dec_enc_string. cbn [mbind option_bind].
    rewrite (complete_app dec_string (enc_string c) c) by (intros; apply dec_enc_string). done.
  - intros l Hl. apply dec_list_complete. eapply Forall_impl; [exact Hl|]. intros [n a] Hn rest. cbn [fst snd] in *.
    rewrite str_app_assoc, dec_enc_u64 by done. cbn [mbind option_bind]. by rewrite dec_enc_string.
  - intros n b c Hn. cbn [ser de bc_record_link_key ref_bincode fst snd]. rewrite dec_enc_u64 by done.
    cbn [mbind option_bind]. rewrite dec_enc_string. cbn [mbind option_bind].
    rewrite (complete_app dec_string (enc_string c) c) by (intros; apply dec_enc_string). done.
  - intros l Hl. apply dec_list_complete. eapply Forall_impl; [exact Hl|]. intros [a n] Hn rest. cbn [fst snd] in *.
    rewrite str_app_assoc, dec_enc_string. cbn [mbind option_bind]. by rewrite dec_enc_u64.
  - intros p n c r Hp Hn. cbn [ser bc_u64 bc_record_link_key ref_bincode fst snd]. rewrite starts_with_spec. split.
    + intros [t Ht]. by apply enc_u64_prefix in Ht.
    + intros ->. eauto.
  - intros t t' c p. cbn [ser bc_string bc_target_key ref_bincode fst snd]. rewrite starts_with_spec. split.
    + intros [r Hr]. by apply enc_string_prefix in Hr.
    + intros ->. eauto.
  - intros s id Hid. cbn [ser bc_string ref_bincode]. unfold u64_to_be_bytes. cbn [be_bytes].
    assert (byte_of (id / 256 ^ N.of_nat 7) = ascii_of_N 0) as ->.
    { unfold byte_of. rewrite N.div_small; [done|]. exact Hid. }
    destruct s; intros [= H].
Qed.

(** The database as a finite map. *)
Definition write_map (merge_op : merge_operator) (m : gmap (string * string) string) (op : WriteOp)
    : gmap (string * string) string :=
  match op with
  | Put cf k v => <[(cf, k) := v]> m
  | Merge cf k v => partial_alter (λ cur, merge_op cf k cur [v]) (cf, k) m
  | Delete cf k => delete (cf, k) m
  end.

Definition ref_rocksdb (merge_op : merge_operator)
    : RocksDb := {|
  DB := gmap (string * string) string;
  db_get_cf m cf k := m !! (cf, k);
  db_write m ops := fold_left (write_map merge_op) ops m;
  db_prefix_iter m cf p :=
    omap (λ e, if decide (e.1.1 = cf) then if starts_with p e.1.2 then Some (e.1.2, e.2) else None else None)
      (map_to_list m);
  db_estimate_num_keys m cf := Some (pretty (N.of_nat (size (filter (λ e, e.1.1 = cf) m))))
|}.

Lemma ref_rocksdb_laws merge_op : @RocksDbLaws (ref_rocksdb merge_op) merge_op.
Proof.
  split.
  - intros d ops cf key. simpl in *. unfold apply_ops. revert d.
    induction ops as [|op ops IH]; intros d; simpl; [done|]. rewrite IH. f_equal.
    destruct op as [c k v|c k v|c k]; simpl.
    + rewrite lookup_insert. repeat case_decide; naive_solver.
    + destruct (decide (c = cf ∧ k = key)) as [[-> ->]|Hne].
      * by rewrite lookup_partial_alter_eq.
      * rewrite lookup_partial_alter_ne by naive_solver. done.
    + rewrite lookup_delete. repeat case_decide; naive_solver.
  - intros d cf p k v. simpl in *. rewrite list_elem_of_omap. split.
    + intros ([[c k'] v'] & Hin & Hc). simpl in Hc. case_decide; [|done]. subst.
      destruct (starts_with p k') eqn:E; [|done]. simplify_eq. apply elem_of_map_to_list in Hin. done.
    + intros [Hg Hp]. exists ((cf, k), v). rewrite elem_of_map_to_list. split; [done|]. simpl.
      rewrite decide_True by done. by rewrite Hp.
  - intros d cf p. simpl in *.
    assert (∀ l : list ((string * string) * string), NoDup l.*1 →
      NoDup (omap (λ e, if decide (e.1.1 = cf)
        then if starts_with p e.1.2 then Some (e.1.2, e.2) else None else None) l).*1) as Hl.
    { induction l as [|[[c k] v] l IH]; simpl; [constructor|]. intros [Hk Hnd]%NoDup_cons.
      specialize (IH Hnd). case_decide; [|done]. destruct (starts_with p k); [|done]. simpl. subst c.
      apply NoDup_cons. split; [|done]. rewrite list_elem_of_fmap. intros ([k' v'] & -> & Hin).
      apply list_elem_of_omap in Hin as ([[c2 k2] v2] & Hin & Hc). simpl in Hc.
      case_decide; [|done]. destruct (starts_with p k2); [|done]. simplify_eq. apply Hk.
      apply list_elem_of_fmap. by exists ((cf, k'), v'). }
    apply Hl, NoDup_fst_map_to_list.
Qed.

End Reference.
