(* ===== verification/ConstellationTypes.v ===== *)
(** * constellation: shared types and the storage traits
      (constellation/src/lib.rs, constellation/src/storage/mod.rs)

    The events the consumer produces, the results the readers return, the
    [LinkReader]/[LinkStorage] traits as type classes, and the page window
    computation that both stores share. *)

From S2P Require Import Prelude RustStr LinksRecord.

(** ** constellation/src/lib.rs *)

Record RecordId : Type := mkRecordId {
  rid_did : string;
  rid_collection : string;
  rid_rkey : string
}.

#[global] Instance RecordId_eq_dec : EqDecision RecordId.
Proof. solve_decision. Defined.

Inductive ActionableEvent : Type :=
  | CreateLinks (record_id : RecordId) (links : list Links.CollectedLink)
  | UpdateLinks (record_id : RecordId) (new_links : list Links.CollectedLink)
  | DeleteRecord (record_id : RecordId)
  | ActivateAccount (did : string)
  | DeactivateAccount (did : string)
  | DeleteAccount (did : string).

Record CountsByCount : Type := mkCountsByCount {
  records : N;
  distinct_dids : N
}.

#[global] Instance CountsByCount_eq_dec : EqDecision CountsByCount.
Proof. solve_decision. Defined.

(** ** constellation/src/storage/mod.rs *)

Record PagedAppendingCollection (T : Type) : Type := mkPaged {
  version : N * N;
  items : list T;
  next : option N;
  total : N
}.
Arguments mkPaged {T} _ _ _ _.
Arguments version {T} _.
Arguments items {T} _.
Arguments next {T} _.
Arguments total {T} _.

Definition empty_page {T} : PagedAppendingCollection T := mkPaged (0, 0)%N [] None 0%N.

Record StorageStats : Type := mkStorageStats {
  stat_dids : N;
  targetables : N;
  linking_records : N
}.

(** Why a storage operation did not return normally: a panic ([expect],
    [assert], integer overflow), a [bail!], or a deserialisation error passed
    on by [?]. *)
Inductive StoreFailure : Type :=
  | Panic (msg : string)
  | Bail (msg : string)
  | Undecodable.

Abbreviation StoreResult := (result StoreFailure).

Definition expect {A} (msg : string) (o : option A) : StoreResult A :=
  match o with Some a => Ok a | None => Err (Panic msg) end.

(** Checked [u64] arithmetic: overflow panics. *)
Definition u64_add (a b : N) : StoreResult N :=
  if (a + b <? 2 ^ 64)%N then Ok (a + b)%N else Err (Panic "attempt to add with overflow").
Definition u64_sub (a b : N) : StoreResult N :=
  if (b <=? a)%N then Ok (a - b)%N else Err (Panic "attempt to subtract with overflow").

(** [LinkReader]: what the HTTP server asks of a store. *)
Class LinkReader (St : Type) := {
  get_count : St → string → string → string → StoreResult N;
  get_distinct_did_count : St → string → string → string → StoreResult N;
  get_links : St → string → string → string → N → option N →
    StoreResult (PagedAppendingCollection RecordId);
  get_distinct_dids : St → string → string → string → N → option N →
    StoreResult (PagedAppendingCollection string);
  get_all_record_counts : St → string → StoreResult (gmap string (gmap string N));
  get_all_counts : St → string → StoreResult (gmap string (gmap string CountsByCount));
  get_stats : St → StoreResult StorageStats
}.

(** [LinkStorage]: what the consumer asks of a store. *)
Class LinkStorage (St : Type) := {
  get_cursor : St → StoreResult (option N);
  push : St → ActionableEvent → N → StoreResult St
}.

(** ** Page windows

    [end = min(until, total)] (or [total]), [begin = end - limit] saturating,
    [next = None] at the beginning of the list. *)

Definition page_end (total : N) (until : option N) : N :=
  match until with Some u => N.min u total | None => total end.

Definition page_begin (e limit : N) : N := (e - limit)%N.

Definition page_next (b : N) : option N := if (b =? 0)%N then None else Some b.

(** [l[begin..end]]. *)
Definition slice {A} (b e : N) (l : list A) : list A :=
  take (N.to_nat e - N.to_nat b) (drop (N.to_nat b) l).

Lemma page_window_le total limit until :
  (page_begin (page_end total until) limit ≤ page_end total until ≤ total)%N.
Proof. unfold page_begin, page_end. destruct until; lia. Qed.

Lemma slice_take_app {A} b e (l : list A) :
  (b ≤ e)%N → take (N.to_nat b) l ++ slice b e l = take (N.to_nat e) l.
Proof.
  intros Hbe. unfold slice. rewrite take_take_drop. f_equal. lia.
Qed.

(** ** Following cursors *)

(** A client that follows [next] until it is [None], collecting the items; the
    fuel bounds the number of pages. *)
Fixpoint collect_pages {A} (fetch : option N → StoreResult (PagedAppendingCollection A))
    (fuel : nat) (until : option N) : StoreResult (list A) :=
  match fuel with
  | O => Err (Panic "too many pages")
  | S fuel =>
      p ←? fetch until;
      match next p with
      | None => Ok (items p)
      | Some u => rest ←? collect_pages fetch fuel (Some u); Ok (items p ++ rest)
      end
  end.

Lemma collect_pages_S {A} (fetch : option N → StoreResult (PagedAppendingCollection A)) fuel cur :
  collect_pages fetch (S fuel) cur =
    (p ←? fetch cur;
     match next p with
     | None => Ok (items p)
     | Some u => rest ←? collect_pages fetch fuel (Some u); Ok (items p ++ rest)
     end).
Proof. done. Qed.

Lemma collect_pages_ext {A} (f g : option N → StoreResult (PagedAppendingCollection A)) :
  (∀ cur, f cur = g cur) → ∀ fuel cur, collect_pages f fuel cur = collect_pages g fuel cur.
Proof.
  intros Hfg. induction fuel as [|fuel IH]; intros cur; [done|]. rewrite !collect_pages_S, Hfg.
  destruct (g cur) as [p|]; [|done]. cbn [result_bind]. destruct (next p); [|done]. by rewrite IH.
Qed.

Section Pages.
Context {A B : Type} (entries : list A) (g : list A → list B) (limit : N).
Context (fetch : option N → StoreResult (PagedAppendingCollection B)).
Context (g_app : ∀ l1 l2, g (l1 ++ l2) = g l1 ++ g l2).

(** [fetch] returns the window of the reversed list, through [g]. *)
Definition pages_of : Prop := ∀ until,
  let e := page_end (N.of_nat (length entries)) until in
  let b := page_begin e limit in
  ∃ v t, fetch until = Ok (mkPaged v (g (rev (slice b e entries))) (page_next b) t).

(** Enough fuel: the pages concatenate to the whole reversed list, each entry
    once, whatever the page size. *)
Lemma collect_pages_ok fuel cur :
  pages_of → (0 < limit)%N →
  (N.to_nat (page_end (N.of_nat (length entries)) cur) ≤ fuel) →
  collect_pages fetch (S fuel) cur =
  Ok (g (rev (take (N.to_nat (page_end (N.of_nat (length entries)) cur)) entries))).
Proof.
  intros Hp Hlim. revert cur. induction fuel as [|fuel IH]; intros cur Hfuel.
  all: destruct (Hp cur) as (v & t & Hf).
  all: set (e := page_end (N.of_nat (length entries)) cur) in *.
  all: pose proof (page_window_le (N.of_nat (length entries)) limit cur) as [_ He]; fold e in He.
  all: rewrite collect_pages_S, Hf; cbn [result_bind next items].
  all: unfold page_next; destruct (N.eqb_spec (page_begin e limit) 0) as [Hz|Hnz].
  1,3: f_equal; rewrite Hz; unfold slice; simpl; rewrite drop_0; do 3 f_equal; lia.
  - unfold page_begin in *. lia.
  - assert (Hb : page_end (N.of_nat (length entries)) (Some (page_begin e limit)) = page_begin e limit).
    { unfold page_begin, page_end in *. lia. }
    rewrite IH by (rewrite Hb; unfold page_begin in *; lia). rewrite Hb. cbn [result_bind].
    rewrite <- g_app, <- rev_app_distr, slice_take_app; [done|]. unfold page_begin; lia.
Qed.
End Pages.
