(* ===== verification/ConstellationMem.v ===== *)
(** * constellation: the in-memory store (constellation/src/storage/mem_store.rs)

    [MemStorage] is the reference store: a reverse index (targets to linkers,
    append-only with holes) beside the forward links of every record.  The
    invariant says the two indexes hold the same links with the same
    multiplicity; from it no [expect] can fail, and every reader answers what
    the forward links say. *)

From S2P Require Import Prelude RustStr LinksRecord ConstellationTypes.

Module Mem.

(** [Vec<Option<(Did, RKey)>>]: [None] is a deleted link. *)
Abbreviation Linkers := (list (option (string * string))).

(** Keys: a [Source] is (collection, path), a [RepoId] is (collection, rkey). *)
Record MemStorageData : Type := mkMem {
  dids : gmap string bool;
  targets : gmap string (gmap (string * string) Linkers);
  links : gmap string (gmap (string * string) (list (string * string)))
}.

Definition new : MemStorageData := mkMem ∅ ∅ ∅.

(** ** Writers *)

(** One iteration of the loop of [add_links]. *)
Definition add_link (record_id : RecordId) (data : MemStorageData) (link : Links.CollectedLink)
    : MemStorageData :=
  let did := rid_did record_id in
  let target := Links.as_str (Links.target link) in
  mkMem
    (match dids data !! did with Some _ => dids data | None => <[did := true]> (dids data) end)
    (update2 (λ linkers, linkers ++ [Some (did, rid_rkey record_id)])
       target (rid_collection record_id, Links.path link) (targets data))
    (update2 (λ lts, lts ++ [(Links.path link, target)])
       did (rid_collection record_id, rid_rkey record_id) (links data)).

Definition add_links (data : MemStorageData) (record_id : RecordId)
    (ls : list Links.CollectedLink) : MemStorageData :=
  fold_left (add_link record_id) ls data.

(** Take one linker of [target] at [source] out of the list, the one that
    [find] (or [rfind]) picks. *)
Definition take_linker
    (replace : (option (string * string) → bool) → option (string * string) → Linkers → option Linkers)
    (msg : string) (ts : gmap string (gmap (string * string) Linkers))
    (target : string) (source linker : string * string)
    : StoreResult (gmap string (gmap (string * string) Linkers)) :=
  paths ←? expect "must have the target if we have a link saved" (ts !! target);
  linkers ←? expect "must have the target at this path if we have a link to it saved" (paths !! source);
  linkers' ←? expect msg
    (replace (λ d, bool_decide (d = Some linker)) None linkers);
  Ok (<[target := <[source := linkers']> paths]> ts).

Definition remove_links (data : MemStorageData) (record_id : RecordId) : StoreResult MemStorageData :=
  let did := rid_did record_id in
  let repo_id := (rid_collection record_id, rid_rkey record_id) in
  ts ←? match links data !! did ≫= lookup repo_id with
        | Some link_targets =>
            foldl_res (λ ts lt, take_linker replace_last "must be in dids list if we have a link to it" ts
                                  lt.2 (rid_collection record_id, lt.1) (did, rid_rkey record_id))
              (targets data) link_targets
        | None => Ok (targets data)
        end;
  Ok (mkMem (dids data) ts (alter (delete repo_id) did (links data))).

Definition update_links (data : MemStorageData) (record_id : RecordId)
    (new_links : list Links.CollectedLink) : StoreResult MemStorageData :=
  data' ←? remove_links data record_id;
  Ok (add_links data' record_id new_links).

Definition set_account (data : MemStorageData) (did : string) (active : bool) : MemStorageData :=
  match dids data !! did with
  | Some _ => mkMem (<[did := active]> (dids data)) (targets data) (links data)
  | None => data
  end.

Definition delete_account (data : MemStorageData) (did : string) : StoreResult MemStorageData :=
  ts ←? match links data !! did with
        | Some repos =>
            foldl_res (λ ts repo,
                foldl_res (λ ts lt, take_linker replace_first "lkasjdlfkj" ts lt.2 (repo.1.1, lt.1) (did, repo.1.2))
                  ts repo.2)
              (targets data) (map_to_list repos)
        | None => Ok (targets data)
        end;
  Ok (mkMem (delete did (dids data)) ts (delete did (links data))).

Definition mem_push (data : MemStorageData) (event : ActionableEvent) (_cursor : N)
    : StoreResult MemStorageData :=
  match event with
  | CreateLinks record_id ls => Ok (add_links data record_id ls)
  | UpdateLinks record_id new_links => update_links data record_id new_links
  | DeleteRecord record_id => remove_links data record_id
  | ActivateAccount did => Ok (set_account data did true)
  | DeactivateAccount did => Ok (set_account data did false)
  | DeleteAccount did => delete_account data did
  end.

#[global] Instance mem_LinkStorage : LinkStorage MemStorageData := {
  get_cursor _ := Ok None;
  push := mem_push
}.

(** ** Readers *)

(** [iter().flatten()]: the entries that are not holes. *)
Definition flatten {A} (l : list (option A)) : list A := omap (λ o, o) l.

Definition lenN {A} (l : list A) : N := N.of_nat (length l).

(** The linkers of a target at a source, if both entries exist. *)
Definition linkers_at (data : MemStorageData) (target collection path : string) : option Linkers :=
  targets data !! target ≫= lookup (collection, path).

(** [collect::<HashSet<_>>().len()]. *)
Definition distinct_count (l : list string) : N :=
  N.of_nat (size (list_to_set l : gset string)).

Definition mem_get_count (data : MemStorageData) (target collection path : string) : StoreResult N :=
  match linkers_at data target collection path with
  | None => Ok 0%N
  | Some linkers => Ok (lenN (flatten linkers))
  end.

Definition mem_get_distinct_did_count (data : MemStorageData) (target collection path : string)
    : StoreResult N :=
  match linkers_at data target collection path with
  | None => Ok 0%N
  | Some linkers => Ok (distinct_count (flatten linkers).*1)
  end.

(** [filter(|x| *data.dids.get(did(x)).expect("did must be in dids"))]. *)
Fixpoint filter_active {A} (data : MemStorageData) (did_of : A → string) (l : list A)
    : StoreResult (list A) :=
  match l with
  | [] => Ok []
  | x :: l =>
      active ←? expect "did must be in dids" (dids data !! did_of x);
      l' ←? filter_active data did_of l;
      Ok (if (active : bool) then x :: l' else l')
  end.

(** The part of [get_links] and [get_distinct_dids] after the lookup. *)
Definition paged {A} (data : MemStorageData) (did_of : A → string) (entries : list (option A))
    (limit : N) (until : option N) : StoreResult (PagedAppendingCollection A) :=
  let tot := lenN entries in
  let e := page_end tot until in
  let b := page_begin e limit in
  let alive := lenN (flatten entries) in
  its ←? filter_active data did_of (flatten (rev (slice b e entries)));
  Ok (mkPaged (tot, (tot - alive)%N) its (page_next b) alive).

Definition page_map {A B} (f : A → B) (p : PagedAppendingCollection A) : PagedAppendingCollection B :=
  mkPaged (version p) (map f (items p)) (next p) (total p).

Definition mem_get_links (data : MemStorageData) (target collection path : string) (limit : N)
    (until : option N) : StoreResult (PagedAppendingCollection RecordId) :=
  match linkers_at data target collection path with
  | None => Ok empty_page
  | Some did_rkeys =>
      p ←? paged data fst did_rkeys limit until;
      Ok (page_map (λ x, mkRecordId x.1 collection x.2) p)
  end.

(** Keep the first linker of every did, leaving holes for the others. *)
Fixpoint dedup_dids (seen : gset string) (l : Linkers) : list (option string) :=
  match l with
  | [] => []
  | None :: l => None :: dedup_dids seen l
  | Some (did, _) :: l =>
      if decide (did ∈ seen) then None :: dedup_dids seen l
      else Some did :: dedup_dids ({[did]} ∪ seen) l
  end.

Definition mem_get_distinct_dids (data : MemStorageData) (target collection path : string) (limit : N)
    (until : option N) : StoreResult (PagedAppendingCollection string) :=
  match linkers_at data target collection path with
  | None => Ok empty_page
  | Some did_rkeys => paged data id (dedup_dids ∅ did_rkeys) limit until
  end.

(** [out.entry(collection).or_default().insert(path, v)] over the sources. *)
Definition by_collection {V W} (f : W → V) (paths : list ((string * string) * W))
    : gmap string (gmap string V) :=
  fold_left (λ out '((collection, path), w),
      <[collection := <[path := f w]> (default ∅ (out !! collection))]> out) paths ∅.

Definition mem_get_all_record_counts (data : MemStorageData) (target : string)
    : StoreResult (gmap string (gmap string N)) :=
  Ok (match targets data !! target with
      | Some sources => by_collection (λ linkers, lenN (flatten linkers)) (map_to_list sources)
      | None => ∅
      end).

Definition mem_counts (linkers : Linkers) : CountsByCount :=
  mkCountsByCount (lenN (flatten linkers)) (distinct_count (flatten linkers).*1).

Definition mem_get_all_counts (data : MemStorageData) (target : string)
    : StoreResult (gmap string (gmap string CountsByCount)) :=
  Ok (match targets data !! target with
      | Some sources => by_collection mem_counts (map_to_list sources)
      | None => ∅
      end).

Definition mem_get_stats (data : MemStorageData) : StoreResult StorageStats :=
  Ok (mkStorageStats (N.of_nat (size (dids data)))
        (N.of_nat (sum_list (map (λ e, size e.2) (map_to_list (targets data)))))
        (N.of_nat (sum_list (map (λ e, size e.2) (map_to_list (links data)))))).

#[global] Instance mem_LinkReader : LinkReader MemStorageData := {
  get_count := mem_get_count;
  get_distinct_did_count := mem_get_distinct_did_count;
  get_links := mem_get_links;
  get_distinct_dids := mem_get_distinct_dids;
  get_all_record_counts := mem_get_all_record_counts;
  get_all_counts := mem_get_all_counts;
  get_stats := mem_get_stats
}.

(** ** The invariant *)

(** Forward and reverse index agree, link for link; linkers have an account. *)
Record mem_inv (data : MemStorageData) : Prop := {
  inv_occ did rkey collection path target :
    occ (Some (did, rkey)) (get2 (targets data) target (collection, path)) =
    occ (path, target) (get2 (links data) did (collection, rkey));
  inv_dids did rkey target source :
    Some (did, rkey) ∈ get2 (targets data) target source → is_Some (dids data !! did)
}.

Lemma mem_inv_new : mem_inv new.
Proof. split; [done|]. intros ???? H. by apply not_elem_of_nil in H. Qed.

Lemma add_link_inv record_id data link : mem_inv data → mem_inv (add_link record_id data link).
Proof.
  intros [Hocc Hdids]. split; simpl.
  - intros did rkey c p t. rewrite !get2_update2.
    specialize (Hocc did rkey c p t).
    repeat case_decide; rewrite ?occ_app, ?occ_cons, ?occ_nil; repeat case_decide;
      destruct_and?; simplify_eq/=; try naive_solver lia.
  - intros did rkey t src. rewrite get2_update2. intros Hin.
    assert (Hor : did = rid_did record_id ∨ is_Some (dids data !! did)).
    { case_decide; [|eauto]. apply elem_of_app in Hin as [Hin|Hin]; [eauto|].
      apply list_elem_of_singleton in Hin. simplify_eq. by left. }
    destruct (dids data !! rid_did record_id) eqn:E.
    + destruct Hor as [->|]; [by rewrite E|done].
    + destruct Hor as [->|Hs]; [by rewrite lookup_insert_eq|].
      rewrite lookup_insert. clear Hin. case_decide; [by eexists|done].
Qed.

Lemma add_links_inv record_id data ls : mem_inv data → mem_inv (add_links data record_id ls).
Proof.
  unfold add_links. revert data; induction ls as [|l ls IH]; intros data H; simpl; [done|].
  apply IH, add_link_inv, H.
Qed.

(** What [find] and [rfind] have in common. *)
Definition replaces {A} (replace : (A → bool) → A → list A → option (list A)) : Prop :=
  ∀ p y l,
    (replace p y l = None → Forall (λ x, p x = false) l) ∧
    (∀ l', replace p y l = Some l' → ∃ l1 x l2, l = l1 ++ x :: l2 ∧ p x = true ∧ l' = l1 ++ y :: l2).

Lemma replaces_last {A} : replaces (@replace_last A).
Proof. intros p y l. split; [apply replace_last_None|apply replace_last_Some]. Qed.
Lemma replaces_first {A} : replaces (@replace_first A).
Proof. intros p y l. split; [apply replace_first_None|apply replace_first_Some]. Qed.
#[local] Hint Resolve replaces_last replaces_first : core.

(** [holes l l']: [l'] is [l] with some links taken out in place. *)
Definition holes {A} : list (option A) → list (option A) → Prop :=
  Forall2 (λ o o', o' = o ∨ o' = None).

#[global] Instance holes_refl {A} : Reflexive (@holes A).
Proof. intros l. induction l; constructor; auto. Qed.
#[global] Instance holes_trans {A} : Transitive (@holes A).
Proof.
  intros l1 l2 l3 H; revert l3; induction H as [|o1 o2 l1 l2 Ho Hl IH]; intros l3 H3.
  - by inversion H3.
  - inversion H3; subst. constructor; [|by apply IH]. naive_solver.
Qed.

Lemma holes_occ_le {A} `{EqDecision A} (l l' : list (option A)) x :
  holes l l' → occ (Some x) l' ≤ occ (Some x) l.
Proof.
  induction 1 as [|o o' l l' Ho Hl IH]; [done|]. rewrite !occ_cons.
  destruct Ho as [->| ->]; repeat case_decide; naive_solver lia.
Qed.

(** Holes are determined by what is left: if the links of [P] are all gone and
    the others are all there, the result is the in-place removal of [P]. *)
Lemma holes_exact {A} `{EqDecision A} (P : A → Prop) `{!∀ x, Decision (P x)} (l l' : list (option A)) :
  holes l l' →
  (∀ x, occ (Some x) l' = if decide (P x) then 0 else occ (Some x) l) →
  l' = map (λ o, match o with Some x => if decide (P x) then None else Some x | None => None end) l.
Proof.
  induction 1 as [|o o' l l' Ho Hl IH]; intros Hocc; simpl; [done|].
  assert (Ho' : o' = match o with Some x => if decide (P x) then None else Some x | None => None end).
  { destruct o as [x|]; [|naive_solver]. specialize (Hocc x). rewrite !occ_cons in Hocc.
    pose proof (holes_occ_le _ _ x Hl). destruct Ho as [->| ->]; repeat case_decide; try done; lia. }
  f_equal; [done|]. apply IH. intros x. specialize (Hocc x). rewrite !occ_cons in Hocc.
  subst o'. destruct o as [y|]; repeat case_decide; simplify_eq/=; naive_solver lia.
Qed.

(** The same on lists that may be absent; absence is preserved. *)
Definition oholes {A} : option (list (option A)) → option (list (option A)) → Prop := option_Forall2 holes.

#[global] Instance oholes_refl {A} : Reflexive (@oholes A).
Proof. intros [l|]; constructor. reflexivity. Qed.
#[global] Instance oholes_trans {A} : Transitive (@oholes A).
Proof. intros ??? [] H2; inversion H2; subst; constructor. by etrans. Qed.

Lemma oholes_default {A} (a b : option (list (option A))) : oholes a b → holes (default [] a) (default [] b).
Proof. intros []; [done|constructor]. Qed.

Lemma oholes_fmap {A} (a b : option (list (option A))) (f : option A → option A) :
  oholes a b → default [] b = map f (default [] a) → b = map f <$> a.
Proof. intros [] E; simpl in *; by f_equal. Qed.

(** Taking a linker that is present succeeds and removes one occurrence. *)
Lemma take_linker_ok replace msg ts target source x :
  replaces replace → Some x ∈ get2 ts target source →
  ∃ ts', take_linker replace msg ts target source x = Ok ts' ∧
    (∀ y t src, occ (Some y) (get2 ts t src) =
       occ (Some y) (get2 ts' t src) + if decide (y = x ∧ t = target ∧ src = source) then 1 else 0) ∧
    (∀ t src, oholes (ts !! t ≫= lookup src) (ts' !! t ≫= lookup src)).
Proof.
  intros Hrep Hin. unfold take_linker, get2 in *.
  destruct (ts !! target) as [paths|] eqn:Et; simpl in *; [|by apply not_elem_of_nil in Hin].
  destruct (paths !! source) as [linkers|] eqn:Es; simpl in *; [|by apply not_elem_of_nil in Hin].
  destruct (Hrep (λ d, bool_decide (d = Some x)) None linkers) as [Hnone Hsome].
  destruct (replace _ None linkers) as [linkers'|]; simpl.
  2:{ specialize (Hnone eq_refl). rewrite Forall_forall in Hnone. specialize (Hnone _ Hin).
      by apply bool_decide_eq_false in Hnone. }
  destruct (Hsome _ eq_refl) as (l1 & o & l2 & -> & Ho & ->). apply bool_decide_eq_true in Ho as ->.
  eexists; split; [done|].
  assert (Hget : ∀ t src,
    <[target:=<[source:=l1 ++ None :: l2]> paths]> ts !! t ≫= lookup src =
    if decide (t = target ∧ src = source) then Some (l1 ++ None :: l2)
    else ts !! t ≫= lookup src).
  { intros t src. destruct (decide (t = target)) as [->|].
    - rewrite lookup_insert_eq. simpl. destruct (decide (src = source)) as [->|].
      + by rewrite lookup_insert_eq, decide_True.
      + rewrite lookup_insert_ne, decide_False by naive_solver. by rewrite Et.
    - by rewrite lookup_insert_ne, decide_False by naive_solver. }
  split; intros.
  - rewrite Hget. case_decide as Hts.
    + destruct Hts as [-> ->]. rewrite Et. simpl. rewrite Es. simpl.
      rewrite !occ_app, !occ_cons.
      repeat case_decide; destruct_and?; simplify_eq/=; naive_solver lia.
    + rewrite (decide_False (P := y = x ∧ _)) by naive_solver. lia.
  - rewrite Hget. case_decide as Hts; [|reflexivity]. destruct Hts as [-> ->].
    rewrite Et. simpl. rewrite Es. constructor. apply Forall2_app; [apply holes_refl|].
    constructor; [by right|apply holes_refl].
Qed.

(** Taking all links of one record, listed in [lts], in any find order. *)
Lemma take_linkers_ok replace msg ts collection linker (lts : list (string * string)) :
  replaces replace →
  (∀ p t, occ (p, t) lts ≤ occ (Some linker) (get2 ts t (collection, p))) →
  ∃ ts', foldl_res (λ ts lt, take_linker replace msg ts lt.2 (collection, lt.1) linker) ts lts = Ok ts' ∧
    (∀ y t c p, occ (Some y) (get2 ts t (c, p)) =
       occ (Some y) (get2 ts' t (c, p)) + if decide (y = linker ∧ c = collection) then occ (p, t) lts else 0) ∧
    (∀ t src, oholes (ts !! t ≫= lookup src) (ts' !! t ≫= lookup src)).
Proof.
  intros Hrep. revert ts. induction lts as [|[p0 t0] lts IH]; intros ts Hle.
  { exists ts. split_and!; [done| |reflexivity]. intros. rewrite occ_nil. case_decide; lia. }
  destruct (take_linker_ok replace msg ts t0 (collection, p0) linker Hrep) as (ts1 & E & Hocc & Hlen).
  { apply occ_pos. specialize (Hle p0 t0). rewrite occ_cons, decide_True in Hle by done. lia. }
  destruct (IH ts1) as (ts' & E' & Hocc' & Hlen').
  { intros p t. specialize (Hle p t). specialize (Hocc linker t (collection, p)).
    rewrite occ_cons in Hle. repeat case_decide; destruct_and?; simplify_eq/=; naive_solver lia. }
  exists ts'. simpl. rewrite E. simpl. split_and!; [done| |by intros; etrans; [apply Hlen|apply Hlen']].
  intros y t c p. rewrite Hocc, Hocc', occ_cons.
  repeat case_decide; destruct_and?; simplify_eq/=; naive_solver lia.
Qed.

Lemma get2_alter_delete (m : gmap string (gmap (string * string) (list (string * string)))) did repo d r :
  get2 (alter (delete repo) did m) d r = if decide (d = did ∧ r = repo) then [] else get2 m d r.
Proof.
  unfold get2. destruct (decide (d = did)) as [->|].
  - rewrite lookup_alter_eq. destruct (m !! did); simpl; [|by case_decide].
    destruct (decide (r = repo)) as [->|].
    + by rewrite lookup_delete_eq, decide_True.
    + by rewrite lookup_delete_ne, decide_False by naive_solver.
  - by rewrite lookup_alter_ne, decide_False by naive_solver.
Qed.

(** The reverse index after the links of [record_id] are gone. *)
Definition clear_record (record_id : RecordId) (collection : string) (o : option (string * string))
    : option (string * string) :=
  match o with
  | Some x => if decide (x = (rid_did record_id, rid_rkey record_id) ∧ collection = rid_collection record_id)
              then None else Some x
  | None => None
  end.

(** [remove_links] never fails and empties exactly the record's links. *)
Lemma remove_links_ok data record_id :
  mem_inv data → ∃ ts,
    remove_links data record_id = Ok (mkMem (dids data) ts
      (alter (delete (rid_collection record_id, rid_rkey record_id)) (rid_did record_id) (links data))) ∧
    ∀ t c p, ts !! t ≫= lookup (c, p) =
      map (clear_record record_id c) <$> (targets data !! t ≫= lookup (c, p)).
Proof.
  intros [Hocc _]. unfold remove_links. destruct record_id as [did c rkey]; simpl.
  assert (∃ ts,
    match links data !! did ≫= lookup (c, rkey) with
    | Some lts => foldl_res (λ ts lt, take_linker replace_last
        "must be in dids list if we have a link to it" ts lt.2 (c, lt.1) (did, rkey)) (targets data) lts
    | None => Ok (targets data)
    end = Ok ts ∧
    (∀ y t c' p, occ (Some y) (get2 (targets data) t (c', p)) =
       occ (Some y) (get2 ts t (c', p)) +
       if decide (y = (did, rkey) ∧ c' = c) then occ (p, t) (get2 (links data) did (c, rkey)) else 0) ∧
    (∀ t src, oholes (targets data !! t ≫= lookup src) (ts !! t ≫= lookup src))) as (ts & -> & Hocc' & Hh).
  { unfold get2 at 3. destruct (links data !! did ≫= lookup (c, rkey)) as [lts|] eqn:E; simpl.
    - apply take_linkers_ok; [done|]. intros p t. rewrite Hocc. unfold get2. by rewrite E.
    - exists (targets data). split_and!; [done| |reflexivity]. intros. case_decide; rewrite ?occ_nil; lia. }
  exists ts. split; [done|]. intros t c' p. apply oholes_fmap; [done|]. etrans.
  - apply (holes_exact (λ x, x = (did, rkey) ∧ c' = c) _ _ (oholes_default _ _ (Hh t (c', p)))).
    change (default [] (targets data !! t ≫= lookup (c', p))) with (get2 (targets data) t (c', p)).
    change (default [] (ts !! t ≫= lookup (c', p))) with (get2 ts t (c', p)).
    intros [did' rkey']. specialize (Hocc' (did', rkey') t c' p). rewrite Hocc in Hocc' |- *.
    case_decide; destruct_and?; simplify_eq; lia.
  - by apply map_ext; intros [x|].
Qed.

Lemma clear_record_occ record_id c l y :
  occ (Some y) (map (clear_record record_id c) l) =
  if decide (y = (rid_did record_id, rid_rkey record_id) ∧ c = rid_collection record_id) then 0
  else occ (Some y) l.
Proof.
  induction l as [|o l IH]; simpl; [by case_decide|]. rewrite !occ_cons, IH. unfold clear_record.
  destruct o as [x|]; repeat case_decide; destruct_and?; simplify_eq/=; naive_solver.
Qed.

Lemma remove_links_inv data record_id :
  mem_inv data → ∃ data', remove_links data record_id = Ok data' ∧ mem_inv data'.
Proof.
  intros Hinv. destruct (remove_links_ok data record_id Hinv) as (ts & -> & Hts0).
  assert (Hts : ∀ t c p, get2 ts t (c, p) = map (clear_record record_id c) (get2 (targets data) t (c, p))).
  { intros. unfold get2. rewrite Hts0. by destruct (_ ≫= _). }
  eexists; split; [done|]. destruct Hinv as [Hinv1 Hinv2]. split; simpl.
  - intros did rkey c p t. rewrite Hts, clear_record_occ, get2_alter_delete, Hinv1.
    repeat case_decide; destruct_and?; simplify_eq/=; naive_solver.
  - intros did rkey t [c p] Hin. apply (Hinv2 did rkey t (c, p)), occ_pos. apply occ_pos in Hin.
    rewrite Hts, clear_record_occ in Hin. case_decide; [lia|done].
Qed.

(** ** Account deletion *)

Definition clear_did (did : string) (o : option (string * string)) : option (string * string) :=
  match o with
  | Some x => if decide (x.1 = did) then None else Some x
  | None => None
  end.

(** The loop of [delete_account] over the records of [did]. *)
Definition take_repos replace msg ts did (repos : list ((string * string) * list (string * string))) :=
  foldl_res (λ ts repo,
      foldl_res (λ ts lt, take_linker replace msg ts lt.2 (repo.1.1, lt.1) (did, repo.1.2)) ts repo.2)
    ts repos.

Lemma take_repos_ok replace msg ts did repos :
  replaces replace → NoDup repos.*1 →
  (∀ c rkey p t, occ (Some (did, rkey)) (get2 ts t (c, p)) =
     occ (p, t) (default [] ((list_to_map repos : gmap _ _) !! (c, rkey)))) →
  ∃ ts', take_repos replace msg ts did repos = Ok ts' ∧
    (∀ t src, oholes (ts !! t ≫= lookup src) (ts' !! t ≫= lookup src)) ∧
    (∀ did' rkey t c p, occ (Some (did', rkey)) (get2 ts' t (c, p)) =
       if decide (did' = did) then 0 else occ (Some (did', rkey)) (get2 ts t (c, p))).
Proof.
  intros Hrep. revert ts. induction repos as [|[[c0 r0] lts] repos IH]; intros ts Hnd Hts.
  { exists ts. split_and!; [done|reflexivity|]. intros. case_decide; [|done]. subst.
    by rewrite Hts. }
  apply NoDup_cons in Hnd as [Hnin Hnd]. simpl in Hnin.
  destruct (take_linkers_ok replace msg ts c0 (did, r0) lts Hrep) as (ts1 & E & Hocc1 & Hh1).
  { intros p t. rewrite Hts. simpl. by rewrite lookup_insert_eq. }
  destruct (IH ts1 Hnd) as (ts' & E' & Hh' & Hocc').
  { intros c rkey p t. specialize (Hts c rkey p t). rewrite Hocc1 in Hts. simpl in Hts.
    destruct (decide ((c, rkey) = (c0, r0))) as [[= -> ->]|Hne].
    - rewrite lookup_insert_eq, decide_True in Hts by done. simpl in Hts.
      rewrite not_elem_of_list_to_map_1 by done. simpl. rewrite occ_nil. lia.
    - rewrite lookup_insert_ne, decide_False in Hts by naive_solver. lia. }
  exists ts'. unfold take_repos in *. simpl. rewrite E. simpl. split_and!; [done|by intros; etrans; [apply Hh1|apply Hh']|].
  intros did' rkey t c p. rewrite Hocc'. case_decide; [done|]. rewrite Hocc1, decide_False by naive_solver. lia.
Qed.

(** [delete_account] never fails and empties exactly the account's links. *)
Lemma delete_account_ok data did :
  mem_inv data → ∃ ts,
    delete_account data did = Ok (mkMem (delete did (dids data)) ts (delete did (links data))) ∧
    ∀ t c p, ts !! t ≫= lookup (c, p) = map (clear_did did) <$> (targets data !! t ≫= lookup (c, p)).
Proof.
  intros [Hocc _]. unfold delete_account.
  assert (∃ ts, match links data !! did with
      | Some repos => take_repos replace_first "lkasjdlfkj" (targets data) did (map_to_list repos)
      | None => Ok (targets data)
      end = Ok ts ∧
    (∀ t src, oholes (targets data !! t ≫= lookup src) (ts !! t ≫= lookup src)) ∧
    (∀ did' rkey t c p, occ (Some (did', rkey)) (get2 ts t (c, p)) =
       if decide (did' = did) then 0 else occ (Some (did', rkey)) (get2 (targets data) t (c, p))))
    as (ts & E & Hh & Hocc').
  { destruct (links data !! did) as [repos|] eqn:E.
    - apply take_repos_ok; [done|apply NoDup_fst_map_to_list|]. intros c rkey p t.
      rewrite Hocc, list_to_map_to_list. unfold get2. by rewrite E.
    - exists (targets data). split_and!; [done|reflexivity|]. intros. case_decide; [|done].
      subst. rewrite Hocc. unfold get2. by rewrite E. }
  unfold take_repos in E. rewrite E. simpl. exists ts. split; [done|]. intros t c p. apply oholes_fmap; [done|]. etrans.
  - apply (holes_exact (λ x, x.1 = did) _ _ (oholes_default _ _ (Hh t (c, p)))). intros [did' rkey']. apply Hocc'.
  - by apply map_ext; intros [x|].
Qed.

Lemma clear_did_occ did l y :
  occ (Some y) (map (clear_did did) l) = if decide (y.1 = did) then 0 else occ (Some y) l.
Proof.
  induction l as [|o l IH]; simpl; [by case_decide|]. rewrite !occ_cons, IH. unfold clear_did.
  destruct o as [x|]; repeat case_decide; simplify_eq/=; naive_solver.
Qed.

Lemma get2_delete (m : gmap string (gmap (string * string) (list (string * string)))) did d r :
  get2 (delete did m) d r = if decide (d = did) then [] else get2 m d r.
Proof. unfold get2. rewrite lookup_delete. repeat case_decide; naive_solver. Qed.

Lemma delete_account_inv data did :
  mem_inv data → ∃ data', delete_account data did = Ok data' ∧ mem_inv data'.
Proof.
  intros Hinv. destruct (delete_account_ok data did Hinv) as (ts & -> & Hts0).
  assert (Hts : ∀ t c p, get2 ts t (c, p) = map (clear_did did) (get2 (targets data) t (c, p))).
  { intros. unfold get2. rewrite Hts0. by destruct (_ ≫= _). }
  eexists; split; [done|]. destruct Hinv as [Hinv1 Hinv2]. split; simpl.
  - intros did' rkey c p t. rewrite Hts, clear_did_occ, get2_delete, Hinv1. simpl.
    by case_decide.
  - intros did' rkey t [c p] Hin. apply occ_pos in Hin. rewrite Hts, clear_did_occ in Hin. simpl in Hin.
    case_decide; [lia|]. rewrite lookup_delete_ne by done. eapply Hinv2, occ_pos, Hin.
Qed.

Lemma set_account_inv data did active : mem_inv data → mem_inv (set_account data did active).
Proof.
  intros [Hinv1 Hinv2]. unfold set_account. destruct (dids data !! did) eqn:E; [|done].
  split; simpl; [done|]. intros did' rkey t src Hin. rewrite lookup_insert. case_decide; eauto.
Qed.

(** Every event keeps the invariant and none can panic. *)
Lemma mem_push_inv data event cursor :
  mem_inv data → ∃ data', mem_push data event cursor = Ok data' ∧ mem_inv data'.
Proof.
  intros Hinv. destruct event; simpl; eauto using add_links_inv, remove_links_inv, set_account_inv,
    delete_account_inv.
  unfold update_links. destruct (remove_links_inv data record_id Hinv) as (d & -> & ?). simpl.
  eauto using add_links_inv.
Qed.

(** Running a list of events with their cursors. *)
Definition run {St} `{LinkStorage St} (s : St) (events : list (ActionableEvent * N)) : StoreResult St :=
  foldl_res (λ s ev, push s ev.1 ev.2) s events.

(** C10. From an empty store, no sequence of events makes [MemStorage] panic,
    and the two indexes stay consistent. *)
Theorem mem_run_safe events : ∃ data, run new events = Ok data ∧ mem_inv data.
Proof.
  apply (foldl_res_inv _ (λ data _, mem_inv data)); [apply mem_inv_new|].
  intros data [ev cur] _ Hinv. apply mem_push_inv, Hinv.
Qed.

(** ** Accuracy of the readers *)

(** What the forward links say: every (did, rkey) whose record of [collection]
    links to [target] at [path], as many times as it does. *)
Definition forward_linkers (data : MemStorageData) (target collection path : string)
    : list (string * string) :=
  flat_map (λ acct,
    flat_map (λ repo,
        if decide (repo.1.1 = collection) then replicate (occ (path, target) repo.2) (acct.1, repo.1.2) else [])
      (map_to_list acct.2))
    (map_to_list (links data)).

Lemma forward_linkers_occ data target collection path did rkey :
  occ (did, rkey) (forward_linkers data target collection path) =
  occ (path, target) (get2 (links data) did (collection, rkey)).
Proof.
  unfold forward_linkers, get2. rewrite (occ_flat_map_map _ _ did).
  - destruct (links data !! did) as [repos|]; simpl; [|done].
    rewrite (occ_flat_map_map _ _ (collection, rkey)); simpl.
    + destruct (repos !! (collection, rkey)); simpl; [|done].
      by rewrite decide_True, occ_replicate, decide_True.
    + intros [c r] v Hne. simpl. case_decide; [|apply not_elem_of_nil].
      intros [[= ->] _]%elem_of_replicate. naive_solver.
  - intros did' repos Hne (repo & _ & Hin)%elem_of_flat_map. simpl in Hin.
    case_decide; [|by apply not_elem_of_nil in Hin].
    by apply elem_of_replicate in Hin as [[= -> _] _].
Qed.

Lemma flatten_occ {A} `{EqDecision A} (l : list (option A)) y : occ y (flatten l) = occ (Some y) l.
Proof.
  induction l as [|[x|] l IH]; [done| |].
  - change (flatten (Some x :: l)) with (x :: flatten l). rewrite !occ_cons, IH.
    repeat case_decide; naive_solver.
  - change (flatten (None :: l)) with (flatten l). by rewrite occ_cons, IH, decide_False.
Qed.

Lemma linkers_at_get2 data target collection path :
  default [] (linkers_at data target collection path) = get2 (targets data) target (collection, path).
Proof. done. Qed.

(** The live entries of the reverse index are the forward links. *)
Lemma flatten_forward data target collection path :
  mem_inv data →
  flatten (get2 (targets data) target (collection, path)) ≡ₚ forward_linkers data target collection path.
Proof.
  intros [Hocc _]. apply occ_Permutation. intros [did rkey].
  by rewrite flatten_occ, Hocc, forward_linkers_occ.
Qed.

#[global] Instance distinct_count_perm : Proper ((≡ₚ) ==> (=)) distinct_count.
Proof. intros l l' Hl. unfold distinct_count. do 2 f_equal. by rewrite Hl. Qed.
#[global] Instance lenN_perm {A} : Proper ((≡ₚ) ==> (=)) (@lenN A).
Proof. intros l l' Hl. unfold lenN. by rewrite Hl. Qed.

(** In a consistent store the counts are exact: [get_count] is the number
    of links that records of the collection hold at that path to the target,
    [get_distinct_did_count] the number of accounts that hold one. *)
Theorem mem_counts_accurate data target collection path :
  mem_inv data →
  get_count data target collection path = Ok (lenN (forward_linkers data target collection path)) ∧
  get_distinct_did_count data target collection path =
    Ok (distinct_count (forward_linkers data target collection path).*1).
Proof.
  intros Hinv. pose proof (flatten_forward data target collection path Hinv) as Hp.
  rewrite <- linkers_at_get2 in Hp. simpl. unfold mem_get_count, mem_get_distinct_did_count.
  destruct (linkers_at data target collection path) as [linkers|]; simpl in Hp.
  - split; f_equal; by rewrite Hp.
  - apply Permutation_nil in Hp. by rewrite Hp.
Qed.

Lemma filter_active_ok {A} data (did_of : A → string) l :
  (∀ x, x ∈ l → is_Some (dids data !! did_of x)) →
  filter_active data did_of l = Ok (filter (λ x, dids data !! did_of x = Some true) l).
Proof.
  induction l as [|x l IH]; intros Hl; simpl; [done|].
  destruct (Hl x) as [active Hx]; [by left|]. rewrite Hx. simpl.
  rewrite IH by (intros; apply Hl; by right). simpl. rewrite filter_cons, Hx.
  destruct active; [by rewrite decide_True|by rewrite decide_False].
Qed.

Lemma elem_of_slice {A} b e (l : list A) x : x ∈ slice b e l → x ∈ l.
Proof.
  unfold slice. intros Hx. eapply elem_of_sublist; [exact Hx|].
  etrans; [apply sublist_take|apply sublist_drop].
Qed.

Lemma elem_of_flatten {A} (l : list (option A)) x : x ∈ flatten l ↔ Some x ∈ l.
Proof. unfold flatten. rewrite list_elem_of_omap. naive_solver. Qed.

Lemma paged_ok {A} data (did_of : A → string) entries limit cur :
  (∀ x, Some x ∈ entries → is_Some (dids data !! did_of x)) →
  let tot := lenN entries in
  let e := page_end tot cur in
  let b := page_begin e limit in
  paged data did_of entries limit cur =
  Ok (mkPaged (tot, tot - lenN (flatten entries))%N
        (filter (λ x, dids data !! did_of x = Some true) (flatten (rev (slice b e entries))))
        (page_next b) (lenN (flatten entries))).
Proof.
  intros Hent tot e b. unfold paged. rewrite filter_active_ok; [done|].
  intros x Hx. apply Hent. apply elem_of_flatten, list_elem_of_In, in_rev, list_elem_of_In in Hx.
  by eapply elem_of_slice.
Qed.

Lemma flatten_app {A} (l1 l2 : list (option A)) : flatten (l1 ++ l2) = flatten l1 ++ flatten l2.
Proof. apply omap_app. Qed.

Lemma inv_linkers_known data target collection path linkers x :
  mem_inv data → linkers_at data target collection path = Some linkers →
  Some x ∈ linkers → is_Some (dids data !! x.1).
Proof.
  intros [_ Hd] Hl Hx. destruct x as [did rkey]. apply (Hd did rkey target (collection, path)).
  rewrite <- linkers_at_get2, Hl. done.
Qed.

(** The records a client should see: active accounts only, newest first. *)
Definition visible_links (data : MemStorageData) (target collection path : string) : list RecordId :=
  map (λ x, mkRecordId x.1 collection x.2)
    (filter (λ x, dids data !! x.1 = Some true)
       (flatten (rev (get2 (targets data) target (collection, path))))).

(** Following the cursors of [get_links] with any positive page size yields
    every visible link exactly once, newest first, and ends after at most one
    page per entry of the list. *)
Lemma get_links_pages data target collection path limit :
  mem_inv data → (0 < limit)%N →
  collect_pages (get_links data target collection path limit)
    (S (length (get2 (targets data) target (collection, path)))) None =
  Ok (visible_links data target collection path).
Proof.
  intros Hinv Hlim. unfold visible_links. rewrite <- !linkers_at_get2.
  destruct (linkers_at data target collection path) as [linkers|] eqn:E; simpl default.
  2:{ rewrite collect_pages_S. simpl. unfold mem_get_links. by rewrite E. }
  rewrite (collect_pages_ok linkers (λ l, map (λ x, mkRecordId x.1 collection x.2)
    (filter (λ x, dids data !! x.1 = Some true) (flatten l))) limit).
  - simpl. rewrite Nat2N.id, firstn_all. done.
  - intros l1 l2. by rewrite flatten_app, filter_app, map_app.
  - intros cur. cbn zeta. eexists _, _. simpl. unfold mem_get_links. rewrite E.
    rewrite paged_ok by (intros; by eapply inv_linkers_known). done.
  - done.
  - simpl. lia.
Qed.

(** A page of size zero never advances: the cursor stays at the end. *)
Lemma get_links_stuck data target collection path linkers cur :
  mem_inv data → linkers_at data target collection path = Some linkers → linkers ≠ [] →
  page_end (lenN linkers) cur = lenN linkers →
  ∃ p, get_links data target collection path 0 cur = Ok p ∧
    items p = [] ∧ next p = Some (lenN linkers).
Proof.
  intros Hinv E Hne Hend. simpl. unfold mem_get_links. rewrite E.
  rewrite paged_ok by (intros; by eapply inv_linkers_known). simpl. eexists; split; [done|].
  rewrite Hend. unfold page_map, page_begin, page_next, lenN, slice. simpl. rewrite N.sub_0_r, Nat.sub_diag.
  split; [done|]. destruct (N.eqb_spec (N.of_nat (length linkers)) 0); [|done].
  destruct linkers; simpl in *; [done|lia].
Qed.

(** A small store for the concrete instances. *)
Definition sample : MemStorageData :=
  add_links new (mkRecordId "d1" "c" "a")
    [Links.mkCollectedLink ".x" (Links.Uri "t"); Links.mkCollectedLink ".x" (Links.Uri "t")].

Lemma mem_counts_accurate_witness :
  get_count sample "t" "c" ".x" = Ok 2%N ∧ get_distinct_did_count sample "t" "c" ".x" = Ok 1%N.
Proof. exact (mem_counts_accurate sample "t" "c" ".x" (add_links_inv _ _ _ mem_inv_new)). Defined.

End Mem.
