(* ===== verification/ConstellationRocks.v ===== *)
(** * constellation: the RocksDB store (constellation/src/storage/rocks_store.rs)

    Every function of [RocksStorage] that reads or writes the database, over
    the interfaces of [RocksApi]: id tables, the merge operator, the event
    handlers with their write batches, and the readers. *)

From S2P Require Import Prelude RustStr Bytes LinksRecord RocksApi.
From S2P Require Import ConstellationTypes.

Module Rocks.

Definition DID_IDS_CF : string := "did_ids".
Definition TARGET_IDS_CF : string := "target_ids".
Definition TARGET_LINKERS_CF : string := "target_links".
Definition LINK_TARGETS_CF : string := "link_targets".
Definition DEFAULT_CF : string := "default".
Definition JETSTREAM_CURSOR_KEY : string := "jetstream_cursor".

(** ** Id tables *)

(** [id_seq] is the atomic shared with the readers, [priv_id_seq] the writer's
    own copy. *)
Record IdTable : Type := mkIdTable {
  it_name : string;
  id_seq : N;
  priv_id_seq : N
}.

Class IdTableValue (V : Type) := {
  idv_new : N → V;
  idv_id : V → N
}.

(** [DidIdValue(DidId, bool)] and [TargetId]. *)
#[global] Instance did_id_value : IdTableValue (N * bool) := { idv_new v := (v, true); idv_id x := x.1 }.
#[global] Instance target_id_value : IdTableValue N := { idv_new v := v; idv_id x := x }.

Definition seq_key (name : string) : string := "__id_seq_key_plz_be_unique:" +:+ name.

(** [IdTableBase::init]. *)
Definition init (g : getter) (name : string) : StoreResult IdTable :=
  priv_id_seq ←? match g DEFAULT_CF (seq_key name) with
    | Some seq_bytes =>
        match u64_from_le_bytes seq_bytes with
        | Some last_seq => u64_add last_seq 1
        | None => Err (Bail "reading bytes for u64 id seq: found the wrong number of bytes")
        end
    | None => Ok 1%N
    end;
  Ok (mkIdTable name priv_id_seq priv_id_seq).

Section Codecs.
Context `{Bincode}.

Section IdTables.
Context {Orig IdVal : Type} `{Codec Orig, Codec IdVal, IdTableValue IdVal}.

Definition get_id_val (g : getter) (name : string) (orig : Orig) : StoreResult (option IdVal) :=
  read Undecodable g name orig.

(** [__get_or_create_id_val]: the value, the table and the batch after it. *)
Definition get_or_create_raw (g : getter) (tbl : IdTable) (batch : list WriteOp) (orig : Orig)
    : StoreResult (IdVal * IdTable * list WriteOp) :=
  o ←? get_id_val g (it_name tbl) orig;
  match o with
  | Some id_val => Ok (id_val, tbl, batch)
  | None =>
      let prev_priv_seq := priv_id_seq tbl in
      seq ←? u64_add prev_priv_seq 1;
      if negb (id_seq tbl =? prev_priv_seq)%N then Err (Panic "public seq may have been modified??")
      else
        let id_value := idv_new seq in
        Ok (id_value, mkIdTable (it_name tbl) seq seq,
            batch ++ [Put DEFAULT_CF (seq_key (it_name tbl)) (u64_to_le_bytes seq);
                      Put (it_name tbl) (ser orig) (ser id_value)])
  end.

(** [get_or_create_id_val] with [WITH_REVERSE = true]. *)
Definition get_or_create_rev (g : getter) (tbl : IdTable) (batch : list WriteOp) (orig : Orig)
    : StoreResult (IdVal * IdTable * list WriteOp) :=
  '(id_val, tbl, batch) ←? get_or_create_raw g tbl batch orig;
  Ok (id_val, tbl, batch ++ [Put (it_name tbl) (u64_to_be_bytes (idv_id id_val)) (ser orig)]).

Definition get_val_from_id (g : getter) (name : string) (id : N) : StoreResult (option Orig) :=
  decode_value Undecodable (g name (u64_to_be_bytes id)).
End IdTables.

Definition estimate_count (tbl : IdTable) : StoreResult N := u64_sub (id_seq tbl) 1.

(** ** Linker lists *)

(** [TargetLinkers::remove_linker]: the new list and whether a match existed. *)
Definition remove_linker (linkers : list (N * string)) (did_id : N) (rkey : string)
    : list (N * string) * bool :=
  match replace_last (λ d, bool_decide (d = (did_id, rkey))) (0%N, "") linkers with
  | Some l => (l, true)
  | None => (linkers, false)
  end.

(** [TargetLinkers::count]: (linkers, deleted links). *)
Definition count (linkers : list (N * string)) : N * N :=
  let total := N.of_nat (length linkers) in
  let alive := N.of_nat (length (filter (λ x, x.1 ≠ 0%N) linkers)) in
  (alive, (total - alive)%N).

Definition count_distinct_dids (linkers : list (N * string)) : N :=
  N.of_nat (size (list_to_set (filter (λ x, x ≠ 0%N) linkers.*1) : gset N)).

(** The merge operator of the [target_links] family. *)
Definition merge_op_extend_did_ids (existing : option string) (operands : list string) : option string :=
  let linkers : list (N * string) :=
    match existing with
    | Some existing_bytes => default [] (de existing_bytes)
    | None => []
    end in
  Some (ser (fold_left (λ linkers new_linkers, linkers ++ default [] (de new_linkers)) operands linkers)).

(** Only [target_links] is opened with a merge operator. *)
Definition merge_op : merge_operator := λ cf _ existing operands,
  if decide (cf = TARGET_LINKERS_CF) then merge_op_extend_did_ids existing operands else None.

Definition get_target_linkers (g : getter) (target_id : N) : StoreResult (list (N * string)) :=
  o ←? read Undecodable g TARGET_LINKERS_CF target_id;
  Ok (default [] o).

Fixpoint zero_duplicates (seen : gset N) (l : list (N * string)) : list (N * string) :=
  match l with
  | [] => []
  | (did_id, rkey) :: l =>
      if decide (did_id ∈ seen) then (0%N, rkey) :: zero_duplicates seen l
      else (did_id, rkey) :: zero_duplicates ({[did_id]} ∪ seen) l
  end.

Definition get_distinct_target_linkers (g : getter) (target_id : N) : StoreResult (list (N * string)) :=
  linkers ←? get_target_linkers g target_id;
  Ok (zero_duplicates ∅ linkers).

Definition merge_target_linker (batch : list WriteOp) (target_id did_id : N) (rkey : string) : list WriteOp :=
  batch ++ [Merge TARGET_LINKERS_CF (ser target_id) (ser [(did_id, rkey)])].

(** [update_target_linkers]: read, modify, write of the whole list. *)
Definition update_target_linkers (g : getter) (batch : list WriteOp) (target_id : N)
    (update : list (N * string) → option (list (N * string))) : StoreResult (bool * list WriteOp) :=
  existing_linkers ←? get_target_linkers g target_id;
  match update existing_linkers with
  | None => Ok (false, batch)
  | Some new_linkers =>
      Ok (true, batch ++ [Put TARGET_LINKERS_CF (ser target_id) (ser new_linkers)])
  end.

(** ** Forward links *)

Definition put_link_targets (batch : list WriteOp) (key : N * string * string) (ts : list (string * N))
    : list WriteOp :=
  batch ++ [Put LINK_TARGETS_CF (ser key) (ser ts)].

Definition get_record_link_targets (g : getter) (key : N * string * string)
    : StoreResult (option (list (string * N))) :=
  read Undecodable g LINK_TARGETS_CF key.

Definition delete_record_link (batch : list WriteOp) (key : N * string * string) : list WriteOp :=
  batch ++ [Delete LINK_TARGETS_CF (ser key)].

Definition update_did_id_value (g : getter) (batch : list WriteOp) (did : string)
    (update : N * bool → option (N * bool)) : StoreResult (bool * list WriteOp) :=
  o ←? get_id_val g DID_IDS_CF did;
  match o with
  | None => Ok (false, batch)
  | Some did_id_value =>
      match update did_id_value with
      | None => Ok (false, batch)
      | Some new_did_id_value => Ok (true, batch ++ [Put DID_IDS_CF (ser did) (ser new_did_id_value)])
      end
  end.

Definition delete_did_id_value (batch : list WriteOp) (did : string) : list WriteOp :=
  batch ++ [Delete DID_IDS_CF (ser did)].

(** ** Event handlers *)

Context `{RocksDb}.

Record RocksStorage : Type := mkRocks {
  db : DB;
  did_id_table : IdTable;
  target_id_table : IdTable;
  is_writer : bool
}.

Definition open_readmode (d : DB) (readonly : bool) : StoreResult RocksStorage :=
  did_id_table ←? init (db_get_cf d) DID_IDS_CF;
  target_id_table ←? init (db_get_cf d) TARGET_IDS_CF;
  Ok (mkRocks d did_id_table target_id_table (negb readonly)).

(** [prefix_iter_cf]: stops at the first entry that does not decode. *)
Fixpoint decode_while {K V} `{Codec K, Codec V} (l : list (string * string)) : list (K * V) :=
  match l with
  | [] => []
  | (k, v) :: l =>
      match de k, de v with
      | Some k, Some v => (k, v) :: decode_while l
      | _, _ => []
      end
  end.

Definition iter_links_for_did_id (d : DB) (did_id : N) : list ((N * string * string) * list (string * N)) :=
  decode_while (db_prefix_iter d LINK_TARGETS_CF (ser did_id)).

Definition iter_targets_for_target (d : DB) (target : string) : list ((string * string * string) * N) :=
  decode_while (db_prefix_iter d TARGET_IDS_CF (ser target)).

(** The state of the loop of [add_links]: target table, batch, forward links. *)
Definition add_link (g : getter) (record_id : RecordId) (did_id : N)
    (st : IdTable * list WriteOp * list (string * N)) (link : Links.CollectedLink)
    : StoreResult (IdTable * list WriteOp * list (string * N)) :=
  let '(tbl, batch, record_link_targets) := st in
  let target_key := (Links.as_str (Links.target link), rid_collection record_id, Links.path link) in
  '(target_id, tbl, batch) ←? get_or_create_raw (IdVal := N) g tbl batch target_key;
  let batch := merge_target_linker batch target_id did_id (rid_rkey record_id) in
  Ok (tbl, batch, record_link_targets ++ [(Links.path link, target_id)]).

Definition add_links (self : RocksStorage) (record_id : RecordId) (ls : list Links.CollectedLink)
    (batch : list WriteOp) : StoreResult (RocksStorage * list WriteOp) :=
  let g := db_get_cf (db self) in
  '(did_id_value, dtbl, batch) ←?
    get_or_create_rev (IdVal := N * bool) g (did_id_table self) batch (rid_did record_id);
  let did_id := did_id_value.1 in
  '(ttbl, batch, record_link_targets) ←?
    foldl_res (add_link g record_id did_id) (target_id_table self, batch, []) ls;
  let batch := put_link_targets batch (did_id, rid_collection record_id, rid_rkey record_id)
                 record_link_targets in
  Ok (mkRocks (db self) dtbl ttbl (is_writer self), batch).

(** The closure given to [update_target_linkers]: log when missing, go on. *)
Definition drop_linker (did_id : N) (rkey : string) (linkers : list (N * string))
    : option (list (N * string)) :=
  Some (remove_linker linkers did_id rkey).1.

Definition remove_targets (g : getter) (did_id : N) (rkey : string) (batch : list WriteOp)
    (ts : list (string * N)) : StoreResult (list WriteOp) :=
  foldl_res (λ batch t,
      '(_, batch) ←? update_target_linkers g batch t.2 (drop_linker did_id rkey);
      Ok batch)
    batch ts.

Definition remove_links (self : RocksStorage) (record_id : RecordId) (batch : list WriteOp)
    : StoreResult (list WriteOp) :=
  let g := db_get_cf (db self) in
  o ←? get_id_val (IdVal := N * bool) g DID_IDS_CF (rid_did record_id);
  match o with
  | None => Ok batch
  | Some (linking_did_id, _) =>
      let record_link_key := (linking_did_id, rid_collection record_id, rid_rkey record_id) in
      o ←? get_record_link_targets g record_link_key;
      match o with
      | None => Ok batch
      | Some record_link_targets =>
          batch ←? remove_targets g linking_did_id (rid_rkey record_id) batch record_link_targets;
          Ok (delete_record_link batch record_link_key)
      end
  end.

Definition set_account (self : RocksStorage) (did : string) (active : bool) (batch : list WriteOp)
    : StoreResult (list WriteOp) :=
  '(_, batch) ←? update_did_id_value (db_get_cf (db self)) batch did (λ cur, Some (cur.1, active));
  Ok batch.

(** [slice::chunks]. *)
Fixpoint chunks_fuel {A} (fuel n : nat) (l : list A) : list (list A) :=
  match fuel, l with
  | S fuel, _ :: _ => take n l :: chunks_fuel fuel n (drop n l)
  | _, _ => []
  end.
Definition chunks {A} (n : nat) (l : list A) : list (list A) := chunks_fuel (length l) n l.

Definition DELETE_CHUNK : nat := 1024.

(** The records of one chunk, into one mini batch read from [g]. *)
Definition delete_chunk (g : getter) (did_id : N) (chunk : list ((N * string * string) * list (string * N)))
    : StoreResult (list WriteOp) :=
  foldl_res (λ mini_batch rec,
      remove_targets g did_id rec.1.2 (delete_record_link mini_batch rec.1) rec.2)
    [] chunk.

(** The loop over the chunks: every mini batch is written before the next one is
    read.  The database, and the number of operations. *)
Definition delete_chunks (did_id : N) (d : DB) (css : list (list ((N * string * string) * list (string * N))))
    : StoreResult (DB * nat) :=
  foldl_res (λ st chunk,
      let '(d, total) := st in
      mini_batch ←? delete_chunk (db_get_cf d) did_id chunk;
      Ok (db_write d mini_batch, total + length mini_batch))
    (d, 0) css.

Definition delete_account (self : RocksStorage) (did : string) (batch : list WriteOp)
    : StoreResult (RocksStorage * list WriteOp * nat) :=
  o ←? get_id_val (IdVal := N * bool) (db_get_cf (db self)) DID_IDS_CF did;
  match o with
  | None => Ok (self, batch, 0)
  | Some (did_id, _) =>
      let batch := delete_did_id_value batch did in
      let stuff := iter_links_for_did_id (db self) did_id in
      '(d, total_batched_ops) ←? delete_chunks did_id (db self) (chunks DELETE_CHUNK stuff);
      Ok (mkRocks d (did_id_table self) (target_id_table self) (is_writer self), batch, total_batched_ops)
  end.

(** [push], first part: every event but account deletion, one batch that ends
    with the cursor. *)
Definition push_batch (self : RocksStorage) (event : ActionableEvent)
    : StoreResult (option (RocksStorage * list WriteOp)) :=
  match event with
  | CreateLinks record_id ls =>
      r ←? add_links self record_id ls []; Ok (Some r)
  | UpdateLinks record_id new_links =>
      batch ←? remove_links self record_id [];
      r ←? add_links self record_id new_links batch; Ok (Some r)
  | DeleteRecord record_id =>
      batch ←? remove_links self record_id []; Ok (Some (self, batch))
  | ActivateAccount did =>
      batch ←? set_account self did true []; Ok (Some (self, batch))
  | DeactivateAccount did =>
      batch ←? set_account self did false []; Ok (Some (self, batch))
  | DeleteAccount _ => Ok None
  end.

Definition commit (self : RocksStorage) (batch : list WriteOp) : RocksStorage :=
  mkRocks (db_write (db self) batch) (did_id_table self) (target_id_table self) (is_writer self).

Definition rocks_push (self : RocksStorage) (event : ActionableEvent) (cursor : N)
    : StoreResult RocksStorage :=
  o ←? push_batch self event;
  let self := match o with
    | Some (self, batch) =>
        commit self (batch ++ [Put DEFAULT_CF JETSTREAM_CURSOR_KEY (ser cursor)])
    | None => self
    end in
  match event with
  | DeleteAccount did =>
      '(self, outer_batch, _) ←? delete_account self did [];
      Ok (commit self outer_batch)
  | _ => Ok self
  end.

(** The databases other threads can find while [push] runs: an account deletion
    writes its chunks one by one, everything else goes into one batch.  The
    database after [n] of the chunks. *)
Definition push_seen (self : RocksStorage) (event : ActionableEvent) (n : nat) : StoreResult DB :=
  match event with
  | DeleteAccount did =>
      o ←? get_id_val (IdVal := N * bool) (db_get_cf (db self)) DID_IDS_CF did;
      match o with
      | None => Ok (db self)
      | Some (did_id, _) =>
          '(d, _) ←? delete_chunks did_id (db self) (take n (chunks DELETE_CHUNK (iter_links_for_did_id (db self) did_id)));
          Ok d
      end
  | _ => Ok (db self)
  end.

Definition rocks_get_cursor (self : RocksStorage) : StoreResult (option N) :=
  decode_value Undecodable (db_get_cf (db self) DEFAULT_CF JETSTREAM_CURSOR_KEY).

#[global] Instance rocks_LinkStorage : LinkStorage RocksStorage := {
  get_cursor := rocks_get_cursor;
  push := rocks_push
}.

(** ** Readers *)

Definition target_id_of (self : RocksStorage) (target collection path : string) : StoreResult (option N) :=
  get_id_val (db_get_cf (db self)) TARGET_IDS_CF (target, collection, path).

Definition rocks_get_count (self : RocksStorage) (target collection path : string) : StoreResult N :=
  o ←? target_id_of self target collection path;
  match o with
  | Some target_id =>
      linkers ←? get_target_linkers (db_get_cf (db self)) target_id;
      Ok (count linkers).1
  | None => Ok 0%N
  end.

Definition rocks_get_distinct_did_count (self : RocksStorage) (target collection path : string)
    : StoreResult N :=
  o ←? target_id_of self target collection path;
  match o with
  | Some target_id =>
      linkers ←? get_target_linkers (db_get_cf (db self)) target_id;
      Ok (count_distinct_dids linkers)
  | None => Ok 0%N
  end.

(** The loop over the linkers of a page: skip holes, unknown ids, accounts
    without a current value and inactive accounts. *)
Fixpoint resolve_linkers {A} (g : getter) (mk : string → string → A) (l : list (N * string))
    : StoreResult (list A) :=
  match l with
  | [] => Ok []
  | (did_id, rkey) :: l =>
      if (did_id =? 0)%N then resolve_linkers g mk l
      else
        o ←? get_val_from_id (Orig := string) g DID_IDS_CF did_id;
        match o with
        | Some did =>
            o ←? get_id_val (IdVal := N * bool) g DID_IDS_CF did;
            match o with
            | Some (_, active) =>
                rest ←? resolve_linkers g mk l;
                Ok (if (active : bool) then mk did rkey :: rest else rest)
            | None => resolve_linkers g mk l
            end
        | None => resolve_linkers g mk l
        end
  end.

Definition rocks_paged {A} (g : getter) (mk : string → string → A) (linkers : list (N * string))
    (limit : N) (cur : option N) : StoreResult (PagedAppendingCollection A) :=
  let '(alive, gone) := count linkers in
  let tot := (alive + gone)%N in
  let e := page_end tot cur in
  let b := page_begin e limit in
  its ←? resolve_linkers g mk (rev (slice b e linkers));
  Ok (mkPaged (tot, gone) its (page_next b) alive).

Definition rocks_get_links (self : RocksStorage) (target collection path : string) (limit : N)
    (cur : option N) : StoreResult (PagedAppendingCollection RecordId) :=
  let g := db_get_cf (db self) in
  o ←? target_id_of self target collection path;
  match o with
  | None => Ok empty_page
  | Some target_id =>
      linkers ←? get_target_linkers g target_id;
      rocks_paged g (λ did rkey, mkRecordId did collection rkey) linkers limit cur
  end.

Definition rocks_get_distinct_dids (self : RocksStorage) (target collection path : string) (limit : N)
    (cur : option N) : StoreResult (PagedAppendingCollection string) :=
  let g := db_get_cf (db self) in
  o ←? target_id_of self target collection path;
  match o with
  | None => Ok empty_page
  | Some target_id =>
      linkers ←? get_distinct_target_linkers g target_id;
      rocks_paged g (λ did _, did) linkers limit cur
  end.

(** The loop of [get_all_record_counts] and [get_all_counts]. *)
Definition all_by_collection {V} (g : getter) (f : list (N * string) → V)
    (l : list ((string * string * string) * N)) : StoreResult (gmap string (gmap string V)) :=
  foldl_res (λ out e,
      linkers ←? get_target_linkers g e.2;
      Ok (<[e.1.1.2 := <[e.1.2 := f linkers]> (default ∅ (out !! e.1.1.2))]> out))
    ∅ l.

Definition rocks_get_all_record_counts (self : RocksStorage) (target : string)
    : StoreResult (gmap string (gmap string N)) :=
  all_by_collection (db_get_cf (db self)) (λ linkers, (count linkers).1)
    (iter_targets_for_target (db self) target).

Definition rocks_get_all_counts (self : RocksStorage) (target : string)
    : StoreResult (gmap string (gmap string CountsByCount)) :=
  all_by_collection (db_get_cf (db self))
    (λ linkers, mkCountsByCount (count linkers).1 (count_distinct_dids linkers))
    (iter_targets_for_target (db self) target).

Definition rocks_get_stats (self : RocksStorage) : StoreResult StorageStats :=
  dids ←? estimate_count (did_id_table self);
  targetables ←? estimate_count (target_id_table self);
  linking_records ←? match db_estimate_num_keys (db self) LINK_TARGETS_CF with
    | Some s => match parse_u64 s with Some n => Ok n | None => Err Undecodable end
    | None => Ok 0%N
    end;
  Ok (mkStorageStats dids targetables linking_records).

#[global] Instance rocks_LinkReader : LinkReader RocksStorage := {
  get_count := rocks_get_count;
  get_distinct_did_count := rocks_get_distinct_did_count;
  get_links := rocks_get_links;
  get_distinct_dids := rocks_get_distinct_dids;
  get_all_record_counts := rocks_get_all_record_counts;
  get_all_counts := rocks_get_all_counts;
  get_stats := rocks_get_stats
}.

End Codecs.
End Rocks.
