(* ===== verification/ConstellationRocksView.v ===== *)
(** * constellation: typed views of the RocksDB store

    The bytes of the store, read back as typed tables.  A [view] is the typed
    content; [has_view] says the database holds exactly the serialisation of
    it.  Every operation the store batches is a [vop] with a typed effect, so
    that the refinement proof works on tables and not on bytes. *)

From S2P Require Import Prelude RustStr Bytes RocksApi ConstellationTypes.
From S2P Require Import ConstellationRocks.
Import Rocks.

(** Update of a function at one point. *)
Definition fupd {A B} `{EqDecision A} (k : A) (v : B) (f : A → B) : A → B :=
  λ x, if decide (x = k) then v else f x.

Lemma fupd_eq {A B} `{EqDecision A} (k : A) (v : B) f : fupd k v f k = v.
Proof. unfold fupd. by rewrite decide_True. Qed.
Lemma fupd_ne {A B} `{EqDecision A} (k x : A) (v : B) f : x ≠ k → fupd k v f x = f x.
Proof. intros. unfold fupd. by rewrite decide_False. Qed.

Record view : Type := mkView {
  v_did : string → option (N * bool);
  v_rev : N → option string;
  v_tid : string * string * string → option N;
  v_link : N → option (list (N * string));
  v_fwd : N * string * string → option (list (string * N));
  v_default : string → option string
}.

Definition empty_view : view := mkView (λ _, None) (λ _, None) (λ _, None) (λ _, None) (λ _, None) (λ _, None).

(** Reverse entries are considered for ids below [2^56], for which their keys
    cannot collide with a serialised did. *)
Definition id_bound : N := (2 ^ 56)%N.

(** The ids of a view are machine integers. *)
Record view_wf (v : view) : Prop := {
  wf_did did id b : v_did v did = Some (id, b) → (id < id_bound)%N;
  wf_tid k i : v_tid v k = Some i → (i < u64_bound)%N;
  wf_link i l : v_link v i = Some l → Forall (λ x, x.1 < u64_bound)%N l;
  wf_fwd k l : v_fwd v k = Some l → Forall (λ x, x.2 < u64_bound)%N l
}.

(** A typed batch operation. *)
Inductive vop : Type :=
  | VDid (did : string) (x : N * bool)
  | VDelDid (did : string)
  | VRev (id : N) (did : string)
  | VTid (k : string * string * string) (i : N)
  | VLink (i : N) (l : list (N * string))
  | VAppend (i : N) (x : N * string)
  | VFwd (k : N * string * string) (l : list (string * N))
  | VDelFwd (k : N * string * string)
  | VDefault (key value : string).

Definition vop_ok (o : vop) : Prop :=
  match o with
  | VDid _ x => x.1 < id_bound
  | VRev id _ => id < id_bound
  | VTid _ i => i < u64_bound
  | VLink i l => i < u64_bound ∧ Forall (λ x, x.1 < u64_bound) l
  | VAppend i x => i < u64_bound ∧ x.1 < u64_bound
  | VFwd k l => k.1.1 < u64_bound ∧ Forall (λ x, x.2 < u64_bound) l
  | VDelFwd k => k.1.1 < u64_bound
  | VDelDid _ | VDefault _ _ => True
  end%N.

Definition apply_vop (v : view) (o : vop) : view :=
  match o with
  | VDid did x => mkView (fupd did (Some x) (v_did v)) (v_rev v) (v_tid v) (v_link v) (v_fwd v) (v_default v)
  | VDelDid did => mkView (fupd did None (v_did v)) (v_rev v) (v_tid v) (v_link v) (v_fwd v) (v_default v)
  | VRev id did => mkView (v_did v) (fupd id (Some did) (v_rev v)) (v_tid v) (v_link v) (v_fwd v) (v_default v)
  | VTid k i => mkView (v_did v) (v_rev v) (fupd k (Some i) (v_tid v)) (v_link v) (v_fwd v) (v_default v)
  | VLink i l => mkView (v_did v) (v_rev v) (v_tid v) (fupd i (Some l) (v_link v)) (v_fwd v) (v_default v)
  | VAppend i x =>
      mkView (v_did v) (v_rev v) (v_tid v) (fupd i (Some (default [] (v_link v i) ++ [x])) (v_link v)) (v_fwd v) (v_default v)
  | VFwd k l => mkView (v_did v) (v_rev v) (v_tid v) (v_link v) (fupd k (Some l) (v_fwd v)) (v_default v)
  | VDelFwd k => mkView (v_did v) (v_rev v) (v_tid v) (v_link v) (fupd k None (v_fwd v)) (v_default v)
  | VDefault key value =>
      mkView (v_did v) (v_rev v) (v_tid v) (v_link v) (v_fwd v) (fupd key (Some value) (v_default v))
  end.

Section View.
Context `{BincodeLaws}.

(** The serialisation of a typed operation. *)
Definition to_op (o : vop) : WriteOp :=
  match o with
  | VDid did x => Put DID_IDS_CF (ser did) (ser x)
  | VDelDid did => Delete DID_IDS_CF (ser did)
  | VRev id did => Put DID_IDS_CF (u64_to_be_bytes id) (ser did)
  | VTid k i => Put TARGET_IDS_CF (ser k) (ser i)
  | VLink i l => Put TARGET_LINKERS_CF (ser i) (ser l)
  | VAppend i x => Merge TARGET_LINKERS_CF (ser i) (ser [x])
  | VFwd k l => Put LINK_TARGETS_CF (ser k) (ser l)
  | VDelFwd k => Delete LINK_TARGETS_CF (ser k)
  | VDefault key value => Put DEFAULT_CF key value
  end.

Record has_view (g : getter) (v : view) : Prop := {
  hv_did did : g DID_IDS_CF (ser did) = ser <$> v_did v did;
  hv_rev id : (id < id_bound)%N → g DID_IDS_CF (u64_to_be_bytes id) = ser <$> v_rev v id;
  hv_tid k : g TARGET_IDS_CF (ser k) = ser <$> v_tid v k;
  hv_link i : (i < u64_bound)%N → g TARGET_LINKERS_CF (ser i) = ser <$> v_link v i;
  hv_fwd k : (k.1.1 < u64_bound)%N → g LINK_TARGETS_CF (ser k) = ser <$> v_fwd v k;
  hv_tid_keys key b : g TARGET_IDS_CF key = Some b → ∃ k : string * string * string, key = ser k;
  hv_fwd_keys key b : g LINK_TARGETS_CF key = Some b →
    ∃ k : N * string * string, key = ser k ∧ (k.1.1 < u64_bound)%N;
  hv_default key : g DEFAULT_CF key = v_default v key
}.

Lemma id_lt_u64 id : (id < id_bound)%N → (id < u64_bound)%N.
Proof. unfold id_bound, u64_bound. lia. Qed.

(** ** Injectivity of the keys *)

Lemma ser_string_inj (a b : string) : ser a = ser b → a = b.
Proof. intros E. apply (f_equal (de (A := string))) in E. rewrite !rt_string in E. congruence. Qed.
Lemma ser_target_key_inj (a b : string * string * string) : ser a = ser b → a = b.
Proof. intros E. apply (f_equal (de (A := string * string * string))) in E. rewrite !rt_target_key in E. congruence. Qed.
Lemma ser_u64_inj (a b : N) : (a < u64_bound)%N → (b < u64_bound)%N → ser a = ser b → a = b.
Proof. intros Ha Hb E. apply (f_equal (de (A := N))) in E. rewrite !rt_u64 in E by done. congruence. Qed.
Lemma ser_rlk_inj (a b : N * string * string) :
  (a.1.1 < u64_bound)%N → (b.1.1 < u64_bound)%N → ser a = ser b → a = b.
Proof.
  destruct a as [[a1 a2] a3], b as [[b1 b2] b3]. simpl. intros Ha Hb E.
  apply (f_equal (de (A := N * string * string))) in E. rewrite !rt_record_link_key in E by done. congruence.
Qed.

(** ** Effect of the operations *)

Lemma apply_op_put cf k cur cf' k' v :
  apply_op merge_op cf k cur (Put cf' k' v) = if decide (cf' = cf ∧ k' = k) then Some v else cur.
Proof. done. Qed.
Lemma apply_op_delete cf k cur cf' k' :
  apply_op merge_op cf k cur (Delete cf' k') = if decide (cf' = cf ∧ k' = k) then None else cur.
Proof. done. Qed.

Lemma merge_op_append (l : list (N * string)) (x : N * string) :
  Forall (λ x, x.1 < u64_bound)%N l → (x.1 < u64_bound)%N →
  merge_op_extend_did_ids (Some (ser l)) [ser [x]] = Some (ser (l ++ [x])).
Proof.
  intros Hl Hx. unfold merge_op_extend_did_ids. simpl.
  rewrite rt_target_linkers by done. simpl.
  rewrite (rt_target_linkers [x]) by (by repeat constructor). done.
Qed.

Lemma merge_op_first (x : N * string) :
  (x.1 < u64_bound)%N → merge_op_extend_did_ids None [ser [x]] = Some (ser [x]).
Proof.
  intros Hx. unfold merge_op_extend_did_ids. simpl.
  rewrite (rt_target_linkers [x]) by (by repeat constructor). done.
Qed.

Lemma view_wf_vop v o : view_wf v → vop_ok o → view_wf (apply_vop v o).
Proof.
  intros [W1 W2 W3 W4] Ho. destruct o; simpl in *; split; simpl; unfold fupd; intros *;
    repeat case_decide; intros; simplify_eq/=; destruct_and?; eauto.
  apply Forall_app; split; [|by repeat constructor].
  destruct (v_link v i) eqn:E; simpl; [eauto|constructor].
Qed.

(** Points of the getter after one operation. *)
Lemma has_view_vop g v o :
  has_view g v → view_wf v → vop_ok o →
  has_view (apply_ops merge_op g [to_op o]) (apply_vop v o).
Proof.
  intros [V1 V2 V3 V4 V5 V6 V7 V8] Hwf Ho. unfold apply_ops. destruct o; simpl in *; split; simpl; intros *;
    try rewrite ?decide_False by (intros [? ?]; discriminate); auto; unfold fupd;
    try match goal with
        | |- _ → ∃ _, _ => first [by eauto|case_decide as E; [destruct E as [_ <-]; destruct_and?; by eauto|by eauto]]
        end.
  - destruct (decide (did0 = did)) as [->|Hne].
    + by rewrite decide_True.
    + rewrite decide_False; [done|]. intros [_ E]. by apply ser_string_inj in E.
  - intros Hid. rewrite decide_False; [by auto|]. intros [_ E]. by apply string_not_small_id in E.
  - destruct (decide (did0 = did)) as [->|Hne].
    + by rewrite decide_True.
    + rewrite decide_False; [done|]. intros [_ E]. by apply ser_string_inj in E.
  - intros Hid. rewrite decide_False; [by auto|]. intros [_ E]. by apply string_not_small_id in E.
  - rewrite decide_False; [done|]. intros [_ E]. symmetry in E. by apply string_not_small_id in E.
  - intros Hid. destruct (decide (id0 = id)) as [->|Hne].
    + by rewrite decide_True.
    + rewrite decide_False; [by auto|]. intros [_ E]. apply u64_be_inj in E; auto using id_lt_u64.
  - destruct (decide (k0 = k)) as [->|Hne].
    + by rewrite decide_True.
    + rewrite decide_False; [done|]. intros [_ E]. by apply ser_target_key_inj in E.
  - intros Hi. destruct (decide (i0 = i)) as [->|Hne].
    + by rewrite decide_True.
    + rewrite decide_False; [by auto|]. intros [_ E]. apply ser_u64_inj in E; naive_solver.
  - intros Hi. destruct (decide (i0 = i)) as [->|Hne].
    + rewrite decide_True by done. destruct Ho as [Hi' Hx]. rewrite V4 by done.
      unfold merge_op. rewrite decide_True by done.
      destruct (v_link v i) as [l|] eqn:E; simpl.
      * apply merge_op_append; [|done]. by eapply wf_link.
      * by apply merge_op_first.
    + rewrite decide_False; [by auto|]. intros [_ E]. apply ser_u64_inj in E; naive_solver.
  - intros Hi. destruct (decide (k0 = k)) as [->|Hne].
    + by rewrite decide_True.
    + rewrite decide_False; [by auto|]. intros [_ E]. apply ser_rlk_inj in E; naive_solver.
  - intros Hi. destruct (decide (k0 = k)) as [->|Hne].
    + by rewrite decide_True.
    + rewrite decide_False; [by auto|]. intros [_ E]. apply ser_rlk_inj in E; naive_solver.
  - rewrite V8. repeat case_decide; naive_solver.
Qed.

Lemma has_view_vops g v os :
  has_view g v → view_wf v → Forall vop_ok os →
  has_view (apply_ops merge_op g (map to_op os)) (fold_left apply_vop os v) ∧
  view_wf (fold_left apply_vop os v).
Proof.
  intros Hv Hwf Hos; revert g v Hv Hwf. induction Hos as [|o os Ho Hos IH]; intros g v Hv Hwf; simpl; [done|].
  apply (IH _ _ (has_view_vop _ _ _ Hv Hwf Ho) (view_wf_vop _ _ Hwf Ho)).
Qed.

(** ** Typed reads *)

Lemma read_did g v did : has_view g v → view_wf v → get_id_val g DID_IDS_CF did = Ok (v_did v did).
Proof.
  intros Hv Hwf. unfold get_id_val, read. rewrite (hv_did _ _ Hv). destruct (v_did v did) as [[id b]|] eqn:E; simpl; [|done].
  rewrite rt_did_id_value; [done|]. by eapply id_lt_u64, wf_did.
Qed.

Lemma read_rev g v id :
  has_view g v → (id < id_bound)%N → get_val_from_id g DID_IDS_CF id = Ok (v_rev v id).
Proof.
  intros Hv Hid. unfold get_val_from_id. rewrite (hv_rev _ _ Hv) by done. destruct (v_rev v id); simpl; [|done].
  by rewrite rt_string.
Qed.

Lemma read_tid g v k : has_view g v → view_wf v → get_id_val g TARGET_IDS_CF k = Ok (v_tid v k).
Proof.
  intros Hv Hwf. unfold get_id_val, read. rewrite (hv_tid _ _ Hv). destruct (v_tid v k) as [i|] eqn:E; simpl; [|done].
  rewrite rt_u64; [done|]. by eapply wf_tid.
Qed.

Lemma read_link g v i :
  has_view g v → view_wf v → (i < u64_bound)%N → get_target_linkers g i = Ok (default [] (v_link v i)).
Proof.
  intros Hv Hwf Hi. unfold get_target_linkers, read. rewrite (hv_link _ _ Hv) by done.
  destruct (v_link v i) as [l|] eqn:E; simpl; [|done].
  rewrite rt_target_linkers; [done|]. by eapply wf_link.
Qed.

Lemma read_fwd g v k :
  has_view g v → view_wf v → (k.1.1 < u64_bound)%N → get_record_link_targets g k = Ok (v_fwd v k).
Proof.
  intros Hv Hwf Hk. unfold get_record_link_targets, read. rewrite (hv_fwd _ _ Hv) by done.
  destruct (v_fwd v k) as [l|] eqn:E; simpl; [|done].
  rewrite rt_record_link_targets; [done|]. by eapply wf_fwd.
Qed.

End View.
