(* ===== verification/ConstellationRefine.v ===== *)
(** * constellation: RocksStorage refines MemStorage

    A simulation between the two stores: [refines] relates a typed view of the
    database to the memory store, the handlers preserve it for every event the
    store is prepared for ([admissible]), and related stores answer every query
    alike. *)

From S2P Require Import Prelude RustStr Bytes LinksRecord RocksApi.
From S2P Require Import ConstellationTypes ConstellationMem ConstellationRocks ConstellationRocksView.
Import Rocks.

Abbreviation tkey := (string * string * string)%type.

(** ** The relation *)

(** A linker of the database and an entry of the memory list. *)
Definition entry_rel (v : view) (x : N * string) (o : option (string * string)) : Prop :=
  match o with
  | None => x.1 = 0%N
  | Some (did, rkey) => x.2 = rkey ∧ ∃ b, v_did v did = Some (x.1, b)
  end.

(** A forward link of the database and one of the memory store. *)
Definition fwd_rel (v : view) (collection : string) (x : string * N) (y : string * string) : Prop :=
  x.1 = y.1 ∧ v_tid v (y.2, collection, x.1) = Some x.2.

(** What the default family holds for a sequence that has reached [n]: ids start
    above 1, so that 1 means that nothing was written yet. *)
Definition seq_bytes (n : N) : option string := if (n =? 1)%N then None else Some (u64_to_le_bytes n).

Lemma seq_bytes_next n : (1 < n)%N → seq_bytes n = Some (u64_to_le_bytes n).
Proof. intros Hn. unfold seq_bytes. destruct (N.eqb_spec n 1); [lia|done]. Qed.

Lemma seq_keys_ne : seq_key DID_IDS_CF ≠ seq_key TARGET_IDS_CF ∧
  seq_key DID_IDS_CF ≠ JETSTREAM_CURSOR_KEY ∧ seq_key TARGET_IDS_CF ≠ JETSTREAM_CURSOR_KEY.
Proof. by vm_compute. Qed.

(** [ds], [tf], [lf]: accounts, reverse index by (target, collection, path) and
    forward links of the memory store; [dseq], [tseq]: last ids given out. *)
Record refines (ds : string → option bool) (tf : tkey → option Mem.Linkers)
    (lf : string → string * string → list (string * string)) (dseq tseq : N) (v : view) : Prop := {
  rf_active did : snd <$> v_did v did = ds did;
  rf_did did id b : v_did v did = Some (id, b) → (0 < id ≤ dseq)%N ∧ v_rev v id = Some did;
  rf_tid k i : v_tid v k = Some i → (i ≤ tseq)%N;
  rf_tid_inj k k' i : v_tid v k = Some i → v_tid v k' = Some i → k = k';
  rf_known k : is_Some (v_tid v k) ↔ is_Some (tf k);
  rf_link k i L : v_tid v k = Some i → tf k = Some L → Forall2 (entry_rel v) (default [] (v_link v i)) L;
  rf_fresh_link i : (tseq < i)%N → v_link v i = None;
  rf_fwd did id b c rkey : v_did v did = Some (id, b) →
    Forall2 (fwd_rel v c) (default [] (v_fwd v (id, c, rkey))) (lf did (c, rkey));
  rf_fresh_fwd id c rkey : (dseq < id)%N → v_fwd v (id, c, rkey) = None;
  rf_nodup did r : NoDup (lf did r);
  rf_bounds : (dseq < id_bound)%N ∧ (tseq < u64_bound)%N;
  rf_seq : v_default v (seq_key DID_IDS_CF) = seq_bytes dseq ∧ v_default v (seq_key TARGET_IDS_CF) = seq_bytes tseq;
  rf_low : (1 ≤ dseq)%N ∧ (1 ≤ tseq)%N
}.

Lemma refines_ext ds tf lf ds' tf' lf' dseq tseq v :
  (∀ d, ds d = ds' d) → (∀ k, tf k = tf' k) → (∀ d r, lf d r = lf' d r) →
  refines ds tf lf dseq tseq v → refines ds' tf' lf' dseq tseq v.
Proof.
  intros Hd Ht Hl []. split; intros *; rewrite <- ?Hd, <- ?Ht, <- ?Hl; eauto.
Qed.

Lemma refines_empty : refines (λ _, None) (λ _, None) (λ _ _, []) 1 1 empty_view.
Proof.
  split; simpl; try done; intros; try constructor; try done.
Qed.

(** Ids determine accounts. *)
Lemma rf_did_inj ds tf lf dseq tseq v did did' id b b' :
  refines ds tf lf dseq tseq v → v_did v did = Some (id, b) → v_did v did' = Some (id, b') → did = did'.
Proof. intros Hr H1 H2. apply (rf_did _ _ _ _ _ _ Hr) in H1 as [_ H1], H2 as [_ H2]. congruence. Qed.

Lemma entry_rel_mono v v' x o :
  (∀ did id b, v_did v did = Some (id, b) → ∃ b', v_did v' did = Some (id, b')) →
  entry_rel v x o → entry_rel v' x o.
Proof. intros Hmono. destruct o as [[did rkey]|]; simpl; [|done]. intros [-> [b Hb]]. eauto. Qed.

Lemma fwd_rel_mono v v' c x y :
  (∀ k i, v_tid v k = Some i → v_tid v' k = Some i) → fwd_rel v c x y → fwd_rel v' c x y.
Proof. intros Hmono [??]. split; auto. Qed.

(** A list of linkers of known accounts is a list of machine integers. *)
Lemma entries_wf ds tf lf dseq tseq v l L :
  refines ds tf lf dseq tseq v → Forall2 (entry_rel v) l L → Forall (λ x, x.1 < u64_bound)%N l.
Proof.
  intros Hr. pose proof (rf_bounds _ _ _ _ _ _ Hr) as [Hd _].
  induction 1 as [|x o l L Ho HL IH]; constructor; [|done].
  destruct o as [[did rkey]|]; simpl in Ho.
  - destruct Ho as [_ [b Hb]]. apply (rf_did _ _ _ _ _ _ Hr) in Hb as [Hb _].
    apply id_lt_u64. lia.
  - rewrite Ho. unfold u64_bound. lia.
Qed.

Lemma fwd_wf ds tf lf dseq tseq v c F pts :
  refines ds tf lf dseq tseq v → Forall2 (fwd_rel v c) F pts → Forall (λ x, x.2 < u64_bound)%N F.
Proof.
  intros Hr. pose proof (rf_bounds _ _ _ _ _ _ Hr) as [_ Hb].
  induction 1 as [|x y F pts [_ Hx] HF IH]; constructor; [|done].
  apply (rf_tid _ _ _ _ _ _ Hr) in Hx. lia.
Qed.

(** ** Typed steps *)

Definition vops (v : view) (os : list vop) : view := fold_left apply_vop os v.

Section Steps.
Context (ds : string → option bool) (tf : tkey → option Mem.Linkers)
  (lf : string → string * string → list (string * string)) (dseq tseq : N) (v : view).
Context (Hr : refines ds tf lf dseq tseq v).

Lemma step_rev did id b :
  v_did v did = Some (id, b) → refines ds tf lf dseq tseq (apply_vop v (VRev id did)).
Proof.
  intros Hdid. destruct Hr. split; simpl; eauto. intros did' id' b' Hd'.
  destruct (rf_did0 _ _ _ Hd') as [? Hrev]. split; [done|]. unfold fupd. case_decide; [|done].
  subst. destruct (rf_did0 _ _ _ Hdid). congruence.
Qed.

(** A new account gets an id above all others. *)
Lemma step_new_did did n :
  v_did v did = None → (∀ r, lf did r = []) → (dseq < n < id_bound)%N →
  refines (fupd did (Some true) ds) tf lf n tseq
    (vops v [VDefault (seq_key DID_IDS_CF) (u64_to_le_bytes n);
             VDid did (n, true); VRev n did]).
Proof.
  intros Hnone Hlf Hb. pose proof Hr as Hr'. destruct Hr'.
  assert (Hmono : ∀ d id b, v_did v d = Some (id, b) →
    fupd did (Some (n, true)) (v_did v) d = Some (id, b)).
  { intros d id b Hd. rewrite fupd_ne; [done|]. intros ->. congruence. }
  split; simpl; eauto; try lia.
  - intros d. unfold fupd. case_decide; simpl; [done|]. apply rf_active0.
  - intros d id b. unfold fupd. destruct (decide (d = did)) as [->|Hne].
    + intros [= <- <-]. rewrite decide_True by done. split; [lia|done].
    + intros Hd. destruct (rf_did0 _ _ _ Hd) as [Hid Hrev]. rewrite decide_False by lia. split; [lia|done].
  - intros k i L Hk HL. eapply Forall2_impl; [by eapply rf_link0|]. intros x o. apply entry_rel_mono. eauto.
  - intros d id b c rkey. unfold fupd. destruct (decide (d = did)) as [->|Hne].
    + intros [= <- <-]. rewrite rf_fresh_fwd0 by lia. rewrite Hlf. constructor.
    + apply rf_fwd0.
  - intros id c rkey Hid. apply rf_fresh_fwd0. lia.
  - rewrite fupd_eq, (fupd_ne _ _ _ _ (not_eq_sym (proj1 seq_keys_ne))), seq_bytes_next by lia.
    by destruct rf_seq0.
Qed.

(** A linker is appended to a known target. *)
Lemma step_append k i did id b rkey :
  v_tid v k = Some i → v_did v did = Some (id, b) →
  refines ds (fupd k (Some (default [] (tf k) ++ [Some (did, rkey)])) tf) lf dseq tseq
    (apply_vop v (VAppend i (id, rkey))).
Proof.
  intros Hk Hdid. destruct Hr. split; simpl; eauto.
  - intros k'. unfold fupd. case_decide as E; [|by apply rf_known0]. subst. rewrite Hk. split; eauto.
  - intros k' i' L Hk'. unfold fupd. destruct (decide (k' = k)) as [->|Hne].
    + intros [= <-]. rewrite Hk in Hk'. injection Hk' as <-. rewrite decide_True by done. simpl.
      destruct (proj1 (rf_known0 k) ltac:(eauto)) as [L HL]. rewrite HL. simpl.
      apply Forall2_app; [|by repeat constructor; simpl; eauto].
      by apply (rf_link0 k).
    + rewrite decide_False; [by apply rf_link0|]. intros ->. apply Hne. by eapply rf_tid_inj0.
  - intros i' Hi'. rewrite fupd_ne; [by auto|]. apply rf_tid0 in Hk. intros ->. lia.
Qed.

(** A new target gets an id above all others, without linkers yet. *)
Lemma step_new_target k n :
  v_tid v k = None → (tseq < n < u64_bound)%N →
  refines ds (fupd k (Some []) tf) lf dseq n
    (vops v [VDefault (seq_key TARGET_IDS_CF) (u64_to_le_bytes n); VTid k n]).
Proof.
  intros Hnone Hb. destruct Hr.
  assert (Hmono : ∀ k' i, v_tid v k' = Some i → fupd k (Some n) (v_tid v) k' = Some i).
  { intros k' i Hk'. rewrite fupd_ne; [done|]. intros ->. congruence. }
  assert (Hle : ∀ k' i, v_tid v k' = Some i → i ≠ n).
  { intros k' i Hk'%rf_tid0. lia. }
  split; simpl; eauto.
  - intros k' i. unfold fupd. case_decide; [intros [= <-]; lia|]. intros ?%rf_tid0. lia.
  - intros k1 k2 i. unfold fupd. repeat case_decide; naive_solver.
  - intros k'. unfold fupd. case_decide; [by split; eauto|]. apply rf_known0.
  - intros k' i L. unfold fupd. case_decide.
    + intros [= <-] [= <-]. rewrite rf_fresh_link0 by lia. constructor.
    + intros. by eapply rf_link0.
  - intros i Hi. apply rf_fresh_link0. lia.
  - intros did id b c rkey Hdid. eapply Forall2_impl; [by eapply rf_fwd0|].
    intros x y. apply fwd_rel_mono. eauto.
  - lia.
  - rewrite fupd_eq, (fupd_ne _ _ _ _ (proj1 seq_keys_ne)), (seq_bytes_next n) by lia.
    by destruct rf_seq0.
  - lia.
Qed.

(** The forward links of a record are written. *)
Lemma step_fwd did id b c rkey F (new : list (string * string)) :
  v_did v did = Some (id, b) → Forall2 (fwd_rel v c) F new → NoDup new →
  refines ds tf (λ d r, if decide (d = did ∧ r = (c, rkey)) then new else lf d r) dseq tseq
    (apply_vop v (VFwd (id, c, rkey) F)).
Proof.
  intros Hdid HF Hnd. destruct Hr. split; simpl; eauto.
  - intros d id' b' c' rkey' Hd. unfold fupd. case_decide as E; case_decide as E'; simpl.
    + destruct_and?. simplify_eq. done.
    + destruct E'. simplify_eq. split; [|done].
      destruct (rf_did0 _ _ _ Hd), (rf_did0 _ _ _ Hdid). congruence.
    + destruct E. destruct_and?. simplify_eq. done.
    + by eapply rf_fwd0.
  - intros id' c' rkey' Hid. rewrite fupd_ne; [by auto|]. intros [= -> -> ->].
    destruct (rf_did0 _ _ _ Hdid). lia.
  - intros d r. case_decide; eauto.
Qed.

(** An account is switched on or off. *)
Lemma step_active did id b active :
  v_did v did = Some (id, b) →
  refines (fupd did (Some active) ds) tf lf dseq tseq (apply_vop v (VDid did (id, active))).
Proof.
  intros Hdid. destruct Hr.
  assert (Hmono : ∀ d id' b', v_did v d = Some (id', b') →
    ∃ b'', fupd did (Some (id, active)) (v_did v) d = Some (id', b'')).
  { intros d id' b' Hd. unfold fupd. case_decide; [|by eauto]. subst. rewrite Hdid in Hd. simplify_eq. eauto. }
  split; simpl; eauto.
  - intros d. unfold fupd. case_decide; [done|]. apply rf_active0.
  - intros d id' b'. unfold fupd. case_decide; [|by eauto]. subst. intros [= -> ->]. by eapply rf_did0.
  - intros k i L Hk HL. eapply Forall2_impl; [by eapply rf_link0|]. intros x o. by apply entry_rel_mono.
  - intros d id' b' c rkey. unfold fupd. case_decide; [|by eauto]. subst. intros [= -> ->]. by eapply rf_fwd0.
Qed.

(** Linkers and forward links are rewritten, ids stay. *)
Lemma step_relink tf' lf' lk' fw' :
  (∀ k, is_Some (tf' k) ↔ is_Some (tf k)) →
  (∀ k i L L', v_tid v k = Some i → tf k = Some L → tf' k = Some L' →
     Forall2 (entry_rel v) (default [] (v_link v i)) L → Forall2 (entry_rel v) (default [] (lk' i)) L') →
  (∀ i, (tseq < i)%N → lk' i = None) →
  (∀ did id b c rkey, v_did v did = Some (id, b) →
     Forall2 (fwd_rel v c) (default [] (fw' (id, c, rkey))) (lf' did (c, rkey))) →
  (∀ id c rkey, (dseq < id)%N → fw' (id, c, rkey) = None) →
  (∀ did r, NoDup (lf' did r)) →
  refines ds tf' lf' dseq tseq (mkView (v_did v) (v_rev v) (v_tid v) lk' fw' (v_default v)).
Proof.
  intros Htf Hlink Hfl Hfwd Hff Hnd. destruct Hr. split; simpl; try done.
  - intros k. rewrite Htf. apply rf_known0.
  - intros k i L' Hk HL'. destruct (proj1 (Htf k)) as [L HL]; [by eexists|].
    eapply Hlink; eauto.
Qed.

(** Dropping the linker of [did]'s record from related lists. *)
Lemma remove_linker_rel did id b rkey l L :
  v_did v did = Some (id, b) → Forall2 (entry_rel v) l L → occ (Some (did, rkey)) L ≤ 1 →
  Forall2 (entry_rel v) (remove_linker l id rkey).1
    (map (λ o, if decide (o = Some (did, rkey)) then None else o) L).
Proof.
  intros Hdid Hl Hocc. rewrite <- (replace_last_occ _ _ _ Hocc).
  pose proof (rf_did _ _ _ _ _ _ Hr _ _ _ Hdid) as [Hid _].
  assert (Hrep : option_Forall2 (Forall2 (entry_rel v))
    (replace_last (λ d, bool_decide (d = (id, rkey))) (0%N, "") l)
    (replace_last (λ z, bool_decide (z = Some (did, rkey))) None L)).
  { apply Forall2_replace_last; [done| |done]. intros [id' rk'] o Ho. apply bool_decide_ext.
    destruct o as [[did' rkey']|]; simpl in Ho.
    - destruct Ho as [-> [b' Hb']]. split.
      + intros [= -> ->]. do 2 f_equal. by eapply rf_did_inj.
      + intros [= -> ->]. congruence.
    - subst. split; [intros [= <- _]; lia|done]. }
  unfold remove_linker. by destruct Hrep.
Qed.
End Steps.

(** ** The handlers, in terms of typed operations *)

Definition link_key (collection : string) (l : Links.CollectedLink) : tkey :=
  (Links.as_str (Links.target l), collection, Links.path l).
Definition link_pt (l : Links.CollectedLink) : string * string :=
  (Links.path l, Links.as_str (Links.target l)).

(** The reverse index after one more linker. *)
Definition tf_push (k : tkey) (x : string * string) (tf : tkey → option Mem.Linkers)
    : tkey → option Mem.Linkers :=
  fupd k (Some (default [] (tf k) ++ [Some x])) tf.

(** The operations of [remove_targets] on a view. *)
Definition unlink_ops (v : view) (id : N) (rkey : string) (F : list (string * N)) : list vop :=
  map (λ x, VLink x.2 (remove_linker (default [] (v_link v x.2)) id rkey).1) F.

(** Their effect: the lists of the record's targets are rewritten. *)
Lemma unlink_ops_link (f : N → list (N * string)) (F : list (string * N)) : ∀ v,
  vops v (map (λ x, VLink x.2 (f x.2)) F) =
    mkView (v_did v) (v_rev v) (v_tid v) (v_link (vops v (map (λ x, VLink x.2 (f x.2)) F))) (v_fwd v) (v_default v) ∧
  ∀ i, v_link (vops v (map (λ x, VLink x.2 (f x.2)) F)) i = if decide (i ∈ F.*2) then Some (f i) else v_link v i.
Proof.
  unfold vops. induction F as [|x F IH]; intros v; simpl.
  { split; [by destruct v|done]. }
  destruct (IH (apply_vop v (VLink x.2 (f x.2)))) as [IH1 IH2]. split; [by rewrite IH1 at 1|].
  intros i. rewrite IH2. simpl. unfold fupd.
  repeat case_decide; set_solver.
Qed.

Section Code.
Context `{BL : BincodeLaws}.

Lemma u64_add_ok a b : (a + b < u64_bound)%N → u64_add a b = Ok (a + b)%N.
Proof. unfold u64_bound. intros Hlt. unfold u64_add. by rewrite (proj2 (N.ltb_lt _ _) Hlt). Qed.

(** [get_or_create_id_val] of the did table, whose sequence has reached [dn]. *)
Lemma get_or_create_did_ok g ds tf lf dseq tseq v did dn batch :
  refines ds tf lf dseq tseq v →
  get_id_val g DID_IDS_CF did = Ok (v_did v did) →
  (v_did v did = None → ∀ r, lf did r = []) → (dseq ≤ dn)%N → (dn + 1 < id_bound)%N →
  ∃ id b dseq' dn' os,
    get_or_create_rev g (mkIdTable DID_IDS_CF dn dn) batch did =
      Ok ((id, b), mkIdTable DID_IDS_CF dn' dn', batch ++ map to_op os) ∧
    Forall vop_ok os ∧ (dseq' ≤ dn' ≤ dn + 1)%N ∧
    refines (λ d, if decide (d = did) then Some (default true (ds did)) else ds d) tf lf dseq' tseq (vops v os) ∧
    v_did (vops v os) did = Some (id, b) ∧ v_tid (vops v os) = v_tid v.
Proof.
  intros Hr Hget Hlf Hdn Hb. pose proof (rf_bounds _ _ _ _ _ _ Hr) as [_ Ht].
  unfold get_or_create_rev, get_or_create_raw. simpl it_name. rewrite Hget. simpl.
  destruct (v_did v did) as [[id b]|] eqn:Hdid; simpl.
  - pose proof (rf_did _ _ _ _ _ _ Hr _ _ _ Hdid) as [Hid _].
    exists id, b, dseq, dn, [VRev id did]. split_and!; [done|repeat constructor; simpl; lia|lia|lia| |done|done].
    apply (refines_ext ds tf lf); [|done|done|by eapply step_rev].
    intros d. case_decide; [|done]. subst. rewrite <- (rf_active _ _ _ _ _ _ Hr), Hdid. done.
  - rewrite u64_add_ok by (apply id_lt_u64; lia). simpl. rewrite N.eqb_refl. simpl.
    exists (dn + 1)%N, true, (dn + 1)%N, (dn + 1)%N,
      [VDefault (seq_key DID_IDS_CF) (u64_to_le_bytes (dn + 1));
       VDid did ((dn + 1)%N, true); VRev (dn + 1) did].
    split_and!; [by rewrite <- app_assoc|repeat constructor; simpl; lia|lia|lia| |by apply fupd_eq|done].
    apply (refines_ext (fupd did (Some true) ds) tf lf); [|done|done|apply (step_new_did _ _ _ _ _ _ Hr); auto; lia].
    intros d. unfold fupd. case_decide; [|done]. subst.
    by rewrite <- (rf_active _ _ _ _ _ _ Hr did), Hdid.
Qed.

(** One iteration of the loop of [add_links]. *)
Lemma add_link_ok g ds tf lf dseq tseq v record_id id b l tn batch acc :
  let k := link_key (rid_collection record_id) l in
  refines ds tf lf dseq tseq v → v_did v (rid_did record_id) = Some (id, b) →
  get_id_val g TARGET_IDS_CF k = Ok (v_tid v k) → (tseq ≤ tn)%N → (tn + 1 < u64_bound)%N →
  ∃ i tseq' tn' os,
    add_link g record_id id (mkIdTable TARGET_IDS_CF tn tn, batch, acc) l =
      Ok (mkIdTable TARGET_IDS_CF tn' tn', batch ++ map to_op os, acc ++ [(Links.path l, i)]) ∧
    Forall vop_ok os ∧ (tseq' ≤ tn' ≤ tn + 1)%N ∧
    refines ds (tf_push k (rid_did record_id, rid_rkey record_id) tf) lf dseq tseq' (vops v os) ∧
    v_did (vops v os) = v_did v ∧ v_tid (vops v os) k = Some i ∧
    (∀ k', k' ≠ k → v_tid (vops v os) k' = v_tid v k') ∧
    (∀ k' j, v_tid v k' = Some j → v_tid (vops v os) k' = Some j).
Proof.
  intros k Hr Hdid Hget Htn Hb. pose proof (rf_bounds _ _ _ _ _ _ Hr) as [Hd _].
  pose proof (rf_did _ _ _ _ _ _ Hr _ _ _ Hdid) as [Hid _].
  assert (Hid64 : (id < u64_bound)%N) by (apply id_lt_u64; lia).
  unfold add_link, get_or_create_raw, merge_target_linker. fold (link_key (rid_collection record_id) l). fold k.
  simpl it_name. rewrite Hget. simpl.
  destruct (v_tid v k) as [i|] eqn:Hk; simpl.
  - pose proof (rf_tid _ _ _ _ _ _ Hr _ _ Hk) as Hi.
    exists i, tseq, tn, [VAppend i (id, rid_rkey record_id)].
    split_and!; try done; [repeat constructor; simpl; lia|lia|]. by eapply step_append.
  - rewrite u64_add_ok by done. simpl. rewrite N.eqb_refl. simpl.
    exists (tn + 1)%N, (tn + 1)%N, (tn + 1)%N,
      [VDefault (seq_key TARGET_IDS_CF) (u64_to_le_bytes (tn + 1));
       VTid k (tn + 1); VAppend (tn + 1) (id, rid_rkey record_id)].
    pose proof (step_new_target _ _ _ _ _ _ Hr k (tn + 1)%N Hk ltac:(lia)) as Hr1.
    split_and!; try done; [by rewrite <- app_assoc|repeat constructor; simpl; lia| |by apply fupd_eq| |].
    + eapply refines_ext; [done| |done|eapply (step_append _ _ _ _ _ _ Hr1 k); [by apply fupd_eq|done]].
      intros k'. unfold tf_push, fupd. case_decide; [|done]. rewrite decide_True by done. simpl.
      destruct (tf k) eqn:Etf; [|done]. destruct (proj2 (rf_known _ _ _ _ _ _ Hr k)); [by eexists|congruence].
    + intros k' Hne. by apply fupd_ne.
    + intros k' j Hk'. simpl. rewrite fupd_ne; [done|]. intros ->. congruence.
Qed.

(** The whole loop, for links with distinct keys. *)
Lemma add_link_loop g ds lf dseq record_id id b ls : ∀ tf tseq tn v batch acc,
  refines ds tf lf dseq tseq v → v_did v (rid_did record_id) = Some (id, b) →
  NoDup (map (link_key (rid_collection record_id)) ls) →
  (∀ k, k ∈ map (link_key (rid_collection record_id)) ls → get_id_val g TARGET_IDS_CF k = Ok (v_tid v k)) →
  (tseq ≤ tn)%N → (tn + N.of_nat (length ls) < u64_bound)%N →
  ∃ tseq' tn' os F,
    foldl_res (add_link g record_id id) (mkIdTable TARGET_IDS_CF tn tn, batch, acc) ls =
      Ok (mkIdTable TARGET_IDS_CF tn' tn', batch ++ map to_op os, acc ++ F) ∧
    Forall vop_ok os ∧ (tseq' ≤ tn' ≤ tn + N.of_nat (length ls))%N ∧
    refines ds (fold_left (λ tf l, tf_push (link_key (rid_collection record_id) l)
                                      (rid_did record_id, rid_rkey record_id) tf) ls tf)
      lf dseq tseq' (vops v os) ∧
    v_did (vops v os) = v_did v ∧
    (∀ k i, v_tid v k = Some i → v_tid (vops v os) k = Some i) ∧
    Forall2 (fwd_rel (vops v os) (rid_collection record_id)) F (map link_pt ls).
Proof.
  induction ls as [|l ls IH]; intros tf tseq tn v batch acc Hr Hdid Hnd Hget Htn Hb.
  { exists tseq, tn, [], []. simpl. rewrite !app_nil_r.
    split_and!; try done; simpl; lia. }
  simpl in Hnd. apply NoDup_cons in Hnd as [Hl Hnd]. simpl length in Hb.
  destruct (add_link_ok g ds tf lf dseq tseq v record_id id b l tn batch acc Hr Hdid)
    as (i & tseq1 & tn1 & os1 & E1 & Hok1 & Hseq1 & Hr1 & Hd1 & Hk1 & Hne1 & Hmono1); [apply Hget; by left|lia|lia|].
  destruct (IH (tf_push (link_key (rid_collection record_id) l) (rid_did record_id, rid_rkey record_id) tf)
              tseq1 tn1 (vops v os1) (batch ++ map to_op os1) (acc ++ [(Links.path l, i)]))
    as (tseq' & tn' & os & F & E & Hok & Hseq & Hr' & Hd & Hmono & HF); try done.
  { by rewrite Hd1. }
  { intros k Hk. rewrite Hne1; [apply Hget; by right|]. by intros ->. }
  { lia. }
  { lia. }
  exists tseq', tn', (os1 ++ os), ((Links.path l, i) :: F).
  change (foldl_res ?f ?s (l :: ls)) with (s' ←? f s l; foldl_res f s' ls). rewrite E1. cbn [result_bind].
  rewrite E. unfold vops in *. rewrite fold_left_app, map_app.
  split_and!; [by rewrite <- !app_assoc|by apply Forall_app|lia|simpl; lia|done|by rewrite Hd| |].
  - intros k j Hk. by apply Hmono, Hmono1.
  - simpl. constructor; [|done]. split; [done|]. by apply Hmono.
Qed.

(** [add_links]: the batch is extended by typed operations whose effect is that
    of the memory store. *)
Lemma add_links_ok `{RocksDb} (self : RocksStorage) ds tf lf dseq tseq v record_id ls dn tn batch :
  let did := rid_did record_id in
  let r := (rid_collection record_id, rid_rkey record_id) in
  refines ds tf lf dseq tseq v →
  did_id_table self = mkIdTable DID_IDS_CF dn dn →
  target_id_table self = mkIdTable TARGET_IDS_CF tn tn →
  get_id_val (db_get_cf (db self)) DID_IDS_CF did = Ok (v_did v did) →
  (∀ k, get_id_val (db_get_cf (db self)) TARGET_IDS_CF k = Ok (v_tid v k)) →
  NoDup (map (link_key (rid_collection record_id)) ls) →
  lf did r = [] → (v_did v did = None → ∀ r, lf did r = []) →
  (dseq ≤ dn)%N → (dn + 1 < id_bound)%N →
  (tseq ≤ tn)%N → (tn + N.of_nat (length ls) < u64_bound)%N →
  ∃ dseq' tseq' dn' tn' os,
    add_links self record_id ls batch =
      Ok (mkRocks (db self) (mkIdTable DID_IDS_CF dn' dn') (mkIdTable TARGET_IDS_CF tn' tn') (is_writer self),
          batch ++ map to_op os) ∧
    Forall vop_ok os ∧ (dseq' ≤ dn' ≤ dn + 1)%N ∧ (tseq' ≤ tn' ≤ tn + N.of_nat (length ls))%N ∧
    refines (λ d, if decide (d = did) then Some (default true (ds did)) else ds d)
      (fold_left (λ tf l, tf_push (link_key (rid_collection record_id) l) (did, rid_rkey record_id) tf) ls tf)
      (λ d r', if decide (d = did ∧ r' = r) then map link_pt ls else lf d r')
      dseq' tseq' (vops v os).
Proof.
  intros did r Hr Hdt Htt Hgd Hgt Hnd Hlf Hlf' Hdn Hb1 Htn Hb2. unfold add_links. rewrite Hdt, Htt.
  destruct (get_or_create_did_ok (db_get_cf (db self)) ds tf lf dseq tseq v did dn batch Hr Hgd Hlf' Hdn Hb1)
    as (id & b & dseq' & dn' & os1 & E1 & Hok1 & Hseq1 & Hr1 & Hd1 & Ht1).
  fold did. rewrite E1. cbn [result_bind fst].
  destruct (add_link_loop (db_get_cf (db self)) (λ d, if decide (d = did) then Some (default true (ds did)) else ds d)
              lf dseq' record_id id b ls tf tseq tn (vops v os1) (batch ++ map to_op os1) [] Hr1 Hd1 Hnd)
    as (tseq' & tn' & os2 & F & E2 & Hok2 & Hseq2 & Hr2 & Hd2 & Hmono & HF); [intros; by rewrite Ht1|done|done|].
  rewrite E2. cbn [result_bind]. unfold put_link_targets.
  assert (Hnd' : NoDup (map link_pt ls)).
  { apply (NoDup_fmap_1 (λ pt : string * string, (pt.2, rid_collection record_id, pt.1))).
    rewrite <- list_fmap_compose. exact Hnd. }
  assert (Hdid2 : v_did (vops (vops v os1) os2) did = Some (id, b)) by (by rewrite Hd2).
  pose proof (step_fwd _ _ _ _ _ _ Hr2 did id b (rid_collection record_id) (rid_rkey record_id) F
    (map link_pt ls) Hdid2 HF Hnd') as Hr3.
  exists dseq', tseq', dn', tn', (os1 ++ os2 ++ [VFwd (id, rid_collection record_id, rid_rkey record_id) F]).
  split_and!; [|apply Forall_app; split; [done|apply Forall_app; split; [done|]]|lia|lia|lia|lia|].
  - do 2 f_equal. rewrite !map_app, <- !app_assoc. done.
  - constructor; [|done]. simpl. split.
    + apply id_lt_u64. apply (rf_did _ _ _ _ _ _ Hr2) in Hdid2 as [? _].
      pose proof (rf_bounds _ _ _ _ _ _ Hr2) as [? _]. lia.
    + by eapply fwd_wf.
  - unfold vops in *. rewrite !fold_left_app. exact Hr3.
Qed.

(** The memory store's [add_links] in the same terms. *)
Definition tf_of (m : Mem.MemStorageData) : tkey → option Mem.Linkers :=
  λ k, Mem.linkers_at m k.1.1 k.1.2 k.2.

Lemma tf_push_ext k x tf tf' : (∀ k, tf k = tf' k) → ∀ k', tf_push k x tf k' = tf_push k x tf' k'.
Proof. intros Ht k'. unfold tf_push, fupd. rewrite Ht. by case_decide. Qed.

Lemma tf_push_fold_ext c x ls : ∀ tf tf', (∀ k, tf k = tf' k) → ∀ k',
  fold_left (λ tf l, tf_push (link_key c l) x tf) ls tf k' = fold_left (λ tf l, tf_push (link_key c l) x tf) ls tf' k'.
Proof. induction ls as [|l ls IH]; intros tf tf' Ht k'; simpl; [done|]. apply IH. by apply tf_push_ext. Qed.

Lemma tf_of_add_link m record_id l k :
  tf_of (Mem.add_link record_id m l) k =
  tf_push (link_key (rid_collection record_id) l) (rid_did record_id, rid_rkey record_id) (tf_of m) k.
Proof.
  destruct k as [[t c] p]. unfold tf_of, Mem.linkers_at, tf_push, fupd, link_key. simpl.
  rewrite lookup2_update2. repeat case_decide; destruct_and?; simplify_eq/=; naive_solver.
Qed.

Lemma mem_add_links_views record_id ls : ∀ m,
  (∀ k, tf_of (Mem.add_links m record_id ls) k =
     fold_left (λ tf l, tf_push (link_key (rid_collection record_id) l) (rid_did record_id, rid_rkey record_id) tf)
       ls (tf_of m) k) ∧
  (∀ d r, get2 (Mem.links (Mem.add_links m record_id ls)) d r =
     if decide (d = rid_did record_id ∧ r = (rid_collection record_id, rid_rkey record_id))
     then get2 (Mem.links m) d r ++ map link_pt ls else get2 (Mem.links m) d r) ∧
  (∀ d, Mem.dids (Mem.add_links m record_id ls) !! d =
     if decide (ls ≠ [] ∧ d = rid_did record_id) then Some (default true (Mem.dids m !! d)) else Mem.dids m !! d).
Proof.
  unfold Mem.add_links. induction ls as [|l ls IH]; intros m; simpl.
  { split_and!; [done| |].
    - intros d r. case_decide; [by rewrite app_nil_r|done].
    - done. }
  destruct (IH (Mem.add_link record_id m l)) as (IH1 & IH2 & IH3). split_and!.
  - intros k. rewrite IH1. apply tf_push_fold_ext. apply tf_of_add_link.
  - intros d r. rewrite IH2. simpl. rewrite get2_update2.
    repeat case_decide; destruct_and?; subst; rewrite <- ?app_assoc; naive_solver.
  - intros d. rewrite IH3. simpl. destruct (Mem.dids m !! rid_did record_id) eqn:E.
    + repeat case_decide; destruct_and?; subst; rewrite ?E; naive_solver.
    + rewrite lookup_insert. repeat case_decide; destruct_and?; subst; rewrite ?E; naive_solver.
Qed.

(** ** Removal *)

Lemma remove_targets_ok g v id rkey F : ∀ batch,
  has_view g v → view_wf v → Forall (λ x, x.2 < u64_bound)%N F →
  remove_targets g id rkey batch F = Ok (batch ++ map to_op (unlink_ops v id rkey F)).
Proof.
  unfold remove_targets. induction F as [|x F IH]; intros batch Hv Hwf HF; simpl.
  { by rewrite app_nil_r. }
  apply Forall_cons in HF as [Hx HF]. unfold update_target_linkers at 1.
  rewrite (read_link _ _ _ Hv Hwf Hx). simpl. rewrite IH by done.
  by rewrite <- app_assoc.
Qed.

End Code.
