(* ===== verification/ConstellationUnlink.v ===== *)
(** * constellation: removal, step by step

    What the batches of [remove_links] and [delete_account] do to a typed view
    that refines the memory store: one record at a time, then all records of an
    account, however the chunks of [delete_account] split them. *)

From S2P Require Import Prelude RustStr Bytes LinksRecord RocksApi.
From S2P Require Import ConstellationTypes ConstellationMem ConstellationRocks ConstellationRocksView ConstellationRefine.
Import Rocks.

(** The reverse index of the memory store agrees with its forward links on the
    records of [did]. *)
Definition links_agree (did : string) (tf : tkey → option Mem.Linkers)
    (lf : string → string * string → list (string * string)) : Prop :=
  ∀ t c p rkey, occ (Some (did, rkey)) (default [] (tf (t, c, p))) = occ (p, t) (lf did (c, rkey)).

(** The typed operations that remove one record, as one view update. *)
Definition unlink_rec (id : N) (v : view) (rec : (N * string * string) * list (string * N)) : view :=
  vops v (VDelFwd rec.1 :: unlink_ops v id rec.1.2 rec.2).

Lemma unlink_rec_eq id v rec :
  unlink_rec id v rec = mkView (v_did v) (v_rev v) (v_tid v)
    (v_link (unlink_rec id v rec)) (fupd rec.1 None (v_fwd v)) (v_default v) ∧
  ∀ i, v_link (unlink_rec id v rec) i =
    if decide (i ∈ rec.2.*2) then Some (remove_linker (default [] (v_link v i)) id rec.1.2).1 else v_link v i.
Proof.
  unfold unlink_rec, unlink_ops.
  change (vops v (VDelFwd rec.1 :: ?os)) with (vops (apply_vop v (VDelFwd rec.1)) os).
  apply (unlink_ops_link (λ i, (remove_linker (default [] (v_link v i)) id rec.1.2).1) rec.2
           (apply_vop v (VDelFwd rec.1))).
Qed.

Lemma map_clear_absent record_id c (L : Mem.Linkers) :
  (c = rid_collection record_id → occ (Some (rid_did record_id, rid_rkey record_id)) L = 0) →
  map (Mem.clear_record record_id c) L = L.
Proof.
  induction L as [|o L IH]; intros Hz; [done|]. cbn [map]. rewrite occ_cons in Hz.
  rewrite IH by (intros E; specialize (Hz E); lia). f_equal.
  destruct o as [x|]; [|done]. simpl.
  destruct (decide (x = _ ∧ _)) as [[-> ->]|]; [|done].
  specialize (Hz eq_refl). rewrite decide_True in Hz by done. lia.
Qed.

Section Unlink.
Context (ds : string → option bool) (dseq tseq : N).

(** One record is removed. *)
Lemma step_unlink tf lf v record_id id b :
  let did := rid_did record_id in
  let r := (rid_collection record_id, rid_rkey record_id) in
  let key := (id, rid_collection record_id, rid_rkey record_id) in
  refines ds tf lf dseq tseq v → v_did v did = Some (id, b) → links_agree did tf lf →
  refines ds (λ k, map (Mem.clear_record record_id k.1.2) <$> tf k)
    (λ d r', if decide (d = did ∧ r' = r) then [] else lf d r') dseq tseq
    (unlink_rec id v (key, default [] (v_fwd v key))).
Proof.
  intros did r key Hr Hdid Hag. destruct record_id as [did0 c rkey]. simpl in *. subst did r key.
  set (F := default [] (v_fwd v (id, c, rkey))).
  destruct (unlink_rec_eq id v ((id, c, rkey), F)) as [-> Hlk]. simpl in Hlk.
  pose proof (rf_fwd _ _ _ _ _ _ Hr _ _ _ c rkey Hdid) as HF. fold F in HF.
  apply (step_relink _ _ _ _ _ _ Hr).
  - intros k. by rewrite fmap_is_Some.
  - intros [[t c'] p] i L L' Hk HL HL' Hent. simpl in *. rewrite HL in HL'. simpl in HL'. injection HL' as <-.
    specialize (Hag t c' p rkey) as Hocc. rewrite HL in Hocc. simpl in Hocc.
    assert (Hle : occ (p, t) (lf did0 (c', rkey)) ≤ 1) by (apply occ_NoDup_le, (rf_nodup _ _ _ _ _ _ Hr)).
    rewrite Hlk. case_decide as Hi; simpl.
    + apply list_elem_of_fmap in Hi as ([p' i'] & Hi & Hin). simpl in Hi. subst i'.
      destruct (Forall2_elem_l _ _ _ _ HF Hin) as ([p2 t2] & [Hp Htid] & Hin2). simpl in *. subst p'.
      pose proof (rf_tid_inj _ _ _ _ _ _ Hr _ _ _ Hk Htid) as [= -> -> ->].
      erewrite map_ext; [apply (remove_linker_rel _ _ _ _ _ _ Hr did0 id b rkey); [done|done|lia]|].
      intros [x|]; simpl; [|done]. repeat case_decide; naive_solver.
    + rewrite map_clear_absent; [done|]. simpl. intros ->. rewrite Hocc.
      destruct (occ (p, t) (lf did0 (c, rkey))) eqn:Eocc; [done|]. destruct Hi.
      assert (Hin : (p, t) ∈ lf did0 (c, rkey)) by (apply occ_pos; lia).
      destruct (Forall2_elem_r _ _ _ _ HF Hin) as ([p' i'] & [Hp Htid] & HinF). simpl in *. subst p'.
      assert (i' = i) as -> by congruence. apply list_elem_of_fmap. by exists (p, i).
  - intros i Hi. rewrite Hlk. rewrite decide_False; [by apply (rf_fresh_link _ _ _ _ _ _ Hr)|].
    intros ([p' i'] & -> & Hin)%list_elem_of_fmap. simpl in Hi.
    destruct (Forall2_elem_l _ _ _ _ HF Hin) as (? & [_ Htid] & _).
    apply (rf_tid _ _ _ _ _ _ Hr) in Htid. simpl in Htid. lia.
  - intros d id' b' c' rkey' Hd. unfold fupd. simpl.
    destruct (decide (d = did0 ∧ (c', rkey') = (c, rkey))) as [[-> [= -> ->]]|Hne].
    + assert (id' = id) as -> by congruence. rewrite decide_True by done. constructor.
    + rewrite decide_False; [by apply (rf_fwd _ _ _ _ _ _ Hr) with b'|].
      intros [= -> -> ->]. apply Hne. split; [by eapply rf_did_inj|done].
  - intros id' c' rkey' Hid. unfold fupd. simpl. case_decide; [done|]. by apply (rf_fresh_fwd _ _ _ _ _ _ Hr).
  - intros d r. case_decide; [constructor|]. apply (rf_nodup _ _ _ _ _ _ Hr).
Qed.

(** Agreement survives the removal of a record. *)
Lemma links_agree_unlink did tf lf c rkey :
  links_agree did tf lf →
  links_agree did (λ k, map (Mem.clear_record (mkRecordId did c rkey) k.1.2) <$> tf k)
    (λ d r', if decide (d = did ∧ r' = (c, rkey)) then [] else lf d r').
Proof.
  intros Hag t c' p rkey'. simpl. specialize (Hag t c' p rkey').
  assert (default [] (map (Mem.clear_record (mkRecordId did c rkey) c') <$> tf (t, c', p)) =
          map (Mem.clear_record (mkRecordId did c rkey) c') (default [] (tf (t, c', p)))) as ->
    by (by destruct (tf _)).
  rewrite Mem.clear_record_occ. simpl. repeat case_decide; destruct_and?; simplify_eq/=; naive_solver.
Qed.

Lemma holes_clear_record record_id c L : Mem.holes L (map (Mem.clear_record record_id c) L).
Proof.
  induction L as [|o L IH]; simpl; constructor; [|done].
  destruct o; simpl; [|by left]. case_decide; auto.
Qed.

(** All listed records of an account are removed, one after the other. *)
Lemma unlink_all did id b recs : ∀ tf lf v,
  refines ds tf lf dseq tseq v → v_did v did = Some (id, b) → links_agree did tf lf →
  Forall (λ rec, rec.1.1.1 = id ∧ v_fwd v rec.1 = Some rec.2) recs → NoDup recs.*1 →
  ∃ tf' lf',
    refines ds tf' lf' dseq tseq (fold_left (unlink_rec id) recs v) ∧ links_agree did tf' lf' ∧
    (∀ k, Mem.oholes (tf k) (tf' k)) ∧
    (∀ k x, x.1 ≠ did → occ (Some x) (default [] (tf' k)) = occ (Some x) (default [] (tf k))) ∧
    (∀ d r, lf' d r = if decide (d = did ∧ (id, r.1, r.2) ∈ recs.*1) then [] else lf d r) ∧
    v_did (fold_left (unlink_rec id) recs v) = v_did v.
Proof.
  induction recs as [|[[[id' c] rkey] F] recs IH]; intros tf lf v Hr Hdid Hag Hrecs Hnd; simpl fold_left.
  { exists tf, lf. split_and!; try done. intros d r. rewrite decide_False; [done|].
    intros [_ Hin]. by apply not_elem_of_nil in Hin. }
  apply Forall_cons in Hrecs as [[Hid HF] Hrecs]. simpl in Hid, HF. subst id'.
  apply NoDup_cons in Hnd as [Hnin Hnd]. simpl in Hnin.
  pose proof (step_unlink tf lf v (mkRecordId did c rkey) id b Hr Hdid Hag) as Hr1. simpl in Hr1.
  rewrite HF in Hr1. simpl in Hr1.
  destruct (unlink_rec_eq id v (id, c, rkey, F)) as [Heq _].
  assert (Hd1 : v_did (unlink_rec id v (id, c, rkey, F)) = v_did v) by (by rewrite Heq).
  destruct (IH _ _ _ Hr1) as (tf' & lf' & Hr' & Hag' & Hh & Hocc & Hlf & Hd'); [by rewrite Hd1| | |done|].
  { by apply links_agree_unlink. }
  { rewrite Heq. simpl. eapply Forall_impl; [apply Forall_and; split; [exact Hrecs|]|].
    - apply Forall_forall. intros rec Hrec. exact (list_elem_of_fmap_2 fst _ _ Hrec).
    - intros rec [[Hid Hf] Hin]. split; [done|]. rewrite fupd_ne; [done|]. intros E. apply Hnin. by rewrite <- E. }
  exists tf', lf'. split_and!; [done|done| | | |by rewrite Hd'].
  - intros k. etrans; [|apply Hh]. destruct (tf k); constructor. apply holes_clear_record.
  - intros k x Hx. rewrite Hocc by done. destruct (tf k) as [L|]; simpl; [|done].
    rewrite Mem.clear_record_occ, decide_False; [done|]. simpl. intros [-> _]. done.
  - intros d [c' rkey']. rewrite Hlf. simpl.
    repeat case_decide; rewrite ?elem_of_cons in *; destruct_and?; simplify_eq/=; naive_solver.
Qed.

End Unlink.

(** ** Chunks *)

(** The typed operations of one chunk, all computed from the view before it. *)
Definition chunk_ops (v : view) (id : N) (recs : list ((N * string * string) * list (string * N))) : list vop :=
  flat_map (λ rec, VDelFwd rec.1 :: unlink_ops v id rec.1.2 rec.2) recs.

(** No target is listed by two of the records. *)
Definition distinct_targets (recs : list ((N * string * string) * list (string * N))) : Prop :=
  ∀ r1 r2 i, r1 ∈ recs → r2 ∈ recs → i ∈ r1.2.*2 → i ∈ r2.2.*2 → r1.1 = r2.1.

Lemma unlink_ops_ext v v' id rkey F :
  (∀ i, i ∈ F.*2 → v_link v i = v_link v' i) → unlink_ops v id rkey F = unlink_ops v' id rkey F.
Proof.
  intros Hl. unfold unlink_ops. apply list_fmap_ext. intros ? x Hx%list_elem_of_lookup_2.
  rewrite Hl; [done|]. by apply list_elem_of_fmap_2.
Qed.

Lemma chunk_ops_ext v v' id recs :
  (∀ i rec, rec ∈ recs → i ∈ rec.2.*2 → v_link v i = v_link v' i) → chunk_ops v id recs = chunk_ops v' id recs.
Proof.
  induction recs as [|rec recs IH]; intros Hl; simpl; [done|]. rewrite IH by (intros; eapply Hl; [by right|done]).
  rewrite (unlink_ops_ext v v') by (intros; eapply Hl; [by left|done]). done.
Qed.

(** With distinct targets, the batch does what removing one by one does. *)
Lemma chunk_ops_seq id recs : ∀ v,
  NoDup recs.*1 → distinct_targets recs → vops v (chunk_ops v id recs) = fold_left (unlink_rec id) recs v.
Proof.
  induction recs as [|rec recs IH]; intros v Hnd Hdt; [done|].
  apply NoDup_cons in Hnd as [Hnin Hnd].
  change (chunk_ops v id (rec :: recs)) with
    ((VDelFwd rec.1 :: unlink_ops v id rec.1.2 rec.2) ++ chunk_ops v id recs).
  unfold vops. rewrite fold_left_app. fold (unlink_rec id v rec). simpl.
  rewrite <- IH; [|done|].
  - rewrite (chunk_ops_ext v (unlink_rec id v rec)); [done|]. intros i rec' Hrec' Hi.
    destruct (unlink_rec_eq id v rec) as [_ ->]. rewrite decide_False; [done|]. intros Hi'.
    apply Hnin. rewrite (Hdt rec rec' i); [by apply list_elem_of_fmap_2|by left|by right|done|done].
  - intros r1 r2 i H1 H2. apply Hdt; by right.
Qed.

Lemma remove_linker_wf id rkey (P : N → Prop) l :
  P 0%N → Forall (λ x, P x.1) l → Forall (λ x, P x.1) (remove_linker l id rkey).1.
Proof.
  intros H0 Hl. unfold remove_linker.
  destruct (replace_last (λ d, bool_decide (d = (id, rkey))) (0%N, "") l) as [l'|] eqn:E; [|done].
  apply replace_last_Some in E as (l1 & x & l2 & -> & _ & ->). simpl.
  apply Forall_app in Hl as [? ?%Forall_cons]. apply Forall_app. naive_solver.
Qed.

Lemma chunk_ops_wf v id recs :
  view_wf v → (id < u64_bound)%N →
  Forall (λ rec, rec.1.1.1 = id ∧ Forall (λ x, x.2 < u64_bound)%N rec.2) recs → Forall vop_ok (chunk_ops v id recs).
Proof.
  intros Hwf Hid. induction 1 as [|rec recs [Hk HF] Hrecs IH]; [done|].
  change (Forall vop_ok (((VDelFwd rec.1 :: unlink_ops v id rec.1.2 rec.2) ++ chunk_ops v id recs))).
  apply Forall_app; split; [|done]. constructor; [simpl; lia|]. apply Forall_fmap.
  eapply Forall_impl; [exact HF|]. intros x Hx. simpl. split; [done|].
  apply (remove_linker_wf _ _ (λ n, n < u64_bound)%N); [done|]. destruct (v_link v x.2) eqn:E; simpl; [by eapply wf_link|constructor].
Qed.

Section Chunks.
Context `{BL : BincodeLaws}.

Lemma has_view_ext g g' v : (∀ cf k, g cf k = g' cf k) → has_view g v → has_view g' v.
Proof. intros Hg []. split; intros *; rewrite <- Hg; eauto. Qed.

Lemma delete_chunk_ok g v id recs :
  has_view g v → view_wf v → Forall (λ rec, Forall (λ x, x.2 < u64_bound)%N rec.2) recs →
  delete_chunk g id recs = Ok (map to_op (chunk_ops v id recs)).
Proof.
  intros Hv Hwf Hrecs. unfold delete_chunk.
  assert (∀ batch, foldl_res (λ mini_batch rec,
      remove_targets g id rec.1.2 (delete_record_link mini_batch rec.1) rec.2) batch recs =
    Ok (batch ++ map to_op (chunk_ops v id recs))) as Hgen; [|by rewrite Hgen].
  induction Hrecs as [|rec recs HF Hrecs IH]; intros batch; [by rewrite app_nil_r|].
  change (foldl_res ?f ?s (rec :: recs)) with (s' ←? f s rec; foldl_res f s' recs). cbn beta.
  rewrite (remove_targets_ok _ v) by done. cbn [result_bind]. rewrite IH. f_equal.
  unfold delete_record_link. rewrite <- !app_assoc. f_equal.
  change (chunk_ops v id (rec :: recs)) with
    ((VDelFwd rec.1 :: unlink_ops v id rec.1.2 rec.2) ++ chunk_ops v id recs).
  by rewrite map_app.
Qed.

Context `{RL : @RocksDbLaws RD merge_op}.

Lemma write_has_view d v os :
  has_view (db_get_cf d) v → view_wf v → Forall vop_ok os →
  has_view (db_get_cf (db_write d (map to_op os))) (vops v os) ∧ view_wf (vops v os).
Proof.
  intros Hv Hwf Hos. destruct (has_view_vops _ _ _ Hv Hwf Hos) as [H1 H2]. split; [|done].
  eapply has_view_ext; [|exact H1]. intros. by rewrite db_get_write.
Qed.

(** The loop of [delete_account] over the chunks. *)
Lemma delete_chunks_ok id css : ∀ d v n,
  has_view (db_get_cf d) v → view_wf v → (id < u64_bound)%N →
  Forall (λ rec, rec.1.1.1 = id ∧ Forall (λ x, x.2 < u64_bound)%N rec.2) (concat css) →
  NoDup (concat css).*1 → distinct_targets (concat css) →
  ∃ d' n',
    foldl_res (λ st chunk,
        let '(d, total) := st in
        mini_batch ←? delete_chunk (db_get_cf d) id chunk;
        Ok (db_write d mini_batch, total + length mini_batch)) (d, n) css = Ok (d', n') ∧
    has_view (db_get_cf d') (fold_left (unlink_rec id) (concat css) v) ∧
    view_wf (fold_left (unlink_rec id) (concat css) v).
Proof.
  induction css as [|cs css IH]; intros d v n Hv Hwf Hid Hrecs Hnd Hdt.
  { eexists _, _. split_and!; done. }
  change (concat (cs :: css)) with (cs ++ concat css) in *.
  rewrite fmap_app in Hnd. apply NoDup_app in Hnd as (Hnd1 & _ & Hnd2). apply Forall_app in Hrecs as [Hr1 Hr2].
  change (foldl_res ?f ?s (cs :: css)) with (s' ←? f s cs; foldl_res f s' css). cbn beta iota.
  rewrite (delete_chunk_ok _ v); [|done|done|by eapply Forall_impl; [exact Hr1|naive_solver]]. cbn [result_bind].
  destruct (write_has_view d v (chunk_ops v id cs)) as [Hv1 Hwf1]; [done|done|by apply chunk_ops_wf|].
  rewrite chunk_ops_seq in Hv1, Hwf1; [|done|by intros r1 r2 i ??; apply Hdt; apply elem_of_app; left
    |done|by intros r1 r2 i ??; apply Hdt; apply elem_of_app; left].
  rewrite fold_left_app. apply IH; try done.
  intros r1 r2 i ??. apply Hdt; apply elem_of_app; by right.
Qed.

End Chunks.

Lemma concat_chunks {A} n (l : list A) : 0 < n → concat (chunks n l) = l.
Proof.
  intros Hn. unfold chunks. assert (∀ fuel l, length l ≤ fuel → concat (chunks_fuel (A := A) fuel n l) = l) as H; [|by apply H].
  induction fuel as [|fuel IH]; intros [|x k] Hk; try done; simpl in Hk; [lia|].
  change (take n (x :: k) ++ concat (chunks_fuel fuel n (drop n (x :: k))) = x :: k).
  rewrite IH; [apply take_drop|]. rewrite length_drop. simpl. lia.
Qed.
