(* ===== verification/ConstellationSim.v ===== *)
(** * constellation: the stores simulate each other

    [RocksStorage] implements the contract that [MemStorage] spells out: for
    every event the two handlers go in lockstep, and related stores answer
    every query alike.  The exceptions are in [admissible] and are shown to be
    real at the end of the file. *)

From S2P Require Import Prelude RustStr Bytes LinksRecord RocksApi.
From S2P Require Import ConstellationTypes ConstellationMem ConstellationRocks ConstellationRocksView ConstellationRefine.
From S2P Require Import ConstellationUnlink.
Import Rocks.

(** ** Events both stores are prepared for *)

Definition records_of (m : Mem.MemStorageData) (did : string) : gmap (string * string) (list (string * string)) :=
  default ∅ (Mem.links m !! did).

(** The (collection, path, target) of every link of an account. *)
Definition account_links (m : Mem.MemStorageData) (did : string) : list (string * (string * string)) :=
  flat_map (λ repo, map (pair repo.1.1) repo.2) (map_to_list (records_of m did)).

Lemma account_links_distinct m did c rkey rkey' pt :
  NoDup (account_links m did) →
  pt ∈ get2 (Mem.links m) did (c, rkey) → pt ∈ get2 (Mem.links m) did (c, rkey') → rkey = rkey'.
Proof.
  intros Hnd H1 H2.
  assert (Hin : ∀ rk, pt ∈ get2 (Mem.links m) did (c, rk) →
    ∃ lts : list (string * string), ((c, rk), lts) ∈ map_to_list (records_of m did) ∧ pt ∈ lts).
  { intros rk Hpt. unfold get2, records_of in *. destruct (Mem.links m !! did) as [repos|]; simpl in *; [|by apply not_elem_of_nil in Hpt].
    destruct (repos !! (c, rk)) as [lts|] eqn:E; simpl in Hpt; [|by apply not_elem_of_nil in Hpt].
    exists lts. by rewrite elem_of_map_to_list. }
  destruct (Hin rkey H1) as (l1 & Hl1 & Hp1), (Hin rkey' H2) as (l2 & Hl2 & Hp2).
  pose proof (NoDup_flat_map_disjoint _ _ _ _ (c, pt) Hnd Hl1 Hl2) as E.
  assert ((c, rkey, l1) = (c, rkey', l2)) as [= -> _]; [|done].
  apply E; simpl; by apply list_elem_of_fmap_2.
Qed.

(** Links of a record have distinct (path, target); a record is created once;
    a deleted account does not link to one target from one path of several
    records of a collection. *)
Definition admissible (m : Mem.MemStorageData) (event : ActionableEvent) : Prop :=
  match event with
  | CreateLinks record_id ls =>
      ls ≠ [] ∧ NoDup (map link_pt ls) ∧
      get2 (Mem.links m) (rid_did record_id) (rid_collection record_id, rid_rkey record_id) = []
  | UpdateLinks record_id ls =>
      NoDup (map link_pt ls) ∧ (ls ≠ [] ∨ is_Some (Mem.dids m !! rid_did record_id))
  | DeleteRecord _ | ActivateAccount _ | DeactivateAccount _ => True
  | DeleteAccount did => NoDup (account_links m did)
  end.

#[global] Instance admissible_dec m event : Decision (admissible m event).
Proof. destruct event; simpl; apply _. Defined.

(** How many target ids an event may use up. *)
Definition event_links (event : ActionableEvent) : N :=
  match event with
  | CreateLinks _ ls | UpdateLinks _ ls => N.of_nat (length ls)
  | _ => 0%N
  end.

Lemma mem_links_agree m did : Mem.mem_inv m → links_agree did (tf_of m) (get2 (Mem.links m)).
Proof. intros [Hocc _] t c p rkey. apply Hocc. Qed.

Lemma mem_unknown_empty m did r : Mem.mem_inv m → Mem.dids m !! did = None → get2 (Mem.links m) did r = [].
Proof.
  intros [Hocc Hd] Hn. destruct r as [c rkey].
  destruct (get2 (Mem.links m) did (c, rkey)) as [|[p t] l] eqn:E; [done|].
  specialize (Hocc did rkey c p t). rewrite E, occ_cons, decide_True in Hocc by done.
  destruct (Hd did rkey t (c, p)); [apply occ_pos; lia|congruence].
Qed.

Lemma link_keys_NoDup c ls : NoDup (map link_pt ls) → NoDup (map (link_key c) ls).
Proof.
  intros Hnd. assert (Inj (=) (=) (λ pt : string * string, (pt.2, c, pt.1))).
  { intros [??] [??]. simpl. congruence. }
  apply (NoDup_fmap_2 (λ pt : string * string, (pt.2, c, pt.1))) in Hnd.
  by rewrite <- list_fmap_compose in Hnd.
Qed.

Section Sim.
Context `{BL : BincodeLaws} `{RL : @RocksDbLaws RD merge_op}.

(** The two stores hold the same links; the id tables stand at [dn] and [tn],
    at or above every id that was written. *)
Definition sim (m : Mem.MemStorageData) (r : RocksStorage) (dn tn : N) : Prop :=
  Mem.mem_inv m ∧
  did_id_table r = mkIdTable DID_IDS_CF dn dn ∧ target_id_table r = mkIdTable TARGET_IDS_CF tn tn ∧
  ∃ v dseq tseq, (dseq ≤ dn)%N ∧ (tseq ≤ tn)%N ∧ has_view (db_get_cf (db r)) v ∧ view_wf v ∧
    refines (λ d, Mem.dids m !! d) (tf_of m) (get2 (Mem.links m)) dseq tseq v.

(** A batch whose typed effect leads to the new memory store. *)
Lemma sim_commit m' (r : RocksStorage) dn tn dseq tseq v os batch :
  (dseq ≤ dn)%N → (tseq ≤ tn)%N → Mem.mem_inv m' → has_view (db_get_cf (db r)) v → view_wf v → Forall vop_ok os →
  did_id_table r = mkIdTable DID_IDS_CF dn dn → target_id_table r = mkIdTable TARGET_IDS_CF tn tn →
  batch = map to_op os →
  refines (λ d, Mem.dids m' !! d) (tf_of m') (get2 (Mem.links m')) dseq tseq (vops v os) →
  sim m' (commit r batch) dn tn.
Proof.
  intros Hdn Htn Hinv Hv Hwf Hos Hd Ht -> Hr. split; [done|]. split; [done|]. split; [done|].
  destruct (write_has_view (db r) v os Hv Hwf Hos) as [Hv' Hwf']. by exists (vops v os), dseq, tseq.
Qed.

Lemma cursor_op (cursor : N) :
  [Put DEFAULT_CF JETSTREAM_CURSOR_KEY (ser cursor)] = map to_op [VDefault JETSTREAM_CURSOR_KEY (ser cursor)].
Proof. done. Qed.

Lemma refines_cursor ds tf lf dseq tseq v os c :
  refines ds tf lf dseq tseq (vops v os) →
  refines ds tf lf dseq tseq (vops v (os ++ [VDefault JETSTREAM_CURSOR_KEY c])).
Proof.
  unfold vops. rewrite fold_left_app. simpl. intros []. pose proof seq_keys_ne as (_ & ? & ?).
  split; simpl; rewrite ?fupd_ne by done; eauto.
Qed.

Lemma vops_ok_cursor os c : Forall vop_ok os → Forall vop_ok (os ++ [VDefault JETSTREAM_CURSOR_KEY c]).
Proof. intros. apply Forall_app. split; [done|]. by repeat constructor. Qed.

(** A deletion among link rewrites can be done first. *)
Lemma del_fwd_first v k (f : N → list (N * string)) (F : list (string * N)) :
  vops v (map (λ x, VLink x.2 (f x.2)) F ++ [VDelFwd k]) =
  vops v (VDelFwd k :: map (λ x, VLink x.2 (f x.2)) F).
Proof.
  unfold vops. revert v. induction F as [|x F IH]; intros v; [done|]. simpl in *. rewrite IH. done.
Qed.

(** [remove_links] batches the removal of the record. *)
Lemma remove_links_sim m (r : RocksStorage) dseq tseq v record_id batch :
  let did := rid_did record_id in
  let rk := (rid_collection record_id, rid_rkey record_id) in
  Mem.mem_inv m → has_view (db_get_cf (db r)) v → view_wf v →
  refines (λ d, Mem.dids m !! d) (tf_of m) (get2 (Mem.links m)) dseq tseq v →
  ∃ os, remove_links r record_id batch = Ok (batch ++ map to_op os) ∧ Forall vop_ok os ∧
    v_did (vops v os) = v_did v ∧ v_tid (vops v os) = v_tid v ∧
    refines (λ d, Mem.dids m !! d) (λ k, map (Mem.clear_record record_id k.1.2) <$> tf_of m k)
      (λ d r', if decide (d = did ∧ r' = rk) then [] else get2 (Mem.links m) d r') dseq tseq (vops v os).
Proof.
  intros did rk Hinv Hv Hwf Hr. pose proof (mem_links_agree m did Hinv) as Hag.
  assert (Hnop : get2 (Mem.links m) did rk = [] →
    refines (λ d, Mem.dids m !! d) (λ k, map (Mem.clear_record record_id k.1.2) <$> tf_of m k)
      (λ d r', if decide (d = did ∧ r' = rk) then [] else get2 (Mem.links m) d r') dseq tseq v).
  { intros Hnil. eapply refines_ext; [done| | |exact Hr].
    - intros [[t c] p]. simpl. specialize (Hag t c p (rid_rkey record_id)).
      destruct (tf_of m (t, c, p)) as [L|]; simpl in *; [|done]. f_equal. symmetry. apply map_clear_absent.
      intros ->. fold did. rewrite Hag. fold rk. by rewrite Hnil, occ_nil.
    - intros d r'. case_decide as E; [|done]. destruct E as [-> ->]. done. }
  unfold remove_links. fold did. rewrite (read_did _ v) by done. cbn [result_bind].
  destruct (v_did v did) as [[id b]|] eqn:Hdid.
  2:{ exists []. rewrite app_nil_r. split_and!; try done. apply Hnop, mem_unknown_empty; [done|].
      by rewrite <- (rf_active _ _ _ _ _ _ Hr), Hdid. }
  pose proof (id_lt_u64 _ (wf_did _ Hwf _ _ _ Hdid)) as Hid.
  rewrite (read_fwd _ v) by done. cbn [result_bind].
  pose proof (rf_fwd _ _ _ _ _ _ Hr _ _ _ (rid_collection record_id) (rid_rkey record_id) Hdid) as HF.
  destruct (v_fwd v (id, rid_collection record_id, rid_rkey record_id)) as [F|] eqn:EF.
  2:{ exists []. rewrite app_nil_r. split_and!; try done. apply Hnop. by inversion HF. }
  pose proof (wf_fwd _ Hwf _ _ EF) as HFwf.
  rewrite (remove_targets_ok _ v) by done. cbn [result_bind].
  exists (unlink_ops v id (rid_rkey record_id) F ++ [VDelFwd (id, rid_collection record_id, rid_rkey record_id)]).
  pose proof (step_unlink _ _ _ _ _ v record_id id b Hr Hdid Hag) as Hr'.
  destruct (unlink_rec_eq id v (id, rid_collection record_id, rid_rkey record_id, F)) as [Heq _].
  unfold unlink_ops in *.
  rewrite (del_fwd_first v _ (λ i, (remove_linker (default [] (v_link v i)) id (rid_rkey record_id)).1) F).
  rewrite EF in Hr'. simpl in Hr', Heq. unfold unlink_rec, unlink_ops in Hr', Heq. simpl in Hr', Heq.
  split_and!.
  - unfold delete_record_link. by rewrite map_app, <- !app_assoc.
  - pose proof (chunk_ops_wf v id [(id, rid_collection record_id, rid_rkey record_id, F)] Hwf Hid) as Hok.
    simpl in Hok. rewrite app_nil_r in Hok. apply Forall_app, and_comm, Forall_app.
    apply Hok. by repeat constructor.
  - exact (f_equal v_did Heq).
  - exact (f_equal v_tid Heq).
  - exact Hr'.
Qed.

(** Memory stores after a removal. *)
Lemma mem_remove_views m record_id :
  Mem.mem_inv m → ∃ m', Mem.remove_links m record_id = Ok m' ∧ Mem.mem_inv m' ∧
    (∀ d, Mem.dids m' !! d = Mem.dids m !! d) ∧
    (∀ k, tf_of m' k = map (Mem.clear_record record_id k.1.2) <$> tf_of m k) ∧
    (∀ d r', get2 (Mem.links m') d r' =
       if decide (d = rid_did record_id ∧ r' = (rid_collection record_id, rid_rkey record_id)) then []
       else get2 (Mem.links m) d r').
Proof.
  intros Hinv. destruct (Mem.remove_links_inv m record_id Hinv) as (m' & E & Hinv').
  destruct (Mem.remove_links_ok m record_id Hinv) as (ts & E' & Hts). rewrite E' in E. simplify_eq.
  eexists; split_and!; [done|done|done| |].
  - intros [[t c] p]. apply Hts.
  - intros d r'. apply Mem.get2_alter_delete.
Qed.

(** ** Prefix iteration *)

Lemma decode_while_ok {K V} `{Codec K, Codec V} (P : K * V → Prop) l :
  (∀ x, P x → de (ser x.1) = Some x.1 ∧ de (ser x.2) = Some x.2) →
  Forall (λ e, ∃ x, P x ∧ e = (ser x.1, ser x.2)) l →
  l = map (λ x : K * V, (ser x.1, ser x.2)) (decode_while l) ∧ Forall P (decode_while l).
Proof.
  intros Hde. induction 1 as [|e l (x & Hx & ->) Hl [IH1 IH2]]; simpl; [done|].
  destruct (Hde x Hx) as [-> ->]. destruct x as [k w]. simpl in *. split; [f_equal; exact IH1|by constructor].
Qed.

(** Iterating over the records of an id. *)
Lemma iter_links_ok d v id :
  has_view (db_get_cf d) v → view_wf v → (id < u64_bound)%N →
  let recs := iter_links_for_did_id d id in
  Forall (λ rec, rec.1.1.1 = id ∧ v_fwd v rec.1 = Some rec.2) recs ∧ NoDup recs.*1 ∧
  (∀ c rkey F, v_fwd v (id, c, rkey) = Some F → (id, c, rkey) ∈ recs.*1).
Proof.
  intros Hv Hwf Hid recs. unfold recs, iter_links_for_did_id.
  set (l := db_prefix_iter d LINK_TARGETS_CF (ser id)).
  pose (P := λ rec : (N * string * string) * list (string * N), rec.1.1.1 = id ∧ v_fwd v rec.1 = Some rec.2).
  assert (Hl : Forall (λ e, ∃ x, P x ∧ e = (ser x.1, ser x.2)) l).
  { apply Forall_forall. intros [k w] Hin. apply db_prefix_iter_spec in Hin as [Hg Hp].
    destruct (hv_fwd_keys _ _ Hv _ _ Hg) as (kk & -> & Hkk). rewrite (hv_fwd _ _ Hv) in Hg by done.
    destruct (v_fwd v kk) as [F|] eqn:EF; simpl in Hg; [|done]. injection Hg as <-. exists (kk, F).
    split; [|done]. split; simpl; [|done]. destruct kk as [[n c] rk]. simpl in Hkk. symmetry.
    by apply (prefix_record_link_key id n c rk). }
  assert (HP : ∀ x, P x → de (ser x.1) = Some x.1 ∧ de (ser x.2) = Some x.2).
  { intros [[[n c] rk] F] [Hn HF]. simpl in *. subst n.
    split; [by apply rt_record_link_key|]. apply rt_record_link_targets. by eapply wf_fwd. }
  destruct (decode_while_ok P l HP Hl) as [Heq HPs]. split_and!; [exact HPs| |].
  - pose proof (db_prefix_iter_NoDup d LINK_TARGETS_CF (ser id)) as Hnd. fold l in Hnd. rewrite Heq in Hnd.
    rewrite <- list_fmap_compose in Hnd. apply (NoDup_fmap_1 ser). by rewrite <- list_fmap_compose.
  - intros c rk F HF.
    assert (Hin : (ser (id, c, rk), ser F) ∈ l).
    { apply db_prefix_iter_spec. rewrite (hv_fwd _ _ Hv) by done. rewrite HF. split; [done|].
      by apply prefix_record_link_key. }
    rewrite Heq in Hin. apply list_elem_of_fmap in Hin as (x & E & Hx).
    apply list_elem_of_fmap. exists x. split; [|done].
    destruct (proj1 (Forall_forall _ _) HPs x Hx) as [Hxid _]. injection E as E _.
    apply ser_rlk_inj in E; simpl; [done|done|lia].
Qed.

(** An account without links is forgotten. *)
Lemma step_del_did ds tf lf dseq tseq v did :
  refines ds tf lf dseq tseq v →
  (∀ k L rkey, tf k = Some L → Some (did, rkey) ∉ L) →
  refines (fupd did None ds) tf lf dseq tseq (apply_vop v (VDelDid did)).
Proof.
  intros Hr Hno. destruct Hr as [R1 R2 R3 R4 R5 R6 R7 R8 R9 R10 R11]. split; simpl; eauto.
  - intros d. unfold fupd. case_decide; [done|]. apply R1.
  - intros d id b. unfold fupd. case_decide; [done|]. by apply R2.
  - intros k i L Hk HL. pose proof (R6 k i L Hk HL) as Hent.
    assert (Hno' : ∀ rkey, Some (did, rkey) ∉ L) by (intros; by eapply Hno). clear Hk HL.
    induction Hent as [|x o l L' Ho Hl IH]; constructor.
    + destruct o as [[d rk]|]; simpl in *; [|done]. destruct Ho as [-> [b Hb]]. split; [done|].
      exists b. rewrite fupd_ne; [done|]. intros ->. apply (Hno' rk). by left.
    + apply IH. intros rk Hin. apply (Hno' rk). by right.
  - intros d id b c rkey. unfold fupd. case_decide; [done|]. by apply R8.
Qed.

(** ** Event by event *)

(** [add_links] on top of a batch [os] that has led to the memory store [m]. *)
Lemma add_links_sim m (r : RocksStorage) dn tn dseq tseq v os record_id ls (cursor : N) :
  let did := rid_did record_id in
  (dseq ≤ dn)%N → (tseq ≤ tn)%N →
  Mem.mem_inv m → has_view (db_get_cf (db r)) v → view_wf v → Forall vop_ok os →
  did_id_table r = mkIdTable DID_IDS_CF dn dn → target_id_table r = mkIdTable TARGET_IDS_CF tn tn →
  refines (λ d, Mem.dids m !! d) (tf_of m) (get2 (Mem.links m)) dseq tseq (vops v os) →
  v_did (vops v os) = v_did v → v_tid (vops v os) = v_tid v →
  get2 (Mem.links m) did (rid_collection record_id, rid_rkey record_id) = [] →
  NoDup (map link_pt ls) → (ls ≠ [] ∨ is_Some (Mem.dids m !! did)) →
  (dn + 1 < id_bound)%N → (tn + N.of_nat (length ls) < u64_bound)%N →
  ∃ r' batch dn' tn',
    add_links r record_id ls (map to_op os) = Ok (r', batch) ∧
    (dn' ≤ dn + 1)%N ∧ (tn' ≤ tn + N.of_nat (length ls))%N ∧
    sim (Mem.add_links m record_id ls)
      (commit r' (batch ++ [Put DEFAULT_CF JETSTREAM_CURSOR_KEY (ser cursor)])) dn' tn'.
Proof.
  intros did Hdn Htn Hinv Hv Hwf Hos Hdt Htt Hr Hvd Hvt Hnil Hnd Hne Hb1 Hb2.
  destruct (add_links_ok r _ _ _ _ _ _ record_id ls dn tn (map to_op os) Hr Hdt Htt)
    as (dseq' & tseq' & dn' & tn' & os2 & E & Hok & Hd & Ht & Hr2); try done.
  { rewrite Hvd. by apply read_did. }
  { intros k. rewrite Hvt. by apply read_tid. }
  { by apply link_keys_NoDup. }
  { intros Hn rk. apply mem_unknown_empty; [done|]. by rewrite <- (rf_active _ _ _ _ _ _ Hr), Hn. }
  eexists _, _, dn', tn'. split_and!; [exact E|lia|lia|].
  destruct (mem_add_links_views record_id ls m) as (V1 & V2 & V3).
  eapply (sim_commit _ _ _ _ dseq' tseq' v ((os ++ os2) ++ [VDefault JETSTREAM_CURSOR_KEY (ser cursor)])); try done; [lia|lia| | | |].
  - by apply Mem.add_links_inv.
  - apply vops_ok_cursor. by apply Forall_app.
  - by rewrite cursor_op, !map_app.
  - apply refines_cursor. unfold vops. rewrite fold_left_app.
    eapply refines_ext; [| | |exact Hr2].
    + intros d. rewrite V3. fold did. destruct (decide (d = did)) as [->|Hd'].
      * destruct Hne as [Hne|[b Hb]]; [by rewrite decide_True|]. rewrite Hb. by case_decide.
      * by rewrite decide_False by naive_solver.
    + intros k. by rewrite V1.
    + intros d rk. rewrite V2. case_decide as Edr; [|done]. destruct Edr as [-> ->]. fold did. by rewrite Hnil.
Qed.

Lemma set_account_sim m (r : RocksStorage) dn tn did active (cursor : N) :
  sim m r dn tn →
  ∃ batch, set_account r did active [] = Ok batch ∧
    sim (Mem.set_account m did active)
      (commit r (batch ++ [Put DEFAULT_CF JETSTREAM_CURSOR_KEY (ser cursor)])) dn tn.
Proof.
  intros (Hinv & Hdt & Htt & v & dseq & tseq & Hdn & Htn & Hv & Hwf & Hr). unfold set_account, update_did_id_value.
  rewrite (read_did _ v) by done. cbn [result_bind].
  pose proof (rf_active _ _ _ _ _ _ Hr did) as Hact.
  assert (Hinv' : Mem.mem_inv (Mem.set_account m did active)) by (by apply Mem.set_account_inv).
  unfold Mem.set_account in *. destruct (v_did v did) as [[id b]|] eqn:Hdid; cbn [result_bind].
  - simpl in Hact. rewrite <- Hact in *. eexists; split; [done|].
    eapply (sim_commit _ _ _ _ dseq tseq v ([VDid did (id, active)] ++ [VDefault JETSTREAM_CURSOR_KEY (ser cursor)])); try done.
    + apply vops_ok_cursor. repeat constructor. simpl. by eapply wf_did.
    + apply refines_cursor. eapply refines_ext; [| | |eapply (step_active _ _ _ _ _ _ Hr did id b active Hdid)]; try done.
      intros d. unfold fupd. simpl. rewrite lookup_insert. repeat case_decide; congruence.
  - simpl in Hact. rewrite <- Hact in *. eexists; split; [done|].
    eapply (sim_commit _ _ _ _ dseq tseq v ([] ++ [VDefault JETSTREAM_CURSOR_KEY (ser cursor)])); try done.
    + apply vops_ok_cursor. constructor.
    + by apply refines_cursor.
Qed.

(** The records listed for a deleted account have distinct targets. *)
Lemma distinct_targets_ok m dseq tseq v did id b recs :
  refines (λ d, Mem.dids m !! d) (tf_of m) (get2 (Mem.links m)) dseq tseq v → v_did v did = Some (id, b) →
  Forall (λ rec, rec.1.1.1 = id ∧ v_fwd v rec.1 = Some rec.2) recs →
  admissible m (DeleteAccount did) → distinct_targets recs.
Proof.
  intros Hr Hdid Hrecs Hadm r1 r2 i H1 H2 Hi1 Hi2.
  assert (Hin : ∀ rec, rec ∈ recs → i ∈ rec.2.*2 → ∃ c rkey p t,
    rec.1 = (id, c, rkey) ∧ (p, t) ∈ get2 (Mem.links m) did (c, rkey) ∧ v_tid v (t, c, p) = Some i).
  { intros [[[id' c] rkey] F] Hrec Hi. destruct (proj1 (Forall_forall _ _) Hrecs _ Hrec) as [Hid HF].
    simpl in *. subst id'. apply list_elem_of_fmap in Hi as ([p i'] & -> & Hi).
    pose proof (rf_fwd _ _ _ _ _ _ Hr _ _ _ c rkey Hdid) as HF2. rewrite HF in HF2. simpl in HF2.
    destruct (Forall2_elem_l _ _ _ _ HF2 Hi) as ([p' t] & [Hp Ht] & Hpt). simpl in *. subst p'.
    by exists c, rkey, p, t. }
  destruct (Hin r1 H1 Hi1) as (c1 & k1 & p1 & t1 & -> & Hl1 & Ht1).
  destruct (Hin r2 H2 Hi2) as (c2 & k2 & p2 & t2 & -> & Hl2 & Ht2).
  pose proof (rf_tid_inj _ _ _ _ _ _ Hr _ _ _ Ht1 Ht2) as [= -> -> ->].
  by rewrite (account_links_distinct m did c2 k1 k2 (p2, t2)).
Qed.

(** A reverse index without the account's links, the rest in place. *)
Lemma cleared_did did (tf tf' : tkey → option Mem.Linkers) k :
  Mem.oholes (tf k) (tf' k) →
  (∀ x, x.1 ≠ did → occ (Some x) (default [] (tf' k)) = occ (Some x) (default [] (tf k))) →
  (∀ rkey, occ (Some (did, rkey)) (default [] (tf' k)) = 0) →
  tf' k = map (Mem.clear_did did) <$> tf k.
Proof.
  intros Hh Hocc Hz. apply Mem.oholes_fmap; [done|]. etrans.
  - apply (Mem.holes_exact (λ x, x.1 = did) _ _ (Mem.oholes_default _ _ Hh)). intros [d rk].
    case_decide as E; simpl in *; [subst; apply Hz|by apply Hocc].
  - by apply map_ext; intros [x|].
Qed.

Lemma delete_account_sim m (r : RocksStorage) dn tn did :
  sim m r dn tn → admissible m (DeleteAccount did) →
  ∃ m' r' batch n,
    Mem.delete_account m did = Ok m' ∧ delete_account r did [] = Ok (r', batch, n) ∧
    sim m' (commit r' batch) dn tn.
Proof.
  intros (Hinv & Hdt & Htt & v & dseq & tseq & Hdn & Htn & Hv & Hwf & Hr) Hadm.
  destruct (Mem.delete_account_inv m did Hinv) as (m' & Em & Hinv').
  destruct (Mem.delete_account_ok m did Hinv) as (ts & Em' & Hts). rewrite Em' in Em. injection Em as <-.
  pose proof (rf_active _ _ _ _ _ _ Hr did) as Hact.
  unfold delete_account. rewrite (read_did _ v) by done. cbn [result_bind].
  destruct (v_did v did) as [[id b]|] eqn:Hdid; simpl in Hact.
  2:{ eexists _, r, [], 0. split_and!; [exact Em'|done|].
      eapply (sim_commit _ _ _ _ dseq tseq v []); try done.
      eapply refines_ext; [| | |exact Hr]; simpl.
      - intros d. rewrite lookup_delete. case_decide; [|done]. by subst.
      - intros [[t c] p]. apply (eq_trans (y := map (Mem.clear_did did) <$> tf_of m (t, c, p))).
        + apply (cleared_did did (tf_of m) (tf_of m)); [reflexivity|done|]. intros rkey.
          by rewrite (mem_links_agree m did Hinv), mem_unknown_empty.
        + symmetry. apply Hts.
      - intros d rk. rewrite Mem.get2_delete. case_decide; [|done]. subst. by apply mem_unknown_empty. }
  pose proof (id_lt_u64 _ (wf_did _ Hwf _ _ _ Hdid)) as Hid.
  destruct (iter_links_ok (db r) v id Hv Hwf Hid) as (Hrecs & Hnd & Hall).
  set (recs := iter_links_for_did_id (db r) id) in *.
  pose proof (distinct_targets_ok m dseq tseq v did id b recs Hr Hdid Hrecs Hadm) as Hdt'.
  unfold delete_chunks. destruct (delete_chunks_ok id (chunks DELETE_CHUNK recs) (db r) v 0)
    as (d' & n' & -> & Hv' & Hwf'); try done.
  all: try rewrite concat_chunks by (unfold DELETE_CHUNK; lia); try done.
  { eapply Forall_impl; [exact Hrecs|]. intros rec [? HF]. split; [done|]. by eapply wf_fwd. }
  rewrite concat_chunks in Hv', Hwf' by (unfold DELETE_CHUNK; lia). cbn [result_bind].
  eexists _, _, _, _. split_and!; [exact Em'|done|].
  destruct (unlink_all _ _ _ did id b recs _ _ v Hr Hdid (mem_links_agree m did Hinv) Hrecs Hnd)
    as (tf' & lf' & Hr' & Hag' & Hh & Hocc & Hlf & Hd').
  assert (Hlf0 : ∀ rk, lf' did rk = []).
  { intros [c rkey]. rewrite Hlf. case_decide as E; [done|].
    pose proof (rf_fwd _ _ _ _ _ _ Hr _ _ _ c rkey Hdid) as HF.
    destruct (v_fwd v (id, c, rkey)) as [F|] eqn:EF; [|by inversion HF]. destruct E. eauto. }
  assert (Hz : ∀ k rkey, occ (Some (did, rkey)) (default [] (tf' k)) = 0).
  { intros [[t c] p] rkey. by rewrite (Hag' t c p rkey), Hlf0. }
  eapply (sim_commit _ _ _ _ dseq tseq (fold_left (unlink_rec id) recs v) [VDelDid did]); try done.
  { by repeat constructor. }
  eapply refines_ext; [| | |apply (step_del_did _ _ _ _ _ _ did Hr')]; simpl.
  - intros d. unfold fupd. rewrite lookup_delete. repeat case_decide; congruence.
  - intros [[t c] p]. etrans; [apply (cleared_did did (tf_of m) tf')|symmetry; apply Hts]; auto.
  - intros d rk. rewrite Mem.get2_delete, Hlf. repeat case_decide; destruct_and?; subst; try done.
    specialize (Hlf0 rk). rewrite Hlf in Hlf0. by rewrite decide_False in Hlf0.
  - intros k L rkey HL. apply occ_zero. specialize (Hz k rkey). by rewrite HL in Hz.
Qed.

(** Some records of an account deleted one by one, in the memory store and in the
    view. *)
Definition delete_records (m : Mem.MemStorageData) (did : string) (keys : list (string * string)) : StoreResult Mem.MemStorageData :=
  foldl_res (λ m rk, Mem.remove_links m (mkRecordId did rk.1 rk.2)) m keys.

Lemma unlink_records did id b dseq tseq recs : ∀ m v,
  Mem.mem_inv m → refines (λ d, Mem.dids m !! d) (tf_of m) (get2 (Mem.links m)) dseq tseq v → v_did v did = Some (id, b) →
  Forall (λ rec, rec.1.1.1 = id ∧ v_fwd v rec.1 = Some rec.2) recs → NoDup recs.*1 →
  ∃ m', delete_records m did (map (λ rec, (rec.1.1.2, rec.1.2)) recs) = Ok m' ∧ Mem.mem_inv m' ∧
    refines (λ d, Mem.dids m' !! d) (tf_of m') (get2 (Mem.links m')) dseq tseq (fold_left (unlink_rec id) recs v).
Proof.
  induction recs as [|[[[id' c] rkey] F] recs IH]; intros m v Hinv Hr Hdid Hrecs Hnd; [by exists m|].
  apply Forall_cons in Hrecs as [[Hid HF] Hrecs]. simpl in Hid, HF. subst id'. apply NoDup_cons in Hnd as [Hnin Hnd]. simpl in Hnin.
  pose proof (step_unlink _ _ _ _ _ v (mkRecordId did c rkey) id b Hr Hdid (mem_links_agree m did Hinv)) as Hr1. simpl in Hr1.
  rewrite HF in Hr1. simpl in Hr1. destruct (unlink_rec_eq id v (id, c, rkey, F)) as [Heq _].
  unfold delete_records. cbn [map foldl_res fst snd fold_left].
  destruct (mem_remove_views m (mkRecordId did c rkey) Hinv) as (m1 & -> & Hinv1 & V1 & V2 & V3). cbn [result_bind].
  apply (IH m1); [done| |by rewrite Heq| |done].
  - eapply refines_ext; [| | |exact Hr1]; intros; by rewrite ?V1, ?V2, ?V3.
  - rewrite Heq. simpl. apply Forall_forall. intros rec Hin. rewrite Forall_forall in Hrecs. destruct (Hrecs rec Hin) as [Hid Hf].
    split; [done|]. rewrite fupd_ne; [done|]. intros E. apply Hnin. rewrite <- E. by apply list_elem_of_fmap_2.
Qed.

(** The memory store that a database found while an event is handled stands
    for: the one before it, from which an account deletion has removed some
    records of the account. *)
Definition passing (m : Mem.MemStorageData) (event : ActionableEvent) (n : nat) (m' : Mem.MemStorageData) : Prop :=
  match event with
  | DeleteAccount did => ∃ keys, NoDup keys ∧ length keys ≤ n * DELETE_CHUNK ∧ delete_records m did keys = Ok m'
  | _ => m' = m
  end.

Lemma concat_take_chunks {A} k n (l : list A) : 0 < n → concat (take k (chunks n l)) = take (k * n) l.
Proof.
  intros Hn. unfold chunks. assert (∀ fuel k l, length l ≤ fuel → concat (take k (chunks_fuel (A := A) fuel n l)) = take (k * n) l) as Hgen; [|by apply Hgen].
  clear k l. induction fuel as [|fuel IH]; intros k [|x l] Hk; rewrite ?take_nil; try (by destruct k); [simpl in Hk; lia|].
  destruct k as [|k]; [done|].
  change (take n (x :: l) ++ concat (take k (chunks_fuel fuel n (drop n (x :: l)))) = take (n + k * n) (x :: l)).
  rewrite IH by (rewrite length_drop; simpl in *; lia). apply take_take_drop.
Qed.

Lemma push_seen_sim m (r : RocksStorage) dn tn event n :
  sim m r dn tn → admissible m event →
  ∃ m' d, push_seen r event n = Ok d ∧ passing m event n m' ∧
    sim m' (mkRocks d (did_id_table r) (target_id_table r) (is_writer r)) dn tn.
Proof.
  intros Hsim Hadm. assert (Hsame : ∃ m' d, (Ok (db r) : StoreResult DB) = Ok d ∧ m' = m ∧
    sim m' (mkRocks d (did_id_table r) (target_id_table r) (is_writer r)) dn tn) by (exists m, (db r); by destruct r).
  destruct event as [rid ls|rid ls|rid|did|did|did]; try exact Hsame. clear Hsame.
  pose proof Hsim as (Hinv & Hdt & Htt & v & dseq & tseq & Hdn & Htn & Hv & Hwf & Hr). simpl push_seen.
  rewrite (read_did _ v) by done. cbn [result_bind]. destruct (v_did v did) as [[id b]|] eqn:Hdid.
  2: { exists m, (db r). split; [done|]. split; [|by destruct r]. exists []. split_and!; [constructor|simpl; lia|done]. }
  pose proof (id_lt_u64 _ (wf_did _ Hwf _ _ _ Hdid)) as Hid.
  destruct (iter_links_ok (db r) v id Hv Hwf Hid) as (Hrecs & Hnd & _). set (recs := iter_links_for_did_id (db r) id) in *.
  pose proof (distinct_targets_ok m dseq tseq v did id b recs Hr Hdid Hrecs Hadm) as Hdt'.
  set (some := take (n * DELETE_CHUNK) recs).
  assert (Hsub : ∀ rec, rec ∈ some → rec ∈ recs) by (intros rec; apply subseteq_take).
  assert (Hsome : concat (take n (chunks DELETE_CHUNK recs)) = some) by (apply concat_take_chunks; unfold DELETE_CHUNK; lia).
  assert (Hnd' : NoDup some.*1).
  { unfold some. rewrite fmap_take. rewrite <- (take_drop (n * DELETE_CHUNK) recs.*1) in Hnd. by apply NoDup_app in Hnd as [? _]. }
  assert (Hrecs' : Forall (λ rec, rec.1.1.1 = id ∧ v_fwd v rec.1 = Some rec.2) some) by (by apply Forall_take).
  unfold delete_chunks. destruct (delete_chunks_ok id (take n (chunks DELETE_CHUNK recs)) (db r) v 0)
    as (d' & n' & -> & Hv' & Hwf'); try done; rewrite ?Hsome; try done.
  { eapply Forall_impl; [exact Hrecs'|]. intros rec [? HF]. split; [done|]. by eapply wf_fwd. }
  { intros r1 r2 i H1 H2. apply Hdt'; auto. }
  rewrite Hsome in Hv', Hwf'. destruct (unlink_records did id b dseq tseq some m v Hinv Hr Hdid Hrecs' Hnd') as (m' & Em & Hinv' & Hr').
  exists m', d'. split; [done|]. split.
  - exists (map (λ rec, (rec.1.1.2, rec.1.2)) some). split_and!; [|rewrite length_map; unfold some; rewrite length_take; lia|done].
    clear -Hnd' Hrecs'. induction Hrecs' as [|rec l [Hid _] Hl IH]; [constructor|]. cbn [map]. apply NoDup_cons in Hnd' as [Hno Hnd].
    constructor; [|by apply IH]. intros (rec' & E & Hin)%list_elem_of_fmap. apply Hno. rewrite Forall_forall in Hl. destruct (Hl rec' Hin) as [Hid' _].
    assert (rec.1 = rec'.1) as ->; [|by apply list_elem_of_fmap_2]. destruct rec as [[[? ?] ?] ?], rec' as [[[? ?] ?] ?]. simpl in *. congruence.
  - split_and!; [done|done|done|]. by exists (fold_left (unlink_rec id) some v), dseq, tseq.
Qed.

(** Every admissible event takes both stores to related stores. *)
Lemma push_sim m (r : RocksStorage) dn tn event (cursor : N) :
  sim m r dn tn → admissible m event →
  (dn + 1 < id_bound)%N → (tn + event_links event < u64_bound)%N →
  ∃ m' r' dn' tn',
    push m event cursor = Ok m' ∧ push r event cursor = Ok r' ∧ sim m' r' dn' tn' ∧
    (dn' ≤ dn + 1)%N ∧ (tn' ≤ tn + event_links event)%N.
Proof.
  intros Hsim Hadm Hb1 Hb2. pose proof Hsim as (Hinv & Hdt & Htt & v & dseq & tseq & Hdn & Htn & Hv & Hwf & Hr).
  simpl. unfold rocks_push. destruct event as [rid ls|rid ls|rid|did|did|did]; simpl in *.
  - destruct Hadm as (Hne & Hnd & Hnil).
    destruct (add_links_sim m r dn tn dseq tseq v [] rid ls cursor) as (r' & batch & dn' & tn' & E & Hd & Ht & Hs);
      try done; [by left|]. simpl in E. rewrite E. simpl. by eexists _, _, dn', tn'.
  - destruct Hadm as (Hnd & Hne). unfold Mem.update_links.
    destruct (mem_remove_views m rid Hinv) as (m1 & -> & Hinv1 & V1 & V2 & V3).
    destruct (remove_links_sim m r dseq tseq v rid [] Hinv Hv Hwf Hr) as (os & -> & Hos & Hvd & Hvt & Hr1).
    destruct (add_links_sim m1 r dn tn dseq tseq v os rid ls cursor) as (r' & batch & dn' & tn' & E & Hd & Ht & Hs);
      try done.
    { eapply refines_ext; [| | |exact Hr1]; intros; by rewrite ?V1, ?V2, ?V3. }
    { by rewrite V3, decide_True. }
    { by rewrite V1. }
    simpl. rewrite E. simpl. by eexists _, _, dn', tn'.
  - destruct (mem_remove_views m rid Hinv) as (m1 & -> & Hinv1 & V1 & V2 & V3).
    destruct (remove_links_sim m r dseq tseq v rid [] Hinv Hv Hwf Hr) as (os & -> & Hos & Hvd & Hvt & Hr1).
    simpl. eexists _, _, dn, tn. split_and!; [done|done| |lia|lia].
    eapply (sim_commit _ _ _ _ dseq tseq v (os ++ [VDefault JETSTREAM_CURSOR_KEY (ser cursor)])); try done.
    + by apply vops_ok_cursor.
    + by rewrite cursor_op, map_app.
    + apply refines_cursor. eapply refines_ext; [| | |exact Hr1]; intros; by rewrite ?V1, ?V2, ?V3.
  - destruct (set_account_sim m r dn tn did true cursor Hsim) as (batch & -> & Hs). simpl.
    eexists _, _, dn, tn. split_and!; [done|done|exact Hs|lia|lia].
  - destruct (set_account_sim m r dn tn did false cursor Hsim) as (batch & -> & Hs). simpl.
    eexists _, _, dn, tn. split_and!; [done|done|exact Hs|lia|lia].
  - destruct (delete_account_sim m r dn tn did Hsim Hadm) as (m' & r' & batch & n & -> & -> & Hs). simpl.
    eexists _, _, dn, tn. split_and!; [done|done|exact Hs|lia|lia].
Qed.

(** A freshly opened, empty database is related to the empty memory store. *)
Lemma open_empty_sim (d : DB) :
  (∀ cf k, db_get_cf d cf k = None) →
  ∃ r, open_readmode d false = Ok r ∧ sim Mem.new r 1 1.
Proof.
  intros Hd. unfold open_readmode, init. rewrite !Hd. simpl. eexists; split; [done|].
  split; [apply Mem.mem_inv_new|]. split; [done|]. split; [done|]. exists empty_view, 1%N, 1%N. split_and!; [done|done| | |].
  - split; simpl; intros *; rewrite Hd; done.
  - split; simpl; done.
  - apply refines_empty.
Qed.

(** A sequence read back from the database never falls behind the ids. *)
Lemma init_seq d v name n :
  has_view (db_get_cf d) v → v_default v (seq_key name) = seq_bytes n → (n + 1 < u64_bound)%N →
  ∃ n', init (db_get_cf d) name = Ok (mkIdTable name n' n') ∧ (n ≤ n' ≤ n + 1)%N.
Proof.
  intros Hv Hs Hn. unfold init. rewrite (hv_default _ _ Hv), Hs. unfold seq_bytes.
  destruct (N.eqb_spec n 1) as [->|Hne].
  - simpl. exists 1%N. split; [done|lia].
  - rewrite u64_le_roundtrip by lia. rewrite u64_add_ok by done. simpl. exists (n + 1)%N. split; [done|lia].
Qed.

(** Closing and opening the database keeps everything. *)
Lemma reopen_sim m (r : RocksStorage) dn tn readonly :
  sim m r dn tn → (dn + 1 < id_bound)%N → (tn + 1 < u64_bound)%N →
  ∃ r' dn' tn', open_readmode (db r) readonly = Ok r' ∧ sim m r' dn' tn' ∧
    (dn' ≤ dn + 1)%N ∧ (tn' ≤ tn + 1)%N.
Proof.
  intros (Hinv & Hdt & Htt & v & dseq & tseq & Hdn & Htn & Hv & Hwf & Hr) Hb1 Hb2.
  destruct (rf_seq _ _ _ _ _ _ Hr) as [Hs1 Hs2]. unfold open_readmode.
  destruct (init_seq (db r) v DID_IDS_CF dseq Hv Hs1) as (dn' & -> & Hdn'); [apply id_lt_u64; lia|].
  destruct (init_seq (db r) v TARGET_IDS_CF tseq Hv Hs2) as (tn' & -> & Htn'); [lia|].
  simpl. eexists _, dn', tn'. split_and!; [done| |lia|lia].
  split_and!; [done|done|done|]. exists v, dseq, tseq. split_and!; [lia|lia|done|done|done].
Qed.

(** ** Sequences of steps *)

(** The writer handles an event with its cursor, or the process restarts. *)
Inductive Step : Type :=
  | Event (event : ActionableEvent) (cursor : N)
  | Reopen.

Definition mem_step (m : Mem.MemStorageData) (st : Step) : StoreResult Mem.MemStorageData :=
  match st with
  | Event event cursor => push m event cursor
  | Reopen => Ok m
  end.

Definition rocks_step (r : RocksStorage) (st : Step) : StoreResult RocksStorage :=
  match st with
  | Event event cursor => push r event cursor
  | Reopen => open_readmode (db r) false
  end.

Definition admissible_step (m : Mem.MemStorageData) (st : Step) : Prop :=
  match st with Event event _ => admissible m event | Reopen => True end.

Fixpoint admissible_run (m : Mem.MemStorageData) (steps : list Step) : Prop :=
  match steps with
  | [] => True
  | st :: steps => admissible_step m st ∧ ∀ m', mem_step m st = Ok m' → admissible_run m' steps
  end.

#[global] Instance admissible_run_dec steps : ∀ m, Decision (admissible_run m steps).
Proof.
  induction steps as [|st steps IH]; intros m; simpl; [apply _|]. apply and_dec.
  - destruct st; simpl; apply _.
  - destruct (mem_step m st) as [m1|] eqn:E.
    + destruct (IH m1) as [H1|H1]; [left|right]; [by intros ? [= <-]|intros H2; by apply H1, H2].
    + by left.
Defined.

(** At most how many target ids the steps use up. *)
Definition total_links (steps : list Step) : N :=
  fold_right (λ st n, match st with Event event _ => event_links event | Reopen => 1 end + n)%N 0%N steps.

Lemma step_sim m (r : RocksStorage) dn tn st :
  sim m r dn tn → admissible_step m st →
  (dn + 1 < id_bound)%N → (tn + total_links [st] < u64_bound)%N →
  ∃ m' r' dn' tn', mem_step m st = Ok m' ∧ rocks_step r st = Ok r' ∧ sim m' r' dn' tn' ∧
    (dn' ≤ dn + 1)%N ∧ (tn' ≤ tn + total_links [st])%N.
Proof.
  intros Hsim Hadm Hb1 Hb2. unfold total_links in *. simpl fold_right in *. rewrite N.add_0_r in *.
  destruct st as [event cursor|].
  - by apply push_sim.
  - destruct (reopen_sim m r dn tn false) as (r' & dn' & tn' & E & Hs & Hd & Ht); try done.
    by exists m, r', dn', tn'.
Qed.

Lemma run_sim steps : ∀ m (r : RocksStorage) dn tn,
  sim m r dn tn → admissible_run m steps →
  (dn + N.of_nat (length steps) < id_bound)%N → (tn + total_links steps < u64_bound)%N →
  ∃ m' r' dn' tn',
    foldl_res mem_step m steps = Ok m' ∧ foldl_res rocks_step r steps = Ok r' ∧ sim m' r' dn' tn'.
Proof.
  induction steps as [|st steps IH]; intros m r dn tn Hsim Hadm Hb1 Hb2.
  { by exists m, r, dn, tn. }
  destruct Hadm as [Hadm Hrest]. simpl length in Hb1. unfold total_links in Hb2. cbn [fold_right] in Hb2.
  fold (total_links steps) in Hb2.
  assert (Hone : total_links [st] = match st with Event event _ => event_links event | Reopen => 1%N end).
  { unfold total_links. cbn [fold_right]. by rewrite N.add_0_r. }
  destruct (step_sim m r dn tn st) as (m1 & r1 & d1 & t1 & E1 & E2 & Hs & Hd & Ht); try done; [lia|lia|].
  cbn [foldl_res]. rewrite E1, E2. cbn [result_bind].
  eapply IH; [exact Hs|by apply Hrest|lia|lia].
Qed.

End Sim.
