(* ===== verification/ConstellationReaders.v ===== *)
(** * constellation: related stores answer alike

    Every query of [LinkReader] on a [RocksStorage] that simulates a
    [MemStorage] returns the same answer as the memory store. *)

From S2P Require Import Prelude RustStr Bytes LinksRecord RocksApi.
From S2P Require Import ConstellationTypes ConstellationMem ConstellationRocks ConstellationRocksView ConstellationRefine.
From S2P Require Import ConstellationUnlink ConstellationSim.
Import Rocks.

(** A linker of the database beside a live entry or a hole. *)
Definition live_rel {A B} (v : view) (did_of : A → string) (f : A → B) (mk : string → string → B)
    (x : N * string) (o : option A) : Prop :=
  match o with
  | None => x.1 = 0%N
  | Some a => (∃ b, v_did v (did_of a) = Some (x.1, b)) ∧ f a = mk (did_of a) x.2
  end.

Lemma Forall2_slice {A B} (R : A → B → Prop) b e l k : Forall2 R l k → Forall2 R (slice b e l) (slice b e k).
Proof. intros H. by apply Forall2_take, Forall2_drop. Qed.

Lemma Forall2_rev' {A B} (R : A → B → Prop) l k : Forall2 R l k → Forall2 R (rev l) (rev k).
Proof. induction 1; simpl; [done|]. apply Forall2_app; auto. Qed.

(** Sets of related elements have the same size when the relation is one to one. *)
Lemma size_list_to_set_rel {A B} `{Countable A, Countable B} (R : A → B → Prop) l k :
  (∀ x y y', R x y → R x y' → y = y') → (∀ x x' y, R x y → R x' y → x = x') →
  Forall2 R l k → size (list_to_set l : gset A) = size (list_to_set k : gset B).
Proof.
  intros HR1 HR2. induction 1 as [|x y l k Hxy Hl IH]; simpl; [done|].
  destruct (decide (x ∈ l)) as [Hx|Hx].
  - destruct (Forall2_elem_l _ _ _ _ Hl Hx) as (y' & Hy & Hyk). assert (y' = y) as -> by eauto.
    rewrite !subseteq_union_1_L by set_solver. done.
  - assert (Hy : y ∉ k).
    { intros Hy. destruct (Forall2_elem_r _ _ _ _ Hl Hy) as (x' & Hx' & Hxl).
      assert (x' = x) as -> by eauto. done. }
    rewrite !size_union, !size_singleton by set_solver. by rewrite IH.
Qed.

Lemma flatten_length {A} (L : list (option A)) : length (Mem.flatten L) ≤ length L.
Proof.
  induction L as [|[a|] L IH]; [done| |].
  - change (Mem.flatten (Some a :: L)) with (a :: Mem.flatten L). simpl. lia.
  - change (Mem.flatten (None :: L)) with (Mem.flatten L). simpl. lia.
Qed.

(** ** Nested result maps *)

(** [out.entry(collection).or_default().insert(path, v)]. *)
Definition insert_path {V} (out : gmap string (gmap string V)) (e : (string * string) * V)
    : gmap string (gmap string V) :=
  <[e.1.1 := <[e.1.2 := e.2]> (default ∅ (out !! e.1.1))]> out.

Lemma insert_path_comm {V} (out : gmap string (gmap string V)) e1 e2 :
  e1.1 ≠ e2.1 → insert_path (insert_path out e1) e2 = insert_path (insert_path out e2) e1.
Proof.
  destruct e1 as [[c1 p1] v1], e2 as [[c2 p2] v2]. unfold insert_path. simpl. intros Hne.
  destruct (decide (c1 = c2)) as [->|Hc].
  - rewrite !lookup_insert_eq, !insert_insert_eq. simpl. f_equal. rewrite insert_insert_ne; [done|]. congruence.
  - rewrite !lookup_insert_ne by done. by rewrite insert_insert_ne by done.
Qed.

Lemma insert_paths_perm {V} (l1 l2 : list ((string * string) * V)) :
  l1 ≡ₚ l2 → NoDup l1.*1 → ∀ out, fold_left insert_path l1 out = fold_left insert_path l2 out.
Proof.
  induction 1 as [|e l1 l2 Hp IH|e1 e2 l|l1 l2 l3 Hp1 IH1 Hp2 IH2]; intros Hnd out; simpl in *; [done| | |].
  - apply NoDup_cons in Hnd as [_ Hnd]. by apply IH.
  - rewrite insert_path_comm; [done|]. apply NoDup_cons in Hnd as [Hnin _]. set_solver.
  - rewrite IH1 by done. apply IH2. by rewrite <- Hp1.
Qed.

Lemma by_collection_fold {V W} (f : W → V) l :
  Mem.by_collection f l = fold_left insert_path (prod_map id f <$> l) ∅.
Proof.
  unfold Mem.by_collection. generalize (∅ : gmap string (gmap string V)).
  induction l as [|[[c p] w] l IH]; intros out; simpl; [done|]. by rewrite IH.
Qed.

(** Two enumerations of the same entries give the same result. *)
Lemma by_collection_eq {V W1 W2} (f1 : W1 → V) (f2 : W2 → V) l1 l2 :
  NoDup l1.*1 → NoDup l2.*1 → prod_map id f1 <$> l1 ≡ₚ prod_map id f2 <$> l2 →
  Mem.by_collection f1 l1 = Mem.by_collection f2 l2.
Proof.
  intros H1 H2 Hp. rewrite !by_collection_fold. apply insert_paths_perm; [done|].
  rewrite <- list_fmap_compose. by rewrite (list_fmap_ext _ fst l1) by done.
Qed.

Section Readers.
Context `{BL : BincodeLaws} `{RL : @RocksDbLaws RD merge_op}.
Context (m : Mem.MemStorageData) (r : RocksStorage) (dseq tseq : N) (v : view).
Context (Hinv : Mem.mem_inv m) (Hv : has_view (db_get_cf (db r)) v) (Hwf : view_wf v).
Context (Hr : refines (λ d, Mem.dids m !! d) (tf_of m) (get2 (Mem.links m)) dseq tseq v).

Lemma known_did did id b : v_did v did = Some (id, b) →
  (0 < id < id_bound)%N ∧ v_rev v id = Some did ∧ Mem.dids m !! did = Some b.
Proof.
  intros Hd. destruct (rf_did _ _ _ _ _ _ Hr _ _ _ Hd) as [Hid Hrev].
  pose proof (rf_bounds _ _ _ _ _ _ Hr) as [Hb _].
  rewrite <- (rf_active _ _ _ _ _ _ Hr), Hd. split; [lia|done].
Qed.

Lemma count_live {A B} did_of f mk l (L : list (option A)) :
  Forall2 (live_rel (B := B) v did_of f mk) l L →
  count l = (Mem.lenN (Mem.flatten L), Mem.lenN L - Mem.lenN (Mem.flatten L))%N.
Proof.
  intros HL. assert (length (filter (λ x : N * string, x.1 ≠ 0%N) l) = length (Mem.flatten L)) as E.
  { induction HL as [|x o l L Ho HL IH]; [done|]. rewrite filter_cons. destruct o as [a|]; simpl in Ho.
    - destruct Ho as [[b Hb] _]. apply known_did in Hb as [? _]. rewrite decide_True by lia.
      change (Mem.flatten (Some a :: L)) with (a :: Mem.flatten L). simpl. by rewrite IH.
    - rewrite decide_False by lia. exact IH. }
  unfold count, Mem.lenN. rewrite E, (Forall2_length _ _ _ HL). done.
Qed.

Lemma resolve_live {A B} did_of f mk l (L : list (option A)) :
  Forall2 (live_rel (B := B) v did_of f mk) l L →
  resolve_linkers (db_get_cf (db r)) mk l =
    Ok (map f (filter (λ a, Mem.dids m !! did_of a = Some true) (Mem.flatten L))).
Proof.
  induction 1 as [|x o l L Ho HL IH]; [done|]. destruct x as [id rkey]. cbn [resolve_linkers].
  destruct o as [a|]; simpl in Ho.
  - destruct Ho as [[b Hb] Hf]. pose proof (known_did _ _ _ Hb) as (Hid & Hrev & Hact).
    destruct (N.eqb_spec id 0) as [?|_]; [lia|]. rewrite (read_rev _ v) by (done || lia). rewrite Hrev. cbn [result_bind].
    rewrite (read_did _ v) by done. rewrite Hb. cbn [result_bind]. rewrite IH. cbn [result_bind].
    change (Mem.flatten (Some a :: L)) with (a :: Mem.flatten L). rewrite filter_cons, Hact.
    destruct b; [rewrite decide_True by done; simpl; by rewrite Hf|by rewrite decide_False].
  - subst. simpl. exact IH.
Qed.

Lemma paged_live {A B} did_of (f : A → B) mk l (L : list (option A)) limit cur :
  Forall2 (live_rel v did_of f mk) l L → (∀ a, Some a ∈ L → is_Some (Mem.dids m !! did_of a)) →
  rocks_paged (db_get_cf (db r)) mk l limit cur =
    (p ←? Mem.paged m did_of L limit cur; Ok (Mem.page_map f p)).
Proof.
  intros HL Hk. rewrite Mem.paged_ok by done. unfold rocks_paged. rewrite (count_live _ _ _ _ _ HL).
  assert (Hle : (Mem.lenN (Mem.flatten L) ≤ Mem.lenN L)%N).
  { unfold Mem.lenN. pose proof (flatten_length L). lia. }
  replace (Mem.lenN (Mem.flatten L) + (Mem.lenN L - Mem.lenN (Mem.flatten L)))%N with (Mem.lenN L) by lia.
  rewrite (resolve_live did_of f mk _ (rev (slice (page_begin (page_end (Mem.lenN L) cur) limit)
    (page_end (Mem.lenN L) cur) L))) by (by apply Forall2_rev', Forall2_slice).
  done.
Qed.

(** Duplicates of an account are dropped at the same places. *)
Lemma zero_duplicates_live l (L : Mem.Linkers) : ∀ seen seen',
  Forall2 (entry_rel v) l L →
  (∀ did id b, v_did v did = Some (id, b) → id ∈ seen ↔ did ∈ seen') →
  Forall2 (live_rel v id id (λ did _, did)) (zero_duplicates seen l) (Mem.dedup_dids seen' L).
Proof.
  intros seen seen' HL; revert seen seen'. induction HL as [|[id rkey] o l L Ho HL IH]; intros seen seen' Hs; [constructor|].
  cbn [zero_duplicates Mem.dedup_dids]. destruct o as [[did rk]|]; simpl in Ho.
  - destruct Ho as [-> [b Hb]]. specialize (Hs did id b Hb) as Hin.
    destruct (decide (id ∈ seen)) as [Hi|Hi], (decide (did ∈ seen')) as [Hd|Hd]; try (exfalso; tauto).
    + constructor; [done|]. by apply IH.
    + constructor; [by split; [exists b|]|]. apply IH. intros did' id' b' Hd'.
      rewrite !elem_of_union, !elem_of_singleton, (Hs did' id' b' Hd').
      enough (id' = id ↔ did' = did) by tauto. split; [|naive_solver]. intros ->. by eapply rf_did_inj.
  - subst id. destruct (decide (0%N ∈ seen)); constructor; try done; apply IH; [done|].
    intros did' id' b' Hd'. rewrite elem_of_union, elem_of_singleton, (Hs did' id' b' Hd').
    apply known_did in Hd' as [? _]. split; [intros [?|?]; [lia|done]|by right].
Qed.

Lemma entry_live c l (L : Mem.Linkers) :
  Forall2 (entry_rel v) l L →
  Forall2 (live_rel v fst (λ x, mkRecordId x.1 c x.2) (λ did rkey, mkRecordId did c rkey)) l L.
Proof.
  intros HL. eapply Forall2_impl; [exact HL|]. intros x [[did rkey]|]; simpl; [|done]. by intros [-> ?].
Qed.

Lemma count_distinct_live l (L : Mem.Linkers) :
  Forall2 (entry_rel v) l L → count_distinct_dids l = Mem.distinct_count (Mem.flatten L).*1.
Proof.
  intros HL. unfold count_distinct_dids, Mem.distinct_count. f_equal.
  apply (size_list_to_set_rel (λ id did, ∃ b, v_did v did = Some (id, b))).
  - intros id did did' [b Hb] [b' Hb']. by eapply rf_did_inj.
  - intros id id' did [b Hb] [b' Hb']. congruence.
  - induction HL as [|[id rkey] o l L Ho HL IH]; [constructor|]. rewrite fmap_cons, filter_cons. simpl fst.
    destruct o as [[did rk]|]; simpl in Ho.
    + destruct Ho as [_ [b Hb]]. destruct (known_did _ _ _ Hb) as [? _]. rewrite decide_True by lia.
      change (Mem.flatten (Some (did, rk) :: L)) with ((did, rk) :: Mem.flatten L). rewrite fmap_cons.
      constructor; [by exists b|done].
    + rewrite decide_False by lia. exact IH.
Qed.

(** What a target's id leads to. *)
Lemma target_cases t c p :
  (target_id_of r t c p = Ok None ∧ Mem.linkers_at m t c p = None) ∨
  ∃ i L, target_id_of r t c p = Ok (Some i) ∧ Mem.linkers_at m t c p = Some L ∧
    get_target_linkers (db_get_cf (db r)) i = Ok (default [] (v_link v i)) ∧
    Forall2 (entry_rel v) (default [] (v_link v i)) L.
Proof.
  unfold target_id_of. rewrite (read_tid _ v) by done.
  pose proof (rf_known _ _ _ _ _ _ Hr (t, c, p)) as Hk. pose proof (rf_link _ _ _ _ _ _ Hr (t, c, p)) as Hl.
  unfold tf_of in *. simpl in Hk, Hl.
  destruct (v_tid v (t, c, p)) as [i|] eqn:Ei, (Mem.linkers_at m t c p) as [L|] eqn:EL.
  - right. exists i, L. split_and!; [done|done| |by apply Hl].
    apply read_link; [done|done|]. by eapply wf_tid.
  - destruct (proj1 Hk); [by eexists|done].
  - destruct (proj2 Hk); [by eexists|done].
  - by left.
Qed.

Lemma get_count_sim t c p : get_count r t c p = get_count m t c p.
Proof.
  simpl. unfold rocks_get_count, Mem.mem_get_count.
  destruct (target_cases t c p) as [[-> ->]|(i & L & -> & -> & HL & Hent)]; [done|]. cbn [result_bind].
  rewrite HL. cbn [result_bind]. by rewrite (count_live _ _ _ _ _ (entry_live c _ _ Hent)).
Qed.

Lemma get_distinct_did_count_sim t c p : get_distinct_did_count r t c p = get_distinct_did_count m t c p.
Proof.
  simpl. unfold rocks_get_distinct_did_count, Mem.mem_get_distinct_did_count.
  destruct (target_cases t c p) as [[-> ->]|(i & L & -> & -> & HL & Hent)]; [done|]. cbn [result_bind].
  rewrite HL. cbn [result_bind]. by rewrite (count_distinct_live _ _ Hent).
Qed.

Lemma get_links_sim t c p limit cur : get_links r t c p limit cur = get_links m t c p limit cur.
Proof.
  simpl. unfold rocks_get_links, Mem.mem_get_links.
  destruct (target_cases t c p) as [[-> ->]|(i & L & -> & EL & HL & Hent)]; [done|]. cbn [result_bind].
  rewrite EL, HL. cbn [result_bind].
  rewrite (paged_live fst (λ x, mkRecordId x.1 c x.2) _ _ L); [done|by apply entry_live|].
  intros x Hx. by eapply Mem.inv_linkers_known.
Qed.

Lemma dedup_elem L : ∀ seen did, Some did ∈ Mem.dedup_dids seen L → ∃ rkey, Some (did, rkey) ∈ L.
Proof.
  induction L as [|[[d rk]|] L IH]; intros seen did; simpl.
  - by intros ?%not_elem_of_nil.
  - case_decide; intros [E|Hin]%elem_of_cons; simplify_eq.
    + destruct (IH _ _ Hin) as [rk' ?]. exists rk'. by right.
    + exists rk. by left.
    + destruct (IH _ _ Hin) as [rk' ?]. exists rk'. by right.
  - intros [E|Hin]%elem_of_cons; [done|]. destruct (IH _ _ Hin) as [rk' ?]. exists rk'. by right.
Qed.

Lemma get_distinct_dids_sim t c p limit cur : get_distinct_dids r t c p limit cur = get_distinct_dids m t c p limit cur.
Proof.
  simpl. unfold rocks_get_distinct_dids, Mem.mem_get_distinct_dids, get_distinct_target_linkers.
  destruct (target_cases t c p) as [[-> ->]|(i & L & -> & EL & HL & Hent)]; [done|]. cbn [result_bind].
  rewrite EL, HL. cbn [result_bind].
  assert (Hk : ∀ a, Some a ∈ Mem.dedup_dids ∅ L → is_Some (Mem.dids m !! id a)).
  { intros a [rk Hin]%dedup_elem. by apply (Mem.inv_linkers_known m t c p L (a, rk)). }
  rewrite (paged_live id id _ _ (Mem.dedup_dids ∅ L)); [|apply zero_duplicates_live; [done|set_solver]|done].
  rewrite Mem.paged_ok by done. cbn [result_bind]. unfold Mem.page_map. simpl. by rewrite list_fmap_id.
Qed.

(** Iterating over the sources of a target. *)
Lemma iter_targets_ok target :
  let l := iter_targets_for_target (db r) target in
  Forall (λ e, e.1.1.1 = target ∧ v_tid v e.1 = Some e.2) l ∧ NoDup l.*1 ∧
  (∀ c p i, v_tid v (target, c, p) = Some i → ((target, c, p), i) ∈ l).
Proof.
  intros l. unfold l, iter_targets_for_target. set (raw := db_prefix_iter (db r) TARGET_IDS_CF (ser target)).
  pose (P := λ e : (string * string * string) * N, e.1.1.1 = target ∧ v_tid v e.1 = Some e.2).
  assert (Hl : Forall (λ e, ∃ x, P x ∧ e = (ser x.1, ser x.2)) raw).
  { apply Forall_forall. intros [k w] Hin. apply db_prefix_iter_spec in Hin as [Hg Hp].
    destruct (hv_tid_keys _ _ Hv _ _ Hg) as (kk & ->). rewrite (hv_tid _ _ Hv) in Hg.
    destruct (v_tid v kk) as [i|] eqn:Ei; simpl in Hg; [|done]. injection Hg as <-. exists (kk, i).
    split; [|done]. split; simpl; [|done]. destruct kk as [[t c] p]. simpl. symmetry.
    by apply (prefix_target_key target t c p). }
  assert (HP : ∀ x, P x → de (ser x.1) = Some x.1 ∧ de (ser x.2) = Some x.2).
  { intros [k i] [_ Hi]. simpl in *. split; [apply rt_target_key|]. apply rt_u64. by eapply wf_tid. }
  destruct (decode_while_ok P raw HP Hl) as [Heq HPs]. split_and!; [exact HPs| |].
  - pose proof (db_prefix_iter_NoDup (db r) TARGET_IDS_CF (ser target)) as Hnd. fold raw in Hnd. rewrite Heq in Hnd.
    rewrite <- list_fmap_compose in Hnd. apply (NoDup_fmap_1 ser). by rewrite <- list_fmap_compose.
  - intros c p i Hi.
    assert (Hin : (ser (target, c, p), ser i) ∈ raw).
    { apply db_prefix_iter_spec. rewrite (hv_tid _ _ Hv), Hi. split; [done|]. by apply prefix_target_key. }
    rewrite Heq in Hin. apply list_elem_of_fmap in Hin as ([k j] & E & Hx). injection E as E1 E2.
    destruct (proj1 (Forall_forall _ _) HPs _ Hx) as [_ Hj]. simpl in *.
    apply ser_target_key_inj in E1 as <-. rewrite Hi in Hj. by injection Hj as <-.
Qed.

Lemma all_by_collection_ok {V} (f : list (N * string) → V) l :
  Forall (λ e, e.2 < u64_bound)%N l →
  all_by_collection (db_get_cf (db r)) f l =
    Ok (Mem.by_collection f (map (λ e, ((e.1.1.2, e.1.2), default [] (v_link v e.2))) l)).
Proof.
  intros Hl. unfold all_by_collection, Mem.by_collection. generalize (∅ : gmap string (gmap string V)).
  induction Hl as [|e l He Hl IH]; intros out; [done|]. cbn [foldl_res map fold_left].
  rewrite (read_link _ v) by done. cbn [result_bind]. rewrite IH. done.
Qed.

(** The entries of a target in both stores. *)
Lemma all_counts_sim {V} (f : list (N * string) → V) (f' : Mem.Linkers → V) target :
  (∀ l L, Forall2 (entry_rel v) l L → f l = f' L) →
  all_by_collection (db_get_cf (db r)) f (iter_targets_for_target (db r) target) =
  Ok (match Mem.targets m !! target with
      | Some sources => Mem.by_collection f' (map_to_list sources)
      | None => ∅
      end).
Proof.
  intros Hf. destruct (iter_targets_ok target) as (Hall & Hnd & Hin).
  set (l := iter_targets_for_target (db r) target) in *.
  rewrite all_by_collection_ok; [f_equal|].
  2:{ eapply Forall_impl; [exact Hall|]. intros e [_ He]. by eapply wf_tid. }
  transitivity (Mem.by_collection f' (map_to_list (default ∅ (Mem.targets m !! target))));
    [|by destruct (Mem.targets m !! target)].
  assert (Hkeys : NoDup (map (λ e : (string * string * string) * N,
      ((e.1.1.2, e.1.2), default [] (v_link v e.2))) l).*1).
  { rewrite <- list_fmap_compose. apply (NoDup_fmap_1 (λ cp : string * string, (target, cp.1, cp.2))).
    rewrite <- list_fmap_compose. rewrite (list_fmap_ext _ fst l); [done|]. intros ? e He%list_elem_of_lookup_2.
    destruct (proj1 (Forall_forall _ _) Hall e He) as [<- _]. by destruct e as [[[??]?]?]. }
  pose proof (NoDup_fst_map_to_list (M := gmap _) (default ∅ (Mem.targets m !! target))) as Hkeys2.
  apply by_collection_eq; [exact Hkeys|exact Hkeys2|].
  assert (Hfst : ∀ {K W} (g : W → V) (k : list (K * W)), NoDup k.*1 → NoDup (prod_map id g <$> k)).
  { intros K W g k Hk. apply (NoDup_fmap_1 fst). rewrite <- list_fmap_compose.
    by rewrite (list_fmap_ext _ fst k) by done. }
  apply NoDup_Permutation; [by apply Hfst|by apply Hfst|].
  intros [[c p] y]. rewrite !list_elem_of_fmap. split.
  - intros ([[c' p'] w] & E & (([[t c2] p2] & i) & E2 & He)%list_elem_of_fmap). simplify_eq/=.
    destruct (proj1 (Forall_forall _ _) Hall _ He) as [Ht Hi]. simpl in Ht, Hi. subst t.
    destruct (proj1 (rf_known _ _ _ _ _ _ Hr (target, c2, p2))) as [L HL]; [by eexists|].
    pose proof (rf_link _ _ _ _ _ _ Hr _ _ _ Hi HL) as Hent.
    exists ((c2, p2), L). unfold prod_map. simpl. rewrite (Hf _ _ Hent). split; [done|].
    apply elem_of_map_to_list. unfold tf_of, Mem.linkers_at in HL. simpl in HL. by destruct (Mem.targets m !! target).
  - intros ([[c' p'] L] & E & HL%elem_of_map_to_list). simplify_eq/=.
    assert (HL' : tf_of m (target, c', p') = Some L).
    { unfold tf_of, Mem.linkers_at. simpl. by destruct (Mem.targets m !! target). }
    destruct (proj2 (rf_known _ _ _ _ _ _ Hr (target, c', p'))) as [i Hi]; [by eexists|].
    pose proof (rf_link _ _ _ _ _ _ Hr _ _ _ Hi HL') as Hent.
    exists ((c', p'), default [] (v_link v i)). unfold prod_map. simpl. rewrite (Hf _ _ Hent). split; [done|].
    apply list_elem_of_fmap. exists ((target, c', p'), i). split; [done|]. by apply Hin.
Qed.

Lemma get_all_record_counts_sim target : get_all_record_counts r target = get_all_record_counts m target.
Proof.
  simpl. unfold rocks_get_all_record_counts, Mem.mem_get_all_record_counts.
  rewrite (all_counts_sim _ (λ L, Mem.lenN (Mem.flatten L))); [done|].
  intros l L Hent. by rewrite (count_live _ _ _ _ _ (entry_live "" _ _ Hent)).
Qed.

Lemma get_all_counts_sim target : get_all_counts r target = get_all_counts m target.
Proof.
  simpl. unfold rocks_get_all_counts, Mem.mem_get_all_counts.
  rewrite (all_counts_sim _ Mem.mem_counts); [done|].
  intros l L Hent. unfold Mem.mem_counts.
  by rewrite (count_live _ _ _ _ _ (entry_live "" _ _ Hent)), (count_distinct_live _ _ Hent).
Qed.

End Readers.
