(* ===== verification/ConstellationContract.v ===== *)
(** * constellation: what the RocksDB store promises

    The contract between the store, the consumer that writes it and the server
    that reads it: any history of admissible events and restarts leaves a store
    that answers like [MemStorage]; the cursor of the last event is durable;
    the merge operator can be applied in any grouping.  The last section shows
    that the conditions of [admissible] are needed: outside of them the two
    stores give different answers. *)

From S2P Require Import Prelude RustStr Bytes LinksRecord RocksApi.
From S2P Require Import ConstellationTypes ConstellationMem ConstellationRocks ConstellationRocksView ConstellationRefine.
From S2P Require Import ConstellationUnlink ConstellationSim ConstellationReaders.
Import Rocks.

(** Two stores that no client can tell apart through the link queries. *)
Definition same_answers {S1 S2} `{LinkReader S1, LinkReader S2} (s1 : S1) (s2 : S2) : Prop :=
  ∀ target collection path limit cur,
    get_count s1 target collection path = get_count s2 target collection path ∧
    get_distinct_did_count s1 target collection path = get_distinct_did_count s2 target collection path ∧
    get_links s1 target collection path limit cur = get_links s2 target collection path limit cur ∧
    get_distinct_dids s1 target collection path limit cur = get_distinct_dids s2 target collection path limit cur ∧
    get_all_record_counts s1 target = get_all_record_counts s2 target ∧
    get_all_counts s1 target = get_all_counts s2 target.

Module Contract.
Section Contract.
Context `{BL : BincodeLaws} `{RL : @RocksDbLaws RD merge_op}.

Lemma sim_same_answers m (r : RocksStorage) dn tn : sim m r dn tn → same_answers r m.
Proof.
  intros (Hinv & _ & _ & v & dseq & tseq & _ & _ & Hv & Hwf & Hr) target collection path limit cur.
  split_and!.
  - by eapply get_count_sim.
  - by eapply get_distinct_did_count_sim.
  - by eapply get_links_sim.
  - by eapply get_distinct_dids_sim.
  - by eapply get_all_record_counts_sim.
  - by eapply get_all_counts_sim.
Qed.

(** C2. Refinement: on a database that starts empty, any sequence of admissible
    events and restarts succeeds on [RocksStorage], and afterwards every link
    query answers exactly as on a [MemStorage] that saw the same events. *)
Theorem rocks_implements_mem (d : DB) steps :
  (∀ cf k, db_get_cf d cf k = None) → admissible_run Mem.new steps →
  (1 + N.of_nat (length steps) < id_bound)%N → (1 + total_links steps < u64_bound)%N →
  ∃ r0 r m, open_readmode d false = Ok r0 ∧ foldl_res rocks_step r0 steps = Ok r ∧
    foldl_res mem_step Mem.new steps = Ok m ∧ same_answers r m.
Proof.
  intros Hd Hadm Hb1 Hb2. destruct (open_empty_sim d Hd) as (r0 & E0 & Hs0).
  destruct (run_sim steps _ _ _ _ Hs0 Hadm Hb1 Hb2) as (m & r & dn & tn & Em & Er & Hs).
  exists r0, r, m. split_and!; try done. by eapply sim_same_answers.
Qed.

(** Durability: once an event other than an account deletion is pushed, the
    database holds its cursor, in the same batch as its links, so that a
    restarted consumer resumes there. *)
Lemma rocks_push_cursor (r r' : RocksStorage) event (cursor : N) :
  (cursor < u64_bound)%N → (∀ did, event ≠ DeleteAccount did) →
  push r event cursor = Ok r' →
  get_cursor r' = Ok (Some cursor).
Proof.
  intros Hc Hev Hp. simpl in *. unfold rocks_push in Hp.
  assert (∃ r1 batch, r' = commit r1 (batch ++ [Put DEFAULT_CF JETSTREAM_CURSOR_KEY (ser cursor)])) as (r1 & batch & ->).
  { destruct (push_batch r event) as [[[r1 batch]|]|] eqn:E; simpl in Hp; try done.
    - destruct event; simplify_eq; eauto.
    - destruct event; simpl in E; try by destruct (Hev _ eq_refl).
      all: unfold result_bind in E; repeat case_match; simplify_eq. }
  unfold rocks_get_cursor, commit. simpl. rewrite db_get_write, apply_ops_app. unfold apply_ops at 1. simpl.
  unfold decode_value. by rewrite rt_u64.
Qed.

(** A list of linkers that [bincode] represents: ids are 64 bits wide. *)
Definition linkers_wf (l : list (N * string)) : Prop := Forall (λ x, (x.1 < u64_bound)%N) l.

(** The merge operator appends: merging serialised operand lists onto an
    existing list gives the concatenation, and merging in two rounds gives the
    same bytes as merging at once, as RocksDB's full and repeated merges need. *)
Theorem merge_op_groups (existing : option (list (N * string))) (ops1 ops2 : list (list (N * string))) :
  linkers_wf (default [] existing) → Forall linkers_wf ops1 → Forall linkers_wf ops2 →
  merge_op_extend_did_ids (ser <$> existing) (map ser (ops1 ++ ops2)) =
    Some (ser (default [] existing ++ concat (ops1 ++ ops2))) ∧
  merge_op_extend_did_ids (merge_op_extend_did_ids (ser <$> existing) (map ser ops1)) (map ser ops2) =
    merge_op_extend_did_ids (ser <$> existing) (map ser (ops1 ++ ops2)).
Proof.
  intros He H1 H2.
  assert (Hm : ∀ ex ops, linkers_wf (default [] ex) → Forall linkers_wf ops →
    merge_op_extend_did_ids (ser <$> ex) (map ser ops) = Some (ser (default [] ex ++ concat ops))).
  { intros ex ops Hex Hops. unfold merge_op_extend_did_ids. do 2 f_equal.
    assert (match ser <$> ex with Some b => default [] (de b) | None => [] end = default [] ex) as ->.
    { destruct ex; simpl; [by rewrite rt_target_linkers|done]. }
    generalize (default [] ex). induction Hops as [|o ops Ho Hops IH]; intros l; simpl; [by rewrite app_nil_r|].
    rewrite rt_target_linkers by done. simpl. by rewrite IH, <- app_assoc. }
  assert (Hw : linkers_wf (default [] existing ++ concat ops1)).
  { apply Forall_app. split; [done|]. by apply Forall_concat. }
  split; [apply Hm; [done|by apply Forall_app]|].
  rewrite (Hm existing ops1) by done. rewrite (Hm existing (ops1 ++ ops2)) by (done || by apply Forall_app).
  etrans; [exact (Hm (Some (default [] existing ++ concat ops1)) ops2 Hw H2)|].
  simpl. by rewrite concat_app, <- app_assoc.
Qed.
End Contract.

(** ** Concrete runs *)

#[local] Existing Instance Reference.ref_bincode.
Definition ref_db : RocksDb := Reference.ref_rocksdb merge_op.
#[local] Existing Instance ref_db.

Definition empty_db : DB := (∅ : gmap (string * string) string).
Definition link_to (path target : string) : Links.CollectedLink :=
  Links.mkCollectedLink path (Links.Uri target).
Definition post (did rkey : string) : RecordId := mkRecordId did "c" rkey.

Definition sample_steps : list Step :=
  [Event (CreateLinks (post "d1" "a") [link_to ".x" "t"; link_to ".y" "t"]) 1;
   Event (CreateLinks (post "d2" "a") [link_to ".x" "t"]) 2;
   Reopen;
   Event (UpdateLinks (post "d1" "a") [link_to ".x" "t"; link_to ".z" "u"]) 3;
   Event (DeactivateAccount "d2") 4;
   Event (DeleteRecord (post "d3" "a")) 5;
   Event (DeleteAccount "d1") 6].

(** Run on both stores and query the count of one source. *)
Definition counts_after (steps : list Step) (target collection path : string) : StoreResult N * StoreResult N :=
  (r0 ←? open_readmode empty_db false; r ←? foldl_res rocks_step r0 steps; get_count r target collection path,
   m ←? foldl_res mem_step Mem.new steps; get_count m target collection path).

Lemma rocks_implements_mem_witness :
  ∃ r0 r m, open_readmode empty_db false = Ok r0 ∧ foldl_res rocks_step r0 sample_steps = Ok r ∧
    foldl_res mem_step Mem.new sample_steps = Ok m ∧ same_answers r m.
Proof.
  apply (@rocks_implements_mem Reference.ref_bincode Reference.ref_bincode_laws ref_db
           (Reference.ref_rocksdb_laws merge_op) empty_db sample_steps).
  - intros cf k. apply lookup_empty.
  - apply (bool_decide_unpack (admissible_run Mem.new sample_steps)). vm_compute. exact I.
  - reflexivity.
  - reflexivity.
Defined.

(** A store that was just created. *)
Definition fresh_rocks : RocksStorage :=
  mkRocks empty_db (mkIdTable DID_IDS_CF 1 1) (mkIdTable TARGET_IDS_CF 1 1) true.

Lemma merge_op_groups_witness :
  merge_op_extend_did_ids (merge_op_extend_did_ids (Some (ser [(2%N, "a")])) [ser [(3%N, "b")]]) [ser [(2%N, "c")]] =
  merge_op_extend_did_ids (Some (ser [(2%N, "a")])) [ser [(3%N, "b")]; ser [(2%N, "c")]].
Proof.
  apply (@merge_op_groups Reference.ref_bincode Reference.ref_bincode_laws
           (Some [(2%N, "a")]) [[(3%N, "b")]] [[(2%N, "c")]]); repeat constructor.
Defined.

(** ** Where the stores differ *)

(** A record that links the same target twice at one path (as two elements
    of an array do) is counted once by [RocksStorage]: the second link does not
    see the id that the batch is about to create for the first one, takes a new
    id, and the linkers under the first id become unreachable. *)
Theorem rocks_duplicate_link_lost :
  counts_after [Event (CreateLinks (post "d1" "a") [link_to ".x[]" "t"; link_to ".x[]" "t"]) 1] "t" "c" ".x[]" =
  (Ok 1%N, Ok 2%N).
Proof. vm_compute. reflexivity. Qed.

(** When the target is already known, deleting a record that links it twice
    at one path takes out only one of its two linkers: both removals are
    computed from the list before the batch, and the second write repeats the
    first. *)
Theorem rocks_duplicate_link_left_behind :
  counts_after [Event (CreateLinks (post "d1" "b") [link_to ".x[]" "t"]) 1;
                Event (CreateLinks (post "d1" "a") [link_to ".x[]" "t"; link_to ".x[]" "t"]) 2;
                Event (DeleteRecord (post "d1" "a")) 3] "t" "c" ".x[]" =
  (Ok 2%N, Ok 1%N).
Proof. vm_compute. reflexivity. Qed.

(** Deleting an account whose records link one target from one path (two
    likes of one post) leaves a link behind in [RocksStorage]: within a chunk
    every removal reads the list before the chunk, so that the last write of
    the list puts back what the other removals took out. *)
Theorem rocks_delete_account_lost_update :
  counts_after [Event (CreateLinks (post "d1" "a") [link_to ".x" "t"]) 1;
                Event (CreateLinks (post "d1" "b") [link_to ".x" "t"]) 2;
                Event (DeleteAccount "d1") 3] "t" "c" ".x" =
  (Ok 1%N, Ok 0%N).
Proof. vm_compute. reflexivity. Qed.

End Contract.
