(* ===== verification/ConstellationBytes.v ===== *)
(** * constellation: the bytes of the RocksDB store (storage/rocks_store.rs)

    The structs of the store are serialised by bincode, field after field, and
    three scans of the store rely on the bytes: a serialised [DidId] must be a
    prefix of exactly the [RecordLinkKey]s that start with it, a serialised
    [Target] of exactly its [TargetKey]s, and a key of the forward direction of
    an id table must not be one of the reverse direction.  The source asks of
    the first whether it works.  Here the codecs of the structs are composed as
    their derived implementations compose them, from bincode's variable-length
    integers as a parameter, and all the laws the model of the store assumes of
    bincode ([BincodeLaws]) are proved from two facts about these integers. *)

From S2P Require Import Prelude RustStr Bytes LinksRecord RocksApi.
From S2P Require Import ConstellationTypes ConstellationMem ConstellationRocks ConstellationRocksView ConstellationRefine.
From S2P Require Import ConstellationUnlink ConstellationSim ConstellationReaders ConstellationContract.
Import Rocks.

Module Wire.

(** ** bincode's integers *)

(** What [DefaultOptions] writes for a [u64] and for a length, and reads back
    from the front of its input. *)
Class Varint := {
  put_uint : N → string;
  get_uint : string → option (N * string)
}.

(** An integer is read back whatever follows it; zero is one byte, as is every
    integer up to 250. *)
Class VarintLaws `{Varint} := {
  get_put_uint (n : N) rest : get_uint (put_uint n +:+ rest) = Some (n, rest);
  put_uint_zero : put_uint 0 = String "000"%char ""
}.

(** ** Derived codecs *)

(** [Serialize] and [Deserialize]: write, and read from the front of the input. *)
Class Serde (A : Type) := {
  put : A → string;
  get : string → option (A * string)
}.
Class SerdeLaws (A : Type) `{Serde A} := get_put (a : A) rest : get (put a +:+ rest) = Some (a, rest).

Section Serde.
Context `{VL : VarintLaws}.

#[export] Instance u64_serde : Serde N := {| put := put_uint; get := get_uint |}.
#[export] Instance u64_serde_laws : SerdeLaws N.
Proof. intros n rest. apply get_put_uint. Qed.

(** A [bool] is a byte. *)
#[export] Instance bool_serde : Serde bool := {|
  put (b : bool) := String (if b then "001"%char else "000"%char) "";
  get s := match s with
    | String c rest => if decide (c = "000"%char) then Some (false, rest) else if decide (c = "001"%char) then Some (true, rest) else None
    | EmptyString => None
    end
|}.
#[export] Instance bool_serde_laws : SerdeLaws bool.
Proof. by intros [] rest. Qed.

(** A string is its length and its bytes. *)
Fixpoint split_at (n : nat) (s : string) : option (string * string) :=
  match n, s with
  | O, _ => Some ("", s)
  | S n, String c s => '(a, rest) ← split_at n s; Some (String c a, rest)
  | S _, EmptyString => None
  end.
Lemma split_at_app a rest : split_at (String.length a) (a +:+ rest) = Some (a, rest).
Proof. induction a as [|c a IH]; [done|]. rewrite str_app_cons. cbn [String.length split_at]. by rewrite IH. Qed.

#[export] Instance string_serde : Serde string := {|
  put (s : string) := put_uint (N.of_nat (String.length s)) +:+ s;
  get s := '(n, rest) ← get_uint s; split_at (N.to_nat n) rest
|}.
#[export] Instance string_serde_laws : SerdeLaws string.
Proof.
  intros s rest. cbn [put get string_serde]. rewrite str_app_assoc, get_put_uint. cbn [mbind option_bind].
  by rewrite Nat2N.id, split_at_app.
Qed.

(** The fields of a tuple or struct follow each other. *)
#[export] Instance pair_serde {A B} `{Serde A, Serde B} : Serde (A * B) := {|
  put (x : A * B) := put x.1 +:+ put x.2;
  get s := '(a, rest) ← get s; '(b, rest) ← get rest; Some ((a, b), rest)
|}.
#[export] Instance pair_serde_laws {A B} `{SerdeLaws A, SerdeLaws B} : SerdeLaws (A * B).
Proof.
  intros [a b] rest. cbn [put get pair_serde fst snd]. rewrite str_app_assoc, get_put. cbn [mbind option_bind]. by rewrite get_put.
Qed.

(** A [Vec] is its length and its elements. *)
Fixpoint put_all {A} `{Serde A} (l : list A) : string :=
  match l with [] => "" | a :: l => put a +:+ put_all l end.
Fixpoint get_all {A} `{Serde A} (n : nat) (s : string) : option (list A * string) :=
  match n with
  | O => Some ([], s)
  | S n => '(a, rest) ← get s; '(l, rest) ← get_all n rest; Some (a :: l, rest)
  end.
Lemma get_put_all {A} `{SerdeLaws A} (l : list A) rest : get_all (length l) (put_all l +:+ rest) = Some (l, rest).
Proof.
  induction l as [|a l IH]; [done|]. cbn [put_all length get_all]. rewrite str_app_assoc, get_put. cbn [mbind option_bind]. by rewrite IH.
Qed.

#[export] Instance vec_serde {A} `{Serde A} : Serde (list A) := {|
  put (l : list A) := put_uint (N.of_nat (length l)) +:+ put_all l;
  get s := '(n, rest) ← get_uint s; get_all (N.to_nat n) rest
|}.
#[export] Instance vec_serde_laws {A} `{SerdeLaws A} : SerdeLaws (list A).
Proof.
  intros l rest. cbn [put get vec_serde]. rewrite str_app_assoc, get_put_uint. cbn [mbind option_bind]. by rewrite Nat2N.id, get_put_all.
Qed.

(** ** The structs of the store *)

Definition Collection : Type := string.
Definition RPath : Type := string.
Definition RKey : Type := string.
Definition DidId : Type := N.
Definition DidIdValue : Type := DidId * bool.
Definition TargetId : Type := N.
Definition Target : Type := string.
Definition TargetKey : Type := Target * Collection * RPath.
Definition TargetLinkers : Type := list (DidId * RKey).
Definition RecordLinkKey : Type := DidId * Collection * RKey.
Definition RecordLinkKeyDidIdPrefix : Type := DidId.
Definition TargetIdTargetPrefix : Type := Target.
Definition RecordLinkTarget : Type := RPath * TargetId.
Definition RecordLinkTargets : Type := list RecordLinkTarget.

(** Their derived codecs: of a struct with one field the codec of the field. *)
#[export] Instance DidIdValue_serde : Serde DidIdValue := pair_serde (A := N).
#[export] Instance TargetKey_serde : Serde TargetKey := pair_serde (A := string * string).
#[export] Instance TargetLinkers_serde : Serde TargetLinkers := vec_serde (A := N * string).
#[export] Instance RecordLinkKey_serde : Serde RecordLinkKey := pair_serde (A := N * string).
#[export] Instance RecordLinkTargets_serde : Serde RecordLinkTargets := vec_serde (A := string * N).

(** ** Keys and values *)

Definition rk {K} `{Serde K} (k : K) : string := put k.
Definition rkp {P} `{Serde P} (kp : P) : string := put kp.
Definition rv {V} `{Serde V} (v : V) : string := put v.
(** [deserialize] refuses input that is left over. *)
Definition kr {K} `{Serde K} (bytes : string) : option K := match get bytes with Some (k, "") => Some k | _ => None end.
Definition vr {V} `{Serde V} (bytes : string) : option V := match get bytes with Some (v, "") => Some v | _ => None end.

Lemma kr_rk {K} `{SerdeLaws K} (k : K) : kr (rk k) = Some k.
Proof. unfold kr, rk. pose proof (get_put k "") as E. rewrite str_app_nil_r in E. by rewrite E. Qed.
Lemma vr_rv {V} `{SerdeLaws V} (v : V) : vr (rv v) = Some v.
Proof. exact (kr_rk v). Qed.

Definition wire {A} `{Serde A} : Codec A := {| ser := rk; de := kr |}.

#[export] Instance wire_bincode : Bincode := {|
  bc_string := wire;
  bc_u64 := wire;
  bc_did_id_value := wire (A := DidIdValue);
  bc_target_key := wire (A := TargetKey);
  bc_target_linkers := wire (A := TargetLinkers);
  bc_record_link_key := wire (A := RecordLinkKey);
  bc_record_link_targets := wire (A := RecordLinkTargets)
|}.

(** Codes are not prefixes of each other. *)
Lemma put_unique {A} `{SerdeLaws A} (a a' : A) r r' : put a +:+ r = put a' +:+ r' → a = a' ∧ r = r'.
Proof. intros E. pose proof (get_put a r) as Ha. rewrite E, get_put in Ha. by injection Ha as -> ->. Qed.

(** A serialised first field is a prefix of exactly the structs that start with it. *)
Lemma field_prefix {A B C} `{SerdeLaws A, SerdeLaws B, SerdeLaws C} (a a' : A) (b : B) (c : C) :
  starts_with (rkp a) (rk ((a', b), c)) = true ↔ a = a'.
Proof.
  rewrite starts_with_spec. unfold rkp, rk. cbn [put pair_serde fst snd]. split.
  - intros [r Hr]. rewrite str_app_assoc in Hr. symmetry in Hr. by apply put_unique in Hr as [-> _].
  - intros ->. exists (put b +:+ put c). by rewrite str_app_assoc.
Qed.

(** The integers that start with a zero byte are zero. *)
Lemma string_first_zero (s t : string) : put s = String "000"%char t → t = "".
Proof.
  cbn [put string_serde]. intros E. change (String "000"%char t) with (String "000"%char "" +:+ t) in E. rewrite <- put_uint_zero in E.
  pose proof (put_unique (A := N) _ 0%N s t E) as [En <-]. destruct s; [done|]. discriminate En.
Qed.

(** What the model of the store assumes of bincode. *)
#[export] Instance wire_bincode_laws : BincodeLaws.
Proof.
  split; try (intros; apply (kr_rk (K := _))).
  - intros p n c r _ _. apply (field_prefix (A := N) (B := string) (C := string)).
  - intros t t' c p. apply (field_prefix (A := string) (B := string) (C := string)).
  - intros s id Hid E. cbn [ser bc_string wire_bincode wire] in E. unfold rk in E.
    assert (Hz : ∃ t, u64_to_be_bytes id = String "000"%char t ∧ t ≠ "").
    { unfold u64_to_be_bytes. cbn [be_bytes]. eexists. split; [f_equal; unfold byte_of; by rewrite N.div_small by exact Hid|done]. }
    destruct Hz as (t & Ht & Hne). rewrite Ht in E. by apply string_first_zero in E.
Qed.
End Serde.

(** ** The scans of the store *)

Section Scans.
Context `{VL : VarintLaws} `{RL : @RocksDbLaws RD merge_op}.

Lemma rv_inj {V} `{SerdeLaws V} (a b : V) : rv a = rv b → a = b.
Proof. intros E. apply (f_equal vr) in E. rewrite !vr_rv in E. by injection E. Qed.

Lemma link_scan d v did_id (key : RecordLinkKey) (targets : RecordLinkTargets) :
  has_view (db_get_cf d) v → view_wf v → (did_id < u64_bound)%N →
  (key, targets) ∈ iter_links_for_did_id d did_id ↔ key.1.1 = did_id ∧ db_get_cf d LINK_TARGETS_CF (rk key) = Some (rv targets).
Proof.
  intros Hv Hwf Hid. destruct (iter_links_ok d v did_id Hv Hwf Hid) as (Hall & _ & Hin). rewrite Forall_forall in Hall.
  assert (Hfwd : ∀ k : RecordLinkKey, k.1.1 = did_id → db_get_cf d LINK_TARGETS_CF (rk k) = (rv (V := RecordLinkTargets)) <$> v_fwd v k).
  { intros k Ek. apply (hv_fwd _ _ Hv). rewrite <- Ek in Hid. exact Hid. }
  split.
  - intros Hk. destruct (Hall _ Hk) as [Ek Hf]. cbn [fst snd] in *. split; [exact Ek|]. by rewrite Hfwd, Hf.
  - destruct key as [[i c] r]. cbn [fst]. intros [-> Hg]. rewrite Hfwd in Hg by done.
    apply fmap_Some in Hg as (F & E & Hg). apply (rv_inj (V := RecordLinkTargets)) in Hg as <-.
    specialize (Hin c r targets E). apply list_elem_of_fmap in Hin as ([k F] & Ek & Hk). cbn [fst] in Ek. subst k.
    destruct (Hall _ Hk) as [_ Hf]. cbn [fst snd] in Hf. by pose proof (eq_trans (eq_sym E) Hf) as [= <-].
Qed.

Lemma target_scan (r : RocksStorage) v (target : Target) (key : TargetKey) (i : TargetId) :
  has_view (db_get_cf (db r)) v → view_wf v →
  (key, i) ∈ iter_targets_for_target (db r) target ↔ key.1.1 = target ∧ db_get_cf (db r) TARGET_IDS_CF (rk key) = Some (rv i).
Proof.
  intros Hv Hwf. destruct (iter_targets_ok r v Hv Hwf target) as (Hall & _ & Hin). rewrite Forall_forall in Hall.
  assert (Htid : ∀ k : TargetKey, db_get_cf (db r) TARGET_IDS_CF (rk k) = (rv (V := N)) <$> v_tid v k) by exact (hv_tid _ _ Hv).
  split.
  - intros Hk. destruct (Hall _ Hk) as [Ek Hf]. cbn [fst snd] in *. split; [exact Ek|]. by rewrite Htid, Hf.
  - destruct key as [[t c] p]. cbn [fst]. intros [-> Hg]. rewrite Htid in Hg.
    apply fmap_Some in Hg as (j & E & Hg). apply (rv_inj (V := N)) in Hg as <-. by apply Hin.
Qed.

(** C35. The prefix iterations of the store are exact, with the keys as bytes.
    After any admissible events and restarts on a database that was empty, with
    bincode's integers as the only parameter of the encoding: iterating over
    the bytes of a [DidId] gives exactly the stored forward links whose key
    starts with it, and iterating over the bytes of a [Target] exactly the
    stored sources of the target, whatever the lengths of the ids and strings. *)
Theorem prefix_scans_exact (d : DB) steps :
  (∀ cf k, db_get_cf d cf k = None) → admissible_run Mem.new steps →
  (1 + N.of_nat (length steps) < id_bound)%N → (1 + total_links steps < u64_bound)%N →
  ∃ r0 r, open_readmode d false = Ok r0 ∧ foldl_res rocks_step r0 steps = Ok r ∧
    (∀ (did_id : RecordLinkKeyDidIdPrefix) (key : RecordLinkKey) (targets : RecordLinkTargets), (did_id < u64_bound)%N →
       (key, targets) ∈ iter_links_for_did_id (db r) did_id ↔
       key.1.1 = did_id ∧ db_get_cf (db r) LINK_TARGETS_CF (rk key) = Some (rv targets)) ∧
    ∀ (target : TargetIdTargetPrefix) (key : TargetKey) (id : TargetId),
       (key, id) ∈ iter_targets_for_target (db r) target ↔
       key.1.1 = target ∧ db_get_cf (db r) TARGET_IDS_CF (rk key) = Some (rv id).
Proof.
  intros Hd Hadm Hb1 Hb2. destruct (open_empty_sim d Hd) as (r0 & E0 & Hs0).
  destruct (run_sim steps _ _ _ _ Hs0 Hadm Hb1 Hb2) as (m & r & dn & tn & _ & Er & (_ & _ & _ & v & dseq & tseq & _ & _ & Hv & Hwf & _)).
  exists r0, r. split_and!; [done|done| |].
  - intros did_id key targets Hid. by apply (link_scan (db r) v).
  - intros target key i. by apply (target_scan r v).
Qed.
End Scans.

(** ** bincode's integers, concretely *)

(** Up to 250 the byte itself; then a marker and two, four or eight bytes, most
    significant first.  Beyond 64 bits, where no length or id is, the bits
    after another marker. *)
Fixpoint put_bits (p : positive) : string :=
  match p with xH => "." | xO p => String "0" (put_bits p) | xI p => String "1" (put_bits p) end.
Fixpoint get_bits (s : string) : option (positive * string) :=
  match s with
  | String c s =>
      if decide (c = "."%char) then Some (xH, s)
      else '(p, rest) ← get_bits s; Some (if decide (c = "0"%char) then xO p else xI p, rest)
  | EmptyString => None
  end.
Lemma get_put_bits p rest : get_bits (put_bits p +:+ rest) = Some (p, rest).
Proof. induction p as [p IH|p IH|]; cbn [put_bits]; rewrite ?str_app_cons; cbn [get_bits]; [by rewrite IH|by rewrite IH|done]. Qed.

Definition marked (m : N) (width : nat) (n : N) : string := String (byte_of m) (be_bytes width n).
#[export] Instance bincode_varint : Varint := {|
  put_uint n :=
    if (n <? 251)%N then String (byte_of n) ""
    else if (n <? 2 ^ 16)%N then marked 251 2 n
    else if (n <? 2 ^ 32)%N then marked 252 4 n
    else if (n <? 2 ^ 64)%N then marked 253 8 n
    else String (byte_of 254) (put_bits (N.succ_pos n));
  get_uint s :=
    match s with
    | EmptyString => None
    | String c s =>
        let fixed width := '(b, rest) ← split_at width s; Some (be_value b, rest) in
        if (byte_n c <? 251)%N then Some (byte_n c, s)
        else if (byte_n c =? 251)%N then fixed 2
        else if (byte_n c =? 252)%N then fixed 4
        else if (byte_n c =? 253)%N then fixed 8
        else '(p, rest) ← get_bits s; Some (Pos.pred_N p, rest)
    end
|}.

Lemma get_fixed width n rest :
  (n < 256 ^ N.of_nat width)%N → ('(b, r) ← split_at width (be_bytes width n +:+ rest); Some (be_value b, r)) = Some (n, rest).
Proof.
  intros Hn. rewrite <- (be_bytes_length width n) at 1. rewrite split_at_app. cbn [mbind option_bind].
  by rewrite be_value_bytes, N.mod_small.
Qed.

#[export] Instance bincode_varint_laws : VarintLaws.
Proof.
  split; [|done]. intros n rest. cbn [put_uint bincode_varint].
  destruct (N.ltb_spec n 251) as [H1|H1].
  { rewrite str_app_cons. cbn [get_uint bincode_varint]. rewrite byte_n_byte_of, N.mod_small by lia. rewrite (proj2 (N.ltb_lt _ _) H1). by rewrite str_app_nil_l. }
  destruct (N.ltb_spec n (2 ^ 16)) as [H2|H2]; [by apply (get_fixed 2)|].
  destruct (N.ltb_spec n (2 ^ 32)) as [H3|H3]; [by apply (get_fixed 4)|].
  destruct (N.ltb_spec n (2 ^ 64)) as [H4|H4]; [by apply (get_fixed 8)|].
  rewrite str_app_cons. cbn [get_uint bincode_varint]. rewrite (byte_n_byte_of 254). cbn [N.modulo N.ltb N.eqb N.compare].
  change ((254 mod 256 <? 251)%N) with false. change ((254 mod 256 =? 251)%N) with false. change ((254 mod 256 =? 252)%N) with false.
  change ((254 mod 256 =? 253)%N) with false. cbv iota. rewrite get_put_bits. cbn [mbind option_bind]. by rewrite N.pos_pred_succ.
Qed.

(** The keys of the store, as bytes. *)
Example key_bytes : rk ((5%N, "c", "k") : RecordLinkKey) = String (byte_of 5) (String (byte_of 1) (String "c" (String (byte_of 1) "k"))).
Proof. reflexivity. Qed.
Example wide_id_bytes : rkp (300%N : RecordLinkKeyDidIdPrefix) = String (byte_of 251) (String (byte_of 1) (String (byte_of 44) "")).
Proof. reflexivity. Qed.

(** ** Runs *)

#[local] Instance wire_db : RocksDb := Reference.ref_rocksdb merge_op.
Definition no_rows : DB := (∅ : gmap (string * string) string).

Lemma prefix_scans_exact_witness :
  ∃ r0 r, open_readmode no_rows false = Ok r0 ∧ foldl_res rocks_step r0 Contract.sample_steps = Ok r ∧
    ∀ (target : TargetIdTargetPrefix) (key : TargetKey) (id : TargetId),
       (key, id) ∈ iter_targets_for_target (db r) target ↔
       key.1.1 = target ∧ db_get_cf (db r) TARGET_IDS_CF (rk key) = Some (rv id).
Proof.
  destruct (@prefix_scans_exact bincode_varint bincode_varint_laws wire_db (Reference.ref_rocksdb_laws merge_op) no_rows Contract.sample_steps)
    as (r0 & r & E0 & Er & _ & Ht).
  - intros cf k. apply lookup_empty.
  - apply (bool_decide_unpack (admissible_run Mem.new Contract.sample_steps)). vm_compute. exact I.
  - reflexivity.
  - reflexivity.
  - exists r0, r. exact (conj E0 (conj Er Ht)).
Defined.

(** The unit test: keys of two bytes, a prefix of one, an empty value. *)
#[local] Instance u8_serde : Serde ascii := {|
  put c := String c "";
  get s := match s with String c rest => Some (c, rest) | EmptyString => None end
|}.
#[local] Instance unit_serde : Serde unit := {| put _ := ""; get s := Some (tt, s) |}.

Definition helper_keys : list (ascii * ascii) :=
  [(byte_of 1, byte_of 0); (byte_of 1, byte_of 255)] ++ map (λ i, (byte_of 2, byte_of (N.of_nat i))) (seq 0 256) ++
  [(byte_of 3, byte_of 0); (byte_of 3, byte_of 255)].
Definition helper_store : DB := db_write no_rows (map (λ k, Put DID_IDS_CF (rk k) (rv tt)) helper_keys).
Definition helper_iter : list ((ascii * ascii) * unit) :=
  @decode_while _ _ wire wire (db_prefix_iter helper_store DID_IDS_CF (rkp (byte_of 2))).

(** Every key with the prefix is iterated, once, and no other. *)
Theorem rocks_prefix_iteration_helper :
  length helper_iter = 256 ∧ Forall (λ e, byte_n e.1.1 = 2%N) helper_iter ∧
  (list_to_set (map (λ e, byte_n e.1.2) helper_iter) : gset N) = list_to_set (map N.of_nat (seq 0 256)).
Proof.
  split; [vm_compute; reflexivity|]. split; [|vm_compute; reflexivity].
  apply (bool_decide_unpack (Forall (λ e, byte_n e.1.1 = 2%N) helper_iter)). vm_compute. exact I.
Qed.
End Wire.
