(* ===== verification/ConstellationStats.v ===== *)
(** * constellation: link statistics
      (constellation/src/bin/rocks-link-stats.rs)

    The tool that scans a database read-only and counts, for every source of
    links, how many targets have how many links, in buckets.  Shown here: on a
    database the service wrote, the numbers are those of the links it holds;
    and a run in which the sample of a bucket is missed. *)

From stdpp Require Import pretty.
From S2P Require Import Prelude RustStr Bytes LinksAtUri LinksRecord.
From S2P Require Import RocksApi ConstellationTypes ConstellationMem ConstellationRocks ConstellationRocksView.
From S2P Require Import ConstellationRefine ConstellationSim ConstellationReaders ConstellationContract.
Import Rocks.

Module LinkStats.

(** The collection and path of the link, the kind of its target, and the
    collection of the target if it is an at-uri. *)
Record SourceLink : Type := mkSource {
  sl_collection : string;
  sl_path : string;
  sl_type : string;
  sl_target_collection : option string
}.
#[global] Instance SourceLink_eq_dec : EqDecision SourceLink.
Proof. solve_decision. Defined.
#[global] Instance SourceLink_countable : Countable SourceLink.
Proof.
  refine (inj_countable' (λ s, (sl_collection s, sl_path s, sl_type s, sl_target_collection s))
    (λ x, mkSource x.1.1.1 x.1.1.2 x.1.2 x.2) _). by intros [].
Defined.

Record SourceSample : Type := mkSample { sample_did : string; sample_rkey : string }.
Record Bucket : Type := mkBucket { b_count : N; b_sum : N; b_sample : option SourceSample }.
Definition bucket_default : Bucket := mkBucket 0 0 None.
Definition buckets_default : list Bucket := replicate 23 bucket_default.

Definition BUCKETS : list N :=
  [1; 2; 3; 4; 5; 6; 7; 8; 9; 10; 12; 16; 32; 64; 128; 256; 512; 1024; 4096; 16384; 65535; 262144; 1048576]%N.

Record ErrStats : Type := mkErr {
  failed_to_get_sample : nat;
  failed_to_deserialize_target_key : nat;
  failed_to_parse_target_as_link : nat;
  failed_to_get_links : nat;
  failed_to_deserialize_linkers : nat
}.

Record Scan : Type := mkScan { stats : gmap SourceLink (list Bucket); err_stats : ErrStats }.
Definition scan_start : Scan := mkScan ∅ (mkErr 0 0 0 0 0).

Definition sample_failed (e : ErrStats) : ErrStats :=
  mkErr (S (failed_to_get_sample e)) (failed_to_deserialize_target_key e) (failed_to_parse_target_as_link e) (failed_to_get_links e) (failed_to_deserialize_linkers e).
Definition key_failed (e : ErrStats) : ErrStats :=
  mkErr (failed_to_get_sample e) (S (failed_to_deserialize_target_key e)) (failed_to_parse_target_as_link e) (failed_to_get_links e) (failed_to_deserialize_linkers e).
Definition parse_failed (e : ErrStats) : ErrStats :=
  mkErr (failed_to_get_sample e) (failed_to_deserialize_target_key e) (S (failed_to_parse_target_as_link e)) (failed_to_get_links e) (failed_to_deserialize_linkers e).
Definition links_failed (e : ErrStats) : ErrStats :=
  mkErr (failed_to_get_sample e) (failed_to_deserialize_target_key e) (failed_to_parse_target_as_link e) (S (failed_to_get_links e)) (failed_to_deserialize_linkers e).
Definition linkers_failed (e : ErrStats) : ErrStats :=
  mkErr (failed_to_get_sample e) (failed_to_deserialize_target_key e) (failed_to_parse_target_as_link e) (failed_to_get_links e) (S (failed_to_deserialize_linkers e)).

(** The loop over the edges. *)
Fixpoint find_bucket (n : N) (edges : list N) (bucket : nat) : nat :=
  match edges with
  | [] => bucket
  | edge :: edges => if (n <=? edge)%N || bool_decide (bucket = 22) then bucket else find_bucket n edges (S bucket)
  end.
Definition bucket_of (n : N) : nat := find_bucket n BUCKETS 0.

Section Tool.
Context `{FluentUri} `{Bincode} `{RocksDb}.

Definition source_of (target collection path : string) : option SourceLink :=
  parsed ← Links.parse_any_link target;
  Some (mkSource collection path (Links.name parsed) (Links.link_at_uri_collection parsed)).

(** [linkers.0[n - 1]] panics out of range. *)
Definition take_sample (d : DB) (linkers : list (N * string)) (n : N) : StoreResult (option SourceSample) :=
  match linkers !! N.to_nat (n - 1) with
  | None => Err (Panic "index out of bounds")
  | Some (did_id, k) =>
      Ok (did_bytes ← db_get_cf d DID_IDS_CF (u64_to_be_bytes did_id); did ← de did_bytes; Some (mkSample did k))
  end.

Definition count_in_bucket (d : DB) (linkers : list (N * string)) (n : N) (b : Bucket) : StoreResult (Bucket * bool) :=
  match b_sample b with
  | Some _ => Ok (mkBucket (b_count b + 1) (b_sum b + n) (b_sample b), true)
  | None =>
      sample ←? take_sample d linkers n;
      Ok (mkBucket (b_count b + 1) (b_sum b + n) sample, bool_decide (is_Some sample))
  end.

(** One entry of the iterator. *)
Definition scan_item (d : DB) (st : Scan) (item : string * string) : StoreResult Scan :=
  let '(target_key, target_id) := item in
  match (de target_key : option (string * string * string)) with
  | None => Ok (mkScan (stats st) (key_failed (err_stats st)))
  | Some (target, collection, rpath) =>
      match source_of target collection rpath with
      | None => Ok (mkScan (stats st) (parse_failed (err_stats st)))
      | Some source =>
          match db_get_cf d TARGET_LINKERS_CF target_id with
          | None => Ok (mkScan (stats st) (links_failed (err_stats st)))
          | Some links_raw =>
              match (de links_raw : option (list (N * string))) with
              | None => Ok (mkScan (stats st) (linkers_failed (err_stats st)))
              | Some linkers =>
                  let n := (count linkers).1 in
                  if (n =? 0)%N then Ok st
                  else
                    let bs := default buckets_default (stats st !! source) in
                    '(b, sampled) ←? count_in_bucket d linkers n (default bucket_default (bs !! bucket_of n));
                    Ok (mkScan (<[source := <[bucket_of n := b]> bs]> (stats st))
                          (if sampled then err_stats st else sample_failed (err_stats st)))
              end
          end
      end
  end.

(** [iterator_cf(target_ids, Start)], every entry of the family. *)
Definition link_stats (d : DB) : StoreResult Scan := foldl_res (scan_item d) scan_start (db_prefix_iter d TARGET_IDS_CF "").

(** What is printed: the HashMap's order is not specified, any listing of the
    map will do. *)
Record Printable : Type := mkPrintable {
  pr_collection : string;
  pr_path : string;
  pr_link_type : string;
  pr_target_collection : option string;
  pr_buckets : list Bucket
}.
Definition printable (x : SourceLink * list Bucket) : Printable :=
  let '(source, buckets) := x in
  mkPrintable (sl_collection source) (sl_path source) (sl_type source) (sl_target_collection source) buckets.
Definition itemified (st : Scan) : list Printable := map printable (map_to_list (stats st)).
End Tool.

(** [rchunks(3)] of a list given backwards: the last chunk first. *)
Fixpoint rchunks3 (l : list ascii) : list (list ascii) :=
  match l with
  | a :: b :: c :: rest => [c; b; a] :: rchunks3 rest
  | [] => []
  | rest => [rev rest]
  end.
Definition thousands (n : N) : string :=
  String.concat "," (map String.string_of_list_ascii (rev (rchunks3 (rev (String.list_ascii_of_string (pretty n)))))).

(** The digits are those of the number, in groups of three after the first. *)
Lemma rchunks3_spec l : concat (rev (rchunks3 l)) = rev l ∧ Forall (λ g, 0 < length g ≤ 3) (rchunks3 l) ∧
  ∀ i g, S i < length (rchunks3 l) → rchunks3 l !! i = Some g → length g = 3.
Proof.
  induction l as [l IH] using (induction_ltof1 _ length). unfold ltof in IH.
  destruct l as [|a [|b [|c l]]]; try (simpl; split_and!; [done|repeat (constructor; [simpl; lia|]); constructor|intros; lia]).
  destruct (IH l) as (H1 & H2 & H3); [simpl; lia|]. cbn [rchunks3]. split_and!.
  - cbn [rev]. rewrite concat_app, H1. simpl. by rewrite <- !app_assoc.
  - constructor; [simpl; lia|done].
  - intros [|i] g Hi Hg; [by injection Hg as <-|]. cbn [lookup list_lookup length] in *. apply (H3 i); [lia|done].
Qed.

Example thousands_groups : map thousands [0; 999; 1000; 1048576]%N = ["0"; "999"; "1,000"; "1,048,576"].
Proof. reflexivity. Qed.

(** ** Buckets *)

(** The bucket of a number: above the edge before it, up to its own edge; the
    last bucket takes everything larger. *)
Lemma find_bucket_spec n edges : ∀ b, b + length edges = 23 →
  let k := find_bucket n edges b in b ≤ k ≤ 22 ∨ edges = [] ∧ k = b.
Proof.
  induction edges as [|e edges IH]; intros b Hb; cbn [find_bucket]; [right; done|]. left. cbn [length] in Hb.
  destruct (n <=? e)%N; cbn [orb]; [lia|]. case_bool_decide; [lia|]. destruct (IH (S b)) as [?|[-> _]]; [lia|lia|simpl in *; lia].
Qed.
Lemma bucket_of_lt n : bucket_of n < 23.
Proof. destruct (find_bucket_spec n BUCKETS 0 eq_refl) as [?|[? _]]; [unfold bucket_of; lia|done]. Qed.

Lemma find_bucket_edges n edges : ∀ b, b + length edges = 23 →
  let k := find_bucket n edges b in
  (∀ i e, edges !! i = Some e → b + i < k → (e < n)%N) ∧ (∀ i e, edges !! i = Some e → k = b + i → k < 22 → (n ≤ e)%N).
Proof.
  induction edges as [|x edges IH]; intros b Hb; cbn [find_bucket]; [split; intros i e Hi; done|]. cbn [length] in Hb.
  destruct (N.leb_spec n x) as [Hle|Hgt]; cbn [orb].
  - split; intros [|i] e Hi; simpl in Hi; simplify_eq; intros; try done; lia.
  - case_bool_decide as H22; [split; intros [|i] e Hi; simpl in Hi; simplify_eq; intros; lia|].
    destruct (IH (S b)) as [I1 I2]; [lia|]. pose proof (find_bucket_spec n edges (S b)) as Hs. split; intros [|i] e Hi; simpl in Hi; simplify_eq; intros.
    + done.
    + apply (I1 i); [done|lia].
    + destruct Hs as [?|[-> ?]]; [lia|lia|simpl in *; lia].
    + apply (I2 i); [done|lia|done].
Qed.
(** ** What a scan counts *)

Definition padd (x y : N * N) : N * N := (x.1 + y.1, x.2 + y.2)%N.
Definition psum (l : list (N * N)) : N * N := foldr padd (0, 0)%N l.
Lemma padd_comm x y : padd x y = padd y x.
Proof. unfold padd. f_equal; lia. Qed.
Lemma padd_assoc x y z : padd x (padd y z) = padd (padd x y) z.
Proof. unfold padd. simpl. f_equal; lia. Qed.
#[global] Instance psum_proper : Proper ((≡ₚ) ==> (=)) psum.
Proof.
  intros l1 l2. induction 1 as [|x l1 l2 _ IH|x y l|l1 l2 l3 _ IH1 _ IH2]; [done| | |congruence].
  - unfold psum in *. simpl. by rewrite IH.
  - unfold psum. simpl. rewrite !padd_assoc. f_equal. apply padd_comm.
Qed.

(** The number of targets and of links counted in a bucket of a source. *)
Definition bucket_at (st : Scan) (s : SourceLink) (b : nat) : N * N :=
  match stats st !! s ≫= lookup b with Some x => (b_count x, b_sum x) | None => (0, 0)%N end.

(** What a target with [n] links adds. *)
Definition adds (s : SourceLink) (b : nat) (source : option SourceLink) (n : N) : N * N :=
  if decide (source = Some s ∧ n ≠ 0%N ∧ bucket_of n = b) then (1, n)%N else (0, 0)%N.

Definition scan_wf (st : Scan) : Prop := map_Forall (λ _ bs, length bs = 23) (stats st).

Lemma counted_in_bucket st source n (b' : Bucket) e s b :
  scan_wf st → b < 23 → n ≠ 0%N →
  let bs := default buckets_default (stats st !! source) in
  let old := default bucket_default (bs !! bucket_of n) in
  b_count b' = (b_count old + 1)%N → b_sum b' = (b_sum old + n)%N →
  let st' := mkScan (<[source := <[bucket_of n := b']> bs]> (stats st)) e in
  scan_wf st' ∧ bucket_at st' s b = padd (bucket_at st s b) (adds s b (Some source) n).
Proof.
  intros Hwf Hb Hn bs old Hc Hs st'.
  assert (Hlen : length bs = 23) by (unfold bs; destruct (stats st !! source) as [x|] eqn:E; [by apply (Hwf source x)|done]).
  split; [apply map_Forall_insert_2; [by rewrite length_insert|done]|].
  unfold bucket_at, adds, st'. cbn [stats]. destruct (decide (s = source)) as [->|Hne].
  - rewrite lookup_insert_eq. cbn [mbind option_bind]. destruct (decide (bucket_of n = b)) as [<-|Hnb].
    + rewrite list_lookup_insert_eq by (rewrite Hlen; apply bucket_of_lt). rewrite decide_True by done. rewrite Hc, Hs. unfold old, bs.
      destruct (stats st !! source) as [x|] eqn:E; cbn [default mbind option_bind from_option id].
      * destruct (x !! bucket_of n) as [y|] eqn:Ey; [done|]. apply lookup_ge_None in Ey. rewrite (Hwf source x E) in Ey. pose proof (bucket_of_lt n). lia.
      * unfold buckets_default. rewrite lookup_replicate_2 by apply bucket_of_lt. done.
    + rewrite list_lookup_insert_ne by done. rewrite decide_False by naive_solver. unfold bs.
      destruct (stats st !! source) as [x|] eqn:E; cbn [default mbind option_bind from_option id].
      * destruct (x !! b); unfold padd; simpl; f_equal; lia.
      * unfold buckets_default. rewrite lookup_replicate_2 by done. done.
  - rewrite lookup_insert_ne by done. rewrite decide_False by naive_solver. unfold padd. simpl.
    destruct (stats st !! s ≫= lookup b); simpl; f_equal; lia.
Qed.

Lemma adds_none s b source n : source = None ∨ n = 0%N → adds s b source n = (0, 0)%N.
Proof. intros [-> | ->]; unfold adds; by rewrite decide_False by naive_solver. Qed.
Lemma padd_0_r x : padd x (0, 0)%N = x.
Proof. destruct x. unfold padd. simpl. f_equal; lia. Qed.

Section Scanned.
Context `{FluentUri} `{BL : BincodeLaws} `{RL : @RocksDbLaws RD merge_op}.
Context (m : Mem.MemStorageData) (r : RocksStorage) (dseq tseq : N) (v : view).
Context (Hinv : Mem.mem_inv m) (Hv : has_view (db_get_cf (db r)) v) (Hwf : view_wf v).
Context (Hr : refines (λ d, Mem.dids m !! d) (tf_of m) (get2 (Mem.links m)) dseq tseq v).

Definition live (k : string * string * string) : N := Mem.lenN (Mem.flatten (default [] (tf_of m k))).
Definition key_source (k : string * string * string) : option SourceLink := source_of k.1.1 k.1.2 k.2.

Lemma item_counted st k i :
  v_tid v k = Some i → scan_wf st →
  ∃ st', scan_item (db r) st (ser k, ser i) = Ok st' ∧ scan_wf st' ∧
    ∀ s b, b < 23 → bucket_at st' s b = padd (bucket_at st s b) (adds s b (key_source k) (live k)).
Proof.
  intros Hk Hst. unfold scan_item. rewrite rt_target_key. destruct k as [[target collection] rpath]. unfold key_source. cbn [fst snd].
  assert (Hsame : ∀ e, source_of target collection rpath = None ∨ live (target, collection, rpath) = 0%N →
    ∃ st', (Ok (mkScan (stats st) e) : StoreResult Scan) = Ok st' ∧ scan_wf st' ∧
      ∀ s b, b < 23 → bucket_at st' s b = padd (bucket_at st s b) (adds s b (source_of target collection rpath) (live (target, collection, rpath)))).
  { intros e Hno. eexists. split_and!; [done|done|]. intros s b _. by rewrite adds_none, padd_0_r. }
  destruct (source_of target collection rpath) as [source|] eqn:Es; [|apply Hsame; by left].
  destruct (proj1 (rf_known _ _ _ _ _ _ Hr _) (ex_intro _ i Hk)) as [L HL].
  pose proof (rf_link _ _ _ _ _ _ Hr _ _ _ Hk HL) as Hent.
  assert (Hi : (i < u64_bound)%N) by (by eapply wf_tid). rewrite (hv_link _ v Hv i Hi).
  assert (Hcount : (count (default [] (v_link v i))).1 = live (target, collection, rpath)).
  { rewrite (count_live m dseq tseq v Hr _ _ _ _ _ (entry_live v collection _ _ Hent)). unfold live. by rewrite HL. }
  destruct (v_link v i) as [linkers|] eqn:El; cbn [fmap option_fmap option_map].
  2: { apply Hsame. right. by rewrite <- Hcount. }
  rewrite rt_target_linkers by (by eapply wf_link). cbn [default from_option id] in Hcount, Hent. rewrite Hcount.
  destruct (N.eqb_spec (live (target, collection, rpath)) 0) as [Hz|Hnz].
  { destruct (Hsame (err_stats st)) as (st' & [= <-] & H2 & H3); [by right|]. destruct st. by eexists. }
  set (n := live (target, collection, rpath)) in *. set (bs := default buckets_default (stats st !! source)). set (old := default bucket_default (bs !! bucket_of n)).
  assert (∃ b' sampled, count_in_bucket (db r) linkers n old = Ok (b', sampled) ∧ b_count b' = (b_count old + 1)%N ∧ b_sum b' = (b_sum old + n)%N) as (b' & sampled & -> & Hc & Hsm).
  { unfold count_in_bucket, take_sample. destruct (b_sample old); [by eexists _, _|].
    assert (Hin : N.to_nat (n - 1) < length linkers).
    { unfold count in Hcount. cbn [fst] in Hcount. pose proof (length_filter (λ x : N * string, x.1 ≠ 0%N) linkers). lia. }
    apply lookup_lt_is_Some in Hin as [[did_id rkey] ->]. cbn [result_bind]. by eexists _, _. }
  cbn [result_bind]. eexists. split; [done|]. split; [exact (proj1 (counted_in_bucket st source n b' _ source 0 Hst ltac:(lia) Hnz Hc Hsm))|].
  intros s b Hb. exact (proj2 (counted_in_bucket st source n b' _ s b Hst Hb Hnz Hc Hsm)).
Qed.

(** The keys of the reverse index. *)
Definition mem_keys : list (string * string * string) :=
  flat_map (λ e, map (λ x, (e.1, x.1.1, x.1.2)) (map_to_list e.2)) (map_to_list (Mem.targets m)).

Lemma mem_keys_spec k : k ∈ mem_keys ↔ is_Some (tf_of m k).
Proof.
  destruct k as [[t c] p]. unfold mem_keys, tf_of, Mem.linkers_at. cbn [fst snd]. rewrite list_elem_of_In, in_flat_map. split.
  - intros ([t' sources] & Ht & Hx). apply in_map_iff in Hx as ([[c' p'] L] & [= -> -> ->] & Hx).
    apply list_elem_of_In, elem_of_map_to_list in Ht, Hx. cbn [snd] in Hx. rewrite Ht. cbn [mbind option_bind]. exists L. exact Hx.
  - intros [L HL]. destruct (Mem.targets m !! t) as [sources|] eqn:Et; [|done]. cbn [mbind option_bind] in HL. exists (t, sources).
    split; [by apply list_elem_of_In, elem_of_map_to_list|]. apply in_map_iff. exists ((c, p), L). split; [done|]. by apply list_elem_of_In, elem_of_map_to_list.
Qed.

Lemma mem_keys_NoDup : NoDup mem_keys.
Proof.
  apply NoDup_bind.
  - intros [t1 s1] [t2 s2] k H1 H2 (x1 & -> & _)%list_elem_of_fmap (x2 & E & _)%list_elem_of_fmap. injection E as -> _ _.
    apply elem_of_map_to_list in H1, H2. congruence.
  - intros [t s] _. apply NoDup_fmap_2_strong; [|apply NoDup_map_to_list]. intros [[c p] L] [[c' p'] L'] H1 H2 [= -> ->].
    apply elem_of_map_to_list in H1, H2. simpl in *. congruence.
  - apply NoDup_map_to_list.
Qed.

(** The entries of the iterator, by their keys. *)
Lemma items_keys : ∃ keys, db_prefix_iter (db r) TARGET_IDS_CF "" = map (λ k, (ser k, ser (default 0%N (v_tid v k)))) keys ∧
  keys ≡ₚ mem_keys ∧ ∀ k, k ∈ keys → is_Some (v_tid v k).
Proof.
  set (items := db_prefix_iter (db r) TARGET_IDS_CF "").
  assert (Hin : ∀ item, item ∈ items → ∃ k i, v_tid v k = Some i ∧ item = (ser k, ser i)).
  { intros [key b] [Hg _]%db_prefix_iter_spec. destruct (hv_tid_keys _ v Hv key b Hg) as [k ->]. rewrite (hv_tid _ v Hv k) in Hg.
    destruct (v_tid v k) as [i|] eqn:Ei; [|done]. injection Hg as <-. by exists k, i. }
  assert (Hkeys : ∃ keys, items = map (λ k, (ser k, ser (default 0%N (v_tid v k)))) keys ∧ ∀ k, k ∈ keys → is_Some (v_tid v k)).
  { clearbody items. induction items as [|item items IH]; [exists []; split; [done|]; intros k Hk; by apply not_elem_of_nil in Hk|].
    destruct IH as (keys & -> & Hks); [intros; apply Hin; by right|]. destruct (Hin item) as (k & i & Hk & ->); [by left|].
    exists (k :: keys). split; [simpl; by rewrite Hk|]. intros k' [->|Hk']%elem_of_cons; [by exists i|by apply Hks]. }
  destruct Hkeys as (keys & E & Hks). exists keys. split_and!; [done| |done].
  apply NoDup_Permutation; [|apply mem_keys_NoDup|].
  - pose proof (db_prefix_iter_NoDup (db r) TARGET_IDS_CF "") as Hnd. fold items in Hnd. rewrite E, <- list_fmap_compose in Hnd. by eapply NoDup_fmap_1.
  - intros k. rewrite mem_keys_spec, <- (rf_known _ _ _ _ _ _ Hr). split; [apply Hks|]. intros [i Hi].
    assert (Hmem : (ser k, ser i) ∈ items) by (apply db_prefix_iter_spec; split; [by rewrite (hv_tid _ v Hv k), Hi|done]).
    rewrite E in Hmem. apply list_elem_of_fmap in Hmem as (k' & [= Ek _] & Hk'). apply ser_target_key_inj in Ek as ->. done.
Qed.

Lemma scan_counted keys : ∀ st, scan_wf st → (∀ k, k ∈ keys → is_Some (v_tid v k)) →
  ∃ st', foldl_res (scan_item (db r)) st (map (λ k, (ser k, ser (default 0%N (v_tid v k)))) keys) = Ok st' ∧
    ∀ s b, b < 23 → bucket_at st' s b = padd (bucket_at st s b) (psum (map (λ k, adds s b (key_source k) (live k)) keys)).
Proof.
  induction keys as [|k keys IH]; intros st Hst Hks; cbn [map foldl_res].
  { exists st. split; [done|]. intros s b _. by rewrite padd_0_r. }
  destruct (Hks k) as [i Hi]; [by left|]. rewrite Hi. cbn [default from_option id].
  destruct (item_counted st k i Hi Hst) as (st1 & -> & Hst1 & H1). cbn [result_bind].
  destruct (IH st1 Hst1) as (st2 & E2 & H2); [intros; apply Hks; by right|]. exists st2. split; [done|].
  intros s b Hb. rewrite (H2 s b Hb), (H1 s b Hb), <- padd_assoc. done.
Qed.

Lemma stats_counted : ∃ st, link_stats (db r) = Ok st ∧
  ∀ s b, b < 23 → bucket_at st s b = psum (map (λ k, adds s b (key_source k) (live k)) mem_keys).
Proof.
  destruct items_keys as (keys & E & Hp & Hks). unfold link_stats. rewrite E.
  destruct (scan_counted keys scan_start) as (st & Es & Hs); [apply map_Forall_empty|done|]. exists st. split; [done|].
  intros s b Hb. rewrite (Hs s b Hb). unfold bucket_at at 1. cbn [stats scan_start]. rewrite lookup_empty. cbn [mbind option_bind].
  rewrite padd_comm, padd_0_r. by rewrite Hp.
Qed.
End Scanned.
(** Over all buckets. *)
Lemma psum_app l1 l2 : psum (l1 ++ l2) = padd (psum l1) (psum l2).
Proof. induction l1 as [|x l1 IH]; simpl; [by rewrite padd_comm, padd_0_r|]. by rewrite IH, padd_assoc. Qed.

Lemma psum_swap {A B} (f : B → A → N * N) (bs : list B) (l : list A) :
  psum (map (λ b, psum (map (f b) l)) bs) = psum (map (λ x, psum (map (λ b, f b x) bs)) l).
Proof.
  induction bs as [|b bs IH]; simpl.
  - induction l as [|x l IHl]; simpl; [done|]. by rewrite <- IHl.
  - rewrite IH. clear IH. induction l as [|x l IHl]; simpl; [done|]. rewrite <- IHl. unfold padd. simpl. f_equal; lia.
Qed.

Lemma adds_all s source n : psum (map (λ b, adds s b source n) (seq 0 23)) = if decide (source = Some s ∧ n ≠ 0%N) then (1, n)%N else (0, 0)%N.
Proof.
  destruct (decide (source = Some s ∧ n ≠ 0%N)) as [[-> Hn]|Hno].
  - assert (Hz : ∀ l, bucket_of n ∉ l → psum (map (λ b, adds s b (Some s) n) l) = (0, 0)%N).
    { induction l as [|b l IH]; [done|]. intros [Hb Hl]%not_elem_of_cons. simpl. rewrite IH by done. unfold adds.
      by rewrite decide_False by naive_solver. }
    assert (Hin : bucket_of n ∈ seq 0 23) by (apply elem_of_seq; pose proof (bucket_of_lt n); lia).
    apply elem_of_Permutation in Hin as [l Hl]. rewrite Hl. simpl. rewrite Hz.
    + rewrite padd_0_r. unfold adds. by rewrite decide_True.
    + pose proof (NoDup_seq 0 23) as Hnd. rewrite Hl in Hnd. by apply NoDup_cons in Hnd as [? _].
  - induction (seq 0 23) as [|b l IH]; [done|]. simpl. rewrite IH. unfold adds. by rewrite decide_False by naive_solver.
Qed.

Section Exact.
Context `{FluentUri} `{BL : BincodeLaws} `{RL : @RocksDbLaws RD merge_op}.

(** C38. The statistics are those of the links in the store: on a database
    written by any admissible run, the scan ends without a panic; a bucket of a
    source (collection, path, kind of target) counts the targets with that
    source whose number of links, as [get_count] gives it, falls in the bucket,
    and the sum of their links; and over all buckets that is every linked
    target and every link of the source once.  A number is in the bucket of the
    first edge that is not below it, or in the last. *)
Theorem link_stats_exact (d : DB) steps :
  (∀ cf k, db_get_cf d cf k = None) → admissible_run Mem.new steps →
  (1 + N.of_nat (length steps) < id_bound)%N → (1 + total_links steps < u64_bound)%N →
  ∃ r0 r m st, open_readmode d false = Ok r0 ∧ foldl_res rocks_step r0 steps = Ok r ∧ foldl_res mem_step Mem.new steps = Ok m ∧
    link_stats (db r) = Ok st ∧
    (∀ t c p, get_count m t c p = Ok (live m (t, c, p))) ∧ (∀ k, live m k ≠ 0%N → k ∈ mem_keys m) ∧ NoDup (mem_keys m) ∧
    (∀ s b, b < 23 → bucket_at st s b = psum (map (λ k, adds s b (key_source k) (live m k)) (mem_keys m))) ∧
    (∀ s, psum (map (bucket_at st s) (seq 0 23)) =
       psum (map (λ k, if decide (key_source k = Some s ∧ live m k ≠ 0%N) then (1, live m k)%N else (0, 0)%N) (mem_keys m))) ∧
    (∀ n i e, BUCKETS !! i = Some e → (i < bucket_of n → (e < n)%N) ∧ (i = bucket_of n → i < 22 → (n ≤ e)%N)).
Proof.
  intros Hd Hadm Hb1 Hb2. destruct (open_empty_sim d Hd) as (r0 & E0 & Hs0).
  destruct (run_sim steps _ _ _ _ Hs0 Hadm Hb1 Hb2) as (m & r & dn & tn & Em & Er & Hsim).
  destruct Hsim as (Hinv & _ & _ & v & dseq & tseq & _ & _ & Hv & Hwf & Hr).
  destruct (stats_counted m r dseq tseq v Hv Hwf Hr) as (st & Es & Hst). exists r0, r, m, st. split_and!; try done.
  - intros t c p. simpl. unfold Mem.mem_get_count, live, tf_of. simpl. by destruct (Mem.linkers_at m t c p).
  - intros k Hk. apply mem_keys_spec. unfold live in Hk. destruct (tf_of m k); [eauto|done].
  - apply mem_keys_NoDup.
  - intros s. etransitivity; [|etransitivity; [apply (psum_swap (λ b k, adds s b (key_source k) (live m k)) (seq 0 23) (mem_keys m))|]].
    + f_equal. apply map_ext_in. intros b Hb. apply Hst. apply in_seq in Hb. lia.
    + f_equal. apply map_ext. intros k. apply adds_all.
  - intros n i e Hi. destruct (find_bucket_edges n BUCKETS 0 eq_refl) as [I1 I2]. split; [by apply (I1 i)|]. intros Hk. rewrite Hk. apply (I2 i); [done|]. by rewrite Hk.
Qed.
End Exact.

(** ** Concrete runs *)

#[local] Existing Instance Reference.ref_bincode.
#[local] Existing Instance Contract.ref_db.
#[local] Instance did_uri : FluentUri := { uri_parse_normalized _ := None; uri_ref_resolved_path _ := None }.

Definition did_target : string := "did:plc:t".
Definition linking (did rkey : string) (ts : N) : Step := Event (CreateLinks (mkRecordId did "c" rkey) [Links.mkCollectedLink ".x" (Links.DidLink did_target)]) ts.
Definition stat_steps : list Step :=
  [linking "did:plc:a" "1" 1; linking "did:plc:b" "1" 2; Event (DeleteRecord (mkRecordId "did:plc:a" "c" "1")) 3].
Definition did_source : SourceLink := mkSource "c" ".x" "did" None.

Lemma link_stats_exact_witness :
  ∃ r0 r m st, open_readmode Contract.empty_db false = Ok r0 ∧ foldl_res rocks_step r0 stat_steps = Ok r ∧
    foldl_res mem_step Mem.new stat_steps = Ok m ∧ link_stats (db r) = Ok st ∧ get_count m did_target "c" ".x" = Ok (live m (did_target, "c", ".x")).
Proof.
  destruct (@link_stats_exact did_uri Reference.ref_bincode Reference.ref_bincode_laws Contract.ref_db (Reference.ref_rocksdb_laws merge_op)
    Contract.empty_db stat_steps) as (r0 & r & m & st & E0 & Er & Em & Es & Hc & _).
  - intros cf k. apply lookup_empty.
  - apply (bool_decide_unpack (admissible_run Mem.new stat_steps)). vm_compute. exact I.
  - reflexivity.
  - reflexivity.
  - exists r0, r, m, st. split; [exact E0|]. split; [exact Er|]. split; [exact Em|]. split; [exact Es|exact (Hc _ _ _)].
Defined.

Definition stats_after (steps : list Step) : StoreResult Scan :=
  r0 ←? open_readmode Contract.empty_db false; r ←? foldl_res rocks_step r0 steps; link_stats (db r).

(** The sample is taken at the position of the number of live links, among all
    entries: after the older of two links is deleted it is the deleted entry, so
    the bucket has a link and no sample, and the lookup counts as failed. *)
Theorem sample_missed :
  ∃ st bs, stats_after stat_steps = Ok st ∧ stats st !! did_source = Some bs ∧
    bs !! 0 = Some (mkBucket 1 1 None) ∧ failed_to_get_sample (err_stats st) = 1.
Proof.
  assert (E : ∃ st, stats_after stat_steps = Ok st) by (vm_compute; eauto). destruct E as [st E].
  exists st, (default [] (stats st !! did_source)). split; [exact E|]. vm_compute in E. injection E as <-. vm_compute. done.
Qed.
End LinkStats.
