(* ===== verification/ConstellationService.v ===== *)
(** * constellation: the process and its backups
      (constellation/src/bin/main.rs, bin/rocks-restore-from-backup.rs, consumer/jsonl_file.rs,
      and the backups of storage/rocks_store.rs)

    The threads of the service under one cancellation token, the file consumer,
    the background task that takes backups, and the tool that restores one.
    RocksDB's backup engine is behind an interface.  Shown here: a restored
    backup answers like the store did when it was taken, also when that was in
    the middle of an account deletion; when the threads end, and the panics that
    leave some of them up; and how the wait between two backups can panic. *)

From S2P Require Import Prelude RustStr Bytes LinksRecord RocksApi.
From S2P Require Import ConstellationTypes ConstellationMem ConstellationRocks ConstellationRocksView ConstellationRefine.
From S2P Require Import ConstellationSim ConstellationReaders ConstellationContract ConstellationStats.
Import Rocks.

(** ** RocksDB's backup engine *)

(** A directory of backups of databases of type [D].  [eng_create] and
    [eng_purge] leave a directory also when they fail. *)
Class BackupEngine (D : Type) : Type := {
  Dir : Type;
  eng_open : Dir → result string ();
  eng_create : Dir → D → Dir * result string ();
  eng_purge : Dir → nat → Dir * result string ();
  eng_restore_latest : Dir → result string D
}.

(** The backups, the oldest first.  Nothing here says when an operation
    succeeds. *)
Class BackupEngineLaws (D : Type) `{BackupEngine D} : Type := {
  eng_backups : Dir → list D;
  eng_create_ok dir d dir' : eng_create dir d = (dir', Ok ()) → eng_backups dir' = eng_backups dir ++ [d];
  eng_create_err dir d dir' e : eng_create dir d = (dir', Err e) → eng_backups dir' = eng_backups dir;
  eng_purge_ok dir n dir' : eng_purge dir n = (dir', Ok ()) → eng_backups dir' = drop (length (eng_backups dir) - n) (eng_backups dir);
  eng_restore_ok dir d : eng_restore_latest dir = Ok d → last (eng_backups dir) = Some d
}.

Module ConstellationProcess.

(** ** rocks_store.rs: backups *)

Section Backups.
Context {D : Type} `{BackupEngine D}.

(** The error of [create_new_backup] is printed, not returned. *)
Definition do_backup (db : D) (path : Dir) : Dir * result string () :=
  match eng_open path with
  | Err e => (path, Err e)
  | Ok _ => ((eng_create path db).1, Ok ())
  end.

Definition trim_backups (num_backups_to_keep : nat) (path : Dir) : Dir * result string () :=
  match eng_open path with
  | Err e => (path, Err e)
  | Ok _ => eng_purge path num_backups_to_keep
  end.

(** One round of the background task after its wait; also whether it reports
    that the backup succeeded.  Errors are printed and the loop goes on. *)
Definition backup_round (copies : option nat) (db : D) (path : Dir) : Dir * bool :=
  let '(path, backed_up) := do_backup db path in
  let succeeded := match backed_up with Ok _ => true | Err _ => false end in
  match copies with
  | Some n => ((trim_backups n path).1, succeeded)
  | None => (path, succeeded)
  end.

(** [start_backup]: one backup, or rounds whenever the wait is over. *)
Definition start_backup (auto : option (N * option nat)) (dbs : list D) (path : Dir) : Dir :=
  match auto with
  | Some (_, copies) => foldl (λ path db, (backup_round copies db path).1) path dbs
  | None => match dbs with db :: _ => (do_backup db path).1 | [] => path end
  end.

(** rocks-restore-from-backup.rs *)
Definition restore (from_backup_dir : Dir) : result string (option D) :=
  match eng_open from_backup_dir with
  | Err e => Err e
  | Ok _ => Ok (match eng_restore_latest from_backup_dir with Ok d => Some d | Err _ => None end)
  end.
End Backups.

(** ** The wait of the background task, in nanoseconds *)

Definition minimum_sleep : Z := 1_000_000_000.
Inductive WaitEnd : Type := Quit | StartBackup | WaitPanics | StillWaiting.

(** One reading of [waiting.elapsed()] and of the token per turn.  [Duration]
    subtraction panics below zero. *)
Fixpoint wait_loop (sleep : Z) (readings : list (Z * bool)) : WaitEnd :=
  match readings with
  | [] => StillWaiting
  | (elapsed, cancelled) :: readings =>
      if decide (sleep < elapsed)%Z then WaitPanics
      else
        let remaining := (sleep - elapsed)%Z in
        if (cancelled : bool) then Quit
        else if decide (remaining ≤ 0)%Z then StartBackup
        else if decide (remaining < minimum_sleep)%Z then StartBackup
        else wait_loop sleep readings
  end.

(** ** main.rs *)

Definition jetstream_url (provided : string) : string :=
  if decide (provided = "us-east-1") then "wss://jetstream1.us-east.bsky.network/subscribe"
  else if decide (provided = "us-east-2") then "wss://jetstream2.us-east.bsky.network/subscribe"
  else if decide (provided = "us-west-1") then "wss://jetstream1.us-west.bsky.network/subscribe"
  else if decide (provided = "us-west-2") then "wss://jetstream2.us-west.bsky.network/subscribe"
  else provided.

(** The backup to start, if any. *)
Definition backup_config (backup : option string) (backup_interval : option N) (max_old_backups : option nat)
    : result string (option (string * option (N * option nat))) :=
  match backup with
  | None => Ok None
  | Some dir =>
      match backup_interval, max_old_backups with
      | Some interval_hrs, copies => Ok (Some (dir, Some (interval_hrs, copies)))
      | None, None => Ok (Some (dir, None))
      | None, Some _ => Err "invalid backup config: --max-old-backups requires --backup-interval to be configured"
      end
  end.

(** The threads of the scope. *)
Inductive Thread : Type := Up | Returned | Panicked.
#[global] Instance Thread_eq_dec : EqDecision Thread.
Proof. solve_decision. Defined.

Record Process : Type := mkProcess {
  cancelled : bool;
  desperation : nat;
  th_consumer : Thread;
  th_server : Thread;
  th_monitor : Thread;
  backup_awaited : option bool
}.
Definition process_start : Process := mkProcess false 0 Up Up Up None.

(** [Drop] of the writer, at the end of [consume]: [Arc::get_mut] gets the
    backup task, to join it, only if no clone of the storage is left.  The
    server and the monitor hold one each until they end. *)
Definition drop_writer (p : Process) : bool := bool_decide (th_server p ≠ Up) && bool_decide (th_monitor p ≠ Up).

(** What [consume] comes to: the result of the thread that reads the stream, or
    [None] for a panic.  It unwraps the cursor it starts from (unless it reads a
    fixture), the result of every push, and the join of the reader, which is
    [None] if the reader panicked. *)
Definition consume_end (cursor : option (result string ())) (pushes : list (result string ()))
    (joined : option (result string ())) : option (result string ()) :=
  match cursor with
  | Some (Err _) => None
  | _ => if forallb (λ r : result string (), match r with Ok _ => true | Err _ => false end) pushes then joined else None
  end.

(** The server thread: [expect] of the runtime, and [unwrap] of what [block_on]
    returns. *)
Definition server_end (runtime served : result string ()) : option (result string ()) :=
  match runtime, served with Ok _, Ok _ => Some (Ok ()) | _, _ => None end.

(** The signal handler runs; [consume] ends; the server thread ends; the monitor
    looks at the token, ten times a second. *)
Inductive ProcessEvent : Type :=
  | CtrlC
  | ConsumerEnds (o : option (result string ()))
  | ServerEnds (o : option (result string ()))
  | MonitorLooks.

Definition ended (o : option (result string ())) : Thread := match o with Some _ => Returned | None => Panicked end.
(** [drop_guard] drops its guard at once, which cancels the token; a thread that
    panics does not get there. *)
Definition drop_guard (o : option (result string ())) (token : bool) : bool := match o with Some _ => true | None => token end.

(** The storage of the consumer is dropped when [consume] returns or unwinds. *)
Definition step (p : Process) (e : ProcessEvent) : Process :=
  match e with
  | CtrlC =>
      match desperation p with
      | 0 => mkProcess true 1 (th_consumer p) (th_server p) (th_monitor p) (backup_awaited p)
      | S _ => p
      end
  | ConsumerEnds o =>
      match th_consumer p with
      | Up => mkProcess (drop_guard o (cancelled p)) (desperation p) (ended o) (th_server p) (th_monitor p) (Some (drop_writer p))
      | _ => p
      end
  | ServerEnds o =>
      match th_server p with
      | Up => mkProcess (drop_guard o (cancelled p)) (desperation p) (th_consumer p) (ended o) (th_monitor p) (backup_awaited p)
      | _ => p
      end
  | MonitorLooks =>
      match th_monitor p with
      | Up => if cancelled p then mkProcess true (desperation p) (th_consumer p) (th_server p) Returned (backup_awaited p) else p
      | _ => p
      end
  end.
Definition run (es : list ProcessEvent) : Process := foldl step process_start es.

(** [thread::scope] waits for all threads, and panics if one of them did. *)
Definition scope_ends (p : Process) : option (result string ()) :=
  if decide (th_consumer p = Up ∨ th_server p = Up ∨ th_monitor p = Up) then None
  else if decide (th_consumer p = Panicked ∨ th_server p = Panicked ∨ th_monitor p = Panicked)
  then Some (Err "a scoped thread panicked") else Some (Ok ()).

(** ** jsonl_file.rs *)

Inductive SendResult : Type := Sent | Rejected (disconnected : bool).

Section File.
Context (parse : string → option JsonValue).

(** A line that cannot be read ends the loop; one that does not parse is an
    error.  Also what was sent. *)
Fixpoint consume_jsonl_file (lines : list (option string)) (sends : list SendResult) : list JsonValue * result string () :=
  match lines with
  | [] | None :: _ => ([], Ok ())
  | Some line :: lines =>
      match parse line with
      | None => ([], Err "parse error")
      | Some value =>
          match sends with
          | Rejected true :: _ => ([], Err "fixture: send channel disconnected -- nothing to do, bye.")
          | Rejected false :: sends => consume_jsonl_file lines sends
          | _ => let '(sent, r) := consume_jsonl_file lines (tail sends) in (value :: sent, r)
          end
      end
  end.
End File.

(** ** A restored backup *)

Section Restored.
Context `{BL : BincodeLaws} `{RL : @RocksDbLaws RD merge_op}.
Context `{EL : BackupEngineLaws DB}.

Lemma total_links_app s1 s2 : total_links (s1 ++ s2) = (total_links s1 + total_links s2)%N.
Proof. unfold total_links. rewrite fold_right_app. induction s1 as [|st s1 IH]; cbn [fold_right]; [lia|]. rewrite IH. lia. Qed.

(** What other threads find in the database while the writer takes a step. *)
Definition step_seen (r : RocksStorage) (st : Step) (n : nat) : StoreResult DB :=
  match st with Event event _ => push_seen r event n | Reopen => Ok (db r) end.

(** The writer takes a step, during which the background task takes backups,
    each after some of the batches that the step writes on its way; or the
    background task takes a backup between two steps. *)
Inductive Act : Type := Write (st : Step) (backups : list nat) | TakeBackup.
Definition backup_during (copies : option nat) (r : RocksStorage) (st : Step) (path : Dir) (n : nat) : StoreResult Dir :=
  d ←? step_seen r st n; Ok (backup_round copies d path).1.
Definition act (copies : option nat) (s : RocksStorage * Dir) (a : Act) : StoreResult (RocksStorage * Dir) :=
  match a with
  | Write st backups =>
      path ←? foldl_res (backup_during copies s.1 st) s.2 backups;
      r ←? rocks_step s.1 st; Ok (r, path)
  | TakeBackup => Ok (s.1, (backup_round copies (db s.1) s.2).1)
  end.
Definition writes (acts : list Act) : list Step := omap (λ a, match a with Write st _ => Some st | TakeBackup => None end) acts.
Definition backs_up (a : Act) : bool := match a with Write _ [] => false | _ => true end.

(** The memory store for which the last backup of an act stands: that before
    the act, from which an account deletion in progress has removed some of the
    records of the account. *)
Definition backed_up (m : Mem.MemStorageData) (a : Act) (m' : Mem.MemStorageData) : Prop :=
  match a with
  | Write (Event event _) backups => ∃ n, last backups = Some n ∧ passing m event n m'
  | Write Reopen _ | TakeBackup => m' = m
  end.

Lemma step_seen_sim m (r : RocksStorage) dn tn st n :
  sim m r dn tn → admissible_step m st →
  ∃ m' d, step_seen r st n = Ok d ∧ match st with Event event _ => passing m event n m' | Reopen => m' = m end ∧
    sim m' (mkRocks d (did_id_table r) (target_id_table r) (is_writer r)) dn tn.
Proof.
  intros Hs Ha. destruct st as [event cursor|]; [by apply push_seen_sim|]. exists m, (db r). by destruct r.
Qed.

(** Backups never stop the writer. *)
Lemma backups_run copies m (r : RocksStorage) dn tn st backups : ∀ path,
  sim m r dn tn → admissible_step m st → ∃ path', foldl_res (backup_during copies r st) path backups = Ok path'.
Proof.
  induction backups as [|n backups IH]; intros path Hs Ha; [by exists path|].
  destruct (step_seen_sim m r dn tn st n Hs Ha) as (_ & d & E & _). cbn [foldl_res]. unfold backup_during at 1. rewrite E. cbn [result_bind]. by apply IH.
Qed.

Lemma acts_sim copies acts : ∀ m (r : RocksStorage) dir dn tn,
  sim m r dn tn → admissible_run m (writes acts) →
  (dn + N.of_nat (length (writes acts)) < id_bound)%N → (tn + total_links (writes acts) < u64_bound)%N →
  ∃ m' r' dir' dn' tn', foldl_res mem_step m (writes acts) = Ok m' ∧ foldl_res (act copies) (r, dir) acts = Ok (r', dir') ∧
    sim m' r' dn' tn' ∧ (dn' ≤ dn + N.of_nat (length (writes acts)))%N ∧ (tn' ≤ tn + total_links (writes acts))%N ∧
    (Forall (λ a, backs_up a = false) acts → dir' = dir).
Proof.
  induction acts as [|[st backups|] acts IH]; intros m r dir dn tn Hs Hadm Hb1 Hb2; cbn [foldl_res act fst snd].
  - exists m, r, dir, dn, tn. split_and!; try done; lia.
  - change (writes (Write st backups :: acts)) with ([st] ++ writes acts) in *. rewrite length_app in *. cbn [length] in *.
    rewrite total_links_app in *. destruct Hadm as [Hadm Hrest].
    destruct (backups_run copies m r dn tn st backups dir Hs Hadm) as [dir1 E1]. rewrite E1. cbn [result_bind].
    destruct (step_sim m r dn tn st Hs Hadm) as (m1 & r1 & d1 & t1 & Em & Er & Hs1 & Hd1 & Ht1); [lia|lia|].
    cbn [app foldl_res]. rewrite Em, Er. cbn [result_bind].
    destruct (IH m1 r1 dir1 d1 t1 Hs1 (Hrest m1 Em)) as (m' & r' & dir' & dn' & tn' & F1 & F2 & Hs' & Hd' & Ht' & Hq); [lia|lia|].
    exists m', r', dir', dn', tn'. split_and!; try done; [lia|lia|].
    intros [Hb Hno]%Forall_cons. rewrite (Hq Hno). destruct backups; [by injection E1|done].
  - cbn [result_bind]. destruct (IH m r (backup_round copies (db r) dir).1 dn tn Hs Hadm Hb1 Hb2) as (m' & r' & dir' & dn' & tn' & F1 & F2 & Hs' & Hd' & Ht' & _).
    exists m', r', dir', dn', tn'. split_and!; try done. by intros [? _]%Forall_cons.
Qed.

(** The writer's part of a run. *)
Lemma act_writes copies acts : ∀ (r : RocksStorage) dir r' dir' r'',
  foldl_res rocks_step r (writes acts) = Ok r'' → foldl_res (act copies) (r, dir) acts = Ok (r', dir') → r'' = r'.
Proof.
  induction acts as [|[st backups|] acts IH]; intros r dir r' dir' r'' Hw Ha; cbn [foldl_res act fst snd] in Ha.
  - injection Ha as <- _. by injection Hw.
  - change (writes (Write st backups :: acts)) with (st :: writes acts) in Hw. cbn [foldl_res] in Hw.
    destruct (foldl_res (backup_during copies r st) dir backups); [|done]. cbn [result_bind] in Ha.
    destruct (rocks_step r st) as [r1|]; [|done]. cbn [result_bind] in *. by eapply IH.
  - by eapply IH.
Qed.

Lemma admissible_run_app m s1 s2 :
  admissible_run m (s1 ++ s2) ↔ admissible_run m s1 ∧ ∀ m', foldl_res mem_step m s1 = Ok m' → admissible_run m' s2.
Proof.
  revert m; induction s1 as [|st s1 IH]; intros m; cbn [app admissible_run foldl_res].
  - split; [|naive_solver]. intros Hs. split; [done|]. by intros ? [= <-].
  - split.
    + intros [H1 H2]. split.
      * split; [done|]. intros m' Hm. by apply IH, H2.
      * intros m' Hm'. destruct (mem_step m st) as [m1|]; [|done]. cbn [result_bind] in Hm'. by eapply (proj2 (proj1 (IH m1) (H2 m1 eq_refl))).
    + intros [[H1 H2] H3]. split; [done|]. intros m' Hm. apply IH. split; [by apply H2|]. intros m2 Hm2. apply H3. rewrite Hm. exact Hm2.
Qed.

Lemma backup_writes_app a1 a2 : writes (a1 ++ a2) = writes a1 ++ writes a2.
Proof. apply omap_app. Qed.

(** A round of an engine that works leaves the new backup last, and at most
    the copies asked for. *)
Lemma round_kept copies d dir :
  (∀ dir, eng_open dir = Ok ()) → (∀ dir d, (eng_create dir d).2 = Ok ()) → (∀ dir n, (eng_purge dir n).2 = Ok ()) → copies ≠ Some 0 →
  let dir' := (backup_round copies d dir).1 in
  last (eng_backups dir') = Some d ∧ ∀ n, copies = Some n → length (eng_backups dir') ≤ n.
Proof.
  intros Ho Hc Hp Hn. unfold backup_round, do_backup. rewrite Ho. destruct (eng_create dir d) as [dir1 r1] eqn:E1. cbn [fst].
  pose proof (Hc dir d) as Hr. rewrite E1 in Hr. cbn [snd] in Hr. subst r1. apply eng_create_ok in E1. destruct copies as [n|]; cbn [fst].
  - unfold trim_backups. rewrite Ho. destruct (eng_purge dir1 n) as [dir2 r2] eqn:E2. pose proof (Hp dir1 n) as Hr. rewrite E2 in Hr.
    cbn [snd fst] in *. subst r2. apply eng_purge_ok in E2. rewrite E2, E1. split.
    + assert (n ≠ 0) by naive_solver. rewrite drop_app_le by (rewrite length_app; simpl; lia). by rewrite last_snoc.
    + intros n' [= <-]. rewrite length_drop. lia.
  - split; [by rewrite E1, last_snoc|done].
Qed.

(** The database of the last backup of an act, on an engine that works. *)
Lemma act_backs_up copies m (r : RocksStorage) dir dn tn a r' dir' :
  (∀ dir, eng_open dir = Ok ()) → (∀ dir d, (eng_create dir d).2 = Ok ()) → (∀ dir n, (eng_purge dir n).2 = Ok ()) → copies ≠ Some 0 →
  sim m r dn tn → (∀ st ns, a = Write st ns → admissible_step m st) → backs_up a = true → act copies (r, dir) a = Ok (r', dir') →
  ∃ m' d, backed_up m a m' ∧ sim m' (mkRocks d (did_id_table r) (target_id_table r) (is_writer r)) dn tn ∧
    last (eng_backups dir') = Some d ∧ ∀ n, copies = Some n → length (eng_backups dir') ≤ n.
Proof.
  intros Ho Hc Hp Hn Hs Ha Hb Hact. destruct a as [st backups|]; cbn [act fst snd] in Hact.
  - destruct backups as [|n backups _] using rev_ind; [done|]. rewrite foldl_res_app in Hact.
    destruct (backups_run copies m r dn tn st backups dir Hs (Ha _ _ eq_refl)) as [dir1 E1]. rewrite E1 in Hact. cbn [result_bind foldl_res] in Hact.
    destruct (step_seen_sim m r dn tn st n Hs (Ha _ _ eq_refl)) as (m' & d & E & Hm' & Hs'). unfold backup_during in Hact. rewrite E in Hact.
    cbn [result_bind] in Hact. destruct (rocks_step r st) as [r1|]; [|done]. injection Hact as <- <-.
    exists m', d. split; [|split; [done|by apply round_kept]]. destruct st as [event cursor|]; [|done]. exists n. by rewrite last_snoc.
  - injection Hact as <- <-. exists m, (db r). split; [done|]. split; [by destruct r|by apply round_kept].
Qed.

(** C9. Backups work.  On an engine whose operations all succeed, and with any
    number of copies but zero, after any admissible history of events and
    restarts, with backups taken between them and in the middle of them, the
    writer is not disturbed, the directory holds at most the copies asked for,
    and what the restore tool brings back opens as a store that answers every
    link query like a memory store: the one of the events before the last
    backup, whatever was written since; if that backup was taken in the middle
    of an account deletion, after [n] of its chunks, then without some records
    of the account, at most 1024 per chunk, as if these had been deleted one by
    one. *)
Theorem restored_store_serves (d : DB) (dir : Dir) copies before a after :
  (∀ cf k, db_get_cf d cf k = None) →
  (∀ dir, eng_open dir = Ok ()) → (∀ dir d, (eng_create dir d).2 = Ok ()) → (∀ dir n, (eng_purge dir n).2 = Ok ()) →
  (∀ dir d, last (eng_backups dir) = Some d → ∃ d', eng_restore_latest dir = Ok d') →
  copies ≠ Some 0 → backs_up a = true → Forall (λ a, backs_up a = false) after →
  admissible_run Mem.new (writes (before ++ a :: after)) →
  (2 + N.of_nat (length (writes (before ++ a :: after))) < id_bound)%N → (2 + total_links (writes (before ++ a :: after)) < u64_bound)%N →
  ∃ r0 r dir' m m' d' r',
    open_readmode d false = Ok r0 ∧ foldl_res (act copies) (r0, dir) (before ++ a :: after) = Ok (r, dir') ∧
    foldl_res rocks_step r0 (writes (before ++ a :: after)) = Ok r ∧
    (∀ n, copies = Some n → length (eng_backups dir') ≤ n) ∧
    foldl_res mem_step Mem.new (writes before) = Ok m ∧ backed_up m a m' ∧
    restore dir' = Ok (Some d') ∧ open_readmode d' false = Ok r' ∧ same_answers r' m'.
Proof.
  intros Hd Ho Hc Hp Hr Hn Hb Hafter Hadm Hb1 Hb2. destruct (open_empty_sim d Hd) as (r0 & E0 & Hs0).
  destruct (run_sim (writes (before ++ a :: after)) _ _ _ _ Hs0 Hadm) as (_ & rr & _ & _ & _ & Err & _); [lia|lia|].
  rewrite (cons_middle a before after), backup_writes_app in Hadm, Hb1, Hb2. rewrite length_app in Hb1. rewrite total_links_app in Hb2.
  pose proof (proj1 (admissible_run_app _ _ _) Hadm) as [Hbefore Hrest].
  destruct (acts_sim copies before _ r0 dir _ _ Hs0 Hbefore) as (m & r1 & dir1 & dn & tn & Em & E1 & Hs1 & Hd1 & Ht1 & _); [lia|lia|].
  specialize (Hrest m Em).
  destruct (acts_sim copies ([a] ++ after) _ r1 dir1 _ _ Hs1 Hrest) as (_ & r & dir3 & _ & _ & _ & E2 & _); [lia|lia|].
  rewrite foldl_res_app in E2. destruct (foldl_res (act copies) (r1, dir1) [a]) as [[r2 dir2]|] eqn:Ea; [|done]. cbn [result_bind] in E2.
  assert (Ha : act copies (r1, dir1) a = Ok (r2, dir2)) by (cbn [foldl_res] in Ea; destruct (act copies (r1, dir1) a); [exact Ea|done]).
  assert (Hst : ∀ st ns, a = Write st ns → admissible_step m st) by (intros st ns ->; apply Hrest).
  destruct (act_backs_up copies m r1 dir1 dn tn a r2 dir2 Ho Hc Hp Hn Hs1 Hst Hb Ha) as (m' & db' & Hm' & Hs' & Hlast & Hlen).
  assert (dir3 = dir2) as ->.
  { clear -E2 Hafter. revert r2 dir2 E2. induction Hafter as [|[st [|]|] l Hx _ IH]; intros r2 dir2 E2; try done; [by injection E2|].
    cbn [foldl_res act fst snd result_bind] in E2. destruct (rocks_step r2 st) as [r3|]; cbn [result_bind] in E2; [by eapply IH|done]. }
  destruct (reopen_sim m' _ dn tn false Hs') as (r' & dn' & tn' & Eo & Hsr & _); [lia|lia|]. cbn [db] in Eo.
  destruct (Hr dir2 _ Hlast) as [d' Hrest']. pose proof (eng_restore_ok dir2 d' Hrest') as Hd'. rewrite Hlast in Hd'. injection Hd' as <-.
  assert (Hall : foldl_res (act copies) (r0, dir) (before ++ a :: after) = Ok (r, dir2)).
  { rewrite (cons_middle a before after), foldl_res_app, E1. cbn [result_bind]. by rewrite foldl_res_app, Ea. }
  assert (rr = r) as -> by (by eapply act_writes).
  exists r0, r, dir2, m, m', db', r'. split_and!; [done|exact Hall|exact Err|done|done|done| |done|by eapply Contract.sim_same_answers].
  unfold restore. by rewrite Ho, Hrest'.
Qed.

(** A backup that fails is reported as a success: only the failure to open the
    engine is not. *)
Theorem failed_backup_reported (d : DB) (dir dir' : Dir) e :
  eng_open dir = Ok () → eng_create dir d = (dir', Err e) →
  backup_round None d dir = (dir', true) ∧ eng_backups dir' = eng_backups dir.
Proof.
  intros Ho Hc. unfold backup_round, do_backup. rewrite Ho, Hc. split; [done|]. by eapply eng_create_err.
Qed.
End Restored.

(** ** The wait *)

(** The readings are at least a second apart. *)
Fixpoint spaced (readings : list (Z * bool)) : Prop :=
  match readings with
  | x :: ((y :: _) as rest) => (x.1 + minimum_sleep ≤ y.1)%Z ∧ spaced rest
  | _ => True
  end.

Lemma wait_loop_cons sleep t c readings : wait_loop sleep ((t, c) :: readings) =
  if decide (sleep < t)%Z then WaitPanics else if c then Quit
  else if decide (sleep - t ≤ 0)%Z then StartBackup else if decide (sleep - t < minimum_sleep)%Z then StartBackup else wait_loop sleep readings.
Proof. done. Qed.

(** Every turn of the wait sleeps for a second at least, so that it ends: in a
    backup or a quit, or in a panic. *)
Lemma wait_ends sleep readings t0 c0 :
  (0 ≤ t0)%Z → spaced ((t0, c0) :: readings) → (sleep < t0 + Z.of_nat (length readings) * minimum_sleep)%Z →
  wait_loop sleep ((t0, c0) :: readings) ≠ StillWaiting.
Proof.
  revert t0 c0; induction readings as [|[t1 c1] readings IH]; intros t0 c0 H0 Hsp Hlen; cbn [length] in Hlen.
  - rewrite wait_loop_cons, decide_True by lia. done.
  - rewrite wait_loop_cons. destruct (decide _); [done|]. destruct c0; [done|]. destruct (decide _); [done|]. destruct (decide _); [done|].
    destruct Hsp as [Hs Hsp]. cbn [fst] in Hs. apply IH; [unfold minimum_sleep in *; lia|done|]. rewrite Nat2Z.inj_succ in Hlen. lia.
Qed.

(** The wait ends in a backup only in its last second. *)
Lemma wait_starts sleep readings : wait_loop sleep readings = StartBackup →
  ∃ t, (t, false) ∈ readings ∧ (sleep - minimum_sleep < t ≤ sleep)%Z.
Proof.
  induction readings as [|[t c] readings IH]; [done|]. cbn [wait_loop]. destruct (decide _); [done|]. destruct c; [done|].
  destruct (decide _); [intros _; exists t; split; [by left|unfold minimum_sleep in *; lia]|].
  destruct (decide _); [intros _; exists t; split; [by left|lia]|]. intros Hw. destruct (IH Hw) as (t' & Hin & Ht). exists t'. split; [by right|done].
Qed.

(** A second of sleep that takes longer than what was left panics, also when
    the service is shutting down: the subtraction comes first. *)
Theorem backup_wait_panics sleep t1 t2 c readings :
  (0 ≤ t1)%Z → (minimum_sleep ≤ sleep - t1)%Z → (sleep < t2)%Z →
  wait_loop sleep ((t1, false) :: (t2, c) :: readings) = WaitPanics.
Proof.
  intros H0 H1 H2. cbn [wait_loop]. unfold minimum_sleep in *. rewrite decide_False by lia. rewrite decide_False by lia.
  rewrite decide_False by lia. by rewrite decide_True by lia.
Qed.

(** ** How the threads end *)

(** The token is cancelled exactly if ctrl-c came or a thread returned. *)
Record process_inv (es : list ProcessEvent) (p : Process) : Prop := {
  pi_ctrlc : desperation p ≠ 0 ↔ CtrlC ∈ es;
  pi_cancelled : cancelled p = true ↔ desperation p ≠ 0 ∨ th_consumer p = Returned ∨ th_server p = Returned;
  pi_monitor : th_monitor p = Returned → cancelled p = true;
  pi_monitor_ok : th_monitor p ≠ Panicked
}.

Lemma run_snoc es e : run (es ++ [e]) = step (run es) e.
Proof. unfold run. by rewrite foldl_app. Qed.

Lemma process_inv_run es : process_inv es (run es).
Proof.
  induction es as [|e es IH] using rev_ind.
  { constructor; simpl; [split; [done|by intros ?%not_elem_of_nil]|naive_solver|done|done]. }
  rewrite run_snoc. destruct IH as [Hd Hc Hm Hok]. revert Hd Hc Hm Hok. generalize (run es). intros p Hd Hc Hm Hok.
  assert (Hin : ∀ x, x ≠ CtrlC → CtrlC ∈ es ++ [x] ↔ CtrlC ∈ es).
  { intros x Hx. rewrite elem_of_app, list_elem_of_singleton. naive_solver. }
  destruct e as [|o|o|]; simpl.
  - assert (Hyes : CtrlC ∈ es ++ [CtrlC]) by (rewrite elem_of_app, list_elem_of_singleton; by right).
    destruct (desperation p) eqn:E; constructor; simpl; rewrite ?E; naive_solver.
  - destruct (th_consumer p) eqn:E; constructor; simpl; rewrite ?E, ?Hin by done; try done.
    + destruct o; simpl; [naive_solver|]. rewrite Hc. naive_solver.
    + intros Hr. destruct o; [done|by apply Hm].
  - destruct (th_server p) eqn:E; constructor; simpl; rewrite ?E, ?Hin by done; try done.
    + destruct o; simpl; [naive_solver|]. rewrite Hc. naive_solver.
    + intros Hr. destruct o; [done|by apply Hm].
  - destruct (th_monitor p) eqn:E; [|by constructor; rewrite ?E, ?Hin|done].
    destruct (cancelled p) eqn:Ec; constructor; simpl; rewrite ?E, ?Hin; naive_solver.
Qed.

(** The token is cancelled exactly if ctrl-c came, [consume] returned, with an
    error or without, or the server ended well; then the monitor ends when it
    next looks, and not before.  The scope ends when all three threads have, and
    then panics exactly if the consumer or the server did. *)
Theorem threads_end es :
  let p := run es in
  (cancelled p = true ↔ CtrlC ∈ es ∨ th_consumer p = Returned ∨ th_server p = Returned) ∧
  (th_monitor p = Up → th_monitor (step p MonitorLooks) = if cancelled p then Returned else Up) ∧
  (∀ r, scope_ends p = Some r ↔ th_consumer p ≠ Up ∧ th_server p ≠ Up ∧ th_monitor p = Returned ∧
     r = if decide (th_consumer p = Panicked ∨ th_server p = Panicked) then Err "a scoped thread panicked" else Ok ()).
Proof.
  cbv zeta. destruct (process_inv_run es) as [Hd Hc Hm Hok]. split_and!.
  - by rewrite Hc, Hd.
  - intros Hu. simpl. rewrite Hu. by destruct (cancelled (run es)).
  - intros r. unfold scope_ends. destruct (th_consumer _), (th_server _), (th_monitor _); simpl; naive_solver.
Qed.

(** A thread that panics does not cancel the token: a store that fails, a reader
    of the stream that panics, or a server that cannot start leave the other
    threads up, however often the monitor looks, until ctrl-c comes or one of
    them returns. *)
Theorem panic_leaves_others es e looks :
  cancelled (run es) = false → e = ConsumerEnds None ∨ e = ServerEnds None → Forall (λ x, x = MonitorLooks) looks →
  let q := run (es ++ e :: looks) in
  cancelled q = false ∧ th_monitor q = Up ∧ scope_ends q = None.
Proof.
  intros Hc He Hl. cbv zeta.
  assert (Hq : cancelled (run (es ++ e :: looks)) = false).
  { rewrite (cons_middle e es looks), app_assoc. induction looks as [|x looks IH] using rev_ind.
    - rewrite app_nil_r, run_snoc. destruct He as [-> | ->]; simpl; [by destruct (th_consumer (run es))|by destruct (th_server (run es))].
    - apply Forall_app in Hl as [Hl [-> _]%Forall_cons]. rewrite app_assoc, run_snoc. cbn [step]. rewrite (IH Hl). destruct (th_monitor _); by apply IH. }
  destruct (process_inv_run (es ++ e :: looks)) as [_ _ Hm Hok].
  assert (Hup : th_monitor (run (es ++ e :: looks)) = Up) by (destruct (th_monitor _); [done|by rewrite Hm in Hq|done]).
  split_and!; [done|done|]. unfold scope_ends. rewrite Hup. rewrite decide_True by tauto. done.
Qed.

(** A failed push is such a panic. *)
Lemma failed_push_panics cursor pushes e joined : Err e ∈ pushes → consume_end cursor pushes joined = None.
Proof.
  intros Hin. unfold consume_end.
  assert (forallb (λ r : result string (), match r with Ok _ => true | Err _ => false end) pushes = false) as ->.
  { apply not_true_iff_false. intros Hall. rewrite forallb_forall in Hall. apply list_elem_of_In in Hin. by specialize (Hall _ Hin). }
  by destruct cursor as [[]|].
Qed.

(** When the consumer is the first to stop, the writer is dropped while the
    monitor still holds a reader: the backup task is not waited for. *)
Theorem backup_not_awaited es o :
  cancelled (run es) = false → th_consumer (run es) = Up → backup_awaited (run (es ++ [ConsumerEnds o])) = Some false.
Proof.
  intros Hc Hu. rewrite run_snoc. cbn [step]. rewrite Hu. cbn [backup_awaited]. f_equal.
  pose proof (process_inv_run es) as [_ _ Hm Hok]. unfold drop_writer.
  destruct (th_monitor (run es)); [by rewrite andb_comm|by rewrite Hm in Hc|done].
Qed.

(** ** The file consumer *)

(** With a queue that takes everything, the values of the lines are sent in
    order, up to the first line that cannot be read, or does not parse, which
    alone is an error. *)
Lemma consume_jsonl_file_spec parse lines :
  ∃ n, (consume_jsonl_file parse lines []).1 = omap (λ l, l ≫= parse) (take n lines) ∧
    Forall (λ l, is_Some (l ≫= parse)) (take n lines) ∧
    match lines !! n with
    | None => n = length lines ∧ (consume_jsonl_file parse lines []).2 = Ok ()
    | Some None => (consume_jsonl_file parse lines []).2 = Ok ()
    | Some (Some line) => parse line = None ∧ (consume_jsonl_file parse lines []).2 = Err "parse error"
    end.
Proof.
  induction lines as [|[line|] lines IH]; [by exists 0| |by exists 0]. cbn [consume_jsonl_file].
  destruct (parse line) as [value|] eqn:E; [|exists 0; simpl; by rewrite ?E]. destruct IH as (n & H1 & H2 & H3). exists (S n).
  cbn [tail]. destruct (consume_jsonl_file parse lines []) as [sent r]. cbn [fst snd] in *. cbn [take omap list_omap mbind option_bind lookup list_lookup].
  rewrite E. split_and!; [by f_equal|constructor; [cbn [mbind option_bind]; by rewrite E|done]|]. destruct (lines !! n) as [[]|]; [done|done|]. destruct H3. simpl. split; [lia|done].
Qed.

(** ** Concrete runs *)

#[local] Instance ref_engine (D : Type) : BackupEngine D := {
  Dir := list D;
  eng_open _ := Ok ();
  eng_create dir d := (dir ++ [d], Ok ());
  eng_purge dir n := (drop (length dir - n) dir, Ok ());
  eng_restore_latest dir := match last dir with Some d => Ok d | None => Err "no backup" end
}.
#[local] Instance ref_engine_laws (D : Type) : @BackupEngineLaws D (ref_engine D).
Proof.
  refine {| eng_backups (dir : @Dir D (ref_engine D)) := dir |}; simpl; try done.
  - by intros dir d dir' [= <-].
  - by intros dir n dir' [= <-].
  - intros dir d. by destruct (last dir) as [d'|]; [intros [= ->]|].
Defined.

(** Two links, a backup, and the deletion of one of them. *)
Definition linked : list Act := (λ st, Write st []) <$> take 2 LinkStats.stat_steps.
Definition deleted : list Act := (λ st, Write st []) <$> drop 2 LinkStats.stat_steps.

#[local] Existing Instance Reference.ref_bincode.
#[local] Existing Instance Contract.ref_db.

Lemma restored_store_serves_witness :
  ∃ r0 r dir' m d' r', open_readmode Contract.empty_db false = Ok r0 ∧
    foldl_res (act (Some 1)) (r0, [] : list DB) (linked ++ TakeBackup :: deleted) = Ok (r, dir') ∧
    foldl_res mem_step Mem.new (take 2 LinkStats.stat_steps) = Ok m ∧
    restore dir' = Ok (Some d') ∧ open_readmode d' false = Ok r' ∧ same_answers r' m.
Proof.
  destruct (@restored_store_serves Reference.ref_bincode Reference.ref_bincode_laws Contract.ref_db (Reference.ref_rocksdb_laws merge_op)
    (ref_engine DB) (ref_engine_laws DB) Contract.empty_db [] (Some 1) linked TakeBackup deleted)
    as (r0 & r & dir' & m & m' & d' & r' & E0 & Er & _ & _ & Em & Hb & Ed & Eo & Hs).
  - intros cf k. apply lookup_empty.
  - reflexivity.
  - reflexivity.
  - reflexivity.
  - intros dir d Hd. exists d. simpl in *. rewrite Hd. reflexivity.
  - discriminate.
  - reflexivity.
  - repeat (constructor; [reflexivity|]). constructor.
  - apply (bool_decide_unpack (admissible_run Mem.new (writes (linked ++ TakeBackup :: deleted)))). vm_compute. exact I.
  - reflexivity.
  - reflexivity.
  - simpl in Hb. subst m'. exists r0, r, dir', m, d', r'. split; [exact E0|]. split; [exact Er|]. split; [exact Em|]. split; [exact Ed|]. split; [exact Eo|exact Hs].
Defined.

Lemma panic_leaves_others_witness :
  let q := run ([] ++ ConsumerEnds (consume_end None [Ok (); Err "no space left on device"] (Some (Ok ()))) :: [MonitorLooks; MonitorLooks]) in
  cancelled q = false ∧ th_server q = Up ∧ scope_ends q = None.
Proof.
  destruct (panic_leaves_others [] (ConsumerEnds None) [MonitorLooks; MonitorLooks]) as (Hc & _ & Hs).
  - reflexivity.
  - left. reflexivity.
  - repeat (constructor; [reflexivity|]). constructor.
  - split; [exact Hc|]. split; [reflexivity|exact Hs].
Defined.

Lemma backup_wait_panics_witness : wait_loop 3_600_000_000_000 [(3_598_999_900_000, false); (3_600_000_000_001, true)]%Z = WaitPanics.
Proof. apply (backup_wait_panics 3_600_000_000_000 3_598_999_900_000 3_600_000_000_001 true []); unfold minimum_sleep; lia. Defined.
End ConstellationProcess.
