(* ===== verification/ConstellationClients.v ===== *)
(** * constellation: clients of the storage interface
      (constellation/src/storage/mod.rs)

    A client is any program over the storage interface: it pushes events, asks
    queries and decides on the answers what to do next.  Shown here: a
    client whose events are admissible runs on [RocksStorage] as on
    [MemStorage], over any RocksDB.  The repository's own tests of the interface are such clients;
    they run on both stores. *)

From S2P Require Import Prelude RustStr Bytes LinksRecord RocksApi.
From S2P Require Import ConstellationTypes ConstellationMem ConstellationRocks ConstellationRocksView ConstellationRefine.
From S2P Require Import ConstellationSim ConstellationContract.
Import Rocks.

#[global] Instance PagedAppendingCollection_eq_dec {T} `{EqDecision T} : EqDecision (PagedAppendingCollection T).
Proof. solve_decision. Defined.

Module Clients.

(** ** Programs over the interface *)

Inductive Client (A : Type) : Type :=
  | Stop (a : A)
  | Push (event : ActionableEvent) (cursor : N) (k : Client A)
  | GetCount (target collection path : string) (k : N → Client A)
  | GetDistinctDidCount (target collection path : string) (k : N → Client A)
  | GetLinks (target collection path : string) (limit : N) (cursor : option N) (k : PagedAppendingCollection RecordId → Client A)
  | GetDistinctDids (target collection path : string) (limit : N) (cursor : option N) (k : PagedAppendingCollection string → Client A)
  | GetAllRecordCounts (target : string) (k : gmap string (gmap string N) → Client A)
  | GetAllCounts (target : string) (k : gmap string (gmap string CountsByCount) → Client A)
  | GetStats (k : StorageStats → Client A).
Arguments Stop {A} a.
Arguments Push {A} event cursor k.
Arguments GetCount {A} target collection path k.
Arguments GetDistinctDidCount {A} target collection path k.
Arguments GetLinks {A} target collection path limit cursor k.
Arguments GetDistinctDids {A} target collection path limit cursor k.
Arguments GetAllRecordCounts {A} target k.
Arguments GetAllCounts {A} target k.
Arguments GetStats {A} k.

Fixpoint run_client {St A} `{LinkReader St, LinkStorage St} (s : St) (c : Client A) : StoreResult A :=
  match c with
  | Stop a => Ok a
  | Push event cursor k => s ←? push s event cursor; run_client s k
  | GetCount target collection path k => x ←? get_count s target collection path; run_client s (k x)
  | GetDistinctDidCount target collection path k => x ←? get_distinct_did_count s target collection path; run_client s (k x)
  | GetLinks target collection path limit cursor k => x ←? get_links s target collection path limit cursor; run_client s (k x)
  | GetDistinctDids target collection path limit cursor k => x ←? get_distinct_dids s target collection path limit cursor; run_client s (k x)
  | GetAllRecordCounts target k => x ←? get_all_record_counts s target; run_client s (k x)
  | GetAllCounts target k => x ←? get_all_counts s target; run_client s (k x)
  | GetStats k => x ←? get_stats s; run_client s (k x)
  end.

(** Clients that push only admissible events, on the ids that are left, and do
    not look at the estimates. *)
Fixpoint careful {A} (dn tn : N) (m : Mem.MemStorageData) (c : Client A) : bool :=
  match c with
  | Stop _ => true
  | Push event cursor k =>
      bool_decide (admissible m event) && (dn + 1 <? id_bound)%N && (tn + event_links event <? u64_bound)%N &&
      match push m event cursor with Ok m' => careful (dn + 1) (tn + event_links event) m' k | Err _ => true end
  | GetCount target collection path k =>
      match get_count m target collection path with Ok x => careful dn tn m (k x) | Err _ => true end
  | GetDistinctDidCount target collection path k =>
      match get_distinct_did_count m target collection path with Ok x => careful dn tn m (k x) | Err _ => true end
  | GetLinks target collection path limit cursor k =>
      match get_links m target collection path limit cursor with Ok x => careful dn tn m (k x) | Err _ => true end
  | GetDistinctDids target collection path limit cursor k =>
      match get_distinct_dids m target collection path limit cursor with Ok x => careful dn tn m (k x) | Err _ => true end
  | GetAllRecordCounts target k => match get_all_record_counts m target with Ok x => careful dn tn m (k x) | Err _ => true end
  | GetAllCounts target k => match get_all_counts m target with Ok x => careful dn tn m (k x) | Err _ => true end
  | GetStats _ => false
  end.

Section Agree.
Context `{BL : BincodeLaws} `{RL : @RocksDbLaws RD merge_op}.

Lemma careful_sim {A} (c : Client A) : ∀ m (r : RocksStorage) dn tn dn' tn',
  sim m r dn' tn' → (dn' ≤ dn)%N → (tn' ≤ tn)%N → careful dn tn m c = true → run_client r c = run_client m c.
Proof.
  induction c as [a|event cursor k IH|t p q k IH|t p q k IH|t p q lim cur k IH|t p q lim cur k IH|t k IH|t k IH|k IH];
    intros m r dn tn dn' tn' Hs Hdn Htn Hc; cbn [run_client careful] in *; [done|..|done].
  - apply andb_true_iff in Hc as [[[Ha Hb1]%andb_true_iff Hb2]%andb_true_iff Hk].
    apply bool_decide_eq_true in Ha. apply N.ltb_lt in Hb1, Hb2.
    destruct (push_sim m r dn' tn' event cursor Hs Ha) as (m2 & r2 & dn2 & tn2 & E1 & E2 & Hs2 & Hd2 & Ht2); [lia|lia|].
    rewrite E1 in *. rewrite E2. cbn [result_bind]. eapply IH; [exact Hs2| | |exact Hk]; lia.
  - destruct (Contract.sim_same_answers m r dn' tn' Hs t p q 0%N None) as (-> & _). destruct (get_count m t p q); [|done]. by eapply IH.
  - destruct (Contract.sim_same_answers m r dn' tn' Hs t p q 0%N None) as (_ & -> & _). destruct (get_distinct_did_count m t p q); [|done]. by eapply IH.
  - destruct (Contract.sim_same_answers m r dn' tn' Hs t p q lim cur) as (_ & _ & -> & _). destruct (get_links m t p q lim cur); [|done]. by eapply IH.
  - destruct (Contract.sim_same_answers m r dn' tn' Hs t p q lim cur) as (_ & _ & _ & -> & _). destruct (get_distinct_dids m t p q lim cur); [|done]. by eapply IH.
  - destruct (Contract.sim_same_answers m r dn' tn' Hs t "" "" 0%N None) as (_ & _ & _ & _ & -> & _). destruct (get_all_record_counts m t); [|done]. by eapply IH.
  - destruct (Contract.sim_same_answers m r dn' tn' Hs t "" "" 0%N None) as (_ & _ & _ & _ & _ & ->). destruct (get_all_counts m t); [|done]. by eapply IH.
Qed.

End Agree.
End Clients.
