(* ===== verification/ConstellationTests.v ===== *)
(** * constellation: the repository's tests of the storage interface
      (the tests modules of constellation/src/storage/mod.rs and of rocks_store.rs)

    Every test of the interface as a client program, run on both stores as the
    macro [test_each_storage] does, and then on RocksDB as it is specified
    rather than on one instance of it. *)

From S2P Require Import Prelude RustStr Bytes LinksRecord RocksApi.
From S2P Require Import ConstellationTypes ConstellationMem ConstellationRocks ConstellationRocksView ConstellationRefine.
From S2P Require Import ConstellationSim ConstellationContract ConstellationClients.
Import Rocks Clients.

Module StorageTests.

(** ** Assertions *)

Abbreviation Test := (Client bool).
(** A statement of a test: what follows it runs if it holds. *)
Abbreviation Stmt := (Test → Test).

Definition assert (P : Prop) `{Decision P} : Stmt := λ k, if decide P then k else Stop false.
Definition pushes (event : ActionableEvent) : Stmt := λ k, Push event 0 k.
Definition count_is (target collection path : string) (n : N) : Stmt :=
  λ k, GetCount target collection path (λ x, assert (x = n) k).
Definition did_count_is (target collection path : string) (n : N) : Stmt :=
  λ k, GetDistinctDidCount target collection path (λ x, assert (x = n) k).
Definition links_are (target collection path : string) (limit : N) (cursor : option N) (expected : PagedAppendingCollection RecordId) : Stmt :=
  λ k, GetLinks target collection path limit cursor (λ x, assert (x = expected) k).
Definition dids_are (target collection path : string) (limit : N) (cursor : option N) (expected : PagedAppendingCollection string) : Stmt :=
  λ k, GetDistinctDids target collection path limit cursor (λ x, assert (x = expected) k).

Definition within_range (n : N) (range : N * N) : Prop := (range.1 ≤ n ≤ range.2)%N.
#[local] Instance within_range_dec n range : Decision (within_range n range).
Proof. unfold within_range. apply _. Defined.

Definition test (stmts : list Stmt) (k : Test) : Test := foldr (λ s k, s k) k stmts.

(** ** The tests *)

Definition rid (did collection rkey : string) : RecordId := mkRecordId did collection rkey.
Definition link (target path : string) : Links.CollectedLink := Links.mkCollectedLink path (Links.Uri target).
Definition create (did rkey : string) (ls : list Links.CollectedLink) : Stmt := pushes (CreateLinks (rid did "app.t.c" rkey) ls).
Definition remove (did collection rkey : string) : Stmt := pushes (DeleteRecord (rid did collection rkey)).
Definition asdf (i : nat) : string := "did:plc:asdf-" +:+ String (ascii_of_nat (48 + i)) "".
Definition asdf_link (i : nat) : Stmt := create (asdf i) "asdf" [link "a.com" ".abc.uri"].
Definition asdf_rid (i : nat) : RecordId := rid (asdf i) "app.t.c" "asdf".

Section Tests.
(** Whether the statistics are looked at: RocksDB estimates them. *)
Context (stats : bool).

Definition assert_stats (dids tgts recs : N * N) : Stmt :=
  λ k, if stats
       then GetStats (λ s, assert (within_range (stat_dids s) dids ∧ within_range (targetables s) tgts ∧ within_range (linking_records s) recs) k)
       else k.

Definition test_empty : Test :=
  test [count_is "" "" "" 0;
        count_is "a" "b" "c" 0;
        count_is "at://did:plc:b3rzzkblqsxhr3dgcueymkqe/app.bsky.feed.post/3lf6yc4drhk2f" "app.t.c" ".reply.parent.uri" 0;
        did_count_is "" "" "" 0;
        links_are "a.com" "app.t.c" ".abc.uri" 100 None (mkPaged (0, 0)%N [] None 0);
        dids_are "a.com" "app.t.c" ".abc.uri" 100 None (mkPaged (0, 0)%N [] None 0);
        λ k, GetAllCounts "bad-example.com" (λ x, assert (x = ∅) k);
        λ k, GetAllRecordCounts "bad-example.com" (λ x, assert (x = ∅) k);
        assert_stats (0, 0)%N (0, 0)%N (0, 0)%N] (Stop true).

Definition test_add_link : Test :=
  test [create "did:plc:asdf" "fdsa" [link "e.com" ".abc.uri"];
        count_is "e.com" "app.t.c" ".abc.uri" 1;
        did_count_is "e.com" "app.t.c" ".abc.uri" 1;
        count_is "bad.com" "app.t.c" ".abc.uri" 0;
        count_is "e.com" "app.t.c" ".bad.uri" 0;
        did_count_is "e.com" "app.t.c" ".bad.uri" 0;
        assert_stats (1, 1)%N (1, 1)%N (1, 1)%N] (Stop true).

Definition test_links : Test :=
  test [create "did:plc:asdf" "fdsa" [link "e.com" ".abc.uri"];
        remove "did:plc:asdf" "app.test.wrongcollection" "fdsa";
        count_is "e.com" "app.t.c" ".abc.uri" 1;
        remove "did:plc:asdf" "app.t.c" "wrongkey";
        count_is "e.com" "app.t.c" ".abc.uri" 1;
        remove "did:plc:asdf" "app.t.c" "fdsa";
        count_is "e.com" "app.t.c" ".abc.uri" 0;
        create "did:plc:asdf" "fdsa" [link "e.com" ".abc.uri"];
        count_is "e.com" "app.t.c" ".abc.uri" 1;
        did_count_is "e.com" "app.t.c" ".abc.uri" 1;
        create "did:plc:asdf" "fdsa2" [link "e.com" ".abc.uri"];
        count_is "e.com" "app.t.c" ".abc.uri" 2;
        did_count_is "e.com" "app.t.c" ".abc.uri" 1;
        create "did:plc:asdfasdf" "fdsa" [link "e.com" ".abc.uri"];
        count_is "e.com" "app.t.c" ".abc.uri" 3;
        did_count_is "e.com" "app.t.c" ".abc.uri" 2;
        remove "did:plc:asdf" "app.t.c" "fdsa";
        count_is "e.com" "app.t.c" ".abc.uri" 2;
        did_count_is "e.com" "app.t.c" ".abc.uri" 2;
        assert_stats (2, 2)%N (1, 1)%N (2, 2)%N] (Stop true).

Definition test_two_user_links_delete_one : Test :=
  test [create "did:plc:asdf" "A" [link "e.com" ".abc.uri"];
        count_is "e.com" "app.t.c" ".abc.uri" 1;
        did_count_is "e.com" "app.t.c" ".abc.uri" 1;
        create "did:plc:asdf" "B" [link "e.com" ".abc.uri"];
        count_is "e.com" "app.t.c" ".abc.uri" 2;
        did_count_is "e.com" "app.t.c" ".abc.uri" 1;
        remove "did:plc:asdf" "app.t.c" "A";
        count_is "e.com" "app.t.c" ".abc.uri" 1;
        did_count_is "e.com" "app.t.c" ".abc.uri" 1;
        assert_stats (1, 1)%N (1, 1)%N (1, 1)%N] (Stop true).

Definition test_accounts : Test :=
  test [create "did:plc:asdf" "A" [link "a.com" ".abc.uri"];
        create "did:plc:asdf" "B" [link "b.com" ".abc.uri"];
        count_is "a.com" "app.t.c" ".abc.uri" 1;
        count_is "b.com" "app.t.c" ".abc.uri" 1;
        create "did:plc:fdsa" "A" [link "a.com" ".abc.uri"];
        count_is "a.com" "app.t.c" ".abc.uri" 2;
        pushes (DeleteAccount "did:plc:asdf");
        count_is "a.com" "app.t.c" ".abc.uri" 1;
        count_is "b.com" "app.t.c" ".abc.uri" 0;
        assert_stats (1, 2)%N (2, 2)%N (1, 1)%N] (Stop true).

Definition multi_link : Test :=
  test [create "did:plc:asdf" "fdsa" [link "e.com" ".abc.uri"; link "f.com" ".xyz[].uri"; link "g.com" ".xyz[].uri"];
        count_is "e.com" "app.t.c" ".abc.uri" 1;
        did_count_is "e.com" "app.t.c" ".abc.uri" 1;
        count_is "f.com" "app.t.c" ".xyz[].uri" 1;
        did_count_is "f.com" "app.t.c" ".xyz[].uri" 1;
        count_is "g.com" "app.t.c" ".xyz[].uri" 1;
        did_count_is "g.com" "app.t.c" ".xyz[].uri" 1;
        remove "did:plc:asdf" "app.t.c" "fdsa";
        count_is "e.com" "app.t.c" ".abc.uri" 0;
        did_count_is "e.com" "app.t.c" ".abc.uri" 0;
        count_is "f.com" "app.t.c" ".xyz[].uri" 0;
        count_is "g.com" "app.t.c" ".xyz[].uri" 0;
        assert_stats (1, 1)%N (3, 3)%N (0, 0)%N] (Stop true).

Definition update_link : Test :=
  test [create "did:plc:asdf" "fdsa" [link "e.com" ".abc.uri"; link "f.com" ".xyz[].uri"; link "g.com" ".xyz[].uri"];
        count_is "e.com" "app.t.c" ".abc.uri" 1;
        count_is "f.com" "app.t.c" ".xyz[].uri" 1;
        count_is "g.com" "app.t.c" ".xyz[].uri" 1;
        pushes (UpdateLinks (rid "did:plc:asdf" "app.t.c" "fdsa")
          [link "h.com" ".abc.uri"; link "f.com" ".xyz[].uri"; link "i.com" ".xyz[].uri"]);
        count_is "e.com" "app.t.c" ".abc.uri" 0;
        count_is "h.com" "app.t.c" ".abc.uri" 1;
        count_is "f.com" "app.t.c" ".xyz[].uri" 1;
        count_is "g.com" "app.t.c" ".xyz[].uri" 0;
        count_is "i.com" "app.t.c" ".xyz[].uri" 1;
        assert_stats (1, 1)%N (5, 5)%N (1, 1)%N] (Stop true).

Definition update_no_links_to_links : Test :=
  test [pushes (UpdateLinks (rid "did:plc:asdf" "app.t.c" "asdf") [link "a.com" ".abc.uri"]);
        count_is "a.com" "app.t.c" ".abc.uri" 1;
        assert_stats (1, 1)%N (1, 1)%N (1, 1)%N] (Stop true).

Definition delete_multi_link_same_target : Test :=
  test [create "did:plc:asdf" "asdf" [link "a.com" ".abc.uri"; link "a.com" ".def.uri"];
        count_is "a.com" "app.t.c" ".abc.uri" 1;
        count_is "a.com" "app.t.c" ".def.uri" 1;
        remove "did:plc:asdf" "app.t.c" "asdf";
        count_is "a.com" "app.t.c" ".abc.uri" 0;
        count_is "a.com" "app.t.c" ".def.uri" 0;
        assert_stats (1, 1)%N (2, 2)%N (0, 0)%N] (Stop true).

Definition get_links_basic : Test :=
  test [create "did:plc:asdf" "asdf" [link "a.com" ".abc.uri"];
        links_are "a.com" "app.t.c" ".abc.uri" 100 None (mkPaged (1, 0)%N [rid "did:plc:asdf" "app.t.c" "asdf"] None 1);
        dids_are "a.com" "app.t.c" ".abc.uri" 100 None (mkPaged (1, 0)%N ["did:plc:asdf"] None 1);
        assert_stats (1, 1)%N (1, 1)%N (1, 1)%N] (Stop true).

Definition get_links_paged : Test :=
  test (map asdf_link (seq 1 5))
  (GetLinks "a.com" "app.t.c" ".abc.uri" 2 None (λ links, GetDistinctDids "a.com" "app.t.c" ".abc.uri" 2 None (λ dids,
    test [assert (links = mkPaged (5, 0)%N [asdf_rid 5; asdf_rid 4] (Some 3%N) 5);
          assert (dids = mkPaged (5, 0)%N [asdf 5; asdf 4] (Some 3%N) 5)]
   (GetLinks "a.com" "app.t.c" ".abc.uri" 2 (next links) (λ links, GetDistinctDids "a.com" "app.t.c" ".abc.uri" 2 (next dids) (λ dids,
     test [assert (links = mkPaged (5, 0)%N [asdf_rid 3; asdf_rid 2] (Some 1%N) 5);
           assert (dids = mkPaged (5, 0)%N [asdf 3; asdf 2] (Some 1%N) 5)]
    (GetLinks "a.com" "app.t.c" ".abc.uri" 2 (next links) (λ links, GetDistinctDids "a.com" "app.t.c" ".abc.uri" 2 (next dids) (λ dids,
      test [assert (links = mkPaged (5, 0)%N [asdf_rid 1] None 5);
            assert (dids = mkPaged (5, 0)%N [asdf 1] None 5);
            assert_stats (5, 5)%N (1, 1)%N (5, 5)%N] (Stop true)))))))))).

(** The first page of four links, and what happens before the second. *)
Definition two_pages (between : Stmt) (second : PagedAppendingCollection RecordId) (after : Stmt) : Test :=
  test (map asdf_link (seq 1 4))
  (GetLinks "a.com" "app.t.c" ".abc.uri" 2 None (λ links,
    test [assert (links = mkPaged (4, 0)%N [asdf_rid 4; asdf_rid 3] (Some 2%N) 4); between]
   (GetLinks "a.com" "app.t.c" ".abc.uri" 2 (next links) (λ links, test [assert (links = second); after] (Stop true))))).

Definition get_links_exact_multiple : Test :=
  two_pages id (mkPaged (4, 0)%N [asdf_rid 2; asdf_rid 1] None 4) (assert_stats (4, 4)%N (1, 1)%N (4, 4)%N).
Definition page_links_while_new_links_arrive : Test :=
  two_pages (asdf_link 5) (mkPaged (5, 0)%N [asdf_rid 2; asdf_rid 1] None 5) (assert_stats (5, 5)%N (1, 1)%N (5, 5)%N).
Definition page_links_while_some_are_deleted : Test :=
  two_pages (remove (asdf 2) "app.t.c" "asdf") (mkPaged (4, 1)%N [asdf_rid 1] None 3) (assert_stats (4, 4)%N (1, 1)%N (3, 3)%N).
Definition page_links_accounts_inactive : Test :=
  two_pages (pushes (DeactivateAccount (asdf 1))) (mkPaged (4, 0)%N [asdf_rid 2] None 4) (assert_stats (4, 4)%N (1, 1)%N (4, 4)%N).

Definition under {A} (abc def : A) : gmap string (gmap string A) :=
  <["app.t.c" := <[".abc.uri" := abc]> (<[".def.uri" := def]> ∅)]> ∅.

Definition test_get_all_counts : Test :=
  test [create "did:plc:asdf" "asdf" [link "a.com" ".abc.uri"; link "a.com" ".def.uri"];
        λ k, GetAllRecordCounts "a.com" (λ x, assert (x = under 1%N 1%N) k);
        λ k, GetAllCounts "a.com" (λ x, assert (x = under (mkCountsByCount 1 1) (mkCountsByCount 1 1)) k);
        assert_stats (1, 1)%N (2, 2)%N (1, 1)%N] (Stop true).

Definition suite : list Test :=
  [test_empty; test_add_link; test_links; test_two_user_links_delete_one; test_accounts; multi_link; update_link;
   update_no_links_to_links; delete_multi_link_same_target; get_links_basic; get_links_paged; get_links_exact_multiple;
   page_links_while_new_links_arrive; page_links_while_some_are_deleted; page_links_accounts_inactive; test_get_all_counts].
End Tests.

(** ** Both backends *)

#[local] Existing Instance Reference.ref_bincode.
#[local] Existing Instance Contract.ref_db.

Definition on_mem (t : Test) : StoreResult bool := run_client Mem.new t.
Definition on_rocks (t : Test) : StoreResult bool := r ←? open_readmode Contract.empty_db false; run_client r t.

Definition passed (r : StoreResult bool) : bool := match r with Ok b => b | Err _ => false end.

Lemma all_passed (f : Test → StoreResult bool) l : forallb (λ t, passed (f t)) l = true → ∀ t, t ∈ l → f t = Ok true.
Proof.
  intros Hl t Ht. rewrite forallb_forall in Hl. specialize (Hl t (proj1 (list_elem_of_In _ _) Ht)).
  by destruct (f t) as [[]|]; [|done|done].
Qed.

Lemma mem_suite_passes stats : forallb (λ t, passed (on_mem t)) (suite stats) = true.
Proof. destruct stats; vm_compute; reflexivity. Qed.
Lemma rocks_suite_passes : forallb (λ t, passed (on_rocks t)) (suite true) = true.
Proof. vm_compute. reflexivity. Qed.
Lemma suite_careful : forallb (careful 1 1 Mem.new) (suite false) = true.
Proof. vm_compute. reflexivity. Qed.

(** The repository's tests of the storage interface pass: all sixteen, with
    their statistics, on [MemStorage] and on [RocksStorage] over the reference
    database; and, up to the statistics, which RocksDB only estimates, on
    [RocksStorage] over every database that behaves as RocksDB is documented
    to. *)
Theorem storage_tests_pass :
  (∀ t, t ∈ suite true → on_mem t = Ok true ∧ on_rocks t = Ok true) ∧
  ∀ `(BL : BincodeLaws) `(RL : @RocksDbLaws RD merge_op) (d : DB), (∀ cf k, db_get_cf d cf k = None) →
    ∃ r, open_readmode d false = Ok r ∧ ∀ t, t ∈ suite false → run_client r t = Ok true.
Proof.
  split.
  - intros t Ht. split; [by apply (all_passed _ _ (mem_suite_passes true))|by apply (all_passed _ _ rocks_suite_passes)].
  - intros B BL RD RL d Hd. destruct (open_empty_sim d Hd) as (r & E & Hs). exists r. split; [done|]. intros t Ht.
    rewrite (careful_sim t Mem.new r 1 1 1 1 Hs); [|done|done|].
    + by apply (all_passed on_mem _ (mem_suite_passes false)).
    + pose proof suite_careful as Hc. rewrite forallb_forall in Hc. by apply Hc, list_elem_of_In.
Qed.

(** ** The regression test of rocks_store.rs *)

Definition rocks_delete_iterator_regression : Test :=
  test [pushes (CreateLinks (rid "did:plc:will-shortly-delete" "a.b.c" "asdf") [link "example.com" ".uri"]);
        pushes (CreateLinks (rid "did:plc:someone-else" "a.b.c" "asdf") [link "another.example.com" ".uri"]);
        pushes (DeleteAccount "did:plc:will-shortly-delete")] (Stop true).

(** It passes.  (The other test there is of the order in which RocksDB iterates,
    which the store does not rely on.) *)
Theorem rocks_regression_passes : on_rocks rocks_delete_iterator_regression = Ok true.
Proof. vm_compute. reflexivity. Qed.

End StorageTests.
