(* ===== verification/ConstellationConsumer.v ===== *)
(** * constellation: the consumer (constellation/src/consumer)

    From a jetstream message to an event of the store ([get_actionable]), the
    loop that pushes events ([consume]), and the websocket reader with its
    reconnects and its cursor ([consume_jetstream]), as a state machine driven
    by what the network does. *)

From stdpp Require Import pretty.
From S2P Require Import Prelude RustStr Bytes LinksAtUri LinksRecord.
From S2P Require Import RocksApi ConstellationTypes ConstellationMem ConstellationRocks ConstellationContract.

Module Consumer.

(** ** Numbers *)

Definition u64_max : N := (2 ^ 64 - 1)%N.

(** [x as u64] of a finite double [(-1)^s * m * 2^e]: towards zero, saturating. *)
Definition f64_as_u64 (x : spec_float) : N :=
  match x with
  | S754_zero _ | S754_nan => 0%N
  | S754_infinity s => if s then 0%N else u64_max
  | S754_finite s m e =>
      if s then 0%N
      else N.min u64_max (Z.to_N (if (0 <=? e)%Z then Zpos m * 2 ^ e else Zpos m / 2 ^ (- e))%Z)
  end.

Section WithUri.
Context `{FluentUri}.

(** [v.get::<String>()] and [let JsonValue::Object(o) = v else { return None }]. *)
Definition get_string (v : JsonValue) : option string := match v with JString s => Some s | _ => None end.
Definition get_bool (v : JsonValue) : option bool := match v with JBoolean b => Some b | _ => None end.
Definition get_object (v : JsonValue) : option (list (string * JsonValue)) :=
  match v with JObject o => Some o | _ => None end.
Definition get_number (v : JsonValue) : option spec_float := match v with JNumber n => Some n | _ => None end.

(** [v == &JsonValue::String(s)]. *)
Definition is_string (s : string) (v : option JsonValue) : bool :=
  match v with Some (JString s') => bool_decide (s' = s) | _ => false end.

Definition get_actionable_commit (root : list (string * JsonValue)) (cursor : N) : option (ActionableEvent * N) :=
  did ← obj_get "did" root ≫= get_string;
  commit ← obj_get "commit" root ≫= get_object;
  collection ← obj_get "collection" commit ≫= get_string;
  rkey ← obj_get "rkey" commit ≫= get_string;
  op ← obj_get "operation" commit;
  if is_string "create" (Some op) then
    links ← Links.collect_links <$> obj_get "record" commit;
    match links with
    | [] => None
    | _ => Some (CreateLinks (mkRecordId did collection rkey) links, cursor)
    end
  else if is_string "update" (Some op) then
    links ← Links.collect_links <$> obj_get "record" commit;
    Some (UpdateLinks (mkRecordId did collection rkey) links, cursor)
  else if is_string "delete" (Some op) then
    Some (DeleteRecord (mkRecordId did collection rkey), cursor)
  else None.

Definition get_actionable_account (root : list (string * JsonValue)) (cursor : N) : option (ActionableEvent * N) :=
  account ← obj_get "account" root ≫= get_object;
  did ← obj_get "did" account ≫= get_string;
  active ← obj_get "active" account ≫= get_bool;
  match (active : bool), obj_get "status" account with
  | true, None => Some (ActivateAccount did, cursor)
  | false, Some (JString status) =>
      if decide (status = "deactivated") then Some (DeactivateAccount did, cursor)
      else if decide (status = "deleted") then Some (DeleteAccount did, cursor)
      else None
  | _, _ => None
  end.

Definition get_actionable (event : JsonValue) : option (ActionableEvent * N) :=
  root ← get_object event;
  time_us ← obj_get "time_us" root ≫= get_number;
  let cursor := f64_as_u64 time_us in
  if is_string "commit" (obj_get "kind" root) then get_actionable_commit root cursor
  else if is_string "account" (obj_get "kind" root) then get_actionable_account root cursor
  else None.

(** [get_event_time] of jetstream.rs. *)
Definition get_event_time (v : JsonValue) : option N :=
  match v with
  | JObject root =>
      time_us ← obj_get "time_us" root;
      match time_us with JNumber n => Some (f64_as_u64 n) | _ => None end
  | _ => None
  end.

(** The receiving loop of [consume]: an event that fails to be stored panics. *)
Definition consume_one {St} `{LinkStorage St} (store : St) (update : JsonValue) : StoreResult St :=
  match get_actionable update with
  | Some (action, ts) => push store action ts
  | None => Ok store
  end.

Definition consume {St} `{LinkStorage St} (store : St) (updates : list JsonValue) : StoreResult St :=
  foldl_res consume_one store updates.

End WithUri.

(** ** The websocket reader *)

(** What one attempt to connect comes to. *)
Inductive ConnectOutcome : Type :=
  | BadRequest            (* the url or a header does not parse: [?] *)
  | NoAddress             (* the host resolves to nothing *)
  | ResolveError
  | TcpError
  | SocketOptionError     (* set_read_timeout or set_write_timeout: [?] *)
  | TlsError              (* websocket handshake *)
  | Connected.

Inductive SendOutcome : Type :=
  | Sent
  | Rejected (disconnected : bool).

(** What one turn of the reading loop comes to. *)
Inductive ReadOutcome : Type :=
  | CannotRead
  | Cancelled
  | ReadText | ReadClose | ReadPing | ReadOther
  | ConnectionClosed | AlreadyClosed
  | CapacityError | Utf8Error
  | ReadTimeout
  | ReadError (closed : bool)   (* [closed]: close() answered ConnectionClosed *)
  | BadZstd | BadString | BadJson
  | Received (v : JsonValue) (sent : SendOutcome).

Inductive Phase : Type :=
  | Connecting
  | Reading
  | Stopped (ok : bool).

Record Jetstream : Type := mkJetstream {
  phase : Phase;
  connect_retries : N;
  latest_cursor : option N;
  queued : list JsonValue
}.

Definition jetstream_start (cursor : option N) : Jetstream := mkJetstream Connecting 0 cursor [].

Definition with_phase (p : Phase) (j : Jetstream) : Jetstream :=
  mkJetstream p (connect_retries j) (latest_cursor j) (queued j).

Definition MAX_CONNECT_RETRIES : N := 7.

(** The failure branches of connecting: count, give up or back off. *)
Definition connect_failed (j : Jetstream) : Jetstream :=
  let retries := (connect_retries j + 1)%N in
  mkJetstream (if (MAX_CONNECT_RETRIES <=? retries)%N then Stopped true else Connecting)
    retries (latest_cursor j) (queued j).

Definition connect (j : Jetstream) (o : ConnectOutcome) : Jetstream :=
  match o with
  | BadRequest | SocketOptionError => with_phase (Stopped false) j
  | NoAddress | ResolveError => with_phase Connecting j
  | TcpError | TlsError => connect_failed j
  | Connected => with_phase Reading j
  end.

(** A decoded message: it needs a timestamp, then goes to the channel. *)
Definition receive (j : Jetstream) (v : JsonValue) (sent : SendOutcome) : Jetstream :=
  match get_event_time v with
  | None => j
  | Some ts =>
      match sent with
      | Rejected true => with_phase (Stopped false) j
      | Rejected false => mkJetstream Reading 0 (Some ts) (queued j)
      | Sent => mkJetstream Reading 0 (Some ts) (queued j ++ [v])
      end
  end.

Definition read (j : Jetstream) (o : ReadOutcome) : Jetstream :=
  match o with
  | Cancelled => with_phase (Stopped true) j
  | CannotRead | ConnectionClosed | AlreadyClosed | ReadTimeout | ReadError true => with_phase Connecting j
  | ReadText | ReadClose | ReadPing | ReadOther | CapacityError | Utf8Error | ReadError false
  | BadZstd | BadString | BadJson => j
  | Received v sent => receive j v sent
  end.

(** The url of the next connection. *)
Definition stream_url (stream : string) (j : Jetstream) : string :=
  stream +:+ "?compress=true" +:+
  match latest_cursor j with Some c => "&cursor=" +:+ pretty c | None => "" end.

(** ** Events *)

#[local] Arguments is_string : simpl never.

Lemma f64_as_u64_bound x : (f64_as_u64 x < u64_bound)%N.
Proof.
  unfold f64_as_u64, u64_bound, u64_max. destruct x as [s|s| |s m e]; try destruct s; lia.
Qed.

(** The links an event carries. *)
Definition event_of_record `{FluentUri} (a : ActionableEvent) (record : JsonValue) : Prop :=
  match a with
  | CreateLinks _ ls => ls = Links.collect_links record ∧ ls ≠ []
  | UpdateLinks _ ls => ls = Links.collect_links record
  | _ => False
  end.

(** The record of a commit message. *)
Definition commit_record (v : JsonValue) : option JsonValue :=
  root ← get_object v; commit ← obj_get "commit" root ≫= get_object; obj_get "record" commit.

(** Every actionable message carries the cursor that the websocket reader
    resumes from, a [u64]; an event that adds links carries exactly the links
    of the record, and a creation at least one. *)
Theorem get_actionable_sound `{FluentUri} v a ts :
  get_actionable v = Some (a, ts) →
  get_event_time v = Some ts ∧ (ts < u64_bound)%N ∧
  ((∃ record, commit_record v = Some record ∧ event_of_record a record) ∨
   (∃ r, a = DeleteRecord r) ∨ ∃ did, a = ActivateAccount did ∨ a = DeactivateAccount did ∨ a = DeleteAccount did).
Proof.
  destruct v as [n|b|s| |l|root]; try done. unfold get_actionable, get_event_time, commit_record. simpl.
  destruct (obj_get "time_us" root) as [[n|b|s| |l|o]|]; simpl; try done.
  destruct (is_string "commit" _); [|destruct (is_string "account" _); [|done]]; intros Ha.
  - unfold get_actionable_commit in Ha.
    destruct (obj_get "did" root ≫= get_string) as [did|]; simpl in Ha; [|done].
    destruct (obj_get "commit" root ≫= get_object) as [commit|]; simpl in *; [|done].
    destruct (obj_get "collection" commit ≫= get_string) as [c|]; simpl in Ha; [|done].
    destruct (obj_get "rkey" commit ≫= get_string) as [rkey|]; simpl in Ha; [|done].
    destruct (obj_get "operation" commit) as [op|]; simpl in Ha; [|done].
    destruct (is_string "create" _); [|destruct (is_string "update" _); [|destruct (is_string "delete" _); [|done]]].
    + destruct (obj_get "record" commit) as [rec|]; simpl in Ha; [|done].
      destruct (Links.collect_links rec) as [|l ls] eqn:E; simplify_eq.
      split_and!; [done|apply f64_as_u64_bound|]. left. exists rec. split; [done|]. simpl. by rewrite E.
    + destruct (obj_get "record" commit) as [rec|]; simplify_eq/=.
      split_and!; [done|apply f64_as_u64_bound|]. left. by exists rec.
    + simplify_eq. split_and!; [done|apply f64_as_u64_bound|]. eauto.
  - unfold get_actionable_account in Ha.
    destruct (obj_get "account" root ≫= get_object) as [account|]; simpl in Ha; [|done].
    destruct (obj_get "did" account ≫= get_string) as [did|]; simpl in Ha; [|done].
    destruct (obj_get "active" account ≫= get_bool) as [[]|]; simpl in Ha; [| |done];
    repeat case_match; simplify_eq; (split_and!; [done|apply f64_as_u64_bound|]); eauto 10.
Qed.

(** The part the cursor needs. *)
Lemma get_actionable_time `{FluentUri} v a ts :
  get_actionable v = Some (a, ts) → get_event_time v = Some ts ∧ (ts < u64_bound)%N.
Proof.
  destruct v as [n|b|s| |l|root]; try done. unfold get_actionable, get_event_time. simpl.
  destruct (obj_get "time_us" root) as [[n|b|s| |l|o]|]; simpl; try done. intros Ha.
  enough (ts = f64_as_u64 n) as -> by (split; [done|apply f64_as_u64_bound]).
  destruct (is_string "commit" _); [|destruct (is_string "account" _); [|done]];
    unfold get_actionable_commit, get_actionable_account in Ha;
    repeat (simplify_option_eq; try case_match); congruence.
Qed.

(** A like of a post, as jetstream sends it. *)
Definition sample_like : JsonValue :=
  JObject [("did", JString "did:plc:x"); ("time_us", JNumber (S754_finite false 42 0)); ("kind", JString "commit");
           ("commit", JObject [("operation", JString "create"); ("collection", JString "like"); ("rkey", JString "3l");
             ("record", JObject [("subject", JObject [("uri", JString "did:plc:y")])])])].

#[local] Instance no_uri : FluentUri := { uri_parse_normalized _ := None; uri_ref_resolved_path _ := None }.

Lemma get_actionable_sound_witness :
  get_event_time sample_like = Some 42%N ∧ (42 < u64_bound)%N ∧
  ((∃ record, commit_record sample_like = Some record ∧
      event_of_record (CreateLinks (mkRecordId "did:plc:x" "like" "3l")
        [Links.mkCollectedLink ".subject.uri" (Links.DidLink "did:plc:y")]) record) ∨
   (∃ r, CreateLinks (mkRecordId "did:plc:x" "like" "3l")
        [Links.mkCollectedLink ".subject.uri" (Links.DidLink "did:plc:y")] = DeleteRecord r) ∨
   ∃ did, CreateLinks (mkRecordId "did:plc:x" "like" "3l")
        [Links.mkCollectedLink ".subject.uri" (Links.DidLink "did:plc:y")] = ActivateAccount did ∨
     CreateLinks (mkRecordId "did:plc:x" "like" "3l")
        [Links.mkCollectedLink ".subject.uri" (Links.DidLink "did:plc:y")] = DeactivateAccount did ∨
     CreateLinks (mkRecordId "did:plc:x" "like" "3l")
        [Links.mkCollectedLink ".subject.uri" (Links.DidLink "did:plc:y")] = DeleteAccount did).
Proof. apply (get_actionable_sound sample_like). vm_compute. reflexivity. Defined.

(** ** The cursor of the store *)

(** End to end: when the last actionable message is not an account
    deletion, the RocksDB store holds its time as the cursor after [consume],
    and this is the time the websocket reader saw, so that a restart asks the
    stream for what follows the last stored event. *)
Theorem consume_cursor `{FluentUri} `{BL : BincodeLaws} `{RL : @RocksDbLaws RD Rocks.merge_op}
    (r r' : Rocks.RocksStorage) before u after a ts :
  get_actionable u = Some (a, ts) → (∀ did, a ≠ DeleteAccount did) →
  Forall (λ v, get_actionable v = None) after →
  consume r (before ++ u :: after) = Ok r' →
  get_cursor r' = Ok (Some ts) ∧ get_event_time u = Some ts.
Proof.
  intros Ha Hdel Hafter. unfold consume. rewrite foldl_res_app. intros Hc.
  destruct (foldl_res consume_one r before) as [r1|]; simpl in Hc; [|done].
  unfold consume_one at 1 in Hc. rewrite Ha in Hc.
  destruct (get_actionable_time _ _ _ Ha) as [Htime Hts]. split; [|done].
  destruct (push r1 a ts) as [r2|] eqn:E; simpl in Hc; [|done].
  assert (foldl_res consume_one r2 after = Ok r2) as Heq.
  { clear -Hafter. induction Hafter as [|v l Hv Hl IH]; [done|]. simpl. unfold consume_one at 1. by rewrite Hv. }
  rewrite Heq in Hc. injection Hc as <-. by eapply Contract.rocks_push_cursor.
Qed.

#[local] Existing Instance Reference.ref_bincode.
#[local] Existing Instance Contract.ref_db.

Lemma consume_cursor_witness :
  ∃ r, consume Contract.fresh_rocks [sample_like; JNull] = Ok r ∧ get_cursor r = Ok (Some 42%N).
Proof.
  assert (Hok : is_ok (consume Contract.fresh_rocks [sample_like; JNull]) = true) by (vm_compute; reflexivity).
  destruct (is_ok_Ok _ Hok) as [r E]. exists r. split; [exact E|].
  refine (proj1 (@consume_cursor no_uri Reference.ref_bincode Reference.ref_bincode_laws Contract.ref_db
    (Reference.ref_rocksdb_laws Rocks.merge_op) Contract.fresh_rocks r [] sample_like [JNull]
    (CreateLinks (mkRecordId "did:plc:x" "like" "3l")
       [Links.mkCollectedLink ".subject.uri" (Links.DidLink "did:plc:y")]) 42 _ _ _ E)).
  - vm_compute. reflexivity.
  - discriminate.
  - repeat constructor.
Defined.

(** ** The state machine of the websocket reader *)

(** [flume]'s [send] on a bounded channel fails only when the receiver is gone. *)
Definition flume_ok (o : ReadOutcome) : Prop :=
  match o with Received _ (Rejected false) => False | _ => True end.

(** The states a reader that started at [cursor] can be in. *)
Inductive reachable (cursor : option N) : Jetstream → Prop :=
  | reach_start : reachable cursor (jetstream_start cursor)
  | reach_connect j o : reachable cursor j → phase j = Connecting → reachable cursor (connect j o)
  | reach_read j o : reachable cursor j → phase j = Reading → flume_ok o → reachable cursor (read j o).

(** Where the reader should resume: at the last queued event, or where it
    started. *)
Definition resume_point (cursor : option N) (queued : list JsonValue) : option N :=
  match last queued with Some v => get_event_time v | None => cursor end.

(** In every reachable state the next connection resumes at the last event
    that was queued (at the initial cursor before any), every queued event has
    a timestamp, and fewer than seven connection failures have passed since the
    last event while the reader is running. *)
Theorem jetstream_resumes cursor j :
  reachable cursor j →
  latest_cursor j = resume_point cursor (queued j) ∧
  Forall (λ v, is_Some (get_event_time v)) (queued j) ∧
  ((∀ ok, phase j ≠ Stopped ok) → (connect_retries j < MAX_CONNECT_RETRIES)%N).
Proof.
  induction 1 as [|j o Hj (IH1 & IH2 & IH3) Hp|j o Hj (IH1 & IH2 & IH3) Hp Ho].
  - split_and!; [done|constructor|done].
  - assert (Hr : (connect_retries j < MAX_CONNECT_RETRIES)%N) by (apply IH3; intros ok; congruence).
    destruct o; simpl; split_and!; try done.
    all: unfold connect_failed; simpl; destruct (N.leb_spec MAX_CONNECT_RETRIES (connect_retries j + 1));
      intros Hn; [by destruct (Hn true)|done].
  - assert (Hr : (connect_retries j < MAX_CONNECT_RETRIES)%N) by (apply IH3; intros ok; congruence).
    destruct o as [ | | | | | | | | | | |[]| | | |v [|[]]]; simpl; try (by split_and!).
    all: unfold receive; destruct (get_event_time v) as [ts|] eqn:E; simpl; try (by split_and!).
    split_and!; [|apply Forall_app; split; [done|by repeat constructor; eauto]|done].
    unfold resume_point. by rewrite last_snoc.
Qed.

Lemma jetstream_resumes_witness :
  latest_cursor (read (connect (jetstream_start (Some 7%N)) Connected) (Received sample_like Sent)) = Some 42%N.
Proof.
  refine (proj1 (jetstream_resumes (Some 7%N) _ _)). apply reach_read; [|reflexivity|exact I].
  apply reach_connect; [constructor|reflexivity].
Defined.

(** A run of connection attempts: it ends when one connects or the reader
    stops. *)
Definition connect_all (j : Jetstream) (os : list ConnectOutcome) : Jetstream :=
  fold_left (λ j o, match phase j with Connecting => connect j o | _ => j end) os j.

Definition counted_failure (o : ConnectOutcome) : Prop := o = TcpError ∨ o = TlsError.
#[global] Instance counted_failure_dec o : Decision (counted_failure o).
Proof. destruct o; (left; by constructor) || (right; by intros [|]). Defined.

Definition dns_failure (o : ConnectOutcome) : Prop := o = NoAddress ∨ o = ResolveError.

(** The reader gives up exactly at the seventh failure to open a connection
    without an event in between; failures to resolve the host never count, so
    that a reader that cannot resolve its host retries forever. *)
Theorem jetstream_gives_up cursor os :
  Forall (λ o, counted_failure o ∨ dns_failure o) os →
  phase (connect_all (jetstream_start cursor) os) =
  if (MAX_CONNECT_RETRIES <=? N.of_nat (length (filter counted_failure os)))%N then Stopped true else Connecting.
Proof.
  intros Hos.
  assert (Hgen : ∀ j, phase j = Connecting → (connect_retries j < MAX_CONNECT_RETRIES)%N →
    phase (connect_all j os) =
    if (MAX_CONNECT_RETRIES <=? connect_retries j + N.of_nat (length (filter counted_failure os)))%N
    then Stopped true else Connecting); [|by apply (Hgen (jetstream_start cursor))].
  assert (Hstop : ∀ l j, phase j = Stopped true → phase (connect_all j l) = Stopped true).
  { induction l as [|o l IH]; intros j Hj; [done|]. simpl. by rewrite Hj; apply IH. }
  induction Hos as [|o os Ho Hos IH]; intros j Hj Hlt.
  - simpl. rewrite N.add_0_r, Hj. by rewrite (proj2 (N.leb_gt _ _)).
  - unfold connect_all. cbn [fold_left]. rewrite Hj. fold (connect_all (connect j o) os). rewrite filter_cons.
    destruct Ho as [Ho|Ho].
    + rewrite decide_True by done.
      assert (connect j o = connect_failed j) as -> by (by destruct Ho as [-> | ->]).
      destruct (N.leb_spec MAX_CONNECT_RETRIES (connect_retries j + 1)) as [Hge|Hlt'].
      * rewrite Hstop by (unfold connect_failed; simpl; by rewrite (proj2 (N.leb_le _ _) Hge)).
        rewrite (proj2 (N.leb_le _ _)); [done|]. simpl length. lia.
      * rewrite IH; [|unfold connect_failed; simpl; by rewrite (proj2 (N.leb_gt _ _) Hlt')|done].
        unfold connect_failed. cbn [connect_retries]. rewrite length_cons.
        by replace (connect_retries j + N.of_nat (S (length (filter counted_failure os))))%N with
          (connect_retries j + 1 + N.of_nat (length (filter counted_failure os)))%N by lia.
    + rewrite decide_False by (destruct Ho as [-> | ->]; by intros [|]).
      assert (connect j o = j) as -> by (destruct j; destruct Ho as [-> | ->]; simpl in *; by rewrite <- Hj).
      by apply IH.
Qed.

Lemma jetstream_gives_up_witness :
  phase (connect_all (jetstream_start None) [TcpError; TcpError; NoAddress; TcpError; TlsError; TcpError; TcpError; TlsError])
  = Stopped true.
Proof.
  apply (jetstream_gives_up None). repeat constructor; (left; by constructor) || (right; by constructor).
Defined.

End Consumer.
