(* ===== verification/LinkTests.v ===== *)
(** * links and the consumer: the repository's tests
      (the tests modules of links/src, of constellation/src/consumer/mod.rs and of constellation/src/bin/main.rs)

    Every test as a run of the model.  The URI crate is instantiated with the
    parts of RFC 3986 the tests use: the scheme is lowercased and dot segments
    are removed. *)

From S2P Require Import Prelude RustStr Bytes LinksDid LinksAtUri.
From S2P Require Import LinksRecord ConstellationTypes ConstellationMem ConstellationConsumer.
From Stdlib Require Import SpecFloat.

#[global] Instance ActionableEvent_eq_dec : EqDecision ActionableEvent.
Proof. solve_decision. Defined.

Module LinkTests.

(** ** RFC 3986 *)

(** The segments of a path, [acc] the current one reversed. *)
Fixpoint segments (s : string) : list string :=
  match s with
  | EmptyString => [""]
  | String c s =>
      if bool_decide (c = "/"%char) then "" :: segments s
      else match segments s with [] => [String c ""] | seg :: segs => String c seg :: segs end
  end.

(** Section 5.2.4, on the segments after the first slash; [out] is reversed. *)
Fixpoint remove_dots (segs out : list string) : list string :=
  match segs with
  | [] => reverse out
  | seg :: segs =>
      let stays := if decide (segs = []) then [""] else [] in
      if decide (seg = ".") then remove_dots segs (stays ++ out)
      else if decide (seg = "..") then remove_dots segs (stays ++ tail out)
      else remove_dots segs (seg :: out)
  end.
Definition resolve (p : string) : string := foldr (λ seg r, String "/" (seg +:+ r)) "" (remove_dots (segments p) []).

Definition uri_chars (s : string) : bool := str_forallb (λ c, (33 <=? byte_n c)%N && (byte_n c <=? 126)%N && negb (bool_decide (c ∈ ["\"; "<"; ">"; "{"; "}"; "|"; "^"; "`"]%char))) s.
Definition starts_with_letter (s : string) : bool :=
  match s with String c _ => is_ascii_lowercase c || is_ascii_uppercase c | EmptyString => false end.

#[local] Instance rfc_uri : FluentUri := {
  uri_parse_normalized s :=
    '(scheme, rest) ← split_once ":" s;
    rest ← strip_prefix "//" rest;
    if uri_chars s && starts_with_letter scheme then
      let scheme := to_ascii_lowercase scheme +:+ "://" in
      match split_once "/" rest with
      | None => Some (scheme +:+ rest)
      | Some (authority, rest) =>
          let '(path, query) := AtUri.cut_part "?" rest in
          Some (scheme +:+ authority +:+ AtUri.push_part "?" query (resolve path))
      end
    else None;
  uri_ref_resolved_path p := if uri_chars p && negb (str_contains ":" p) then Some (resolve p) else None
}.

(** ** links/src/did.rs *)

Definition did_cases : list (string * option string) :=
  [("", None); (" ", None); ("z", None); ("did:plc", None); ("did:plc:", None);
   ("did:web:bad-example.com", Some "did:web:bad-example.com");
   ("did:plc:hdhoaan3xa3jiuq4fg4mefid", Some "did:plc:hdhoaan3xa3jiuq4fg4mefid");
   ("DID:plc:hdhoaan3xa3jiuq4fg4mefid", None);
   ("did:ok:z", Some "did:ok:z"); ("did:BAD:z", None); ("did:bad:z$z", None); ("did:ok:z:z", Some "did:ok:z:z");
   ("did:bad:z:", None); ("did:bad:z?q=y", None); ("did:bad:z#a", None)].
Definition test_did_parse : bool := bool_decide (map (Did.parse_did ∘ fst) did_cases = map snd did_cases).
Definition test_doc_exmples_atproto : bool :=
  forallb (λ s, bool_decide (is_Some (Did.parse_did s))) ["did:plc:z72i7hdynmk6r22z27h6tvur"; "did:web:blueskyweb.xyz"].
Definition test_doc_exmples_lexicon : bool :=
  forallb (λ s, bool_decide (is_Some (Did.parse_did s)))
    ["did:method:val:two"; "did:m:v"; "did:method::::val"; "did:method:-:_:."; "did:key:zQ3shZc2QzApp2oymGvQbzP8eKheVshBHbU4ZYjeXqwSKEn6N"].
Definition test_doc_exmples_invalid : bool :=
  forallb (λ s, bool_decide (Did.parse_did s = None))
    ["did:METHOD:val"; "did:m123:val"; "DID:method:val"; "did:method:"; "did:method:val/two"; "did:method:val?two"; "did:method:val#two"].

(** ** links/src/at_uri.rs *)

Definition at_uri_cases : list (string * option string) :=
  [("", None); (" ", None); ("https://bad-example.com", None); ("at://µcosm.bad-example.com", None);
   ("at://bad-example.com", Some "at://bad-example.com");
   ("at://did:plc:hdhoaan3xa3jiuq4fg4mefid", Some "at://did:plc:hdhoaan3xa3jiuq4fg4mefid");
   ("at://bad-example.com/app.bsky.feed.post/3jwdwj2ctlk26", Some "at://bad-example.com/app.bsky.feed.post/3jwdwj2ctlk26");
   ("at://did:plc:hdhoaan3xa3jiuq4fg4mefid/app.bsky.feed.post/3ldqksainxc27",
    Some "at://did:plc:hdhoaan3xa3jiuq4fg4mefid/app.bsky.feed.post/3ldqksainxc27");
   ("AT://bad-example.com", Some "at://bad-example.com");
   ("at://bad-example.com", Some "at://bad-example.com");
   ("at://bad-example.com?q=z", Some "at://bad-example.com?q=z");
   ("at://bad-example.com#a", Some "at://bad-example.com#a");
   ("at://bad-example.com/%", None); ("at://bad-example.com/%2", None); ("at://bad-example.com/%ZZ", None);
   ("at://bad-example.com/%3A", Some "at://bad-example.com/%3A");
   ("at://bad-example.com/%3a", Some "at://bad-example.com/%3A");
   ("at://bad-example.com/%61/%62", Some "at://bad-example.com/a/b");
   ("at://bad-example.com/a/../b", Some "at://bad-example.com/b");
   ("at://bad-example.com/../", Some "at://bad-example.com")].
Definition test_at_uri_parse : bool := bool_decide (map (AtUri.parse_at_uri ∘ fst) at_uri_cases = map snd at_uri_cases).

Definition collection_cases : list (string * option string) :=
  [("", None); ("at://did:plc:vc7f4oafdgxsihk4cry2xpze", None);
   ("at://did:plc:vc7f4oafdgxsihk4cry2xpze/collec.tion", Some "collec.tion");
   ("at://did:plc:vc7f4oafdgxsihk4cry2xpze/collec.tion/path", Some "collec.tion");
   ("at://did:plc:vc7f4oafdgxsihk4cry2xpze/collec.tion?query", Some "collec.tion");
   ("at://did:plc:vc7f4oafdgxsihk4cry2xpze/collec.tion#hash", Some "collec.tion");
   ("at://did:plc:vc7f4oafdgxsihk4cry2xpze/collec.tion/path?query#hash", Some "collec.tion");
   ("at://did:web:example.com/collec.tion/path", Some "collec.tion");
   ("at://did:web:example.com/col.lec.tio.ns.so.long.going.on.and.on", Some "col.lec.tio.ns.so.long.going.on.and.on")].
Definition test_at_uri_collection : bool := bool_decide (map (AtUri.at_uri_collection ∘ fst) collection_cases = map snd collection_cases).

(** ** links/src/lib.rs *)

Definition test_uri_parse : bool := bool_decide (Links.parse_uri "https://example.com" = Some "https://example.com").
Definition test_uri_normalizes : bool := bool_decide (Links.parse_uri "HTTPS://example.com/../" = Some "https://example.com/").
Definition test_uri_invalid : bool := bool_decide (Links.parse_uri "https:\bad-example.com" = None).
Definition test_any_parse : bool := bool_decide (
  Links.parse_any_link "https://example.com" = Some (Links.Uri "https://example.com") ∧
  Links.parse_any_link "at://did:plc:44ybard66vv44zksje25o7dz/app.bsky.feed.post/3jwdwj2ctlk26" =
    Some (Links.AtUri "at://did:plc:44ybard66vv44zksje25o7dz/app.bsky.feed.post/3jwdwj2ctlk26") ∧
  Links.parse_any_link "did:plc:44ybard66vv44zksje25o7dz" = Some (Links.DidLink "did:plc:44ybard66vv44zksje25o7dz")).
Definition test_link_collection : bool := bool_decide (
  Links.link_at_uri_collection <$> Links.parse_any_link "https://example.com" = Some None ∧
  Links.link_at_uri_collection <$> Links.parse_any_link "did:web:bad-example.com" = Some None ∧
  Links.link_at_uri_collection <$> Links.parse_any_link "at://did:web:bad-example.com/my.collection/3jwdwj2ctlk26" = Some (Some "my.collection")).

(** ** links/src/record.rs *)

Definition num (n : positive) : JsonValue := JNumber (S754_finite false n 0).
Definition l (path : string) (target : Links.Link) : Links.CollectedLink := Links.mkCollectedLink path target.

Definition test_collect_links : bool := bool_decide (
  Links.collect_links (JObject [("a", JString "https://example.com"); ("b", JString "not a link")]) = [l ".a" (Links.Uri "https://example.com")]).

Definition replied : string := "at://did:plc:b3rzzkblqsxhr3dgcueymkqe/app.bsky.feed.post/3lf6yc4drhk2f".
Definition strong_ref (cid uri : string) : JsonValue := JObject [("cid", JString cid); ("uri", JString uri)].
Definition test_bsky_feed_post_record_reply : bool := bool_decide (
  Links.collect_links (JObject
    [("$type", JString "app.bsky.feed.post"); ("createdAt", JString "2025-01-08T20:52:43.041Z"); ("langs", JArray [JString "en"]);
     ("reply", JObject [("parent", strong_ref "bafyreifk3bwnmulk37ezrarg4ouheqnhgucypynftqafl4limssogvzk6i" replied);
                        ("root", strong_ref "bafyreifk3bwnmulk37ezrarg4ouheqnhgucypynftqafl4limssogvzk6i" replied)]);
     ("text", JString "Yup!")])
  = [l ".reply.parent.uri" (Links.AtUri replied); l ".reply.root.uri" (Links.AtUri replied)]).

Definition video : string := "https://youtu.be/oKXm4szEP1Q?si=_0n_uPu4qNKokMnq".
Definition blob (ref : string) (size : positive) : JsonValue :=
  JObject [("$type", JString "blob"); ("ref", JObject [("$link", JString ref)]); ("mimeType", JString "image/jpeg"); ("size", num size)].
Definition test_bsky_feed_post_record_embed : bool := bool_decide (
  Links.collect_links (JObject
    [("$type", JString "app.bsky.feed.post"); ("createdAt", JString "2025-01-08T20:52:39.539Z");
     ("embed", JObject [("$type", JString "app.bsky.embed.external");
        ("external", JObject [("description", JString "YouTube video by More Perfect Union");
           ("thumb", blob "bafkreifxuvkbqksq5usi4cryex37o4absjexuouvgenlb62ojsx443b2tm" 477460);
           ("title", JString "Corporations & Wealthy Elites Are Coopting Our Government. Who Can Stop Them?");
           ("uri", JString video)])]);
     ("facets", JArray [JObject [("features", JArray [JObject [("$type", JString "app.bsky.richtext.facet#link"); ("uri", JString video)]]);
        ("index", JObject [("byteEnd", num 24); ("byteStart", JNumber (S754_zero false))])]]);
     ("langs", JArray [JString "en"]); ("text", JString "youtu.be/oKXm4szEP1Q?...")])
  = [l ".embed.external.uri" (Links.Uri video); l ".facets[].features[app.bsky.richtext.facet#link].uri" (Links.Uri video)]).

Definition links_suite : list bool :=
  [test_did_parse; test_doc_exmples_atproto; test_doc_exmples_lexicon; test_doc_exmples_invalid; test_at_uri_parse;
   test_at_uri_collection; test_uri_parse; test_uri_normalizes; test_uri_invalid; test_any_parse; test_link_collection;
   test_collect_links; test_bsky_feed_post_record_reply; test_bsky_feed_post_record_embed].

(** The fourteen tests of the links crate pass. *)
Theorem links_tests_pass : links_suite = replicate 14 true.
Proof. vm_compute. reflexivity. Qed.
(** ** constellation/src/consumer/mod.rs *)

Definition event (did : string) (time_us : positive) (kind : string) (body : JsonValue) : JsonValue :=
  JObject [("did", JString did); ("time_us", num time_us); ("kind", JString kind); (kind, body)].
Definition gives (v : JsonValue) (a : ActionableEvent) (ts : N) : bool := bool_decide (Consumer.get_actionable v = Some (a, ts)).

Definition liked : string := "at://did:plc:lphckw3dz4mnh3ogmfpdgt6z/app.bsky.feed.post/3lfdau5f7wk23".
Definition like : JsonValue :=
  event "did:plc:icprmty6ticzracr5urz4uum" 1736448492661668 "commit" (JObject
    [("rev", JString "3lfddpt5qa62c"); ("operation", JString "create"); ("collection", JString "app.bsky.feed.like"); ("rkey", JString "3lfddpt5djw2c");
     ("record", JObject [("$type", JString "app.bsky.feed.like"); ("createdAt", JString "2025-01-09T18:48:10.412Z");
        ("subject", strong_ref "bafyreihazf62qvmusup55ojhkzwbmzee6rxtsug3e6eg33mnjrgthxvozu" liked)]);
     ("cid", JString "bafyreidgcs2id7nsbp6co42ind2wcig3riwcvypwan6xdywyfqklovhdjq")]).
Definition test_create_like : bool :=
  gives like
  (CreateLinks (mkRecordId "did:plc:icprmty6ticzracr5urz4uum" "app.bsky.feed.like" "3lfddpt5djw2c") [l ".subject.uri" (Links.AtUri liked)])
  1736448492661668.

Definition pinned : string := "at://did:plc:tcmiubbjtkwhmnwmrvr2eqnx/app.bsky.feed.post/3lf66ri63u22t".
(** The description has its line breaks escaped, as the raw string does. *)
Definition description : string :=
  "Professor, QUB | Belfast via Derry \n\nViews personal | Reposts are not an endorsement\n\nhttps://go.qub.ac.uk/charvey".
Definition test_update_profile : bool :=
  gives (event "did:plc:tcmiubbjtkwhmnwmrvr2eqnx" 1736453696817289 "commit" (JObject
    [("rev", JString "3lfdikw7q772c"); ("operation", JString "update"); ("collection", JString "app.bsky.actor.profile"); ("rkey", JString "self");
     ("record", JObject [("$type", JString "app.bsky.actor.profile");
        ("avatar", blob "bafkreidcg5jzz3hpdtlc7um7w5masiugdqicc5fltuajqped7fx66hje54" 295764);
        ("banner", blob "bafkreiahaswf2yex2zfn3ynpekhw6mfj7254ra7ly27zjk73czghnz2wni" 856461);
        ("createdAt", JString "2024-08-30T21:33:06.945Z"); ("description", JString description); ("displayName", JString "Colin Harvey");
        ("pinnedPost", strong_ref "bafyreifyrepqer22xsqqnqulpcxzpu7wcgeuzk6p5c23zxzctaiwmlro7y" pinned)]);
     ("cid", JString "bafyreiem4j5p7duz67negvqarq3s5h7o45fvytevhrzkkn2p6eqdkcf74m")]))
  (UpdateLinks (mkRecordId "did:plc:tcmiubbjtkwhmnwmrvr2eqnx" "app.bsky.actor.profile" "self") [l ".pinnedPost.uri" (Links.AtUri pinned)])
  1736453696817289.

Definition test_delete_like : bool :=
  gives (event "did:plc:3pa2ss4l2sqzhy6wud4btqsj" 1736448492690783 "commit" (JObject
    [("rev", JString "3lfddpt7vnx24"); ("operation", JString "delete"); ("collection", JString "app.bsky.feed.like"); ("rkey", JString "3lbiu72lczk2w")]))
  (DeleteRecord (mkRecordId "did:plc:3pa2ss4l2sqzhy6wud4btqsj" "app.bsky.feed.like" "3lbiu72lczk2w")) 1736448492690783.

Definition account (active : bool) (did : string) (seq : positive) (status : option string) (time : string) : JsonValue :=
  JObject ([("active", JBoolean active); ("did", JString did); ("seq", num seq)] ++
    match status with Some s => [("status", JString s)] | None => [] end ++ [("time", JString time)]).
Definition test_delete_account : bool :=
  let did := "did:plc:zsgqovouzm2gyksjkqrdodsw" in
  gives (event did 1736451739215876 "account" (account false did 3040934738 (Some "deleted") "2025-01-09T19:42:18.972Z")) (DeleteAccount did) 1736451739215876.
Definition test_deactivate_account : bool :=
  let did := "did:plc:l4jb3hkq7lrblferbywxkiol" in
  gives (event did 1736451745611273 "account" (account false did 3040939563 (Some "deactivated") "2025-01-09T19:42:22.035Z"))
    (DeactivateAccount did) 1736451745611273.
Definition test_activate_account : bool :=
  let did := "did:plc:nct6zfb2j4emoj4yjomxwml2" in
  gives (event did 1736451747292706 "account" (account true did 3040940775 None "2025-01-09T19:42:26.924Z")) (ActivateAccount did) 1736451747292706.

(** The six tests of the consumer pass. *)
Theorem consumer_tests_pass :
  [test_create_like; test_update_profile; test_delete_like; test_delete_account; test_deactivate_account; test_activate_account] = replicate 6 true.
Proof. vm_compute. reflexivity. Qed.

(** ** constellation/src/bin/main.rs *)

Definition test_create_like_integrated : bool :=
  match Consumer.get_actionable like with
  | Some (action, ts) =>
      match push Mem.new action ts with
      | Ok storage => match get_count storage liked "app.bsky.feed.like" ".subject.uri" with Ok n => (n =? 1)%N | Err _ => false end
      | Err _ => false
      end
  | None => false
  end.

Theorem main_test_passes : test_create_like_integrated = true.
Proof. vm_compute. reflexivity. Qed.
End LinkTests.
