(* ===== verification/ConstellationServer.v ===== *)
(** * constellation: the HTTP server (constellation/src/server)

    The handlers over any store with the [LinkReader] interface: query
    validation, opaque cursors, status codes, content negotiation.  Routing,
    query strings, templates and JSON are axum's, serde's and askama's: their
    parts in a handler are parameters. *)

From S2P Require Import Prelude RustStr Bytes LinksDid LinksAtUri.
From S2P Require Import LinksRecord RocksApi ConstellationTypes ConstellationMem ConstellationRocks.
From S2P Require Import ConstellationSim ConstellationContract.

Module Server.

Definition DEFAULT_CURSOR_LIMIT : N := 16.
Definition DEFAULT_CURSOR_LIMIT_MAX : N := 100.
Definition INDEX_BEGAN_AT_TS : N := 1738083600.

Definition BAD_REQUEST : N := 400.
Definition INTERNAL_SERVER_ERROR : N := 500.

(** How a handler fails: with a status code, or by a panic of the store. *)
Inductive HandlerFailure : Type :=
  | Status (code : N)
  | Panicked (msg : string).

Abbreviation HandlerResult := (result HandlerFailure).

(** [.map_err(|_| http::StatusCode::INTERNAL_SERVER_ERROR)]; a panic unwinds. *)
Definition map_err_500 {A} (r : StoreResult A) : HandlerResult A :=
  match r with
  | Ok a => Ok a
  | Err (Panic msg) => Err (Panicked msg)
  | Err (Bail _) | Err Undecodable => Err (Status INTERNAL_SERVER_ERROR)
  end.

(** ** acceptable.rs *)

Inductive MediaType : Type := APPLICATION_JSON | TEXT_HTML.

Inductive Response (T : Type) : Type :=
  | Html (content : string)
  | Json (thing : T)
  | RenderFailed.
Arguments Html {T} _.
Arguments Json {T} _.
Arguments RenderFailed {T}.

(** The third-party pieces: the [Accept] header and its negotiation over the
    available types, and template rendering. *)
Class Web := {
  Accept : Type;
  negotiate : Accept → option MediaType;
  render : ∀ {T : Type}, T → option string
}.

Section Handlers.
Context `{Web}.

Definition acceptable {T} (accept : option Accept) (thing : T) : Response T :=
  match accept with
  | Some accepting =>
      match negotiate accepting with
      | Some TEXT_HTML =>
          match render thing with
          | Some content => Html content
          | None => RenderFailed
          end
      | _ => Json thing
      end
  | None => Json thing
  end.

(** ** Cursors *)

Record ApiCursor : Type := mkApiCursor {
  ac_version : N * N;
  ac_next : N
}.

(** [OpaqueApiCursor]: the bytes behind the hex of the query string. *)
Context `{Codec ApiCursor}.

Definition api_cursor_try_from (item : string) : option ApiCursor := de item.
Definition opaque_from (item : ApiCursor) : string := ser item.

(** ** Handlers *)

Record HelloReponse : Type := mkHello { help : string; days_indexed : N; stats : StorageStats }.

Definition HELP : string :=
  "open this URL in a web browser (or request with Accept: text/html) for information about this API.".

(** [now]: seconds since the epoch. *)
Definition hello {St} `{LinkReader St} (accept : option Accept) (store : St) (now : N)
    : HandlerResult (Response HelloReponse) :=
  stats ←? map_err_500 (get_stats store);
  if (now <? INDEX_BEGAN_AT_TS)%N then Err (Status INTERNAL_SERVER_ERROR)
  else Ok (acceptable accept (mkHello HELP ((now - INDEX_BEGAN_AT_TS) / 86400) stats)).

Record GetLinksCountQuery : Type := mkCountQuery { cq_target : string; cq_collection : string; cq_path : string }.
Record GetLinksCountResponse : Type := mkCountResponse { cr_total : N; cr_query : GetLinksCountQuery }.

Definition count_links {St} `{LinkReader St} (accept : option Accept) (query : GetLinksCountQuery) (store : St)
    : HandlerResult (Response GetLinksCountResponse) :=
  total ←? map_err_500 (get_count store (cq_target query) (cq_collection query) (cq_path query));
  Ok (acceptable accept (mkCountResponse total query)).

Definition count_distinct_dids {St} `{LinkReader St} (accept : option Accept) (query : GetLinksCountQuery) (store : St)
    : HandlerResult (Response GetLinksCountResponse) :=
  total ←? map_err_500 (get_distinct_did_count store (cq_target query) (cq_collection query) (cq_path query));
  Ok (acceptable accept (mkCountResponse total query)).

Record GetLinkItemsQuery : Type := mkItemsQuery {
  iq_target : string;
  iq_collection : string;
  iq_path : string;
  iq_cursor : option string;
  iq_limit : option N
}.

Record ItemsResponse (T : Type) : Type := mkItemsResponse {
  ir_total : N;
  ir_items : list T;
  ir_cursor : option string;
  ir_query : GetLinkItemsQuery
}.
#[global] Arguments mkItemsResponse {T} _ _ _ _.
#[global] Arguments ir_total {T} _.
#[global] Arguments ir_items {T} _.
#[global] Arguments ir_cursor {T} _.
#[global] Arguments ir_query {T} _.

(** The cursor of the query, decoded. *)
Definition query_until (query : GetLinkItemsQuery) : HandlerResult (option N) :=
  match iq_cursor query with
  | None => Ok None
  | Some oc =>
      match api_cursor_try_from oc with
      | Some c => Ok (Some (ac_next c))
      | None => Err (Status BAD_REQUEST)
      end
  end.

Definition next_cursor {T} (paged : PagedAppendingCollection T) : option string :=
  (λ n, opaque_from (mkApiCursor (version paged) n)) <$> next paged.

Definition get_links_handler {St} `{LinkReader St} (accept : option Accept) (query : GetLinkItemsQuery) (store : St)
    : HandlerResult (Response (ItemsResponse RecordId)) :=
  cur ←? query_until query;
  let limit := default DEFAULT_CURSOR_LIMIT (iq_limit query) in
  if (DEFAULT_CURSOR_LIMIT_MAX <? limit)%N then Err (Status BAD_REQUEST)
  else
    paged ←? map_err_500 (get_links store (iq_target query) (iq_collection query) (iq_path query) limit cur);
    Ok (acceptable accept (mkItemsResponse (total paged) (items paged) (next_cursor paged) query)).

Definition get_distinct_dids_handler {St} `{LinkReader St} (accept : option Accept) (query : GetLinkItemsQuery)
    (store : St) : HandlerResult (Response (ItemsResponse string)) :=
  cur ←? query_until query;
  let limit := default DEFAULT_CURSOR_LIMIT (iq_limit query) in
  if (DEFAULT_CURSOR_LIMIT_MAX <? limit)%N then Err (Status BAD_REQUEST)
  else
    paged ←? map_err_500 (get_distinct_dids store (iq_target query) (iq_collection query) (iq_path query) limit cur);
    Ok (acceptable accept (mkItemsResponse (total paged) (items paged) (next_cursor paged) query)).

Record AllLinksResponse (V : Type) : Type := mkAllLinks {
  al_links : gmap string (gmap string V);
  al_target : string
}.
#[global] Arguments mkAllLinks {V} _ _.

Definition count_all_links {St} `{LinkReader St} (accept : option Accept) (target : string) (store : St)
    : HandlerResult (Response (AllLinksResponse N)) :=
  links ←? map_err_500 (get_all_record_counts store target);
  Ok (acceptable accept (mkAllLinks links target)).

Definition explore_links {St} `{LinkReader St} (accept : option Accept) (target : string) (store : St)
    : HandlerResult (Response (AllLinksResponse CountsByCount)) :=
  links ←? map_err_500 (get_all_counts store target);
  Ok (acceptable accept (mkAllLinks links target)).

(** ** filters.rs *)

Definition to_browseable `{FluentUri} (s : string) : option string :=
  match Links.parse_any_link s with
  | Some (Links.AtUri at_uri) =>
      (λ noproto, "https://atproto-browser-plus-links.vercel.app/at/" +:+ noproto) <$> strip_prefix "at://" at_uri
  | Some (Links.DidLink did) => Some ("https://atproto-browser-plus-links.vercel.app/at/" +:+ did)
  | Some (Links.Uri uri) => Some uri
  | None => None
  end.

(** ** A client that follows cursors *)

(** Ask for JSON, follow [cursor] until it is absent; [fuel] bounds the number
    of requests. *)
Fixpoint follow {T} (request : GetLinkItemsQuery → HandlerResult (Response (ItemsResponse T)))
    (query : GetLinkItemsQuery) (fuel : nat) (cursor : option string) : HandlerResult (list T) :=
  match fuel with
  | O => Err (Panicked "too many pages")
  | S fuel =>
      r ←? request (mkItemsQuery (iq_target query) (iq_collection query) (iq_path query) cursor (iq_limit query));
      match r with
      | Json thing =>
          match ir_cursor thing with
          | None => Ok (ir_items thing)
          | Some c => rest ←? follow request query fuel (Some c); Ok (ir_items thing ++ rest)
          end
      | _ => Err (Panicked "not json")
      end
  end.

End Handlers.
(** ** Properties *)

(** [bincode]'s round trip at [ApiCursor]. *)
Class ApiCursorLaws `{Codec ApiCursor} :=
  rt_api_cursor (v : N * N) (n : N) :
    (v.1 < u64_bound)%N → (v.2 < u64_bound)%N → (n < u64_bound)%N →
    de (ser (mkApiCursor v n)) = Some (mkApiCursor v n).

Section Properties.
Context `{Web} `{ApiCursorLaws}.

(** The errors of the store, as the client sees them. *)
Lemma map_err_500_bind {A B} (r : StoreResult A) (f : A → StoreResult B) :
  map_err_500 (a ←? r; f a) = (a ←? map_err_500 r; map_err_500 (f a)).
Proof. by destruct r as [a|[]]. Qed.

(** Following opaque cursors is following the store's own cursors. *)
Lemma follow_collect {St} `{LinkReader St} (s : St) query limit fuel :
  iq_limit query = Some limit → (limit ≤ DEFAULT_CURSOR_LIMIT_MAX)%N →
  (∀ cur p, get_links s (iq_target query) (iq_collection query) (iq_path query) limit cur = Ok p →
     (version p).1 < u64_bound ∧ (version p).2 < u64_bound ∧ ∀ n, next p = Some n → n < u64_bound)%N →
  ∀ oc cur,
    query_until (mkItemsQuery (iq_target query) (iq_collection query) (iq_path query) oc (iq_limit query)) = Ok cur →
    follow (λ q, get_links_handler None q s) query fuel oc =
    map_err_500 (collect_pages (get_links s (iq_target query) (iq_collection query) (iq_path query) limit) fuel cur).
Proof.
  intros Hl Hmax Hb. induction fuel as [|fuel IH]; intros oc cur Hcur; [done|].
  cbn [follow]. unfold get_links_handler at 1. rewrite Hcur. cbn [result_bind iq_target iq_collection iq_path iq_limit].
  rewrite Hl. change (default DEFAULT_CURSOR_LIMIT (Some limit)) with limit. rewrite (proj2 (N.ltb_ge _ _) Hmax). rewrite collect_pages_S, map_err_500_bind.
  destruct (get_links s _ _ _ limit cur) as [p|e] eqn:E; [|by destruct e]. cbn [map_err_500 result_bind].
  unfold acceptable. cbn [ir_cursor ir_items]. unfold next_cursor.
  destruct (Hb _ _ E) as (Hv1 & Hv2 & Hn). destruct (next p) as [n|]; cbn [fmap option_fmap option_map]; [|done].
  rewrite (IH _ (Some n)).
  - rewrite map_err_500_bind. done.
  - unfold query_until, api_cursor_try_from, opaque_from. cbn [iq_cursor]. by rewrite rt_api_cursor by auto.
Qed.

(** The length of the list a query pages through. *)
Definition list_length (m : Mem.MemStorageData) (query : GetLinkItemsQuery) : nat :=
  length (get2 (Mem.targets m) (iq_target query) (iq_collection query, iq_path query)).

Lemma mem_page_bounds m t c p limit cur pg :
  (N.of_nat (length (get2 (Mem.targets m) t (c, p))) < u64_bound)%N →
  get_links m t c p limit cur = Ok pg →
  ((version pg).1 < u64_bound ∧ (version pg).2 < u64_bound ∧ ∀ n, next pg = Some n → n < u64_bound)%N.
Proof.
  intros Hlen. simpl. unfold Mem.mem_get_links. rewrite <- Mem.linkers_at_get2 in Hlen.
  destruct (Mem.linkers_at m t c p) as [L|]; simpl in Hlen.
  2:{ intros [= <-]. simpl. unfold u64_bound. split_and!; [lia|lia|done]. }
  unfold Mem.paged. destruct (Mem.filter_active _ _ _); simpl; [|done]. intros [= <-]. simpl.
  fold (Mem.lenN L) in Hlen. split_and!; [done|lia|].
  intros n. unfold page_next. case_match; [done|]. intros [= <-].
  pose proof (page_window_le (Mem.lenN L) limit cur). lia.
Qed.

(** Following the cursors of a store that answers like a memory store. *)
Lemma follow_visible {St} `{LinkReader St} (s : St) m query limit :
  same_answers s m → Mem.mem_inv m →
  iq_limit query = Some limit → (0 < limit ≤ DEFAULT_CURSOR_LIMIT_MAX)%N →
  (N.of_nat (list_length m query) < u64_bound)%N →
  follow (λ q, get_links_handler None q s) query (S (list_length m query)) None =
  Ok (Mem.visible_links m (iq_target query) (iq_collection query) (iq_path query)).
Proof.
  intros Hs Hinv Hl Hlim Hlen.
  assert (Hget : ∀ cur, get_links s (iq_target query) (iq_collection query) (iq_path query) limit cur =
                        get_links m (iq_target query) (iq_collection query) (iq_path query) limit cur)
    by (intros cur; apply (Hs (iq_target query) (iq_collection query) (iq_path query) limit cur)).
  rewrite (follow_collect s query limit _ Hl (proj2 Hlim)) with (cur := None); [| |done].
  - rewrite (collect_pages_ext _ _ Hget). unfold list_length.
    by rewrite Mem.get_links_pages by (done || lia).
  - intros cur p. rewrite Hget. by apply mem_page_bounds.
Qed.

(** A client that asks for JSON pages of any size from 1 to 100 and follows
    the opaque cursors receives every visible link exactly once, newest first,
    from any store that answers like a consistent memory store. *)
Theorem http_links_complete {St} `{LinkReader St} (s : St) m query limit :
  same_answers s m → Mem.mem_inv m →
  iq_limit query = Some limit → (0 < limit ≤ DEFAULT_CURSOR_LIMIT_MAX)%N →
  (N.of_nat (list_length m query) < u64_bound)%N →
  follow (λ q, get_links_handler None q s) query (S (list_length m query)) None =
  Ok (Mem.visible_links m (iq_target query) (iq_collection query) (iq_path query)).
Proof. apply follow_visible. Qed.

(** The errors of the links endpoint: 400 exactly when the cursor does not
    decode or the limit is above 100, whatever the store; otherwise 500 exactly
    when the store reports an error. *)
Theorem http_links_errors {St} `{LinkReader St} (s : St) accept query :
  let bad := (∃ oc, iq_cursor query = Some oc ∧ api_cursor_try_from oc = None) ∨
             (DEFAULT_CURSOR_LIMIT_MAX < default DEFAULT_CURSOR_LIMIT (iq_limit query))%N in
  (get_links_handler accept query s = Err (Status BAD_REQUEST) ↔ bad) ∧
  (get_links_handler accept query s = Err (Status INTERNAL_SERVER_ERROR) ↔
   ¬ bad ∧ ∃ e, (∀ msg, e ≠ Panic msg) ∧
     get_links s (iq_target query) (iq_collection query) (iq_path query)
       (default DEFAULT_CURSOR_LIMIT (iq_limit query)) (iq_cursor query ≫= λ oc, ac_next <$> api_cursor_try_from oc)
     = Err e).
Proof.
  intros bad.
  assert (Hbad : bad → get_links_handler accept query s = Err (Status BAD_REQUEST)).
  { unfold get_links_handler, query_until. intros [(oc & -> & ->)|Hl]; [done|].
    destruct (iq_cursor query) as [oc|]; [destruct (api_cursor_try_from oc) as [c|]|]; simpl; try done;
      by rewrite (proj2 (N.ltb_lt _ _) Hl). }
  assert (Hgood : ¬ bad → get_links_handler accept query s =
    (paged ←? map_err_500 (get_links s (iq_target query) (iq_collection query) (iq_path query)
        (default DEFAULT_CURSOR_LIMIT (iq_limit query))
        (iq_cursor query ≫= λ oc, ac_next <$> api_cursor_try_from oc));
     Ok (acceptable accept (mkItemsResponse (total paged) (items paged) (next_cursor paged) query)))).
  { intros Hnb. assert (Hl : (default DEFAULT_CURSOR_LIMIT (iq_limit query) ≤ DEFAULT_CURSOR_LIMIT_MAX)%N).
    { destruct (N.le_gt_cases (default DEFAULT_CURSOR_LIMIT (iq_limit query)) DEFAULT_CURSOR_LIMIT_MAX); [done|].
      destruct Hnb. by right. }
    unfold get_links_handler, query_until. destruct (iq_cursor query) as [oc|] eqn:Eoc; simpl.
    - destruct (api_cursor_try_from oc) as [c|] eqn:Ec; simpl; [by rewrite (proj2 (N.ltb_ge _ _) Hl)|].
      destruct Hnb. left. eauto.
    - by rewrite (proj2 (N.ltb_ge _ _) Hl). }
  assert (Hdec : bad ∨ ¬ bad).
  { unfold bad. destruct (N.le_gt_cases (default DEFAULT_CURSOR_LIMIT (iq_limit query)) DEFAULT_CURSOR_LIMIT_MAX);
      [|by auto]. destruct (iq_cursor query) as [oc|]; [|naive_solver lia].
    destruct (api_cursor_try_from oc) eqn:E; [|eauto]. right. naive_solver lia. }
  destruct Hdec as [Hb|Hnb]; [rewrite (Hbad Hb); by split; split; naive_solver|].
  rewrite (Hgood Hnb). destruct (get_links s _ _ _ _ _) as [p|[msg|msg|]]; simpl.
  - split; split; naive_solver.
  - split; split; naive_solver.
  - split; split; naive_solver.
  - split; split; naive_solver.
Qed.

(** [limit=0] is accepted and never advances: on a non-empty list a client
    that follows the cursors is never done, whatever the number of requests. *)
Theorem http_limit_zero_loops {St} `{LinkReader St} (s : St) m query linkers fuel :
  same_answers s m → Mem.mem_inv m → iq_limit query = Some 0%N →
  Mem.linkers_at m (iq_target query) (iq_collection query) (iq_path query) = Some linkers → linkers ≠ [] →
  (N.of_nat (list_length m query) < u64_bound)%N →
  follow (λ q, get_links_handler None q s) query fuel None = Err (Panicked "too many pages").
Proof.
  intros Hs Hinv Hl HL Hne Hlen.
  assert (Hget : ∀ cur, get_links s (iq_target query) (iq_collection query) (iq_path query) 0 cur =
                        get_links m (iq_target query) (iq_collection query) (iq_path query) 0 cur)
    by (intros cur; apply (Hs (iq_target query) (iq_collection query) (iq_path query) 0%N cur)).
  rewrite (follow_collect s query 0 _ Hl ltac:(done)) with (cur := None); [| |done].
  2:{ intros cur p. rewrite Hget. by apply mem_page_bounds. }
  rewrite (collect_pages_ext _ _ Hget).
  assert (Hgen : ∀ cur, cur = None ∨ cur = Some (Mem.lenN linkers) →
    collect_pages (get_links m (iq_target query) (iq_collection query) (iq_path query) 0) fuel cur =
    Err (Panic "too many pages")); [|by rewrite (Hgen None) by (by left)].
  induction fuel as [|fuel IH]; intros cur Hcur; [done|]. rewrite collect_pages_S.
  destruct (Mem.get_links_stuck m _ _ _ linkers cur Hinv HL Hne) as (p & -> & _ & Hn).
  { destruct Hcur as [->| ->]; simpl; lia. }
  cbn [result_bind]. rewrite Hn, IH by (by right). done.
Qed.

End Properties.

(** Every parsed at-uri starts with its scheme. *)
Lemma parse_at_uri_prefix `{FluentUri} s t : AtUri.parse_at_uri s = Some t → ∃ r, t = "at://" +:+ r.
Proof.
  unfold AtUri.parse_at_uri. intros Hp. repeat (case_match; simplify_option_eq; try done).
  all: unfold AtUri.push_part; repeat case_match; rewrite ?str_app_assoc; eauto.
Qed.

(** Every string that is a link has a page to browse to. *)
Theorem to_browseable_total `{FluentUri} s : is_Some (Links.parse_any_link s) ↔ is_Some (to_browseable s).
Proof.
  unfold to_browseable, Links.parse_any_link.
  destruct (AtUri.parse_at_uri s) as [u|] eqn:Eu.
  - apply parse_at_uri_prefix in Eu as [r ->]. rewrite strip_prefix_app. split; by eexists.
  - destruct (Did.parse_did s); [split; by eexists|]. destruct (Links.parse_uri s); [split; intros _; by eexists|].
    split; by intros [? [=]].
Qed.

(** ** Concrete instances *)

#[local] Instance plain_web : Web := {| Accept := unit; negotiate _ := None; render _ _ := None |}.

(** Three numbers, with the reference encoding. *)
#[local] Instance plain_cursor : Codec ApiCursor := {|
  ser c := Reference.enc_u64 (ac_version c).1 +:+ Reference.enc_u64 (ac_version c).2 +:+ Reference.enc_u64 (ac_next c);
  de s := '(a, r) ← Reference.dec_u64 s; '(b, r) ← Reference.dec_u64 r; n ← Reference.complete (Reference.dec_u64 r);
          Some (mkApiCursor (a, b) n)
|}.

#[local] Instance plain_cursor_laws : ApiCursorLaws.
Proof.
  intros [a b] n Ha Hb Hn. cbn [ser de plain_cursor ac_version ac_next fst snd] in *.
  rewrite Reference.dec_enc_u64 by done. cbn [mbind option_bind].
  rewrite Reference.dec_enc_u64 by done. cbn [mbind option_bind].
  rewrite (Reference.complete_app Reference.dec_u64 (Reference.enc_u64 n) n)
    by (intros; by apply Reference.dec_enc_u64). done.
Qed.

Definition sample_query (limit : N) : GetLinkItemsQuery := mkItemsQuery "t" "c" ".x" None (Some limit).

Lemma same_answers_refl {St} `{LinkReader St} (s : St) : same_answers s s.
Proof. done. Qed.

Lemma http_links_complete_witness :
  follow (λ q, get_links_handler None q Mem.sample) (sample_query 1) 3 None =
  Ok (Mem.visible_links Mem.sample "t" "c" ".x").
Proof.
  apply (http_links_complete Mem.sample Mem.sample (sample_query 1) 1 (same_answers_refl _)
           (Mem.add_links_inv _ _ _ Mem.mem_inv_new) eq_refl); [split; done|done].
Defined.

Lemma http_limit_zero_loops_witness :
  follow (λ q, get_links_handler None q Mem.sample) (sample_query 0) 50 None = Err (Panicked "too many pages").
Proof.
  apply (http_limit_zero_loops Mem.sample Mem.sample (sample_query 0) [Some ("d1", "a"); Some ("d1", "a")] 50
           (same_answers_refl _) (Mem.add_links_inv _ _ _ Mem.mem_inv_new) eq_refl);
    [reflexivity|discriminate|reflexivity].
Defined.

End Server.
