(* ===== verification/ConstellationHttp.v ===== *)
(** * constellation: requests to the running service
      (constellation/src/server/mod.rs)

    The routes of the server with the labels it puts on a response, and
    sessions: programs that send requests while the consumer goes on writing.
    Shown here: a session runs on a server over RocksDB as on one over
    [MemStorage], on which clients that page are then studied. *)

From S2P Require Import Prelude RustStr Bytes LinksRecord RocksApi.
From S2P Require Import ConstellationTypes ConstellationMem ConstellationRocks ConstellationRocksView ConstellationRefine.
From S2P Require Import ConstellationSim ConstellationContract ConstellationServer.
Import Rocks.

(** What the handlers get from the http stack: header values and their text,
    and the extractor of query strings, with the way a client writes one. *)
Class HttpStack : Type := {
  HeaderValue : Type;
  to_str : HeaderValue → option string;
  QueryString : Type;
  no_query : QueryString;
  parse_count_query : QueryString → option Server.GetLinksCountQuery;
  parse_items_query : QueryString → option Server.GetLinkItemsQuery;
  parse_target_query : QueryString → option string;
  print_items_query : Server.GetLinkItemsQuery → QueryString
}.

(** The extractor reads what a client wrote. *)
Class HttpStackLaws `{HttpStack} : Type :=
  parse_print_items q : parse_items_query (print_items_query q) = Some q.

Module Http.
Import Server.

(** ** Requests, replies and routes *)

Section Routes.
Context `{Web} `{Codec ApiCursor} `{HttpStack}.

(** A GET request; the headers that are looked at. *)
Record Request : Type := mkRequest {
  uri_path : string;
  uri_query : QueryString;
  hdr_accept : option Accept;
  hdr_origin : option HeaderValue;
  hdr_user_agent : option HeaderValue
}.

(** [Rejected]: the query does not deserialise, no handler runs;
    [NoRoute]: the router's own answer. *)
Inductive Reply : Type :=
  | Text (s : string)
  | ReplyHello (r : Response HelloReponse)
  | ReplyCount (r : Response GetLinksCountResponse)
  | ReplyLinks (r : Response (ItemsResponse RecordId))
  | ReplyDids (r : Response (ItemsResponse string))
  | ReplyAllCount (r : Response (AllLinksResponse N))
  | ReplyAll (r : Response (AllLinksResponse CountsByCount))
  | Failed (f : HandlerFailure)
  | Rejected
  | NoRoute.

Definition nl : string := String (Ascii.ascii_of_nat 10) EmptyString.
Definition robots : string :=
  "User-agent: *" +:+ nl +:+ "Disallow: /links" +:+ nl +:+ "Disallow: /links/" +:+ nl +:+ "    ".

Definition into_reply {T} (wrap : Response T → Reply) (r : HandlerResult (Response T)) : Reply :=
  match r with Ok a => wrap a | Err f => Failed f end.

Definition with_query {Q} (q : option Q) (handler : Q → Reply) : Reply :=
  match q with Some q => handler q | None => Rejected end.

(** The router of [serve]; [now]: seconds since the epoch. *)
Definition route {St} `{LinkReader St} (now : N) (store : St) (req : Request) : Reply :=
  let accept := hdr_accept req in
  let query := uri_query req in
  if decide (uri_path req = "/robots.txt") then Text robots
  else if decide (uri_path req = "/") then into_reply ReplyHello (hello accept store now)
  else if decide (uri_path req = "/links/count") then
    with_query (parse_count_query query) (λ q, into_reply ReplyCount (count_links accept q store))
  else if decide (uri_path req = "/links/count/distinct-dids") then
    with_query (parse_count_query query) (λ q, into_reply ReplyCount (count_distinct_dids accept q store))
  else if decide (uri_path req = "/links") then
    with_query (parse_items_query query) (λ q, into_reply ReplyLinks (get_links_handler accept q store))
  else if decide (uri_path req = "/links/distinct-dids") then
    with_query (parse_items_query query) (λ q, into_reply ReplyDids (get_distinct_dids_handler accept q store))
  else if decide (uri_path req = "/links/all/count") then
    with_query (parse_target_query query) (λ t, into_reply ReplyAllCount (count_all_links accept t store))
  else if decide (uri_path req = "/links/all") then
    with_query (parse_target_query query) (λ t, into_reply ReplyAll (explore_links accept t store))
  else NoRoute.

(** The labels of the metrics of a response. *)
Definition add_lables (next : Request → Reply) (request : Request) : Reply * list (string * string) :=
  let origin := hdr_origin request ≫= to_str in
  let user_agent := (λ v, if starts_with "Mozilla/" v then "Mozilla/..." else v) <$> (hdr_user_agent request ≫= to_str) in
  (next request,
   match origin with Some o => [("origin", o)] | None => [] end ++
   match user_agent with Some ua => [("user_agent", ua)] | None => [] end).

Definition serve {St} `{LinkReader St} (now : N) (store : St) (req : Request) : Reply * list (string * string) :=
  add_lables (route now store) req.

(** ** Sessions *)

(** The world as a program sees it: the consumer writes, or the program asks
    and goes on by the reply. *)
Inductive Session (A : Type) : Type :=
  | Finish (a : A)
  | Write (st : Step) (k : Session A)
  | Ask (now : N) (req : Request) (k : Reply * list (string * string) → Session A).
#[global] Arguments Finish {A} a.
#[global] Arguments Write {A} st k.
#[global] Arguments Ask {A} now req k.

Fixpoint run_session {St A} `{LinkReader St} (step : St → Step → StoreResult St) (s : St) (c : Session A) : StoreResult A :=
  match c with
  | Finish a => Ok a
  | Write st k => s ←? step s st; run_session step s k
  | Ask now req k => run_session step s (k (serve now s req))
  end.

(** The consumer writes admissible events, on the ids that are left, and the
    program does not ask for the estimates of the front page. *)
Fixpoint session_ok {A} (dn tn : N) (m : Mem.MemStorageData) (c : Session A) : Prop :=
  match c with
  | Finish _ => True
  | Write st k =>
      admissible_step m st ∧ (dn + 1 < id_bound)%N ∧ (tn + total_links [st] < u64_bound)%N ∧
      ∀ m', mem_step m st = Ok m' → session_ok (dn + 1) (tn + total_links [st]) m' k
  | Ask now req k => uri_path req ≠ "/" ∧ session_ok dn tn m (k (serve now m req))
  end.

Lemma route_same {St} `{LinkReader St} (s : St) (m : Mem.MemStorageData) now req :
  same_answers s m → uri_path req ≠ "/" → route now s req = route now m req.
Proof.
  intros Hs Hp. unfold route. rewrite (decide_False (P := uri_path req = "/")) by done.
  assert (Hq : ∀ t c p limit cur, _) by exact Hs.
  repeat case_decide; try done.
  - destruct (parse_count_query _) as [q|]; [|done]. cbn [with_query]. unfold count_links.
    by destruct (Hq (cq_target q) (cq_collection q) (cq_path q) 0%N None) as (-> & _).
  - destruct (parse_count_query _) as [q|]; [|done]. cbn [with_query]. unfold count_distinct_dids.
    by destruct (Hq (cq_target q) (cq_collection q) (cq_path q) 0%N None) as (_ & -> & _).
  - destruct (parse_items_query _) as [q|]; [|done]. cbn [with_query]. unfold get_links_handler. f_equal.
    destruct (query_until q) as [cur|]; cbn [result_bind]; [|done].
    by destruct (Hq (iq_target q) (iq_collection q) (iq_path q) (default DEFAULT_CURSOR_LIMIT (iq_limit q)) cur) as (_ & _ & -> & _).
  - destruct (parse_items_query _) as [q|]; [|done]. cbn [with_query]. unfold get_distinct_dids_handler. f_equal.
    destruct (query_until q) as [cur|]; cbn [result_bind]; [|done].
    by destruct (Hq (iq_target q) (iq_collection q) (iq_path q) (default DEFAULT_CURSOR_LIMIT (iq_limit q)) cur) as (_ & _ & _ & -> & _).
  - destruct (parse_target_query _) as [t|]; [|done]. cbn [with_query]. unfold count_all_links.
    by destruct (Hq t "" "" 0%N None) as (_ & _ & _ & _ & -> & _).
  - destruct (parse_target_query _) as [t|]; [|done]. cbn [with_query]. unfold explore_links.
    by destruct (Hq t "" "" 0%N None) as (_ & _ & _ & _ & _ & ->).
Qed.

Lemma serve_same {St} `{LinkReader St} (s : St) (m : Mem.MemStorageData) now req :
  same_answers s m → uri_path req ≠ "/" → serve now s req = serve now m req.
Proof. intros Hs Hp. unfold serve, add_lables. by rewrite (route_same s m). Qed.
End Routes.

(** ** The two servers agree *)

Section Agree.
Context `{Web} `{Codec ApiCursor} `{HttpStack}.
Context `{BL : BincodeLaws} `{RL : @RocksDbLaws RD merge_op}.

Lemma session_sim {A} (c : Session A) : ∀ m (r : RocksStorage) dn tn dn' tn',
  sim m r dn' tn' → (dn' ≤ dn)%N → (tn' ≤ tn)%N → session_ok dn tn m c →
  run_session rocks_step r c = run_session mem_step m c.
Proof.
  induction c as [a|st k IH|now req k IH]; intros m r dn tn dn' tn' Hs Hdn Htn Hc; cbn [run_session session_ok] in *; [done|..].
  - destruct Hc as (Ha & Hb1 & Hb2 & Hk).
    destruct (step_sim m r dn' tn' st Hs Ha) as (m2 & r2 & dn2 & tn2 & E1 & E2 & Hs2 & Hd2 & Ht2); [lia|lia|].
    rewrite E1, E2. cbn [result_bind]. eapply IH; [exact Hs2| | |by apply Hk]; lia.
  - destruct Hc as (Hp & Hk). rewrite (serve_same r m) by (done || by eapply Contract.sim_same_answers). by eapply IH.
Qed.

End Agree.

(** ** A concrete http stack *)

#[local] Instance plain_stack : HttpStack := {|
  HeaderValue := string;
  to_str := Some;
  QueryString := option (GetLinksCountQuery + (GetLinkItemsQuery + string));
  no_query := None;
  parse_count_query q := match q with Some (inl q) => Some q | _ => None end;
  parse_items_query q := match q with Some (inr (inl q)) => Some q | _ => None end;
  parse_target_query q := match q with Some (inr (inr t)) => Some t | _ => None end;
  print_items_query q := Some (inr (inl q))
|}.
#[local] Instance plain_stack_laws : HttpStackLaws.
Proof. done. Qed.
End Http.
