(* ===== verification/ConstellationBrowse.v ===== *)
(** * constellation: paging through links while they change
      (constellation/src/server/mod.rs, storage/mem_store.rs, storage/rocks_store.rs)

    The lists of linkers only grow at their end, and a removed link leaves a
    hole, so a cursor, which is an index, stays meaningful when the consumer
    writes between two requests.  Shown here: a client that follows the cursors
    of [/links] while links come and go gets every link that stays, no entry
    twice, and none that came after its first request, in at most as many
    requests as there were entries at the first one; [/links/distinct-dids] can
    miss an account that links all the time. *)

From S2P Require Import Prelude RustStr Bytes LinksRecord RocksApi.
From S2P Require Import ConstellationTypes ConstellationMem ConstellationRocks ConstellationRocksView ConstellationRefine.
From S2P Require Import ConstellationSim ConstellationContract ConstellationService ConstellationServer ConstellationHttp.
Import Rocks.

Module Browse.
Import Server Http.

(** ** Lists of linkers over time *)

(** [l'] is [l] after some time: entries became holes, others were added. *)
Definition later {A} (l l' : list (option A)) : Prop := Mem.holes l (take (length l) l').

#[global] Instance later_refl {A} : Reflexive (@later A).
Proof. intros l. unfold later. rewrite firstn_all. reflexivity. Qed.

Lemma later_length {A} (l l' : list (option A)) : later l l' → length l ≤ length l'.
Proof. intros Hh%Forall2_length. rewrite length_take in Hh. lia. Qed.

Lemma holes_take {A} n (l l' : list (option A)) : Mem.holes l l' → Mem.holes (take n l) (take n l').
Proof. apply Forall2_take. Qed.

Lemma later_take {A} n (l l' : list (option A)) : n ≤ length l → later l l' → Mem.holes (take n l) (take n l').
Proof. intros Hn Hl%(holes_take n). by rewrite take_take, Nat.min_l in Hl. Qed.

#[global] Instance later_trans {A} : Transitive (@later A).
Proof.
  intros l1 l2 l3 H12 H23. unfold later. etrans; [exact H12|]. apply later_take; [by apply later_length|done].
Qed.

Lemma holes_sublist {A} (l l' : list (option A)) : Mem.holes l l' → Mem.flatten l' `sublist_of` Mem.flatten l.
Proof.
  induction 1 as [|o o' l l' Ho Hl IH]; [done|]. unfold Mem.flatten in *. cbn [omap list_omap].
  destruct Ho as [->| ->]; destruct o; solve [done|by constructor].
Qed.

Lemma holes_rev {A} (l l' : list (option A)) : Mem.holes l l' → Mem.holes (rev l) (rev l').
Proof. intros Hh. induction Hh as [|o o' l l' Ho Hl IH]; [constructor|]. apply Forall2_app; [done|]. by constructor. Qed.

(** All lists of a store. *)
Definition evolves (m m' : Mem.MemStorageData) : Prop :=
  ∀ target source, later (get2 (Mem.targets m) target source) (get2 (Mem.targets m') target source).

#[global] Instance evolves_refl : Reflexive evolves.
Proof. intros m t s. reflexivity. Qed.
#[global] Instance evolves_trans : Transitive evolves.
Proof. intros m1 m2 m3 H1 H2 t s. etrans; [apply H1|apply H2]. Qed.

Lemma later_app {A} (l k : list (option A)) : later l (l ++ k).
Proof. unfold later. rewrite take_app_length. reflexivity. Qed.

Lemma later_map {A} (f : option A → option A) l : (∀ o, f o = o ∨ f o = None) → later l (map f l).
Proof.
  intros Hf. unfold later. rewrite take_ge by (by rewrite length_map). induction l; constructor; [apply Hf|done].
Qed.

Lemma add_links_evolves record_id ls : ∀ m, evolves m (Mem.add_links m record_id ls).
Proof.
  induction ls as [|l ls IH]; intros m; [reflexivity|]. etrans; [|apply IH].
  intros t s. cbn [Mem.add_link Mem.targets]. rewrite get2_update2. case_decide as Hd; [|reflexivity].
  destruct Hd as [-> ->]. apply later_app.
Qed.

Lemma map_targets_evolves m m' (f : string → option (string * string) → option (string * string)) :
  (∀ c o, f c o = o ∨ f c o = None) →
  (∀ t c p, Mem.targets m' !! t ≫= lookup (c, p) = map (f c) <$> (Mem.targets m !! t ≫= lookup (c, p))) → evolves m m'.
Proof.
  intros Hf Hm t [c p]. unfold get2. rewrite Hm. destruct (Mem.targets m !! t ≫= lookup (c, p)); cbn [fmap option_fmap option_map default from_option id];
    [by apply later_map|reflexivity].
Qed.

Lemma remove_links_evolves m record_id m' :
  Mem.mem_inv m → Mem.remove_links m record_id = Ok m' → evolves m m'.
Proof.
  intros Hinv Hr. destruct (Mem.remove_links_ok m record_id Hinv) as (ts & E & Hts). rewrite E in Hr. injection Hr as <-.
  apply (map_targets_evolves _ _ (Mem.clear_record record_id)); [|done].
  intros c [x|]; [|by left]. unfold Mem.clear_record. case_decide; [by right|by left].
Qed.

Lemma delete_account_evolves m did m' :
  Mem.mem_inv m → Mem.delete_account m did = Ok m' → evolves m m'.
Proof.
  intros Hinv Hr. destruct (Mem.delete_account_ok m did Hinv) as (ts & E & Hts). rewrite E in Hr. injection Hr as <-.
  apply (map_targets_evolves _ _ (λ _, Mem.clear_did did)); [|done].
  intros _ [x|]; [|by left]. unfold Mem.clear_did. case_decide; [by right|by left].
Qed.

(** Every event only appends and makes holes. *)
Lemma push_evolves m event cursor m' : Mem.mem_inv m → push m event cursor = Ok m' → evolves m m'.
Proof.
  intros Hinv. simpl. destruct event as [rid ls|rid ls|rid|did|did|did]; simpl.
  - intros [= <-]. apply add_links_evolves.
  - unfold Mem.update_links. destruct (Mem.remove_links m rid) as [m1|] eqn:E; [|done]. intros [= <-].
    etrans; [by eapply remove_links_evolves|apply add_links_evolves].
  - by apply remove_links_evolves.
  - intros [= <-]. unfold Mem.set_account. intros t s. destruct (Mem.dids m !! did); reflexivity.
  - intros [= <-]. unfold Mem.set_account. intros t s. destruct (Mem.dids m !! did); reflexivity.
  - by apply delete_account_evolves.
Qed.

Lemma steps_evolve steps : ∀ m, Mem.mem_inv m →
  ∃ m', foldl_res mem_step m steps = Ok m' ∧ Mem.mem_inv m' ∧ evolves m m'.
Proof.
  induction steps as [|[event cursor|] steps IH]; intros m Hinv; cbn [foldl_res mem_step].
  - exists m. split_and!; [done|done|reflexivity].
  - destruct (Mem.mem_push_inv m event cursor Hinv) as (m1 & E & Hinv1). change (push m event cursor = Ok m1) in E. rewrite E. cbn [result_bind].
    destruct (IH m1 Hinv1) as (m2 & E2 & Hinv2 & Hev). exists m2. split_and!; [done|done|]. etrans; [by eapply push_evolves|done].
  - cbn [result_bind]. by apply IH.
Qed.
(** ** The client *)

Section Client.
Context `{Web} `{ApiCursorLaws} `{HttpStackLaws}.

Definition write_all {A} (steps : list Step) (k : Session A) : Session A := foldr Write k steps.

(** Ask for JSON pages and follow the cursors; the k-th list of [writes]
    happens between the k-th request and the next. *)
Fixpoint browse (query : GetLinkItemsQuery) (writes : list (list Step)) (fuel : nat) (cursor : option string)
    (got : list RecordId) : Session (HandlerResult (list RecordId)) :=
  match fuel with
  | O => Finish (Err (Panicked "too many pages"))
  | S fuel =>
      Ask 0 (mkRequest "/links"
               (print_items_query (mkItemsQuery (iq_target query) (iq_collection query) (iq_path query) cursor (iq_limit query)))
               None None None) (λ r,
        match r.1 with
        | ReplyLinks (Json thing) =>
            match ir_cursor thing with
            | None => Finish (Ok (got ++ ir_items thing))
            | Some c => write_all (default [] (head writes)) (browse query (tail writes) fuel (Some c) (got ++ ir_items thing))
            end
        | Failed f => Finish (Err f)
        | _ => Finish (Err (Panicked "not json"))
        end)
  end.

(** The states the requests may find. *)
Fixpoint mem_states (m : Mem.MemStorageData) (writes : list (list Step)) : list Mem.MemStorageData :=
  m :: match writes with
       | [] => []
       | w :: writes => match foldl_res mem_step m w with Ok m' => mem_states m' writes | Err _ => [] end
       end.
Definition mem_final (m : Mem.MemStorageData) (writes : list (list Step)) : Mem.MemStorageData :=
  default m (last (mem_states m writes)).

(** The entries of a list, the newest first. *)
Definition entries_of (collection : string) (l : list (option (string * string))) : list RecordId :=
  map (λ x, mkRecordId x.1 collection x.2) (Mem.flatten (rev l)).

(** Links that a list still has, of accounts active in all states. *)
Definition lasting (states : list Mem.MemStorageData) (collection : string) (l : list (option (string * string))) : list RecordId :=
  map (λ x, mkRecordId x.1 collection x.2)
    (filter (λ x, Forall (λ m, Mem.dids m !! x.1 = Some true) states) (Mem.flatten (rev l))).

Definition linkers_of (m : Mem.MemStorageData) (query : GetLinkItemsQuery) : list (option (string * string)) :=
  get2 (Mem.targets m) (iq_target query) (iq_collection query, iq_path query).

Lemma run_write_all {A} steps (k : Session A) : ∀ m,
  run_session mem_step m (write_all steps k) = (m' ←? foldl_res mem_step m steps; run_session mem_step m' k).
Proof.
  induction steps as [|st steps IH]; intros m; cbn [write_all foldr run_session foldl_res]; [done|].
  destruct (mem_step m st) as [m1|]; [|done]. cbn [result_bind]. apply IH.
Qed.

(** A page of [/links], as the client gets it. *)
Lemma links_page m query limit oc cur :
  Mem.mem_inv m → iq_limit query = Some limit → (limit ≤ DEFAULT_CURSOR_LIMIT_MAX)%N →
  query_until (mkItemsQuery (iq_target query) (iq_collection query) (iq_path query) oc (iq_limit query)) = Ok cur →
  let l := linkers_of m query in
  let e := page_end (Mem.lenN l) cur in
  let b := page_begin e limit in
  ∃ thing,
    (serve 0 m (mkRequest "/links" (print_items_query
       (mkItemsQuery (iq_target query) (iq_collection query) (iq_path query) oc (iq_limit query))) None None None)).1 =
      ReplyLinks (Json thing) ∧
    ir_items thing = lasting [m] (iq_collection query) (slice b e l) ∧
    ir_cursor thing = (λ n, opaque_from (mkApiCursor (Mem.lenN l, Mem.lenN l - Mem.lenN (Mem.flatten l))%N n)) <$> page_next b.
Proof.
  intros Hinv Hl Hmax Hcur l e b. unfold serve, add_lables, route. cbn [uri_path uri_query hdr_accept fst].
  repeat (rewrite decide_False by done). rewrite decide_True by done. rewrite parse_print_items. cbn [with_query].
  unfold get_links_handler. rewrite Hcur. cbn [result_bind iq_target iq_collection iq_path iq_limit].
  rewrite Hl. cbn [default from_option id]. rewrite (proj2 (N.ltb_ge _ _) Hmax). cbn [get_links Mem.mem_LinkReader].
  unfold Mem.mem_get_links.
  assert (Hlk : l = default [] (Mem.linkers_at m (iq_target query) (iq_collection query) (iq_path query))) by done. clearbody l.
  destruct (Mem.linkers_at m _ _ _) as [L|] eqn:E; cbn [default from_option id] in Hlk; subst l.
  - rewrite Mem.paged_ok by (intros; by eapply Mem.inv_linkers_known). cbn [result_bind map_err_500 into_reply].
    eexists. split; [done|]. cbn [ir_items ir_cursor Mem.page_map items]. split; [|done].
    unfold lasting. f_equal. apply list_filter_iff. intros x. rewrite Forall_singleton. done.
  - cbn [map_err_500 result_bind into_reply]. eexists. split; [done|]. subst e b. cbn [ir_items ir_cursor].
    unfold empty_page, next_cursor. cbn [items next]. destruct cur; cbn; by rewrite ?N.min_0_l, ?N.min_0_r.
Qed.
Lemma filter_sublist_mono {A} (P Q : A → Prop) `{!∀ x, Decision (P x), !∀ x, Decision (Q x)} (l l' : list A) :
  (∀ x, P x → Q x) → l `sublist_of` l' → filter P l `sublist_of` filter Q l'.
Proof.
  intros HPQ. induction 1 as [|x l l' Hl IH|x l l' Hl IH]; [done|..]; rewrite ?filter_cons.
  - destruct (decide (P x)), (decide (Q x)); try (by constructor); [naive_solver|done].
  - destruct (decide (Q x)); [by constructor|done].
Qed.

Lemma lasting_sub ms ms' c l l' :
  (∀ m, m ∈ ms' → m ∈ ms) → Mem.holes l' l → lasting ms c l `sublist_of` lasting ms' c l'.
Proof.
  intros Hms Hh. unfold lasting. apply fmap_sublist, filter_sublist_mono; [|by apply holes_sublist, holes_rev].
  intros x. rewrite !Forall_forall. auto.
Qed.

Lemma lasting_entries ms c l : lasting ms c l `sublist_of` entries_of c l.
Proof. apply fmap_sublist, sublist_filter. Qed.

Lemma lasting_app ms c l1 l2 : lasting ms c (l1 ++ l2) = lasting ms c l2 ++ lasting ms c l1.
Proof. unfold lasting. by rewrite rev_app_distr, Mem.flatten_app, filter_app, map_app. Qed.

Lemma entries_app c l1 l2 : entries_of c (l1 ++ l2) = entries_of c l2 ++ entries_of c l1.
Proof. unfold entries_of. by rewrite rev_app_distr, Mem.flatten_app, map_app. Qed.

Lemma entries_sub c l l' : Mem.holes l' l → entries_of c l `sublist_of` entries_of c l'.
Proof. intros Hh. by apply fmap_sublist, holes_sublist, holes_rev. Qed.

Lemma later_slice {A} b e (l l' : list (option A)) :
  (N.to_nat e ≤ length l) → later l l' → Mem.holes (slice b e l) (slice b e l').
Proof.
  intros He Hl. unfold slice. rewrite <- !skipn_firstn_comm.
  apply (later_take _ _ _ He) in Hl. by apply Forall2_drop.
Qed.

(** What happens between two requests. *)
Lemma states_step m writes : Mem.mem_inv m →
  ∃ m1, foldl_res mem_step m (default [] (head writes)) = Ok m1 ∧ Mem.mem_inv m1 ∧ evolves m m1 ∧
    (∀ m', m' ∈ mem_states m1 (tail writes) → m' ∈ mem_states m writes) ∧
    mem_final m1 (tail writes) = mem_final m writes.
Proof.
  intros Hinv. destruct writes as [|w writes]; cbn [head hd_error default from_option id tail].
  { exists m. split_and!; [done|done|reflexivity|done|done]. }
  destruct (steps_evolve w m Hinv) as (m1 & E & Hinv1 & Hev). exists m1. split_and!; [done|done|done|..].
  - intros m'. cbn [mem_states]. rewrite E. by right.
  - unfold mem_final. cbn [mem_states]. rewrite E. assert (Hne : mem_states m1 writes ≠ []) by (by destruct writes).
    destruct (mem_states m1 writes) as [|m2 ms]; [done|]. change (last (m :: m2 :: ms)) with (last (m2 :: ms)).
    destruct (last (m2 :: ms)) eqn:El; [done|]. by apply last_None in El.
Qed.

Lemma final_evolves writes : ∀ m, Mem.mem_inv m → evolves m (mem_final m writes).
Proof.
  induction writes as [|w writes IH]; intros m Hinv; [reflexivity|].
  destruct (states_step m (w :: writes) Hinv) as (m1 & E & Hinv1 & Hev & _ & <-). etrans; [exact Hev|]. by apply IH.
Qed.

Lemma browse_S query writes fuel cursor got :
  browse query writes (S fuel) cursor got =
  Ask 0 (mkRequest "/links"
           (print_items_query (mkItemsQuery (iq_target query) (iq_collection query) (iq_path query) cursor (iq_limit query)))
           None None None) (λ r,
    match r.1 with
    | ReplyLinks (Json thing) =>
        match ir_cursor thing with
        | None => Finish (Ok (got ++ ir_items thing))
        | Some c => write_all (default [] (head writes)) (browse query (tail writes) fuel (Some c) (got ++ ir_items thing))
        end
    | Failed f => Finish (Err f)
    | _ => Finish (Err (Panicked "not json"))
    end).
Proof. done. Qed.

Lemma browse_collects query limit :
  iq_limit query = Some limit → (0 < limit ≤ DEFAULT_CURSOR_LIMIT_MAX)%N →
  ∀ fuel m writes oc cur got0,
    Mem.mem_inv m →
    (∀ m', m' ∈ mem_states m writes → (Mem.lenN (linkers_of m' query) < u64_bound)%N) →
    query_until (mkItemsQuery (iq_target query) (iq_collection query) (iq_path query) oc (iq_limit query)) = Ok cur →
    let e := N.to_nat (page_end (Mem.lenN (linkers_of m query)) cur) in
    e ≤ fuel →
    ∃ got, run_session mem_step m (browse query writes (S fuel) oc got0) = Ok (Ok (got0 ++ got)) ∧
      lasting (mem_states m writes) (iq_collection query) (take e (linkers_of (mem_final m writes) query)) `sublist_of` got ∧
      got `sublist_of` entries_of (iq_collection query) (take e (linkers_of m query)).
Proof.
  intros Hl Hlim. induction fuel as [|fuel IH]; intros m writes oc cur got0 Hinv Hbig Hcur e He.
  all: destruct (links_page m query limit oc cur Hinv Hl (proj2 Hlim) Hcur) as (thing & Hs & Hit & Hc).
  all: rewrite browse_S; cbn [run_session]; rewrite Hs; set (l := linkers_of m query) in *; set (eN := page_end (Mem.lenN l) cur) in *.
  all: assert (Hle : (eN ≤ Mem.lenN l)%N) by (unfold eN, page_end; destruct cur; lia).
  all: pose proof (final_evolves writes m Hinv (iq_target query) (iq_collection query, iq_path query)) as Hfin.
  all: change (later l (linkers_of (mem_final m writes) query)) in Hfin.
  all: assert (Hm : ∀ m', m' ∈ [m] → m' ∈ mem_states m writes) by (intros m' ->%list_elem_of_singleton; destruct writes; by left).
  all: unfold page_next in Hc; destruct (N.eqb_spec (page_begin eN limit) 0) as [Hz|Hnz]; cbn [fmap option_fmap option_map] in Hc; rewrite Hc.
  all: unfold Mem.lenN in Hle.
  1,3: exists (ir_items thing); cbn [run_session]; split; [done|]; rewrite Hit, Hz;
    assert (Hsl : ∀ k : list (option (string * string)), slice 0 eN k = take e k) by
      (intros k; unfold slice; cbn; rewrite drop_0, Nat.sub_0_r; done); rewrite Hsl; split;
    [apply lasting_sub; [done|]; apply later_take; [lia|done]|apply lasting_entries].
  - unfold page_begin in *. lia.
  - rewrite run_write_all. destruct (states_step m writes Hinv) as (m1 & -> & Hinv1 & Hev & Hst & Hf). cbn [result_bind].
    set (b := page_begin eN limit) in *. specialize (Hev (iq_target query) (iq_collection query, iq_path query)).
    change (later l (linkers_of m1 query)) in Hev. pose proof (later_length _ _ Hev) as Hlen1.
    assert (Hb1 : page_end (Mem.lenN (linkers_of m1 query)) (Some b) = b) by (unfold page_end, b, page_begin, Mem.lenN in *; lia).
    assert (Hbe : (b < eN)%N) by (unfold b, page_begin in *; lia).
    assert (Hlb : (Mem.lenN l < u64_bound)%N) by (apply Hbig; destruct writes; by left).
    destruct (IH m1 (tail writes) (Some (opaque_from (mkApiCursor (Mem.lenN l, Mem.lenN l - Mem.lenN (Mem.flatten l))%N b)))
                (Some b) (got0 ++ ir_items thing) Hinv1) as (got & -> & Hlo & Hup).
    + intros m' Hm'. by apply Hbig, Hst.
    + unfold query_until, api_cursor_try_from, opaque_from. cbn [iq_cursor]. rewrite rt_api_cursor; cbn [fst snd]; [done|done|lia|].
      unfold Mem.lenN in *. lia.
    + rewrite Hb1. lia.
    + exists (ir_items thing ++ got). rewrite app_assoc. split; [done|]. rewrite Hb1, Hf in Hlo. rewrite Hb1 in Hup. split.
      * unfold e. rewrite <- (slice_take_app b eN) by lia. rewrite lasting_app, Hit. apply sublist_app.
        -- apply lasting_sub; [done|]. apply later_slice; [lia|done].
        -- etrans; [|exact Hlo]. apply lasting_sub; [done|reflexivity].
      * unfold e. rewrite <- (slice_take_app b eN l) by lia. rewrite entries_app, Hit. apply sublist_app; [apply lasting_entries|].
        etrans; [exact Hup|]. apply entries_sub, later_take; [lia|done].
Qed.
End Client.

(** ** Lengths of the lists *)

Definition len_bound (m : Mem.MemStorageData) (n : N) : Prop :=
  ∀ target source, (Mem.lenN (get2 (Mem.targets m) target source) ≤ n)%N.

Lemma len_bound_le m n n' : len_bound m n → (n ≤ n')%N → len_bound m n'.
Proof. intros Hm Hn t s. etrans; [apply Hm|done]. Qed.

Lemma add_links_len record_id ls : ∀ m n, len_bound m n → len_bound (Mem.add_links m record_id ls) (n + N.of_nat (length ls)).
Proof.
  induction ls as [|l ls IH]; intros m n Hm; cbn [Mem.add_links fold_left length]; [eapply len_bound_le; [done|lia]|].
  replace (n + N.of_nat (S (length ls)))%N with (n + 1 + N.of_nat (length ls))%N by lia. apply IH.
  intros t s. cbn [Mem.add_link Mem.targets]. rewrite get2_update2. case_decide as Hd; [|specialize (Hm t s); lia].
  destruct Hd as [-> ->]. unfold Mem.lenN. rewrite length_app. cbn [length]. specialize (Hm (Links.as_str (Links.target l)) (rid_collection record_id, Links.path l)).
  unfold Mem.lenN in Hm. lia.
Qed.

Lemma map_targets_len m m' n (f : string → option (string * string) → option (string * string)) :
  (∀ t c p, Mem.targets m' !! t ≫= lookup (c, p) = map (f c) <$> (Mem.targets m !! t ≫= lookup (c, p))) →
  len_bound m n → len_bound m' n.
Proof.
  intros Hm Hn t [c p]. specialize (Hn t (c, p)). unfold get2 in *. rewrite Hm.
  destruct (Mem.targets m !! t ≫= lookup (c, p)); cbn [fmap option_fmap option_map default from_option id] in *; [|done].
  unfold Mem.lenN in *. by rewrite length_map.
Qed.

Lemma push_len m event cursor m' n :
  Mem.mem_inv m → len_bound m n → push m event cursor = Ok m' → len_bound m' (n + event_links event).
Proof.
  intros Hinv Hn. simpl. destruct event as [rid ls|rid ls|rid|did|did|did]; cbn [Mem.mem_push event_links]; rewrite ?N.add_0_r.
  - intros [= <-]. by apply add_links_len.
  - unfold Mem.update_links. destruct (Mem.remove_links_ok m rid Hinv) as (ts & -> & Hts). intros [= <-].
    apply add_links_len. by eapply map_targets_len.
  - destruct (Mem.remove_links_ok m rid Hinv) as (ts & -> & Hts). intros [= <-]. by eapply map_targets_len.
  - intros [= <-]. unfold Mem.set_account. by destruct (Mem.dids m !! did).
  - intros [= <-]. unfold Mem.set_account. by destruct (Mem.dids m !! did).
  - destruct (Mem.delete_account_ok m did Hinv) as (ts & -> & Hts). intros [= <-]. by eapply (map_targets_len _ _ _ (λ _, Mem.clear_did did)).
Qed.

Lemma steps_len steps : ∀ m m' n, Mem.mem_inv m → len_bound m n → foldl_res mem_step m steps = Ok m' →
  len_bound m' (n + total_links steps).
Proof.
  induction steps as [|st steps IH]; intros m m' n Hinv Hn; cbn [foldl_res].
  { intros [= <-]. eapply len_bound_le; [done|lia]. }
  destruct (mem_step m st) as [m1|] eqn:E; [|done]. cbn [result_bind]. intros Hr.
  assert (H1 : Mem.mem_inv m1 ∧ len_bound m1 (n + total_links [st])).
  { destruct st as [event cursor|]; cbn [mem_step] in E.
    - destruct (Mem.mem_push_inv m event cursor Hinv) as (m1' & E' & Hinv1).
      change (push m event cursor = Ok m1') in E'. rewrite E in E'. injection E' as <-. split; [done|].
      eapply len_bound_le; [by eapply (push_len m event cursor)|]. unfold total_links. cbn [fold_right]. lia.
    - injection E as <-. split; [done|]. eapply len_bound_le; [done|lia]. }
  destruct H1 as [Hinv1 Hn1]. eapply len_bound_le; [by eapply (IH m1)|].
  change (st :: steps) with ([st] ++ steps). rewrite ConstellationProcess.total_links_app. lia.
Qed.

Lemma states_len writes : ∀ m n m', Mem.mem_inv m → len_bound m n → m' ∈ mem_states m writes →
  len_bound m' (n + total_links (concat writes)).
Proof.
  induction writes as [|w writes IH]; intros m n m' Hinv Hn; cbn [mem_states concat].
  { intros ->%list_elem_of_singleton. eapply len_bound_le; [done|lia]. }
  destruct (steps_evolve w m Hinv) as (m1 & E & Hinv1 & _). rewrite E. intros [->|Hin]%elem_of_cons.
  { eapply len_bound_le; [done|lia]. }
  rewrite ConstellationProcess.total_links_app, N.add_assoc. eapply (IH m1); [done|by eapply (steps_len w m)|done].
Qed.

(** ** The running service *)

Section Live.
Context `{Web} `{ApiCursorLaws} `{HttpStackLaws}.
Context `{BL : BincodeLaws} `{RL : @RocksDbLaws RD merge_op}.

Lemma write_all_ok {A} (k : Session A) steps : ∀ dn tn m,
  admissible_run m steps → (dn + N.of_nat (length steps) < id_bound)%N → (tn + total_links steps < u64_bound)%N →
  (∀ m', foldl_res mem_step m steps = Ok m' → session_ok (dn + N.of_nat (length steps)) (tn + total_links steps) m' k) →
  session_ok dn tn m (write_all steps k).
Proof.
  induction steps as [|st steps IH]; intros dn tn m Ha Hd Ht Hk; cbn [write_all foldr session_ok].
  - cbn [length] in Hk. replace dn with (dn + N.of_nat 0)%N by lia. replace tn with (tn + total_links [])%N by (cbn; lia). by apply Hk.
  - destruct Ha as [Ha Hrest]. change (st :: steps) with ([st] ++ steps) in Ht, Hk.
    rewrite ConstellationProcess.total_links_app in *. cbn [length] in *. rewrite length_app in Hk. cbn [length] in Hk. split_and!; [done|lia|lia|].
    intros m' E. apply IH; [by apply Hrest|lia|lia|]. intros m2 E2.
    replace (dn + 1 + N.of_nat (length steps))%N with (dn + N.of_nat (1 + length steps))%N by lia.
    rewrite <- N.add_assoc. apply Hk. cbn [app foldl_res]. by rewrite E.
Qed.

Lemma browse_ok query fuel : ∀ dn tn m writes oc got,
  admissible_run m (concat writes) → (dn + N.of_nat (length (concat writes)) < id_bound)%N →
  (tn + total_links (concat writes) < u64_bound)%N → session_ok dn tn m (browse query writes fuel oc got).
Proof.
  induction fuel as [|fuel IH]; intros dn tn m writes oc got Ha Hd Ht; [done|]. rewrite browse_S. cbn [session_ok].
  split; [done|]. destruct (serve _ _ _) as [reply labels]. cbn [fst].
  destruct reply as [| | |[|thing|] | | | | | |]; try done. destruct (ir_cursor thing) as [c|]; [|done].
  destruct writes as [|w writes]; cbn [head hd_error default from_option id tail].
  - cbn [write_all foldr]. by apply IH.
  - cbn [concat] in *. rewrite length_app, ConstellationProcess.total_links_app in *.
    apply ConstellationProcess.admissible_run_app in Ha as [Ha1 Ha2].
    apply write_all_ok; [done|lia|lia|]. intros m' E. apply IH; [by apply Ha2|lia|lia].
Qed.

Lemma linkers_NoDup m (r : RocksStorage) dn tn query : sim m r dn tn → NoDup (entries_of (iq_collection query) (linkers_of m query)).
Proof.
  intros ([Hocc _] & _ & _ & v & dseq & tseq & _ & _ & _ & _ & Hr). unfold entries_of, linkers_of.
  apply NoDup_fmap_2; [intros [] [] [= -> ->]; done|]. apply occ_le_NoDup. intros [did rkey].
  rewrite Mem.flatten_occ. rewrite (Permutation.Permutation_sym (Permutation_rev _)).
  rewrite Hocc. apply occ_NoDup_le. apply (rf_nodup _ _ _ _ _ _ Hr).
Qed.

(** C3. Paging is stable under writes: a client that follows the cursors of
    [/links] on a server over RocksDB, while the consumer writes any admissible
    events (and restarts) before, between and after its requests, is done after
    at most one request per entry the list had at its first request.  What it
    got has no link twice, no link that came later, is in order, the newest
    first, and has every link that is still there at the end and whose account
    was active at every request. *)
Theorem paging_under_writes (d : DB) history writes m query limit :
  (∀ cf k, db_get_cf d cf k = None) →
  admissible_run Mem.new (history ++ concat writes) →
  (1 + N.of_nat (length (history ++ concat writes)) < id_bound)%N →
  (1 + total_links (history ++ concat writes) < u64_bound)%N →
  foldl_res mem_step Mem.new history = Ok m →
  iq_limit query = Some limit → (0 < limit ≤ DEFAULT_CURSOR_LIMIT_MAX)%N →
  let l := linkers_of m query in
  ∃ r got, open_readmode d false = Ok r ∧
    run_session rocks_step r (write_all history (browse query writes (S (length l)) None [])) = Ok (Ok got) ∧
    NoDup got ∧ got `sublist_of` entries_of (iq_collection query) l ∧
    lasting (mem_states m writes) (iq_collection query) (take (length l) (linkers_of (mem_final m writes) query)) `sublist_of` got.
Proof.
  intros Hd Ha Hb1 Hb2 Hm Hl Hlim l. rewrite length_app, ConstellationProcess.total_links_app in *.
  apply ConstellationProcess.admissible_run_app in Ha as [Ha1 Ha2]. specialize (Ha2 m Hm).
  destruct (open_empty_sim d Hd) as (r & E & Hs).
  destruct (run_sim history Mem.new r 1 1 Hs Ha1) as (m' & r' & dn & tn & Em & _ & Hs'); [lia|lia|].
  rewrite Hm in Em. injection Em as <-. pose proof (proj1 Hs') as Hinv.
  assert (Hn0 : len_bound Mem.new 0) by (intros t s; done).
  pose proof (steps_len history Mem.new m 0 Mem.mem_inv_new Hn0 Hm) as Hn.
  destruct (browse_collects query limit Hl Hlim (length l) m writes None None []) as (got & Hrun & Hlo & Hup); [done| |done| |].
  { intros m' Hin. pose proof (states_len writes m _ m' Hinv Hn Hin (iq_target query) (iq_collection query, iq_path query)) as Hlen.
    change (get2 _ _ _) with (linkers_of m' query) in Hlen. lia. }
  { unfold page_end, Mem.lenN. fold l. lia. }
  unfold page_end, Mem.lenN in Hlo, Hup. fold l in Hlo, Hup. rewrite Nat2N.id in Hlo, Hup. rewrite firstn_all in Hup.
  exists r, got. split_and!; [done| | |done|done].
  - rewrite (session_sim _ Mem.new r 1 1 1 1); [|done|done|done|].
    + rewrite run_write_all, Hm. exact Hrun.
    + apply write_all_ok; [done|lia|lia|]. intros m2 E2. rewrite Hm in E2. injection E2 as <-. apply browse_ok; [done|lia|lia].
  - eapply sublist_NoDup; [by eapply linkers_NoDup|done].
Qed.
End Live.

(** ** Concrete runs *)

#[local] Existing Instance Server.plain_web.
#[local] Existing Instance Server.plain_cursor.
#[local] Existing Instance Server.plain_cursor_laws.
#[local] Existing Instance Http.plain_stack.
#[local] Existing Instance Http.plain_stack_laws.
#[local] Existing Instance Reference.ref_bincode.
#[local] Existing Instance Contract.ref_db.

Definition create (did rkey : string) (cursor : N) : Step :=
  Event (CreateLinks (Contract.post did rkey) [Contract.link_to ".x" "t"]) cursor.
Definition sample_history : list Step := [create "d1" "a" 1; create "d2" "a" 2; create "d1" "b" 3].
Definition sample_writes : list (list Step) :=
  [[create "d3" "a" 4; Event (DeleteRecord (Contract.post "d1" "a")) 5]; [Event (DeactivateAccount "d9") 6]].
Definition browse_query (limit : N) : GetLinkItemsQuery := mkItemsQuery "t" "c" ".x" None (Some limit).
Definition after_history : Mem.MemStorageData :=
  match foldl_res mem_step Mem.new sample_history with Ok m => m | Err _ => Mem.new end.

Lemma paging_under_writes_witness :
  ∃ r got, open_readmode Contract.empty_db false = Ok r ∧
    run_session rocks_step r (write_all sample_history (browse (browse_query 1) sample_writes 4 None [])) = Ok (Ok got) ∧
    [mkRecordId "d1" "c" "b"; mkRecordId "d2" "c" "a"] `sublist_of` got.
Proof.
  destruct (@paging_under_writes _ _ _ _ _ Reference.ref_bincode Reference.ref_bincode_laws Contract.ref_db
              (Reference.ref_rocksdb_laws merge_op) Contract.empty_db sample_history sample_writes after_history (browse_query 1) 1)
    as (r & got & E & Hrun & _ & _ & Hlo).
  - intros cf k. apply lookup_empty.
  - apply (bool_decide_unpack (admissible_run Mem.new (sample_history ++ concat sample_writes))). vm_compute. exact I.
  - reflexivity.
  - reflexivity.
  - vm_compute. reflexivity.
  - reflexivity.
  - by split.
  - exists r, got. split_and!; [done|exact Hrun|]. vm_compute in Hlo. exact Hlo.
Defined.

(** The pages of distinct dids, on a memory store, with writes in between. *)
Fixpoint browse_dids (m : Mem.MemStorageData) (query : GetLinkItemsQuery) (writes : list (list Step)) (fuel : nat)
    (cursor : option N) : StoreResult (list string) :=
  match fuel with
  | O => Err (Panic "too many pages")
  | S fuel =>
      page ←? get_distinct_dids m (iq_target query) (iq_collection query) (iq_path query) (default 1%N (iq_limit query)) cursor;
      match next page with
      | None => Ok (items page)
      | Some n =>
          m' ←? foldl_res mem_step m (default [] (head writes));
          rest ←? browse_dids m' query (tail writes) fuel (Some n);
          Ok (items page ++ rest)
      end
  end.

(** The same does not hold of the accounts: one that links to the target all
    the time, from one record or another, is missed when its first link goes
    after the page of its second one was read, since only the first link of an
    account is listed. *)
Theorem distinct_dids_can_miss :
  let writes := [[Event (DeleteRecord (Contract.post "d1" "a")) 4]] in
  browse_dids after_history (browse_query 1) writes 4 None = Ok ["d2"] ∧
  Forall (λ m, ∃ p, get_distinct_dids m "t" "c" ".x" 10 None = Ok p ∧ "d1" ∈ items p) (mem_states after_history writes).
Proof.
  intros writes. split; [by vm_compute|]. cbn [mem_states writes]. constructor; [|constructor; [|constructor]].
  all: eexists; split; [vm_compute; reflexivity|]; apply (bool_decide_unpack _); by vm_compute.
Qed.
End Browse.
