(* ===== verification/ConstellationStream.v ===== *)
(** * constellation: from the stream to the answers

    The parts put together: messages of the stream go through the consumer into
    the RocksDB store, which is restarted now and then, and the server answers
    from it.  The specification is the network itself, a table of records with
    the state of their accounts, which knows nothing of links or indexes.
    Shown here: what the links endpoint answers are the records of active
    accounts that hold the link now. *)

From S2P Require Import Prelude RustStr Bytes LinksAtUri LinksRecord.
From S2P Require Import RocksApi ConstellationTypes ConstellationMem ConstellationRocks ConstellationRefine.
From S2P Require Import ConstellationRocksView ConstellationSim ConstellationContract ConstellationConsumer ConstellationServer.
Import Rocks Consumer Server.

#[global] Instance RecordId_countable : Countable RecordId.
Proof.
  refine (inj_countable' (λ r, (rid_did r, rid_collection r, rid_rkey r)) (λ x, mkRecordId x.1.1 x.1.2 x.2) _). by intros [].
Defined.

Module Stream.

(** ** What a message says *)

Inductive Message : Type :=
  | Created (rid : RecordId) (record : JsonValue)
  | Updated (rid : RecordId) (record : JsonValue)
  | Removed (rid : RecordId)
  | Activated (did : string)
  | Deactivated (did : string)
  | Deleted (did : string)
  | Unrelated.

Definition commit_says (root : list (string * JsonValue)) (op : string) (rid : RecordId) (record : option JsonValue) : Prop :=
  obj_get "kind" root = Some (JString "commit") ∧ obj_get "did" root = Some (JString (rid_did rid)) ∧
  ∃ commit, obj_get "commit" root = Some (JObject commit) ∧
    obj_get "collection" commit = Some (JString (rid_collection rid)) ∧ obj_get "rkey" commit = Some (JString (rid_rkey rid)) ∧
    obj_get "operation" commit = Some (JString op) ∧ ∀ r, record = Some r → obj_get "record" commit = Some r.

Definition account_says (root : list (string * JsonValue)) (did : string) (active : bool) (status : option string) : Prop :=
  obj_get "kind" root = Some (JString "account") ∧
  ∃ account, obj_get "account" root = Some (JObject account) ∧ obj_get "did" account = Some (JString did) ∧
    obj_get "active" account = Some (JBoolean active) ∧ obj_get "status" account = JString <$> status.

(** The messages of jetstream, with whatever other fields they have. *)
Definition says (v : JsonValue) (m : Message) : Prop :=
  ∃ root n, v = JObject root ∧ obj_get "time_us" root = Some (JNumber n) ∧
    match m with
    | Created rid record => commit_says root "create" rid (Some record)
    | Updated rid record => commit_says root "update" rid (Some record)
    | Removed rid => commit_says root "delete" rid None
    | Activated did => account_says root did true None
    | Deactivated did => account_says root did false (Some "deactivated")
    | Deleted did => account_says root did false (Some "deleted")
    | Unrelated => obj_get "kind" root ≠ Some (JString "commit") ∧ obj_get "kind" root ≠ Some (JString "account")
    end.

(** ** The network *)

Record Net : Type := mkNet {
  recs : gmap RecordId JsonValue;
  inactive : gset string;
  (** Accounts that have had a link since they were last deleted. *)
  linked : gset string
}.
Definition no_records : Net := mkNet ∅ ∅ ∅.

(** A message with what it says, or a restart of the service. *)
Abbreviation Arrival := (option (JsonValue * Message)).

Section Spec.
Context `{FluentUri}.

Definition links_in (n : Net) (rid : RecordId) : list (string * string) :=
  match recs n !! rid with Some record => map link_pt (Links.collect_links record) | None => [] end.

Definition has_links (record : JsonValue) : Prop := Links.collect_links record ≠ [].
#[global] Instance has_links_dec record : Decision (has_links record).
Proof. apply not_dec. destruct (Links.collect_links record); [by left|by right]. Defined.

Definition net_step (n : Net) (m : Message) : Net :=
  match m with
  | Created rid record | Updated rid record =>
      mkNet (<[rid := record]> (recs n)) (inactive n) (if decide (has_links record) then {[rid_did rid]} ∪ linked n else linked n)
  | Removed rid => mkNet (delete rid (recs n)) (inactive n) (linked n)
  | Activated did => mkNet (recs n) (inactive n ∖ {[did]}) (linked n)
  | Deactivated did => mkNet (recs n) ({[did]} ∪ inactive n) (linked n)
  | Deleted did => mkNet (filter (λ kv, rid_did kv.1 ≠ did) (recs n)) (inactive n) (linked n ∖ {[did]})
  | Unrelated => n
  end.

(** The (collection, path, target) of the links of an account. *)
Definition net_links (n : Net) (did : string) : list (string * (string * string)) :=
  flat_map (λ kv, if decide (rid_did kv.1 = did) then map (pair (rid_collection kv.1)) (map link_pt (Links.collect_links kv.2)) else [])
    (map_to_list (recs n)).

(** Streams the index is meant for: a record is created once, accounts that
    are switched off commit nothing, no record links one target twice at one
    path, an update that takes the links out is of an account with links, and
    a deleted account does not link a target from one path twice. *)
Definition orderly (n : Net) (m : Message) : Prop :=
  match m with
  | Created rid record =>
      recs n !! rid = None ∧ NoDup (map link_pt (Links.collect_links record)) ∧ (rid_did rid ∉ inactive n)
  | Updated rid record =>
      NoDup (map link_pt (Links.collect_links record)) ∧ (rid_did rid ∉ inactive n) ∧
      (has_links record ∨ rid_did rid ∈ linked n)
  | Deleted did => NoDup (net_links n did)
  | Removed _ | Activated _ | Deactivated _ | Unrelated => True
  end.
#[global] Instance orderly_dec n m : Decision (orderly n m).
Proof. destruct m; simpl; apply _. Defined.

Definition net_arrival (n : Net) (a : Arrival) : Net := match a with Some (_, m) => net_step n m | None => n end.
Definition net_of (arrivals : list Arrival) : Net := fold_left net_arrival arrivals no_records.

Fixpoint orderly_run (n : Net) (arrivals : list Arrival) : Prop :=
  match arrivals with
  | [] => True
  | a :: arrivals =>
      match a with Some (v, m) => says v m ∧ orderly n m | None => True end ∧ orderly_run (net_arrival n a) arrivals
  end.

(** A record of the network that holds a link. *)
Definition links_to (n : Net) (rid : RecordId) (target collection path : string) : Prop :=
  rid_collection rid = collection ∧
  ∃ record s l, recs n !! rid = Some record ∧ Links.leaf_at "" record path s ∧
    Links.parse_any_link s = Some l ∧ Links.as_str l = target.

Lemma links_in_links_to n rid target path :
  (path, target) ∈ links_in n rid ↔ links_to n rid target (rid_collection rid) path.
Proof.
  unfold links_in, links_to. destruct (recs n !! rid) as [record|].
  2:{ split; [by intros ?%not_elem_of_nil|by intros (_ & ? & ? & ? & ? & _)]. }
  rewrite list_elem_of_fmap. split.
  - intros ([q l] & [= -> ->] & Hl). split; [done|]. apply Links.walk_record_leaf in Hl as (s & Hs & Hp). by exists record, s, l.
  - intros (_ & ? & s & l & [= <-] & Hs & Hp & <-). exists (Links.mkCollectedLink path l). split; [done|].
    apply Links.walk_record_leaf. by exists s.
Qed.

(** ** What the consumer makes of a message *)

Definition action_of (m : Message) : option ActionableEvent :=
  match m with
  | Created rid record => if decide (has_links record) then Some (CreateLinks rid (Links.collect_links record)) else None
  | Updated rid record => Some (UpdateLinks rid (Links.collect_links record))
  | Removed rid => Some (DeleteRecord rid)
  | Activated did => Some (ActivateAccount did)
  | Deactivated did => Some (DeactivateAccount did)
  | Deleted did => Some (DeleteAccount did)
  | Unrelated => None
  end.

Lemma commit_actionable root op rid record cursor :
  commit_says root op rid record → get_actionable_commit root cursor =
    (if decide (op = "create") then
       match record with
       | Some r => if decide (has_links r) then Some (CreateLinks rid (Links.collect_links r), cursor) else None
       | None => get_actionable_commit root cursor
       end
     else if decide (op = "update") then
       match record with Some r => Some (UpdateLinks rid (Links.collect_links r), cursor) | None => get_actionable_commit root cursor end
     else if decide (op = "delete") then Some (DeleteRecord rid, cursor) else None).
Proof.
  destruct rid as [did c rkey]. intros (_ & Hd & commit & Hc & Hco & Hr & Ho & Hrec). cbn [rid_did rid_collection rid_rkey] in *.
  unfold get_actionable_commit. rewrite Hd, Hc. cbn [mbind option_bind get_string get_object]. rewrite Hco, Hr, Ho. cbn [mbind option_bind get_string is_string].
  destruct (decide (op = "create")) as [->|]; [|destruct (decide (op = "update")) as [->|]; [|destruct (decide (op = "delete")) as [->|]]].
  - rewrite bool_decide_true by done. destruct record as [r|]; [|done]. rewrite (Hrec r eq_refl). cbn [fmap option_fmap option_map mbind option_bind].
    destruct (decide (has_links r)) as [Hh|Hh]; unfold has_links in Hh; destruct (Links.collect_links r); [done|done|done|by destruct Hh].
  - rewrite bool_decide_false, bool_decide_true by done. destruct record as [r|]; [|done]. by rewrite (Hrec r eq_refl).
  - by rewrite !bool_decide_false, bool_decide_true by done.
  - by rewrite !bool_decide_false by done.
Qed.

Lemma account_actionable root did active status cursor :
  account_says root did active status → get_actionable_account root cursor =
    match active, status with
    | true, None => Some (ActivateAccount did, cursor)
    | false, Some s => if decide (s = "deactivated") then Some (DeactivateAccount did, cursor)
                       else if decide (s = "deleted") then Some (DeleteAccount did, cursor) else None
    | _, _ => None
    end.
Proof.
  intros (_ & account & Ha & Hd & Hac & Hs). unfold get_actionable_account. rewrite Ha. cbn [mbind option_bind get_object]. rewrite Hd, Hac, Hs.
  by destruct active, status.
Qed.

Lemma says_actionable v m : says v m → ∃ ts, get_actionable v = (λ a, (a, ts)) <$> action_of m.
Proof.
  intros (root & n & -> & Ht & Hm). exists (f64_as_u64 n). unfold get_actionable. cbn [get_object mbind option_bind]. rewrite Ht. cbn [mbind option_bind get_number].
  destruct m as [rid r|rid r|rid|did|did|did|]; cbn [action_of fmap option_fmap option_map].
  1-3: pose proof (commit_actionable _ _ _ _ (f64_as_u64 n) Hm) as ->; destruct Hm as (-> & _); cbn [is_string]; rewrite bool_decide_true by done.
  4-6: pose proof (account_actionable _ _ _ _ (f64_as_u64 n) Hm) as ->; destruct Hm as (-> & _); cbn [is_string]; rewrite bool_decide_false, bool_decide_true by done.
  - rewrite decide_True by done. by destruct (decide (has_links r)).
  - by rewrite decide_False, decide_True by done.
  - by rewrite !decide_False, decide_True by done.
  - done.
  - by rewrite decide_True by done.
  - by rewrite decide_False, decide_True by done.
  - destruct Hm as [Hc Ha]. destruct (obj_get "kind" root) as [[]|]; try done. cbn [is_string].
    rewrite !bool_decide_false by congruence. done.
Qed.
End Spec.

(** ** The memory store follows the network *)

Section Follow.
Context `{FluentUri}.

Record follows (n : Net) (m : Mem.MemStorageData) : Prop := {
  fo_links did c rkey : get2 (Mem.links m) did (c, rkey) = links_in n (mkRecordId did c rkey);
  fo_active did b : Mem.dids m !! did = Some b → b = bool_decide (did ∉ inactive n);
  fo_linked did : did ∈ linked n ↔ is_Some (Mem.dids m !! did);
  fo_nodup rid : NoDup (links_in n rid)
}.

Lemma follows_new : follows no_records Mem.new.
Proof.
  split; [done|done| |].
  - intros did. simpl. rewrite lookup_empty. split; [set_solver|by intros []].
  - intros rid. constructor.
Qed.

Lemma links_in_insert n rid record n' rid' :
  recs n' = <[rid := record]> (recs n) →
  links_in n' rid' = if decide (rid' = rid) then map link_pt (Links.collect_links record) else links_in n rid'.
Proof.
  intros E. unfold links_in. rewrite E. destruct (decide (rid' = rid)) as [->|Hne]; [by rewrite lookup_insert_eq|by rewrite lookup_insert_ne].
Qed.

(** Adding the links of a record whose links are gone. *)
Lemma add_follows n n' m rid record :
  recs n' = <[rid := record]> (recs n) → inactive n' = inactive n →
  linked n' = (if decide (has_links record) then {[rid_did rid]} ∪ linked n else linked n) →
  NoDup (map link_pt (Links.collect_links record)) → (rid_did rid ∉ inactive n) →
  (∀ did c rkey, get2 (Mem.links m) did (c, rkey) =
     if decide (mkRecordId did c rkey = rid) then [] else links_in n (mkRecordId did c rkey)) →
  (∀ did b, Mem.dids m !! did = Some b → b = bool_decide (did ∉ inactive n)) →
  (∀ did, did ∈ linked n ↔ is_Some (Mem.dids m !! did)) → (∀ rid, NoDup (links_in n rid)) →
  follows n' (Mem.add_links m rid (Links.collect_links record)).
Proof.
  intros Hr Hi Hl Hnd Hact Hg Ha Hk Hn. destruct (mem_add_links_views rid (Links.collect_links record) m) as (_ & V2 & V3). split.
  - intros did c rkey. rewrite V2, Hg, (links_in_insert n rid record n' _ Hr). destruct rid as [d0 c0 k0]. cbn [rid_did rid_collection rid_rkey].
    clear - Hnd. repeat case_decide; destruct_and?; simplify_eq; naive_solver.
  - intros did b. rewrite V3, Hi. destruct (decide (Links.collect_links record ≠ [] ∧ did = rid_did rid)) as [[_ ->]|]; [|apply Ha]. intros [= <-]. rewrite bool_decide_true by done.
    destruct (Mem.dids m !! rid_did rid) as [b|] eqn:Eb; [|done]. simpl. by rewrite (Ha _ _ Eb), bool_decide_true.
  - intros did. rewrite V3, Hl. clear Hl. destruct (decide (Links.collect_links record ≠ [] ∧ did = rid_did rid)) as [[Hne ->]|Hno], (decide (has_links record)) as [Hh|Hh]; unfold has_links in Hh.
    + split; [by eexists|set_solver].
    + done.
    + rewrite <- Hk. set_solver.
    + apply Hk.
  - intros rid'. rewrite (links_in_insert n rid record n' _ Hr). by destruct (decide (rid' = rid)).
Qed.

Lemma get2_records m did c rkey : get2 (Mem.links m) did (c, rkey) = default [] (records_of m did !! (c, rkey)).
Proof. unfold get2, records_of. destruct (Mem.links m !! did); simpl; [done|by rewrite lookup_empty]. Qed.

Lemma elem_net_links n did x :
  x ∈ net_links n did ↔ ∃ rid, rid_did rid = did ∧ rid_collection rid = x.1 ∧ x.2 ∈ links_in n rid.
Proof.
  unfold net_links. rewrite elem_of_flat_map. split.
  - intros ([rid record] & Hin & Hx). apply elem_of_map_to_list in Hin. simpl in Hx. case_decide as E; [|by apply not_elem_of_nil in Hx].
    apply list_elem_of_fmap in Hx as (pt & -> & Hpt). exists rid. unfold links_in. by rewrite Hin.
  - intros (rid & <- & Hc & Hx). unfold links_in in Hx. destruct (recs n !! rid) as [record|] eqn:E; [|by apply not_elem_of_nil in Hx].
    exists (rid, record). split; [by apply elem_of_map_to_list|]. simpl. rewrite decide_True by done. apply list_elem_of_fmap. exists x.2. destruct x. simpl in *. by rewrite Hc.
Qed.

(** In an orderly network a link of an account is that of one record. *)
Lemma net_links_record n rid rid' pt :
  NoDup (net_links n (rid_did rid)) → rid_did rid' = rid_did rid → rid_collection rid' = rid_collection rid →
  pt ∈ links_in n rid → pt ∈ links_in n rid' → rid' = rid.
Proof.
  intros Hnd Ed Ec H1 H2. unfold links_in in H1, H2.
  destruct (recs n !! rid) as [r1|] eqn:E1; [|by apply not_elem_of_nil in H1]. destruct (recs n !! rid') as [r2|] eqn:E2; [|by apply not_elem_of_nil in H2].
  enough ((rid', r2) = (rid, r1)) by congruence. eapply (NoDup_flat_map_disjoint _ _ _ _ (rid_collection rid, pt) Hnd).
  1, 2: by apply elem_of_map_to_list.
  all: simpl; rewrite decide_True by done; apply list_elem_of_fmap; exists pt; by rewrite ?Ec.
Qed.

Lemma follows_account_links n m did : follows n m → NoDup (net_links n did) → NoDup (account_links m did).
Proof.
  intros F Hnd. unfold account_links. apply (NoDup_bind (λ repo : (string * string) * list (string * string), map (pair repo.1.1) repo.2)).
  - intros [[c rk] l] [[c' rk'] l'] [x pt] Hin1 Hin2 H1 H2. apply elem_of_map_to_list in Hin1, Hin2. simpl in *.
    apply list_elem_of_fmap in H1 as (? & [= <- <-] & H1), H2 as (? & [= <- <-] & H2).
    assert (Hl : ∀ rk0 l0, records_of m did !! (x, rk0) = Some l0 → links_in n (mkRecordId did x rk0) = l0)
      by (intros rk0 l0 E; by rewrite <- (fo_links n m F), get2_records, E).
    rewrite <- (Hl _ _ Hin1) in H1. rewrite <- (Hl _ _ Hin2) in H2.
    pose proof (net_links_record n (mkRecordId did x rk') (mkRecordId did x rk) pt Hnd eq_refl eq_refl H2 H1) as [= ->]. congruence.
  - intros [[c rk] l] Hin. apply elem_of_map_to_list in Hin. simpl. apply NoDup_fmap_2; [by intros ? ? [= ->]|].
    pose proof (fo_nodup n m F (mkRecordId did c rk)) as Hn. rewrite <- (fo_links n m F), get2_records, Hin in Hn. exact Hn.
  - apply NoDup_map_to_list.
Qed.

Lemma links_in_delete n rid n' rid' :
  recs n' = delete rid (recs n) → links_in n' rid' = if decide (rid' = rid) then [] else links_in n rid'.
Proof.
  intros E. unfold links_in. rewrite E. destruct (decide (rid' = rid)) as [->|Hne]; [by rewrite lookup_delete_eq|by rewrite lookup_delete_ne].
Qed.

Lemma links_in_filter n did n' rid :
  recs n' = filter (λ kv, rid_did kv.1 ≠ did) (recs n) → links_in n' rid = if decide (rid_did rid = did) then [] else links_in n rid.
Proof.
  intros E. unfold links_in. rewrite E, map_lookup_filter. case_decide as Hd.
  - destruct (recs n !! rid); simpl; [|done]. by rewrite option_guard_False by (simpl; tauto).
  - destruct (recs n !! rid); simpl; [|done]. by rewrite option_guard_True.
Qed.

Lemma cleared_links n m rid did c rkey :
  follows n m →
  (if decide (did = rid_did rid ∧ (c, rkey) = (rid_collection rid, rid_rkey rid)) then [] else get2 (Mem.links m) did (c, rkey)) =
  if decide (mkRecordId did c rkey = rid) then [] else links_in n (mkRecordId did c rkey).
Proof.
  intros F. rewrite (fo_links n m F). destruct rid as [d0 c0 k0]. cbn [rid_did rid_collection rid_rkey]. clear F.
  repeat case_decide; destruct_and?; simplify_eq; naive_solver.
Qed.

Lemma absent_links n rid : recs n !! rid = None → links_in n rid = [].
Proof. unfold links_in. by intros ->. Qed.

Lemma created_follows n m rid record ts :
  follows n m → Mem.mem_inv m → orderly n (Created rid record) →
  match action_of (Created rid record) with
  | Some a => admissible m a ∧ ∃ m', push m a ts = Ok m' ∧ follows (net_step n (Created rid record)) m' ∧ Mem.mem_inv m'
  | None => follows (net_step n (Created rid record)) m
  end.
Proof.
  intros F Hinv (Hnew & Hnd & Hact). pose proof (absent_links _ _ Hnew) as Hnil. cbn [action_of net_step].
  destruct (decide (has_links record)) as [Hh|Hh].
  - split; [split_and!; [done|done|]; rewrite (fo_links n m F); by destruct rid|]. eexists. split_and!; [reflexivity| |by apply Mem.add_links_inv].
    eapply (add_follows n); [done|done| |done|done| |apply F|apply F|apply F]; [by rewrite decide_True|].
    intros did c rkey. rewrite (fo_links n m F). destruct (decide (mkRecordId did c rkey = rid)) as [->|]; done.
  - split; [|apply F|apply F|].
    + intros did c rkey. rewrite (fo_links n m F). symmetry. etransitivity; [by apply (links_in_insert n rid record)|].
      destruct (decide (mkRecordId did c rkey = rid)) as [->|]; [|done]. rewrite Hnil. unfold has_links in Hh. by destruct (Links.collect_links record); [|destruct Hh].
    + intros rid'. rewrite (links_in_insert n rid record) by done. destruct (decide (rid' = rid)); [done|apply F].
Qed.

Lemma updated_follows n m rid record ts :
  follows n m → Mem.mem_inv m → orderly n (Updated rid record) →
  admissible m (UpdateLinks rid (Links.collect_links record)) ∧
  ∃ m', push m (UpdateLinks rid (Links.collect_links record)) ts = Ok m' ∧ follows (net_step n (Updated rid record)) m' ∧ Mem.mem_inv m'.
Proof.
  intros F Hinv (Hnd & Hact & Hne). split; [split; [done|]; destruct Hne as [|Hne]; [by left|right; by apply (fo_linked n m F)]|].
  destruct (mem_remove_views m rid Hinv) as (m1 & E1 & Hinv1 & V1 & _ & V3). simpl. unfold Mem.update_links. rewrite E1. cbn [result_bind].
  eexists. split_and!; [reflexivity| |by apply Mem.add_links_inv].
  eapply (add_follows n); [done|done|done|done|done| | | |apply F].
  - intros did c rkey. rewrite V3. by apply cleared_links.
  - intros did b. rewrite V1. apply F.
  - intros did. rewrite V1. apply F.
Qed.

Lemma removed_follows n m rid :
  follows n m → Mem.mem_inv m → ∃ m', Mem.remove_links m rid = Ok m' ∧ follows (net_step n (Removed rid)) m' ∧ Mem.mem_inv m'.
Proof.
  intros F Hinv. destruct (mem_remove_views m rid Hinv) as (m1 & E1 & Hinv1 & V1 & _ & V3). exists m1. split_and!; [done| |done]. split.
  - intros did c rkey. rewrite V3, (cleared_links n m) by done. by rewrite (links_in_delete n rid (net_step n (Removed rid))).
  - intros did b. rewrite V1. apply F.
  - intros did. rewrite V1. apply F.
  - intros rid'. rewrite (links_in_delete n rid) by done. destruct (decide (rid' = rid)); [constructor|apply F].
Qed.

(** [switched]: the accounts that are off afterwards. *)
Lemma account_follows n m did active (switched : gset string) :
  follows n m → active = bool_decide (did ∉ switched) → (∀ d, d ≠ did → d ∈ switched ↔ d ∈ inactive n) →
  follows (mkNet (recs n) switched (linked n)) (Mem.set_account m did active).
Proof.
  intros F Ha Hs. assert (Hold : ∀ d b, d ≠ did → Mem.dids m !! d = Some b → b = bool_decide (d ∉ switched)).
  { intros d b Hne Hd. rewrite (fo_active n m F _ _ Hd). apply bool_decide_ext. by rewrite (Hs d Hne). }
  unfold Mem.set_account. destruct (Mem.dids m !! did) as [b0|] eqn:E; (split; [apply F| | |apply F]); cbn [inactive linked Mem.dids].
  - intros d b [[<- <-]|[Hne Hd]]%lookup_insert_Some; [done|by apply Hold].
  - intros d. rewrite (fo_linked n m F). destruct (decide (did = d)) as [->|]; [rewrite lookup_insert_eq, E; split; by eexists|by rewrite lookup_insert_ne].
  - intros d b Hd. apply Hold; [congruence|done].
  - apply F.
Qed.

Lemma deleted_follows n m did :
  follows n m → Mem.mem_inv m → ∃ m', Mem.delete_account m did = Ok m' ∧ follows (net_step n (Deleted did)) m' ∧ Mem.mem_inv m'.
Proof.
  intros F Hinv. destruct (Mem.delete_account_inv m did Hinv) as (m' & E & Hinv').
  destruct (Mem.delete_account_ok m did Hinv) as (ts' & E' & _). rewrite E' in E. injection E as <-. eexists. split_and!; [exact E'| |done].
  split; cbn [Mem.links Mem.dids net_step inactive linked].
  - intros did' c rkey. rewrite Mem.get2_delete, (links_in_filter n did (net_step n (Deleted did))) by done. cbn [rid_did]. destruct (decide (did' = did)); [done|apply F].
  - intros did' b [_ Hd]%lookup_delete_Some. by apply F.
  - intros did'. rewrite elem_of_difference, elem_of_singleton, (fo_linked n m F).
    destruct (decide (did = did')) as [->|]; [rewrite lookup_delete_eq; split; [naive_solver|by intros []]|]. rewrite lookup_delete_ne by done. naive_solver.
  - intros rid. rewrite (links_in_filter n did) by done. destruct (decide (rid_did rid = did)); [constructor|apply F].
Qed.

(** Every orderly message is one that both stores are prepared for, and the
    memory store follows. *)
Lemma message_follows n m msg ts :
  follows n m → Mem.mem_inv m → orderly n msg →
  match action_of msg with
  | Some a => admissible m a ∧ ∃ m', push m a ts = Ok m' ∧ follows (net_step n msg) m' ∧ Mem.mem_inv m'
  | None => follows (net_step n msg) m
  end.
Proof.
  intros F Hinv Ho. destruct msg as [rid record|rid record|rid|did|did|did|]; [by apply created_follows|by apply updated_follows| | | | |done].
  all: cbn [action_of]; (split; [try done|]).
  - by apply removed_follows.
  - eexists. split_and!; [reflexivity| |by apply Mem.set_account_inv]. apply account_follows; [done| |set_solver]. by rewrite bool_decide_true by set_solver.
  - eexists. split_and!; [reflexivity| |by apply Mem.set_account_inv]. apply account_follows; [done| |set_solver]. by rewrite bool_decide_false by set_solver.
  - by eapply follows_account_links.
  - by apply deleted_follows.
Qed.

(** ** Runs *)

Definition arrival_steps (a : Arrival) : list Step :=
  match a with
  | Some (v, _) => match get_actionable v with Some (event, ts) => [Event event ts] | None => [] end
  | None => [Reopen]
  end.

Lemma run_follows arrivals : ∀ n m, follows n m → Mem.mem_inv m → orderly_run n arrivals →
  admissible_run m (flat_map arrival_steps arrivals) ∧
  ∃ m', foldl_res mem_step m (flat_map arrival_steps arrivals) = Ok m' ∧ follows (fold_left net_arrival arrivals n) m' ∧ Mem.mem_inv m'.
Proof.
  induction arrivals as [|a arrivals IH]; intros n m F Hinv Ho; [split; [done|by exists m]|]. destruct Ho as [Ha Ho]. cbn [flat_map fold_left].
  destruct a as [[v msg]|]; cbn [arrival_steps net_arrival] in *.
  2:{ destruct (IH n m F Hinv Ho) as (Hadm & m' & E & Hm). cbn [app admissible_run foldl_res mem_step result_bind]. split; [split; [done|]; by intros ? [= <-]|by exists m']. }
  destruct Ha as [Hs Hor]. destruct (says_actionable v msg Hs) as [ts ->]. pose proof (message_follows n m msg ts F Hinv Hor) as Hm.
  destruct (action_of msg) as [event|]; cbn [fmap option_fmap option_map app].
  - destruct Hm as (Hadm & m1 & E1 & F1 & Hinv1). destruct (IH _ _ F1 Hinv1 Ho) as (Hadm' & m' & E & Hm'). cbn [admissible_run foldl_res mem_step admissible_step].
    rewrite E1. cbn [result_bind]. split; [split; [done|]; by intros ? [= <-]|by exists m'].
  - by apply IH.
Qed.

(** No list of the reverse index is longer than the links it was given. *)
Lemma add_links_length rid ls t src : ∀ m,
  length (get2 (Mem.targets (Mem.add_links m rid ls)) t src) ≤ length (get2 (Mem.targets m) t src) + length ls.
Proof.
  unfold Mem.add_links. induction ls as [|l ls IH]; intros m; cbn [fold_left length]; [lia|]. etransitivity; [apply IH|].
  cbn [Mem.add_link Mem.targets]. rewrite get2_update2. destruct (decide _) as [[-> ->]|]; [|lia]. rewrite length_app. simpl. lia.
Qed.

Lemma mapped_length (f : string → option (string * string) → option (string * string)) ts ts' (t : string) (src : string * string) :
  (∀ t c p, ts' !! t ≫= lookup (c, p) = map (f c) <$> (ts !! t ≫= lookup (c, p))) →
  length (get2 ts' t src) = length (get2 (V := option (string * string)) ts t src).
Proof. intros Hts. destruct src as [c p]. unfold get2. rewrite Hts. destruct (ts !! t ≫= lookup (c, p)); simpl; [|done]. apply length_map. Qed.

Lemma step_length m m' st t src :
  Mem.mem_inv m → mem_step m st = Ok m' →
  (N.of_nat (length (get2 (Mem.targets m') t src)) ≤ N.of_nat (length (get2 (Mem.targets m) t src)) + total_links [st])%N.
Proof.
  intros Hinv. unfold total_links. cbn [fold_right]. rewrite N.add_0_r.
  assert (Hrm : ∀ rid m1, Mem.remove_links m rid = Ok m1 → length (get2 (Mem.targets m1) t src) = length (get2 (Mem.targets m) t src)).
  { intros rid m1 E. destruct (Mem.remove_links_ok m rid Hinv) as (ts & E' & Hts). rewrite E' in E. injection E as <-. by eapply mapped_length. }
  destruct st as [[rid ls|rid ls|rid|did|did|did] cur|]; cbn [mem_step event_links]; simpl push; intros E.
  - injection E as <-. pose proof (add_links_length rid ls t src m). lia.
  - unfold Mem.update_links in E. destruct (Mem.remove_links m rid) as [m1|] eqn:E1; [|done]. injection E as <-.
    pose proof (add_links_length rid ls t src m1). rewrite (Hrm _ _ E1) in *. lia.
  - rewrite (Hrm _ _ E). lia.
  - injection E as <-. unfold Mem.set_account. destruct (Mem.dids m !! did); simpl; lia.
  - injection E as <-. unfold Mem.set_account. destruct (Mem.dids m !! did); simpl; lia.
  - destruct (Mem.delete_account_ok m did Hinv) as (ts & E' & Hts). rewrite E' in E. injection E as <-. cbn [Mem.targets].
    rewrite (mapped_length (λ _, Mem.clear_did did) _ _ t src Hts). lia.
  - injection E as <-. lia.
Qed.

Lemma run_length steps t src : ∀ m m', Mem.mem_inv m → foldl_res mem_step m steps = Ok m' →
  (N.of_nat (length (get2 (Mem.targets m') t src)) ≤ N.of_nat (length (get2 (Mem.targets m) t src)) + total_links steps)%N.
Proof.
  induction steps as [|st steps IH]; intros m m' Hinv E; cbn [foldl_res] in E; [injection E as <-; lia|].
  destruct (mem_step m st) as [m1|] eqn:E1; [|done]. cbn [result_bind] in E.
  assert (Hinv1 : Mem.mem_inv m1).
  { destruct st as [event cur|]; [|by injection E1 as <-]. destruct (Mem.mem_push_inv m event cur Hinv) as (m2 & E2 & Hm2). simpl in E1. rewrite E1 in E2. by injection E2 as <-. }
  pose proof (IH m1 m' Hinv1 E) as Hrest. pose proof (step_length m m1 st t src Hinv E1) as Hone. unfold total_links in *. cbn [fold_right] in *. lia.
Qed.

(** ** What can be seen *)

Lemma follows_linkers n m target collection path did rkey :
  follows n m → Mem.mem_inv m →
  occ (did, rkey) (Mem.flatten (get2 (Mem.targets m) target (collection, path))) = occ (path, target) (links_in n (mkRecordId did collection rkey)).
Proof. intros F [Hocc _]. by rewrite Mem.flatten_occ, Hocc, (fo_links n m F). Qed.

Lemma follows_visible n m target collection path :
  follows n m → Mem.mem_inv m →
  NoDup (Mem.visible_links m target collection path) ∧
  ∀ rid, rid ∈ Mem.visible_links m target collection path ↔ links_to n rid target collection path ∧ (rid_did rid ∉ inactive n).
Proof.
  intros F Hinv. unfold Mem.visible_links. set (L := get2 (Mem.targets m) target (collection, path)).
  assert (Hp : Mem.flatten (rev L) ≡ₚ Mem.flatten L) by (unfold Mem.flatten; apply omap_Permutation; symmetry; apply Permutation_rev).
  assert (Hnd : NoDup (Mem.flatten L)).
  { apply occ_le_NoDup. intros [did rkey]. unfold L. rewrite (follows_linkers n) by done. apply occ_NoDup_le, F. }
  split.
  - apply NoDup_fmap_2; [by intros [] [] [= -> ->]|]. apply NoDup_filter. by rewrite Hp.
  - intros rid. rewrite list_elem_of_fmap. split.
    + intros ([did rkey] & -> & Hx). apply list_elem_of_filter in Hx as [Ha Hx]. cbn [fst snd rid_did] in *. rewrite Hp in Hx.
      apply occ_pos in Hx. unfold L in Hx. rewrite (follows_linkers n) in Hx by done. apply occ_pos, links_in_links_to in Hx. split; [done|].
      apply (bool_decide_eq_true (did ∉ inactive n)). symmetry. by apply (fo_active n m F).
    + intros [Hl Hact]. assert (Hc : collection = rid_collection rid) by (by destruct Hl). subst collection. apply links_in_links_to in Hl.
      exists (rid_did rid, rid_rkey rid). split; [by destruct rid|]. apply list_elem_of_filter.
      assert (Hin : (rid_did rid, rid_rkey rid) ∈ Mem.flatten L) by (apply occ_pos; unfold L; rewrite (follows_linkers n) by done; apply occ_pos; by destruct rid).
      rewrite Hp. split; [|done]. cbn [fst]. destruct Hinv as [_ Hd]. destruct (Hd (rid_did rid) (rid_rkey rid) target (rid_collection rid, path)) as [b Hb]; [by apply Mem.elem_of_flatten|].
      rewrite Hb. f_equal. rewrite (fo_active n m F _ _ Hb). by apply bool_decide_true.
Qed.

(** All records with the link, of accounts switched off too: what is counted. *)
Lemma follows_linked n m target collection path :
  follows n m → Mem.mem_inv m →
  ∃ rids, NoDup rids ∧ (∀ rid, rid ∈ rids ↔ links_to n rid target collection path) ∧
    get_count m target collection path = Ok (N.of_nat (length rids)).
Proof.
  intros F Hinv. set (L := get2 (Mem.targets m) target (collection, path)).
  exists (map (λ x, mkRecordId x.1 collection x.2) (Mem.flatten L)). split_and!.
  - apply NoDup_fmap_2; [by intros [] [] [= -> ->]|]. apply occ_le_NoDup. intros [did rkey]. unfold L. rewrite (follows_linkers n) by done. apply occ_NoDup_le, F.
  - intros rid. rewrite list_elem_of_fmap. split.
    + intros ([did rkey] & -> & Hx%occ_pos). unfold L in Hx. rewrite (follows_linkers n) in Hx by done. by apply occ_pos, links_in_links_to in Hx.
    + intros Hl. assert (Hc : collection = rid_collection rid) by (by destruct Hl). subst collection. apply links_in_links_to in Hl.
      exists (rid_did rid, rid_rkey rid). split; [by destruct rid|]. apply occ_pos. unfold L. rewrite (follows_linkers n) by done. apply occ_pos. by destruct rid.
  - rewrite length_map. simpl. unfold Mem.mem_get_count, L. rewrite <- Mem.linkers_at_get2. by destruct (Mem.linkers_at m target collection path).
Qed.
End Follow.

(** ** The service *)

Section Service.
Context `{FluentUri} `{BL : BincodeLaws} `{RL : @RocksDbLaws RD merge_op} `{Web} `{ApiCursorLaws}.

Definition serve_arrival (r : RocksStorage) (a : Arrival) : StoreResult RocksStorage :=
  match a with
  | Some (v, _) => consume_one r v
  | None => open_readmode (db r) false
  end.

Lemma serve_steps arrivals : ∀ r, foldl_res serve_arrival r arrivals = foldl_res rocks_step r (flat_map arrival_steps arrivals).
Proof.
  induction arrivals as [|a arrivals IH]; intros r; [done|]. cbn [flat_map foldl_res]. rewrite foldl_res_app.
  assert (E : serve_arrival r a = foldl_res rocks_step r (arrival_steps a)).
  { destruct a as [[v msg]|]; cbn [serve_arrival arrival_steps]; [|cbn; by destruct (open_readmode (db r) false)].
    unfold consume_one. destruct (get_actionable v) as [[event ts]|]; [|done]. cbn [foldl_res rocks_step]. by destruct (push r event ts). }
  rewrite E. destruct (foldl_res rocks_step r (arrival_steps a)); [apply IH|done].
Qed.

(** C1. End to end: on an empty database, the service takes in any orderly stream,
    with restarts in between; a client that follows the cursors of the links
    endpoint, with any page size from 1 to 100, then receives, once each, the
    records that hold the link at the path now, of accounts that are not
    switched off, and no others; and the count endpoint counts the records
    that hold it, those of switched-off accounts too. *)
Theorem serves_the_network (d : DB) (arrivals : list Arrival) :
  (∀ cf k, db_get_cf d cf k = None) → orderly_run no_records arrivals →
  (1 + N.of_nat (length (flat_map arrival_steps arrivals)) < id_bound)%N →
  (1 + total_links (flat_map arrival_steps arrivals) < u64_bound)%N →
  ∃ r0 r, open_readmode d false = Ok r0 ∧ foldl_res serve_arrival r0 arrivals = Ok r ∧
    ∀ target collection path limit, (0 < limit ≤ DEFAULT_CURSOR_LIMIT_MAX)%N →
      (∃ requests out,
         follow (λ q, get_links_handler None q r) (mkItemsQuery target collection path None (Some limit)) requests None = Ok out ∧
         NoDup out ∧
         ∀ rid, rid ∈ out ↔ links_to (net_of arrivals) rid target collection path ∧ (rid_did rid ∉ inactive (net_of arrivals))) ∧
      ∃ rids, NoDup rids ∧ (∀ rid, rid ∈ rids ↔ links_to (net_of arrivals) rid target collection path) ∧
        count_links None (mkCountQuery target collection path) r =
          Ok (Json (mkCountResponse (N.of_nat (length rids)) (mkCountQuery target collection path))).
Proof.
  intros Hd Ho Hb1 Hb2. destruct (open_empty_sim d Hd) as (r0 & E0 & Hs0).
  destruct (run_follows arrivals no_records Mem.new follows_new Mem.mem_inv_new Ho) as (Hadm & m & Em & F & Hinv).
  destruct (run_sim _ _ _ _ _ Hs0 Hadm Hb1 Hb2) as (m' & r & dn & tn & Em' & Er & Hs). rewrite Em in Em'. injection Em' as <-.
  pose proof (Contract.sim_same_answers m r dn tn Hs) as Hsame. exists r0, r. split_and!; [done|by rewrite serve_steps|].
  intros target collection path limit Hlim. split.
  - set (q := mkItemsQuery target collection path None (Some limit)). exists (S (list_length m q)), (Mem.visible_links m target collection path).
    split; [|by apply follows_visible].
    pose proof (run_length _ target (collection, path) Mem.new m Mem.mem_inv_new Em) as Hlen.
    change (length (get2 (Mem.targets Mem.new) target (collection, path))) with 0 in Hlen.
    apply (follow_visible r m q limit Hsame Hinv eq_refl Hlim). unfold list_length. cbn [q iq_target iq_collection iq_path]. lia.
  - destruct (follows_linked _ m target collection path F Hinv) as (rids & Hnd & Hin & Hcount). exists rids. split_and!; [done|done|].
    unfold count_links. cbn [cq_target cq_collection cq_path]. destruct (Hsame target collection path 0%N None) as (-> & _). by rewrite Hcount.
Qed.
End Service.

(** ** A concrete stream *)

#[local] Existing Instance Consumer.no_uri.
#[local] Existing Instance Server.plain_web.
#[local] Existing Instance Server.plain_cursor.
#[local] Existing Instance Reference.ref_bincode.
#[local] Existing Instance Contract.ref_db.

Definition like_record : JsonValue := JObject [("subject", JObject [("uri", JString "did:plc:y")])].
Definition like_id : RecordId := mkRecordId "did:plc:x" "like" "3l".
Definition sample_arrivals : list Arrival := [Some (Consumer.sample_like, Created like_id like_record); None].

Lemma sample_orderly : orderly_run no_records sample_arrivals.
Proof.
  split; [split|split; [exact I|exact I]].
  - eexists _, _. split_and!; [reflexivity|reflexivity|]. split_and!; [reflexivity|reflexivity|]. eexists.
    split_and!; [reflexivity|reflexivity|reflexivity|reflexivity|]. intros r [= <-]. reflexivity.
  - apply (bool_decide_unpack (orderly no_records (Created like_id like_record))). vm_compute. exact I.
Qed.

Lemma serves_the_network_witness :
  ∃ r0 r requests out, open_readmode Contract.empty_db false = Ok r0 ∧ foldl_res serve_arrival r0 sample_arrivals = Ok r ∧
    follow (λ q, get_links_handler None q r) (mkItemsQuery "did:plc:y" "like" ".subject.uri" None (Some 5%N)) requests None = Ok out ∧
    (like_id ∈ out).
Proof.
  destruct (@serves_the_network Consumer.no_uri Reference.ref_bincode Reference.ref_bincode_laws Contract.ref_db
    (Reference.ref_rocksdb_laws merge_op) Server.plain_web Server.plain_cursor Server.plain_cursor_laws Contract.empty_db sample_arrivals)
    as (r0 & r & E0 & Er & Hall).
  - intros cf k. apply lookup_empty.
  - exact sample_orderly.
  - vm_compute. reflexivity.
  - vm_compute. reflexivity.
  - destruct (Hall "did:plc:y" "like" ".subject.uri" 5%N) as [(requests & out & Hf & _ & Hin) _]; [split; [reflexivity|discriminate]|].
    exists r0, r, requests, out. split_and!; [exact E0|exact Er|exact Hf|]. apply Hin. split.
    + split; [reflexivity|]. exists like_record, "did:plc:y", (Links.DidLink "did:plc:y"). split_and!; [reflexivity| |vm_compute; reflexivity|reflexivity].
      apply (Links.leaf_object "" _ "subject" (JObject [("uri", JString "did:plc:y")])); [by left|].
      apply (Links.leaf_object ".subject" _ "uri" (JString "did:plc:y")); [by left|]. apply Links.leaf_string.
    + apply (bool_decide_unpack (rid_did like_id ∉ inactive (net_of sample_arrivals))). vm_compute. exact I.
Defined.
End Stream.
