(* ===== verification/UfosCursor.v ===== *)
(** * ufos: truncated cursors and time buckets (ufos/src/store_types.rs)

    Cursors are microseconds; counts are rolled up by hour and by week.
    [buckets_spanning] covers a span of hours by buckets: the theorems say that
    the buckets tile the span and that whole weeks are used wherever they fit. *)

From S2P Require Import Prelude RustStr Bytes.

(** ** Failures *)

(** The errors of ufos/src/db_types.rs (payloads of third-party error types are
    dropped). *)
Inductive EncodingError : Type :=
  | BadAtriumStringType
  | NotEnoughNsidSegments
  | BincodeEncodeFailed
  | BincodeDecodeFailed
  | DecodeMissingSuffix
  | DecodeNotEnoughBytes
  | StringContainedNull
  | UnterminatedString
  | NotUtf8
  | NotUtf8String
  | BadSlice
  | WrongStaticPrefix (found expected : string)
  | JsonError
  | DecodeTooManyBytes (n : nat)
  | BadRangeBound
  | InvalidTruncated (modulus remainder : N).

(** An error value, or a panic. *)
Inductive Fault : Type :=
  | Encoding (e : EncodingError)
  | Panics (msg : string).

Abbreviation EncodingResult := (result Fault).

Module Trunc.

Section Modulus.
Context (MOD : N).

(** A [TruncatedCursor<MOD>] is the number it holds. *)
Definition truncate (raw : N) : N := (raw / MOD * MOD)%N.

Definition try_from_raw_u64 (time_us : N) : EncodingResult N :=
  let rem := (time_us mod MOD)%N in
  if (rem =? 0)%N then Ok time_us else Err (Encoding (InvalidTruncated MOD rem)).

Definition try_from_cursor (cursor : N) : EncodingResult N := try_from_raw_u64 cursor.
Definition truncate_raw_u64 (raw : N) : N := truncate raw.
Definition truncate_cursor (cursor : N) : N := truncate cursor.

Definition cycles_until (self other : N) : EncodingResult N :=
  if (other <? self)%N then Err (Panics "other must be greater than or equal to self")
  else Ok ((other - self) / MOD)%N.

(** Overflow of [u64] addition panics. *)
Definition nth_next (self n : N) : EncodingResult N :=
  if (self + n * MOD <? u64_bound)%N then Ok (self + n * MOD)%N else Err (Panics "attempt to add with overflow").
Definition next (self : N) : EncodingResult N :=
  if (self + MOD <? u64_bound)%N then Ok (self + MOD)%N else Err (Panics "attempt to add with overflow").

Definition prev (self : N) : EncodingResult N :=
  if (self <? MOD)%N then Err (Panics "underflow: previous truncation start would be less than zero")
  else Ok (self - MOD)%N.
End Modulus.

(** [try_as::<MOD_B>]. *)
Definition try_as (MOD_B self : N) : EncodingResult N := try_from_raw_u64 MOD_B self.

Definition HOUR_IN_MICROS : N := 1000000 * 3600.
Definition WEEK_IN_MICROS : N := HOUR_IN_MICROS * 24 * 7.

Inductive CursorBucket : Type :=
  | Hour (hour : N)
  | Week (week : N)
  | AllTime.

(** The loop of [buckets_spanning]: [out] is built front to back. *)
Fixpoint spanning_loop (fuel : nat) (current_lower cur_until : N) : EncodingResult (list CursorBucket) :=
  if (current_lower <? cur_until)%N then
    match fuel with
    | O => Err (Panics "out of fuel")
    | S fuel =>
        cycles ←? cycles_until HOUR_IN_MICROS current_lower cur_until;
        match (if (WEEK_IN_MICROS / HOUR_IN_MICROS <=? cycles)%N then ok (try_as WEEK_IN_MICROS current_lower)
               else None) with
        | Some week =>
            n ←? next WEEK_IN_MICROS week;
            current_lower ←? try_as HOUR_IN_MICROS n;
            rest ←? spanning_loop fuel current_lower cur_until;
            Ok (Week week :: rest)
        | None =>
            n ←? next HOUR_IN_MICROS current_lower;
            rest ←? spanning_loop fuel n cur_until;
            Ok (Hour current_lower :: rest)
        end
    end
  else Ok [].

(** Every turn advances by an hour at least, which bounds the turns. *)
Definition buckets_spanning (since cur_until : N) : EncodingResult (list CursorBucket) :=
  if (cur_until <=? since)%N then Ok []
  else spanning_loop (N.to_nat ((cur_until - since) / HOUR_IN_MICROS)) since cur_until.

(** ** Properties *)

(** The half-open interval of a bucket. *)
Definition bucket_start (b : CursorBucket) : N := match b with Hour h => h | Week w => w | AllTime => 0%N end.
Definition bucket_len (b : CursorBucket) : N :=
  match b with Hour _ => HOUR_IN_MICROS | Week _ => WEEK_IN_MICROS | AllTime => 0%N end.

(** The buckets follow one another from [lo] to [hi]. *)
Fixpoint tiles (lo : N) (bs : list CursorBucket) (hi : N) : Prop :=
  match bs with
  | [] => lo = hi
  | b :: bs => bucket_start b = lo ∧ tiles (lo + bucket_len b) bs hi
  end.

(** An hour bucket is used only where the whole week does not fit in the span,
    a week bucket only at the start of a week. *)
Definition bucket_fits (since cur_until : N) (b : CursorBucket) : Prop :=
  match b with
  | Hour h => (h mod HOUR_IN_MICROS = 0)%N ∧
      ¬ (since ≤ truncate WEEK_IN_MICROS h ∧ truncate WEEK_IN_MICROS h + WEEK_IN_MICROS ≤ cur_until)%N
  | Week w => (w mod WEEK_IN_MICROS = 0)%N
  | AllTime => False
  end.

#[local] Ltac Zify.zify_post_hook ::= Z.to_euclidean_division_equations.

(** The loop from [c]: the span is tiled, and the week of [c] can only fit in
    the span when [c] starts it. *)
Lemma spanning_loop_ok since cur_until fuel : ∀ c,
  (c mod HOUR_IN_MICROS = 0)%N → (cur_until mod HOUR_IN_MICROS = 0)%N → (c ≤ cur_until < u64_bound)%N →
  N.to_nat ((cur_until - c) / HOUR_IN_MICROS) ≤ fuel →
  (since ≤ truncate WEEK_IN_MICROS c → truncate WEEK_IN_MICROS c + WEEK_IN_MICROS ≤ cur_until →
     c mod WEEK_IN_MICROS = 0)%N →
  ∃ bs, spanning_loop fuel c cur_until = Ok bs ∧ tiles c bs cur_until ∧ Forall (bucket_fits since cur_until) bs.
Proof.
  assert (HH : HOUR_IN_MICROS = 3600000000%N) by reflexivity.
  assert (HW : WEEK_IN_MICROS = 604800000000%N) by reflexivity.
  assert (HB : u64_bound = 18446744073709551616%N) by reflexivity.
  induction fuel as [|fuel IH]; intros c Hc Hu Hle Hfuel Hinv; cbn [spanning_loop];
    destruct (N.ltb_spec c cur_until) as [Hlt|Hge].
  - exfalso. rewrite HH in *. lia.
  - exists []. split_and!; [done| |constructor]. simpl. lia.
  - unfold cycles_until. destruct (N.ltb_spec cur_until c); [lia|]. cbn [result_bind].
    destruct (N.leb_spec (WEEK_IN_MICROS / HOUR_IN_MICROS) ((cur_until - c) / HOUR_IN_MICROS)) as [Hcy|Hcy].
    + unfold try_as, try_from_raw_u64. destruct (N.eqb_spec (c mod WEEK_IN_MICROS) 0) as [Hm|Hm]; cbn [ok].
      * unfold next. rewrite (proj2 (N.ltb_lt _ _)) by (rewrite ?HH, ?HW, ?HB in *; lia). cbn [result_bind].
        rewrite (proj2 (N.eqb_eq _ _)) by (rewrite ?HH, ?HW in *; lia). cbn [result_bind].
        destruct (IH (c + WEEK_IN_MICROS)%N) as (bs & -> & Ht & Hf); [rewrite ?HH, ?HW, ?HB in *; unfold truncate in *; lia..|].
        exists (Week c :: bs). split_and!; [done|done|]. constructor; [exact Hm|exact Hf].
      * unfold next. rewrite (proj2 (N.ltb_lt _ _)) by (rewrite ?HH, ?HW, ?HB in *; lia). cbn [result_bind].
        destruct (IH (c + HOUR_IN_MICROS)%N) as (bs & -> & Ht & Hf);
          [unfold truncate in *; rewrite ?HH, ?HW, ?HB in *; lia..|].
        exists (Hour c :: bs). split_and!; [done|done|]. constructor; [|exact Hf]. split; [done|].
        intros [H1 H2]. by apply Hm, Hinv.
    + unfold next. rewrite (proj2 (N.ltb_lt _ _)) by (rewrite ?HH, ?HW, ?HB in *; lia). cbn [result_bind].
      destruct (IH (c + HOUR_IN_MICROS)%N) as (bs & -> & Ht & Hf);
        [unfold truncate in *; rewrite ?HH, ?HW, ?HB in *; lia..|].
      exists (Hour c :: bs). split_and!; [done|done|]. constructor; [|exact Hf]. split; [done|].
      unfold truncate in *. rewrite ?HH, ?HW in *. lia.
  - exists []. split_and!; [done| |constructor]. simpl. lia.
Qed.

Lemma buckets_spanning_ok since cur_until :
  (since mod HOUR_IN_MICROS = 0)%N → (cur_until mod HOUR_IN_MICROS = 0)%N →
  (since ≤ cur_until < u64_bound)%N →
  ∃ bs, buckets_spanning since cur_until = Ok bs ∧ tiles since bs cur_until ∧
    Forall (bucket_fits since cur_until) bs.
Proof.
  intros Hs Hu Hle. unfold buckets_spanning. destruct (N.leb_spec cur_until since).
  - exists []. split_and!; [done| |constructor]. simpl. lia.
  - apply spanning_loop_ok; try done. unfold truncate.
    assert (HW : WEEK_IN_MICROS = 604800000000%N) by reflexivity. rewrite HW. lia.
Qed.

(** For hour-aligned bounds, [buckets_spanning] never panics and returns
    buckets that tile the span from [since] to [until]: no gap, no overlap;
    weeks start at week boundaries, and an hour bucket appears only where its
    week does not fit into the span. *)
Theorem buckets_spanning_tiles since cur_until :
  (since mod HOUR_IN_MICROS = 0)%N → (cur_until mod HOUR_IN_MICROS = 0)%N →
  (since ≤ cur_until < u64_bound)%N →
  ∃ bs, buckets_spanning since cur_until = Ok bs ∧ tiles since bs cur_until ∧
    Forall (bucket_fits since cur_until) bs.
Proof. apply buckets_spanning_ok. Qed.

Lemma buckets_spanning_tiles_witness :
  ∃ bs, buckets_spanning (1 * HOUR_IN_MICROS) (2 * WEEK_IN_MICROS + 3 * HOUR_IN_MICROS) = Ok bs ∧
    tiles (1 * HOUR_IN_MICROS) bs (2 * WEEK_IN_MICROS + 3 * HOUR_IN_MICROS) ∧
    Forall (bucket_fits (1 * HOUR_IN_MICROS) (2 * WEEK_IN_MICROS + 3 * HOUR_IN_MICROS)) bs.
Proof. apply buckets_spanning_tiles; [reflexivity|reflexivity|split; [discriminate|reflexivity]]. Defined.

(** Truncation gives the aligned cursor at or below, and [try_from_raw_u64]
    accepts exactly the aligned ones. *)
Lemma truncate_spec MOD raw :
  (0 < MOD)%N → (truncate MOD raw ≤ raw < truncate MOD raw + MOD)%N ∧
  try_from_raw_u64 MOD (truncate MOD raw) = Ok (truncate MOD raw) ∧
  (∀ t, try_from_raw_u64 MOD raw = Ok t ↔ t = raw ∧ truncate MOD raw = raw).
Proof.
  intros HM. unfold truncate, try_from_raw_u64.
  assert (HM' : MOD ≠ 0%N) by lia. pose proof (N.div_mod raw MOD HM') as Hdm.
  pose proof (N.mod_lt raw MOD HM') as Hlt.
  rewrite N.Div0.mod_mul. split_and!; [lia|lia|done|].
  intros t. destruct (N.eqb_spec (raw mod MOD) 0) as [E|E]; split.
  - intros [= <-]. split; [done|]. lia.
  - by intros [-> _].
  - done.
  - intros [_ Ht]. exfalso. apply E. rewrite <- Ht. apply N.Div0.mod_mul.
Qed.

End Trunc.
