(* ===== verification/UfosDbTypes.v ===== *)
(** * ufos: keys and values as bytes (ufos/src/db_types.rs)

    The [DbBytes] trait with its implementations, as a type class; bytes are
    strings of 8-bit characters.  Round trips are proved through two interface
    classes: [PrefixCodec] for encodings that know where they end, which may be
    followed by more bytes, and [TailCodec] for those that may come last.
    [bincode], the atrium string types and [lsm_tree] are parameters. *)

From S2P Require Import Prelude RustStr Bytes UfosCursor.

(** ** UTF-8 *)

(** Validation as a state machine: the ranges of the bytes still to come. *)
Definition cont : N * N := (128, 191)%N.

Definition utf8_start (b : N) : option (list (N * N)) :=
  (if b <=? 127 then Some []
   else if (194 <=? b) && (b <=? 223) then Some [cont]
   else if b =? 224 then Some [(160, 191); cont]
   else if b =? 237 then Some [(128, 159); cont]
   else if (225 <=? b) && (b <=? 239) then Some [cont; cont]
   else if b =? 240 then Some [(144, 191); cont; cont]
   else if (241 <=? b) && (b <=? 243) then Some [cont; cont; cont]
   else if b =? 244 then Some [(128, 143); cont; cont]
   else None)%N.

Fixpoint utf8_run (pending : list (N * N)) (s : string) : bool :=
  match s, pending with
  | EmptyString, [] => true
  | EmptyString, _ => false
  | String c s, [] => match utf8_start (byte_n c) with Some p => utf8_run p s | None => false end
  | String c s, (lo, hi) :: p => (lo <=? byte_n c)%N && (byte_n c <=? hi)%N && utf8_run p s
  end.

(** [std::str::from_utf8(bytes).is_ok()]. *)
Definition valid_utf8 (s : string) : bool := utf8_run [] s.

(** ** The trait *)

Class DbBytes (T : Type) := {
  to_db_bytes : T → EncodingResult string;
  from_db_bytes : string → EncodingResult (T * nat)
}.

(** What the third-party crates provide. *)
Inductive Bound : Type :=
  | Included (b : string)
  | Excluded (b : string)
  | Unbounded.

Class LsmTree := prefix_to_range : string → Bound * Bound.

(** [bincode::encode_to_vec] and [decode_from_slice] with [bincode_conf()]. *)
Class Bincode2 (T : Type) := {
  encode_to_vec : T → option string;
  decode_from_slice : string → option (T * nat)
}.

(** The validity checks of atrium's [Did::new], [Nsid::new], [RecordKey::new]. *)
Class Atrium := {
  did_valid : string → bool;
  nsid_valid : string → bool;
  rkey_valid : string → bool
}.

Record Did : Type := mkDid { did_str : string }.
Record Nsid : Type := mkNsid { nsid_str : string }.
Record RecordKey : Type := mkRecordKey { rkey_str : string }.
Record Cursor : Type := mkCursor { cursor_us : N }.

#[global] Instance Did_eq_dec : EqDecision Did.
Proof. solve_decision. Defined.
#[global] Instance Nsid_eq_dec : EqDecision Nsid.
Proof. solve_decision. Defined.
#[global] Instance RecordKey_eq_dec : EqDecision RecordKey.
Proof. solve_decision. Defined.
#[global] Instance Cursor_eq_dec : EqDecision Cursor.
Proof. solve_decision. Defined.

Module Db.

(** [as_prefix_range_end]. *)
Definition as_prefix_range_end {T} `{LsmTree, DbBytes T} (self : T) : EncodingResult string :=
  bytes ←? to_db_bytes self;
  match prefix_to_range bytes with
  | (_, Excluded range_end) => Ok range_end
  | _ => Err (Encoding BadRangeBound)
  end.

(** ** DbConcat *)

Record DbConcat (P S : Type) : Type := from_pair { prefix : P; suffix : S }.
Arguments from_pair {P S} _ _.
Arguments prefix {P S} _.
Arguments suffix {P S} _.

Section Concat.
Context {P S : Type} `{DbBytes P, DbBytes S}.

Definition from_prefix_to_db_bytes (p : P) : EncodingResult string := to_db_bytes p.
Definition to_prefix_db_bytes (self : DbConcat P S) : EncodingResult string := to_db_bytes (prefix self).
Definition prefix_range_end `{LsmTree} (p : P) : EncodingResult string := as_prefix_range_end p.
Definition range_end `{LsmTree} (self : DbConcat P S) : EncodingResult string := prefix_range_end (prefix self).

Definition range `{LsmTree} (self : DbConcat P S) : EncodingResult (string * string) :=
  prefix_bytes ←? to_db_bytes (prefix self);
  match prefix_to_range prefix_bytes with
  | (Included start, Excluded stop) => Ok (start, stop)
  | _ => Err (Encoding BadRangeBound)
  end.

Definition concat_to_db_bytes (self : DbConcat P S) : EncodingResult string :=
  combined ←? to_db_bytes (prefix self);
  more ←? to_db_bytes (suffix self);
  Ok (combined +:+ more).

Definition concat_from_db_bytes (bytes : string) : EncodingResult (DbConcat P S * nat) :=
  '(prefix, eaten) ←? from_db_bytes bytes;
  if decide (eaten ≤ String.length bytes) then
    match str_split_at eaten bytes with
    | None => Err (Encoding DecodeMissingSuffix)
    | Some (_, suffix_bytes) =>
        if decide (suffix_bytes = "") then Err (Encoding DecodeMissingSuffix)
        else
          '(suffix, also_eaten) ←? from_db_bytes suffix_bytes;
          if decide (also_eaten ≤ String.length suffix_bytes)
          then Ok (from_pair prefix suffix, eaten + also_eaten)
          else Err (Panics "also eaten < suffix len")
    end
  else Err (Panics "eaten < len").

#[global] Instance concat_db_bytes : DbBytes (DbConcat P S) := {
  to_db_bytes := concat_to_db_bytes;
  from_db_bytes := concat_from_db_bytes
}.

(** [range_to_prefix_end]: from this key to the end of its prefix. *)
Definition range_to_prefix_end `{LsmTree} (self : DbConcat P S) : EncodingResult (string * string) :=
  start ←? to_db_bytes self;
  stop ←? range_end self;
  Ok (start, stop).
End Concat.

(** ** The other implementations *)

Inductive DbEmpty : Type := mkDbEmpty.

#[global] Instance empty_db_bytes : DbBytes DbEmpty := {
  to_db_bytes _ := Ok "";
  from_db_bytes _ := Ok (mkDbEmpty, 0)
}.

Definition NUL : ascii := "000".

(** Null-terminated strings. *)
Definition string_to_db_bytes (s : string) : EncodingResult string :=
  if str_contains NUL s then Err (Encoding StringContainedNull) else Ok (s +:+ String NUL "").

Definition string_from_db_bytes (bytes : string) : EncodingResult (string * nat) :=
  match split_once NUL bytes with
  | Some (string_bytes, _) =>
      if valid_utf8 string_bytes then Ok (string_bytes, String.length string_bytes + 1)
      else Err (Encoding NotUtf8)
  | None => Err (Encoding UnterminatedString)
  end.

#[global] Instance string_db_bytes : DbBytes string := {
  to_db_bytes := string_to_db_bytes;
  from_db_bytes := string_from_db_bytes
}.

(** [SubPrefixBytes for String] and [for Nsid]. *)
Definition sub_prefix (input : string) : EncodingResult string :=
  if str_contains NUL input then Err (Encoding StringContainedNull) else Ok input.

(** A literal in key position; the type carries the literal. *)
Inductive DbStaticStr (static_str : string) : Type := the_static_str.
Arguments the_static_str {static_str}.

#[global] Instance static_db_bytes (static_str : string) : DbBytes (DbStaticStr static_str) := {
  to_db_bytes _ := string_to_db_bytes static_str;
  from_db_bytes bytes :=
    '(prefix, eaten) ←? string_from_db_bytes bytes;
    if decide (prefix = static_str) then Ok (the_static_str, eaten)
    else Err (Encoding (WrongStaticPrefix prefix static_str))
}.

(** [impl DbBytes for T where T: UseBincodePlz], and [SerdeBytes]. *)
Definition bincode_to_db_bytes {T} `{Bincode2 T} (self : T) : EncodingResult string :=
  match encode_to_vec self with Some b => Ok b | None => Err (Encoding BincodeEncodeFailed) end.
Definition bincode_from_db_bytes {T} `{Bincode2 T} (bytes : string) : EncodingResult (T * nat) :=
  match decode_from_slice bytes with Some r => Ok r | None => Err (Encoding BincodeDecodeFailed) end.

Section Types.
Context `{Atrium, Bincode2 string}.

#[global] Instance did_db_bytes : DbBytes Did := {
  to_db_bytes self := bincode_to_db_bytes (did_str self);
  from_db_bytes bytes :=
    '(s, n) ←? bincode_from_db_bytes bytes;
    if did_valid s then Ok (mkDid s, n) else Err (Encoding BadAtriumStringType)
}.

#[global] Instance nsid_db_bytes : DbBytes Nsid := {
  to_db_bytes self := string_to_db_bytes (nsid_str self);
  from_db_bytes bytes :=
    '(s, n) ←? string_from_db_bytes bytes;
    if nsid_valid s then Ok (mkNsid s, n) else Err (Encoding BadAtriumStringType)
}.

#[global] Instance rkey_db_bytes : DbBytes RecordKey := {
  to_db_bytes self := bincode_to_db_bytes (rkey_str self);
  from_db_bytes bytes :=
    '(s, n) ←? bincode_from_db_bytes bytes;
    if rkey_valid s then Ok (mkRecordKey s, n) else Err (Encoding BadAtriumStringType)
}.
End Types.

(** Eight big-endian bytes ([Cursor], [KeyRank]). *)
Definition be_u64_from_db_bytes (bytes : string) : EncodingResult (N * nat) :=
  if decide (String.length bytes < 8) then Err (Encoding DecodeNotEnoughBytes)
  else
    match str_split_at 8 bytes with
    | Some (bytes8, _) =>
        match u64_from_be_bytes bytes8 with
        | Some n => Ok (n, 8)
        | None => Err (Encoding DecodeNotEnoughBytes)
        end
    | None => Err (Encoding DecodeNotEnoughBytes)
    end.

#[global] Instance cursor_db_bytes : DbBytes Cursor := {
  to_db_bytes self := Ok (u64_to_be_bytes (cursor_us self));
  from_db_bytes bytes := '(n, k) ←? be_u64_from_db_bytes bytes; Ok (mkCursor n, k)
}.

(** Bare bytes: greedy, not prefix-encoded. *)
Record RawBytes : Type := mkRaw { raw_bytes : string }.
#[global] Instance raw_db_bytes : DbBytes RawBytes := {
  to_db_bytes self := Ok (raw_bytes self);
  from_db_bytes bytes := Ok (mkRaw bytes, String.length bytes)
}.

Definition db_complete {T} `{DbBytes T} (bytes : string) : EncodingResult T :=
  '(t, n) ←? from_db_bytes bytes;
  if decide (n < String.length bytes) then Err (Encoding (DecodeTooManyBytes (String.length bytes - n)))
  else Ok t.

(** ** Interfaces: round trips *)

(** Which values of the type the program builds. *)
Class WellFormed (T : Type) := wf : T → Prop.

(** Decoding finds the end by itself, whatever follows. *)
Class PrefixCodec (T : Type) `{DbBytes T, WellFormed T} :=
  prefix_codec (x : T) : wf x → ∃ b, to_db_bytes x = Ok b ∧ b ≠ "" ∧
    ∀ rest, from_db_bytes (b +:+ rest) = Ok (x, String.length b).

(** Decoding the bytes alone gives the value back. *)
Class TailCodec (T : Type) `{DbBytes T, WellFormed T} :=
  tail_codec (x : T) : wf x → ∃ b, to_db_bytes x = Ok b ∧ b ≠ "" ∧ from_db_bytes b = Ok (x, String.length b).

#[global] Instance prefix_tail_codec T `{PrefixCodec T} : TailCodec T | 10.
Proof.
  intros x Hx. destruct (prefix_codec x Hx) as (b & Hto & Hne & Hfrom). exists b. split_and!; [done|done|].
  rewrite <- (str_app_nil_r b) at 1. apply Hfrom.
Qed.

Lemma str_app_empty a b : a +:+ b = "" → a = "" ∧ b = "".
Proof. destruct a; [by rewrite str_app_nil_l|]. rewrite str_app_cons. done. Qed.

(** Concatenations. *)
#[global] Instance concat_wf {P S} `{WellFormed P, WellFormed S} : WellFormed (DbConcat P S) :=
  λ x, wf (prefix x) ∧ wf (suffix x).

Section ConcatCodec.
Context {P S : Type} `{PrefixCodec P} `{DbBytes S, WellFormed S}.

(** Decoding a prefix and then what the suffix decoder makes of the rest. *)
Lemma concat_from_app (x : P) b rest (y : S) n :
  to_db_bytes x = Ok b → (∀ r, from_db_bytes (b +:+ r) = Ok (x, String.length b)) →
  rest ≠ "" → from_db_bytes rest = Ok (y, n) → n ≤ String.length rest →
  from_db_bytes (b +:+ rest) = Ok (from_pair x y, String.length b + n).
Proof.
  intros Hto Hfrom Hne Hy Hn. cbn [from_db_bytes concat_db_bytes]. unfold concat_from_db_bytes.
  rewrite Hfrom. cbn [result_bind]. rewrite decide_True by (rewrite str_length_app; lia).
  rewrite (proj2 (str_split_at_Some _ _ b rest)) by done.
  rewrite decide_False by done. rewrite Hy. cbn [result_bind]. by rewrite decide_True.
Qed.

Lemma concat_to_bytes (x : DbConcat P S) b c :
  to_db_bytes (prefix x) = Ok b → to_db_bytes (suffix x) = Ok c → to_db_bytes x = Ok (b +:+ c).
Proof. intros Hb Hc. cbn [to_db_bytes concat_db_bytes]. unfold concat_to_db_bytes. by rewrite Hb, Hc. Qed.

#[global] Instance concat_tail_codec `{!TailCodec S} : TailCodec (DbConcat P S) | 5.
Proof.
  intros [x y] [Hx Hy]. simpl in Hx, Hy. destruct (prefix_codec x Hx) as (b & Hb & Hbne & Hbf).
  destruct (tail_codec y Hy) as (c & Hc & Hcne & Hcf). exists (b +:+ c). split_and!.
  - by apply concat_to_bytes.
  - intros [? ?]%str_app_empty. done.
  - rewrite str_length_app. by apply concat_from_app.
Qed.

#[global] Instance concat_prefix_codec `{!PrefixCodec S} : PrefixCodec (DbConcat P S) | 1.
Proof.
  intros [x y] [Hx Hy]. simpl in Hx, Hy. destruct (prefix_codec x Hx) as (b & Hb & Hbne & Hbf).
  destruct (prefix_codec y Hy) as (c & Hc & Hcne & Hcf). exists (b +:+ c). split_and!.
  - by apply concat_to_bytes.
  - intros [? ?]%str_app_empty. done.
  - intros rest. rewrite str_app_assoc, str_length_app. apply concat_from_app; [done|done| |apply Hcf|].
    + intros [? ?]%str_app_empty. done.
    + rewrite str_length_app. lia.
Qed.
End ConcatCodec.

(** ** The codecs of the base types *)

#[global] Instance string_wf : WellFormed string := λ s, str_contains NUL s = false ∧ valid_utf8 s = true.

Lemma string_from_app s rest :
  str_contains NUL s = false → valid_utf8 s = true →
  string_from_db_bytes ((s +:+ String NUL "") +:+ rest) = Ok (s, String.length (s +:+ String NUL "")).
Proof.
  intros Hs Hu. unfold string_from_db_bytes. rewrite str_app_assoc, str_app_cons, split_once_app by done.
  rewrite Hu, str_length_app. done.
Qed.

#[global] Instance string_prefix_codec : PrefixCodec string.
Proof.
  intros s [Hs Hu]. exists (s +:+ String NUL ""). split_and!.
  - cbn [to_db_bytes string_db_bytes]. unfold string_to_db_bytes. by rewrite Hs.
  - intros [_ ?]%str_app_empty. done.
  - intros rest. by apply string_from_app.
Qed.

#[global] Instance static_wf s : WellFormed (DbStaticStr s) := λ _, str_contains NUL s = false ∧ valid_utf8 s = true.
#[global] Instance static_prefix_codec s : PrefixCodec (DbStaticStr s).
Proof.
  intros [] [Hs Hu]. exists (s +:+ String NUL ""). split_and!.
  - cbn [to_db_bytes static_db_bytes]. unfold string_to_db_bytes. by rewrite Hs.
  - intros [_ ?]%str_app_empty. done.
  - intros rest. cbn [from_db_bytes static_db_bytes]. rewrite string_from_app by done. cbn [result_bind].
    by rewrite decide_True.
Qed.

#[global] Instance cursor_wf : WellFormed Cursor := λ c, (cursor_us c < u64_bound)%N.

Lemma be_u64_from_app n rest :
  (n < u64_bound)%N → be_u64_from_db_bytes (u64_to_be_bytes n +:+ rest) = Ok (n, 8).
Proof.
  intros Hn. assert (Hlen : String.length (u64_to_be_bytes n) = 8) by apply be_bytes_length.
  unfold be_u64_from_db_bytes. rewrite decide_False by (rewrite str_length_app; lia).
  rewrite (proj2 (str_split_at_Some 8 _ (u64_to_be_bytes n) rest)) by done.
  by rewrite u64_be_roundtrip.
Qed.

#[global] Instance cursor_prefix_codec : PrefixCodec Cursor.
Proof.
  intros [n] Hn. exists (u64_to_be_bytes n).
  assert (Hlen : String.length (u64_to_be_bytes n) = 8) by apply be_bytes_length. split_and!.
  - done.
  - intros E. by rewrite E in Hlen.
  - intros rest. cbn [from_db_bytes cursor_db_bytes]. rewrite be_u64_from_app by done. by rewrite Hlen.
Qed.

#[global] Instance raw_wf : WellFormed RawBytes := λ x, raw_bytes x ≠ "".
#[global] Instance raw_tail_codec : TailCodec RawBytes.
Proof. intros [s] Hs. by exists s. Qed.

(** What bincode and the string types guarantee: values of a type with a bound
    on their size are encoded self-delimitingly, and every valid identifier is
    short, without a null byte and valid UTF-8. *)
Class Bincode2Laws (T : Type) `{Bincode2 T, WellFormed T} :=
  bincode2_rt (x : T) : wf x → ∃ b, encode_to_vec x = Some b ∧ b ≠ "" ∧
    ∀ rest, decode_from_slice (b +:+ rest) = Some (x, String.length b).

Definition BINCODE_LIMIT : N := 2 ^ 20.

(** Strings below the configured limit. *)
Class BincodeStrLaws `{Bincode2 string} :=
  bincode_str_rt (s : string) : (N.of_nat (String.length s) + 8 ≤ BINCODE_LIMIT)%N →
    ∃ b, encode_to_vec s = Some b ∧ b ≠ "" ∧ ∀ rest, decode_from_slice (b +:+ rest) = Some (s, String.length b).

Class AtriumLaws `{Atrium} := {
  did_len s : did_valid s = true → String.length s ≤ 2048;
  rkey_len s : rkey_valid s = true → String.length s ≤ 512;
  nsid_no_nul s : nsid_valid s = true → str_contains NUL s = false ∧ valid_utf8 s = true
}.

Section TypeCodecs.
Context `{AL : AtriumLaws} `{BL : BincodeStrLaws}.

#[global] Instance did_wf : WellFormed Did := λ d, did_valid (did_str d) = true.
#[global] Instance nsid_wf : WellFormed Nsid := λ n, nsid_valid (nsid_str n) = true.
#[global] Instance rkey_wf : WellFormed RecordKey := λ r, rkey_valid (rkey_str r) = true.

#[global] Instance did_prefix_codec : PrefixCodec Did.
Proof.
  intros [s] Hs. destruct (bincode_str_rt s) as (b & Hb & Hne & Hrt).
  { pose proof (did_len s Hs). unfold BINCODE_LIMIT. lia. }
  exists b. cbn [to_db_bytes from_db_bytes did_db_bytes]. unfold bincode_to_db_bytes, bincode_from_db_bytes. simpl.
  rewrite Hb. split_and!; [done|done|]. intros rest. rewrite Hrt. simpl. unfold wf, did_wf in Hs. simpl in Hs. by rewrite Hs.
Qed.

#[global] Instance rkey_prefix_codec : PrefixCodec RecordKey.
Proof.
  intros [s] Hs. destruct (bincode_str_rt s) as (b & Hb & Hne & Hrt).
  { pose proof (rkey_len s Hs). unfold BINCODE_LIMIT. lia. }
  exists b. cbn [to_db_bytes from_db_bytes rkey_db_bytes]. unfold bincode_to_db_bytes, bincode_from_db_bytes. simpl.
  rewrite Hb. split_and!; [done|done|]. intros rest. rewrite Hrt. simpl. unfold wf, rkey_wf in Hs. simpl in Hs. by rewrite Hs.
Qed.

#[global] Instance nsid_prefix_codec : PrefixCodec Nsid.
Proof.
  intros [s] Hs. destruct (nsid_no_nul s Hs) as [Hn Hu]. exists (s +:+ String NUL ""). split_and!.
  - cbn [to_db_bytes nsid_db_bytes]. unfold string_to_db_bytes. simpl. by rewrite Hn.
  - intros [_ ?]%str_app_empty. done.
  - intros rest. cbn [from_db_bytes nsid_db_bytes]. rewrite string_from_app by done. cbn [result_bind].
    unfold wf, nsid_wf in Hs. simpl in Hs. by rewrite Hs.
Qed.
End TypeCodecs.

Lemma db_complete_codec {T} `{TailCodec T} (x : T) :
  wf x → ∃ b, to_db_bytes x = Ok b ∧ db_complete b = Ok x.
Proof.
  intros Hx. destruct (tail_codec x Hx) as (b & Hb & _ & Hf). exists b. split; [done|].
  unfold db_complete. rewrite Hf. cbn [result_bind]. by rewrite decide_False by lia.
Qed.

(** ** Interfaces: order *)

(** How the key order of the database sees values of the type. *)
Class KeyOrder (T : Type) := key_compare : T → T → comparison.

(** Lexicographic combination. *)
Definition then_compare (a b : comparison) : comparison := match a with Eq => b | _ => a end.

(** Encodings compare like the values, and what follows decides between equals. *)
Class OrderedCodec (T : Type) `{DbBytes T, WellFormed T, KeyOrder T} :=
  ordered_codec (x y : T) bx by' r s :
    wf x → wf y → to_db_bytes x = Ok bx → to_db_bytes y = Ok by' →
    bytes_compare (bx +:+ r) (by' +:+ s) = then_compare (key_compare x y) (bytes_compare r s).

Lemma bytes_compare_app_len a b r s :
  String.length a = String.length b →
  bytes_compare (a +:+ r) (b +:+ s) = then_compare (bytes_compare a b) (bytes_compare r s).
Proof.
  revert b. induction a as [|c a IH]; intros [|d b] Hlen; simpl in Hlen; try lia.
  - by rewrite !str_app_nil_l.
  - rewrite !str_app_cons. simpl. destruct (byte_n c ?= byte_n d)%N; [|done|done]. apply IH. lia.
Qed.

Lemma NUL_least c : c ≠ NUL → (byte_n NUL ?= byte_n c)%N = Lt.
Proof.
  intros Hc. apply N.compare_lt_iff. destruct (decide (byte_n c = 0%N)) as [E|E].
  - destruct Hc. apply byte_n_inj. by rewrite E.
  - change (byte_n NUL) with 0%N. lia.
Qed.

Lemma bytes_compare_nul a b r s :
  str_contains NUL a = false → str_contains NUL b = false →
  bytes_compare ((a +:+ String NUL "") +:+ r) ((b +:+ String NUL "") +:+ s) =
  then_compare (bytes_compare a b) (bytes_compare r s).
Proof.
  rewrite !str_app_assoc, !str_app_cons, !str_app_nil_l.
  revert b. induction a as [|c a IH]; intros [|d b] Ha Hb; simpl in Ha, Hb;
    try (apply orb_false_iff in Ha as [Hc Ha]; apply bool_decide_eq_false in Hc);
    try (apply orb_false_iff in Hb as [Hd Hb]; apply bool_decide_eq_false in Hd);
    rewrite ?str_app_nil_l, ?str_app_cons; cbn [bytes_compare].
  - by rewrite N.compare_refl.
  - by rewrite NUL_least.
  - rewrite N.compare_antisym, NUL_least; done.
  - destruct (byte_n c ?= byte_n d)%N; [|done|done]. by apply IH.
Qed.

#[global] Instance string_order : KeyOrder string := bytes_compare.
#[global] Instance string_ordered : OrderedCodec string.
Proof.
  intros x y bx by' r s [Hx _] [Hy _]. cbn [to_db_bytes string_db_bytes]. unfold string_to_db_bytes.
  rewrite Hx, Hy. intros [= <-] [= <-]. by apply bytes_compare_nul.
Qed.

#[global] Instance static_order s : KeyOrder (DbStaticStr s) := λ _ _, Eq.
#[global] Instance static_ordered s : OrderedCodec (DbStaticStr s).
Proof.
  intros x y bx by' r s' [Hx _] _. cbn [to_db_bytes static_db_bytes]. unfold string_to_db_bytes.
  rewrite Hx. intros [= <-] [= <-]. rewrite bytes_compare_app_len by done.
  assert (∀ a, bytes_compare a a = Eq) as ->; [|done].
  induction a as [|c a IH]; [done|]. simpl. by rewrite N.compare_refl.
Qed.

#[global] Instance cursor_order : KeyOrder Cursor := λ a b, (cursor_us a ?= cursor_us b)%N.
#[global] Instance cursor_ordered : OrderedCodec Cursor.
Proof.
  intros [a] [b] bx by' r s Ha Hb. cbn [to_db_bytes cursor_db_bytes]. intros [= <-] [= <-].
  rewrite bytes_compare_app_len by (unfold u64_to_be_bytes; by rewrite !be_bytes_length).
  by rewrite u64_be_order.
Qed.

#[global] Instance nsid_order : KeyOrder Nsid := λ a b, bytes_compare (nsid_str a) (nsid_str b).
#[global] Instance nsid_ordered `{AL : AtriumLaws} : OrderedCodec Nsid.
Proof.
  intros [a] [b] bx by' r s Ha Hb. cbn [to_db_bytes nsid_db_bytes]. unfold string_to_db_bytes. simpl.
  destruct (nsid_no_nul a Ha) as [Ha' _], (nsid_no_nul b Hb) as [Hb' _]. rewrite Ha', Hb'.
  intros [= <-] [= <-]. by apply bytes_compare_nul.
Qed.

#[global] Instance concat_order {P S} `{KeyOrder P, KeyOrder S} : KeyOrder (DbConcat P S) :=
  λ a b, then_compare (key_compare (prefix a) (prefix b)) (key_compare (suffix a) (suffix b)).
#[global] Instance concat_ordered {P S} `{OrderedCodec P, OrderedCodec S} : OrderedCodec (DbConcat P S).
Proof.
  intros [x x'] [y y'] bx by' r s [Hx Hx'] [Hy Hy']. simpl in *. unfold concat_to_db_bytes. simpl.
  destruct (to_db_bytes x) as [a|] eqn:Ea; simpl; [|done]. destruct (to_db_bytes x') as [a'|] eqn:Ea'; simpl; [|done].
  destruct (to_db_bytes y) as [b|] eqn:Eb; simpl; [|done]. destruct (to_db_bytes y') as [b'|] eqn:Eb'; simpl; [|done].
  intros [= <-] [= <-]. rewrite !str_app_assoc, (ordered_codec x y _ _ _ _ Hx Hy Ea Eb).
  rewrite (ordered_codec x' y' _ _ _ _ Hx' Hy' Ea' Eb'). unfold key_compare at 3, concat_order. simpl.
  by destruct (key_compare x y).
Qed.

(** Whole keys, without anything after them. *)
Lemma ordered_keys {T} `{OrderedCodec T} (x y : T) bx by' :
  wf x → wf y → to_db_bytes x = Ok bx → to_db_bytes y = Ok by' → bytes_compare bx by' = key_compare x y.
Proof.
  intros Hx Hy Hbx Hby. pose proof (ordered_codec x y bx by' "" "" Hx Hy Hbx Hby) as E.
  rewrite !str_app_nil_r in E. rewrite E. simpl. by destruct (key_compare x y).
Qed.

(** ** Prefix ranges *)

(** [lo <= k < hi] in key order. *)
Definition in_range (lo hi k : string) : Prop := bytes_compare lo k ≠ Gt ∧ bytes_compare k hi = Lt.

(** [prefix_to_range] of a prefix with a byte below [0xff]: the keys that start
    with it. *)
Class LsmTreeLaws `{LsmTree} :=
  prefix_to_range_spec p : str_forallb (λ c, (byte_n c =? 255)%N) p = false →
    ∃ stop, prefix_to_range p = (Included p, Excluded stop) ∧
      ∀ k, in_range p stop k ↔ starts_with p k = true.

(** A null byte is below [0xff]. *)
Lemma nul_not_all_ff a b : str_forallb (λ c, (byte_n c =? 255)%N) (a +:+ String NUL b) = false.
Proof. rewrite str_forallb_app. simpl. by rewrite andb_false_r. Qed.

(** Encodings that agree as prefixes are encodings of the same value. *)
Lemma prefix_codec_unique {T} `{PrefixCodec T} (x y : T) b c r s :
  wf x → wf y → to_db_bytes x = Ok b → to_db_bytes y = Ok c → b +:+ r = c +:+ s → x = y ∧ r = s.
Proof.
  intros Hx Hy Hb Hc E. destruct (prefix_codec x Hx) as (b' & Hb' & _ & Hbf), (prefix_codec y Hy) as (c' & Hc' & _ & Hcf).
  rewrite Hb in Hb'. rewrite Hc in Hc'. injection Hb' as <-. injection Hc' as <-.
  pose proof (Hbf r) as E1. rewrite E, Hcf in E1. injection E1 as <- _. split; [done|].
  rewrite Hb in Hc. injection Hc as <-. by apply str_app_inj_l in E.
Qed.

(** A scan over a prefix finds the keys that hold it. *)
Lemma prefix_scan {T} `{PrefixCodec T} `{LL : LsmTreeLaws} (x y : T) b c r s :
  wf x → wf y → to_db_bytes x = Ok b → to_db_bytes y = Ok c →
  str_forallb (λ c, (byte_n c =? 255)%N) (b +:+ r) = false →
  ∃ stop, prefix_to_range (b +:+ r) = (Included (b +:+ r), Excluded stop) ∧
    (in_range (b +:+ r) stop (c +:+ s) ↔ x = y ∧ starts_with r s = true).
Proof.
  intros Hx Hy Hb Hc Hff. destruct (prefix_to_range_spec _ Hff) as (stop & -> & Hk).
  exists stop. split; [done|]. rewrite Hk, !starts_with_spec. split.
  - intros [t E]. rewrite str_app_assoc in E.
    destruct (prefix_codec_unique y x c b s (r +:+ t) Hy Hx Hc Hb E) as [-> ->]. eauto.
  - intros [-> [t ->]]. rewrite Hb in Hc. injection Hc as ->. exists t. by rewrite str_app_assoc.
Qed.

(** A prefix without a null byte does not see the terminator. *)
Lemma starts_with_nul p s :
  str_contains NUL p = false → starts_with p (s +:+ String NUL "") = true ↔ starts_with p s = true.
Proof.
  intros Hp. rewrite !starts_with_spec. split; [|intros [t ->]; exists (t +:+ String NUL ""); by rewrite str_app_assoc].
  revert s. induction p as [|c p IH]; intros s [t E]; [by exists s|].
  simpl in Hp. apply orb_false_iff in Hp as [Hc Hp]. apply bool_decide_eq_false in Hc.
  rewrite str_app_cons in E. destruct s as [|d s].
  - rewrite str_app_nil_l in E. injection E as E _. done.
  - rewrite str_app_cons in E. injection E as -> E. destruct (IH Hp s) as [t' ->]; [by exists t|].
    exists t'. by rewrite str_app_cons.
Qed.

(** ** An [LsmTree] that satisfies the law *)

Fixpoint range_stop (p : string) : option string :=
  match p with
  | EmptyString => None
  | String c p =>
      match range_stop p with
      | Some e => Some (String c e)
      | None => if (byte_n c <? 255)%N then Some (String (ascii_of_N (byte_n c + 1)) "") else None
      end
  end.

#[local] Instance plain_lsm : LsmTree :=
  λ p, (Included p, match range_stop p with Some e => Excluded e | None => Unbounded end).

Lemma range_stop_None p : range_stop p = None → str_forallb (λ c, (byte_n c =? 255)%N) p = true.
Proof.
  induction p as [|c p IH]; simpl; [done|]. destruct (range_stop p); [done|].
  destruct (N.ltb_spec (byte_n c) 255) as [?|Hge]; [done|]. intros _. rewrite IH by done.
  pose proof (byte_n_lt c). rewrite (proj2 (N.eqb_eq _ _)); [done|lia].
Qed.

Lemma all_ff_ge p k : str_forallb (λ c, (byte_n c =? 255)%N) p = true →
  bytes_compare p k ≠ Gt → starts_with p k = true.
Proof.
  revert k. induction p as [|c p IH]; intros k Hp; [intros _; by apply starts_with_spec; exists k|].
  simpl in Hp. apply andb_true_iff in Hp as [Hc%N.eqb_eq Hp]. destruct k as [|d k]; [done|]. simpl.
  pose proof (byte_n_lt d). destruct (N.compare_spec (byte_n c) (byte_n d)) as [E|Hlt|Hgt]; [|lia|done].
  apply byte_n_inj in E as <-. intros Hk. specialize (IH k Hp Hk). apply starts_with_spec in IH as [t ->].
  apply starts_with_spec. exists t. by rewrite str_app_cons.
Qed.

Lemma starts_with_cons c p d k : starts_with (String c p) (String d k) = true ↔ c = d ∧ starts_with p k = true.
Proof.
  rewrite !starts_with_spec. split.
  - intros [t E]. rewrite str_app_cons in E. injection E as -> ->. eauto.
  - intros [-> [t ->]]. exists t. by rewrite str_app_cons.
Qed.

Lemma range_stop_spec p e k : range_stop p = Some e → in_range p e k ↔ starts_with p k = true.
Proof.
  unfold in_range. revert e k. induction p as [|c p IH]; intros e k He; [done|]. simpl in He.
  destruct k as [|d k].
  { split; [intros [? _]; done|]. intros [t E]%starts_with_spec. by rewrite str_app_cons in E. }
  rewrite starts_with_cons. destruct (range_stop p) as [e'|] eqn:Ep.
  - injection He as <-. simpl. rewrite (N.compare_antisym (byte_n c) (byte_n d)).
    destruct (N.compare_spec (byte_n c) (byte_n d)) as [E|Hlt|Hgt]; simpl.
    + apply byte_n_inj in E as <-. rewrite (IH e' k eq_refl). tauto.
    + split; [intros [_ ?]; done|]. intros [-> _]. lia.
    + split; [intros [? _]; done|]. intros [-> _]. lia.
  - destruct (N.ltb_spec (byte_n c) 255) as [Hc|]; [|done]. injection He as <-. simpl.
    assert (byte_n (ascii_of_N (byte_n c + 1)) = byte_n c + 1)%N as -> by (apply N_ascii_embedding; lia).
    destruct (N.compare_spec (byte_n c) (byte_n d)) as [E|Hlt|Hgt].
    + apply byte_n_inj in E as <-. rewrite (proj2 (N.compare_lt_iff _ _)) by lia. split.
      * intros [Hk _]. split; [done|]. apply all_ff_ge; [by apply range_stop_None|done].
      * intros [_ [t ->]%starts_with_spec]. split; [|done].
        clear. induction p as [|x p IH]; [by destruct t|]. rewrite str_app_cons. simpl. by rewrite N.compare_refl.
    + split; [intros [_ Hk]|intros [-> _]; lia].
      destruct (N.compare_spec (byte_n d) (byte_n c + 1)) as [E|?|?]; [|lia|done]. by destruct k.
    + split; [intros [? _]; done|]. intros [-> _]. lia.
Qed.

#[local] Instance plain_lsm_laws : LsmTreeLaws.
Proof.
  intros p Hp. unfold prefix_to_range, plain_lsm. destruct (range_stop p) as [e|] eqn:E.
  - exists e. split; [done|]. intros k. by apply range_stop_spec.
  - apply range_stop_None in E. congruence.
Qed.

(** Strings behind an eight-byte length, and identifiers of short plain text. *)
#[local] Instance plain_bincode_str : Bincode2 string := {
  encode_to_vec s :=
    if (N.of_nat (String.length s) + 8 <=? BINCODE_LIMIT)%N
    then Some (u64_to_be_bytes (N.of_nat (String.length s)) +:+ s) else None;
  decode_from_slice bytes :=
    '(h, r) ← str_split_at 8 bytes; n ← u64_from_be_bytes h; '(s, _) ← str_split_at (N.to_nat n) r;
    Some (s, 8 + N.to_nat n)
}.

#[local] Instance plain_bincode_str_laws : BincodeStrLaws.
Proof.
  intros s Hs. assert (Hn : (N.of_nat (String.length s) < u64_bound)%N) by (unfold BINCODE_LIMIT, u64_bound in *; lia).
  exists (u64_to_be_bytes (N.of_nat (String.length s)) +:+ s).
  cbn [encode_to_vec decode_from_slice plain_bincode_str]. rewrite (proj2 (N.leb_le _ _) Hs).
  assert (Hlen : String.length (u64_to_be_bytes (N.of_nat (String.length s))) = 8) by apply be_bytes_length.
  split_and!; [done| |].
  - intros [E _]%str_app_empty. by rewrite E in Hlen.
  - intros rest. rewrite str_app_assoc.
    rewrite (proj2 (str_split_at_Some 8 _ _ (s +:+ rest))) by done. cbn [mbind option_bind].
    rewrite u64_be_roundtrip by done. cbn [mbind option_bind].
    rewrite (proj2 (str_split_at_Some _ _ s rest)) by (by rewrite Nat2N.id). cbn [mbind option_bind].
    by rewrite str_length_app, Hlen, Nat2N.id.
Qed.

Definition plain_id (s : string) : bool :=
  (String.length s <=? 512) && str_forallb (λ c, is_ascii_lowercase c || is_ascii_digit c || bool_decide (c = "."%char ∨ c = "-"%char ∨ c = ":"%char)) s.

#[local] Instance plain_atrium : Atrium :=
  {| did_valid := plain_id; nsid_valid s := plain_id s && str_contains "." s; rkey_valid := plain_id |}.

Lemma plain_char c :
  is_ascii_lowercase c || is_ascii_digit c || bool_decide (c = "."%char ∨ c = "-"%char ∨ c = ":"%char) = true →
  c ≠ NUL ∧ (byte_n c <=? 127)%N = true.
Proof.
  intros Hc. split.
  - by intros ->.
  - apply N.leb_le. unfold is_ascii_lowercase, is_ascii_digit, between in Hc.
    rewrite !orb_true_iff, !andb_true_iff, !N.leb_le in Hc.
    destruct Hc as [[[_ Hc]|[_ Hc]]|Hc]; [unfold byte_n in *; simpl in Hc; lia..|].
    apply bool_decide_eq_true in Hc as [-> | [-> | ->]]; vm_compute; discriminate.
Qed.

#[local] Instance plain_atrium_laws : AtriumLaws.
Proof.
  assert (Hlen : ∀ s, plain_id s = true → String.length s ≤ 512).
  { intros s [Hs _]%andb_true_iff. by apply Nat.leb_le in Hs. }
  split; simpl.
  - intros s Hs%Hlen. lia.
  - apply Hlen.
  - intros s [[_ Hs]%andb_true_iff _]%andb_true_iff. unfold valid_utf8. induction s as [|c s IH]; [done|]. simpl in Hs.
    apply andb_true_iff in Hs as [Hc Hs]. destruct (plain_char c Hc) as [Hn Hb], (IH Hs) as [IH1 IH2].
    split; simpl.
    + by rewrite bool_decide_false, IH1.
    + unfold utf8_start. by rewrite Hb.
Qed.

End Db.
