(* ===== verification/UfosStoreTypes.v ===== *)
(** * ufos: the keys and values of the store (ufos/src/store_types.rs)

    Every key type of the database as a concatenation of base encodings, with
    its constructors, accessors and scan bounds.  The theorems: keys decode to
    what was encoded, they sort by what they hold, and the scan bounds select
    the keys they are meant to. *)

From S2P Require Import Prelude RustStr Bytes UfosCursor UfosDbTypes.
Import Db.

(** [DbConcat<A, DbConcat<B, C>>] as the source writes it. *)
Abbreviation Concat := Db.DbConcat.

Module Store.

(** ** Metadata keys and values *)

Definition JetstreamCursorKey : string := "js_cursor".
Definition SketchSecretKey : string := "sketch_secret".
Definition NewRollupCursorKey : string := "rollup_cursor".
Definition TakeoffKey : string := "takeoff".
Definition JetstreamEndpointKey : string := "js_endpoint".

Definition TrimCollectionCursorKey : Type := DbConcat (DbStaticStr "trim_cursor") Nsid.
Definition trim_collection_cursor_key (collection : Nsid) : TrimCollectionCursorKey :=
  from_pair the_static_str collection.

(** The endpoint, as bare bytes. *)
Record JetstreamEndpointValue : Type := mkEndpoint { endpoint : string }.
#[global] Instance endpoint_db_bytes : DbBytes JetstreamEndpointValue := {
  to_db_bytes self := Ok (endpoint self);
  from_db_bytes bytes :=
    if valid_utf8 bytes then Ok (mkEndpoint bytes, String.length bytes) else Err (Encoding NotUtf8)
}.

(** ** Records *)

Definition NsidRecordFeedKey : Type := DbConcat Nsid Cursor.
Definition nrf_collection (k : NsidRecordFeedKey) : Nsid := prefix k.
Definition nrf_cursor (k : NsidRecordFeedKey) : Cursor := suffix k.

Definition NsidRecordFeedVal : Type := DbConcat Did (DbConcat RecordKey string).
Definition nrf_did (v : NsidRecordFeedVal) : Did := prefix v.
Definition nrf_rkey (v : NsidRecordFeedVal) : RecordKey := prefix (suffix v).
Definition nrf_rev (v : NsidRecordFeedVal) : string := suffix (suffix v).
Definition feed_val_from (did : Did) (rkey : RecordKey) (rev : string) : NsidRecordFeedVal :=
  from_pair did (from_pair rkey rev).

Definition RecordLocationKey : Type := DbConcat Did (DbConcat Nsid RecordKey).
Definition location_key_from_feed (key : NsidRecordFeedKey) (val : NsidRecordFeedVal) : RecordLocationKey :=
  from_pair (nrf_did val) (from_pair (nrf_collection key) (nrf_rkey val)).

Record RecordLocationMeta : Type := mkMeta { meta_cursor : N; meta_is_update : bool; meta_rev : string }.
Definition RecordLocationVal : Type := DbConcat RecordLocationMeta RawBytes.
(** From the cursor, the revision and the parts of a put. *)
Definition location_val_from (cursor : Cursor) (rev : string) (record : string) (is_update : bool) : RecordLocationVal :=
  from_pair (mkMeta (cursor_us cursor) is_update rev) (mkRaw record).

(** ** Counts *)

Definition LiveCountsCursorPrefix : Type := DbConcat (DbStaticStr "live_counts") Cursor.
Definition LiveCountsKey : Type := DbConcat LiveCountsCursorPrefix Nsid.
Definition live_counts_key (cursor : Cursor) (collection : Nsid) : LiveCountsKey :=
  from_pair (from_pair the_static_str cursor) collection.
Definition live_counts_cursor (k : LiveCountsKey) : Cursor := suffix (prefix k).
Definition live_counts_collection (k : LiveCountsKey) : Nsid := suffix k.
Definition range_from_cursor `{LsmTree} (cursor : Cursor) : EncodingResult (string * string) :=
  range_to_prefix_end (from_pair the_static_str cursor : LiveCountsCursorPrefix).

Record CommitCounts : Type := mkCounts { creates : N; updates : N; deletes : N }.

#[global] Instance CommitCounts_eq_dec : EqDecision CommitCounts.
Proof. solve_decision. Defined.

(** [u64] addition panics on overflow. *)
Definition add_u64 (a b : N) : EncodingResult N :=
  if (a + b <? u64_bound)%N then Ok (a + b)%N else Err (Panics "attempt to add with overflow").

Definition counts_merge (self other : CommitCounts) : EncodingResult CommitCounts :=
  c ←? add_u64 (creates self) (creates other);
  u ←? add_u64 (updates self) (updates other);
  d ←? add_u64 (deletes self) (deletes other);
  Ok (mkCounts c u d).

(** The cardinality sketch of [cardinality_estimator_safe]. *)
Class SketchOps := {
  Sketch : Type;
  sketch_default : Sketch;
  (** [Element::from_digest_with_prefix::<Sha256>(prefix, bytes)]. *)
  Element : Type;
  from_digest_with_prefix : string → string → Element;
  sketch_insert : Sketch → Element → Sketch;
  sketch_merge : Sketch → Sketch → Sketch;
  sketch_estimate : Sketch → N
}.

Section Counts.
Context `{SketchOps}.

(** [DbConcat<CommitCounts, EstimatedDidsValue>]. *)
Definition CountsValue : Type := DbConcat CommitCounts Sketch.
Definition counts_value_new (counts : CommitCounts) (dids : Sketch) : CountsValue := from_pair counts dids.
Definition counts (self : CountsValue) : CommitCounts := prefix self.
Definition dids (self : CountsValue) : Sketch := suffix self.
Definition counts_value_merge (self other : CountsValue) : EncodingResult CountsValue :=
  c ←? counts_merge (prefix self) (prefix other);
  Ok (from_pair c (sketch_merge (suffix self) (suffix other))).

Record JustCount : Type := mkJustCount { jc_creates : N; jc_updates : N; jc_deletes : N; jc_dids_estimate : N }.
Definition just_count_from (cv : CountsValue) : JustCount :=
  mkJustCount (creates (counts cv)) (updates (counts cv)) (deletes (counts cv)) (sketch_estimate (dids cv)).
End Counts.

Definition DeleteAccountQueueKey : Type := DbConcat (DbStaticStr "delete_acount") Cursor.
Definition delete_account_queue_key (cursor : Cursor) : DeleteAccountQueueKey := from_pair the_static_str cursor.

(** ** Ranks *)

Record KeyRank : Type := mkKeyRank { key_rank : N }.
#[global] Instance rank_db_bytes : DbBytes KeyRank := {
  to_db_bytes self := Ok (u64_to_be_bytes (key_rank self));
  from_db_bytes bytes := '(n, k) ←? be_u64_from_db_bytes bytes; Ok (mkKeyRank n, k)
}.

Record TruncatedCursor (MOD : N) : Type := mkTruncated { truncated : N }.
Arguments mkTruncated {MOD} _.
Arguments truncated {MOD} _.
#[global] Instance truncated_db_bytes MOD : DbBytes (TruncatedCursor MOD) := {
  to_db_bytes self := to_db_bytes (mkCursor (truncated self));
  from_db_bytes bytes :=
    '(cursor, n) ←? from_db_bytes (T := Cursor) bytes;
    me ←? Trunc.try_from_cursor MOD (cursor_us cursor);
    Ok (mkTruncated me, n)
}.
Definition HourTruncatedCursor : Type := TruncatedCursor Trunc.HOUR_IN_MICROS.
Definition WeekTruncatedCursor : Type := TruncatedCursor Trunc.WEEK_IN_MICROS.

Definition BucketedRankRecordsKey (P : string) (C : Type) : Type :=
  DbConcat (DbConcat (DbStaticStr P) C) (DbConcat KeyRank Nsid).

Section Ranks.
Context {P : string} {C : Type} `{DbBytes C}.
Definition ranked_key (cursor : C) (rank : KeyRank) (nsid : Nsid) : BucketedRankRecordsKey P C :=
  from_pair (from_pair the_static_str cursor) (from_pair rank nsid).
Definition with_rank (self : BucketedRankRecordsKey P C) (new_rank : KeyRank) : BucketedRankRecordsKey P C :=
  ranked_key (suffix (prefix self)) new_rank (suffix (suffix self)).
Definition ranked_start (cursor : C) : EncodingResult Bound :=
  b ←? from_prefix_to_db_bytes (from_pair the_static_str cursor : DbConcat (DbStaticStr P) C); Ok (Included b).
Definition ranked_end `{LsmTree} (cursor : C) : EncodingResult Bound :=
  b ←? prefix_range_end (from_pair the_static_str cursor : DbConcat (DbStaticStr P) C); Ok (Excluded b).
Definition ranked_collection (self : BucketedRankRecordsKey P C) : Nsid := suffix (suffix self).
Definition ranked_rank (self : BucketedRankRecordsKey P C) : N := key_rank (prefix (suffix self)).
End Ranks.

Definition HourlyRecordsKey : Type := BucketedRankRecordsKey "hourly_rank_records" HourTruncatedCursor.
Definition HourlyDidsKey : Type := BucketedRankRecordsKey "hourly_rank_dids" HourTruncatedCursor.
Definition WeeklyRecordsKey : Type := BucketedRankRecordsKey "weekly_rank_records" WeekTruncatedCursor.
Definition WeeklyDidsKey : Type := BucketedRankRecordsKey "weekly_rank_dids" WeekTruncatedCursor.

Definition AllTimeRankRecordsKey (P : string) : Type := DbConcat (DbStaticStr P) (DbConcat KeyRank Nsid).
Definition all_time_ranked_key {P} (rank : KeyRank) (nsid : Nsid) : AllTimeRankRecordsKey P :=
  from_pair the_static_str (from_pair rank nsid).
Definition all_time_with_rank {P} (self : AllTimeRankRecordsKey P) (new_rank : KeyRank) : AllTimeRankRecordsKey P :=
  all_time_ranked_key new_rank (suffix (suffix self)).
Definition AllTimeRecordsKey : Type := AllTimeRankRecordsKey "ever_rank_records".
Definition AllTimeDidsKey : Type := AllTimeRankRecordsKey "ever_rank_dids".

(** ** Rollups *)

(** Rollup keys by a prefix type [K] (hour, week or all time) and nsid. *)
Section Rollups.
Context {K : Type} `{DbBytes K, Atrium}.
Definition RollupKey : Type := DbConcat K Nsid.
Definition RollupPre : Type := DbConcat K RawBytes.
Definition rollup_new (k : K) (nsid : Nsid) : RollupKey := from_pair k nsid.
Definition new_nsid_prefix (k : K) (pre : string) : RollupPre := from_pair k (mkRaw pre).
Definition rollup_start (k : K) : EncodingResult Bound := b ←? from_prefix_to_db_bytes k; Ok (Included b).
Definition after_nsid (k : K) (nsid : Nsid) : EncodingResult Bound :=
  b ←? to_db_bytes (rollup_new k nsid); Ok (Excluded b).
Definition after_nsid_prefix (k : K) (pre : string) : EncodingResult Bound :=
  b ←? to_db_bytes (new_nsid_prefix k pre); Ok (Excluded b).
Definition rollup_end `{LsmTree} (k : K) : EncodingResult Bound := b ←? prefix_range_end k; Ok (Excluded b).
Definition nsid_prefix_end `{LsmTree} (k : K) (pre : string) : EncodingResult Bound :=
  b ←? as_prefix_range_end (new_nsid_prefix k pre); Ok (Excluded b).
End Rollups.
#[global] Arguments RollupKey : clear implicits.
#[global] Arguments RollupPre : clear implicits.

Definition HourlyRollupKeyHourPrefix : Type := DbConcat (DbStaticStr "hourly_counts") HourTruncatedCursor.
Definition HourlyRollupKey : Type := RollupKey HourlyRollupKeyHourPrefix.
Definition hourly_prefix (hour : HourTruncatedCursor) : HourlyRollupKeyHourPrefix := from_pair the_static_str hour.
Definition WeeklyRollupKeyWeekPrefix : Type := DbConcat (DbStaticStr "weekly_counts") WeekTruncatedCursor.
Definition WeeklyRollupKey : Type := RollupKey WeeklyRollupKeyWeekPrefix.
Definition weekly_prefix (week : WeekTruncatedCursor) : WeeklyRollupKeyWeekPrefix := from_pair the_static_str week.
Definition AllTimeRollupStaticPrefix : Type := DbStaticStr "ever_counts".
Definition AllTimeRollupKey : Type := RollupKey AllTimeRollupStaticPrefix.

(** ** Codecs *)

#[global] Instance rank_wf : WellFormed KeyRank := λ r, (key_rank r < u64_bound)%N.
#[global] Instance rank_prefix_codec : PrefixCodec KeyRank.
Proof.
  intros [n] Hn. exists (u64_to_be_bytes n).
  assert (Hlen : String.length (u64_to_be_bytes n) = 8) by apply be_bytes_length. split_and!.
  - done.
  - intros E. by rewrite E in Hlen.
  - intros rest. cbn [from_db_bytes rank_db_bytes]. rewrite be_u64_from_app by done. by rewrite Hlen.
Qed.
#[global] Instance rank_order : KeyOrder KeyRank := λ a b, (key_rank a ?= key_rank b)%N.
#[global] Instance rank_ordered : OrderedCodec KeyRank.
Proof. intros [a] [b] bx by' r s. apply (cursor_ordered (mkCursor a) (mkCursor b)). Qed.

#[global] Instance truncated_wf MOD : WellFormed (TruncatedCursor MOD) :=
  λ c, (truncated c mod MOD = 0)%N ∧ (truncated c < u64_bound)%N.
#[global] Instance truncated_prefix_codec MOD : PrefixCodec (TruncatedCursor MOD).
Proof.
  intros [n] [Hm Hn]. destruct (prefix_codec (mkCursor n) Hn) as (b & Hb & Hne & Hf). exists b. split_and!; [done|done|].
  intros rest. cbn [from_db_bytes truncated_db_bytes]. rewrite Hf. cbn [result_bind cursor_us].
  unfold Trunc.try_from_cursor, Trunc.try_from_raw_u64. simpl in Hm. by rewrite Hm.
Qed.
#[global] Instance truncated_order MOD : KeyOrder (TruncatedCursor MOD) := λ a b, (truncated a ?= truncated b)%N.
#[global] Instance truncated_ordered MOD : OrderedCodec (TruncatedCursor MOD).
Proof. intros [a] [b] bx by' r s [_ Ha] [_ Hb]. by apply (cursor_ordered (mkCursor a) (mkCursor b)). Qed.

(** Values that go through bincode ([UseBincodePlz], [SerdeBytes]). *)
Section BincodeValues.
Context `{SketchOps, Bincode2 CommitCounts, Bincode2 RecordLocationMeta, Bincode2 Sketch}.

#[global] Instance counts_db_bytes : DbBytes CommitCounts := {
  to_db_bytes := bincode_to_db_bytes; from_db_bytes := bincode_from_db_bytes }.
#[global] Instance meta_db_bytes : DbBytes RecordLocationMeta := {
  to_db_bytes := bincode_to_db_bytes; from_db_bytes := bincode_from_db_bytes }.
#[global] Instance sketch_db_bytes : DbBytes Sketch := {
  to_db_bytes := bincode_to_db_bytes; from_db_bytes := bincode_from_db_bytes }.

#[global] Instance counts_wf : WellFormed CommitCounts :=
  λ c, (creates c < u64_bound ∧ updates c < u64_bound ∧ deletes c < u64_bound)%N.
#[global] Instance meta_wf : WellFormed RecordLocationMeta :=
  λ m, (meta_cursor m < u64_bound)%N ∧ valid_utf8 (meta_rev m) = true ∧
       (N.of_nat (String.length (meta_rev m)) + 17 ≤ BINCODE_LIMIT)%N.
#[global] Instance sketch_wf : WellFormed Sketch := λ _, True.

Lemma bincode_codec {T} `{BL : Bincode2Laws T} (x : T) :
  wf x → ∃ b, bincode_to_db_bytes x = Ok b ∧ b ≠ "" ∧
    ∀ rest, bincode_from_db_bytes (b +:+ rest) = Ok (x, String.length b).
Proof.
  intros Hx. destruct (bincode2_rt x Hx) as (b & Hb & Hne & Hf). exists b.
  unfold bincode_to_db_bytes, bincode_from_db_bytes.
  rewrite Hb. split_and!; [done|done|]. intros rest. by rewrite Hf.
Qed.

Context `{!Bincode2Laws CommitCounts, !Bincode2Laws RecordLocationMeta, !Bincode2Laws Sketch}.
#[global] Instance counts_prefix_codec : PrefixCodec CommitCounts.
Proof. intros x Hx. by apply bincode_codec. Qed.
#[global] Instance meta_prefix_codec : PrefixCodec RecordLocationMeta.
Proof. intros x Hx. by apply bincode_codec. Qed.
#[global] Instance sketch_prefix_codec : PrefixCodec Sketch.
Proof. intros x Hx. by apply bincode_codec. Qed.
End BincodeValues.

(** A key or value that is written decodes completely to itself. *)
Definition roundtrips {T} `{DbBytes T} (x : T) : Prop := ∃ b, to_db_bytes x = Ok b ∧ db_complete b = Ok x.

Lemma static_ok s : str_contains NUL s = false → valid_utf8 s = true → wf (the_static_str : DbStaticStr s).
Proof. done. Qed.

Section Keys.
Context `{AL : AtriumLaws} `{BL : BincodeStrLaws}.

(** C34. Round trip: every key the store writes (the metadata keys, those of
    feeds, record locations, live counts and queued account deletions, the
    rollups of an hour, a week and all time, and their six rank indexes), built
    from valid identifiers, cursors and ranks, is encoded without error and
    decodes, to the last byte, to itself. *)
Theorem store_keys_roundtrip (nsid : Nsid) (did : Did) (rkey : RecordKey) (cursor : Cursor) (rank : KeyRank)
    (hour : HourTruncatedCursor) (week : WeekTruncatedCursor) :
  wf nsid → wf did → wf rkey → wf cursor → wf rank → wf hour → wf week →
  (roundtrips (the_static_str : DbStaticStr JetstreamCursorKey) ∧
   roundtrips (the_static_str : DbStaticStr SketchSecretKey) ∧
   roundtrips (the_static_str : DbStaticStr NewRollupCursorKey) ∧
   roundtrips (the_static_str : DbStaticStr TakeoffKey) ∧
   roundtrips (the_static_str : DbStaticStr JetstreamEndpointKey) ∧
   roundtrips (trim_collection_cursor_key nsid : DbConcat (DbStaticStr _) Nsid)) ∧
  (roundtrips (from_pair nsid cursor : DbConcat Nsid Cursor) ∧
   roundtrips (from_pair did (from_pair nsid rkey) : DbConcat Did (DbConcat Nsid RecordKey)) ∧
   roundtrips (live_counts_key cursor nsid : DbConcat (DbConcat (DbStaticStr _) Cursor) Nsid) ∧
   roundtrips (delete_account_queue_key cursor : DbConcat (DbStaticStr _) Cursor)) ∧
  (roundtrips (rollup_new (hourly_prefix hour) nsid : DbConcat (DbConcat (DbStaticStr _) (TruncatedCursor _)) Nsid) ∧
   roundtrips (rollup_new (weekly_prefix week) nsid : DbConcat (DbConcat (DbStaticStr _) (TruncatedCursor _)) Nsid) ∧
   roundtrips (rollup_new the_static_str nsid : DbConcat (DbStaticStr "ever_counts") Nsid)) ∧
  roundtrips (ranked_key hour rank nsid :
    DbConcat (DbConcat (DbStaticStr "hourly_rank_records") (TruncatedCursor _)) (DbConcat KeyRank Nsid)) ∧
  roundtrips (ranked_key hour rank nsid :
    DbConcat (DbConcat (DbStaticStr "hourly_rank_dids") (TruncatedCursor _)) (DbConcat KeyRank Nsid)) ∧
  roundtrips (ranked_key week rank nsid :
    DbConcat (DbConcat (DbStaticStr "weekly_rank_records") (TruncatedCursor _)) (DbConcat KeyRank Nsid)) ∧
  roundtrips (ranked_key week rank nsid :
    DbConcat (DbConcat (DbStaticStr "weekly_rank_dids") (TruncatedCursor _)) (DbConcat KeyRank Nsid)) ∧
  roundtrips (all_time_ranked_key rank nsid : DbConcat (DbStaticStr "ever_rank_records") (DbConcat KeyRank Nsid)) ∧
  roundtrips (all_time_ranked_key rank nsid : DbConcat (DbStaticStr "ever_rank_dids") (DbConcat KeyRank Nsid)).
Proof.
  intros Hn Hd Hrk Hc Hr Hh Hw. split_and!; apply db_complete_codec; repeat split; try done.
  all: apply Hh || apply Hw.
Qed.

(** Values: the feed entries, record locations and counts written to the
    store decode to themselves. *)
Theorem store_values_roundtrip `{SketchOps, Bincode2 CommitCounts, Bincode2 RecordLocationMeta, Bincode2 Sketch}
    `{!Bincode2Laws CommitCounts, !Bincode2Laws RecordLocationMeta, !Bincode2Laws Sketch}
    (did : Did) (rkey : RecordKey) (rev record : string) (meta : RecordLocationMeta) (c : CommitCounts) (sk : Sketch) :
  wf did → wf rkey → wf rev → wf meta → record ≠ "" → wf c →
  roundtrips (feed_val_from did rkey rev : DbConcat Did (DbConcat RecordKey string)) ∧
  roundtrips (from_pair meta (mkRaw record) : DbConcat RecordLocationMeta RawBytes) ∧
  roundtrips (counts_value_new c sk : DbConcat CommitCounts Sketch).
Proof.
  intros Hd Hrk Hrev Hm Hrec Hc. split; [|split].
  - apply db_complete_codec. split; [done|]. split; [done|exact Hrev].
  - apply db_complete_codec. split; [exact Hm|done].
  - apply db_complete_codec. split; [exact Hc|done].
Qed.

Context `{LL : LsmTreeLaws}.

(** [LiveCountsKey::range_from_cursor] selects exactly the live counts at or
    after the cursor. *)
Theorem live_counts_range (cursor c : Cursor) (nsid : Nsid) start stop key :
  wf cursor → wf c → wf nsid →
  range_from_cursor cursor = Ok (start, stop) →
  to_db_bytes (live_counts_key c nsid : DbConcat (DbConcat (DbStaticStr _) Cursor) Nsid) = Ok key →
  in_range start stop key ↔ (cursor_us cursor ≤ cursor_us c)%N.
Proof.
  intros Hcur Hc Hn Hrange Hkey. unfold range_from_cursor, range_to_prefix_end in Hrange.
  pose (P := from_pair (the_static_str : DbStaticStr "live_counts") cursor).
  pose (P' := from_pair (the_static_str : DbStaticStr "live_counts") c).
  assert (HP : wf P) by done. assert (HP' : wf P') by done.
  destruct (prefix_codec P HP) as (b & Hb & _), (prefix_codec P' HP') as (b' & Hb' & _).
  destruct (prefix_codec nsid Hn) as (n & Hnb & Hnne & _).
  destruct (prefix_codec (the_static_str : DbStaticStr "live_counts") (static_ok "live_counts" eq_refl eq_refl)) as (t & Ht & _).
  fold P in Hrange. rewrite Hb in Hrange. cbn [result_bind] in Hrange.
  unfold range_end, prefix_range_end, as_prefix_range_end in Hrange. simpl prefix in Hrange. rewrite Ht in Hrange.
  cbn [result_bind] in Hrange.
  rewrite (concat_to_bytes (live_counts_key c nsid : DbConcat (DbConcat (DbStaticStr _) Cursor) Nsid) b' n Hb' Hnb) in Hkey.
  injection Hkey as <-.
  (* the static prefix selects the family *)
  assert (Hts : t = "live_counts" +:+ String NUL "") by (vm_compute in Ht |- *; congruence).
  assert (Hff : str_forallb (λ c, (byte_n c =? 255)%N) (t +:+ "") = false) by (rewrite str_app_nil_r, Hts; done).
  assert (Hb'' : ∃ u, b' = t +:+ u).
  { unfold P' in Hb'. cbn [to_db_bytes concat_db_bytes] in Hb'. unfold concat_to_db_bytes in Hb'. cbn [prefix suffix] in Hb'.
    rewrite Ht in Hb'. simpl in Hb'. injection Hb' as <-. eauto. }
  destruct Hb'' as [u Hu].
  destruct (prefix_scan _ _ t t "" (u +:+ n) (static_ok "live_counts" eq_refl eq_refl) (static_ok "live_counts" eq_refl eq_refl) Ht Ht Hff)
    as (stop' & Hr' & Hin). rewrite str_app_nil_r in Hr', Hin. rewrite Hr' in Hrange. injection Hrange as <- <-.
  rewrite <- str_app_assoc, <- Hu in Hin.
  assert (Hin' : in_range t stop' (b' +:+ n)) by (by apply Hin).
  unfold in_range at 1. destruct Hin' as [_ ->].
  pose proof (ordered_codec P P' b b' "" n HP HP' Hb Hb') as Hord. rewrite str_app_nil_r in Hord. rewrite Hord.
  unfold key_compare, concat_order, key_compare, static_order, cursor_order. simpl.
  destruct (N.compare_spec (cursor_us cursor) (cursor_us c)) as [->| |]; simpl.
  - split; [lia|]. intros _. split; [|done]. by destruct n.
  - split; [lia|done].
  - split; [naive_solver|lia].
Qed.

(** The bytes of a bucket prefix contain the null byte of its literal. *)
Lemma bucket_not_ff {lit MOD} (c : TruncatedCursor MOD) b r :
  str_contains NUL lit = false → valid_utf8 lit = true →
  to_db_bytes (from_pair (the_static_str : DbStaticStr lit) c) = Ok b →
  str_forallb (λ c, (byte_n c =? 255)%N) (b +:+ r) = false.
Proof.
  intros Hl Hu Hb. cbn [to_db_bytes concat_db_bytes] in Hb. unfold concat_to_db_bytes in Hb. cbn [prefix suffix] in Hb.
  cbn [to_db_bytes static_db_bytes truncated_db_bytes cursor_db_bytes] in Hb. unfold string_to_db_bytes in Hb.
  rewrite Hl in Hb. cbn [result_bind] in Hb. injection Hb as <-.
  rewrite !str_app_assoc, str_app_cons. apply nul_not_all_ff.
Qed.

(** The scan bounds of a rank bucket select exactly the keys of that bucket,
    and within it keys sort by rank, then by nsid. *)
Theorem ranked_scan {lit MOD} (cursor : TruncatedCursor MOD) :
  str_contains NUL lit = false → valid_utf8 lit = true → wf cursor →
  ∃ lo hi,
    ranked_start (P := lit) cursor = Ok (Included lo) ∧ ranked_end (P := lit) cursor = Ok (Excluded hi) ∧
    (∀ c rank nsid key, wf c → wf rank → wf nsid →
       to_db_bytes (ranked_key c rank nsid : DbConcat (DbConcat (DbStaticStr lit) _) (DbConcat KeyRank Nsid)) = Ok key →
       in_range lo hi key ↔ c = cursor) ∧
    (∀ r1 n1 k1 r2 n2 k2, wf r1 → wf n1 → wf r2 → wf n2 →
       to_db_bytes (ranked_key cursor r1 n1 : DbConcat (DbConcat (DbStaticStr lit) _) (DbConcat KeyRank Nsid)) = Ok k1 →
       to_db_bytes (ranked_key cursor r2 n2 : DbConcat (DbConcat (DbStaticStr lit) _) (DbConcat KeyRank Nsid)) = Ok k2 →
       bytes_compare k1 k2 =
         then_compare (key_rank r1 ?= key_rank r2)%N (bytes_compare (nsid_str n1) (nsid_str n2))).
Proof.
  intros Hl Hu Hcur. pose (P := from_pair (the_static_str : DbStaticStr lit) cursor).
  assert (HP : wf P) by done. destruct (prefix_codec P HP) as (b & Hb & _).
  assert (Hff : str_forallb (λ c, (byte_n c =? 255)%N) (b +:+ "") = false) by (by eapply bucket_not_ff).
  destruct (prefix_to_range_spec (b +:+ "") Hff) as (stop & Hstop & _). rewrite str_app_nil_r in Hstop.
  exists b, stop. split_and!.
  - unfold ranked_start, from_prefix_to_db_bytes. fold P. by rewrite Hb.
  - unfold ranked_end, prefix_range_end, as_prefix_range_end. fold P. rewrite Hb. simpl. by rewrite Hstop.
  - intros c rank nsid key Hc Hrank Hn Hkey. pose (Q := from_pair (the_static_str : DbStaticStr lit) c).
    assert (HQ : wf Q) by done. destruct (prefix_codec Q HQ) as (q & Hq & _).
    destruct (prefix_codec (from_pair rank nsid) (conj Hrank Hn)) as (t & Ht & _).
    pose proof (concat_to_bytes (from_pair Q (from_pair rank nsid)) q t Hq Ht) as Hkey'.
    assert (key = q +:+ t) as -> by (pose proof (eq_trans (eq_sym Hkey) Hkey') as E; by injection E).
    destruct (prefix_scan P Q b q "" t HP HQ Hb Hq Hff) as (stop' & Hr & Hin).
    rewrite str_app_nil_r in Hr, Hin. rewrite Hstop in Hr. injection Hr as <-. rewrite Hin. split.
    + by intros [[= ->] _].
    + intros ->. split; [done|]. apply starts_with_spec. by exists t.
  - intros r1 n1 k1 r2 n2 k2 Hr1 Hn1 Hr2 Hn2 Hk1 Hk2.
    rewrite (ordered_keys _ _ _ _ (conj HP (conj Hr1 Hn1) : wf (ranked_key cursor r1 n1 :
      DbConcat (DbConcat (DbStaticStr lit) _) (DbConcat KeyRank Nsid))) (conj HP (conj Hr2 Hn2)) Hk1 Hk2).
    unfold key_compare, concat_order, key_compare, concat_order, key_compare, static_order, truncated_order. simpl.
    by rewrite N.compare_refl.
Qed.

(** The bounds for the children of an nsid prefix select exactly the rollup
    keys of that hour whose nsid starts with the prefix. *)
Theorem nsid_prefix_scan (hour : HourTruncatedCursor) (pre : string) :
  wf hour → str_contains NUL pre = false →
  ∃ lo hi,
    after_nsid_prefix (hourly_prefix hour : DbConcat (DbStaticStr _) (TruncatedCursor _)) pre = Ok (Excluded lo) ∧
    nsid_prefix_end (hourly_prefix hour : DbConcat (DbStaticStr _) (TruncatedCursor _)) pre = Ok (Excluded hi) ∧
    ∀ (h : HourTruncatedCursor) nsid key, wf h → wf nsid →
      to_db_bytes (rollup_new (hourly_prefix h) nsid :
        DbConcat (DbConcat (DbStaticStr _) (TruncatedCursor _)) Nsid) = Ok key →
      bytes_compare lo key = Lt ∧ bytes_compare key hi = Lt ↔ h = hour ∧ starts_with pre (nsid_str nsid) = true.
Proof.
  intros Hh Hpre. pose (P := from_pair (the_static_str : DbStaticStr "hourly_counts") hour).
  assert (HP : wf P) by done. destruct (prefix_codec P HP) as (b & Hb & _).
  assert (Hff : str_forallb (λ c, (byte_n c =? 255)%N) (b +:+ pre) = false)
    by exact (bucket_not_ff (lit := "hourly_counts") hour b pre eq_refl eq_refl Hb).
  destruct (prefix_to_range_spec (b +:+ pre) Hff) as (stop & Hstop & _).
  assert (Hto : to_db_bytes (from_pair P (mkRaw pre) : DbConcat _ RawBytes) = Ok (b +:+ pre)) by (by apply concat_to_bytes).
  exists (b +:+ pre), stop. split_and!.
  - exact (f_equal (λ r, b ←? r; Ok (Excluded b)) Hto).
  - assert (as_prefix_range_end (from_pair P (mkRaw pre) : DbConcat _ RawBytes) = Ok stop) as E.
    { unfold as_prefix_range_end. rewrite Hto. simpl. by rewrite Hstop. }
    exact (f_equal (λ r, b ←? r; Ok (Excluded b)) E).
  - intros h nsid key Hh' Hn Hkey. pose (Q := from_pair (the_static_str : DbStaticStr "hourly_counts") h).
    assert (HQ : wf Q) by done. destruct (prefix_codec Q HQ) as (q & Hq & _).
    destruct (nsid_no_nul _ Hn) as [Hnul _].
    assert (Ht : to_db_bytes nsid = Ok (nsid_str nsid +:+ String NUL "")).
    { cbn [to_db_bytes nsid_db_bytes]. unfold string_to_db_bytes. by rewrite Hnul. }
    pose proof (concat_to_bytes (from_pair Q nsid) q _ Hq Ht) as Hkey'.
    assert (key = q +:+ nsid_str nsid +:+ String NUL "") as -> by (pose proof (eq_trans (eq_sym Hkey) Hkey') as E; by injection E).
    destruct (prefix_scan P Q b q pre (nsid_str nsid +:+ String NUL "") HP HQ Hb Hq Hff) as (stop' & Hr & Hin).
    rewrite Hstop in Hr. injection Hr as <-.
    assert (Hsw : starts_with pre (nsid_str nsid +:+ String NUL "") = true ↔ starts_with pre (nsid_str nsid) = true).
    { by apply starts_with_nul. }
    rewrite Hsw in Hin. transitivity (P = Q ∧ starts_with pre (nsid_str nsid) = true); [|naive_solver].
    rewrite <- Hin. unfold in_range. split; [intros [-> ->]; done|]. intros [Hle ->]. split; [|done].
    destruct (bytes_compare _ _) eqn:E; [|done|done]. exfalso. apply bytes_compare_eq in E.
    destruct (prefix_codec_unique _ _ _ _ _ _ HP HQ Hb Hq E) as [_ ->].
    rewrite str_contains_app in Hpre. simpl in Hpre. by rewrite orb_true_r in Hpre.
Qed.
End Keys.

(** ** Concrete instances *)

Section Concrete.
#[local] Existing Instance plain_atrium.
#[local] Existing Instance plain_atrium_laws.
#[local] Existing Instance plain_bincode_str.
#[local] Existing Instance plain_bincode_str_laws.
#[local] Existing Instance plain_lsm.
#[local] Existing Instance plain_lsm_laws.

Definition sample_nsid : Nsid := mkNsid "a.b.c".
Definition sample_hour : HourTruncatedCursor := mkTruncated Trunc.HOUR_IN_MICROS.
Definition sample_week : WeekTruncatedCursor := mkTruncated Trunc.WEEK_IN_MICROS.

Lemma store_keys_roundtrip_witness :
  roundtrips (from_pair sample_nsid (mkCursor 7) : DbConcat Nsid Cursor).
Proof.
  refine (proj1 (proj1 (proj2 (store_keys_roundtrip sample_nsid (mkDid "did.x") (mkRecordKey "3l") (mkCursor 7)
    (mkKeyRank 9) sample_hour sample_week _ _ _ _ _ _ _)))); [reflexivity..|split; reflexivity|split; reflexivity].
Defined.

(** A sketch that is empty, counts as three numbers, metadata as a number, a
    flag and a string. *)
#[local] Instance plain_sketch : SketchOps := {|
  Sketch := unit; sketch_default := tt; Element := unit; from_digest_with_prefix _ _ := tt; sketch_insert s _ := s; sketch_merge s _ := s; sketch_estimate _ := 0%N |}.
#[local] Instance plain_sketch_bincode : Bincode2 Sketch := {
  encode_to_vec _ := Some "0";
  decode_from_slice bytes := match bytes with String _ _ => Some (tt : Sketch, 1) | EmptyString => None end }.
#[local] Instance plain_sketch_laws : Bincode2Laws Sketch.
Proof. intros [] _. exists "0". split_and!; [done|done|]. intros rest. by rewrite str_app_cons. Qed.

Definition take_u64 (bytes : string) : option (N * string) :=
  '(h, r) ← str_split_at 8 bytes; n ← u64_from_be_bytes h; Some (n, r).
Lemma take_u64_app n rest : (n < u64_bound)%N → take_u64 (u64_to_be_bytes n +:+ rest) = Some (n, rest).
Proof.
  intros Hn. unfold take_u64. rewrite (proj2 (str_split_at_Some 8 _ (u64_to_be_bytes n) rest)).
  - cbn [mbind option_bind]. by rewrite u64_be_roundtrip.
  - split; [done|apply be_bytes_length].
Qed.

#[local] Instance plain_counts_bincode : Bincode2 CommitCounts := {
  encode_to_vec c := Some (u64_to_be_bytes (creates c) +:+ u64_to_be_bytes (updates c) +:+ u64_to_be_bytes (deletes c));
  decode_from_slice bytes :=
    '(c, r) ← take_u64 bytes; '(u, r) ← take_u64 r; '(d, _) ← take_u64 r; Some (mkCounts c u d, 24) }.
#[local] Instance plain_counts_laws : Bincode2Laws CommitCounts.
Proof.
  intros [c u d] (Hc & Hu & Hd). simpl in Hc, Hu, Hd. eexists. cbn [encode_to_vec decode_from_slice plain_counts_bincode creates updates deletes].
  assert (Hlen : ∀ n, String.length (u64_to_be_bytes n) = 8) by (intros; apply be_bytes_length).
  split_and!; [done| |].
  - intros [E _]%str_app_empty. specialize (Hlen c). by rewrite E in Hlen.
  - intros rest. rewrite !str_app_assoc, take_u64_app by done. cbn [mbind option_bind].
    rewrite take_u64_app by done. cbn [mbind option_bind]. rewrite take_u64_app by done. cbn [mbind option_bind].
    by rewrite !str_length_app, !Hlen.
Qed.

#[local] Instance plain_meta_bincode : Bincode2 RecordLocationMeta := {
  encode_to_vec m := b ← encode_to_vec (meta_rev m);
    Some (u64_to_be_bytes (meta_cursor m) +:+ String (if meta_is_update m then "1" else "0") b);
  decode_from_slice bytes :=
    '(c, r) ← take_u64 bytes;
    match r with
    | String f r => '(s, n) ← decode_from_slice r; Some (mkMeta c (bool_decide (f = "1"%char)) s, 9 + n)
    | EmptyString => None
    end }.
#[local] Instance plain_meta_laws : Bincode2Laws RecordLocationMeta.
Proof.
  intros [c f s] (Hc & Hu & Hs). simpl in Hc, Hu, Hs. destruct (bincode_str_rt s ltac:(lia)) as (b & Hb & Hne & Hrt).
  cbn [encode_to_vec decode_from_slice plain_meta_bincode meta_rev meta_cursor meta_is_update]. rewrite Hb.
  cbn [mbind option_bind]. eexists. split_and!; [done| |].
  - intros [_ E]%str_app_empty. done.
  - intros rest. rewrite str_app_assoc, str_app_cons, take_u64_app by done. cbn [mbind option_bind].
    rewrite Hrt. cbn [mbind option_bind]. rewrite str_length_app.
    assert (String.length (u64_to_be_bytes c) = 8) as -> by apply be_bytes_length. by destruct f.
Qed.

Lemma store_values_roundtrip_witness :
  roundtrips (T := DbConcat CommitCounts Sketch) (counts_value_new (mkCounts 1 2 3) (tt : Sketch)).
Proof.
  refine (proj2 (proj2 (store_values_roundtrip (mkDid "did.x") (mkRecordKey "3l") "rev" "{}" (mkMeta 7 true "rev")
    (mkCounts 1 2 3) tt _ _ _ _ _ _))).
  - reflexivity.
  - reflexivity.
  - split; reflexivity.
  - split; [reflexivity|split; [reflexivity|vm_compute; discriminate]].
  - discriminate.
  - repeat split; reflexivity.
Defined.

Lemma live_counts_range_witness :
  ∃ start stop key, range_from_cursor (mkCursor 5) = Ok (start, stop) ∧
    to_db_bytes (live_counts_key (mkCursor 7) sample_nsid : DbConcat (DbConcat (DbStaticStr _) Cursor) Nsid) = Ok key ∧
    in_range start stop key.
Proof.
  eexists _, _, _. split; [vm_compute; reflexivity|]. split; [vm_compute; reflexivity|].
  apply (live_counts_range (mkCursor 5) (mkCursor 7) sample_nsid);
    [reflexivity|reflexivity|reflexivity|vm_compute; reflexivity|vm_compute; reflexivity|discriminate].
Defined.

Lemma ranked_scan_witness :
  ∃ lo hi, ranked_start (P := "hourly_rank_dids") sample_hour = Ok (Included lo) ∧
    ranked_end (P := "hourly_rank_dids") sample_hour = Ok (Excluded hi).
Proof.
  destruct (ranked_scan (lit := "hourly_rank_dids") sample_hour eq_refl eq_refl (conj eq_refl eq_refl))
    as (lo & hi & H1 & H2 & _).
  exists lo, hi. exact (conj H1 H2).
Defined.

Lemma nsid_prefix_scan_witness :
  ∃ lo hi, after_nsid_prefix (hourly_prefix sample_hour : DbConcat (DbStaticStr _) (TruncatedCursor _)) "a.b."
      = Ok (Excluded lo) ∧
    nsid_prefix_end (hourly_prefix sample_hour : DbConcat (DbStaticStr _) (TruncatedCursor _)) "a.b."
      = Ok (Excluded hi).
Proof.
  destruct (nsid_prefix_scan sample_hour "a.b." (conj eq_refl eq_refl) eq_refl) as (lo & hi & H1 & H2 & _).
  exists lo, hi. exact (conj H1 H2).
Defined.
End Concrete.

End Store.
