(* ===== verification/UfosRollupKeys.v ===== *)
(** * ufos: the rollup keys of weeks and of all time (ufos/src/store_types.rs)

    [WeeklyRollupKey] and [AllTimeRollupKey] have the operations of
    [HourlyRollupKey] over other prefixes.  Shown here: a scan from the start,
    from after a collection, or over the children of a prefix, to the matching
    end, finds the keys of that week (or of all time) and of those collections,
    and no other. *)

From S2P Require Import Prelude RustStr Bytes UfosCursor UfosDbTypes.
From S2P Require Import UfosStoreTypes.
Import Db Store.

Module RollupKeys.
Abbreviation Week := (DbConcat (DbStaticStr "weekly_counts") (TruncatedCursor Trunc.WEEK_IN_MICROS)).
Abbreviation Ever := (DbStaticStr "ever_counts").

Section Keys.
Context `{Atrium} `{LsmTree}.

(** ** WeeklyRollupKey *)

Definition weekly_new (cursor : WeekTruncatedCursor) (nsid : Nsid) : DbConcat Week Nsid := rollup_new (weekly_prefix cursor) nsid.
Definition weekly_new_nsid_prefix (cursor : WeekTruncatedCursor) (pre : string) : DbConcat Week RawBytes :=
  new_nsid_prefix (weekly_prefix cursor) pre.
Definition weekly_cursor (self : DbConcat Week Nsid) : WeekTruncatedCursor := suffix (prefix self).
Definition weekly_start (week : WeekTruncatedCursor) : EncodingResult Bound := rollup_start (weekly_prefix week : Week).
Definition weekly_after_nsid (week : WeekTruncatedCursor) (nsid : Nsid) : EncodingResult Bound := after_nsid (weekly_prefix week : Week) nsid.
Definition weekly_after_nsid_prefix (week : WeekTruncatedCursor) (pre : string) : EncodingResult Bound :=
  after_nsid_prefix (weekly_prefix week : Week) pre.
Definition weekly_end (week : WeekTruncatedCursor) : EncodingResult Bound := rollup_end (weekly_prefix week : Week).
Definition weekly_nsid_prefix_end (week : WeekTruncatedCursor) (pre : string) : EncodingResult Bound :=
  nsid_prefix_end (weekly_prefix week : Week) pre.
Definition weekly_collection (self : DbConcat Week Nsid) : Nsid := suffix self.

(** ** AllTimeRollupKey *)

Definition all_time_new (nsid : Nsid) : DbConcat Ever Nsid := rollup_new the_static_str nsid.
Definition all_time_new_nsid_prefix (pre : string) : DbConcat Ever RawBytes := new_nsid_prefix the_static_str pre.
Definition all_time_start : EncodingResult Bound := rollup_start (the_static_str : Ever).
Definition all_time_after_nsid (nsid : Nsid) : EncodingResult Bound := after_nsid (the_static_str : Ever) nsid.
Definition all_time_after_nsid_prefix (pre : string) : EncodingResult Bound := after_nsid_prefix (the_static_str : Ever) pre.
Definition all_time_end : EncodingResult Bound := rollup_end (the_static_str : Ever).
Definition all_time_nsid_prefix_end (pre : string) : EncodingResult Bound := nsid_prefix_end (the_static_str : Ever) pre.
Definition all_time_collection (self : DbConcat Ever Nsid) : Nsid := suffix self.

(** ** AllTimeRankRecordsKey *)

Definition all_time_count {P} (self : DbConcat (DbStaticStr P) (DbConcat KeyRank Nsid)) : N := key_rank (prefix (suffix self)).
Definition all_time_rank_start (P : string) : EncodingResult Bound :=
  b ←? from_prefix_to_db_bytes (the_static_str : DbStaticStr P); Ok (Included b).
Definition all_time_rank_end (P : string) : EncodingResult Bound :=
  b ←? prefix_range_end (the_static_str : DbStaticStr P); Ok (Excluded b).
Definition all_time_rank_collection {P} (self : DbConcat (DbStaticStr P) (DbConcat KeyRank Nsid)) : Nsid := suffix (suffix self).
Definition all_time_rank {P} (self : DbConcat (DbStaticStr P) (DbConcat KeyRank Nsid)) : N := key_rank (prefix (suffix self)).
End Keys.

(** ** Scans *)

(** A key within bounds. *)
Definition within (lo hi : Bound) (key : string) : Prop :=
  match lo with Included b => bytes_compare b key ≠ Gt | Excluded b => bytes_compare b key = Lt | Unbounded => True end ∧
  match hi with Included b => bytes_compare key b ≠ Gt | Excluded b => bytes_compare key b = Lt | Unbounded => True end.

Section Scans.
Context `{AL : AtriumLaws} `{BL : BincodeStrLaws} `{LL : LsmTreeLaws}.
(** Rollup keys over any prefix whose bytes are not all [0xff]. *)
Section Generic.
Context {K : Type} `{DbBytes K, WellFormed K, !PrefixCodec K, KeyOrder K, !OrderedCodec K}.

Record scans (k : K) : Prop := {
  sc_all : ∃ lo hi, rollup_start k = Ok lo ∧ rollup_end k = Ok hi ∧
    (∀ k' nsid key, wf k' → wf nsid → to_db_bytes (from_pair k' nsid : DbConcat K Nsid) = Ok key → within lo hi key ↔ k' = k) ∧
    (∀ n, wf n → ∃ after, after_nsid k n = Ok after ∧
       ∀ k' nsid key, wf k' → wf nsid → to_db_bytes (from_pair k' nsid : DbConcat K Nsid) = Ok key →
         within after hi key ↔ k' = k ∧ bytes_compare (nsid_str n) (nsid_str nsid) = Lt);
  sc_children pre : str_contains NUL pre = false →
    ∃ lo hi, after_nsid_prefix k pre = Ok lo ∧ nsid_prefix_end k pre = Ok hi ∧
      ∀ k' nsid key, wf k' → wf nsid → to_db_bytes (from_pair k' nsid : DbConcat K Nsid) = Ok key →
        within lo hi key ↔ k' = k ∧ starts_with pre (nsid_str nsid) = true
}.

Lemma nsid_bytes_nul (n : Nsid) : wf n → to_db_bytes n = Ok (nsid_str n +:+ String NUL "").
Proof. intros Hn. destruct (nsid_no_nul _ Hn) as [Hnul _]. cbn [to_db_bytes nsid_db_bytes]. unfold string_to_db_bytes. by rewrite Hnul. Qed.

Lemma key_self k : wf k → key_compare k k = Eq.
Proof.
  intros Hk. destruct (prefix_codec k Hk) as (b & Hb & _). rewrite <- (ordered_keys k k b b Hk Hk Hb Hb).
  clear Hb. induction b as [|c b IH]; [done|]. simpl. by rewrite N.compare_refl.
Qed.

Lemma rollup_scans k b :
  wf k → to_db_bytes k = Ok b → (∀ r, str_forallb (λ c, (byte_n c =? 255)%N) (b +:+ r) = false) → scans k.
Proof.
  intros Hk Hb Hff. split.
  - destruct (prefix_to_range_spec (b +:+ "") (Hff "")) as (stop & Hstop & _). rewrite str_app_nil_r in Hstop.
    exists (Included b), (Excluded stop). split_and!.
    + unfold rollup_start, from_prefix_to_db_bytes. by rewrite Hb.
    + unfold rollup_end, prefix_range_end, as_prefix_range_end. rewrite Hb. simpl. by rewrite Hstop.
    + intros k' nsid key Hk' Hn Hkey. destruct (prefix_codec k' Hk') as (q & Hq & _).
      rewrite (concat_to_bytes (from_pair k' nsid) q _ Hq (nsid_bytes_nul _ Hn)) in Hkey. injection Hkey as <-.
      destruct (prefix_scan k k' b q "" (nsid_str nsid +:+ String NUL "") Hk Hk' Hb Hq (Hff "")) as (stop' & Hr & Hin).
      rewrite str_app_nil_r in Hr, Hin. rewrite Hstop in Hr. injection Hr as <-. unfold within. fold (in_range b stop (q +:+ nsid_str nsid +:+ String NUL "")).
      rewrite Hin. split; [by intros [-> _]|intros ->; split; [done|by apply starts_with_spec; eexists]].
    + intros n Hwn. eexists. split.
      { exact (f_equal (λ r, b ←? r; Ok (Excluded b)) (concat_to_bytes (from_pair k n) b _ Hb (nsid_bytes_nul _ Hwn))). }
      intros k' nsid key Hk' Hn Hkey. destruct (prefix_codec k' Hk') as (q & Hq & _).
      rewrite (concat_to_bytes (from_pair k' nsid) q _ Hq (nsid_bytes_nul _ Hn)) in Hkey. injection Hkey as <-.
      destruct (prefix_scan k k' b q "" (nsid_str nsid +:+ String NUL "") Hk Hk' Hb Hq (Hff "")) as (stop' & Hr & Hin).
      rewrite str_app_nil_r in Hr, Hin. rewrite Hstop in Hr. injection Hr as <-.
      pose proof (ordered_codec k k' b q (nsid_str n +:+ String NUL "") (nsid_str nsid +:+ String NUL "") Hk Hk' Hb Hq) as Ho1.
      pose proof (ordered_codec k k' b q "" (nsid_str nsid +:+ String NUL "") Hk Hk' Hb Hq) as Ho2. rewrite str_app_nil_r in Ho2.
      unfold within. unfold in_range in Hin. rewrite Ho1. rewrite Ho2 in Hin.
      assert (Hnn : bytes_compare (nsid_str n +:+ String NUL "") (nsid_str nsid +:+ String NUL "") = bytes_compare (nsid_str n) (nsid_str nsid)).
      { rewrite (ordered_keys n nsid _ _ Hwn Hn (nsid_bytes_nul _ Hwn) (nsid_bytes_nul _ Hn)). done. }
      rewrite Hnn. clear Ho1 Ho2 Hnn. split.
      * intros [Hlt Hhi]. assert (k = k') as <-.
        { apply Hin. split; [|done]. destruct (key_compare k k'); cbn [then_compare] in *; [|done|done].
          by destruct (nsid_str nsid). }
        rewrite key_self in Hlt by done. done.
      * intros [-> Hlt]. rewrite key_self in * by done. cbn [then_compare]. split; [done|].
        apply (proj2 Hin). split; [done|]. apply starts_with_spec. by eexists.
  - intros pre Hpre. destruct (prefix_to_range_spec (b +:+ pre) (Hff pre)) as (stop & Hstop & _).
    assert (Hto : to_db_bytes (from_pair k (mkRaw pre) : DbConcat _ RawBytes) = Ok (b +:+ pre)) by (by apply concat_to_bytes).
    exists (Excluded (b +:+ pre)), (Excluded stop). split_and!.
    + exact (f_equal (λ r, b ←? r; Ok (Excluded b)) Hto).
    + assert (E : as_prefix_range_end (from_pair k (mkRaw pre) : DbConcat _ RawBytes) = Ok stop).
      { unfold as_prefix_range_end. rewrite Hto. simpl. by rewrite Hstop. }
      exact (f_equal (λ r, b ←? r; Ok (Excluded b)) E).
    + intros k' nsid key Hk' Hn Hkey. destruct (prefix_codec k' Hk') as (q & Hq & _).
      rewrite (concat_to_bytes (from_pair k' nsid) q _ Hq (nsid_bytes_nul _ Hn)) in Hkey. injection Hkey as <-.
      destruct (prefix_scan k k' b q pre (nsid_str nsid +:+ String NUL "") Hk Hk' Hb Hq (Hff pre)) as (stop' & Hr & Hin).
      rewrite Hstop in Hr. injection Hr as <-. rewrite (starts_with_nul _ _ Hpre) in Hin.
      transitivity (k = k' ∧ starts_with pre (nsid_str nsid) = true); [|naive_solver].
      rewrite <- Hin. unfold within, in_range. split; [intros [-> ->]; done|]. intros [Hle ->]. split; [|done].
      destruct (bytes_compare _ _) eqn:E; [|done|done]. exfalso. apply bytes_compare_eq in E.
      destruct (prefix_codec_unique _ _ _ _ _ _ Hk Hk' Hb Hq E) as [_ ->].
      rewrite str_contains_app in Hpre. simpl in Hpre. by rewrite orb_true_r in Hpre.
Qed.
End Generic.

(** The scans of a week and of all time select what they are for. *)
Theorem week_scans (week : WeekTruncatedCursor) : wf week → scans (weekly_prefix week : Week).
Proof.
  intros Hw. assert (HP : wf (weekly_prefix week : Week)) by done. destruct (prefix_codec _ HP) as (b & Hb & _).
  apply (rollup_scans _ b HP Hb). intros r. exact (bucket_not_ff (lit := "weekly_counts") week b r eq_refl eq_refl Hb).
Qed.

Theorem ever_scans : scans (the_static_str : Ever).
Proof.
  apply (rollup_scans _ ("ever_counts" +:+ String NUL "")); [done|done|]. intros r. rewrite str_app_assoc. apply nul_not_all_ff.
Qed.

Theorem weekly_scan_exact (week : WeekTruncatedCursor) : wf week →
  ∃ lo hi, weekly_start week = Ok lo ∧ weekly_end week = Ok hi ∧
    (∀ w nsid key, wf w → wf nsid → to_db_bytes (weekly_new w nsid) = Ok key →
       within lo hi key ↔ weekly_cursor (weekly_new w nsid) = week) ∧
    ∀ n, wf n → ∃ after, weekly_after_nsid week n = Ok after ∧
      ∀ w nsid key, wf w → wf nsid → to_db_bytes (weekly_new w nsid) = Ok key →
        within after hi key ↔ weekly_cursor (weekly_new w nsid) = week ∧
          bytes_compare (nsid_str n) (nsid_str (weekly_collection (weekly_new w nsid))) = Lt.
Proof.
  intros Hw. destruct (sc_all _ (week_scans week Hw)) as (lo & hi & Hlo & Hhi & Hall & Hafter). exists lo, hi. split_and!; [done|done| |].
  - intros w nsid key Hw' Hn Hkey. rewrite (Hall (weekly_prefix w) nsid key (conj (static_ok "weekly_counts" eq_refl eq_refl) Hw') Hn Hkey). unfold weekly_prefix. cbn. naive_solver.
  - intros n Hn. destruct (Hafter n Hn) as (after & Ha & Hin). exists after. split; [done|]. intros w nsid key Hw' Hn' Hkey.
    rewrite (Hin (weekly_prefix w) nsid key (conj (static_ok "weekly_counts" eq_refl eq_refl) Hw') Hn' Hkey). unfold weekly_prefix. cbn. naive_solver.
Qed.
End Scans.
End RollupKeys.
