(* ===== verification/UfosBatch.v ===== *)
(** * ufos: batching commits (ufos/src/lib.rs, ufos/src/consumer.rs)

    [CollectionCommits] keeps the commits of one collection in a bounded list
    where new commits displace old creates; [EventBatch] keeps one per
    collection; the [Batcher] fills batches from jetstream events and sends
    them to the writer.  The theorems say that the bounded insert is total and
    lossless for updates and deletes, and that the batcher loses no account
    removal and no update or delete on the way to the queue. *)

From Stdlib Require Import Sorted.
From S2P Require Import Prelude RustStr Bytes UfosCursor UfosDbTypes.
From S2P Require Import UfosStoreTypes.
Import Store.

(** ** Commits *)

Inductive CommitAction : Type :=
  | Put (record : string) (is_update : bool)
  | Cut.

Definition is_create (a : CommitAction) : bool :=
  match a with Put _ is_update => negb is_update | Cut => false end.

Record UFOsCommit : Type := mkCommit {
  c_cursor : Cursor;
  c_did : Did;
  c_rkey : RecordKey;
  c_rev : string;
  c_action : CommitAction
}.

#[global] Instance CommitAction_eq_dec : EqDecision CommitAction.
Proof. solve_decision. Defined.
#[global] Instance UFOsCommit_eq_dec : EqDecision UFOsCommit.
Proof. solve_decision. Defined.

(** jetstream/src/events.rs: the events. *)
Inductive CommitOp : Type := OpCreate | OpUpdate | OpDelete.

Record CommitEvent : Type := mkCommitEvent {
  ce_collection : Nsid;
  ce_rkey : RecordKey;
  ce_rev : string;
  ce_operation : CommitOp;
  ce_record : option string;
  ce_cid : option string
}.

Inductive EventKind : Type := KCommit | KIdentity | KAccount.

Record JetstreamEvent : Type := mkEvent {
  ev_cursor : Cursor;
  ev_did : Did;
  ev_kind : EventKind;
  ev_commit : option CommitEvent;
  ev_account_active : option bool
}.

Inductive FirehoseEventError : Type :=
  | CruMissingRecord
  | AccountEventMissingAccount
  | CommitEventMissingCommit.

Definition from_commit_info (commit : CommitEvent) (did : Did) (cursor : Cursor)
    : result FirehoseEventError (UFOsCommit * Nsid) :=
  action ←? match ce_operation commit with
    | OpDelete => Ok Cut
    | cru =>
        match ce_record commit with
        | Some record => Ok (Put record (match cru with OpUpdate => true | _ => false end))
        | None => Err CruMissingRecord
        end
    end;
  Ok (mkCommit cursor did (ce_rkey commit) (ce_rev commit) action, ce_collection commit).

Inductive BatchInsertError : Type :=
  | BatchFull (commit : UFOsCommit)
  | BatchOverflow (head : nat)
  | BatchForever.

Record DeleteAccount : Type := mkDelete { del_did : Did; del_cursor : Cursor }.

Module Batch.
Section Batch.
Context `{SketchOps}.

Definition did_element (sketch_secret : string) (did : Did) : Element :=
  from_digest_with_prefix sketch_secret (did_str did).

(** ** CollectionCommits *)

Record CollectionCommits : Type := mkCC {
  cc_creates : nat;
  cc_updates : nat;
  cc_deletes : nat;
  cc_dids_estimate : Sketch;
  cc_commits : list UFOsCommit;
  cc_head : nat
}.

Definition cc_default : CollectionCommits := mkCC 0 0 0 sketch_default [] 0.

Definition advance_head (LIMIT head : nat) : nat :=
  let head := S head in if decide (LIMIT < head) then 0 else head.

(** The displacement loop: the list and the head after it.  It visits a head at
    most once, so [S (S LIMIT)] turns are enough. *)
Fixpoint displace (LIMIT fuel : nat) (commits : list UFOsCommit) (head head_started_at : nat) (commit : UFOsCommit)
    : list UFOsCommit * nat * result BatchInsertError () :=
  match fuel with
  | O => (commits, head, Err BatchForever)
  | S fuel =>
      match commits !! head with
      | None => (commits, head, Err (BatchOverflow head))
      | Some candidate =>
          if is_create (c_action candidate) then (<[head := commit]> commits, head, Ok ())
          else
            let head := advance_head LIMIT head in
            if decide (head = head_started_at) then (commits, head, Err BatchForever)
            else displace LIMIT fuel commits head head_started_at commit
      end
  end.

(** The whole insert: the new state, also on errors, and the result. *)
Definition truncating_insert (LIMIT : nat) (self : CollectionCommits) (commit : UFOsCommit) (sketch_secret : string)
    : CollectionCommits * result BatchInsertError () :=
  if decide (cc_updates self + cc_deletes self = LIMIT) then (self, Err (BatchFull commit))
  else
    let dids := sketch_insert (cc_dids_estimate self) (did_element sketch_secret (c_did commit)) in
    let '(cr, up, de) :=
      match c_action commit with
      | Put _ false => (cc_creates self + 1, cc_updates self, cc_deletes self)
      | Put _ true => (cc_creates self, cc_updates self + 1, cc_deletes self)
      | Cut => (cc_creates self, cc_updates self, cc_deletes self + 1)
      end in
    if decide (length (cc_commits self) < LIMIT) then
      (mkCC cr up de dids (cc_commits self ++ [commit]) (cc_head self), Ok ())
    else
      let '(commits, head, r) :=
        displace LIMIT (S (S LIMIT)) (cc_commits self) (cc_head self) (cc_head self) commit in
      (mkCC cr up de dids commits head, r).

(** ** EventBatch *)

Record EventBatch : Type := mkBatch {
  commits_by_nsid : gmap string CollectionCommits;
  account_removes : list DeleteAccount
}.

Definition batch_default : EventBatch := mkBatch ∅ [].

Definition insert_commit_by_nsid (LIMIT : nat) (self : EventBatch) (collection : Nsid) (commit : UFOsCommit)
    (max_collections : nat) (sketch_secret : string) : EventBatch * result BatchInsertError () :=
  let m := commits_by_nsid self in
  let k := nsid_str collection in
  if bool_decide (m !! k = None) && (max_collections <=? size m) then (self, Err (BatchFull commit))
  else
    let '(cc, r) := truncating_insert LIMIT (default cc_default (m !! k)) commit sketch_secret in
    (mkBatch (<[k := cc]> m) (account_removes self), r).

Definition total_collections (self : EventBatch) : nat := size (commits_by_nsid self).

Definition estimate_dids (self : EventBatch) : N :=
  sketch_estimate (fold_left (λ est cc, sketch_merge est (cc_dids_estimate cc))
    (map snd (map_to_list (commits_by_nsid self))) sketch_default).

(** [oldest] in the source: the newest cursor so far. *)
Definition later (oldest c : N) : N := if (oldest <? c)%N then c else oldest.

Definition latest_cursor (self : EventBatch) : option Cursor :=
  let newest := fold_left (λ o cc, fold_left (λ o c, later o (cursor_us (c_cursor c))) (cc_commits cc) o)
                  (map snd (map_to_list (commits_by_nsid self))) 0%N in
  let newest := match last (account_removes self) with
    | Some del => later newest (cursor_us (del_cursor del))
    | None => newest
    end in
  if (0 <? newest)%N then Some (mkCursor newest) else None.

Definition is_empty (self : EventBatch) : bool :=
  bool_decide (commits_by_nsid self = ∅) && bool_decide (length (account_removes self) = 0).

(** ** consumer.rs: the batcher *)

Definition MAX_BATCHED_RECORDS : nat := 128.
Definition MAX_ACCOUNT_REMOVES : nat := 1024.
Definition MAX_BATCHED_COLLECTIONS : nat := 64.
Definition MIN_BATCH_SPAN_MICROS : N := 2000000.
Definition MAX_BATCH_SPAN_MICROS : N := 60000000.

(** [sent]: the batches handed to the queue so far, oldest first. *)
Record Batcher : Type := mkBatcher {
  initial_cursor : option Cursor;
  batch : EventBatch;
  sketch_secret : string;
  sent : list EventBatch
}.

(** What the queue does while an event is handled. *)
Record Queue : Type := mkQueue {
  accepts : bool;          (* [send_timeout] succeeds *)
  queue_is_empty : bool    (* [capacity() == BATCH_QUEUE_SIZE] *)
}.

Inductive BatcherError : Type :=
  | Firehose (e : FirehoseEventError)
  | Insert (e : BatchInsertError)
  | TimeWentBackwards
  | SendFailed.

Definition lift_firehose {A} (r : result FirehoseEventError A) : result BatcherError A :=
  match r with Ok a => Ok a | Err e => Err (Firehose e) end.

(** [later_.duration_since(earlier)], in microseconds. *)
Definition duration_since (self earlier : Cursor) : result BatcherError N :=
  if (cursor_us self <? cursor_us earlier)%N then Err TimeWentBackwards
  else Ok (cursor_us self - cursor_us earlier)%N.

(** [mem::take] of the current batch, then the send. *)
Definition send_current_batch_now (q : Queue) (self : Batcher) : result BatcherError Batcher :=
  if accepts q then Ok (mkBatcher None batch_default (sketch_secret self) (sent self ++ [batch self]))
  else Err SendFailed.

Definition with_batch (self : Batcher) (b : EventBatch) : Batcher :=
  mkBatcher (initial_cursor self) b (sketch_secret self) (sent self).

Definition handle_commit (q : Queue) (self : Batcher) (commit : UFOsCommit) (collection : Nsid)
    : result BatcherError Batcher :=
  let '(b, optimistic_res) := insert_commit_by_nsid MAX_BATCHED_RECORDS (batch self) collection commit
                                MAX_BATCHED_COLLECTIONS (sketch_secret self) in
  let self := with_batch self b in
  match optimistic_res with
  | Err (BatchFull commit) =>
      self ←? send_current_batch_now q self;
      let '(b, r) := insert_commit_by_nsid MAX_BATCHED_RECORDS (batch self) collection commit
                       MAX_BATCHED_COLLECTIONS (sketch_secret self) in
      match r with Ok _ => Ok (with_batch self b) | Err e => Err (Insert e) end
  | Err e => Err (Insert e)
  | Ok _ => Ok self
  end.

Definition handle_delete_account (q : Queue) (self : Batcher) (did : Did) (cursor : Cursor)
    : result BatcherError Batcher :=
  self ←? if decide (MAX_ACCOUNT_REMOVES ≤ length (account_removes (batch self)))
          then send_current_batch_now q self else Ok self;
  Ok (with_batch self (mkBatch (commits_by_nsid (batch self)) (account_removes (batch self) ++ [mkDelete did cursor]))).

Definition no_events_step (q : Queue) (self : Batcher) : result BatcherError Batcher :=
  if is_empty (batch self) then Ok self else send_current_batch_now q self.

(** First part of [handle_event]: the span of the batch. *)
Definition check_span (q : Queue) (self : Batcher) (event : JetstreamEvent) : result BatcherError Batcher :=
  match initial_cursor self with
  | Some earliest =>
      d ←? duration_since (ev_cursor event) earliest;
      if (MAX_BATCH_SPAN_MICROS <? d)%N then send_current_batch_now q self else Ok self
  | None => Ok (mkBatcher (Some (ev_cursor event)) (batch self) (sketch_secret self) (sent self))
  end.

Definition apply_event (q : Queue) (self : Batcher) (event : JetstreamEvent) : result BatcherError Batcher :=
  match ev_kind event with
  | KCommit =>
      match ev_commit event with
      | None => Err (Firehose CommitEventMissingCommit)
      | Some commit =>
          '(commit, nsid) ←? lift_firehose (from_commit_info commit (ev_did event) (ev_cursor event));
          handle_commit q self commit nsid
      end
  | KAccount =>
      match ev_account_active event with
      | None => Err (Firehose AccountEventMissingAccount)
      | Some active =>
          if (active : bool) then Ok self else handle_delete_account q self (ev_did event) (ev_cursor event)
      end
  | KIdentity => Ok self
  end.

(** Last part: send early when the queue is empty. *)
Definition send_if_idle (q : Queue) (self : Batcher) (event : JetstreamEvent) : result BatcherError Batcher :=
  match initial_cursor self with
  | Some earliest =>
      d ←? duration_since (ev_cursor event) earliest;
      if (MIN_BATCH_SPAN_MICROS <? d)%N && queue_is_empty q then send_current_batch_now q self else Ok self
  | None => Ok self
  end.

Definition handle_event (q : Queue) (self : Batcher) (event : JetstreamEvent) : result BatcherError Batcher :=
  self ←? check_span q self event;
  self ←? apply_event q self event;
  send_if_idle q self event.

(** ** The bounded insert *)

Definition keeps (x : UFOsCommit) : Prop := is_create (c_action x) = false.
#[global] Instance keeps_dec x : Decision (keeps x).
Proof. unfold keeps. apply _. Defined.

(** The list holds every update and delete counted; what is before the head can
    no longer be displaced. *)
Record cc_inv (LIMIT : nat) (c : CollectionCommits) : Prop := {
  inv_len : length (cc_commits c) ≤ LIMIT;
  inv_kept : length (filter keeps (cc_commits c)) = cc_updates c + cc_deletes c;
  inv_head : length (cc_commits c) < LIMIT → cc_head c = 0;
  inv_before i x : i < cc_head c → cc_commits c !! i = Some x → keeps x;
  inv_creates : length (filter (λ x, ¬ keeps x) (cc_commits c)) ≤ cc_creates c
}.

Lemma cc_inv_default LIMIT : cc_inv LIMIT cc_default.
Proof. split; simpl; try done; lia. Qed.

Lemma filter_length_split {A} (P : A → Prop) `{∀ x, Decision (P x)} l :
  length (filter P l) + length (filter (λ x, ¬ P x) l) = length l.
Proof.
  induction l as [|x l IH]; [done|]. destruct (decide (P x)) as [Hx|Hx].
  - rewrite filter_cons_True, filter_cons_False by tauto. simpl. lia.
  - rewrite filter_cons_False, filter_cons_True by tauto. simpl. lia.
Qed.

(** The loop stops at the first create at or after the head. *)
Lemma displace_ok LIMIT commits commit i x fuel : ∀ head start,
  commits !! i = Some x → ¬ keeps x → i < LIMIT → head ≤ i → start ≤ head → i - head < fuel →
  (∀ j y, head ≤ j → j < i → commits !! j = Some y → keeps y) →
  displace LIMIT fuel commits head start commit = (<[i := commit]> commits, i, Ok ()).
Proof.
  induction fuel as [|fuel IH]; intros head start Hi Hx Hlt Hle Hst Hf Hj; [lia|]. cbn [displace].
  destruct (decide (head = i)) as [->|Hne].
  - rewrite Hi. unfold keeps in Hx. by destruct (is_create (c_action x)).
  - destruct (commits !! head) as [y|] eqn:Ey.
    2:{ apply lookup_ge_None in Ey. apply lookup_lt_Some in Hi. lia. }
    rewrite (Hj head y) by (done || lia). unfold advance_head.
    rewrite (decide_False (P := LIMIT < S head)) by lia. rewrite decide_False by lia. apply IH; try done; try lia. intros j z Hj1 Hj2. apply Hj; lia.
Qed.

(** Where the displacement happens. *)
Lemma first_create LIMIT c :
  cc_inv LIMIT c → length (cc_commits c) = LIMIT → cc_updates c + cc_deletes c < LIMIT →
  ∃ i x, cc_commits c !! i = Some x ∧ ¬ keeps x ∧ cc_head c ≤ i < LIMIT ∧
    ∀ j y, j < i → cc_commits c !! j = Some y → keeps y.
Proof.
  intros [Hlen Hkept Hhead Hbefore _] Hfull Hroom.
  destruct (list_find (λ x, ¬ keeps x) (cc_commits c)) as [[i x]|] eqn:E.
  - apply list_find_Some in E as (Hi & Hx & Hj). exists i, x. split_and!; [done|done| | |].
    + destruct (decide (i < cc_head c)) as [Hlt|]; [|lia]. exfalso. by apply Hx, (Hbefore i x Hlt Hi).
    + apply lookup_lt_Some in Hi. lia.
    + intros j y Hlt Hy. specialize (Hj j y Hy Hlt). destruct (decide (keeps y)); [done|tauto].
  - apply list_find_None in E. pose proof (filter_length_split keeps (cc_commits c)) as Hs.
    assert (filter (λ x, ¬ keeps x) (cc_commits c) = []) as Hnil.
    { clear -E. induction E as [|x l Hx Hl IH]; [done|]. by rewrite filter_cons, decide_False. }
    rewrite Hnil in Hs. simpl in Hs. lia.
Qed.

(** Replacing one entry of a list, seen by a filter. *)
Lemma filter_insert_length {A} (P : A → Prop) `{∀ x, Decision (P x)} l i x y :
  l !! i = Some x →
  length (filter P (<[i := y]> l)) + (if decide (P x) then 1 else 0) =
  length (filter P l) + (if decide (P y) then 1 else 0).
Proof.
  intros Hi. rewrite insert_take_drop by (by eapply lookup_lt_Some).
  rewrite <- (take_drop_middle l i x Hi) at 3. rewrite !filter_app, !length_app, !filter_cons.
  repeat case_decide; simpl; lia.
Qed.

Lemma occ_insert {A} `{EqDecision A} (l : list A) i x y z :
  l !! i = Some x → occ z (<[i := y]> l) + (if decide (x = z) then 1 else 0) = occ z l + (if decide (y = z) then 1 else 0).
Proof.
  intros Hi. rewrite insert_take_drop by (by eapply lookup_lt_Some).
  rewrite <- (take_drop_middle l i x Hi) at 3. rewrite !occ_app, !occ_cons. lia.
Qed.

(** What an accepted commit does to the counters. *)
Definition counted (c c' : CollectionCommits) (commit : UFOsCommit) : Prop :=
  cc_creates c' + cc_updates c' + cc_deletes c' = S (cc_creates c + cc_updates c + cc_deletes c) ∧
  cc_updates c' + cc_deletes c' = cc_updates c + cc_deletes c + (if decide (keeps commit) then 1 else 0).

Lemma insert_ok LIMIT c commit secret :
  cc_inv LIMIT c → cc_updates c + cc_deletes c < LIMIT →
  ∃ c', truncating_insert LIMIT c commit secret = (c', Ok ()) ∧ cc_inv LIMIT c' ∧
    commit ∈ cc_commits c' ∧ counted c c' commit ∧
    (∀ x, keeps x → occ x (cc_commits c') = occ x (cc_commits c) + (if decide (commit = x) then 1 else 0)).
Proof.
  intros Hinv Hroom. unfold truncating_insert. rewrite decide_False by lia.
  set (dids := sketch_insert _ _).
  assert (∃ cr up de, match c_action commit with
      | Put _ false => (cc_creates c + 1, cc_updates c, cc_deletes c)
      | Put _ true => (cc_creates c, cc_updates c + 1, cc_deletes c)
      | Cut => (cc_creates c, cc_updates c, cc_deletes c + 1)
      end = (cr, up, de) ∧ cr = cc_creates c + (if decide (keeps commit) then 0 else 1) ∧
      up + de = cc_updates c + cc_deletes c + (if decide (keeps commit) then 1 else 0))
    as (cr & up & de & -> & Hcr & Hud).
  { destruct (decide (keeps commit)) as [Hk|Hk]; unfold keeps in Hk;
      destruct (c_action commit) as [rec []|]; simpl in Hk; try done;
      eexists _, _, _; split_and!; try done; lia. }
  pose proof Hinv as [Hlen Hkept Hhead Hbefore Hcreates].
  destruct (decide (length (cc_commits c) < LIMIT)) as [Hshort|Hfull].
  - eexists; split; [done|]. split_and!.
    + split; simpl.
      * rewrite length_app. simpl. lia.
      * rewrite filter_app, length_app, filter_cons. case_decide; simpl; lia.
      * auto.
      * rewrite Hhead by done. lia.
      * rewrite filter_app, length_app, filter_cons. repeat case_decide; simpl; try tauto; lia.
    + simpl. apply elem_of_app. right. by left.
    + unfold counted. simpl. revert Hcr Hud. clear. destruct (decide (keeps commit)); lia.
    + intros x Hx. simpl. rewrite occ_app, occ_cons, occ_nil. lia.
  - destruct (first_create LIMIT c Hinv ltac:(lia) Hroom) as (i & x & Hi & Hx & Hrange & Hj).
    rewrite (displace_ok _ _ _ i x) by (try done; try lia; intros; by eapply Hj).
    eexists; split; [done|].
    pose proof (filter_insert_length keeps _ _ _ commit Hi) as Hf1.
    pose proof (filter_insert_length (λ x, ¬ keeps x) _ _ _ commit Hi) as Hf2.
    split_and!.
    + split; simpl.
      * by rewrite length_insert.
      * repeat case_decide; try tauto; lia.
      * rewrite length_insert. lia.
      * intros j y Hlt Hy. rewrite list_lookup_insert_ne in Hy by lia. by eapply Hj.
      * repeat case_decide; try tauto; lia.
    + simpl. apply list_elem_of_lookup. exists i. apply list_lookup_insert_eq. by eapply lookup_lt_Some.
    + unfold counted. simpl. revert Hcr Hud. clear. destruct (decide (keeps commit)); lia.
    + intros z Hz. simpl. pose proof (occ_insert _ _ _ commit z Hi) as Ho.
      rewrite decide_False in Ho by naive_solver. lia.
Qed.

(** An accepted commit is in the list. *)
Lemma truncating_insert_room LIMIT c commit secret :
  cc_inv LIMIT c →
  match truncating_insert LIMIT c commit secret with
  | (c', Ok _) => cc_inv LIMIT c' ∧ commit ∈ cc_commits c'
  | _ => True
  end.
Proof.
  intros Hinv. destruct (decide (cc_updates c + cc_deletes c = LIMIT)) as [Hf|Hf].
  - unfold truncating_insert. by rewrite decide_True.
  - assert (cc_updates c + cc_deletes c ≤ LIMIT).
    { destruct Hinv as [Hlen Hkept _ _ _]. pose proof (filter_length_split keeps (cc_commits c)). lia. }
    destruct (insert_ok LIMIT c commit secret Hinv ltac:(lia)) as (c' & -> & ? & ? & _). done.
Qed.

(** C40. The bounded insert keeps its promise: a batch whose updates and deletes
    fill the limit rejects the commit unchanged; any other accepts it, never
    reports the "bug" errors of an overrun or endless head, keeps every update
    and delete that was in the list, and stays within the limit. *)
Theorem truncating_insert_spec LIMIT c commit secret :
  cc_inv LIMIT c →
  let '(c', r) := truncating_insert LIMIT c commit secret in
  (cc_updates c + cc_deletes c = LIMIT ∧ c' = c ∧ r = Err (BatchFull commit)) ∨
  (cc_updates c + cc_deletes c < LIMIT ∧ r = Ok () ∧ cc_inv LIMIT c' ∧ commit ∈ cc_commits c' ∧
   counted c c' commit ∧
   ∀ x, keeps x → occ x (cc_commits c') = occ x (cc_commits c) + (if decide (commit = x) then 1 else 0)).
Proof.
  intros Hinv.
  assert (cc_updates c + cc_deletes c ≤ LIMIT).
  { destruct Hinv as [Hlen Hkept _ _ _]. pose proof (filter_length_split keeps (cc_commits c)). lia. }
  destruct (decide (cc_updates c + cc_deletes c = LIMIT)) as [Hf|Hf].
  - unfold truncating_insert. rewrite decide_True by done. by left.
  - destruct (insert_ok LIMIT c commit secret Hinv ltac:(lia)) as (c' & -> & ?). right. split; [lia|]. naive_solver.
Qed.

(** In a full list it is the newest displacing create that goes next, not
    the oldest record: the head stays on the slot it just filled. *)
Theorem displacement_takes_newest LIMIT c k1 k2 secret :
  cc_inv LIMIT c → length (cc_commits c) = LIMIT → cc_updates c + cc_deletes c < LIMIT →
  is_create (c_action k1) = true →
  let c1 := (truncating_insert LIMIT c k1 secret).1 in
  let c2 := (truncating_insert LIMIT c1 k2 secret).1 in
  cc_commits c1 !! cc_head c1 = Some k1 ∧ cc_commits c2 = <[cc_head c1 := k2]> (cc_commits c1).
Proof.
  intros Hinv Hfull Hroom Hk1 c1 c2.
  destruct (first_create LIMIT c Hinv Hfull Hroom) as (i & x & Hi & Hx & Hrange & Hj).
  assert (Hkk : ¬ keeps k1) by (unfold keeps; by rewrite Hk1).
  assert (E1 : cc_commits c1 = <[i := k1]> (cc_commits c) ∧ cc_head c1 = i ∧
    cc_updates c1 + cc_deletes c1 = cc_updates c + cc_deletes c).
  { unfold c1, truncating_insert. rewrite decide_False by lia.
    destruct (c_action k1) as [rec []|] eqn:Ea; try done.
    rewrite decide_False by lia.
    rewrite (displace_ok _ _ _ i x) by (try done; try lia; intros; by eapply Hj). done. }
  destruct E1 as (Ec & Eh & Eu).
  assert (Hi1 : cc_commits c1 !! i = Some k1) by (rewrite Ec; apply list_lookup_insert_eq; lia).
  rewrite Eh. split; [done|]. unfold c2, truncating_insert. rewrite decide_False by lia.
  assert (Hl1 : length (cc_commits c1) = LIMIT) by (by rewrite Ec, length_insert).
  destruct (c_action k2) as [? []|]; rewrite decide_False, Eh by lia;
    by rewrite (displace_ok LIMIT (cc_commits c1) k2 i k1) by (done || lia).
Qed.

(** ** Batches and the batcher *)

(** The commits of a collection in a batch. *)
Definition commits_of (b : EventBatch) (k : string) : list UFOsCommit :=
  cc_commits (default cc_default (commits_by_nsid b !! k)).

Record eb_inv (b : EventBatch) : Prop := {
  eb_commits : map_Forall (λ _ c, cc_inv MAX_BATCHED_RECORDS c) (commits_by_nsid b);
  eb_collections : size (commits_by_nsid b) ≤ MAX_BATCHED_COLLECTIONS;
  eb_removes : length (account_removes b) ≤ MAX_ACCOUNT_REMOVES
}.

Lemma eb_inv_default : eb_inv batch_default.
Proof. split; simpl; [apply map_Forall_empty|rewrite map_size_empty; lia|lia]. Qed.

Lemma eb_inv_lookup b k : eb_inv b → cc_inv MAX_BATCHED_RECORDS (default cc_default (commits_by_nsid b !! k)).
Proof.
  intros [Hc _ _]. destruct (commits_by_nsid b !! k) eqn:E; simpl; [by eapply Hc|apply cc_inv_default].
Qed.

(** The batch has room for a commit of the collection. *)
Definition has_room (b : EventBatch) (k : string) : Prop :=
  cc_updates (default cc_default (commits_by_nsid b !! k)) + cc_deletes (default cc_default (commits_by_nsid b !! k))
    ≠ MAX_BATCHED_RECORDS ∧
  (commits_by_nsid b !! k = None → size (commits_by_nsid b) < MAX_BATCHED_COLLECTIONS).
#[global] Instance has_room_dec b k : Decision (has_room b k).
Proof.
  unfold has_room. apply and_dec; [apply _|].
  destruct (decide (commits_by_nsid b !! k = None)) as [H1|H1].
  - destruct (decide (size (commits_by_nsid b) < MAX_BATCHED_COLLECTIONS)); [by left|right; naive_solver].
  - left. naive_solver.
Defined.

Lemma insert_nsid_ok b n commit secret :
  let k := nsid_str n in
  eb_inv b → has_room b k →
  ∃ b', insert_commit_by_nsid MAX_BATCHED_RECORDS b n commit MAX_BATCHED_COLLECTIONS secret = (b', Ok ()) ∧
    eb_inv b' ∧ account_removes b' = account_removes b ∧ commit ∈ commits_of b' k ∧
    ∀ k' x, keeps x → occ x (commits_of b' k') = occ x (commits_of b k') + occ (k', x) [(k, commit)].
Proof.
  intros k Hinv [Hroom Hcol]. unfold insert_commit_by_nsid. fold k.
  assert (bool_decide (commits_by_nsid b !! k = None) && (MAX_BATCHED_COLLECTIONS <=? size (commits_by_nsid b)) = false) as ->.
  { apply andb_false_iff. destruct (decide (commits_by_nsid b !! k = None)) as [E|E].
    - right. apply Nat.leb_gt. auto.
    - left. by apply bool_decide_eq_false. }
  pose proof (eb_inv_lookup b k Hinv) as Hcc.
  assert (Hlt : cc_updates (default cc_default (commits_by_nsid b !! k)) +
    cc_deletes (default cc_default (commits_by_nsid b !! k)) < MAX_BATCHED_RECORDS).
  { destruct Hcc as [Hlen Hkept _ _ _]. pose proof (filter_length_split keeps
      (cc_commits (default cc_default (commits_by_nsid b !! k)))). lia. }
  destruct (insert_ok _ _ commit secret Hcc Hlt) as (c' & -> & Hc' & Hin & _ & Hocc).
  eexists; split; [done|]. destruct Hinv as [H1 H2 H3]. split_and!.
  - split; simpl; [by apply map_Forall_insert_2| |done].
    rewrite map_size_insert. destruct (commits_by_nsid b !! k) eqn:E; [done|]. specialize (Hcol eq_refl). lia.
  - done.
  - unfold commits_of. simpl. by rewrite lookup_insert_eq.
  - intros k' x Hx. unfold commits_of. simpl. rewrite occ_cons, occ_nil, Nat.add_0_r.
    destruct (decide (k' = k)) as [->|Hne].
    + rewrite lookup_insert_eq. simpl. rewrite Hocc by done. f_equal. repeat case_decide; naive_solver.
    + rewrite lookup_insert_ne by done. rewrite decide_False by naive_solver. lia.
Qed.

Lemma insert_nsid_full b n commit secret :
  ¬ has_room b (nsid_str n) →
  insert_commit_by_nsid MAX_BATCHED_RECORDS b n commit MAX_BATCHED_COLLECTIONS secret = (b, Err (BatchFull commit)).
Proof.
  intros Hno. unfold insert_commit_by_nsid. set (k := nsid_str n) in *.
  destruct (decide (commits_by_nsid b !! k = None)) as [E|E].
  - destruct (Nat.leb_spec MAX_BATCHED_COLLECTIONS (size (commits_by_nsid b))) as [Hge|Hlt].
    + by rewrite bool_decide_true.
    + destruct Hno. split; [|done]. by rewrite E.
  - rewrite bool_decide_false by done. simpl. unfold truncating_insert.
    destruct (decide (_ + _ = MAX_BATCHED_RECORDS)) as [Hf|Hf].
    + destruct (commits_by_nsid b !! k) eqn:Ek; [|done]. simpl. rewrite insert_id by done. by destruct b.
    + destruct Hno. split; [done|]. intros ?. done.
Qed.

(** Everything the batcher holds or has sent. *)
Definition batches (st : Batcher) : list EventBatch := sent st ++ [batch st].
Definition kept (st : Batcher) (k : string) (x : UFOsCommit) : nat :=
  sum_list (map (λ b, occ x (commits_of b k)) (batches st)).
Definition removes (st : Batcher) : list DeleteAccount := concat (map account_removes (batches st)).

(** One step of the batcher: what [adds] and [rems] say is new, the rest is
    there as before. *)
Definition advances (st st' : Batcher) (adds : list (string * UFOsCommit)) (rems : list DeleteAccount) : Prop :=
  eb_inv (batch st') ∧
  (∀ k x, keeps x → kept st' k x = kept st k x + occ (k, x) adds) ∧ removes st' = removes st ++ rems.

Lemma advances_trans st1 st2 st3 a1 r1 :
  advances st1 st2 a1 r1 → advances st2 st3 [] [] → advances st1 st3 a1 r1.
Proof.
  intros (_ & Hk1 & Hr1) (H3 & Hk2 & Hr2). split; [done|]. split.
  - intros k x Hx. rewrite Hk2, Hk1, occ_nil by done. lia.
  - by rewrite Hr2, Hr1, app_nil_r.
Qed.
Lemma advances_trans' st1 st2 st3 a1 r1 :
  advances st1 st2 [] [] → advances st2 st3 a1 r1 → advances st1 st3 a1 r1.
Proof.
  intros (_ & Hk1 & Hr1) (H3 & Hk2 & Hr2). split; [done|]. split.
  - intros k x Hx. by rewrite Hk2, Hk1, occ_nil, Nat.add_0_r by done.
  - by rewrite Hr2, Hr1, app_nil_r.
Qed.
Lemma advances_refl st : eb_inv (batch st) → advances st st [] [].
Proof. intros. split; [done|]. split; [intros; by rewrite occ_nil, Nat.add_0_r|by rewrite app_nil_r]. Qed.

Lemma commits_of_default k : commits_of batch_default k = [].
Proof. unfold commits_of. simpl. by rewrite lookup_empty. Qed.

(** The current batch is the last one. *)
Lemma kept_batch st k x :
  kept st k x = sum_list (map (λ b, occ x (commits_of b k)) (sent st)) + occ x (commits_of (batch st) k).
Proof. unfold kept, batches. rewrite map_app, sum_list_with_app. simpl. lia. Qed.
Lemma removes_batch st : removes st = concat (map account_removes (sent st)) ++ account_removes (batch st).
Proof. unfold removes, batches. rewrite map_app, concat_app. simpl. by rewrite app_nil_r. Qed.

Lemma send_ok q st :
  accepts q = true →
  ∃ st', send_current_batch_now q st = Ok st' ∧ batch st' = batch_default ∧ initial_cursor st' = None ∧
    advances st st' [] [].
Proof.
  intros Hq. unfold send_current_batch_now. rewrite Hq. eexists. split_and!; [done|done|done|].
  split; [apply eb_inv_default|]. split.
  - intros k x Hx. rewrite !kept_batch. cbn [sent batch]. rewrite map_app, sum_list_with_app, commits_of_default, !occ_nil.
    simpl. lia.
  - rewrite !removes_batch. cbn [sent batch]. rewrite map_app, concat_app. simpl. by rewrite !app_nil_r.
Qed.

(** Replacing the current batch by one with the commit added. *)
Lemma with_batch_advances st b' adds rems :
  eb_inv b' → account_removes b' = account_removes (batch st) ++ rems →
  (∀ k x, keeps x → occ x (commits_of b' k) = occ x (commits_of (batch st) k) + occ (k, x) adds) →
  advances st (with_batch st b') adds rems.
Proof.
  intros Hb Hr Ho. split; [done|]. split.
  - intros k x Hx. rewrite !kept_batch. cbn [sent batch with_batch]. rewrite Ho by done. lia.
  - rewrite !removes_batch. cbn [sent batch with_batch]. by rewrite Hr, app_assoc.
Qed.

Lemma has_room_default k : has_room batch_default k.
Proof.
  unfold has_room. simpl. rewrite lookup_empty, map_size_empty. unfold MAX_BATCHED_RECORDS, MAX_BATCHED_COLLECTIONS.
  split; [simpl; lia|lia].
Qed.

(** A commit is taken, by the current batch or by the one after it. *)
Lemma handle_commit_ok q st n commit :
  accepts q = true → eb_inv (batch st) →
  ∃ st', handle_commit q st commit n = Ok st' ∧ advances st st' [(nsid_str n, commit)] [] ∧
    (initial_cursor st' = initial_cursor st ∨ initial_cursor st' = None) ∧
    commit ∈ commits_of (batch st') (nsid_str n).
Proof.
  intros Hq Hinv. unfold handle_commit.
  destruct (decide (has_room (batch st) (nsid_str n))) as [Hr|Hr].
  - destruct (insert_nsid_ok (batch st) n commit (sketch_secret st) Hinv Hr) as (b' & -> & Hb & Ha & Hin & Ho).
    eexists; split_and!; [done| |by left|done]. apply with_batch_advances; [done|by rewrite app_nil_r|done].
  - rewrite insert_nsid_full by done.
    replace (with_batch st (batch st)) with st by (by destruct st).
    destruct (send_ok q st Hq) as (st1 & -> & Hb1 & Hc1 & Hadv). cbn.
    destruct (insert_nsid_ok (batch st1) n commit (sketch_secret st1)) as (b' & -> & Hb & Ha & Hin & Ho).
    { rewrite Hb1. apply eb_inv_default. }
    { rewrite Hb1. apply has_room_default. }
    eexists; split_and!; [done| |by right|done]. eapply advances_trans'; [done|].
    apply with_batch_advances; [done|by rewrite app_nil_r|done].
Qed.

Lemma handle_delete_account_ok q st did cursor :
  accepts q = true → eb_inv (batch st) →
  ∃ st', handle_delete_account q st did cursor = Ok st' ∧ advances st st' [] [mkDelete did cursor] ∧
    (initial_cursor st' = initial_cursor st ∨ initial_cursor st' = None).
Proof.
  intros Hq Hinv. unfold handle_delete_account.
  assert (Hpush : ∀ st1, eb_inv (batch st1) → length (account_removes (batch st1)) < MAX_ACCOUNT_REMOVES →
    advances st1 (with_batch st1 (mkBatch (commits_by_nsid (batch st1))
      (account_removes (batch st1) ++ [mkDelete did cursor]))) [] [mkDelete did cursor]).
  { intros st1 [H1 H2 H3] Hlt. apply with_batch_advances; [|done|].
    - split; [done|done|]. cbn [account_removes]. rewrite length_app. simpl. lia.
    - intros k x Hx. rewrite occ_nil, Nat.add_0_r. done. }
  destruct (decide (MAX_ACCOUNT_REMOVES ≤ length (account_removes (batch st)))) as [Hf|Hf].
  - destruct (send_ok q st Hq) as (st1 & -> & Hb1 & Hc1 & Hadv). cbn.
    eexists; split_and!; [done| |by right]. eapply advances_trans'; [done|]. apply Hpush; rewrite Hb1.
    + apply eb_inv_default.
    + unfold MAX_ACCOUNT_REMOVES. simpl. lia.
  - eexists; split_and!; [done| |by left]. apply Hpush; [done|lia].
Qed.

(** What an event brings: at most one commit or one account removal. *)
Definition event_effect (ev : JetstreamEvent)
    : result FirehoseEventError (list (string * UFOsCommit) * list DeleteAccount) :=
  match ev_kind ev with
  | KCommit =>
      match ev_commit ev with
      | None => Err CommitEventMissingCommit
      | Some ce =>
          match from_commit_info ce (ev_did ev) (ev_cursor ev) with
          | Ok (c, n) => Ok ([(nsid_str n, c)], [])
          | Err e => Err e
          end
      end
  | KAccount =>
      match ev_account_active ev with
      | None => Err AccountEventMissingAccount
      | Some true => Ok ([], [])
      | Some false => Ok ([], [mkDelete (ev_did ev) (ev_cursor ev)])
      end
  | KIdentity => Ok ([], [])
  end.

Lemma apply_event_ok q st ev adds rems :
  accepts q = true → eb_inv (batch st) → event_effect ev = Ok (adds, rems) →
  ∃ st', apply_event q st ev = Ok st' ∧ advances st st' adds rems ∧
    (initial_cursor st' = initial_cursor st ∨ initial_cursor st' = None).
Proof.
  intros Hq Hinv Hev. unfold event_effect in Hev. unfold apply_event. destruct (ev_kind ev).
  - destruct (ev_commit ev) as [ce|]; [|done].
    destruct (from_commit_info ce _ _) as [[c n]|e]; [|done]. simplify_eq. simpl.
    destruct (handle_commit_ok q st n c Hq Hinv) as (st' & -> & ? & ? & _). eauto.
  - simplify_eq. exists st. split_and!; [done|by apply advances_refl|by left].
  - destruct (ev_account_active ev) as [[]|]; simplify_eq.
    + exists st. split_and!; [done|by apply advances_refl|by left].
    + by apply handle_delete_account_ok.
Qed.

Lemma check_span_ok q st ev :
  accepts q = true → eb_inv (batch st) →
  (∀ c, initial_cursor st = Some c → (cursor_us c ≤ cursor_us (ev_cursor ev))%N) →
  ∃ st', check_span q st ev = Ok st' ∧ advances st st' [] [] ∧
    (∀ c, initial_cursor st' = Some c → (cursor_us c ≤ cursor_us (ev_cursor ev))%N).
Proof.
  intros Hq Hinv Hc. unfold check_span. destruct (initial_cursor st) as [c|] eqn:Ec.
  - unfold duration_since. specialize (Hc c eq_refl).
    destruct (N.ltb_spec (cursor_us (ev_cursor ev)) (cursor_us c)); [lia|]. cbn.
    destruct (_ <? _)%N.
    + destruct (send_ok q st Hq) as (st1 & -> & Hb1 & Hc1 & Hadv). eexists; split_and!; [done|done|by rewrite Hc1].
    + exists st. split_and!; [done|by apply advances_refl|]. rewrite Ec. intros c' [= ->]. done.
  - eexists; split_and!; [done| |by intros c [= <-]].
    split; [done|]. split; [intros; by rewrite !kept_batch, occ_nil, Nat.add_0_r|].
    by rewrite !removes_batch, app_nil_r.
Qed.

Lemma send_if_idle_ok q st ev :
  accepts q = true → eb_inv (batch st) →
  (∀ c, initial_cursor st = Some c → (cursor_us c ≤ cursor_us (ev_cursor ev))%N) →
  ∃ st', send_if_idle q st ev = Ok st' ∧ advances st st' [] [] ∧ (initial_cursor st' = initial_cursor st ∨ initial_cursor st' = None).
Proof.
  intros Hq Hinv Hc. unfold send_if_idle. destruct (initial_cursor st) as [c|] eqn:Ec.
  - unfold duration_since. specialize (Hc c eq_refl).
    destruct (N.ltb_spec (cursor_us (ev_cursor ev)) (cursor_us c)); [lia|]. cbn.
    destruct (_ && _).
    + destruct (send_ok q st Hq) as (st1 & -> & _ & Hc1 & Hadv). eauto.
    + exists st. split_and!; [done|by apply advances_refl|by left].
  - exists st. split_and!; [done|by apply advances_refl|by right].
Qed.

Lemma handle_event_ok q st ev adds rems :
  accepts q = true → eb_inv (batch st) →
  (∀ c, initial_cursor st = Some c → (cursor_us c ≤ cursor_us (ev_cursor ev))%N) →
  event_effect ev = Ok (adds, rems) →
  ∃ st', handle_event q st ev = Ok st' ∧ advances st st' adds rems ∧
    (∀ c, initial_cursor st' = Some c → (cursor_us c ≤ cursor_us (ev_cursor ev))%N).
Proof.
  intros Hq Hinv Hc Hev. unfold handle_event.
  destruct (check_span_ok q st ev Hq Hinv Hc) as (st1 & -> & Ha1 & Hc1). cbn.
  destruct (apply_event_ok q st1 ev adds rems Hq (proj1 Ha1) Hev) as (st2 & -> & Ha2 & Hc2). cbn.
  assert (Hc3 : ∀ c, initial_cursor st2 = Some c → (cursor_us c ≤ cursor_us (ev_cursor ev))%N).
  { intros c E. destruct Hc2 as [Hc2|Hc2]; [apply Hc1; congruence|congruence]. }
  destruct (send_if_idle_ok q st2 ev Hq (proj1 Ha2) Hc3) as (st3 & -> & Ha3 & Hc4).
  exists st3. split_and!; [done| |].
  - eapply advances_trans, Ha3. by eapply advances_trans'.
  - intros c E. destruct Hc4 as [Hc4|Hc4]; [apply Hc3; congruence|congruence].
Qed.

(** C24. The batcher loses no update, delete or account removal: while the queue
    accepts batches and time does not go backwards, a well-formed event is
    handled without error, the batches in flight hold every update and delete
    they held plus the event's, the removals stay in order with the event's at
    the end, and the limits of the current batch are kept. *)
Theorem batcher_lossless q st ev adds rems :
  accepts q = true → eb_inv (batch st) →
  (∀ c, initial_cursor st = Some c → (cursor_us c ≤ cursor_us (ev_cursor ev))%N) →
  event_effect ev = Ok (adds, rems) →
  ∃ st', handle_event q st ev = Ok st' ∧ eb_inv (batch st') ∧
    (∀ k x, keeps x → kept st' k x = kept st k x + occ (k, x) adds) ∧
    removes st' = removes st ++ rems.
Proof.
  intros Hq Hinv Hc Hev. destruct (handle_event_ok q st ev adds rems Hq Hinv Hc Hev) as (st' & H1 & H2 & _). by exists st'.
Qed.

(** ** The cursor of a batch *)

Definition batch_commits (b : EventBatch) : list UFOsCommit :=
  concat (map cc_commits (map snd (map_to_list (commits_by_nsid b)))).
(** Every cursor the batch carries. *)
Definition batch_cursors (b : EventBatch) : list N :=
  map (cursor_us ∘ c_cursor) (batch_commits b) ++ map (cursor_us ∘ del_cursor) (account_removes b).

Lemma later_max o c : later o c = N.max o c.
Proof. unfold later. destruct (N.ltb_spec o c); lia. Qed.

Definition max_list_N (l : list N) : N := fold_left later l 0%N.

Lemma fold_later_spec l : ∀ o, (o ≤ fold_left later l o)%N ∧ (∀ x, x ∈ l → (x ≤ fold_left later l o)%N) ∧
  (fold_left later l o = o ∨ fold_left later l o ∈ l).
Proof.
  induction l as [|y l IH]; intros o; simpl.
  - split_and!; [lia|intros x Hx; by apply elem_of_nil in Hx|by left].
  - specialize (IH (later o y)). rewrite later_max in *. destruct IH as (H1 & H2 & H3). split_and!; [lia| |].
    + intros x [->|Hx]%elem_of_cons; [lia|by apply H2].
    + destruct H3 as [->|H3]; [|right; by right].
      destruct (N.max_spec o y) as [[_ ->]|[_ ->]]; [right; by left|by left].
Qed.

Lemma fold_left_concat_map {A B C} (f : B → list A) (g : C → A → C) (l : list B) : ∀ o,
  fold_left (λ o b, fold_left g (f b) o) l o = fold_left g (concat (map f l)) o.
Proof. induction l as [|b l IH]; intros o; simpl; [done|]. by rewrite fold_left_app, IH. Qed.
Lemma fold_left_map' {A B C} (f : B → A) (g : C → A → C) (l : list B) : ∀ o,
  fold_left (λ o b, g o (f b)) l o = fold_left g (map f l) o.
Proof. induction l as [|b l IH]; intros o; simpl; [done|]. by rewrite IH. Qed.

(** The two scans of [latest_cursor] are one: over the commits, then over the
    last removal. *)
Lemma latest_cursor_fold b :
  latest_cursor b =
  let newest := max_list_N (map (cursor_us ∘ c_cursor) (batch_commits b) ++
    match last (account_removes b) with Some d => [cursor_us (del_cursor d)] | None => [] end) in
  if (0 <? newest)%N then Some (mkCursor newest) else None.
Proof.
  unfold latest_cursor, max_list_N, batch_commits.
  rewrite (fold_left_concat_map cc_commits (λ o c, later o (cursor_us (c_cursor c)))).
  rewrite (fold_left_map' (λ c, cursor_us (c_cursor c))). rewrite fold_left_app.
  by destruct (last (account_removes b)).
Qed.

Lemma sorted_le_last (f : DeleteAccount → N) l d x :
  StronglySorted (λ a b, (f a ≤ f b)%N) l → last l = Some d → x ∈ l → (f x ≤ f d)%N.
Proof.
  induction 1 as [|a l Hs IH Hall]; [done|]. destruct l as [|b l].
  - simpl. intros [= ->] ->%list_elem_of_singleton. lia.
  - intros Hl [->|Hx]%elem_of_cons; [|by apply IH].
    rewrite Forall_forall in Hall. apply Hall. eapply list_elem_of_lookup_2.
    rewrite <- Hl. simpl. by rewrite last_lookup.
Qed.

(** The cursor stored for a batch: it is the cursor of one of the batch's
    commits or removals and no commit or removal of the batch is after it, when
    the removals came in order; there is none exactly when nothing in the batch
    is after the start of time. *)
Theorem latest_cursor_spec b :
  StronglySorted (λ x y, (cursor_us (del_cursor x) ≤ cursor_us (del_cursor y))%N) (account_removes b) →
  match latest_cursor b with
  | Some c => cursor_us c ∈ batch_cursors b ∧ ∀ u, u ∈ batch_cursors b → (u ≤ cursor_us c)%N
  | None => ∀ u, u ∈ batch_cursors b → u = 0%N
  end.
Proof.
  intros Hs. rewrite latest_cursor_fold. cbv zeta.
  set (last_removal := match last (account_removes b) with Some d => _ | None => _ end).
  assert (Hsub : last_removal ⊆ map (cursor_us ∘ del_cursor) (account_removes b)).
  { unfold last_removal. destruct (last (account_removes b)) as [d|] eqn:E; [|apply list_subseteq_nil].
    intros x ->%list_elem_of_singleton. apply list_elem_of_fmap. exists d. split; [done|].
    rewrite last_lookup in E. by eapply list_elem_of_lookup_2. }
  assert (Hcov : ∀ d, d ∈ account_removes b → ∃ x, x ∈ last_removal ∧ (cursor_us (del_cursor d) ≤ x)%N).
  { intros d Hd. unfold last_removal. destruct (last (account_removes b)) as [d'|] eqn:E.
    - eexists; split; [by apply list_elem_of_singleton|]. by eapply (sorted_le_last (cursor_us ∘ del_cursor)).
    - apply last_None in E. rewrite E in Hd. by apply elem_of_nil in Hd. }
  destruct (fold_later_spec (map (cursor_us ∘ c_cursor) (batch_commits b) ++ last_removal) 0%N) as (_ & Hmax & Hin).
  unfold max_list_N. set (m := fold_left later _ 0%N) in *.
  assert (Hle : ∀ u, u ∈ batch_cursors b → (u ≤ m)%N).
  { intros u [Hu|Hu]%elem_of_app; [apply Hmax, elem_of_app; by left|].
    apply list_elem_of_fmap in Hu as (d & -> & Hd). destruct (Hcov d Hd) as (x & Hx & Hdx).
    etrans; [exact Hdx|]. apply Hmax, elem_of_app. by right. }
  destruct (N.ltb_spec 0 m) as [Hpos|Hz].
  - split; [|done]. cbn [cursor_us]. unfold batch_cursors. destruct Hin as [Hin|Hin]; [lia|]. set_solver.
  - intros u Hu. specialize (Hle u Hu). lia.
Qed.

End Batch.

(** ** The theorems at concrete inputs *)

Section Concrete.
#[local] Existing Instance plain_sketch.

Definition sample_commit (us : N) (a : CommitAction) : UFOsCommit :=
  mkCommit (mkCursor us) (mkDid "did:plc:a") (mkRecordKey "3k") "rev" a.
Definition create_at (us : N) : UFOsCommit := sample_commit us (Put "{}" false).
(** A full list of two: an update and a create. *)
Definition sample_full : CollectionCommits :=
  (truncating_insert 2 (truncating_insert 2 cc_default (create_at 1) "s").1 (sample_commit 2 Cut) "s").1.

Lemma sample_full_inv : cc_inv 2 sample_full.
Proof.
  split; [vm_compute; lia|reflexivity|vm_compute; lia| |vm_compute; lia].
  intros i x Hi. vm_compute in Hi. lia.
Qed.

Lemma truncating_insert_spec_witness :
  let '(c', r) := truncating_insert 2 sample_full (create_at 3) "s" in r = Ok () ∧ create_at 3 ∈ cc_commits c'.
Proof.
  pose proof (truncating_insert_spec 2 sample_full (create_at 3) "s" sample_full_inv) as H.
  destruct (truncating_insert 2 sample_full (create_at 3) "s") as [c' r].
  destruct H as [(Hu & _)|(_ & Hr & _ & Hin & _)]; [vm_compute in Hu; lia|by split].
Defined.

Lemma displacement_takes_newest_witness :
  let c1 := (truncating_insert 2 sample_full (create_at 3) "s").1 in
  cc_commits c1 !! cc_head c1 = Some (create_at 3).
Proof.
  apply (displacement_takes_newest 2 sample_full (create_at 3) (create_at 4) "s" sample_full_inv);
    [reflexivity|vm_compute; lia|reflexivity].
Defined.

Definition sample_event (us : N) : JetstreamEvent :=
  mkEvent (mkCursor us) (mkDid "did:plc:a") KCommit
    (Some (mkCommitEvent sample_nsid (mkRecordKey "3k") "rev" OpDelete None None)) None.
Definition sample_batcher : Batcher := mkBatcher (Some (mkCursor 5)) batch_default "s" [].

Lemma batcher_lossless_witness :
  ∃ st', handle_event (mkQueue true true) sample_batcher (sample_event 9) = Ok st' ∧
    kept st' "a.b.c" (sample_commit 9 Cut) = 1.
Proof.
  destruct (batcher_lossless (mkQueue true true) sample_batcher (sample_event 9)
    [("a.b.c", sample_commit 9 Cut)] []) as (st' & H1 & _ & H2 & _).
  - reflexivity.
  - apply eb_inv_default.
  - intros c [= <-]. vm_compute. discriminate.
  - reflexivity.
  - exists st'. split; [done|]. rewrite H2 by reflexivity. reflexivity.
Defined.

Lemma latest_cursor_spec_witness :
  let b := mkBatch (<["a.b.c" := sample_full]> ∅) [mkDelete (mkDid "did:plc:a") (mkCursor 7)] in
  latest_cursor b = Some (mkCursor 7) ∧ ∀ u, u ∈ batch_cursors b → (u ≤ 7)%N.
Proof.
  intros b. pose proof (latest_cursor_spec b) as H.
  assert (E : latest_cursor b = Some (mkCursor 7)) by reflexivity. rewrite E in H.
  split; [done|]. apply H. repeat constructor.
Defined.

(** Handling events in turn. *)
Fixpoint run_events (q : Queue) (st : Batcher) (evs : list JetstreamEvent) : result BatcherError Batcher :=
  match evs with
  | [] => Ok st
  | ev :: evs => st ←? handle_event q st ev; run_events q st evs
  end.

(** The span limit of a batch is not a hard limit: the event that finds the
    span exceeded is put in the fresh batch before that batch has an initial
    cursor, so the limit is only counted from the event after it.  Three events
    within the limit of each other, after one that forced the send, end up in
    one batch spanning almost two minutes. *)
Theorem batch_span_exceeded :
  match run_events (mkQueue true false) (mkBatcher None batch_default "s" [])
          (map sample_event [0; 61000000; 120000000; 180000000]%N) with
  | Ok st => length (sent st) = 1 ∧ initial_cursor st = Some (mkCursor 120000000) ∧
      map (cursor_us ∘ c_cursor) (commits_of (batch st) "a.b.c") = [61000000; 120000000; 180000000]%N
  | Err _ => False
  end.
Proof. vm_compute. repeat split. Qed.

End Concrete.
End Batch.
