(* ===== verification/UfosFixture.v ===== *)
(** * ufos: reading recorded events (ufos/src/file_consumer.rs)

    The consumer of a file of events, one per line, in place of the network: it
    skips to the cursor of the database and sends what comes after.  Shown here:
    on a file in the order of the cursors it resumes without a gap and without a
    repetition; and what it does on a file that does not have the cursor. *)

From Stdlib Require Import Sorted.
From S2P Require Import Prelude UfosDbTypes UfosBatch.

Module Fixture.

Inductive ReadError : Type :=
  | Io
  | CursorNotFound (found : Cursor)
  | ReceiverClosedError.

Section Fixture.
(** serde_json's parser for events. *)
Context (from_str : string → option JetstreamEvent).

(** [next_line] fails on a line that cannot be read. *)
Abbreviation Lines := (list (option string)).

(** The first loop: up to and including the event at the cursor.  Lines that do
    not parse are skipped; at the end of the file the loop just ends. *)
Fixpoint skip_to (db_cursor : Cursor) (lines : Lines) : result ReadError Lines :=
  match lines with
  | [] => Ok []
  | None :: _ => Err Io
  | Some line :: lines =>
      match from_str line with
      | None => skip_to db_cursor lines
      | Some event =>
          if (cursor_us (ev_cursor event) <? cursor_us db_cursor)%N then skip_to db_cursor lines
          else if (cursor_us (ev_cursor event) =? cursor_us db_cursor)%N then Ok lines
          else Err (CursorNotFound (ev_cursor event))
      end
  end.

(** The second loop, with the number of sends until the receiver is gone, if it
    goes; what was sent, and the error that ended it.  Without an error the task
    sleeps for ever and keeps the channel open. *)
Fixpoint send_all (room : option nat) (lines : Lines) : list JetstreamEvent * option ReadError :=
  match lines with
  | [] => ([], None)
  | None :: _ => ([], Some Io)
  | Some line :: lines =>
      match from_str line with
      | None => send_all room lines
      | Some event =>
          match room with
          | Some 0 => ([], Some ReceiverClosedError)
          | _ => let '(sent, e) := send_all (pred <$> room) lines in (event :: sent, e)
          end
      end
  end.

Definition read_jsonl (room : option nat) (cursor : option Cursor) (lines : Lines) : list JetstreamEvent * option ReadError :=
  match cursor with
  | None => send_all room lines
  | Some db_cursor =>
      match skip_to db_cursor lines with
      | Err e => ([], Some e)
      | Ok lines => send_all room lines
      end
  end.

(** ** What is sent *)

(** The events of a file. *)
Definition events (lines : Lines) : list JetstreamEvent := omap (λ l, l ≫= from_str) lines.
Definition readable (lines : Lines) : Prop := Forall is_Some lines.

Lemma send_all_events lines : readable lines → send_all None lines = (events lines, None).
Proof.
  induction 1 as [|l lines [line ->] Hl IH]; [done|]. cbn [send_all events omap list_omap mbind option_bind].
  destruct (from_str line); [|exact IH]. cbn [fmap option_fmap option_map]. rewrite IH. done.
Qed.

Definition older (c : Cursor) (ev : JetstreamEvent) : Prop := (cursor_us (ev_cursor ev) < cursor_us c)%N.

Lemma skip_to_old c l1 lines : readable l1 → Forall (older c) (events l1) → skip_to c (l1 ++ lines) = skip_to c lines.
Proof.
  induction 1 as [|l l1 [line ->] Hl IH]; [done|]. cbn [app skip_to events omap list_omap mbind option_bind].
  destruct (from_str line) as [event|]; [|exact IH]. intros [Ho Hall]%Forall_cons. unfold older in Ho.
  apply N.ltb_lt in Ho. rewrite Ho. by apply IH.
Qed.

(** The lines before an event of the file. *)
Lemma events_split lines e1 ev e2 : events lines = e1 ++ ev :: e2 →
  ∃ l1 line l2, lines = l1 ++ Some line :: l2 ∧ from_str line = Some ev ∧ events l1 = e1 ∧ events l2 = e2.
Proof.
  revert e1; induction lines as [|l lines IH]; intros e1 He; [by destruct e1|]. unfold events in He. cbn [omap list_omap] in He.
  destruct (l ≫= from_str) as [ev'|] eqn:E.
  - destruct e1 as [|x e1].
    + injection He as -> He. destruct l as [line|]; [|done]. by exists [], line, lines.
    + injection He as -> He. destruct (IH e1 He) as (l1 & line & l2 & -> & Hp & H1 & H2). exists (l :: l1), line, l2.
      split_and!; [done|done| |done]. unfold events. cbn [omap list_omap]. rewrite E. by f_equal.
  - destruct (IH e1 He) as (l1 & line & l2 & -> & Hp & H1 & H2). exists (l :: l1), line, l2. split_and!; [done|done| |done].
    unfold events. cbn [omap list_omap]. by rewrite E.
Qed.

(** A file is read without a gap and without a repetition.  From the
    start, every event is sent, in order.  With the cursor of an event of the
    file, if those before it are older (as in a recorded stream), exactly the
    events after it are sent, so that what was stored before and what is sent
    now are the file.  If the first event that is not older is newer than the
    cursor, nothing is sent and the consumer stops with an error. *)
Theorem fixture_resumes lines :
  readable lines →
  read_jsonl None None lines = (events lines, None) ∧
  (∀ before ev after, events lines = before ++ ev :: after → Forall (older (ev_cursor ev)) before →
     read_jsonl None (Some (ev_cursor ev)) lines = (after, None)) ∧
  (∀ c before ev after, events lines = before ++ ev :: after → Forall (older c) before → (cursor_us c < cursor_us (ev_cursor ev))%N →
     read_jsonl None (Some c) lines = ([], Some (CursorNotFound (ev_cursor ev)))).
Proof.
  intros Hr. split_and!.
  - by apply send_all_events.
  - intros before ev after He Hold. apply events_split in He as (l1 & line & l2 & -> & Hp & H1 & H2). subst.
    apply Forall_app in Hr as [Hr1 [_ Hr2]%Forall_cons]. unfold read_jsonl. rewrite skip_to_old by done. cbn [skip_to].
    rewrite Hp, N.ltb_irrefl, N.eqb_refl. by apply send_all_events.
  - intros c before ev after He Hold Hc. apply events_split in He as (l1 & line & l2 & -> & Hp & H1 & H2). subst.
    apply Forall_app in Hr as [Hr1 _]. unfold read_jsonl. rewrite skip_to_old by done. cbn [skip_to].
    rewrite Hp. rewrite (proj2 (N.ltb_ge _ _)) by lia. rewrite (proj2 (N.eqb_neq _ _)) by lia. done.
Qed.

(** A file that ends before the cursor is not an error: nothing is sent, and
    the consumer waits for ever. *)
Theorem fixture_too_short lines c :
  readable lines → Forall (older c) (events lines) → read_jsonl None (Some c) lines = ([], None).
Proof.
  intros Hr Hold. unfold read_jsonl. rewrite <- (app_nil_r lines), skip_to_old by done. done.
Qed.
End Fixture.

(** ** A concrete file *)

Definition event_at (c : N) : JetstreamEvent := mkEvent (mkCursor c) (mkDid "did:plc:a") KIdentity None None.
Definition from_str_ref (s : string) : option JetstreamEvent :=
  match s with String a "" => Some (event_at (N_of_ascii a)) | _ => None end.
Definition file : list (option string) := [Some "a"; Some "not json"; Some "b"; Some "c"; Some "d"].

Lemma fixture_resumes_witness :
  read_jsonl from_str_ref None (Some (mkCursor 98)) file = ([event_at 99; event_at 100], None).
Proof.
  apply (proj1 (proj2 (fixture_resumes from_str_ref file ltac:(repeat (constructor; [eauto|]); constructor))) [event_at 97] (event_at 98)).
  - reflexivity.
  - constructor; [|constructor]. reflexivity.
Defined.
Lemma fixture_too_short_witness : read_jsonl from_str_ref None (Some (mkCursor 200)) file = ([], None).
Proof.
  apply (fixture_too_short from_str_ref file (mkCursor 200)); [repeat (constructor; [eauto|]); constructor|].
  repeat (constructor; [reflexivity|]). constructor.
Defined.
End Fixture.
