(* ===== verification/UfosFjallApi.v ===== *)
(** * ufos: the interface to fjall

    [fjall] is a third-party key-value store: ordered partitions of byte keys,
    atomic write batches, range and prefix scans over a snapshot.  It enters
    the model of the storage as a class, with the documented behaviour the
    storage relies on as a class of laws.  [Reference] gives an instance, which
    shows that the laws can hold and lets concrete runs evaluate.  Failures of
    the disk are outside the model: every call of the interface succeeds. *)

From Stdlib Require Import Sorted.
From stdpp Require Import sorting.
From S2P Require Import Prelude RustStr Bytes UfosDbTypes.

Inductive FjOp : Type :=
  | FjInsert (partition key value : string)
  | FjRemove (partition key : string)
  | FjRemoveWeak (partition key : string).

(** Below the lower, above the upper bound of a range. *)
Definition above (lo : Bound) (k : string) : bool :=
  match lo with
  | Included b => match bytes_compare b k with Gt => false | _ => true end
  | Excluded b => match bytes_compare b k with Lt => true | _ => false end
  | Unbounded => true
  end.
Definition below (hi : Bound) (k : string) : bool :=
  match hi with
  | Included b => match bytes_compare k b with Gt => false | _ => true end
  | Excluded b => match bytes_compare k b with Lt => true | _ => false end
  | Unbounded => true
  end.

Class Fjall := {
  Keyspace : Type;
  (** [partition.get(key)]. *)
  fj_get : Keyspace → string → string → option string;
  (** [partition.range((lo, hi))], in key order. *)
  fj_range : Keyspace → string → Bound → Bound → list (string * string);
  (** [partition.prefix(p)], in key order. *)
  fj_prefix : Keyspace → string → string → list (string * string);
  (** [batch.commit()]; a single [insert] or [remove] is a batch of one. *)
  fj_commit : Keyspace → list FjOp → Keyspace
}.

(** The effect of a batch on one key: the operations apply in order. *)
Definition fj_apply (p k : string) (cur : option string) (op : FjOp) : option string :=
  match op with
  | FjInsert p' k' v => if decide (p' = p ∧ k' = k) then Some v else cur
  | FjRemove p' k' | FjRemoveWeak p' k' => if decide (p' = p ∧ k' = k) then None else cur
  end.

Definition fj_applies (ops : list FjOp) (p k : string) (cur : option string) : option string :=
  fold_left (fj_apply p k) ops cur.

(** A weak tombstone only undoes a key that was inserted once: nothing is
    assumed about the keys it touches. *)
Definition weakly_removes (p k : string) (op : FjOp) : Prop :=
  match op with FjRemoveWeak p' k' => p' = p ∧ k' = k | _ => False end.

Definition fj_touches (p k : string) (op : FjOp) : Prop :=
  match op with FjInsert p' k' _ | FjRemove p' k' | FjRemoveWeak p' k' => p' = p ∧ k' = k end.

#[global] Instance fj_touches_dec p k op : Decision (fj_touches p k op).
Proof. destruct op; simpl; apply _. Defined.

Definition key_lt (a b : string * string) : Prop := bytes_compare a.1 b.1 = Lt.

Class FjallLaws `{Fjall} := {
  fj_get_commit d ops p k :
    Forall (λ op, ¬ weakly_removes p k op) ops →
    fj_get (fj_commit d ops) p k = fj_applies ops p k (fj_get d p k);
  fj_range_spec d p lo hi k v :
    (k, v) ∈ fj_range d p lo hi ↔ fj_get d p k = Some v ∧ above lo k = true ∧ below hi k = true;
  fj_range_sorted d p lo hi : StronglySorted key_lt (fj_range d p lo hi);
  fj_prefix_spec d p pre k v :
    (k, v) ∈ fj_prefix d p pre ↔ fj_get d p k = Some v ∧ starts_with pre k = true;
  fj_prefix_sorted d p pre : StronglySorted key_lt (fj_prefix d p pre)
}.

(** Weak tombstones: [remove_weak] is documented for keys that are written only
    once.  [fj_inserts] is how often a key was ever inserted, which no call
    reveals; while it is at most one, a weak tombstone removes like another. *)
Definition fj_insert_at (p k : string) (op : FjOp) : nat :=
  match op with FjInsert p' k' _ => if decide (p' = p ∧ k' = k) then 1 else 0 | _ => 0 end.

Class FjallWeak `{Fjall} := fj_inserts : Keyspace → string → string → nat.
Class FjallWeakLaws `{FjallWeak} := {
  fj_inserts_commit d ops p k : fj_inserts (fj_commit d ops) p k = fj_inserts d p k + sum_list_with (fj_insert_at p k) ops;
  fj_get_commit_once d ops p k :
    fj_inserts (fj_commit d ops) p k ≤ 1 → fj_get (fj_commit d ops) p k = fj_applies ops p k (fj_get d p k)
}.

(** ** Lemmas on batches *)

Lemma fj_applies_app ops1 ops2 p k cur :
  fj_applies (ops1 ++ ops2) p k cur = fj_applies ops2 p k (fj_applies ops1 p k cur).
Proof. apply fold_left_app. Qed.

Lemma fj_apply_untouched p k cur op : ¬ fj_touches p k op → fj_apply p k cur op = cur.
Proof. destruct op; simpl; intros; by rewrite decide_False. Qed.

Lemma fj_applies_untouched ops p k cur :
  Forall (λ op, ¬ fj_touches p k op) ops → fj_applies ops p k cur = cur.
Proof.
  intros Hops. revert cur. induction Hops as [|op ops Hop Hops IH]; intros cur; [done|].
  unfold fj_applies in *. simpl. by rewrite fj_apply_untouched.
Qed.

Lemma untouched_no_insert ops p k : Forall (λ op, ¬ fj_touches p k op) ops → sum_list_with (fj_insert_at p k) ops = 0.
Proof.
  induction 1 as [|op ops Hop _ IH]; [done|]. cbn [sum_list_with]. rewrite IH. destruct op; simpl in *; [by rewrite decide_False|done|done].
Qed.

Lemma untouched_not_weak p k op : ¬ fj_touches p k op → ¬ weakly_removes p k op.
Proof. destruct op; simpl; tauto. Qed.

(** Removing a list of keys. *)
Lemma removes_applies p k (l : list (string * string)) cur :
  fj_applies (map (λ kv, FjRemove p kv.1) l) p k cur = if decide (k ∈ l.*1) then None else cur.
Proof.
  revert cur. induction l as [|[k' v'] l IH]; intros cur; [done|].
  change (fj_applies (map (λ kv, FjRemove p kv.1) ((k', v') :: l)) p k cur)
    with (fj_applies (map (λ kv, FjRemove p kv.1) l) p k (if decide (p = p ∧ k' = k) then None else cur)).
  rewrite IH. cbn [fmap list_fmap fst]. destruct (decide (k ∈ l.*1)) as [Hin|Hno].
  - by rewrite decide_True by (by right).
  - destruct (decide (k' = k)) as [->|Hne].
    + rewrite decide_True by done. by rewrite decide_True by (by left).
    + rewrite decide_False by tauto. rewrite decide_False; [done|]. intros [->|?]%elem_of_cons; done.
Qed.

Lemma removes_touch p k q (l : list (string * string)) :
  p ≠ q ∨ k ∉ l.*1 → Forall (λ op, ¬ fj_touches p k op) (map (λ kv, FjRemove q kv.1) l).
Proof.
  intros Hno. apply Forall_forall. intros op (kv & -> & Hkv)%list_elem_of_fmap. intros [<- <-].
  destruct Hno as [?|Hno]; [done|]. by apply Hno, list_elem_of_fmap_2.
Qed.
Lemma removes_not_weak p k q (l : list (string * string)) :
  Forall (λ op, ¬ weakly_removes p k op) (map (λ kv, FjRemove q kv.1) l).
Proof. apply Forall_forall. intros op (kv & -> & _)%list_elem_of_fmap. by intros []. Qed.

(** Batches without weak tombstones on a key. *)
Lemma untouched_all_not_weak p k ops :
  Forall (λ op, ¬ fj_touches p k op) ops → Forall (λ op, ¬ weakly_removes p k op) ops.
Proof. intros Hops. eapply Forall_impl; [exact Hops|]. intros op. apply untouched_not_weak. Qed.
Lemma not_weak_app p k ops1 ops2 :
  Forall (λ op, ¬ weakly_removes p k op) ops1 → Forall (λ op, ¬ weakly_removes p k op) ops2 →
  Forall (λ op, ¬ weakly_removes p k op) (ops1 ++ ops2).
Proof. intros H1 H2. by apply Forall_app. Qed.
Lemma not_weak_nil p k : Forall (λ op, ¬ weakly_removes p k op) [].
Proof. constructor. Qed.
Lemma not_weak_insert p k p' k' v ops :
  Forall (λ op, ¬ weakly_removes p k op) ops → Forall (λ op, ¬ weakly_removes p k op) (FjInsert p' k' v :: ops).
Proof. constructor; [by intros []|done]. Qed.
Lemma not_weak_remove p k p' k' ops :
  Forall (λ op, ¬ weakly_removes p k op) ops → Forall (λ op, ¬ weakly_removes p k op) (FjRemove p' k' :: ops).
Proof. constructor; [by intros []|done]. Qed.
#[export] Hint Resolve removes_not_weak not_weak_app not_weak_nil not_weak_insert not_weak_remove : microcosm.
#[export] Hint Resolve untouched_all_not_weak | 9 : microcosm.

(** ** Key order *)

Lemma bytes_lt_trans a b c : bytes_compare a b = Lt → bytes_compare b c = Lt → bytes_compare a c = Lt.
Proof.
  revert b c; induction a as [|x a IH]; intros [|y b] [|z c]; try done. simpl.
  destruct (N.compare_spec (byte_n x) (byte_n y)) as [E1|L1|]; try done;
    destruct (N.compare_spec (byte_n y) (byte_n z)) as [E2|L2|]; try done; intros H1 H2.
  - rewrite E1, E2, N.compare_refl. eauto.
  - rewrite E1. by rewrite (proj2 (N.compare_lt_iff _ _)).
  - rewrite <- E2. by rewrite (proj2 (N.compare_lt_iff _ _)).
  - by rewrite (proj2 (N.compare_lt_iff (byte_n x) (byte_n z))) by lia.
Qed.

Lemma key_lt_irrefl a : ¬ key_lt a a.
Proof. unfold key_lt. by rewrite bytes_compare_refl. Qed.
#[global] Instance key_lt_trans : Transitive key_lt.
Proof. intros a b c. apply bytes_lt_trans. Qed.

Lemma sorted_NoDup l : StronglySorted key_lt l → NoDup l.*1.
Proof.
  induction 1 as [|a l Hs IH Hall]; [constructor|]. apply NoDup_cons. split; [|done].
  intros (b & E & Hb)%list_elem_of_fmap. rewrite Forall_forall in Hall. specialize (Hall b Hb).
  unfold key_lt in Hall. by rewrite E, bytes_compare_refl in Hall.
Qed.

(** A strictly sorted list is determined by its entries. *)
Lemma sorted_unique l1 l2 :
  StronglySorted key_lt l1 → StronglySorted key_lt l2 → (∀ x, x ∈ l1 ↔ x ∈ l2) → l1 = l2.
Proof.
  intros H1. revert l2. induction H1 as [|a l1 Hs1 IH Ha]; intros l2 H2 Hx.
  - destruct l2 as [|b l2]; [done|]. exfalso. apply (not_elem_of_nil b), Hx. by left.
  - destruct H2 as [|b l2 Hs2 Hb]; [exfalso; apply (not_elem_of_nil a), Hx; by left|].
    rewrite Forall_forall in Ha, Hb.
    assert (a = b) as <-.
    { assert (a ∈ b :: l2) as Hin by (apply Hx; by left). apply elem_of_cons in Hin as [|Hin]; [done|].
      assert (b ∈ a :: l1) as Hin' by (apply Hx; by left). apply elem_of_cons in Hin' as [|Hin']; [done|].
      destruct (key_lt_irrefl a). etrans; [by apply Ha|by apply Hb]. }
    f_equal. apply IH; [done|]. intros x. specialize (Hx x). rewrite !elem_of_cons in Hx. split; intros Hin.
    + destruct (proj1 Hx (or_intror Hin)) as [->|]; [|done]. destruct (key_lt_irrefl a). by apply Ha.
    + destruct (proj2 Hx (or_intror Hin)) as [->|]; [|done]. destruct (key_lt_irrefl a). by apply Hb.
Qed.

Lemma sorted_filter (P : string * string → Prop) `{∀ x, Decision (P x)} l :
  StronglySorted key_lt l → StronglySorted key_lt (filter P l).
Proof.
  induction 1 as [|a l Hs IH Hall]; [constructor|]. rewrite filter_cons. case_decide; [|done].
  constructor; [done|]. rewrite Forall_forall in *. intros x [_ Hx]%list_elem_of_filter. by apply Hall.
Qed.

(** ** A reference instance *)

Module FjallReference.

#[export] Instance key_le_dec (a b : string * string) : Decision (bytes_compare a.1 b.1 ≠ Gt) := _.

Definition fj_step (m : gmap (string * string) string) (op : FjOp) : gmap (string * string) string :=
  match op with
  | FjInsert p k v => <[(p, k) := v]> m
  | FjRemove p k | FjRemoveWeak p k => delete (p, k) m
  end.

(** The entries of a partition that satisfy a test, sorted. *)
Definition scan (m : gmap (string * string) string) (p : string) (f : string → bool) : list (string * string) :=
  merge_sort (λ a b, bytes_compare a.1 b.1 ≠ Gt)
    (omap (λ e : (string * string) * string,
       if decide (e.1.1 = p) then if f e.1.2 then Some (e.1.2, e.2) else None else None) (map_to_list m)).

#[export] Instance ref_fjall : Fjall := {|
  Keyspace := gmap (string * string) string;
  fj_get m p k := m !! (p, k);
  fj_range m p lo hi := scan m p (λ k, above lo k && below hi k);
  fj_prefix m p pre := scan m p (starts_with pre);
  fj_commit m ops := fold_left fj_step ops m
|}.

Lemma scan_spec m p f k v : (k, v) ∈ scan m p f ↔ m !! (p, k) = Some v ∧ f k = true.
Proof.
  unfold scan. rewrite merge_sort_Permutation, list_elem_of_omap. split.
  - intros ([[p' k'] v'] & Hin & E). simpl in E. case_decide; [|done]. destruct (f k') eqn:Ef; [|done].
    simplify_eq. by apply elem_of_map_to_list in Hin.
  - intros [Hm Hf]. exists ((p, k), v). rewrite elem_of_map_to_list. split; [done|]. simpl.
    rewrite decide_True by done. by rewrite Hf.
Qed.

Lemma omap_NoDup_keys p (f : string → bool) (l : list ((string * string) * string)) :
  NoDup l.*1 →
  NoDup (omap (λ e : (string * string) * string,
    if decide (e.1.1 = p) then if f e.1.2 then Some (e.1.2, e.2) else None else None) l).*1.
Proof.
  induction l as [|[[c k] v] l IH]; simpl; [constructor|]. intros [Hk Hnd]%NoDup_cons.
  specialize (IH Hnd). case_decide; [|done]. destruct (f k); [|done]. simpl. subst c.
  apply NoDup_cons. split; [|done]. rewrite list_elem_of_fmap. intros ([k' v'] & -> & Hin).
  apply list_elem_of_omap in Hin as ([[c2 k2] v2] & Hin & Hc). simpl in Hc.
  case_decide; [|done]. destruct (f k2); [|done]. simplify_eq. apply Hk.
  apply list_elem_of_fmap. by exists ((p, k'), v').
Qed.

#[local] Instance key_le_total : Total (λ a b : string * string, bytes_compare a.1 b.1 ≠ Gt).
Proof. intros a b. rewrite (bytes_compare_antisym a.1 b.1). destruct (bytes_compare a.1 b.1); simpl; auto. Qed.
#[local] Instance key_le_trans : Transitive (λ a b : string * string, bytes_compare a.1 b.1 ≠ Gt).
Proof.
  intros a b c H1 H2. destruct (bytes_compare a.1 b.1) eqn:E1; [| |done].
  - apply bytes_compare_eq in E1. by rewrite E1.
  - destruct (bytes_compare b.1 c.1) eqn:E2; [| |done].
    + apply bytes_compare_eq in E2. rewrite <- E2, E1. done.
    + by rewrite (bytes_lt_trans _ _ _ E1 E2).
Qed.

Lemma scan_sorted m p f : StronglySorted key_lt (scan m p f).
Proof.
  assert (Hnd : NoDup (scan m p f).*1).
  { unfold scan. rewrite merge_sort_Permutation. apply omap_NoDup_keys, NoDup_fst_map_to_list. }
  assert (Hs : StronglySorted (λ a b : string * string, bytes_compare a.1 b.1 ≠ Gt) (scan m p f)).
  { apply Sorted_StronglySorted; [apply _|]. apply Sorted_merge_sort. apply _. }
  induction Hs as [|a l Hs IH Hall]; [constructor|]. simpl in Hnd. apply NoDup_cons in Hnd as [Ha Hnd].
  constructor; [by apply IH|]. rewrite Forall_forall in *. intros b Hb. specialize (Hall b Hb). unfold key_lt.
  destruct (bytes_compare a.1 b.1) eqn:E; [|done|done]. apply bytes_compare_eq in E.
  destruct Ha. rewrite E. by apply list_elem_of_fmap_2.
Qed.

Lemma ref_commit (d : gmap (string * string) string) ops p k : fold_left fj_step ops d !! (p, k) = fj_applies ops p k (d !! (p, k)).
Proof.
  unfold fj_applies. revert d. induction ops as [|op ops IH]; intros d; simpl; [done|]. rewrite IH. f_equal.
  destruct op as [c x v|c x|c x]; simpl; [rewrite lookup_insert|rewrite lookup_delete|rewrite lookup_delete];
    repeat case_decide; naive_solver.
Qed.

#[export] Instance ref_fjall_laws : FjallLaws.
Proof.
  split; simpl in *.
  - intros d ops p k _. apply ref_commit.
  - intros d p lo hi k v. rewrite scan_spec, andb_true_iff. done.
  - intros. apply scan_sorted.
  - intros d p pre k v. apply scan_spec.
  - intros. apply scan_sorted.
Qed.

End FjallReference.

(** ** An instance with its history *)

Module FjallHistory.
Import FjallReference.

Definition History : Type := gmap (string * string) string * list FjOp.

#[export] Instance hist_fjall : Fjall := {|
  Keyspace := History;
  fj_get d p k := fj_get (Fjall := ref_fjall) d.1 p k;
  fj_range d p lo hi := fj_range (Fjall := ref_fjall) d.1 p lo hi;
  fj_prefix d p pre := fj_prefix (Fjall := ref_fjall) d.1 p pre;
  fj_commit d ops := (fj_commit (Fjall := ref_fjall) d.1 ops, d.2 ++ ops)
|}.
#[export] Instance hist_weak : FjallWeak (H := hist_fjall) := λ d p k, sum_list_with (fj_insert_at p k) d.2.

#[export] Instance hist_fjall_laws : FjallLaws (H := hist_fjall).
Proof. split; simpl; intros; [by apply ref_fjall_laws|apply (fj_range_spec (H := ref_fjall))|apply ref_fjall_laws|apply ref_fjall_laws|apply ref_fjall_laws]. Qed.
#[export] Instance hist_weak_laws : FjallWeakLaws (H0 := hist_weak).
Proof.
  split; unfold fj_inserts, hist_weak.
  - intros [m h] ops p k. simpl. by rewrite sum_list_with_app.
  - intros [m h] ops p k _. simpl. apply ref_commit.
Qed.
End FjallHistory.
