(* ===== verification/UfosStorage.v ===== *)
(** * ufos: the fjall storage, writing side (ufos/src/storage_fjall.rs)

    The keyspace is byte-level: every operation encodes its keys and values
    with the types of [UfosStoreTypes] and goes through the interface of
    [UfosFjallApi].  This file holds the operations; their properties are in
    [UfosRollup], [UfosBackground], [UfosInsert], [UfosInit] and [UfosTrim].
    Errors of the disk and of joining a task are outside the model. *)

From S2P Require Import Prelude RustStr Bytes UfosCursor UfosDbTypes.
From S2P Require Import UfosStoreTypes UfosBatch UfosFjallApi.
Import Db Store Batch.

(** ** Errors *)

(** [StorageError] of error.rs, and panics.  The texts are abridged: values that
    the source formats into a message are left out. *)
Inductive StorageError : Type :=
  | InitError (msg : string)
  | BadStateError (msg : string)
  | EncodingFailed (e : EncodingError)
  | Stolen
  | JoinError (msg : string)
  | BackgroundAlreadyStarted
  | BatchSenderExited
  | StoragePanic (msg : string).

Abbreviation StorageResult := (result StorageError).

(** [?] on an [EncodingResult]. *)
Definition lift_encoding {A} (r : EncodingResult A) : StorageResult A :=
  match r with
  | Ok a => Ok a
  | Err (Encoding e) => Err (EncodingFailed e)
  | Err (Panics msg) => Err (StoragePanic msg)
  end.

Definition enc {T} `{DbBytes T} (x : T) : StorageResult string := lift_encoding (to_db_bytes x).
Definition dec {T} `{DbBytes T} (bytes : string) : StorageResult T := lift_encoding (db_complete bytes).

(** [.as_deref().map(db_complete).transpose()]. *)
Definition dec_opt {T} `{DbBytes T} (o : option string) : StorageResult (option T) :=
  match o with
  | Some bytes => x ←? dec bytes; Ok (Some x)
  | None => Ok None
  end.

(** ** Partitions and fixed keys *)

Definition GLOBAL : string := "global".
Definition FEEDS : string := "feeds".
Definition RECORDS : string := "records".
Definition ROLLUPS : string := "rollups".
Definition QUEUES : string := "queues".

Definition MAX_BATCHED_ACCOUNT_DELETE_RECORDS : nat := 1024.
Definition MAX_BATCHED_ROLLUP_COUNTS : nat := 256.

(** [SketchSecretPrefix = [u8; 16]], encoded by bincode. *)
Record SketchSecretPrefix : Type := mkSecret { secret_bytes : string }.

Module FjallStore.
Section Storage.
Context `{Fjall, LsmTree, Atrium, Bincode2 string, SketchOps}.
Context `{Bincode2 CommitCounts, Bincode2 RecordLocationMeta, Bincode2 Sketch, Bincode2 SketchSecretPrefix}.

#[global] Instance secret_db_bytes : DbBytes SketchSecretPrefix := {
  to_db_bytes := bincode_to_db_bytes; from_db_bytes := bincode_from_db_bytes }.

(** The type of a rollup value, as the instances see it. *)
Abbreviation Counts := (DbConcat CommitCounts Sketch).

Definition static_key (K : string) : StorageResult string := enc (the_static_str : DbStaticStr K).

Definition get_static_neu (K : string) {V} `{DbBytes V} (d : Keyspace) : StorageResult (option V) :=
  key_bytes ←? static_key K;
  dec_opt (fj_get d GLOBAL key_bytes).

Definition insert_static_neu (K : string) {V} `{DbBytes V} (d : Keyspace) (value : V) : StorageResult Keyspace :=
  key_bytes ←? static_key K;
  value_bytes ←? enc value;
  Ok (fj_commit d [FjInsert GLOBAL key_bytes value_bytes]).

Definition init_static_neu (K : string) {V} `{DbBytes V} (d : Keyspace) (value : V) : StorageResult Keyspace :=
  key_bytes ←? static_key K;
  match fj_get d GLOBAL key_bytes with
  | Some _ => Err (InitError ("init failed: value for key " +:+ key_bytes +:+ " already exists"))
  | None =>
      value_bytes ←? enc value;
      Ok (fj_commit d [FjInsert GLOBAL key_bytes value_bytes])
  end.

Definition insert_batch_static_neu (K : string) {V} `{DbBytes V} (batch : list FjOp) (value : V)
    : StorageResult (list FjOp) :=
  key_bytes ←? static_key K;
  value_bytes ←? enc value;
  Ok (batch ++ [FjInsert GLOBAL key_bytes value_bytes]).

(** ** Opening *)

(** [random]: the bytes [getrandom] gives, [now]: the clock, in microseconds. *)
Definition init (d : Keyspace) (endpoint : string) (force_endpoint : bool)
    (random : option SketchSecretPrefix) (now : Cursor)
    : StorageResult (Keyspace * option Cursor * SketchSecretPrefix) :=
  js_cursor ←? get_static_neu JetstreamCursorKey (V := Cursor) d;
  match js_cursor with
  | Some _ =>
      stored_endpoint ←? get_static_neu JetstreamEndpointKey (V := JetstreamEndpointValue) d;
      match stored_endpoint with
      | None => Err (InitError "found cursor but missing js_endpoint, refusing to start.")
      | Some (mkEndpoint stored) =>
          stored_secret ←? get_static_neu SketchSecretKey (V := SketchSecretPrefix) d;
          match stored_secret with
          | None => Err (InitError "found cursor but missing sketch_secret, refusing to start.")
          | Some stored_secret =>
              if decide (stored = endpoint) then Ok (d, js_cursor, stored_secret)
              else if force_endpoint then
                d ←? insert_static_neu JetstreamEndpointKey d (mkEndpoint endpoint);
                Ok (d, js_cursor, stored_secret)
              else Err (InitError "stored js_endpoint differs from provided, refusing to start without --jetstream-force.")
          end
      end
  | None =>
      d ←? init_static_neu JetstreamEndpointKey d (mkEndpoint endpoint);
      match random with
      | None => Err (InitError "failed to get a random secret for cardinality sketches")
      | Some sketch_secret =>
          d ←? init_static_neu SketchSecretKey d sketch_secret;
          d ←? init_static_neu TakeoffKey d now;
          d ←? init_static_neu NewRollupCursorKey d (mkCursor 0);
          Ok (d, None, sketch_secret)
      end
  end.

(** ** Inserting a batch *)

(** [From<(&UFOsCommit, &Nsid)> for RecordLocationKey]. *)
Definition location_key_from_commit (commit : UFOsCommit) (collection : Nsid) : DbConcat Did (DbConcat Nsid RecordKey) :=
  from_pair (c_did commit) (from_pair collection (c_rkey commit)).

(** One commit of the inner loop. *)
Definition insert_commit (nsid : Nsid) (batch : list FjOp) (commit : UFOsCommit) : StorageResult (list FjOp) :=
  let location_key := location_key_from_commit commit nsid in
  match c_action commit with
  | Cut =>
      k ←? enc location_key;
      Ok (batch ++ [FjRemove RECORDS k])
  | Put record is_update =>
      feed_key ←? enc (from_pair nsid (c_cursor commit) : DbConcat Nsid Cursor);
      feed_val ←? enc (feed_val_from (c_did commit) (c_rkey commit) (c_rev commit) : DbConcat Did (DbConcat RecordKey string));
      k ←? enc location_key;
      v ←? enc (location_val_from (c_cursor commit) (c_rev commit) record is_update : DbConcat RecordLocationMeta RawBytes);
      Ok (batch ++ [FjInsert FEEDS feed_key feed_val; FjInsert RECORDS k v])
  end.

(** One collection of the outer loop. *)
Definition insert_collection (latest : Cursor) (batch : list FjOp) (e : string * CollectionCommits)
    : StorageResult (list FjOp) :=
  let nsid := mkNsid e.1 in
  let commits := e.2 in
  batch ←? foldl_res (insert_commit nsid) batch (cc_commits commits);
  k ←? enc (live_counts_key latest nsid : DbConcat (DbConcat (DbStaticStr "live_counts") Cursor) Nsid);
  v ←? enc (counts_value_new (mkCounts (N.of_nat (cc_creates commits)) (N.of_nat (cc_updates commits))
                               (N.of_nat (cc_deletes commits))) (cc_dids_estimate commits) : Counts);
  Ok (batch ++ [FjInsert ROLLUPS k v]).

Definition insert_remove (batch : list FjOp) (remove : DeleteAccount) : StorageResult (list FjOp) :=
  k ←? enc (delete_account_queue_key (del_cursor remove) : DbConcat (DbStaticStr "delete_acount") Cursor);
  v ←? enc (del_did remove);
  Ok (batch ++ [FjInsert QUEUES k v]).

Definition insert_batch (d : Keyspace) (event_batch : EventBatch) : StorageResult Keyspace :=
  if is_empty event_batch then Ok d
  else
    match latest_cursor event_batch with
    | None => Err (StoragePanic "called `Option::unwrap()` on a `None` value")
    | Some latest =>
        batch ←? foldl_res (insert_collection latest) [] (map_to_list (commits_by_nsid event_batch));
        batch ←? foldl_res insert_remove batch (account_removes event_batch);
        batch ←? insert_batch_static_neu JetstreamCursorKey batch latest;
        Ok (fj_commit d batch)
    end.

(** ** Deleting an account *)

(** The loop over the records of the account: the keyspace, the batch and the
    count so far. *)
Definition delete_record (st : Keyspace * list FjOp * nat) (kv : string * string) : Keyspace * list FjOp * nat :=
  let '(d, batch, records_deleted) := st in
  let batch := batch ++ [FjRemove RECORDS kv.1] in
  if decide (MAX_BATCHED_ACCOUNT_DELETE_RECORDS ≤ length batch)
  then (fj_commit d batch, [], S records_deleted)
  else (d, batch, S records_deleted).

Definition delete_account (d : Keyspace) (did : Did) : StorageResult (Keyspace * nat) :=
  prefix ←? enc did;
  let '(d, batch, records_deleted) := fold_left delete_record (fj_prefix d RECORDS prefix) (d, [], 0) in
  Ok (fj_commit d batch, records_deleted).

(** ** Rolling up *)

Definition rollup_delete_account (d : Keyspace) (cursor : Cursor) (key_bytes val_bytes : string)
    : StorageResult (Keyspace * nat) :=
  did ←? dec (T := Did) val_bytes;
  '(d, _) ←? delete_account d did;
  batch ←? insert_batch_static_neu NewRollupCursorKey [FjRemove QUEUES key_bytes] cursor;
  Ok (fj_commit d batch, 1).

Inductive Rollup : Type :=
  | Hourly (hour : HourTruncatedCursor)
  | Weekly (week : WeekTruncatedCursor)
  | AllTime.

#[global] Instance Rollup_eq_dec : EqDecision Rollup.
Proof. intros [[a]|[a]|] [[b]|[b]|]; try (right; done); try (left; done);
  destruct (decide (a = b)) as [->|Hne]; [by left|right; congruence|by left|right; congruence]. Defined.
#[global] Instance Rollup_countable : Countable Rollup.
Proof.
  apply (inj_countable' (λ r, match r with Hourly h => inl (truncated h) | Weekly w => inr (inl (truncated w)) | AllTime => inr (inr tt) end)
    (λ x, match x with inl h => Hourly (mkTruncated h) | inr (inl w) => Weekly (mkTruncated w) | inr (inr _) => AllTime end)).
  by intros [[]|[]|].
Defined.

Definition counts_default : Counts := from_pair (mkCounts 0 0 0) sketch_default.

(** [counts_by_rollup.entry(k).or_default().merge(&val)]. *)
Definition merge_entry (m : gmap (string * Rollup) Counts) (k : string * Rollup) (val : Counts)
    : StorageResult (gmap (string * Rollup) Counts) :=
  merged ←? lift_encoding (counts_value_merge (default counts_default (m !! k)) val);
  Ok (<[k := merged]> m).

(** The state of the loop over the live counts. *)
Record RollupLoop : Type := mkLoop {
  dirty_nsids : gset string;
  rl_batch : list FjOp;
  cursors_advanced : nat;
  last_cursor : Cursor;
  counts_by_rollup : gmap (string * Rollup) Counts
}.

Definition hour_of (c : Cursor) : HourTruncatedCursor := mkTruncated (Trunc.truncate_cursor Trunc.HOUR_IN_MICROS (cursor_us c)).
Definition week_of (c : Cursor) : WeekTruncatedCursor := mkTruncated (Trunc.truncate_cursor Trunc.WEEK_IN_MICROS (cursor_us c)).

Definition past_limit (limit : option Cursor) (c : Cursor) : bool :=
  match limit with Some l => (cursor_us l <? cursor_us c)%N | None => false end.

(** [n] more items may be taken ([i >= rollup_limit] breaks). *)
Fixpoint take_live (timelies : list (string * string)) (cursor_exclusive_limit : option Cursor) (n : nat)
    (st : RollupLoop) : StorageResult RollupLoop :=
  match timelies, n with
  | [], _ | _, O => Ok st
  | (key_bytes, val_bytes) :: timelies, S n =>
      key ←? dec (T := DbConcat (DbConcat (DbStaticStr "live_counts") Cursor) Nsid) key_bytes;
      let cursor := live_counts_cursor key in
      let nsid := nsid_str (live_counts_collection key) in
      if past_limit cursor_exclusive_limit cursor then Ok st
      else
        val ←? dec (T := Counts) val_bytes;
        m ←? merge_entry (counts_by_rollup st) (nsid, Hourly (hour_of cursor)) val;
        m ←? merge_entry m (nsid, Weekly (week_of cursor)) val;
        m ←? merge_entry m (nsid, AllTime) val;
        take_live timelies cursor_exclusive_limit n
          (mkLoop ({[nsid]} ∪ dirty_nsids st) (rl_batch st ++ [FjRemove ROLLUPS key_bytes])
             (S (cursors_advanced st)) cursor m)
  end.

Definition rollup_key (rollup : Rollup) (nsid : Nsid) : StorageResult string :=
  match rollup with
  | Hourly h => enc (rollup_new (hourly_prefix h) nsid : DbConcat (DbConcat (DbStaticStr "hourly_counts") (TruncatedCursor _)) Nsid)
  | Weekly w => enc (rollup_new (weekly_prefix w) nsid : DbConcat (DbConcat (DbStaticStr "weekly_counts") (TruncatedCursor _)) Nsid)
  | AllTime => enc (rollup_new the_static_str nsid : DbConcat (DbStaticStr "ever_counts") Nsid)
  end.

Definition records_rank_key (rollup : Rollup) (rank : N) (nsid : Nsid) : StorageResult string :=
  match rollup with
  | Hourly h => enc (ranked_key h (mkKeyRank rank) nsid :
      DbConcat (DbConcat (DbStaticStr "hourly_rank_records") (TruncatedCursor _)) (DbConcat KeyRank Nsid))
  | Weekly w => enc (ranked_key w (mkKeyRank rank) nsid :
      DbConcat (DbConcat (DbStaticStr "weekly_rank_records") (TruncatedCursor _)) (DbConcat KeyRank Nsid))
  | AllTime => enc (all_time_ranked_key (mkKeyRank rank) nsid :
      DbConcat (DbStaticStr "ever_rank_records") (DbConcat KeyRank Nsid))
  end.

Definition dids_rank_key (rollup : Rollup) (rank : N) (nsid : Nsid) : StorageResult string :=
  match rollup with
  | Hourly h => enc (ranked_key h (mkKeyRank rank) nsid :
      DbConcat (DbConcat (DbStaticStr "hourly_rank_dids") (TruncatedCursor _)) (DbConcat KeyRank Nsid))
  | Weekly w => enc (ranked_key w (mkKeyRank rank) nsid :
      DbConcat (DbConcat (DbStaticStr "weekly_rank_dids") (TruncatedCursor _)) (DbConcat KeyRank Nsid))
  | AllTime => enc (all_time_ranked_key (mkKeyRank rank) nsid :
      DbConcat (DbStaticStr "ever_rank_dids") (DbConcat KeyRank Nsid))
  end.

(** A rank index moves from the old to the new rank, if it changed. *)
Definition move_rank (key : N → StorageResult string) (before after : N) (batch : list FjOp)
    : StorageResult (list FjOp) :=
  if decide (after = before) then Ok batch
  else
    old_k ←? key before;
    new_k ←? key after;
    Ok (batch ++ [FjRemoveWeak ROLLUPS old_k; FjInsert ROLLUPS new_k ""]).

(** One iteration of the loop that merges into the database. *)
Definition write_rollup (d : Keyspace) (batch : list FjOp) (e : (string * Rollup) * Counts) : StorageResult (list FjOp) :=
  let '((nsid, rollup), c) := e in
  let nsid := mkNsid nsid in
  rollup_key_bytes ←? rollup_key rollup nsid;
  stored ←? dec_opt (T := Counts) (fj_get d ROLLUPS rollup_key_bytes);
  let rolled := default counts_default stored in
  let before_creates_count := creates (counts rolled) in
  let before_dids_estimate := sketch_estimate (dids rolled) in
  rolled ←? lift_encoding (counts_value_merge rolled c);
  let new_creates_count := creates (counts rolled) in
  let new_dids_estimate := sketch_estimate (dids rolled) in
  batch ←? move_rank (λ rank, records_rank_key rollup rank nsid) before_creates_count new_creates_count batch;
  batch ←? move_rank (λ rank, dids_rank_key rollup rank nsid) before_dids_estimate new_dids_estimate batch;
  v ←? enc (rolled : Counts);
  Ok (batch ++ [FjInsert ROLLUPS rollup_key_bytes v]).

Definition rollup_live_counts (d : Keyspace) (timelies : list (string * string))
    (cursor_exclusive_limit : option Cursor) (rollup_limit : nat) : StorageResult (Keyspace * nat * gset string) :=
  st ←? take_live timelies cursor_exclusive_limit rollup_limit (mkLoop ∅ [] 0 (mkCursor 0) ∅);
  batch ←? foldl_res (write_rollup d) (rl_batch st) (map_to_list (counts_by_rollup st));
  batch ←? insert_batch_static_neu NewRollupCursorKey batch (last_cursor st);
  Ok (fj_commit d batch, cursors_advanced st, dirty_nsids st).

Definition half_open (r : string * string) : Bound * Bound := (Included r.1, Excluded r.2).

Definition step_rollup (d : Keyspace) : StorageResult (Keyspace * nat * gset string) :=
  o ←? get_static_neu NewRollupCursorKey (V := Cursor) d;
  match o with
  | None => Err (BadStateError "Could not find current rollup cursor")
  | Some rollup_cursor =>
      live_counts_range ←? lift_encoding (range_from_cursor rollup_cursor);
      let '(lo, hi) := half_open live_counts_range in
      let timely_iter := fj_range d ROLLUPS lo hi in
      timely_next ←? match timely_iter with
        | [] => Ok None
        | (key_bytes, _) :: _ =>
            key ←? dec (T := DbConcat (DbConcat (DbStaticStr "live_counts") Cursor) Nsid) key_bytes; Ok (Some key)
        end;
      delete_accounts_range ←? lift_encoding (range_to_prefix_end
        (delete_account_queue_key rollup_cursor : DbConcat (DbStaticStr "delete_acount") Cursor));
      let '(lo, hi) := half_open delete_accounts_range in
      next_delete ←? match fj_range d QUEUES lo hi with
        | [] => Ok None
        | (key_bytes, val_bytes) :: _ =>
            k ←? dec (T := DbConcat (DbStaticStr "delete_acount") Cursor) key_bytes;
            Ok (Some (suffix k, key_bytes, val_bytes))
        end;
      match timely_next, next_delete with
      | Some timely, Some (delete_cursor, delete_key_bytes, delete_val_bytes) =>
          if (cursor_us (live_counts_cursor timely) <? cursor_us delete_cursor)%N
          then rollup_live_counts d timely_iter (Some delete_cursor) MAX_BATCHED_ROLLUP_COUNTS
          else '(d, n) ←? rollup_delete_account d delete_cursor delete_key_bytes delete_val_bytes; Ok (d, n, ∅)
      | Some _, None => rollup_live_counts d timely_iter None MAX_BATCHED_ROLLUP_COUNTS
      | None, Some (delete_cursor, delete_key_bytes, delete_val_bytes) =>
          '(d, n) ←? rollup_delete_account d delete_cursor delete_key_bytes delete_val_bytes; Ok (d, n, ∅)
      | None, None => Ok (d, 0, ∅)
      end
  end.

(** ** Trimming a collection *)

(** [feeds.range(..).rev()] starts here. *)
Definition trim_range (d : Keyspace) (collection : Nsid) (full_scan : bool) : StorageResult (string * string) :=
  if full_scan then
    start ←? lift_encoding (from_prefix_to_db_bytes collection);
    stop ←? lift_encoding (prefix_range_end collection);
    Ok (start, stop)
  else
    feed_trim_cursor_key ←? enc (trim_collection_cursor_key collection : DbConcat (DbStaticStr "trim_cursor") Nsid);
    trim_cursor ←? dec_opt (T := Cursor) (fj_get d GLOBAL feed_trim_cursor_key);
    lift_encoding (range_to_prefix_end (from_pair collection (default (mkCursor 0) trim_cursor) : DbConcat Nsid Cursor)).

Record TrimLoop : Type := mkTrim {
  tl_db : Keyspace;
  dangling_feed_keys_cleaned : nat;
  records_deleted : nat;
  live_records_found : nat;
  candidate_new_feed_lower_cursor : option Cursor
}.

Definition dangling (st : TrimLoop) (d : Keyspace) : TrimLoop :=
  mkTrim d (S (dangling_feed_keys_cleaned st)) (records_deleted st)
    (live_records_found st) (candidate_new_feed_lower_cursor st).

(** [partition.remove(key)]. *)
Definition remove (d : Keyspace) (partition key : string) : Keyspace := fj_commit d [FjRemove partition key].

(** One iteration of the loop. *)
Definition trim_entry (limit : nat) (st : TrimLoop) (kv : string * string) : StorageResult TrimLoop :=
  let '(key_bytes, val_bytes) := kv in
  feed_key ←? dec (T := DbConcat Nsid Cursor) key_bytes;
  feed_val ←? dec (T := DbConcat Did (DbConcat RecordKey string)) val_bytes;
  location_key_bytes ←? enc (location_key_from_feed feed_key feed_val : DbConcat Did (DbConcat Nsid RecordKey));
  match fj_get (tl_db st) RECORDS location_key_bytes with
  | None => Ok (dangling st (remove (tl_db st) FEEDS key_bytes))
  | Some location_val_bytes =>
      '(meta, _) ←? lift_encoding (from_db_bytes (T := RecordLocationMeta) location_val_bytes);
      if decide (mkCursor (meta_cursor meta) ≠ nrf_cursor feed_key) then Ok (dangling st (remove (tl_db st) FEEDS key_bytes))
      else if decide (meta_rev meta ≠ nrf_rev feed_val)
      then Ok (dangling st (remove (remove (tl_db st) RECORDS location_key_bytes) FEEDS key_bytes))
      else
        let live := S (live_records_found st) in
        if decide (live ≤ limit) then
          Ok (mkTrim (tl_db st) (dangling_feed_keys_cleaned st) (records_deleted st) live
                (candidate_new_feed_lower_cursor st))
        else
          Ok (mkTrim (remove (remove (tl_db st) RECORDS location_key_bytes) FEEDS key_bytes)
                (dangling_feed_keys_cleaned st) (S (records_deleted st)) live
                (Some (default (nrf_cursor feed_key) (candidate_new_feed_lower_cursor st))))
  end.

Definition trim_collection (d : Keyspace) (collection : Nsid) (limit : nat) (full_scan : bool)
    : StorageResult (Keyspace * (nat * nat * bool)) :=
  live_range ←? trim_range d collection full_scan;
  let '(lo, hi) := half_open live_range in
  st ←? foldl_res (trim_entry limit) (mkTrim d 0 0 0 None) (rev (fj_range d FEEDS lo hi));
  d ←? match candidate_new_feed_lower_cursor st with
    | Some new_cursor =>
        k ←? enc (trim_collection_cursor_key collection : DbConcat (DbStaticStr "trim_cursor") Nsid);
        v ←? enc new_cursor;
        Ok (fj_commit (tl_db st) [FjInsert GLOBAL k v])
    | None => Ok (tl_db st)
    end;
  Ok (d, (dangling_feed_keys_cleaned st, records_deleted st, false)).

(** ** Background work *)

(** [bg_taken] and the keyspace. *)
Definition background_tasks (bg_taken : bool) (d : Keyspace) (reroll : bool) : StorageResult (bool * Keyspace) :=
  if bg_taken then Err BackgroundAlreadyStarted
  else if reroll then
    d ←? insert_static_neu NewRollupCursorKey d (mkCursor 0);
    p ←? enc (the_static_str : DbStaticStr "trim_cursor");
    Ok (true, fj_commit d (map (λ kv, FjRemove GLOBAL kv.1) (fj_prefix d GLOBAL p)))
  else Ok (true, d).

(** The two arms of the [select!] of [run]: the keyspace and the dirty nsids. *)
Definition rollup_tick (st : Keyspace * gset string) : StorageResult (Keyspace * gset string) :=
  '(d, _, dirty) ←? step_rollup st.1;
  Ok (d, st.2 ∪ dirty).

Definition TRIM_LIMIT : nat := 512.
Definition TRIM_STOP : N := 10000000.

(** The collections are visited in the order of the list; the result is the
    keyspace and the collections that were completed. *)
Fixpoint trim_all (d : Keyspace) (total_deleted : N) (collections : list string)
    : StorageResult (Keyspace * list string) :=
  match collections with
  | [] => Ok (d, [])
  | c :: collections =>
      '(d, (_, deleted, _)) ←? trim_collection d (mkNsid c) TRIM_LIMIT false;
      let total_deleted := (total_deleted + N.of_nat deleted)%N in
      if (TRIM_STOP <? total_deleted)%N then Ok (d, [c])
      else
        '(d, completed) ←? trim_all d total_deleted collections;
        Ok (d, c :: completed)
  end.

Definition trim_tick (st : Keyspace * gset string) : StorageResult (Keyspace * gset string) :=
  '(d, completed) ←? trim_all st.1 0 (elements st.2);
  Ok (d, st.2 ∖ list_to_set completed).

(** [receive_batches]: insert until an insert fails or the sender is gone. *)
Fixpoint receive_batches (d : Keyspace) (batches : list EventBatch) : Keyspace * StorageError :=
  match batches with
  | [] => (d, BatchSenderExited)
  | event_batch :: batches =>
      match insert_batch d event_batch with
      | Ok d => receive_batches d batches
      | Err e => (d, e)
      end
  end.

End Storage.
End FjallStore.
