(* ===== verification/UfosRollup.v ===== *)
(** * ufos: rolling up the live counts

    What [rollup_live_counts] and [step_rollup] do to the counts: every bucket
    (hour, week, all time) of every collection grows by exactly the live counts
    that are consumed, the consumed live counts are removed, and the total of a
    collection, rolled up plus live, never changes. *)

From Stdlib Require Import Sorted.
From S2P Require Import Prelude RustStr Bytes UfosCursor UfosDbTypes.
From S2P Require Import UfosStoreTypes UfosBatch UfosFjallApi UfosStorage.
Import Db Store Batch FjallStore.

(** ** Families of keys *)

(** The bytes of a literal in key position. *)
Definition static_bytes (lit : string) : string := lit +:+ String NUL "".
Definition in_family (lit k : string) : Prop := ∃ rest, k = static_bytes lit +:+ rest.

Lemma in_family_unique a b k :
  str_contains NUL a = false → str_contains NUL b = false → in_family a k → in_family b k → a = b.
Proof.
  intros Ha Hb [r ->] [s E]. unfold static_bytes in E. rewrite !str_app_assoc, !str_app_cons in E.
  pose proof (split_once_app NUL a ("" +:+ r) Ha) as E1. rewrite E, split_once_app in E1 by done. congruence.
Qed.

Lemma in_family_starts lit k : in_family lit k ↔ starts_with (static_bytes lit) k = true.
Proof. rewrite starts_with_spec. done. Qed.

Lemma family_of_concat {lit S} `{DbBytes S} (x : DbConcat (DbStaticStr lit) S) k :
  to_db_bytes x = Ok k → in_family lit k.
Proof.
  cbn [to_db_bytes concat_db_bytes]. unfold concat_to_db_bytes. cbn [to_db_bytes static_db_bytes].
  unfold string_to_db_bytes. destruct (str_contains NUL lit); [done|]. cbn [result_bind].
  destruct (to_db_bytes (suffix x)) as [b|]; [|done]. intros [= <-]. by exists b.
Qed.
Lemma family_of_concat2 {lit C S} `{DbBytes C, DbBytes S} (x : DbConcat (DbConcat (DbStaticStr lit) C) S) k :
  to_db_bytes x = Ok k → in_family lit k.
Proof.
  cbn [to_db_bytes concat_db_bytes]. unfold concat_to_db_bytes at 1.
  destruct (to_db_bytes (prefix x)) as [b|] eqn:E; [|done]. cbn [result_bind].
  destruct (to_db_bytes (suffix x)) as [c|]; [|done]. intros [= <-].
  apply family_of_concat in E as [r ->]. exists (r +:+ c). by rewrite str_app_assoc.
Qed.

Lemma lift_Ok {A} (r : EncodingResult A) a : lift_encoding r = Ok a ↔ r = Ok a.
Proof. destruct r as [x|[]]; simpl; naive_solver. Qed.

Lemma enc_Ok {T} `{DbBytes T} (x : T) b : enc x = Ok b ↔ to_db_bytes x = Ok b.
Proof. apply lift_Ok. Qed.

Lemma bytes_le_app a b : bytes_compare a (a +:+ b) ≠ Gt.
Proof.
  induction a as [|c a IH]; [by destruct b|]. rewrite str_app_cons. simpl. by rewrite N.compare_refl.
Qed.
Lemma bytes_le_trans a b c : bytes_compare a b ≠ Gt → bytes_compare b c ≠ Gt → bytes_compare a c ≠ Gt.
Proof.
  destruct (bytes_compare a b) eqn:E1; [| |done]; intros _.
  - by apply bytes_compare_eq in E1 as <-.
  - destruct (bytes_compare b c) eqn:E2; [| |done]; intros _.
    + apply bytes_compare_eq in E2 as <-. by rewrite E1.
    + by rewrite (bytes_lt_trans _ _ _ E1 E2).
Qed.

(** [range_to_prefix_end]: from the key to the end of its prefix. *)
Lemma range_to_prefix_end_spec {P S} `{DbBytes P, DbBytes S, LL : LsmTreeLaws} (x : DbConcat P S) pb b :
  to_db_bytes (prefix x) = Ok pb → to_db_bytes x = Ok b →
  str_forallb (λ c, (byte_n c =? 255)%N) pb = false →
  ∃ stop, range_to_prefix_end x = Ok (b, stop) ∧
    ∀ k, in_range b stop k ↔ starts_with pb k = true ∧ bytes_compare b k ≠ Gt.
Proof.
  intros Hpb Hb Hff. destruct (prefix_to_range_spec pb Hff) as (stop & Hr & Hk).
  exists stop. unfold range_to_prefix_end. rewrite Hb. cbn [result_bind].
  unfold range_end, prefix_range_end, as_prefix_range_end. rewrite Hpb. cbn [result_bind]. rewrite Hr.
  split; [done|]. intros k. rewrite <- Hk. unfold in_range.
  assert (bytes_compare pb b ≠ Gt).
  { cbn [to_db_bytes concat_db_bytes] in Hb. unfold concat_to_db_bytes in Hb. rewrite Hpb in Hb. cbn [result_bind] in Hb.
    destruct (to_db_bytes (suffix x)); [|done]. injection Hb as <-. apply bytes_le_app. }
  split; [intros [? ?]|tauto]. split; [|done]. split; [|done]. by eapply bytes_le_trans.
Qed.

(** ** Counts *)

Definition zero_counts : CommitCounts := mkCounts 0 0 0.
Definition add_counts (a b : CommitCounts) : CommitCounts :=
  mkCounts (creates a + creates b) (updates a + updates b) (deletes a + deletes b).
Definition sum_counts (l : list CommitCounts) : CommitCounts := foldr add_counts zero_counts l.

Lemma add_counts_assoc a b c : add_counts a (add_counts b c) = add_counts (add_counts a b) c.
Proof. unfold add_counts. simpl. f_equal; lia. Qed.
Lemma add_counts_comm a b : add_counts a b = add_counts b a.
Proof. unfold add_counts. f_equal; lia. Qed.
Lemma add_counts_0_l a : add_counts zero_counts a = a.
Proof. by destruct a. Qed.
Lemma add_counts_0_r a : add_counts a zero_counts = a.
Proof. rewrite add_counts_comm. apply add_counts_0_l. Qed.
Lemma sum_counts_app l1 l2 : sum_counts (l1 ++ l2) = add_counts (sum_counts l1) (sum_counts l2).
Proof.
  induction l1 as [|a l1 IH]; simpl; [by rewrite add_counts_0_l|]. by rewrite IH, add_counts_assoc.
Qed.
#[global] Instance sum_counts_perm : Proper ((≡ₚ) ==> (=)) sum_counts.
Proof.
  intros l1 l2. induction 1 as [|x l1 l2 _ IH|x y l|l1 l2 l3 _ IH1 _ IH2]; simpl; [done|by rewrite IH| |congruence].
  rewrite !add_counts_assoc, (add_counts_comm x y). done.
Qed.

(** Fieldwise at most, for overflow conditions. *)
Definition counts_le (a b : CommitCounts) : Prop :=
  (creates a ≤ creates b ∧ updates a ≤ updates b ∧ deletes a ≤ deletes b)%N.
Lemma counts_le_wf a b : counts_le a b → wf b → wf a.
Proof. unfold counts_le, wf, counts_wf. lia. Qed.
Lemma counts_le_add_l a b : counts_le a (add_counts a b).
Proof. unfold counts_le, add_counts. simpl. lia. Qed.
Lemma counts_le_refl a : counts_le a a.
Proof. unfold counts_le. lia. Qed.
Lemma counts_le_trans a b c : counts_le a b → counts_le b c → counts_le a c.
Proof. unfold counts_le. lia. Qed.
Lemma counts_le_add a b c d : counts_le a c → counts_le b d → counts_le (add_counts a b) (add_counts c d).
Proof. unfold counts_le, add_counts. simpl. lia. Qed.

Lemma counts_merge_ok a b : wf (add_counts a b) → counts_merge a b = Ok (add_counts a b).
Proof.
  unfold wf, counts_wf, counts_merge, add_u64, add_counts. simpl. intros (H1 & H2 & H3).
  rewrite !(proj2 (N.ltb_lt _ _)) by done. done.
Qed.

(** ** Shapes of keys and values *)

Section Rollup.
Context `{FL : FjallLaws} `{LL : LsmTreeLaws} `{AL : AtriumLaws} `{BL : BincodeStrLaws}.
Context `{SketchOps, Bincode2 CommitCounts, Bincode2 RecordLocationMeta, Bincode2 Sketch, Bincode2 SketchSecretPrefix}.
Context `{!Bincode2Laws CommitCounts, !Bincode2Laws Sketch}.

Abbreviation Counts := (DbConcat CommitCounts Sketch).
Abbreviation LiveKey := (DbConcat (DbConcat (DbStaticStr "live_counts") Cursor) Nsid).
Abbreviation QueueKey := (DbConcat (DbStaticStr "delete_acount") Cursor).

Definition live_family : string := static_bytes "live_counts".
Definition queue_family : string := static_bytes "delete_acount".

Lemma counts_wf_value (c : Counts) : wf (counts c) → wf c.
Proof. intros Hc. split; [exact Hc|done]. Qed.

Lemma dec_codec {T} `{TailCodec T} (x : T) b : wf x → to_db_bytes x = Ok b → dec b = Ok x.
Proof.
  intros Hx Hb. destruct (db_complete_codec x Hx) as (b' & Hb' & Hd). rewrite Hb in Hb'. injection Hb' as <-.
  unfold dec. by rewrite Hd.
Qed.

(** The buckets that can be written. *)
Definition rollup_wf (r : Rollup) : Prop :=
  match r with Hourly h => wf h | Weekly w => wf w | AllTime => True end.

Definition rollup_lit (r : Rollup) : string :=
  match r with Hourly _ => "hourly_counts" | Weekly _ => "weekly_counts" | AllTime => "ever_counts" end.

Lemma rollup_key_Ok r nsid :
  rollup_wf r → wf nsid → ∃ k, rollup_key r nsid = Ok k ∧ in_family (rollup_lit r) k.
Proof.
  intros Hr Hn. destruct r as [h|w|]; cbn [rollup_key rollup_lit] in *.
  - destruct (tail_codec (rollup_new (hourly_prefix h) nsid :
      DbConcat (DbConcat (DbStaticStr "hourly_counts") (TruncatedCursor _)) Nsid)) as (b & Hb & _).
    { split; [split; [done|exact Hr]|exact Hn]. }
    exists b. rewrite enc_Ok. split; [exact Hb|]. by apply family_of_concat2 in Hb.
  - destruct (tail_codec (rollup_new (weekly_prefix w) nsid :
      DbConcat (DbConcat (DbStaticStr "weekly_counts") (TruncatedCursor _)) Nsid)) as (b & Hb & _).
    { split; [split; [done|exact Hr]|exact Hn]. }
    exists b. rewrite enc_Ok. split; [exact Hb|]. by apply family_of_concat2 in Hb.
  - destruct (tail_codec (rollup_new the_static_str nsid : DbConcat (DbStaticStr "ever_counts") Nsid)) as (b & Hb & _).
    { split; [done|exact Hn]. }
    exists b. rewrite enc_Ok. split; [exact Hb|]. by apply family_of_concat in Hb.
Qed.

(** Keys of different buckets or collections differ. *)
Lemma codec_inj {T} `{TailCodec T} (x y : T) b : wf x → wf y → to_db_bytes x = Ok b → to_db_bytes y = Ok b → x = y.
Proof. intros Hx Hy Hbx Hby. apply (dec_codec x b Hx) in Hbx. apply (dec_codec y b Hy) in Hby. congruence. Qed.

Lemma rollup_key_inj r n r' n' k :
  rollup_wf r → wf n → rollup_wf r' → wf n' → rollup_key r n = Ok k → rollup_key r' n' = Ok k → r = r' ∧ n = n'.
Proof.
  intros Hr Hn Hr' Hn' Hk Hk'.
  assert (E : rollup_lit r = rollup_lit r').
  { destruct (rollup_key_Ok r n Hr Hn) as (b & Hb & Hf), (rollup_key_Ok r' n' Hr' Hn') as (b' & Hb' & Hf').
    rewrite Hk in Hb. rewrite Hk' in Hb'. injection Hb as <-. injection Hb' as <-.
    eapply in_family_unique; [| |exact Hf|exact Hf']; [by destruct r|by destruct r']. }
  destruct r as [h|w|], r' as [h'|w'|]; try done; cbn [rollup_key] in Hk, Hk'; rewrite enc_Ok in Hk, Hk'.
  - assert (rollup_new (hourly_prefix h) n = rollup_new (hourly_prefix h') n') as E2.
    { refine (codec_inj (T := DbConcat (DbConcat (DbStaticStr "hourly_counts") (TruncatedCursor _)) Nsid) _ _ _ _ _ Hk Hk');
        (split; [split; [done|]|]; done). }
    by injection E2 as -> ->.
  - assert (rollup_new (weekly_prefix w) n = rollup_new (weekly_prefix w') n') as E2.
    { refine (codec_inj (T := DbConcat (DbConcat (DbStaticStr "weekly_counts") (TruncatedCursor _)) Nsid) _ _ _ _ _ Hk Hk');
        (split; [split; [done|]|]; done). }
    by injection E2 as -> ->.
  - assert (rollup_new (the_static_str : DbStaticStr "ever_counts") n = rollup_new the_static_str n') as E2.
    { refine (codec_inj (T := DbConcat (DbStaticStr "ever_counts") Nsid) _ _ _ _ _ Hk Hk'); by split. }
    by injection E2 as ->.
Qed.

(** ** What the counts of a collection are *)

(** The buckets a cursor falls into. *)
Definition in_bucket (r : Rollup) (c : Cursor) : Prop := r ∈ [Hourly (hour_of c); Weekly (week_of c); AllTime].
#[global] Instance in_bucket_dec r c : Decision (in_bucket r c).
Proof. unfold in_bucket. apply _. Defined.

(** What an entry of the live counts adds to a bucket of a collection. *)
Definition live_at (n : string) (r : Rollup) (kv : string * string) : option CommitCounts :=
  match dec (T := LiveKey) kv.1, dec (T := Counts) kv.2 with
  | Ok key, Ok val =>
      if decide (nsid_str (live_counts_collection key) = n ∧ in_bucket r (live_counts_cursor key))
      then Some (counts val) else None
  | _, _ => None
  end.

Definition live_sum (n : string) (r : Rollup) (l : list (string * string)) : CommitCounts :=
  sum_counts (omap (live_at n r) l).

(** Not yet rolled up, rolled up, and both. *)
Definition live_total (d : Keyspace) (n : string) (r : Rollup) : CommitCounts :=
  live_sum n r (fj_prefix d ROLLUPS live_family).
Definition rolled_up (d : Keyspace) (n : string) (r : Rollup) : CommitCounts :=
  match rollup_key r (mkNsid n) with
  | Ok k => match dec_opt (T := Counts) (fj_get d ROLLUPS k) with Ok (Some c) => counts c | _ => zero_counts end
  | Err _ => zero_counts
  end.
Definition total (d : Keyspace) (n : string) (r : Rollup) : CommitCounts :=
  add_counts (rolled_up d n r) (live_total d n r).

Definition live_ok (kv : string * string) : Prop :=
  ∃ (c : Cursor) (n : Nsid) (v : Counts), wf c ∧ wf n ∧ wf v ∧
    to_db_bytes (live_counts_key c n : LiveKey) = Ok kv.1 ∧ to_db_bytes v = Ok kv.2.

(** The cursors of a live count and of a queue entry. *)
Definition live_us (kv : string * string) : N :=
  match dec (T := LiveKey) kv.1 with Ok key => cursor_us (live_counts_cursor key) | Err _ => 0 end.
Definition queue_us (kv : string * string) : N :=
  match dec (T := QueueKey) kv.1 with Ok key => cursor_us (suffix key) | Err _ => 0 end.

Definition queue_ok (kv : string * string) : Prop :=
  ∃ (c : Cursor) (did : Did), wf c ∧ wf did ∧
    to_db_bytes (delete_account_queue_key c : QueueKey) = Ok kv.1 ∧ to_db_bytes did = Ok kv.2.

(** Keys with the literal of a bucket, and keys of a bucket and a collection. *)
Definition bucket_family (k : string) : Prop := ∃ r, in_family (rollup_lit r) k.
Definition bucket_key (k : string) : Prop := ∃ r (n : Nsid), rollup_wf r ∧ wf n ∧ rollup_key r n = Ok k.

(** The state the background task works on: everything decodes, and no total
    exceeds 64 bits. *)
Record rollup_inv (d : Keyspace) : Prop := {
  ri_cursor : ∃ c : Cursor, wf c ∧ get_static_neu NewRollupCursorKey d = Ok (Some c);
  ri_live : Forall live_ok (fj_prefix d ROLLUPS live_family);
  ri_queue : Forall queue_ok (fj_prefix d QUEUES queue_family);
  ri_rolled (n : Nsid) (r : Rollup) k v : wf n → rollup_wf r → rollup_key r n = Ok k →
    fj_get d ROLLUPS k = Some v → ∃ c : Counts, wf c ∧ to_db_bytes c = Ok v;
  ri_keys k v : bucket_family k → fj_get d ROLLUPS k = Some v → bucket_key k;
  ri_fits (n : Nsid) (r : Rollup) : wf n → rollup_wf r → wf (total d (nsid_str n) r)
}.

Lemma live_at_ok (c : Cursor) (nsid : Nsid) (v : Counts) kv n r :
  wf c → wf nsid → wf v → to_db_bytes (live_counts_key c nsid : LiveKey) = Ok kv.1 → to_db_bytes v = Ok kv.2 →
  live_at n r kv = if decide (nsid_str nsid = n ∧ in_bucket r c) then Some (counts v) else None.
Proof.
  intros Hc Hn Hv Hk Hb. unfold live_at.
  rewrite (dec_codec (live_counts_key c nsid : LiveKey) kv.1); [|split; [split; [done|exact Hc]|exact Hn]|exact Hk].
  rewrite (dec_codec v kv.2 Hv Hb). done.
Qed.

Lemma live_sum_app n r l1 l2 : live_sum n r (l1 ++ l2) = add_counts (live_sum n r l1) (live_sum n r l2).
Proof. unfold live_sum. by rewrite omap_app, sum_counts_app. Qed.
Lemma live_sum_cons n r kv l :
  live_sum n r (kv :: l) = add_counts (default zero_counts (live_at n r kv)) (live_sum n r l).
Proof. unfold live_sum. simpl. destruct (live_at n r kv); simpl; [done|]. by rewrite add_counts_0_l. Qed.
#[global] Instance live_sum_perm n r : Proper ((≡ₚ) ==> (=)) (live_sum n r).
Proof. intros l1 l2 Hl. unfold live_sum. by rewrite Hl. Qed.

Lemma bucket_wf c r : wf c → in_bucket r c → rollup_wf r.
Proof.
  unfold wf, cursor_wf, in_bucket. rewrite !elem_of_cons, elem_of_nil. intros Hc [->|[->|[->|[]]]]; simpl; [| |done].
  all: unfold wf, truncated_wf, hour_of, week_of; simpl; unfold Trunc.truncate_cursor, Trunc.truncate; split.
  all: try (apply N.Div0.mod_mul).
  all: eapply N.le_lt_trans; [rewrite N.mul_comm; apply N.Div0.mul_div_le|done].
Qed.

(** ** Collecting the live counts *)

Definition counts_at (m : gmap (string * Rollup) Counts) (k : string * Rollup) : CommitCounts :=
  counts (default counts_default (m !! k)).

Lemma merge_entry_ok m k val :
  wf (add_counts (counts_at m k) (counts val)) →
  ∃ c, merge_entry m k val = Ok (<[k := c]> m) ∧ counts c = add_counts (counts_at m k) (counts val).
Proof.
  intros Hwf. unfold merge_entry, counts_value_merge. unfold counts_at, counts in *.
  rewrite (counts_merge_ok _ _ Hwf). cbn [result_bind lift_encoding].
  by exists (from_pair (add_counts (prefix (default counts_default (m !! k))) (prefix val))
    (sketch_merge (suffix (default counts_default (m !! k))) (suffix val))).
Qed.

(** The map holds the sums over the entries seen. *)
Definition acc_rel (seen : list (string * string)) (m : gmap (string * Rollup) Counts) : Prop :=
  (∀ n r, counts_at m (n, r) = live_sum n r seen) ∧
  (∀ n r, is_Some (m !! (n, r)) → wf (mkNsid n) ∧ rollup_wf r).

Lemma counts_at_insert m k k' c :
  counts_at (<[k := c]> m) k' = if decide (k = k') then counts c else counts_at m k'.
Proof. unfold counts_at. rewrite lookup_insert. by case_decide. Qed.

(** Merging a value into the buckets of a list. *)
Lemma merge_entries_ok (n : string) (val : Counts) (rs : list Rollup) m :
  NoDup rs → (∀ r, r ∈ rs → wf (add_counts (counts_at m (n, r)) (counts val))) →
  ∃ m', foldl_res (λ m r, merge_entry m (n, r) val) m rs = Ok m' ∧
    (∀ n' r', counts_at m' (n', r') =
       if decide (n = n' ∧ r' ∈ rs) then add_counts (counts_at m (n', r')) (counts val) else counts_at m (n', r')) ∧
    (∀ n' r', is_Some (m' !! (n', r')) → is_Some (m !! (n', r')) ∨ n = n' ∧ r' ∈ rs).
Proof.
  intros Hnd. revert m. induction Hnd as [|r rs Hr Hnd IH]; intros m Hwf; simpl.
  - exists m. split; [done|]. split; [|by auto]. intros. rewrite decide_False; [done|]. by intros [_ ?%not_elem_of_nil].
  - destruct (merge_entry_ok m (n, r) val) as (c & Hm & Hc); [apply Hwf; by left|]. rewrite Hm. simpl.
    destruct (IH (<[(n, r) := c]> m)) as (m' & Hm' & Hat & Hdom).
    { intros r' Hr'. rewrite counts_at_insert, decide_False by (intros [= ->]; done). apply Hwf. by right. }
    exists m'. split; [done|]. split.
    + intros n' r'. rewrite Hat, counts_at_insert. destruct (decide ((n, r) = (n', r'))) as [[= -> ->]|Hne].
      * rewrite decide_False by (by intros [_ ?]). rewrite decide_True by (split; [done|by left]). done.
      * destruct (decide (n = n' ∧ r' ∈ rs)) as [[-> Hin]|Hno].
        -- rewrite decide_True; [done|]. split; [done|by right].
        -- rewrite decide_False; [done|]. intros [-> [->|Hin]%elem_of_cons]; [done|]. by apply Hno.
    + intros n' r' Hs. destruct (Hdom n' r' Hs) as [Hs'|[-> Hin]]; [|right; split; [done|by right]].
      destruct (decide ((n, r) = (n', r'))) as [[= -> ->]|Hne]; [right; split; [done|by left]|].
      left. by rewrite lookup_insert_ne in Hs' by done.
Qed.

Lemma merge_buckets {B} n (val : Counts) a b c m (k : _ → StorageResult B) :
  (m ←? merge_entry m (n, a) val; m ←? merge_entry m (n, b) val; m ←? merge_entry m (n, c) val; k m) =
  (m ←? foldl_res (λ m r, merge_entry m (n, r) val) m [a; b; c]; k m).
Proof.
  simpl. destruct (merge_entry m (n, a) val) as [m1|]; simpl; [|done].
  destruct (merge_entry m1 (n, b) val) as [m2|]; simpl; [|done]. by destruct (merge_entry m2 (n, c) val).
Qed.

(** One entry. *)
Lemma merge_live seen m (c : Cursor) (nsid : Nsid) (v : Counts) kv :
  wf c → wf nsid → wf v → to_db_bytes (live_counts_key c nsid : LiveKey) = Ok kv.1 → to_db_bytes v = Ok kv.2 →
  acc_rel seen m → (∀ r, rollup_wf r → wf (live_sum (nsid_str nsid) r (seen ++ [kv]))) →
  ∃ m', foldl_res (λ m r, merge_entry m (nsid_str nsid, r) v) m [Hourly (hour_of c); Weekly (week_of c); AllTime] = Ok m' ∧
    acc_rel (seen ++ [kv]) m'.
Proof.
  intros Hc Hn Hv Hk Hb [Hat Hdom] Hfits.
  assert (Hone : ∀ n r, live_sum n r (seen ++ [kv]) = add_counts (live_sum n r seen)
    (if decide (nsid_str nsid = n ∧ in_bucket r c) then counts v else zero_counts)).
  { intros n r. rewrite live_sum_app, live_sum_cons, (live_at_ok c nsid v kv n r Hc Hn Hv Hk Hb).
    change (live_sum n r []) with zero_counts. rewrite add_counts_0_r. by case_decide. }
  destruct (merge_entries_ok (nsid_str nsid) v [Hourly (hour_of c); Weekly (week_of c); AllTime] m) as (m' & Hm' & Hat' & Hdom').
  { repeat (apply NoDup_cons; split; [rewrite ?elem_of_cons, ?elem_of_nil; naive_solver|]). constructor. }
  { intros r Hr. rewrite Hat. specialize (Hfits r (bucket_wf c r Hc Hr)). rewrite Hone, decide_True in Hfits by done. done. }
  exists m'. split; [done|]. split.
  - intros n r. rewrite Hat', Hat, Hone. destruct (decide (nsid_str nsid = n ∧ in_bucket r c)) as [Hin|Hno].
    + rewrite decide_True by exact Hin. done.
    + rewrite decide_False by exact Hno. by rewrite add_counts_0_r.
  - intros n r Hs. destruct (Hdom' n r Hs) as [Hs'|[<- Hin]]; [by apply Hdom|]. split; [by destruct nsid|].
    by apply (bucket_wf c).
Qed.

Lemma live_sum_le n r l1 l2 : counts_le (live_sum n r l1) (live_sum n r (l1 ++ l2)).
Proof. rewrite live_sum_app. apply counts_le_add_l. Qed.

(** How the loop stops: with nothing consumed only if it has to, otherwise at
    the cursor of the last entry, which is not past the limit. *)
Definition stops_well (limit : option Cursor) (n : nat) (consumed rest : list (string * string)) (c : Cursor) : Prop :=
  match last consumed with
  | Some kv => live_us kv = cursor_us c ∧ past_limit limit c = false
  | None => n = 0 ∨ rest = [] ∨ ∃ kv, head rest = Some kv ∧ past_limit limit (mkCursor (live_us kv)) = true
  end.

(** The loop consumes a prefix of the entries. *)
Lemma take_live_spec timelies limit n seen st :
  Forall live_ok timelies → acc_rel seen (counts_by_rollup st) → wf (last_cursor st) →
  (∀ (nsid : Nsid) r, wf nsid → rollup_wf r → wf (live_sum (nsid_str nsid) r (seen ++ timelies))) →
  ∃ consumed rest st', timelies = consumed ++ rest ∧ take_live timelies limit n st = Ok st' ∧
    rl_batch st' = rl_batch st ++ map (λ kv, FjRemove ROLLUPS kv.1) consumed ∧
    cursors_advanced st' = cursors_advanced st + length consumed ∧
    acc_rel (seen ++ consumed) (counts_by_rollup st') ∧ wf (last_cursor st') ∧
    (consumed = [] → last_cursor st' = last_cursor st) ∧ stops_well limit n consumed rest (last_cursor st').
Proof.
  intros Hok. revert n seen st. induction Hok as [|[kb vb] l (c & nsid & v & Hc & Hn & Hv & Hk & Hb) Hok IH];
    intros n seen st Hacc Hlast Hfits.
  { exists [], [], st. simpl. rewrite !app_nil_r, Nat.add_0_r. split_and!; try done. right. by left. }
  destruct n as [|n].
  { exists [], ((kb, vb) :: l), st. simpl. rewrite !app_nil_r, Nat.add_0_r. split_and!; try done. by left. }
  cbn [take_live]. cbn [fst snd] in Hk, Hb.
  assert (Hdk : dec (T := LiveKey) kb = Ok (live_counts_key c nsid)).
  { apply (dec_codec (live_counts_key c nsid : LiveKey) kb); [split; [split; [done|exact Hc]|exact Hn]|exact Hk]. }
  rewrite Hdk. cbn [result_bind]. change (live_counts_cursor (live_counts_key c nsid)) with c.
  change (live_counts_collection (live_counts_key c nsid)) with nsid.
  destruct (past_limit limit c) eqn:Hlim.
  { exists [], ((kb, vb) :: l), st. simpl. rewrite !app_nil_r, Nat.add_0_r. split_and!; try done.
    right. right. exists (kb, vb). split; [done|]. unfold live_us. cbn [fst]. rewrite Hdk. by destruct c. }
  rewrite (dec_codec v vb Hv Hb). cbn [result_bind]. rewrite merge_buckets.
  destruct (merge_live seen (counts_by_rollup st) c nsid v (kb, vb) Hc Hn Hv Hk Hb Hacc) as (m' & Hm' & Hacc').
  { intros r Hr. eapply counts_le_wf; [|apply (Hfits nsid r Hn Hr)]. rewrite (app_assoc seen [(kb, vb)] l : seen ++ (kb, vb) :: l = _). apply live_sum_le. }
  rewrite Hm'. cbn [result_bind].
  destruct (IH n (seen ++ [(kb, vb)]) (mkLoop ({[nsid_str nsid]} ∪ dirty_nsids st) (rl_batch st ++ [FjRemove ROLLUPS kb])
    (S (cursors_advanced st)) c m')) as (con & rest & st' & -> & Ht & Hbt & Hadv & Hacc'' & Hl & Hsame & Hstop).
  { exact Hacc'. } { exact Hc. } { intros. rewrite <- app_assoc. by apply Hfits. }
  exists ((kb, vb) :: con), rest, st'. split_and!; [done|exact Ht| | | |done|done|].
  - rewrite Hbt. simpl. by rewrite <- app_assoc.
  - rewrite Hadv. simpl. lia.
  - by rewrite <- app_assoc in Hacc''.
  - destruct con as [|kv con].
    2: { unfold stops_well in *. change (last ((kb, vb) :: kv :: con)) with (last (kv :: con)).
         destruct (last (kv :: con)) eqn:E; [done|]. by apply last_None in E. }
    unfold stops_well. cbn [last]. unfold live_us. cbn [fst].
    rewrite Hdk. change (live_counts_cursor (live_counts_key c nsid)) with c.
    by rewrite (Hsame eq_refl).
Qed.

(** ** Writing the buckets *)

Definition rank_lits : list string :=
  ["hourly_rank_records"; "weekly_rank_records"; "ever_rank_records"; "hourly_rank_dids"; "weekly_rank_dids"; "ever_rank_dids"].
Definition rank_family (k : string) : Prop := ∃ lit, lit ∈ rank_lits ∧ in_family lit k.

Lemma rank_family_not lit k :
  str_contains NUL lit = false → lit ∉ rank_lits → rank_family k → ¬ in_family lit k.
Proof.
  intros Hnul Hno (lit' & Hin & Hf) Hf'. destruct Hno.
  assert (str_contains NUL lit' = false).
  { unfold rank_lits in Hin. rewrite !elem_of_cons, elem_of_nil in Hin. naive_solver. }
  by rewrite (in_family_unique lit lit' k).
Qed.

Lemma concat_Ok {P S} `{DbBytes P, DbBytes S} (x : P) (y : S) :
  (∃ b, to_db_bytes x = Ok b) → (∃ b, to_db_bytes y = Ok b) → ∃ b, to_db_bytes (from_pair x y) = Ok b.
Proof.
  intros [b Hb] [c Hc]. exists (b +:+ c). cbn [to_db_bytes concat_db_bytes]. unfold concat_to_db_bytes. simpl.
  by rewrite Hb, Hc.
Qed.
Lemma static_Ok lit : str_contains NUL lit = false → ∃ b, to_db_bytes (the_static_str : DbStaticStr lit) = Ok b.
Proof. intros E. exists (static_bytes lit). cbn [to_db_bytes static_db_bytes]. unfold string_to_db_bytes. by rewrite E. Qed.
Lemma ranked_Ok (rank : KeyRank) (nsid : Nsid) : wf nsid → ∃ b, to_db_bytes (from_pair rank nsid) = Ok b.
Proof. intros Hn. destruct (prefix_codec nsid Hn) as (b & Hb & _). apply concat_Ok; eauto. Qed.

Lemma bucketed_rank_Ok lit MOD (c : TruncatedCursor MOD) rank nsid :
  str_contains NUL lit = false → lit ∈ rank_lits → wf nsid →
  ∃ k, enc (ranked_key c rank nsid : DbConcat (DbConcat (DbStaticStr lit) (TruncatedCursor MOD)) (DbConcat KeyRank Nsid)) = Ok k ∧
    rank_family k.
Proof.
  intros Hlit Hin Hn.
  destruct (concat_Ok (from_pair (the_static_str : DbStaticStr lit) c) (from_pair rank nsid)) as [k Hk].
  { apply concat_Ok; [by apply static_Ok|by eexists]. } { by apply ranked_Ok. }
  exists k. rewrite enc_Ok. split; [exact Hk|]. exists lit. split; [done|]. by apply family_of_concat2 in Hk.
Qed.
Lemma all_time_rank_Ok lit rank nsid :
  str_contains NUL lit = false → lit ∈ rank_lits → wf nsid →
  ∃ k, enc (all_time_ranked_key rank nsid : DbConcat (DbStaticStr lit) (DbConcat KeyRank Nsid)) = Ok k ∧ rank_family k.
Proof.
  intros Hlit Hin Hn. destruct (concat_Ok (the_static_str : DbStaticStr lit) (from_pair rank nsid)) as [k Hk].
  { by apply static_Ok. } { by apply ranked_Ok. }
  exists k. rewrite enc_Ok. split; [exact Hk|]. exists lit. split; [done|]. by apply family_of_concat in Hk.
Qed.

Lemma records_rank_key_Ok r rank nsid : wf nsid → ∃ k, records_rank_key r rank nsid = Ok k ∧ rank_family k.
Proof.
  intros Hn. destruct r as [h|w|]; [apply bucketed_rank_Ok|apply bucketed_rank_Ok|apply all_time_rank_Ok];
    (done || apply (bool_decide_unpack _); vm_compute; exact I).
Qed.
Lemma dids_rank_key_Ok r rank nsid : wf nsid → ∃ k, dids_rank_key r rank nsid = Ok k ∧ rank_family k.
Proof.
  intros Hn. destruct r as [h|w|]; [apply bucketed_rank_Ok|apply bucketed_rank_Ok|apply all_time_rank_Ok];
    (done || apply (bool_decide_unpack _); vm_compute; exact I).
Qed.

(** An index entry moves inside the rank families. *)
Definition rank_op (op : FjOp) : Prop := ∀ p k, fj_touches p k op → p = ROLLUPS ∧ rank_family k.

Lemma move_rank_Ok key before after batch :
  (∀ rank, ∃ k, key rank = Ok k ∧ rank_family k) →
  ∃ ops, move_rank key before after batch = Ok (batch ++ ops) ∧ Forall rank_op ops.
Proof.
  intros Hkey. unfold move_rank. case_decide; [exists []; by rewrite app_nil_r|].
  destruct (Hkey before) as (k1 & -> & Hk1), (Hkey after) as (k2 & -> & Hk2). cbn [result_bind].
  eexists. split; [done|]. apply Forall_forall. intros op Hop. rewrite !elem_of_cons, elem_of_nil in Hop.
  destruct Hop as [->|[->|[]]]; intros p k [<- <-]; done.
Qed.

(** What the database holds in a bucket, as it is read. *)
Lemma rolled_read d (nsid : Nsid) r k :
  rollup_inv d → wf nsid → rollup_wf r → rollup_key r nsid = Ok k →
  ∃ o, dec_opt (T := Counts) (fj_get d ROLLUPS k) = Ok o ∧
    counts (default counts_default o) = rolled_up d (nsid_str nsid) r.
Proof.
  intros Hinv Hn Hr Hk. unfold rolled_up. destruct nsid as [n]. cbn [nsid_str]. rewrite Hk.
  destruct (fj_get d ROLLUPS k) as [v|] eqn:Hv; simpl; [|by eexists].
  destruct (ri_rolled d Hinv (mkNsid n) r k v Hn Hr Hk Hv) as (c & Hc & Hb). rewrite (dec_codec c v Hc Hb). simpl. by eexists.
Qed.

Lemma write_rollup_Ok d batch nsid r (c : Counts) :
  rollup_inv d → wf nsid → rollup_wf r → wf (add_counts (rolled_up d (nsid_str nsid) r) (counts c)) →
  ∃ ops k v (c' : Counts), write_rollup d batch ((nsid_str nsid, r), c) = Ok (batch ++ ops ++ [FjInsert ROLLUPS k v]) ∧
    Forall rank_op ops ∧ rollup_key r nsid = Ok k ∧ wf c' ∧ to_db_bytes c' = Ok v ∧
    counts c' = add_counts (rolled_up d (nsid_str nsid) r) (counts c).
Proof.
  intros Hinv Hn Hr Hfits. unfold write_rollup.
  destruct (rollup_key_Ok r nsid Hr Hn) as (k & Hk & _). destruct nsid as [n]. cbn [nsid_str] in *. rewrite Hk. cbn [result_bind].
  destruct (rolled_read d (mkNsid n) r k Hinv Hn Hr Hk) as (o & -> & Ho). cbn [result_bind nsid_str] in *.
  assert (Hm : ∃ c', lift_encoding (counts_value_merge (default counts_default o) c) = Ok c' ∧
    counts c' = add_counts (rolled_up d n r) (counts c)).
  { unfold counts_value_merge. unfold counts in *. rewrite Ho, (counts_merge_ok _ _ Hfits). simpl. by eexists. }
  destruct Hm as (c' & -> & Hc'). cbn [result_bind]. change CountsValue with Counts in c'.
  destruct (move_rank_Ok (λ rank, records_rank_key r rank (mkNsid n)) (creates (counts (default counts_default o)))
    (creates (counts c')) batch (λ rank, records_rank_key_Ok r rank _ Hn)) as (ops1 & -> & Hops1). cbn [result_bind].
  destruct (move_rank_Ok (λ rank, dids_rank_key r rank (mkNsid n)) (sketch_estimate (dids (default counts_default o)))
    (sketch_estimate (dids c')) (batch ++ ops1) (λ rank, dids_rank_key_Ok r rank _ Hn)) as (ops2 & -> & Hops2). cbn [result_bind].
  assert (Hwf : wf (c' : Counts)) by (apply counts_wf_value; by rewrite Hc').
  destruct (tail_codec c' Hwf) as (v & Hv & _). rewrite (proj2 (enc_Ok _ _) Hv). cbn [result_bind].
  exists (ops1 ++ ops2), k, v, c'. rewrite <- !app_assoc. split_and!; try done. by apply Forall_app.
Qed.

(** What the writes of a list of buckets do to the partition. *)
Definition writes (d : Keyspace) (L : list ((string * Rollup) * Counts)) (ops : list FjOp) : Prop :=
  Forall (λ op, ∀ p k, fj_touches p k op → p = ROLLUPS ∧ ¬ in_family "live_counts" k ∧ (bucket_family k → bucket_key k)) ops ∧
  ∀ (nsid : Nsid) r k, wf nsid → rollup_wf r → rollup_key r nsid = Ok k →
    Forall (λ op, ¬ weakly_removes ROLLUPS k op) ops ∧
    ((∃ (c c' : Counts) v, (((nsid_str nsid, r), c) ∈ L) ∧ wf c' ∧ to_db_bytes c' = Ok v ∧
        counts c' = add_counts (rolled_up d (nsid_str nsid) r) (counts c) ∧
        ∀ cur, fj_applies ops ROLLUPS k cur = Some v) ∨
     (((nsid_str nsid, r) ∉ L.*1) ∧ Forall (λ op, ¬ fj_touches ROLLUPS k op) ops)).

Lemma rollup_lit_ok r : str_contains NUL (rollup_lit r) = false ∧ (rollup_lit r ∉ rank_lits) ∧ rollup_lit r ≠ "live_counts".
Proof.
  split; [by destruct r|]. split; [|by destruct r].
  destruct r; apply (bool_decide_unpack _); vm_compute; exact I.
Qed.

(** A bucket key is neither a rank nor a live count. *)
Lemma rollup_key_family r nsid k :
  rollup_wf r → wf nsid → rollup_key r nsid = Ok k → ¬ rank_family k ∧ ¬ in_family "live_counts" k.
Proof.
  intros Hr Hn Hk. destruct (rollup_key_Ok r nsid Hr Hn) as (k' & Hk' & Hf). rewrite Hk in Hk'. injection Hk' as <-.
  destruct (rollup_lit_ok r) as (Hnul & Hno & Hne). split.
  - intros Hrank. by eapply rank_family_not.
  - intros Hlive. apply Hne. by apply (in_family_unique _ _ k).
Qed.

Lemma live_not_rank k : rank_family k → ¬ in_family "live_counts" k.
Proof. apply rank_family_not; [done|]. apply (bool_decide_unpack _). vm_compute. exact I. Qed.

Lemma writes_one d nsid r (c : Counts) ops k v (c' : Counts) :
  wf nsid → rollup_wf r → Forall rank_op ops → rollup_key r nsid = Ok k → wf c' → to_db_bytes c' = Ok v →
  counts c' = add_counts (rolled_up d (nsid_str nsid) r) (counts c) →
  writes d [((nsid_str nsid, r), c)] (ops ++ [FjInsert ROLLUPS k v]).
Proof.
  intros Hn Hr Hops Hk Hc' Hv Hsum. destruct (rollup_key_family r nsid k Hr Hn Hk) as [Hnr Hnl].
  assert (Hrank : ∀ k', ¬ rank_family k' → Forall (λ op, ¬ fj_touches ROLLUPS k' op) ops).
  { intros k' Hk'. eapply Forall_impl; [exact Hops|]. intros op Hop Ht. by destruct (Hop _ _ Ht). }
  split.
  - apply Forall_app. split.
    + eapply Forall_impl; [exact Hops|]. intros op Hop p k' Ht. destruct (Hop _ _ Ht) as [-> Hf].
      split_and!; [done|by apply live_not_rank|]. intros [r' Hf']. destruct (rollup_lit_ok r') as (Hnul & Hno & _). by destruct (rank_family_not _ _ Hnul Hno Hf).
    + apply Forall_singleton. intros p k' [<- <-]. split_and!; [done|done|]. intros _. by exists r, nsid.
  - intros nsid' r' k' Hn' Hr' Hk'. destruct (rollup_key_family r' nsid' k' Hr' Hn' Hk') as [Hnr' _].
    specialize (Hrank k' Hnr'). split.
    { auto with microcosm. }
    destruct (decide (r = r' ∧ nsid = nsid')) as [[<- <-]|Hne].
    + rewrite Hk in Hk'. injection Hk' as <-. left. exists c, c', v. split_and!; try done; [by left|].
      intros cur. rewrite fj_applies_app. unfold fj_applies at 1. simpl. by rewrite decide_True.
    + right. split.
      * intros [= E1 E2]%list_elem_of_singleton. destruct nsid, nsid'. simpl in E1. subst. by apply Hne.
      * apply Forall_app. split; [done|]. repeat constructor. intros [_ <-].
        destruct (rollup_key_inj r nsid r' nsid' k); naive_solver.
Qed.

Lemma writes_app d L1 L2 ops1 ops2 :
  NoDup (L1 ++ L2).*1 → writes d L1 ops1 → writes d L2 ops2 → writes d (L1 ++ L2) (ops1 ++ ops2).
Proof.
  rewrite fmap_app. intros (_ & Hdisj & _)%NoDup_app [Ht1 Hw1] [Ht2 Hw2]. split; [by apply Forall_app|].
  intros nsid r k Hn Hr Hk. destruct (Hw1 nsid r k Hn Hr Hk) as [Hweak1 Hc1], (Hw2 nsid r k Hn Hr Hk) as [Hweak2 Hc2].
  split; [by apply Forall_app|]. destruct Hc2 as [(c & c' & v & Hin & Hwf & Hv & Hsum & Happ)|[Hno2 Hun2]].
  - left. exists c, c', v. split_and!; try done; [by apply elem_of_app; right|]. intros cur.
    by rewrite fj_applies_app, Happ.
  - destruct Hc1 as [(c & c' & v & Hin & Hwf & Hv & Hsum & Happ)|[Hno1 Hun1]].
    + left. exists c, c', v. split_and!; try done; [by apply elem_of_app; left|]. intros cur.
      by rewrite fj_applies_app, (fj_applies_untouched ops2), Happ.
    + right. split; [by rewrite fmap_app, elem_of_app; intros [?|?]|by apply Forall_app].
Qed.

Lemma write_rollups_Ok d (L : list ((string * Rollup) * Counts)) batch :
  rollup_inv d → NoDup L.*1 →
  Forall (λ e, wf (mkNsid e.1.1) ∧ rollup_wf e.1.2 ∧ wf (add_counts (rolled_up d e.1.1 e.1.2) (counts e.2))) L →
  ∃ ops, foldl_res (write_rollup d) batch L = Ok (batch ++ ops) ∧ writes d L ops.
Proof.
  intros Hinv. revert batch. induction L as [|[[n r] c] L IH]; intros batch Hnd Hall.
  { exists []. rewrite app_nil_r. split; [done|]. split; [constructor|]. intros. split; [constructor|]. right.
    split; [apply not_elem_of_nil|constructor]. }
  apply Forall_cons in Hall as [(Hn & Hr & Hfits) Hall]. simpl in Hn, Hr, Hfits.
  destruct (write_rollup_Ok d batch (mkNsid n) r c Hinv Hn Hr Hfits) as (ops & k & v & c' & Hw & Hops & Hk & Hc' & Hv & Hsum).
  cbn [foldl_res]. cbn [nsid_str] in Hw. rewrite Hw. cbn [result_bind].
  destruct (IH (batch ++ ops ++ [FjInsert ROLLUPS k v])) as (ops' & -> & Hws); [by apply NoDup_cons in Hnd as [_ ?]|done|].
  exists ((ops ++ [FjInsert ROLLUPS k v]) ++ ops'). rewrite <- !app_assoc. split; [done|].
  rewrite (app_assoc ops). apply (writes_app d [((n, r), c)] L); [done| |done].
  by apply (writes_one d (mkNsid n) r c ops k v c').
Qed.

(** ** One batch of live counts *)

Lemma static_key_Ok K : str_contains NUL K = false → static_key K = Ok (static_bytes K).
Proof. intros HK. unfold static_key, enc. cbn [to_db_bytes static_db_bytes]. unfold string_to_db_bytes. by rewrite HK. Qed.

Lemma insert_batch_static_Ok K {V} `{DbBytes V} (x : V) v batch :
  str_contains NUL K = false → to_db_bytes x = Ok v →
  insert_batch_static_neu K batch x = Ok (batch ++ [FjInsert GLOBAL (static_bytes K) v]).
Proof. intros HK Hv. unfold insert_batch_static_neu. rewrite static_key_Ok by done. cbn [result_bind]. by rewrite (proj2 (enc_Ok _ _) Hv). Qed.

(** The batch of a rollup: removals, bucket writes and the cursor. *)
Definition rollup_batch (consumed : list (string * string)) (ops : list FjOp) (v : string) : list FjOp :=
  (map (λ kv, FjRemove ROLLUPS kv.1) consumed ++ ops) ++ [FjInsert GLOBAL (static_bytes NewRollupCursorKey) v].

Section Batch.
Context (d : Keyspace) (L : list ((string * Rollup) * Counts)) (consumed : list (string * string)) (ops : list FjOp) (v : string).
Context (Hw : writes d L ops).
Context (Hcon : Forall (λ kv, in_family "live_counts" kv.1) consumed).

(** Live counts lose what was consumed. *)
Lemma batch_live k :
  in_family "live_counts" k →
  fj_get (fj_commit d (rollup_batch consumed ops v)) ROLLUPS k =
  if decide (k ∈ consumed.*1) then None else fj_get d ROLLUPS k.
Proof.
  intros Hk. assert (Hun : Forall (λ op, ¬ fj_touches ROLLUPS k op) (ops ++ [FjInsert GLOBAL (static_bytes NewRollupCursorKey) v])).
  { apply Forall_app. split; [|by repeat constructor; intros []]. eapply Forall_impl; [exact (proj1 Hw)|].
    intros op Hop Ht. destruct (Hop _ _ Ht) as (? & ? & _); done. }
  unfold rollup_batch. rewrite <- app_assoc, fj_get_commit.
  - by rewrite fj_applies_app, (fj_applies_untouched (ops ++ _)), removes_applies.
  - auto with microcosm.
Qed.

(** Buckets are written, or stay. *)
Lemma batch_bucket (nsid : Nsid) r k :
  wf nsid → rollup_wf r → rollup_key r nsid = Ok k →
  (∃ (c c' : Counts) v', (((nsid_str nsid, r), c) ∈ L) ∧ wf c' ∧ to_db_bytes c' = Ok v' ∧
     counts c' = add_counts (rolled_up d (nsid_str nsid) r) (counts c) ∧
     fj_get (fj_commit d (rollup_batch consumed ops v)) ROLLUPS k = Some v') ∨
  (((nsid_str nsid, r) ∉ L.*1) ∧
   fj_get (fj_commit d (rollup_batch consumed ops v)) ROLLUPS k = fj_get d ROLLUPS k).
Proof.
  intros Hn Hr Hk. destruct (proj2 Hw nsid r k Hn Hr Hk) as [Hweak Hcase].
  destruct (rollup_key_family r nsid k Hr Hn Hk) as [_ Hnl].
  assert (Hrem : Forall (λ op, ¬ fj_touches ROLLUPS k op) (map (λ kv, FjRemove ROLLUPS kv.1) consumed)).
  { apply removes_touch. right. intros (kv & -> & Hkv)%list_elem_of_fmap. rewrite Forall_forall in Hcon. by apply Hnl, Hcon. }
  assert (Hlast : Forall (λ op, ¬ fj_touches ROLLUPS k op) [FjInsert GLOBAL (static_bytes NewRollupCursorKey) v])
    by (by repeat constructor; intros []).
  assert (Hget : fj_get (fj_commit d (rollup_batch consumed ops v)) ROLLUPS k = fj_applies ops ROLLUPS k (fj_get d ROLLUPS k)).
  { unfold rollup_batch. rewrite fj_get_commit.
    - by rewrite !fj_applies_app, (fj_applies_untouched [_]), (fj_applies_untouched (map _ _)).
    - auto with microcosm. }
  rewrite Hget. destruct Hcase as [(c & c' & v' & ? & ? & ? & ? & Happ)|[? Hun]].
  - left. exists c, c', v'. by rewrite Happ.
  - right. by rewrite fj_applies_untouched.
Qed.

(** Outside the rollups only the cursor changes. *)
Lemma batch_other p k :
  p ≠ ROLLUPS → fj_get (fj_commit d (rollup_batch consumed ops v)) p k =
  if decide (p = GLOBAL ∧ k = static_bytes NewRollupCursorKey) then Some v else fj_get d p k.
Proof.
  intros Hp.
  assert (Hun : Forall (λ op, ¬ fj_touches p k op) (map (λ kv, FjRemove ROLLUPS kv.1) consumed ++ ops)).
  { apply Forall_app. split; [by apply removes_touch; left|]. eapply Forall_impl; [exact (proj1 Hw)|].
    intros op Hop Ht. destruct (Hop _ _ Ht) as (? & ? & _); done. }
  unfold rollup_batch. rewrite fj_get_commit.
  - rewrite fj_applies_app, (fj_applies_untouched (_ ++ ops)) by done. unfold fj_applies. simpl.
    destruct (decide (p = GLOBAL ∧ k = static_bytes NewRollupCursorKey)) as [[-> ->]|Hne].
    + by rewrite decide_True.
    + rewrite decide_False; [done|]. naive_solver.
  - auto with microcosm.
Qed.
End Batch.

(** A prefix scan depends on the keys of the prefix only. *)
Lemma prefix_same d d' p pre :
  (∀ k, starts_with pre k = true → fj_get d' p k = fj_get d p k) → fj_prefix d' p pre = fj_prefix d p pre.
Proof.
  intros Hk. apply sorted_unique; [apply fj_prefix_sorted|apply fj_prefix_sorted|].
  intros [k v]. rewrite !fj_prefix_spec. split; intros [Hg Hs]; (split; [|done]); [by rewrite <- Hk|by rewrite Hk].
Qed.

(** A prefix scan after some of its entries are removed. *)
Lemma prefix_removed d d' p pre (gone : list (string * string)) :
  (∀ kv, kv ∈ gone → kv ∈ fj_prefix d p pre) → NoDup gone →
  (∀ k, starts_with pre k = true → fj_get d' p k = if decide (k ∈ gone.*1) then None else fj_get d p k) →
  fj_prefix d p pre ≡ₚ gone ++ fj_prefix d' p pre.
Proof.
  intros Hsub Hnd Hk. apply NoDup_Permutation.
  - eapply NoDup_fmap_1, sorted_NoDup, fj_prefix_sorted.
  - apply NoDup_app. split_and!; [done| |eapply NoDup_fmap_1, sorted_NoDup, fj_prefix_sorted].
    intros [k v] Hg [Hd' Hs]%fj_prefix_spec. rewrite Hk, decide_True in Hd'; [done| |done].
    by apply (list_elem_of_fmap_2 fst gone (k, v)).
  - intros [k v]. rewrite elem_of_app, !fj_prefix_spec. split.
    + intros [Hg Hs]. destruct (decide ((k, v) ∈ gone)) as [Hin|Hno]; [by left|]. right. split; [|done].
      rewrite Hk by done. rewrite decide_False; [done|]. intros ([k' v'] & E & Hin)%list_elem_of_fmap. simpl in E. subst k'.
      pose proof (proj1 (fj_prefix_spec _ _ _ _ _) (Hsub _ Hin)) as [Hg' _]. rewrite Hg in Hg'. by simplify_eq.
    + intros [Hin|[Hg Hs]]; [by apply fj_prefix_spec, Hsub|]. rewrite Hk in Hg by done. case_decide; [done|]. done.
Qed.

Lemma live_family_in k : starts_with live_family k = true ↔ in_family "live_counts" k.
Proof. symmetry. apply in_family_starts. Qed.

(** Every operation of the background task keeps the invariant and the totals. *)
Definition conserves (d d' : Keyspace) : Prop :=
  rollup_inv d' ∧ ∀ (nsid : Nsid) r, wf nsid → rollup_wf r → total d' (nsid_str nsid) r = total d (nsid_str nsid) r.

Section Consume.
Context (d : Keyspace) (m : gmap (string * Rollup) Counts) (consumed : list (string * string)) (ops : list FjOp) (v : string).
Context (last : Cursor).
Context (Hinv : rollup_inv d) (Hw : writes d (map_to_list m) ops) (Hacc : acc_rel consumed m).
Context (Hsub : ∀ kv, kv ∈ consumed → kv ∈ fj_prefix d ROLLUPS live_family) (Hnd : NoDup consumed).
Context (Hlast : wf last) (Hv : to_db_bytes last = Ok v).

Let d' := fj_commit d (rollup_batch consumed ops v).

Lemma consumed_live : Forall (λ kv, in_family "live_counts" kv.1) consumed.
Proof.
  apply Forall_forall. intros [k w] Hin. specialize (Hsub _ Hin). apply fj_prefix_spec in Hsub as [_ Hs].
  by apply live_family_in.
Qed.

Lemma consume_live_list : fj_prefix d ROLLUPS live_family ≡ₚ consumed ++ fj_prefix d' ROLLUPS live_family.
Proof.
  apply prefix_removed; [done|done|]. intros k Hk%live_family_in. unfold d'.
  by apply (batch_live d (map_to_list m)).
Qed.

Lemma consume_rolled (nsid : Nsid) r :
  wf nsid → rollup_wf r →
  rolled_up d' (nsid_str nsid) r = add_counts (rolled_up d (nsid_str nsid) r) (live_sum (nsid_str nsid) r consumed).
Proof.
  intros Hn Hr. destruct (rollup_key_Ok r nsid Hr Hn) as (k & Hk & _). destruct Hacc as [Hat _].
  rewrite <- Hat. unfold rolled_up at 1, counts_at. destruct nsid as [n]. cbn [nsid_str] in *. rewrite Hk.
  destruct (batch_bucket d (map_to_list m) consumed ops v Hw consumed_live (mkNsid n) r k Hn Hr Hk)
    as [(c & c' & v' & Hin & Hc' & Hb & Hsum & Hget)|[Hno Hget]]; fold d' in Hget; rewrite Hget.
  - cbn [dec_opt]. rewrite (dec_codec c' v' Hc' Hb). cbn [result_bind]. rewrite Hsum. cbn [nsid_str].
    apply elem_of_map_to_list in Hin. cbn [nsid_str] in Hin. by rewrite Hin.
  - destruct (m !! (n, r)) as [c|] eqn:Hm.
    { destruct Hno. apply (list_elem_of_fmap_2 fst _ ((n, r), c)). by apply elem_of_map_to_list. }
    cbn [default]. change (counts counts_default) with zero_counts. rewrite add_counts_0_r.
    unfold rolled_up. by rewrite Hk.
Qed.

Lemma consumed_cursor : get_static_neu NewRollupCursorKey d' = Ok (Some last).
Proof.
  unfold get_static_neu. rewrite static_key_Ok by done. cbn [result_bind].
  unfold d'. rewrite (batch_other d (map_to_list m)) by done. rewrite decide_True by done.
  cbn [dec_opt]. by rewrite (dec_codec last v Hlast Hv).
Qed.

Lemma consume_conserves : conserves d d'.
Proof.
  assert (Htot : ∀ (nsid : Nsid) r, wf nsid → rollup_wf r → total d' (nsid_str nsid) r = total d (nsid_str nsid) r).
  { intros nsid r Hn Hr. unfold total. rewrite (consume_rolled nsid r Hn Hr). unfold live_total.
    rewrite consume_live_list, live_sum_app. by rewrite <- add_counts_assoc. }
  split; [|exact Htot]. constructor.
  - exists last. split; [done|apply consumed_cursor].
  - pose proof (ri_live d Hinv) as Hl. rewrite consume_live_list in Hl. by apply Forall_app in Hl as [_ ?].
  - assert (fj_prefix d' QUEUES queue_family = fj_prefix d QUEUES queue_family) as ->; [|apply (ri_queue d Hinv)].
    apply prefix_same. intros k _. unfold d'. rewrite (batch_other d (map_to_list m)) by done. by rewrite decide_False by (by intros []).
  - intros nsid r k w Hn Hr Hk Hget. destruct (batch_bucket d (map_to_list m) consumed ops v Hw consumed_live nsid r k Hn Hr Hk)
      as [(c & c' & v' & _ & Hc' & Hb & _ & Hg)|[_ Hg]]; fold d' in Hg; rewrite Hg in Hget.
    + injection Hget as <-. eauto.
    + by apply (ri_rolled d Hinv nsid r k).
  - intros k w Hfam Hg. destruct (decide (Forall (λ op, ¬ fj_touches ROLLUPS k op) (rollup_batch consumed ops v))) as [Hun|Ht].
    + apply (ri_keys d Hinv k w Hfam). rewrite <- Hg. unfold d'. rewrite fj_get_commit by auto with microcosm. by rewrite fj_applies_untouched.
    + apply not_Forall_Exists in Ht; [|apply _]. apply Exists_exists in Ht as (op & Hop & Ht). apply dec_stable in Ht.
      unfold rollup_batch in Hop. rewrite !elem_of_app, list_elem_of_singleton in Hop. destruct Hop as [[Hop|Hop]| ->].
      * exfalso. apply list_elem_of_fmap in Hop as (kv & -> & Hkv). destruct Ht as [_ <-]. pose proof consumed_live as Hcl.
        rewrite Forall_forall in Hcl. specialize (Hcl kv Hkv). destruct Hfam as [r Hfam]. destruct (rollup_lit_ok r) as (Hnul & _ & Hne).
        apply Hne. by apply (in_family_unique _ _ kv.1).
      * destruct Hw as [Hw1 _]. rewrite Forall_forall in Hw1. by apply (Hw1 op Hop ROLLUPS k Ht).
      * by destruct Ht.
  - intros nsid r Hn Hr. rewrite Htot by done. by apply ri_fits.
Qed.
End Consume.

(** The sums of the entries consumed fit, with what is rolled up. *)
Lemma consumed_fits d l (nsid : Nsid) r :
  rollup_inv d → (∀ kv, kv ∈ l → kv ∈ fj_prefix d ROLLUPS live_family) → NoDup l → wf nsid → rollup_wf r →
  wf (add_counts (rolled_up d (nsid_str nsid) r) (live_sum (nsid_str nsid) r l)).
Proof.
  intros Hinv Hsub Hnd Hn Hr. eapply counts_le_wf; [|apply (ri_fits d Hinv nsid r Hn Hr)].
  apply counts_le_add; [apply counts_le_refl|]. unfold live_total.
  destruct (submseteq_Permutation l (fj_prefix d ROLLUPS live_family)) as [l' ->]; [|apply live_sum_le].
  by apply NoDup_submseteq.
Qed.

Lemma acc_fits (d : Keyspace) (con : list (string * string)) (m : gmap (string * Rollup) Counts) :
  rollup_inv d → (∀ kv, kv ∈ con → kv ∈ fj_prefix d ROLLUPS live_family) → NoDup con → acc_rel con m →
  Forall (λ e, wf (mkNsid e.1.1) ∧ rollup_wf e.1.2 ∧ wf (add_counts (rolled_up d e.1.1 e.1.2) (counts e.2))) (map_to_list m).
Proof.
  intros Hinv Hsub Hnd [Hat Hdom]. apply Forall_forall. intros [[n r] c] Hin%elem_of_map_to_list. simpl.
  destruct (Hdom n r) as [Hn Hr]; [by exists c|]. split_and!; [done|done|].
  assert (counts c = live_sum n r con) as ->; [|by apply (consumed_fits d con (mkNsid n) r)].
  rewrite <- Hat. unfold counts_at. exact (f_equal (λ o, counts (default counts_default o)) (eq_sym Hin)).
Qed.

(** A run of [rollup_live_counts] on entries of the live counts: it succeeds,
    and what it commits. *)
Lemma rollup_live_counts_run d timelies limit n :
  rollup_inv d → (∀ kv, kv ∈ timelies → kv ∈ fj_prefix d ROLLUPS live_family) → NoDup timelies →
  ∃ consumed rest st ops, timelies = consumed ++ rest ∧
    rollup_live_counts d timelies limit n =
      Ok (fj_commit d (rollup_batch consumed ops (u64_to_be_bytes (cursor_us (last_cursor st)))), length consumed, dirty_nsids st) ∧
    foldl_res (write_rollup d) (rl_batch st) (map_to_list (counts_by_rollup st)) = Ok (rl_batch st ++ ops) ∧
    writes d (map_to_list (counts_by_rollup st)) ops ∧ acc_rel consumed (counts_by_rollup st) ∧ wf (last_cursor st) ∧
    stops_well limit n consumed rest (last_cursor st).
Proof.
  intros Hinv Hsub Hnd. unfold rollup_live_counts.
  destruct (take_live_spec timelies limit n [] (mkLoop ∅ [] 0 (mkCursor 0) ∅)) as (con & rest & st & Ht & -> & Hb & Hadv & Hacc & Hl & _ & Hstop).
  { apply Forall_forall. intros kv Hkv. pose proof (ri_live d Hinv) as Hlive. rewrite Forall_forall in Hlive. by apply Hlive, Hsub. }
  { split; [done|]. intros ?? [? ?]. done. }
  { done. }
  { intros nsid r Hn Hr. eapply counts_le_wf; [|by apply (consumed_fits d timelies nsid r)].
    rewrite add_counts_comm. apply counts_le_add_l. }
  cbn [result_bind]. simpl in Hb, Hadv, Hacc.
  assert (Hcs : ∀ kv, kv ∈ con → kv ∈ fj_prefix d ROLLUPS live_family) by (intros kv Hkv; apply Hsub; rewrite Ht, elem_of_app; by left).
  assert (Hcn : NoDup con) by (rewrite Ht in Hnd; by apply NoDup_app in Hnd as [? _]).
  destruct (write_rollups_Ok d (map_to_list (counts_by_rollup st)) (rl_batch st) Hinv (NoDup_fst_map_to_list _)
    (acc_fits d con _ Hinv Hcs Hcn Hacc)) as (ops & Hops & Hw).
  exists con, rest, st, ops. split; [done|]. split; [|done]. rewrite Hops. cbn [result_bind].
  rewrite (insert_batch_static_Ok NewRollupCursorKey (last_cursor st) (u64_to_be_bytes (cursor_us (last_cursor st)))) by done.
  cbn [result_bind]. by rewrite Hb, Hadv.
Qed.

(** [rollup_live_counts] consumes a prefix of the entries and conserves every
    total. *)
Lemma rollup_live_counts_Ok d timelies limit n :
  rollup_inv d → (∀ kv, kv ∈ timelies → kv ∈ fj_prefix d ROLLUPS live_family) → NoDup timelies →
  ∃ d' consumed rest dirty, timelies = consumed ++ rest ∧
    rollup_live_counts d timelies limit n = Ok (d', length consumed, dirty) ∧
    conserves d d' ∧ fj_prefix d ROLLUPS live_family ≡ₚ consumed ++ fj_prefix d' ROLLUPS live_family ∧
    (∀ p k, p ≠ ROLLUPS → p ≠ GLOBAL → fj_get d' p k = fj_get d p k) ∧
    ∃ c : Cursor, wf c ∧ get_static_neu NewRollupCursorKey d' = Ok (Some c) ∧ stops_well limit n consumed rest c.
Proof.
  intros Hinv Hsub Hnd. destruct (rollup_live_counts_run d timelies limit n Hinv Hsub Hnd) as (con & rest & st & ops & Ht & Hr & _ & Hw & Hacc & Hl & Hstop).
  eexists _, con, rest, _. split; [done|]. split; [exact Hr|].
  assert (Hsub' : ∀ kv, kv ∈ con → kv ∈ fj_prefix d ROLLUPS live_family) by (intros kv Hkv; apply Hsub; rewrite Ht, elem_of_app; by left).
  assert (Hcn : NoDup con) by (rewrite Ht in Hnd; by apply NoDup_app in Hnd as [? _]).
  assert (Hcv : get_static_neu NewRollupCursorKey (fj_commit d (rollup_batch con ops (u64_to_be_bytes (cursor_us (last_cursor st)))))
    = Ok (Some (last_cursor st))) by (by apply (consumed_cursor d (counts_by_rollup st))).
  split_and!; [| | |by exists (last_cursor st)].
  - by apply (consume_conserves d (counts_by_rollup st) con ops _ (last_cursor st)).
  - by apply (consume_live_list d (counts_by_rollup st)).
  - intros p k Hp Hp'. rewrite (batch_other d (map_to_list (counts_by_rollup st))) by done. by rewrite decide_False by (by intros []).
Qed.

End Rollup.
