(* ===== verification/UfosBackground.v ===== *)
(** * ufos: the background work of the storage

    Deleting accounts, stepping the rollup and catching up: what
    [delete_account], [rollup_delete_account], [step_rollup] and the rollup arm
    of [run] do, on top of the lemmas of [UfosRollup]. *)

From Stdlib Require Import Sorted.
From S2P Require Import Prelude RustStr Bytes UfosCursor UfosDbTypes.
From S2P Require Import UfosStoreTypes UfosBatch UfosFjallApi UfosStorage UfosRollup.
Import Db Store Batch FjallStore.

Module Background.
Section Background.
Context `{FL : FjallLaws} `{LL : LsmTreeLaws} `{AL : AtriumLaws} `{BL : BincodeStrLaws}.
Context `{SketchOps, Bincode2 CommitCounts, Bincode2 RecordLocationMeta, Bincode2 Sketch, Bincode2 SketchSecretPrefix}.
Context `{!Bincode2Laws CommitCounts, !Bincode2Laws Sketch}.

Abbreviation Counts := (DbConcat CommitCounts Sketch).
Abbreviation LiveKey := (DbConcat (DbConcat (DbStaticStr "live_counts") Cursor) Nsid).
Abbreviation QueueKey := (DbConcat (DbStaticStr "delete_acount") Cursor).
Abbreviation LocationKey := (DbConcat Did (DbConcat Nsid RecordKey)).

(** ** Deleting an account *)

Definition removes (p : string) (l : list (string * string)) : list FjOp := map (λ kv, FjRemove p kv.1) l.

Lemma removes_get d p l q k :
  fj_get (fj_commit d (removes p l)) q k = if decide (q = p ∧ k ∈ l.*1) then None else fj_get d q k.
Proof.
  rewrite fj_get_commit by apply removes_not_weak. destruct (decide (q = p)) as [->|Hne].
  - unfold removes. rewrite removes_applies. destruct (decide (k ∈ l.*1)).
    + by rewrite decide_True.
    + by rewrite decide_False by tauto.
  - rewrite decide_False by tauto. apply fj_applies_untouched, removes_touch. by left.
Qed.

(** The loop of [delete_account]: committing full batches on the way makes no
    difference. *)
Lemma delete_records_fold l d b n :
  ∃ d' b', fold_left delete_record l (d, removes RECORDS b, n) = (d', removes RECORDS b', n + length l) ∧
    ∀ p k, fj_get (fj_commit d' (removes RECORDS b')) p k = fj_get (fj_commit d (removes RECORDS (b ++ l))) p k.
Proof.
  revert d b n. induction l as [|[k v] l IH]; intros d b n.
  { exists d, b. by rewrite app_nil_r, Nat.add_0_r. }
  cbn [fold_left delete_record fst].
  assert (removes RECORDS b ++ [FjRemove RECORDS k] = removes RECORDS (b ++ [(k, v)])) as -> by (unfold removes; by rewrite map_app).
  case_decide.
  - destruct (IH (fj_commit d (removes RECORDS (b ++ [(k, v)]))) [] (S n)) as (d' & b' & Hf & Hg).
    change (removes RECORDS []) with (@nil FjOp) in Hf.
    exists d', b'. rewrite Hf. split; [f_equal; simpl; lia|]. intros p q. rewrite Hg, !removes_get, app_nil_l.
    rewrite (app_assoc b [(k, v)] l : b ++ (k, v) :: l = _), (fmap_app fst (b ++ [(k, v)])).
    destruct (decide (p = RECORDS ∧ q ∈ l.*1)) as [[-> Hin]|Hno].
    + rewrite decide_True; [done|]. split; [done|]. apply elem_of_app. by right.
    + destruct (decide (p = RECORDS ∧ q ∈ (b ++ [(k, v)]).*1)) as [[-> Hin]|Hno'].
      * rewrite decide_True; [done|]. split; [done|]. apply elem_of_app. by left.
      * rewrite decide_False; [done|]. intros [-> [?|?]%elem_of_app]; [by apply Hno'|by apply Hno].
  - destruct (IH d (b ++ [(k, v)]) (S n)) as (d' & b' & Hf & Hg). exists d', b'. rewrite Hf.
    split; [f_equal; simpl; lia|]. intros p q. by rewrite Hg, <- app_assoc.
Qed.

Lemma delete_account_get d (did : Did) pre :
  to_db_bytes did = Ok pre →
  ∃ d', delete_account d did = Ok (d', length (fj_prefix d RECORDS pre)) ∧
    ∀ p k, fj_get d' p k = if decide (p = RECORDS ∧ starts_with pre k = true) then None else fj_get d p k.
Proof.
  intros Hpre. unfold delete_account. rewrite (proj2 (enc_Ok _ _) Hpre). cbn [result_bind].
  destruct (delete_records_fold (fj_prefix d RECORDS pre) d [] 0) as (d' & b' & Hf & Hg).
  change (removes RECORDS []) with (@nil FjOp) in Hf. rewrite Hf. eexists. split; [done|].
  intros p k. rewrite Hg, removes_get, app_nil_l. destruct (decide (p = RECORDS)) as [->|Hne].
  2: { rewrite !decide_False by tauto. done. }
  destruct (starts_with pre k) eqn:Hs.
  - rewrite (decide_True (P := RECORDS = RECORDS ∧ true = true)) by done. destruct (fj_get d RECORDS k) as [v|] eqn:Hk; [|by case_decide].
    rewrite decide_True; [done|]. split; [done|]. apply (list_elem_of_fmap_2 fst _ (k, v)). by apply fj_prefix_spec.
  - rewrite (decide_False (P := RECORDS = RECORDS ∧ false = true)) by (by intros []). rewrite decide_False; [done|].
    intros [_ ([k' v] & -> & [_ Hk']%fj_prefix_spec)%list_elem_of_fmap]. simpl in Hs. congruence.
Qed.

(** The record stored for an account under a key of a collection. *)
Definition stored_record (d : Keyspace) (did : Did) (nsid : Nsid) (rkey : RecordKey) : option string :=
  match enc (from_pair did (from_pair nsid rkey) : LocationKey) with
  | Ok k => fj_get d RECORDS k
  | Err _ => None
  end.

(** C25. Deleting an account removes exactly the records stored for it: the
    record locations of every other account, and the other partitions, stay as
    they are, however the deletions are batched, and the result counts them. *)
Theorem delete_account_exact (d : Keyspace) (did : Did) :
  wf did →
  ∃ d' pre, delete_account d did = Ok (d', length (fj_prefix d RECORDS pre)) ∧ to_db_bytes did = Ok pre ∧
    (∀ (did' : Did) (nsid : Nsid) (rkey : RecordKey), wf did' → wf nsid → wf rkey →
       stored_record d' did' nsid rkey = if decide (did' = did) then None else stored_record d did' nsid rkey) ∧
    (∀ p k, p ≠ RECORDS → fj_get d' p k = fj_get d p k).
Proof.
  intros Hdid. destruct (prefix_codec did Hdid) as (pre & Hpre & _).
  destruct (delete_account_get d did pre Hpre) as (d' & Hd & Hg). exists d', pre. split_and!; [done|done| |].
  - intros did' nsid rkey Hdid' Hn Hr. unfold stored_record.
    destruct (prefix_codec did' Hdid') as (pre' & Hpre' & _).
    destruct (tail_codec (from_pair nsid rkey) (conj Hn Hr)) as (t & Ht & _).
    pose proof (concat_to_bytes (from_pair did' (from_pair nsid rkey)) pre' t Hpre' Ht) as Hk.
    rewrite (proj2 (enc_Ok _ _) Hk), Hg.
    destruct (decide (did' = did)) as [->|Hne].
    + rewrite decide_True; [done|]. split; [done|]. rewrite Hpre in Hpre'. injection Hpre' as <-.
      apply starts_with_spec. by exists t.
    + rewrite decide_False; [done|]. intros [_ [s E]%starts_with_spec]. destruct Hne.
      by destruct (prefix_codec_unique did' did pre' pre t s Hdid' Hdid Hpre' Hpre E).
  - intros p k Hp. rewrite Hg. by rewrite decide_False by tauto.
Qed.

(** ** Processing a deletion of the queue *)

Definition cursor_is (d : Keyspace) (c : Cursor) : Prop := get_static_neu NewRollupCursorKey d = Ok (Some c).

Definition live_list (d : Keyspace) : list (string * string) := fj_prefix d ROLLUPS live_family.
Definition queue_list (d : Keyspace) : list (string * string) := fj_prefix d QUEUES queue_family.

Lemma conserves_same d d' c :
  rollup_inv d → (∀ k, fj_get d' ROLLUPS k = fj_get d ROLLUPS k) → wf c → cursor_is d' c →
  Forall queue_ok (queue_list d') → conserves d d' ∧ live_list d' = live_list d.
Proof.
  intros Hinv Hsame Hc Hcur Hq.
  assert (Hlive : live_list d' = live_list d) by (apply prefix_same; by intros k _).
  assert (Htot : ∀ n r, total d' n r = total d n r).
  { intros n r. unfold total, live_total. unfold live_list in Hlive. rewrite Hlive. f_equal. unfold rolled_up.
    destruct (rollup_key r (mkNsid n)) as [k|]; [|done]. by rewrite Hsame. }
  split; [|done]. split; [|by intros]. constructor.
  - by exists c.
  - unfold live_list in Hlive. rewrite Hlive. by apply ri_live.
  - done.
  - intros n r k v Hn Hr Hk. rewrite Hsame. by apply (ri_rolled d Hinv n r).
  - intros k v Hf. rewrite Hsame. by apply (ri_keys d Hinv).
  - intros n r Hn Hr. rewrite Htot. by apply ri_fits.
Qed.

(** The single-key batch of a processed deletion. *)
Lemma rollup_delete_account_Ok d (c : Cursor) kv :
  rollup_inv d → wf c → kv ∈ queue_list d →
  ∃ d', rollup_delete_account d c kv.1 kv.2 = Ok (d', 1) ∧ conserves d d' ∧ cursor_is d' c ∧
    live_list d' = live_list d ∧ queue_list d ≡ₚ kv :: queue_list d'.
Proof.
  intros Hinv Hc Hkv. pose proof (ri_queue d Hinv) as Hq. rewrite Forall_forall in Hq.
  destruct (Hq kv Hkv) as (c0 & did & _ & Hdid & _ & Hb). unfold rollup_delete_account.
  rewrite (dec_codec did kv.2 Hdid Hb). cbn [result_bind].
  destruct (delete_account_get d did kv.2 Hb) as (d1 & -> & Hg1). cbn [result_bind].
  rewrite (insert_batch_static_Ok NewRollupCursorKey c (u64_to_be_bytes (cursor_us c))) by done. cbn [result_bind app].
  set (d' := fj_commit d1 _).
  assert (Hg : ∀ p k, p ≠ RECORDS → fj_get d' p k =
    if decide (p = GLOBAL ∧ k = static_bytes NewRollupCursorKey) then Some (u64_to_be_bytes (cursor_us c))
    else if decide (p = QUEUES ∧ k = kv.1) then None else fj_get d p k).
  { intros p k Hp. unfold d'. rewrite fj_get_commit by auto with microcosm. rewrite Hg1, decide_False by tauto.
    unfold fj_applies. simpl. repeat case_decide; naive_solver. }
  assert (Hperm : queue_list d ≡ₚ [kv] ++ queue_list d').
  { apply prefix_removed.
    - by intros kv' ->%list_elem_of_singleton.
    - apply NoDup_singleton.
    - intros k _. rewrite Hg by done. rewrite decide_False by (by intros []).
      destruct (decide (k = kv.1)) as [->|Hne].
      + rewrite decide_True by done. rewrite decide_True; [done|]. by left.
      + rewrite decide_False by tauto. rewrite decide_False; [done|]. by intros ?%list_elem_of_singleton. }
  assert (Hcur : cursor_is d' c).
  { unfold cursor_is, get_static_neu. rewrite static_key_Ok by done. cbn [result_bind]. rewrite Hg, decide_True by done.
    cbn [dec_opt]. by rewrite (dec_codec c (u64_to_be_bytes (cursor_us c))) by done. }
  destruct (conserves_same d d' c Hinv) as [Hcons Hlive]; [|done|done| |].
  - intros k. rewrite Hg by done. rewrite !decide_False by (by intros []). done.
  - pose proof (ri_queue d Hinv) as Hq'. unfold queue_list in Hperm. rewrite Hperm in Hq'. by apply Forall_app in Hq' as [_ ?].
  - exists d'. split_and!; try done.
Qed.

(** ** The ranges of a step *)

Lemma in_range_bounds lo hi k : above (Included lo) k = true ∧ below (Excluded hi) k = true ↔ in_range lo hi k.
Proof.
  unfold in_range. simpl. destruct (bytes_compare lo k), (bytes_compare k hi); naive_solver.
Qed.

Lemma static_prefix_ff lit : str_forallb (λ c, (byte_n c =? 255)%N) (static_bytes lit) = false.
Proof. apply nul_not_all_ff. Qed.

(** The entries from a key to the end of its family. *)
Lemma family_range {lit S} `{DbBytes S} d p (x : DbConcat (DbStaticStr lit) S) b :
  str_contains NUL lit = false → to_db_bytes x = Ok b →
  ∃ lo hi, lift_encoding (range_to_prefix_end x) = Ok (lo, hi) ∧
    ∀ kv, kv ∈ fj_range d p (Included lo) (Excluded hi) ↔
      kv ∈ fj_prefix d p (static_bytes lit) ∧ bytes_compare b kv.1 ≠ Gt.
Proof.
  intros Hlit Hb. destruct x as [s x].
  assert (Hs : to_db_bytes s = Ok (static_bytes lit)) by (cbn [to_db_bytes static_db_bytes]; unfold string_to_db_bytes; by rewrite Hlit).
  destruct (range_to_prefix_end_spec (from_pair s x) (static_bytes lit) b Hs Hb (static_prefix_ff lit)) as (stop & Hr & Hk).
  exists b, stop. rewrite Hr. split; [done|]. intros [k v]. rewrite fj_range_spec, fj_prefix_spec, in_range_bounds, Hk. simpl. tauto.
Qed.

Lemma live_after (c : Cursor) b kv :
  wf c → to_db_bytes (from_pair the_static_str c : DbConcat (DbStaticStr "live_counts") Cursor) = Ok b → live_ok kv →
  bytes_compare b kv.1 ≠ Gt ↔ (cursor_us c ≤ live_us kv)%N.
Proof.
  intros Hc Hb (c' & n & v & Hc' & Hn & _ & Hk & _). unfold live_us.
  rewrite (dec_codec (live_counts_key c' n : LiveKey) kv.1); [|split; [split; [done|exact Hc']|exact Hn]|exact Hk].
  change (live_counts_cursor (live_counts_key c' n)) with c'.
  pose (P' := from_pair (the_static_str : DbStaticStr "live_counts") c').
  destruct (prefix_codec P' (conj (static_ok "live_counts" eq_refl eq_refl) Hc')) as (b' & Hb' & _).
  destruct (prefix_codec n Hn) as (t & Ht & _).
  pose proof (concat_to_bytes (from_pair P' n) b' t Hb' Ht) as Hk'.
  assert (kv.1 = b' +:+ t) as -> by (pose proof (eq_trans (eq_sym Hk) Hk') as E; by injection E).
  pose proof (ordered_codec _ P' b b' "" t (conj (static_ok "live_counts" eq_refl eq_refl) Hc)
    (conj (static_ok "live_counts" eq_refl eq_refl) Hc') Hb Hb') as Hord.
  rewrite str_app_nil_r in Hord. rewrite Hord. unfold key_compare, concat_order, key_compare, static_order, cursor_order. simpl.
  destruct (N.compare_spec (cursor_us c) (cursor_us c')) as [->| |]; simpl; [|split; [lia|done]|split; [done|lia]].
  split; [lia|]. intros _. by destruct t.
Qed.

Lemma queue_after (c : Cursor) b kv :
  wf c → to_db_bytes (delete_account_queue_key c : QueueKey) = Ok b → queue_ok kv →
  bytes_compare b kv.1 ≠ Gt ↔ (cursor_us c ≤ queue_us kv)%N.
Proof.
  intros Hc Hb (c' & did & Hc' & _ & Hk & _). unfold queue_us.
  pose proof (conj (static_ok "delete_acount" eq_refl eq_refl) Hc : wf (delete_account_queue_key c : QueueKey)) as Hw.
  pose proof (conj (static_ok "delete_acount" eq_refl eq_refl) Hc' : wf (delete_account_queue_key c' : QueueKey)) as Hw'.
  rewrite (dec_codec (delete_account_queue_key c' : QueueKey) kv.1 Hw' Hk). cbn [suffix delete_account_queue_key].
  rewrite (ordered_keys _ _ _ _ Hw Hw' Hb Hk). unfold key_compare, concat_order, key_compare, static_order, cursor_order. simpl.
  destruct (N.compare_spec (cursor_us c) (cursor_us c')) as [->| |]; split; (lia || done).
Qed.

(** Keys in order have cursors in order. *)
Lemma live_sorted kv kv' : live_ok kv → live_ok kv' → key_lt kv kv' → (live_us kv ≤ live_us kv')%N.
Proof.
  intros (c & n & v & Hc & Hn & _ & Hk & _) Hok' Hlt.
  destruct (prefix_codec (from_pair (the_static_str : DbStaticStr "live_counts") c)
    (conj (static_ok "live_counts" eq_refl eq_refl) Hc)) as (b & Hb & _).
  destruct (prefix_codec n Hn) as (t & Ht & _).
  pose proof (concat_to_bytes (live_counts_key c n : LiveKey) b t Hb Ht) as Hk'.
  assert (E : kv.1 = b +:+ t) by (pose proof (eq_trans (eq_sym Hk) Hk') as E; by injection E).
  unfold live_us at 1.
  rewrite (dec_codec (live_counts_key c n : LiveKey) kv.1); [|split; [split; [done|exact Hc]|exact Hn]|exact Hk].
  change (live_counts_cursor (live_counts_key c n)) with c. apply (live_after c b kv' Hc Hb Hok').
  eapply bytes_le_trans; [apply (bytes_le_app b t)|]. rewrite <- E. unfold key_lt in Hlt. by rewrite Hlt.
Qed.
Lemma queue_sorted kv kv' : queue_ok kv → queue_ok kv' → key_lt kv kv' → (queue_us kv ≤ queue_us kv')%N.
Proof.
  intros (c & did & Hc & _ & Hk & _) Hok' Hlt. unfold queue_us at 1.
  pose proof (conj (static_ok "delete_acount" eq_refl eq_refl) Hc : wf (delete_account_queue_key c : QueueKey)) as Hw.
  rewrite (dec_codec (delete_account_queue_key c : QueueKey) kv.1 Hw Hk). cbn [suffix delete_account_queue_key].
  apply (queue_after c kv.1 kv' Hc Hk Hok'). unfold key_lt in Hlt. by rewrite Hlt.
Qed.

Lemma live_dec kv : live_ok kv → ∃ key, dec (T := LiveKey) kv.1 = Ok key ∧ live_counts_cursor key = mkCursor (live_us kv).
Proof.
  intros (c & n & v & Hc & Hn & _ & Hk & _). exists (live_counts_key c n). unfold live_us.
  rewrite (dec_codec (live_counts_key c n : LiveKey) kv.1); [|split; [split; [done|exact Hc]|exact Hn]|exact Hk].
  split; [done|]. by destruct c.
Qed.
Lemma queue_dec kv : queue_ok kv →
  ∃ key, dec (T := QueueKey) kv.1 = Ok key ∧ suffix key = mkCursor (queue_us kv) ∧ wf (mkCursor (queue_us kv)).
Proof.
  intros (c & did & Hc & _ & Hk & _). exists (delete_account_queue_key c). unfold queue_us.
  pose proof (conj (static_ok "delete_acount" eq_refl eq_refl) Hc : wf (delete_account_queue_key c : QueueKey)) as Hw.
  rewrite (dec_codec (delete_account_queue_key c : QueueKey) kv.1 Hw Hk). split; [done|]. by destruct c.
Qed.

Lemma sorted_head {A} (R : A → A → Prop) (us : A → N) (x : A) l :
  (∀ y, R x y → y ∈ l → (us x ≤ us y)%N) → StronglySorted R (x :: l) → Forall (λ y, (us x ≤ us y)%N) (x :: l).
Proof.
  intros Hm Hs. inversion_clear Hs as [|? ? _ Hall]. constructor; [lia|]. rewrite Forall_forall in *. eauto.
Qed.

Lemma sorted_split_last {A} (R : A → A → Prop) (l1 l2 : list A) x y :
  StronglySorted R (l1 ++ l2) → last l1 = Some x → y ∈ l2 → R x y.
Proof.
  intros Hs [l ->]%last_Some Hy. rewrite <- app_assoc in Hs. induction l as [|a l IH]; simpl in Hs.
  - inversion_clear Hs as [|? ? _ Hall]. rewrite Forall_forall in Hall. by apply Hall.
  - inversion_clear Hs. auto.
Qed.

(** ** A step *)

Definition pending (d : Keyspace) : nat := length (live_list d) + length (queue_list d).

(** Nothing pending lies before the rollup cursor. *)
Definition rollup_low (d : Keyspace) : Prop :=
  ∃ c, cursor_is d c ∧ Forall (λ kv, (cursor_us c ≤ live_us kv)%N) (live_list d) ∧
    Forall (λ kv, (cursor_us c ≤ queue_us kv)%N) (queue_list d).

(** Nothing pending, and not the rollup cursor, lies after [B]. *)
Record within (B : N) (d : Keyspace) : Prop := {
  wi_cursor c : cursor_is d c → (cursor_us c ≤ B)%N;
  wi_live kv : kv ∈ live_list d → (live_us kv ≤ B)%N;
  wi_queue kv : kv ∈ queue_list d → (queue_us kv ≤ B)%N
}.

Lemma within_mono B B' d : (B ≤ B')%N → within B d → within B' d.
Proof. intros HB [Hc Hl Hq]. constructor; intros; (etransitivity; [|exact HB]); eauto. Qed.

(** A step that took its cursor from a pending entry. *)
Lemma within_step B d d' c :
  within B d → cursor_is d' c → (cursor_us c ≤ B)%N → live_list d' ⊆ live_list d → queue_list d' ⊆ queue_list d → within B d'.
Proof.
  intros [Hc Hl Hq] Hcur HB Hls Hqs. constructor; [|by auto..]. intros c' Hc'. unfold cursor_is in *. rewrite Hcur in Hc'. by injection Hc' as <-.
Qed.

(** The live arm: a positive number of entries goes. *)
Lemma live_arm d kv timelies limit :
  rollup_inv d → (∀ kv', kv' ∈ kv :: timelies → kv' ∈ live_list d) → StronglySorted key_lt (kv :: timelies) →
  past_limit limit (mkCursor (live_us kv)) = false →
  ∃ d' n dirty c, rollup_live_counts d (kv :: timelies) limit MAX_BATCHED_ROLLUP_COUNTS = Ok (d', n, dirty) ∧
    conserves d d' ∧ pending d' + n = pending d ∧ 0 < n ∧ cursor_is d' c ∧ past_limit limit c = false ∧
    queue_list d' = queue_list d ∧
    (live_list d ≡ₚ kv :: timelies → Forall (λ kv, (cursor_us c ≤ live_us kv)%N) (live_list d')) ∧
    live_list d' ⊆ live_list d ∧ ∃ kv', kv' ∈ live_list d ∧ live_us kv' = cursor_us c.
Proof.
  intros Hinv Hsub Hs Hlim. pose proof (ri_live d Hinv) as Hok. rewrite Forall_forall in Hok.
  destruct (rollup_live_counts_Ok d (kv :: timelies) limit MAX_BATCHED_ROLLUP_COUNTS Hinv Hsub)
    as (d' & con & rest & dirty & Hcr & Hr & Hcons & Hperm & Hoth & c & Hc & Hcur & Hstop).
  { eapply NoDup_fmap_1. by apply sorted_NoDup. }
  assert (Hq : queue_list d' = queue_list d) by (apply prefix_same; intros k _; by apply Hoth).
  destruct (last con) as [lkv|] eqn:Hlast; unfold stops_well in Hstop; rewrite Hlast in Hstop.
  2: { apply last_None in Hlast as ->. simpl in Hcr. subst rest.
       destruct Hstop as [?|[?|(kv' & [= <-] & ?)]]; [done|done|congruence]. }
  destruct Hstop as [Hus Hpast]. exists d', (length con), dirty, c. split_and!; try done.
  - unfold pending. rewrite Hq. unfold live_list. rewrite Hperm, length_app. lia.
  - destruct con; [done|simpl; lia].
  - intros Hall. rewrite Hall, Hcr in Hperm. apply Permutation_app_inv_l in Hperm. unfold live_list. rewrite <- Hperm.
    apply Forall_forall. intros y Hy. rewrite <- Hus. apply live_sorted.
    + apply Hok, Hsub. rewrite Hcr. apply elem_of_app. left. by apply last_Some_elem_of.
    + apply Hok, Hsub. rewrite Hcr. apply elem_of_app. by right.
    + rewrite Hcr in Hs. by eapply sorted_split_last.
  - intros y Hy. unfold live_list in *. rewrite Hperm. apply elem_of_app. by right.
  - exists lkv. split; [|done]. apply Hsub. rewrite Hcr. apply elem_of_app. left. by apply last_Some_elem_of.
Qed.

(** What a step sees: the pending entries from the cursor on. *)
Record step_view (d : Keyspace) (c : Cursor) (timely queue : list (string * string)) : Prop := {
  sv_live kv : kv ∈ timely ↔ kv ∈ live_list d ∧ (cursor_us c ≤ live_us kv)%N;
  sv_queue kv : kv ∈ queue ↔ kv ∈ queue_list d ∧ (cursor_us c ≤ queue_us kv)%N;
  sv_live_sorted : StronglySorted key_lt timely;
  sv_queue_sorted : StronglySorted key_lt queue
}.

(** The rest of a step, once its two ranges are read. *)
Definition step_arms (d : Keyspace) (timely queue : list (string * string)) : StorageResult (Keyspace * nat * gset string) :=
  match timely, queue with
  | kv :: _, q :: _ =>
      if (live_us kv <? queue_us q)%N
      then rollup_live_counts d timely (Some (mkCursor (queue_us q))) MAX_BATCHED_ROLLUP_COUNTS
      else '(d, n) ←? rollup_delete_account d (mkCursor (queue_us q)) q.1 q.2; Ok (d, n, ∅)
  | _ :: _, [] => rollup_live_counts d timely None MAX_BATCHED_ROLLUP_COUNTS
  | [], q :: _ => '(d, n) ←? rollup_delete_account d (mkCursor (queue_us q)) q.1 q.2; Ok (d, n, ∅)
  | [], [] => Ok (d, 0, ∅)
  end.

Lemma step_rollup_reads d c :
  rollup_inv d → wf c → cursor_is d c →
  ∃ timely queue, step_view d c timely queue ∧ step_rollup d = step_arms d timely queue.
Proof.
  intros Hinv Hc Hcur. pose proof (ri_live d Hinv) as Hlok. pose proof (ri_queue d Hinv) as Hqok. rewrite Forall_forall in Hlok, Hqok.
  destruct (prefix_codec (from_pair (the_static_str : DbStaticStr "live_counts") c)
    (conj (static_ok "live_counts" eq_refl eq_refl) Hc)) as (b & Hb & _).
  destruct (prefix_codec (delete_account_queue_key c : QueueKey)
    (conj (static_ok "delete_acount" eq_refl eq_refl) Hc)) as (b' & Hb' & _).
  destruct (family_range d ROLLUPS (from_pair (the_static_str : DbStaticStr "live_counts") c) b eq_refl Hb) as (lo & hi & Hr & Hin).
  destruct (family_range d QUEUES (delete_account_queue_key c : QueueKey) b' eq_refl Hb') as (lo' & hi' & Hr' & Hin').
  set (timely := fj_range d ROLLUPS (Included lo) (Excluded hi)) in *.
  set (queue := fj_range d QUEUES (Included lo') (Excluded hi')) in *.
  assert (Hview : step_view d c timely queue).
  { constructor; [| |apply fj_range_sorted|apply fj_range_sorted].
    - intros kv. rewrite Hin. split; intros [Hl Hle]; (split; [done|]); [apply (live_after c b kv Hc Hb)|apply (live_after c b kv Hc Hb)]; auto.
    - intros kv. rewrite Hin'. split; intros [Hl Hle]; (split; [done|]); [apply (queue_after c b' kv Hc Hb')|apply (queue_after c b' kv Hc Hb')]; auto. }
  exists timely, queue. split; [done|]. unfold step_rollup. rewrite Hcur. cbn [result_bind].
  unfold range_from_cursor. rewrite Hr. cbn [result_bind half_open fst snd]. fold timely. rewrite Hr'.
  cbn [result_bind half_open fst snd]. fold queue. clearbody timely queue.
  destruct timely as [|[kb vb] timely], queue as [|[qk qv] queue]; cbn [result_bind].
  all: try (destruct (live_dec (kb, vb)) as (key & Hk & Hkc);
    [apply Hlok, (sv_live _ _ _ _ Hview); by left|]; cbn [fst] in Hk; rewrite Hk; cbn [result_bind]).
  all: try (destruct (queue_dec (qk, qv)) as (qkey & Hqk & Hqc & _);
    [apply Hqok, (sv_queue _ _ _ _ Hview); by left|]; cbn [fst] in Hqk; rewrite Hqk; cbn [result_bind]).
  all: cbn [step_arms fst snd]; rewrite ?Hkc, ?Hqc; done.
Qed.

(** Where nothing lies before the cursor, a step sees everything. *)
Lemma view_all d c timely queue :
  step_view d c timely queue → cursor_is d c → rollup_low d → timely = live_list d ∧ queue = queue_list d.
Proof.
  intros Hv Hcur (c' & Hcur' & Hl & Hq). unfold cursor_is in *. rewrite Hcur in Hcur'. injection Hcur' as <-.
  rewrite Forall_forall in Hl, Hq. split.
  - apply sorted_unique; [apply (sv_live_sorted _ _ _ _ Hv)|apply fj_prefix_sorted|].
    intros kv. rewrite (sv_live _ _ _ _ Hv). split; [by intros []|eauto].
  - apply sorted_unique; [apply (sv_queue_sorted _ _ _ _ Hv)|apply fj_prefix_sorted|].
    intros kv. rewrite (sv_queue _ _ _ _ Hv). split; [by intros []|eauto].
Qed.

(** What every step does. *)
Definition good_step (d : Keyspace) (r : StorageResult (Keyspace * nat * gset string)) : Prop :=
  ∃ d' n dirty, r = Ok (d', n, dirty) ∧ conserves d d' ∧ pending d' + n = pending d ∧
    (rollup_low d → rollup_low d' ∧ (n = 0 → pending d = 0)) ∧ (∀ B, within B d → within B d').

Lemma queue_head_least d c timely q queue :
  rollup_inv d → step_view d c timely (q :: queue) → Forall (λ kv, (queue_us q ≤ queue_us kv)%N) (q :: queue).
Proof.
  intros Hinv Hv. pose proof (ri_queue d Hinv) as Hok. rewrite Forall_forall in Hok.
  eapply sorted_head; [|apply (sv_queue_sorted _ _ _ _ Hv)].
  intros y Hlt Hy. apply queue_sorted; [apply Hok, (sv_queue _ _ _ _ Hv); by left|apply Hok, (sv_queue _ _ _ _ Hv); by right|done].
Qed.
Lemma live_head_least d c kv timely queue :
  rollup_inv d → step_view d c (kv :: timely) queue → Forall (λ kv', (live_us kv ≤ live_us kv')%N) (kv :: timely).
Proof.
  intros Hinv Hv. pose proof (ri_live d Hinv) as Hok. rewrite Forall_forall in Hok.
  eapply sorted_head; [|apply (sv_live_sorted _ _ _ _ Hv)].
  intros y Hlt Hy. apply live_sorted; [apply Hok, (sv_live _ _ _ _ Hv); by left|apply Hok, (sv_live _ _ _ _ Hv); by right|done].
Qed.

Lemma delete_arm d c timely q queue :
  rollup_inv d → cursor_is d c → step_view d c timely (q :: queue) →
  Forall (λ kv, (queue_us q ≤ live_us kv)%N) timely →
  good_step d ('(d, n) ←? rollup_delete_account d (mkCursor (queue_us q)) q.1 q.2; Ok (d, n, ∅)).
Proof.
  intros Hinv Hcur Hv Hlive. assert (Hq : q ∈ queue_list d) by (apply (sv_queue _ _ _ _ Hv); by left).
  pose proof (ri_queue d Hinv) as Hok. rewrite Forall_forall in Hok.
  destruct (queue_dec q (Hok q Hq)) as (_ & _ & _ & Hwf).
  destruct (rollup_delete_account_Ok d (mkCursor (queue_us q)) q Hinv Hwf Hq) as (d' & -> & Hcons & Hcur' & Hl & Hp).
  cbn [result_bind]. exists d', 1, ∅. split_and!; [done|done| | |].
  - unfold pending. rewrite Hl, Hp. simpl. lia.
  - intros Hlow. split; [|done]. destruct (view_all d c _ _ Hv Hcur Hlow) as [Et Eq].
    exists (mkCursor (queue_us q)). split_and!; [done| |].
    + by rewrite Hl, <- Et.
    + pose proof (queue_head_least d c timely q queue Hinv Hv) as Hall. rewrite Eq, Hp in Hall.
      by apply Forall_cons in Hall as [_ ?].
  - intros B HB. apply (within_step B d d' (mkCursor (queue_us q))); [done|done|by apply (wi_queue B d HB)|by rewrite Hl|].
    rewrite Hp. intros x Hx. by right.
Qed.

Lemma live_step d c kv timely queue limit :
  rollup_inv d → cursor_is d c → step_view d c (kv :: timely) queue → past_limit limit (mkCursor (live_us kv)) = false →
  (∀ c', past_limit limit c' = false → Forall (λ q, (cursor_us c' ≤ queue_us q)%N) queue) →
  good_step d (rollup_live_counts d (kv :: timely) limit MAX_BATCHED_ROLLUP_COUNTS).
Proof.
  intros Hinv Hcur Hv Hlim Hq.
  destruct (live_arm d kv timely limit Hinv) as (d' & n & dirty & c' & Hr & Hcons & Hp & Hn & Hcur' & Hpast & Hqs & Hrest & Hsub & kv' & Hkv' & Hus).
  { intros kv' Hkv'. by apply (sv_live _ _ _ _ Hv). } { apply (sv_live_sorted _ _ _ _ Hv). } { done. }
  exists d', n, dirty. split_and!; [done|done|done| |].
  - intros Hlow. split; [|lia]. destruct (view_all d c _ _ Hv Hcur Hlow) as [Et Eq]. exists c'. split_and!; [done| |].
    + apply Hrest. by rewrite Et.
    + rewrite Hqs, <- Eq. by apply Hq.
  - intros B HB. apply (within_step B d d' c'); [done|done| |done|by rewrite Hqs]. rewrite <- Hus. by apply (wi_live B d HB).
Qed.

Lemma step_rollup_good d : rollup_inv d → good_step d (step_rollup d).
Proof.
  intros Hinv. destruct (ri_cursor d Hinv) as (c & Hc & Hcur).
  destruct (step_rollup_reads d c Hinv Hc Hcur) as (timely & queue & Hv & ->).
  destruct timely as [|kv timely], queue as [|q queue]; cbn [step_arms].
  - exists d, 0, ∅. split_and!; [done|done|lia| |done]. intros Hlow. split; [done|]. intros _.
    destruct (view_all d c _ _ Hv Hcur Hlow) as [Et Eq]. unfold pending. by rewrite <- Et, <- Eq.
  - by apply (delete_arm d c [] q queue).
  - apply (live_step d c kv timely []); try done.
  - destruct (N.ltb_spec (live_us kv) (queue_us q)) as [Hlt|Hge].
    + apply (live_step d c kv timely (q :: queue)); try done.
      * simpl. apply N.ltb_ge. lia.
      * intros c' Hc'. simpl in Hc'. apply N.ltb_ge in Hc'.
        eapply Forall_impl; [by apply (queue_head_least d c (kv :: timely))|]. simpl. intros. lia.
    + apply (delete_arm d c (kv :: timely) q queue); try done.
      eapply Forall_impl; [by apply (live_head_least d c kv timely (q :: queue))|]. simpl. intros. lia.
Qed.

(** C11. Conservation: a step of the rollup succeeds on a well-formed store,
    keeps it well formed, and moves counts without losing or duplicating any:
    for every collection and every bucket (hour, week, all time), the counts
    rolled up plus the counts still live are what they were.  It returns the
    number of pending entries it processed. *)
Theorem step_rollup_conserves (d : Keyspace) :
  rollup_inv d →
  ∃ d' n dirty, step_rollup d = Ok (d', n, dirty) ∧ rollup_inv d' ∧ pending d' + n = pending d ∧
    ∀ (nsid : Nsid) (bucket : Rollup), wf nsid → rollup_wf bucket →
      total d' (nsid_str nsid) bucket = total d (nsid_str nsid) bucket.
Proof.
  intros Hinv. destruct (step_rollup_good d Hinv) as (d' & n & dirty & Hr & [Hinv' Htot] & Hp & _). eauto 10.
Qed.

(** Repeated ticks of the rollup arm of [run]. *)
Fixpoint rollup_ticks (n : nat) (st : Keyspace * gset string) : StorageResult (Keyspace * gset string) :=
  match n with
  | O => Ok st
  | S n => st ←? rollup_tick st; rollup_ticks n st
  end.

Lemma rollup_ticks_good n d dirty :
  rollup_inv d → rollup_low d →
  ∃ d' dirty', rollup_ticks n (d, dirty) = Ok (d', dirty') ∧ conserves d d' ∧ rollup_low d' ∧ pending d' ≤ pending d - n.
Proof.
  revert d dirty. induction n as [|n IH]; intros d dirty Hinv Hlow; cbn [rollup_ticks].
  { exists d, dirty. split_and!; [done|done|done|lia]. }
  destruct (step_rollup_good d Hinv) as (d1 & k & dirty1 & Hr & [Hinv1 Htot1] & Hp & Hl & _). unfold rollup_tick. cbn [fst snd].
  rewrite Hr. cbn [result_bind]. destruct (Hl Hlow) as [Hlow1 Hz].
  destruct (IH d1 (dirty ∪ dirty1) Hinv1 Hlow1) as (d2 & dirty2 & -> & [Hinv2 Htot2] & Hlow2 & Hp2).
  exists d2, dirty2. split_and!; [done| |done|].
  - split; [done|]. intros. rewrite Htot2 by done. by apply Htot1.
  - destruct k; [|lia]. specialize (Hz eq_refl). lia.
Qed.

Lemma ticks_catch_up (d : Keyspace) (dirty : gset string) :
  rollup_inv d → rollup_low d →
  ∃ d' dirty', rollup_ticks (pending d) (d, dirty) = Ok (d', dirty') ∧ live_list d' = [] ∧ queue_list d' = [] ∧
    ∀ (nsid : Nsid) (bucket : Rollup), wf nsid → rollup_wf bucket →
      rolled_up d' (nsid_str nsid) bucket = total d (nsid_str nsid) bucket.
Proof.
  intros Hinv Hlow. destruct (rollup_ticks_good (pending d) d dirty Hinv Hlow) as (d' & dirty' & Hr & [_ Htot] & _ & Hp).
  assert (Hnil : live_list d' = [] ∧ queue_list d' = []).
  { unfold pending in *. split; apply length_zero_iff_nil; lia. }
  destruct Hnil as [Hl Hq]. exists d', dirty'. split_and!; try done. intros nsid r Hn Hr'.
  rewrite <- Htot by done. unfold total, live_total. unfold live_list in Hl. rewrite Hl. by rewrite add_counts_0_r.
Qed.

(** Progress: from a store with nothing pending before its rollup cursor,
    as many ticks as there are pending entries process all of them.  Then
    nothing is live and no deletion is queued, and the buckets of every
    collection hold exactly its total. *)
Theorem rollup_catches_up (d : Keyspace) (dirty : gset string) :
  rollup_inv d → rollup_low d →
  ∃ d' dirty', rollup_ticks (pending d) (d, dirty) = Ok (d', dirty') ∧ live_list d' = [] ∧ queue_list d' = [] ∧
    ∀ (nsid : Nsid) (bucket : Rollup), wf nsid → rollup_wf bucket →
      rolled_up d' (nsid_str nsid) bucket = total d (nsid_str nsid) bucket.
Proof. apply ticks_catch_up. Qed.

End Background.
End Background.
