(* ===== verification/UfosInsert.v ===== *)
(** * ufos: inserting a batch

    What [insert_batch] does to the store: the records take the commits of
    their collection in the order of its list, the live counts grow by one
    entry per collection, so that every total grows by exactly what the batch
    counted, and the cursor of the stream moves to the latest of the batch. *)

From Stdlib Require Import Sorted.
From S2P Require Import Prelude RustStr Bytes UfosCursor UfosDbTypes.
From S2P Require Import UfosStoreTypes UfosBatch UfosFjallApi UfosStorage UfosRollup.
From S2P Require Import UfosBackground.
Import Db Store Batch FjallStore Background.

Module Insert.

(** ** Picking one key out of a fold over a map *)

Lemma fold_no_key {A B} (f : A → B → B) (x : string) (l : list (string * A)) cur :
  x ∉ l.*1 → fold_left (λ cur e, if decide (e.1 = x) then f e.2 cur else cur) l cur = cur.
Proof.
  revert cur. induction l as [|[y a] l IH]; intros cur Hx; [done|]. cbn [fmap list_fmap fst] in Hx. simpl.
  apply not_elem_of_cons in Hx as [Hne Hx]. rewrite decide_False by done. by apply IH.
Qed.

Lemma fold_map_key {A B} (f : A → B → B) (x : string) (m : gmap string A) cur :
  fold_left (λ cur e, if decide (e.1 = x) then f e.2 cur else cur) (map_to_list m) cur =
  match m !! x with Some a => f a cur | None => cur end.
Proof.
  pose proof (NoDup_fst_map_to_list m) as Hnd. destruct (m !! x) as [a|] eqn:Hx.
  - apply elem_of_map_to_list, list_elem_of_split in Hx as (l1 & l2 & E). rewrite E in *.
    rewrite fmap_app, fmap_cons in Hnd. apply NoDup_app in Hnd as (_ & Hd & [Hn _]%NoDup_cons).
    rewrite fold_left_app. simpl. rewrite decide_True by done. rewrite fold_no_key; [rewrite fold_no_key; [done|]|done].
    intros Hin. apply (Hd _ Hin). by left.
  - apply fold_no_key. intros ([y a] & E & Hin%elem_of_map_to_list)%list_elem_of_fmap. simpl in E. congruence.
Qed.

(** A prefix scan after new entries. *)
Lemma prefix_inserted `{FL : FjallLaws} d d' p pre (new : list (string * string)) :
  NoDup new.*1 → (∀ kv, kv ∈ new → starts_with pre kv.1 = true ∧ fj_get d p kv.1 = None ∧ fj_get d' p kv.1 = Some kv.2) →
  (∀ k, starts_with pre k = true → k ∉ new.*1 → fj_get d' p k = fj_get d p k) →
  fj_prefix d' p pre ≡ₚ new ++ fj_prefix d p pre.
Proof.
  intros Hnd Hnew Hold. apply NoDup_Permutation.
  - eapply NoDup_fmap_1, sorted_NoDup, fj_prefix_sorted.
  - apply NoDup_app. split_and!; [by eapply NoDup_fmap_1| |eapply NoDup_fmap_1, sorted_NoDup, fj_prefix_sorted].
    intros [k v] Hin [Hg _]%fj_prefix_spec. destruct (Hnew _ Hin) as (_ & Hno & _). simpl in Hno. congruence.
  - intros [k v]. rewrite elem_of_app, !fj_prefix_spec. split.
    + intros [Hg Hs]. destruct (decide (k ∈ new.*1)) as [Hin|Hno]; [|right; by rewrite <- Hold].
      apply list_elem_of_fmap in Hin as ([k' v'] & E & Hin). simpl in E. subst k'. left.
      destruct (Hnew _ Hin) as (_ & _ & Hg'). simpl in Hg'. rewrite Hg in Hg'. by injection Hg' as ->.
    + intros [Hin|[Hg Hs]].
      * by destruct (Hnew _ Hin) as (? & _ & ?).
      * split; [|done]. rewrite Hold; [done|done|]. intros ([k' v'] & E & Hin)%list_elem_of_fmap. simpl in E. subst k'.
        destruct (Hnew _ Hin) as (_ & Hno & _). simpl in Hno. congruence.
Qed.

Section Insert.
Context `{FL : FjallLaws} `{LL : LsmTreeLaws} `{AL : AtriumLaws} `{BL : BincodeStrLaws}.
Context `{SketchOps, Bincode2 CommitCounts, Bincode2 RecordLocationMeta, Bincode2 Sketch, Bincode2 SketchSecretPrefix}.
Context `{!Bincode2Laws CommitCounts, !Bincode2Laws RecordLocationMeta, !Bincode2Laws Sketch}.

Abbreviation Counts := (DbConcat CommitCounts Sketch).
Abbreviation LiveKey := (DbConcat (DbConcat (DbStaticStr "live_counts") Cursor) Nsid).
Abbreviation LocationKey := (DbConcat Did (DbConcat Nsid RecordKey)).
Abbreviation LocationVal := (DbConcat RecordLocationMeta RawBytes).

(** ** Commits *)

(** What the identifiers of the stream guarantee. *)
Definition commit_wf (c : UFOsCommit) : Prop :=
  wf (c_cursor c) ∧ wf (c_did c) ∧ wf (c_rkey c) ∧ wf (c_rev c) ∧
  (N.of_nat (String.length (c_rev c)) + 17 ≤ BINCODE_LIMIT)%N.

(** The effect of a commit on the record of an account under a key. *)
Definition apply_commit (did : Did) (rkey : RecordKey) (cur : option string) (c : UFOsCommit) : option string :=
  if decide (c_did c = did ∧ c_rkey c = rkey) then
    match c_action c with
    | Cut => None
    | Put record is_update =>
        result_to_option (enc (location_val_from (c_cursor c) (c_rev c) record is_update : LocationVal))
    end
  else cur.

Definition not_weak (op : FjOp) : Prop := match op with FjRemoveWeak _ _ => False | _ => True end.

Lemma location_key_Ok did nsid rkey :
  wf did → wf nsid → wf rkey → ∃ k, to_db_bytes (from_pair did (from_pair nsid rkey) : LocationKey) = Ok k.
Proof.
  intros Hd Hn Hr. destruct (tail_codec (from_pair did (from_pair nsid rkey)) (conj Hd (conj Hn Hr))) as (k & Hk & _). by exists k.
Qed.

Lemma location_key_eq did nsid rkey did' nsid' rkey' k k' :
  wf did → wf nsid → wf rkey → wf did' → wf nsid' → wf rkey' →
  to_db_bytes (from_pair did (from_pair nsid rkey) : LocationKey) = Ok k →
  to_db_bytes (from_pair did' (from_pair nsid' rkey') : LocationKey) = Ok k' →
  k = k' ↔ did = did' ∧ nsid = nsid' ∧ rkey = rkey'.
Proof.
  intros Hd Hn Hr Hd' Hn' Hr' Hk Hk'. split.
  - intros <-. assert (E : from_pair did (from_pair nsid rkey) = from_pair did' (from_pair nsid' rkey')).
    { refine (codec_inj (T := LocationKey) _ _ k _ _ Hk Hk'); by split. }
    by injection E.
  - intros (-> & -> & ->). pose proof (eq_trans (eq_sym Hk) Hk') as E. by injection E.
Qed.

Lemma location_val_Ok c record is_update :
  commit_wf c → ∃ v, enc (location_val_from (c_cursor c) (c_rev c) record is_update : LocationVal) = Ok v.
Proof.
  intros (Hc & _ & _ & [_ Hu] & Hlen).
  destruct (prefix_codec (mkMeta (cursor_us (c_cursor c)) is_update (c_rev c)) (conj Hc (conj Hu Hlen))) as (b & Hb & _).
  destruct (concat_Ok (mkMeta (cursor_us (c_cursor c)) is_update (c_rev c)) (mkRaw record)) as [v Hv]; [by eexists|by eexists|].
  exists v. by apply enc_Ok.
Qed.

(** One commit of a collection. *)
Definition records_effect (nsid : Nsid) (cs : list UFOsCommit) (ops : list FjOp) : Prop :=
  Forall not_weak ops ∧ Forall (λ op, ∀ p k, fj_touches p k op → p = FEEDS ∨ p = RECORDS) ops ∧
  ∀ did nsid' rkey k cur, wf did → wf nsid' → wf rkey →
    to_db_bytes (from_pair did (from_pair nsid' rkey) : LocationKey) = Ok k →
    fj_applies ops RECORDS k cur = if decide (nsid = nsid') then fold_left (apply_commit did rkey) cs cur else cur.

Lemma insert_commit_Ok nsid batch c :
  wf nsid → commit_wf c →
  ∃ ops, insert_commit nsid batch c = Ok (batch ++ ops) ∧ records_effect nsid [c] ops.
Proof.
  intros Hn Hc. pose proof Hc as (Hcur & Hd & Hr & Hrev & _).
  destruct (location_key_Ok (c_did c) nsid (c_rkey c) Hd Hn Hr) as [k Hk].
  assert (Hk' : enc (location_key_from_commit c nsid) = Ok k) by (by apply enc_Ok).
  assert (Heq : ∀ did nsid' rkey k', wf did → wf nsid' → wf rkey →
    to_db_bytes (from_pair did (from_pair nsid' rkey) : LocationKey) = Ok k' →
    (RECORDS = RECORDS ∧ k = k') ↔ nsid = nsid' ∧ c_did c = did ∧ c_rkey c = rkey).
  { intros did nsid' rkey k' Hd' Hn' Hr' Hkk. rewrite (location_key_eq (c_did c) nsid (c_rkey c) did nsid' rkey k k') by done. tauto. }
  unfold insert_commit, records_effect, apply_commit. destruct (c_action c) as [record is_update|] eqn:Ha.
  - destruct (tail_codec (from_pair nsid (c_cursor c)) (conj Hn Hcur)) as (fk & Hfk & _).
    destruct (tail_codec (from_pair (c_did c) (from_pair (c_rkey c) (c_rev c))) (conj Hd (conj Hr Hrev))) as (fv & Hfv & _).
    destruct (location_val_Ok c record is_update Hc) as [v Hv].
    assert (Hfv' : enc (feed_val_from (c_did c) (c_rkey c) (c_rev c) : DbConcat Did (DbConcat RecordKey string)) = Ok fv) by (by apply enc_Ok).
    rewrite (proj2 (enc_Ok _ _) Hfk). cbn [result_bind]. rewrite Hfv'. cbn [result_bind]. rewrite Hk'. cbn [result_bind].
    rewrite Hv. cbn [result_bind result_to_option]. eexists. split; [done|]. split_and!.
    + by repeat constructor.
    + apply Forall_forall. intros op Hop p q. rewrite !elem_of_cons, elem_of_nil in Hop.
      destruct Hop as [->|[->|[]]]; intros [<- _]; auto.
    + intros did nsid' rkey k' cur Hd' Hn' Hr' Hkk. specialize (Heq did nsid' rkey k' Hd' Hn' Hr' Hkk).
      unfold fj_applies. cbn [fold_left fj_apply]. rewrite Ha, Hv. repeat case_decide; naive_solver.
  - rewrite Hk'. cbn [result_bind]. eexists. split; [done|]. split_and!.
    + by repeat constructor.
    + apply Forall_forall. intros op ->%list_elem_of_singleton p q [<- _]. auto.
    + intros did nsid' rkey k' cur Hd' Hn' Hr' Hkk. specialize (Heq did nsid' rkey k' Hd' Hn' Hr' Hkk).
      unfold fj_applies. cbn [fold_left fj_apply]. rewrite Ha. repeat case_decide; naive_solver.
Qed.

Lemma records_effect_app nsid cs1 cs2 ops1 ops2 :
  records_effect nsid cs1 ops1 → records_effect nsid cs2 ops2 → records_effect nsid (cs1 ++ cs2) (ops1 ++ ops2).
Proof.
  intros (Hw1 & Ht1 & He1) (Hw2 & Ht2 & He2). split_and!; [by apply Forall_app|by apply Forall_app|].
  intros did nsid' rkey k cur Hd Hn Hr Hk. rewrite fj_applies_app, (He1 did nsid' rkey k), (He2 did nsid' rkey k) by done.
  case_decide; [|done]. by rewrite fold_left_app.
Qed.

Lemma insert_commits_Ok nsid cs batch :
  wf nsid → Forall commit_wf cs →
  ∃ ops, foldl_res (insert_commit nsid) batch cs = Ok (batch ++ ops) ∧ records_effect nsid cs ops.
Proof.
  intros Hn Hcs. revert batch. induction Hcs as [|c cs Hc Hcs IH]; intros batch.
  { exists []. rewrite app_nil_r. split; [done|]. split_and!; [constructor|constructor|]. intros. by case_decide. }
  cbn [foldl_res]. destruct (insert_commit_Ok nsid batch c Hn Hc) as (ops & -> & He). cbn [result_bind].
  destruct (IH (batch ++ ops)) as (ops' & -> & He'). exists (ops ++ ops'). rewrite <- app_assoc. split; [done|].
  by apply (records_effect_app nsid [c] cs).
Qed.

(** ** Collections *)

Definition cc_counts (cc : CollectionCommits) : CommitCounts :=
  mkCounts (N.of_nat (cc_creates cc)) (N.of_nat (cc_updates cc)) (N.of_nat (cc_deletes cc)).

Definition collection_wf (e : string * CollectionCommits) : Prop :=
  wf (mkNsid e.1) ∧ Forall commit_wf (cc_commits e.2) ∧ wf (cc_counts e.2).

(** The live entry written for a collection. *)
Definition live_entry (latest : Cursor) (e : string * CollectionCommits) (kv : string * string) : Prop :=
  to_db_bytes (live_counts_key latest (mkNsid e.1) : LiveKey) = Ok kv.1 ∧
  to_db_bytes (from_pair (cc_counts e.2) (cc_dids_estimate e.2) : Counts) = Ok kv.2.

(** The operations of some collections, and the live entries among them. *)
Record batch_effect (latest : Cursor) (L : list (string * CollectionCommits)) (ops : list FjOp) (new : list (string * string)) : Prop := {
  be_weak : Forall not_weak ops;
  be_new : Forall2 (live_entry latest) L new;
  be_touch : Forall (λ op, ∀ p k, fj_touches p k op → p = FEEDS ∨ p = RECORDS ∨ p = ROLLUPS ∧ k ∈ new.*1) ops;
  be_live kv cur : kv ∈ new → fj_applies ops ROLLUPS kv.1 cur = Some kv.2;
  be_records did nsid rkey k cur : wf did → wf nsid → wf rkey →
    to_db_bytes (from_pair did (from_pair nsid rkey) : LocationKey) = Ok k →
    fj_applies ops RECORDS k cur =
    fold_left (λ cur e, if decide (e.1 = nsid_str nsid) then fold_left (apply_commit did rkey) (cc_commits e.2) cur else cur) L cur
}.

Lemma insert_collection_Ok latest batch e :
  wf latest → collection_wf e →
  ∃ ops kv, insert_collection latest batch e = Ok (batch ++ ops) ∧ batch_effect latest [e] ops [kv].
Proof.
  intros Hlat (Hn & Hcs & Hcounts). destruct e as [n cc]. cbn [fst snd] in *. unfold insert_collection. cbn [fst snd].
  destruct (insert_commits_Ok (mkNsid n) (cc_commits cc) batch Hn Hcs) as (ops & -> & Hw & Ht & He). cbn [result_bind].
  destruct (tail_codec (live_counts_key latest (mkNsid n) : LiveKey)) as (k & Hk & _).
  { split; [split; [done|exact Hlat]|exact Hn]. }
  destruct (tail_codec (from_pair (cc_counts cc) (cc_dids_estimate cc) : Counts)) as (v & Hv & _); [by split|].
  rewrite (proj2 (enc_Ok _ _) Hk). cbn [result_bind].
  assert (Hv' : enc (counts_value_new (cc_counts cc) (cc_dids_estimate cc) : Counts) = Ok v) by (by apply enc_Ok).
  unfold cc_counts in Hv'. rewrite Hv'. cbn [result_bind].
  exists (ops ++ [FjInsert ROLLUPS k v]), (k, v). rewrite <- app_assoc. split; [done|].
  assert (Hno : ∀ q, Forall (λ op, ¬ fj_touches ROLLUPS q op) ops).
  { intros q. eapply Forall_impl; [exact Ht|]. intros op Hop Htt. by destruct (Hop _ _ Htt). }
  constructor.
  - apply Forall_app. split; [done|]. by repeat constructor.
  - by repeat constructor.
  - apply Forall_app. split.
    + eapply Forall_impl; [exact Ht|]. intros op Hop p q Htt. destruct (Hop _ _ Htt); auto.
    + apply Forall_forall. intros op ->%list_elem_of_singleton p q [<- <-]. right. right. split; [done|]. by left.
  - intros kv cur ->%list_elem_of_singleton. rewrite fj_applies_app. unfold fj_applies at 1. simpl. by rewrite decide_True.
  - intros did nsid rkey q cur Hd Hns Hr Hq. rewrite fj_applies_app, (He did nsid rkey q) by done.
    unfold fj_applies. cbn [fold_left fj_apply fst snd]. rewrite (decide_False (P := ROLLUPS = RECORDS ∧ k = q)) by (by intros []).
    destruct nsid as [n']. cbn [nsid_str]. destruct (decide (n = n')) as [->|Hne].
    + by rewrite decide_True.
    + by rewrite decide_False by (by intros [= ->]).
Qed.

Lemma live_entry_inj latest e e' kv kv' :
  wf latest → collection_wf e → collection_wf e' → live_entry latest e kv → live_entry latest e' kv' →
  kv.1 = kv'.1 → e.1 = e'.1.
Proof.
  intros Hl (Hn & _) (Hn' & _) [Hk _] [Hk' _] E. rewrite <- E in Hk'.
  assert (live_counts_key latest (mkNsid e.1) = live_counts_key latest (mkNsid e'.1)) as E'.
  { refine (codec_inj (T := LiveKey) _ _ _ _ _ Hk Hk'); (split; [split; [done|exact Hl]|done]). }
  by injection E'.
Qed.

(** The keys of the new entries are those of their collections. *)
Lemma live_entry_key latest L new e kv :
  wf latest → Forall collection_wf (e :: L) → live_entry latest e kv → Forall2 (live_entry latest) L new →
  e.1 ∉ L.*1 → kv.1 ∉ new.*1.
Proof.
  intros Hl [He HL]%Forall_cons Hkv HF Hno ([k' v'] & E & Hin)%list_elem_of_fmap.
  apply list_elem_of_lookup in Hin as [i Hi]. destruct (Forall2_lookup_r _ _ _ _ _ HF Hi) as (e' & He'%list_elem_of_lookup_2 & Hkv').
  rewrite Forall_forall in HL. apply Hno. rewrite (live_entry_inj latest e e' kv (k', v')); auto.
  by apply list_elem_of_fmap_2.
Qed.

Lemma insert_collections_Ok latest L batch :
  wf latest → NoDup L.*1 → Forall collection_wf L →
  ∃ ops new, foldl_res (insert_collection latest) batch L = Ok (batch ++ ops) ∧ batch_effect latest L ops new ∧ NoDup new.*1.
Proof.
  intros Hlat. revert batch. induction L as [|e L IH]; intros batch Hnd Hall.
  { exists [], []. rewrite app_nil_r. split; [done|]. split; [|constructor]. split; try constructor; try done. by intros kv cur ?%not_elem_of_nil. }
  pose proof Hall as Hall'. apply Forall_cons in Hall' as [He HL]. cbn [fmap list_fmap] in Hnd. apply NoDup_cons in Hnd as [Hno Hnd].
  cbn [foldl_res]. destruct (insert_collection_Ok latest batch e Hlat He) as (ops & kv & -> & Hone). cbn [result_bind].
  destruct (IH (batch ++ ops) Hnd HL) as (ops' & new & -> & Hrest & Hnn).
  assert (Hkv : live_entry latest e kv) by (pose proof (be_new _ _ _ _ Hone) as HF; by inversion HF).
  pose proof (live_entry_key latest L new e kv Hlat Hall Hkv (be_new _ _ _ _ Hrest) Hno) as Hkno.
  exists (ops ++ ops'), (kv :: new). rewrite <- app_assoc. split; [done|]. split.
  2: { cbn [fmap list_fmap]. by apply NoDup_cons. }
  constructor.
  - apply Forall_app. split; [apply (be_weak _ _ _ _ Hone)|apply (be_weak _ _ _ _ Hrest)].
  - constructor; [done|apply (be_new _ _ _ _ Hrest)].
  - apply Forall_app. split.
    + eapply Forall_impl; [apply (be_touch _ _ _ _ Hone)|]. intros op Hop p k Ht.
      destruct (Hop p k Ht) as [?|[?|[-> ->%list_elem_of_singleton]]]; auto. right. right. split; [done|]. by left.
    + eapply Forall_impl; [apply (be_touch _ _ _ _ Hrest)|]. intros op Hop p k Ht.
      destruct (Hop p k Ht) as [?|[?|[-> ?]]]; auto. right. right. split; [done|]. by right.
  - intros kv' cur [->|Hin]%elem_of_cons; rewrite fj_applies_app; [|by apply (be_live _ _ _ _ Hrest)].
    rewrite (be_live _ _ _ _ Hone kv cur) by (by left). apply fj_applies_untouched.
    eapply Forall_impl; [apply (be_touch _ _ _ _ Hrest)|]. intros op Hop Ht.
    destruct (Hop _ _ Ht) as [?|[?|[_ ?]]]; done.
  - intros did nsid rkey k cur Hd Hn Hr Hk. rewrite fj_applies_app.
    rewrite (be_records _ _ _ _ Hone did nsid rkey k), (be_records _ _ _ _ Hrest did nsid rkey k) by done. done.
Qed.

(** ** Account removals *)

Definition remove_wf (r : DeleteAccount) : Prop := wf (del_did r) ∧ wf (del_cursor r).

(** A queue entry of one of the removals. *)
Definition queue_insert (removals : list DeleteAccount) (op : FjOp) : Prop :=
  ∃ kv r, op = FjInsert QUEUES kv.1 kv.2 ∧ queue_ok kv ∧ r ∈ removals ∧ queue_us kv = cursor_us (del_cursor r).

Lemma insert_removes_Ok removals rs batch :
  rs ⊆ removals → Forall remove_wf rs →
  ∃ ops, foldl_res insert_remove batch rs = Ok (batch ++ ops) ∧ Forall (queue_insert removals) ops.
Proof.
  intros Hsub Hrs. revert batch. induction Hrs as [|r rs [Hd Hc] Hrs IH]; intros batch.
  { exists []. by rewrite app_nil_r. }
  pose proof (conj (static_ok "delete_acount" eq_refl eq_refl) Hc :
    wf (delete_account_queue_key (del_cursor r) : DbConcat (DbStaticStr "delete_acount") Cursor)) as Hkw.
  destruct (tail_codec _ Hkw) as (k & Hk & _). destruct (prefix_codec (del_did r) Hd) as (v & Hv & _).
  cbn [foldl_res]. unfold insert_remove at 1. rewrite (proj2 (enc_Ok _ _) Hk). cbn [result_bind].
  rewrite (proj2 (enc_Ok _ _) Hv). cbn [result_bind]. destruct (IH ltac:(set_solver) (batch ++ [FjInsert QUEUES k v])) as (ops & -> & Hops).
  exists (FjInsert QUEUES k v :: ops). rewrite <- app_assoc. split; [done|]. constructor; [|done].
  exists (k, v), r. split; [done|]. split; [by exists (del_cursor r), (del_did r)|]. split; [set_solver|].
  unfold queue_us. cbn [fst]. by rewrite (dec_codec _ k Hkw Hk).
Qed.

Lemma applies_Some ops p k cur v : fj_applies ops p k cur = Some v → cur = Some v ∨ FjInsert p k v ∈ ops.
Proof.
  revert cur. induction ops as [|op ops IH]; intros cur; [by left|]. change (fj_applies (op :: ops) p k cur) with (fj_applies ops p k (fj_apply p k cur op)).
  intros [E|Hin]%IH; [|right; by right]. destruct op as [p' k' v'|p' k'|p' k']; simpl in E; case_decide as Hd; try done; auto.
  destruct Hd as [-> ->]. injection E as ->. right. by left.
Qed.

(** ** The batch *)

Definition batch_wf (b : EventBatch) : Prop :=
  Forall collection_wf (map_to_list (commits_by_nsid b)) ∧ Forall remove_wf (account_removes b).

Lemma later_bound B o c : (o < B → c < B → later o c < B)%N.
Proof. unfold later. by destruct (o <? c)%N. Qed.

Lemma latest_wf b latest : batch_wf b → latest_cursor b = Some latest → wf latest.
Proof.
  intros [Hc Hr]. unfold latest_cursor.
  set (o := fold_left _ _ 0%N). assert (Ho : (o < u64_bound)%N).
  { unfold o. assert (Hz : (0 < u64_bound)%N) by done. revert Hz. generalize 0%N.
    induction Hc as [|[n cc] l (_ & Hcs & _) Hl IH]; intros o0 Ho0; [done|]. cbn [map fold_left snd]. apply IH.
    cbn [snd] in Hcs. revert o0 Ho0. induction Hcs as [|c cs (Hcc & _) Hcs IHc]; intros o0 Ho0; [done|]. cbn [fold_left].
    apply IHc, later_bound; [done|]. exact Hcc. }
  clearbody o. set (o' := match last (account_removes b) with Some _ => _ | None => _ end).
  assert (Ho' : (o' < u64_bound)%N).
  { unfold o'. destruct (last (account_removes b)) as [r|] eqn:Hl; [|done]. apply later_bound; [done|].
    rewrite Forall_forall in Hr. apply last_Some_elem_of in Hl. by destruct (Hr r Hl). }
  destruct (0 <? o')%N; [|done]. intros [= <-]. exact Ho'.
Qed.

(** The batch that is committed. *)
Lemma insert_batch_Ok d b latest :
  batch_wf b → latest_cursor b = Some latest → is_empty b = false →
  ∃ ops new qops, insert_batch d b = Ok (fj_commit d ((ops ++ qops) ++ [FjInsert GLOBAL (static_bytes JetstreamCursorKey) (u64_to_be_bytes (cursor_us latest))])) ∧
    batch_effect latest (map_to_list (commits_by_nsid b)) ops new ∧ NoDup new.*1 ∧ Forall (queue_insert (account_removes b)) qops.
Proof.
  intros Hwf Hlat He. pose proof Hwf as [Hc Hr]. unfold insert_batch. rewrite He, Hlat.
  destruct (insert_collections_Ok latest (map_to_list (commits_by_nsid b)) [] (latest_wf b latest Hwf Hlat)
    (NoDup_fst_map_to_list _) Hc) as (ops & new & -> & Hops & Hnd). cbn [result_bind].
  destruct (insert_removes_Ok (account_removes b) (account_removes b) ([] ++ ops)) as (qops & -> & Hq); [done|done|]. cbn [result_bind app].
  rewrite (insert_batch_static_Ok JetstreamCursorKey latest (u64_to_be_bytes (cursor_us latest))) by done. cbn [result_bind].
  by exists ops, new, qops.
Qed.

Section Committed.
Context (d : Keyspace) (b : EventBatch) (latest : Cursor) (ops : list FjOp) (new : list (string * string)) (qops : list FjOp).
Context (Hwf : batch_wf b) (Hlat : latest_cursor b = Some latest).
Context (Hops : batch_effect latest (map_to_list (commits_by_nsid b)) ops new) (Hnd : NoDup new.*1).
Context (Hq : Forall (queue_insert (account_removes b)) qops).

Let js_insert := FjInsert GLOBAL (static_bytes JetstreamCursorKey) (u64_to_be_bytes (cursor_us latest)).
Let d' := fj_commit d ((ops ++ qops) ++ [js_insert]).

Lemma committed_get p k :
  fj_get d' p k = fj_apply p k (fj_applies qops p k (fj_applies ops p k (fj_get d p k))) js_insert.
Proof.
  unfold d'. rewrite fj_get_commit; [by rewrite !fj_applies_app|].
  assert (Hnw : Forall not_weak ((ops ++ qops) ++ [js_insert])).
  { rewrite !Forall_app. split_and!; [apply (be_weak _ _ _ _ Hops)| |by repeat constructor].
    eapply Forall_impl; [exact Hq|]. by intros op (kv & r & -> & _). }
  eapply Forall_impl; [exact Hnw|]. intros [] Hop; simpl in *; tauto.
Qed.

Lemma qops_untouched p k cur : p ≠ QUEUES → fj_applies qops p k cur = cur.
Proof.
  intros Hp. apply fj_applies_untouched. eapply Forall_impl; [exact Hq|]. intros op (kv & r & -> & _) [E _]. done.
Qed.
Lemma ops_untouched p k cur : p ≠ FEEDS → p ≠ RECORDS → p ≠ ROLLUPS ∨ k ∉ new.*1 → fj_applies ops p k cur = cur.
Proof.
  intros Hf Hr Hp. apply fj_applies_untouched. eapply Forall_impl; [apply (be_touch _ _ _ _ Hops)|].
  intros op Hop Ht. destruct (Hop _ _ Ht) as [?|[?|[? ?]]]; [done|done|]. by destruct Hp.
Qed.
Lemma js_untouched p k cur : p ≠ GLOBAL → fj_apply p k cur js_insert = cur.
Proof. intros Hp. apply fj_apply_untouched. intros [E _]. done. Qed.

Lemma committed_records did nsid rkey k :
  wf did → wf nsid → wf rkey → to_db_bytes (from_pair did (from_pair nsid rkey) : LocationKey) = Ok k →
  fj_get d' RECORDS k =
  match commits_by_nsid b !! nsid_str nsid with
  | Some cc => fold_left (apply_commit did rkey) (cc_commits cc) (fj_get d RECORDS k)
  | None => fj_get d RECORDS k
  end.
Proof.
  intros Hd Hn Hr Hk. rewrite committed_get, js_untouched, qops_untouched by done.
  rewrite (be_records _ _ _ _ Hops did nsid rkey k) by done.
  exact (fold_map_key (λ cc cur, fold_left (apply_commit did rkey) (cc_commits cc) cur) (nsid_str nsid) _ _).
Qed.

Lemma committed_old p k : p ≠ FEEDS → p ≠ RECORDS → p ≠ QUEUES → p ≠ GLOBAL → p ≠ ROLLUPS ∨ k ∉ new.*1 → fj_get d' p k = fj_get d p k.
Proof. intros. rewrite committed_get, js_untouched, qops_untouched, ops_untouched by done. done. Qed.

Lemma committed_global k :
  fj_get d' GLOBAL k = if decide (k = static_bytes JetstreamCursorKey) then Some (u64_to_be_bytes (cursor_us latest)) else fj_get d GLOBAL k.
Proof.
  rewrite committed_get, qops_untouched, ops_untouched by (done || by left). unfold js_insert. simpl.
  destruct (decide (k = static_bytes JetstreamCursorKey)) as [->|Hne]; [by rewrite decide_True|]. rewrite decide_False; [done|]. intros [_ <-]. done.
Qed.

Lemma committed_new kv : kv ∈ new → fj_get d' ROLLUPS kv.1 = Some kv.2.
Proof. intros Hin. rewrite committed_get, js_untouched, qops_untouched by done. by apply (be_live _ _ _ _ Hops). Qed.

Lemma committed_cursor : get_static_neu JetstreamCursorKey d' = Ok (Some latest).
Proof.
  unfold get_static_neu. rewrite static_key_Ok by done. cbn [result_bind]. rewrite committed_global, decide_True by done.
  cbn [dec_opt]. rewrite (dec_codec latest (u64_to_be_bytes (cursor_us latest))); [done| |done].
  by apply (latest_wf b).
Qed.

(** *** The live counts *)

Lemma new_in kv : kv ∈ new → ∃ e, e ∈ map_to_list (commits_by_nsid b) ∧ live_entry latest e kv ∧ collection_wf e.
Proof.
  intros [i Hi]%list_elem_of_lookup. destruct (Forall2_lookup_r _ _ _ _ _ (be_new _ _ _ _ Hops) Hi) as (e & He%list_elem_of_lookup_2 & Hkv).
  exists e. split_and!; [done|done|]. destruct Hwf as [Hc _]. rewrite Forall_forall in Hc. by apply Hc.
Qed.

Lemma new_live kv : kv ∈ new → live_ok kv ∧ starts_with live_family kv.1 = true ∧ live_us kv = cursor_us latest.
Proof.
  intros (e & He & [Hk Hv] & Hn & _ & Hcc)%new_in. pose proof (latest_wf b latest Hwf Hlat) as Hl. split_and!.
  - exists latest, (mkNsid e.1), (from_pair (cc_counts e.2) (cc_dids_estimate e.2)). split_and!; try done.
  - apply live_family_in. by apply family_of_concat2 in Hk.
  - unfold live_us. rewrite (dec_codec (live_counts_key latest (mkNsid e.1) : LiveKey) kv.1); [done|split; [split; [done|exact Hl]|exact Hn]|exact Hk].
Qed.

(** What the batch adds to a bucket of a collection. *)
Definition inserted (n : string) (r : Rollup) : CommitCounts :=
  match commits_by_nsid b !! n with
  | Some cc => if decide (in_bucket r latest) then cc_counts cc else zero_counts
  | None => zero_counts
  end.

Lemma new_sum n r : live_sum n r new = inserted n r.
Proof.
  unfold inserted.
  pose (f := λ (cc : CollectionCommits) cur, add_counts cur (if decide (in_bucket r latest) then cc_counts cc else zero_counts)).
  transitivity (fold_left (λ cur e, if decide (e.1 = n) then f e.2 cur else cur) (map_to_list (commits_by_nsid b)) zero_counts).
  2: { rewrite (fold_map_key f). destruct (commits_by_nsid b !! n); [|done]. apply add_counts_0_l. }
  pose proof (be_new _ _ _ _ Hops) as HF. destruct Hwf as [Hc _]. pose proof (latest_wf b latest Hwf Hlat) as Hl.
  rewrite <- (add_counts_0_l (live_sum n r new)). generalize zero_counts at 1 2. clear Hops Hnd Hq.
  induction HF as [|e kv L new' [Hk Hv] HF IH]; intros cur; [apply add_counts_0_r|]. apply Forall_cons in Hc as [(Hn & _ & Hcc) Hc].
  rewrite live_sum_cons, add_counts_assoc. cbn [fold_left]. rewrite IH by done. f_equal.
  rewrite (live_at_ok latest (mkNsid e.1) (from_pair (cc_counts e.2) (cc_dids_estimate e.2)) kv n r); try done. cbn [nsid_str counts prefix].
  destruct (decide (e.1 = n)), (decide (in_bucket r latest)).
  - by rewrite decide_True.
  - by rewrite decide_False by tauto.
  - rewrite decide_False by tauto. apply add_counts_0_r.
  - rewrite decide_False by tauto. apply add_counts_0_r.
Qed.
End Committed.

Lemma latest_not_empty b latest : latest_cursor b = Some latest → is_empty b = false.
Proof.
  intros Hlat. destruct (is_empty b) eqn:He; [|done]. unfold is_empty in He. apply andb_true_iff in He as [Hc Hr].
  apply bool_decide_eq_true in Hc, Hr. apply length_zero_iff_nil in Hr. unfold latest_cursor in Hlat.
  by rewrite Hc, Hr, map_to_list_empty in Hlat.
Qed.

(** C39. Inserting a batch succeeds, and the record of every account under every
    key is what the commits of its collection, taken in the order of the
    batch, make of the record stored before: the last commit for the key
    decides, a delete leaves nothing, and no other record changes.  The stored
    stream cursor becomes the latest of the batch. *)
Theorem insert_batch_records (d : Keyspace) (b : EventBatch) (latest : Cursor) :
  batch_wf b → latest_cursor b = Some latest →
  ∃ d', insert_batch d b = Ok d' ∧ get_static_neu JetstreamCursorKey d' = Ok (Some latest) ∧
    ∀ (did : Did) (nsid : Nsid) (rkey : RecordKey) k, wf did → wf nsid → wf rkey →
      to_db_bytes (from_pair did (from_pair nsid rkey) : LocationKey) = Ok k →
      fj_get d' RECORDS k =
        match commits_by_nsid b !! nsid_str nsid with
        | Some cc => fold_left (apply_commit did rkey) (cc_commits cc) (fj_get d RECORDS k)
        | None => fj_get d RECORDS k
        end.
Proof.
  intros Hwf Hlat. destruct (insert_batch_Ok d b latest Hwf Hlat (latest_not_empty b latest Hlat)) as (ops & new & qops & Hr & Hops & Hnd & Hq).
  eexists. split; [exact Hr|]. split; [by apply (committed_cursor d b latest ops new qops)|].
  intros. by apply (committed_records d b latest ops new qops).
Qed.

(** Every entry of the queue after the commit is old or of the batch. *)
Lemma committed_queue d b latest ops new qops kv :
  batch_effect latest (map_to_list (commits_by_nsid b)) ops new → Forall (queue_insert (account_removes b)) qops →
  kv ∈ queue_list (fj_commit d ((ops ++ qops) ++ [FjInsert GLOBAL (static_bytes JetstreamCursorKey) (u64_to_be_bytes (cursor_us latest))])) →
  kv ∈ queue_list d ∨ queue_ok kv ∧ ∃ r, r ∈ account_removes b ∧ queue_us kv = cursor_us (del_cursor r).
Proof.
  intros Hops Hq Hin. destruct kv as [k v]. apply fj_prefix_spec in Hin as [Hg Hs].
  rewrite (committed_get d b latest ops new qops Hops Hq) in Hg. rewrite js_untouched in Hg by done.
  rewrite (ops_untouched b latest ops new Hops QUEUES k) in Hg by (done || by left).
  apply applies_Some in Hg as [Hold|Hnew]; [left; by apply fj_prefix_spec|right].
  rewrite Forall_forall in Hq. destruct (Hq _ Hnew) as ([k' v'] & r & [= -> ->] & Hok & Hin & Hus). eauto.
Qed.

Section Counted.
Context (d : Keyspace) (b : EventBatch) (latest : Cursor) (ops : list FjOp) (new : list (string * string)) (qops : list FjOp).
Context (Hwf : batch_wf b) (Hlat : latest_cursor b = Some latest).
Context (Hops : batch_effect latest (map_to_list (commits_by_nsid b)) ops new) (Hnd : NoDup new.*1).
Context (Hq : Forall (queue_insert (account_removes b)) qops).
Context (Hfresh : ∀ (nsid : Nsid) k, is_Some (commits_by_nsid b !! nsid_str nsid) →
  to_db_bytes (live_counts_key latest nsid : LiveKey) = Ok k → fj_get d ROLLUPS k = None).

Let d' := fj_commit d ((ops ++ qops) ++ [FjInsert GLOBAL (static_bytes JetstreamCursorKey) (u64_to_be_bytes (cursor_us latest))]).

Lemma counted_rollups k : k ∉ new.*1 → fj_get d' ROLLUPS k = fj_get d ROLLUPS k.
Proof. intros. apply (committed_old d b latest ops new qops); try done. by right. Qed.

Lemma counted_live : live_list d' ≡ₚ new ++ live_list d.
Proof.
  apply prefix_inserted; [done| |by intros; apply counted_rollups]. intros kv Hin.
  split_and!; [by apply (new_live b latest ops new Hwf Hlat Hops)| |by apply (committed_new d b latest ops new qops)].
  destruct (new_in b latest ops new Hwf Hops kv Hin) as ([n cc] & He & [Hk _] & _). apply (Hfresh (mkNsid n)); [|exact Hk].
  exists cc. by apply elem_of_map_to_list.
Qed.

Lemma counted_bucket (n : Nsid) r k : wf n → rollup_wf r → rollup_key r n = Ok k → fj_get d' ROLLUPS k = fj_get d ROLLUPS k.
Proof.
  intros Hn Hr Hk. apply counted_rollups. intros (kv & -> & Hin)%list_elem_of_fmap.
  destruct (rollup_key_family r n kv.1 Hr Hn Hk) as [_ Hnl].
  by apply Hnl, live_family_in, (new_live b latest ops new Hwf Hlat Hops).
Qed.

Lemma counted_total (n : Nsid) r :
  wf n → rollup_wf r → total d' (nsid_str n) r = add_counts (inserted b latest (nsid_str n) r) (total d (nsid_str n) r).
Proof.
  intros Hn Hr. unfold total, live_total. pose proof counted_live as Hlive. unfold live_list in Hlive.
  rewrite Hlive, live_sum_app, (new_sum b latest ops new) by done.
  assert (rolled_up d' (nsid_str n) r = rolled_up d (nsid_str n) r) as ->.
  { unfold rolled_up. destruct n as [n]. cbn [nsid_str]. destruct (rollup_key r (mkNsid n)) as [k|] eqn:Hk; [|done].
    by rewrite (counted_bucket (mkNsid n) r k). }
  rewrite !add_counts_assoc. f_equal. apply add_counts_comm.
Qed.

Lemma counted_cursor : get_static_neu NewRollupCursorKey d' = get_static_neu NewRollupCursorKey d (V := Cursor).
Proof.
  unfold get_static_neu. rewrite static_key_Ok by done. cbn [result_bind]. f_equal. unfold d'.
  rewrite (committed_global d b latest ops new qops Hops Hq). by rewrite decide_False.
Qed.
End Counted.

Lemma insert_batch_good (d : Keyspace) (b : EventBatch) (latest : Cursor) :
  rollup_inv d → batch_wf b → latest_cursor b = Some latest →
  (∀ (nsid : Nsid) k, is_Some (commits_by_nsid b !! nsid_str nsid) →
     to_db_bytes (live_counts_key latest nsid : LiveKey) = Ok k → fj_get d ROLLUPS k = None) →
  (∀ (nsid : Nsid) r, wf nsid → rollup_wf r →
     wf (add_counts (inserted b latest (nsid_str nsid) r) (total d (nsid_str nsid) r))) →
  ∃ d', insert_batch d b = Ok d' ∧ rollup_inv d' ∧
    (∀ (nsid : Nsid) r, wf nsid → rollup_wf r →
       total d' (nsid_str nsid) r = add_counts (inserted b latest (nsid_str nsid) r) (total d (nsid_str nsid) r)) ∧
    (rollup_low d →
     (∀ c, cursor_is d c → (cursor_us c ≤ cursor_us latest)%N ∧
        Forall (λ r, (cursor_us c ≤ cursor_us (del_cursor r))%N) (account_removes b)) → rollup_low d') ∧
    (∀ B, within B d → (cursor_us latest ≤ B)%N → (∀ r, r ∈ account_removes b → cursor_us (del_cursor r) ≤ B)%N → within B d').
Proof.
  intros Hinv Hwf Hlat Hfresh Hfits.
  destruct (insert_batch_Ok d b latest Hwf Hlat (latest_not_empty b latest Hlat)) as (ops & new & qops & Hr & Hops & Hnd & Hq).
  eexists. split; [exact Hr|]. set (d' := fj_commit d _).
  assert (Hnew : ∀ kv, kv ∈ new → live_ok kv ∧ starts_with live_family kv.1 = true ∧ live_us kv = cursor_us latest)
    by (intros; by apply (new_live b latest ops new)).
  pose proof (counted_live d b latest ops new qops Hwf Hlat Hops Hnd Hq Hfresh) as Hlive. fold d' in Hlive.
  pose proof (counted_cursor d b latest ops new qops Hops Hq) as Hcur. fold d' in Hcur.
  assert (Htot : ∀ (n : Nsid) r, wf n → rollup_wf r →
    total d' (nsid_str n) r = add_counts (inserted b latest (nsid_str n) r) (total d (nsid_str n) r))
    by (intros; by apply (counted_total d b latest ops new qops)).
  assert (Hqs : ∀ kv, kv ∈ queue_list d' → kv ∈ queue_list d ∨ queue_ok kv ∧ ∃ r, r ∈ account_removes b ∧ queue_us kv = cursor_us (del_cursor r))
    by (intros kv; by apply (committed_queue d b latest ops new qops)).
  split_and!; [constructor|exact Htot| |].
  - rewrite Hcur. apply (ri_cursor d Hinv).
  - unfold live_list in Hlive. rewrite Hlive. apply Forall_app. split; [|apply (ri_live d Hinv)]. apply Forall_forall. intros. by apply Hnew.
  - apply Forall_forall. intros kv [Hold|[Hok _]]%Hqs; [|done]. pose proof (ri_queue d Hinv) as Hqi. rewrite Forall_forall in Hqi. by apply Hqi.
  - intros n r k v Hn Hr' Hk. intros Hg.
    apply (ri_rolled d Hinv n r k v Hn Hr' Hk). by rewrite <- (counted_bucket d b latest ops new qops Hwf Hlat Hops Hq n r k).
  - intros k v [r Hf] Hg. apply (ri_keys d Hinv k v); [by exists r|]. rewrite <- Hg. symmetry. apply (counted_rollups d b latest ops new qops Hops Hq).
    intros (kv & -> & Hin)%list_elem_of_fmap. destruct (Hnew kv Hin) as (_ & Hl & _). apply live_family_in in Hl.
    destruct (rollup_lit_ok r) as (Hnul & _ & Hne). apply Hne. by apply (in_family_unique _ _ kv.1).
  - intros n r Hn Hr'. rewrite Htot by done. by apply Hfits.
  - intros (c & Hc & Hl & Hqd) Hb. destruct (Hb c Hc) as [Hcl Hcr]. exists c. split_and!; [unfold cursor_is; by rewrite Hcur| |].
    + rewrite Hlive. apply Forall_app. split; [|done]. apply Forall_forall. intros kv Hkv. destruct (Hnew kv Hkv) as (_ & _ & ->). done.
    + rewrite Forall_forall in Hqd. rewrite Forall_forall in Hcr. apply Forall_forall. intros kv [Hold|[_ (r & Hin & ->)]]%Hqs; [by apply Hqd|by apply Hcr].
  - intros B HB Hlb Hrb. constructor.
    + intros c. unfold cursor_is. rewrite Hcur. apply (wi_cursor B d HB).
    + intros kv. rewrite Hlive. intros [Hkv|Hkv]%elem_of_app; [|by apply (wi_live B d HB)]. by destruct (Hnew kv Hkv) as (_ & _ & ->).
    + intros kv [Hold|[_ (r & Hin & ->)]]%Hqs; [by apply (wi_queue B d HB)|by apply Hrb].
Qed.

(** Inserting a batch keeps the store well formed for the background task,
    and the total of every collection and bucket grows by exactly what the
    batch counted for it, in the buckets its latest cursor falls into; given
    that no live entry of the same cursor and collection is still pending and
    that the totals stay below 64 bits.  A batch at or after the rollup cursor
    leaves nothing pending before it. *)
Theorem insert_batch_counts (d : Keyspace) (b : EventBatch) (latest : Cursor) :
  rollup_inv d → batch_wf b → latest_cursor b = Some latest →
  (∀ (nsid : Nsid) k, is_Some (commits_by_nsid b !! nsid_str nsid) →
     to_db_bytes (live_counts_key latest nsid : LiveKey) = Ok k → fj_get d ROLLUPS k = None) →
  (∀ (nsid : Nsid) r, wf nsid → rollup_wf r →
     wf (add_counts (inserted b latest (nsid_str nsid) r) (total d (nsid_str nsid) r))) →
  ∃ d', insert_batch d b = Ok d' ∧ rollup_inv d' ∧
    (∀ (nsid : Nsid) r, wf nsid → rollup_wf r →
       total d' (nsid_str nsid) r = add_counts (inserted b latest (nsid_str nsid) r) (total d (nsid_str nsid) r)) ∧
    (rollup_low d →
     (∀ c, cursor_is d c → (cursor_us c ≤ cursor_us latest)%N ∧
        Forall (λ r, (cursor_us c ≤ cursor_us (del_cursor r))%N) (account_removes b)) → rollup_low d').
Proof.
  intros Hinv Hwf Hlat Hfresh Hfits.
  destruct (insert_batch_good d b latest Hinv Hwf Hlat Hfresh Hfits) as (d' & ? & ? & ? & ? & _). by exists d'.
Qed.

End Insert.
End Insert.
