(* ===== verification/UfosInit.v ===== *)
(** * ufos: starting the storage

    [init] on a new store and on a restart. *)

From Stdlib Require Import Sorted.
From S2P Require Import Prelude RustStr Bytes UfosCursor UfosDbTypes.
From S2P Require Import UfosStoreTypes UfosBatch UfosFjallApi UfosStorage UfosRollup.
From S2P Require Import UfosBackground UfosInsert.
Import Db Store Batch FjallStore Background Insert.

Module Init.
Section Init.
Context `{FL : FjallLaws} `{LL : LsmTreeLaws} `{AL : AtriumLaws} `{BL : BincodeStrLaws}.
Context `{SketchOps, Bincode2 CommitCounts, Bincode2 RecordLocationMeta, Bincode2 Sketch, Bincode2 SketchSecretPrefix}.
Context `{!Bincode2Laws CommitCounts, !Bincode2Laws RecordLocationMeta, !Bincode2Laws Sketch}.

(** A secret is sixteen bytes. *)
#[global] Instance secret_wf : WellFormed SketchSecretPrefix := λ s, String.length (secret_bytes s) = 16.
Context `{!Bincode2Laws SketchSecretPrefix}.
#[global] Instance secret_prefix_codec : PrefixCodec SketchSecretPrefix.
Proof. intros x Hx. by apply bincode_codec. Qed.

Definition fresh (d : Keyspace) : Prop := ∀ p k, fj_get d p k = None.

(** The fixed keys of the global partition. *)
Lemma static_get K K' d v :
  fj_get (fj_commit d [FjInsert GLOBAL (static_bytes K) v]) GLOBAL (static_bytes K') =
  if decide (K = K') then Some v else fj_get d GLOBAL (static_bytes K').
Proof.
  rewrite fj_get_commit by auto with microcosm. unfold fj_applies. simpl.
  destruct (decide (K = K')) as [->|Hne]; [by rewrite decide_True|]. rewrite decide_False; [done|].
  intros [_ E]. apply Hne. unfold static_bytes in E. clear Hne. revert K' E. induction K as [|c K IH]; intros [|c' K'] E; simpl in E; try done.
  - rewrite str_app_nil_l, str_app_cons in E. injection E as _ E. by destruct K'.
  - rewrite str_app_cons, str_app_nil_l in E. injection E as _ E. by destruct K.
  - rewrite !str_app_cons in E. injection E as -> E. f_equal. by apply IH.
Qed.

Lemma static_other K d v p k : p ≠ GLOBAL → fj_get (fj_commit d [FjInsert GLOBAL (static_bytes K) v]) p k = fj_get d p k.
Proof.
  intros Hp. rewrite fj_get_commit by auto with microcosm. unfold fj_applies. simpl.
  rewrite decide_False; [done|]. by intros [E _].
Qed.

Lemma init_static_Ok K d {V} `{DbBytes V} (x : V) v :
  str_contains NUL K = false → fj_get d GLOBAL (static_bytes K) = None → to_db_bytes x = Ok v →
  init_static_neu K d x = Ok (fj_commit d [FjInsert GLOBAL (static_bytes K) v]).
Proof.
  intros HK Hno Hv. unfold init_static_neu. rewrite static_key_Ok by done. cbn [result_bind]. rewrite Hno.
  by rewrite (proj2 (enc_Ok _ _) Hv).
Qed.

(** What the store of a first start holds. *)
Record started (d : Keyspace) (ep : string) (secret : SketchSecretPrefix) : Prop := {
  st_js : fj_get d GLOBAL (static_bytes JetstreamCursorKey) = None;
  st_endpoint : fj_get d GLOBAL (static_bytes JetstreamEndpointKey) = Some ep;
  st_secret : get_static_neu SketchSecretKey d = Ok (Some secret);
  st_rollup : cursor_is d (mkCursor 0);
  st_other p k : p ≠ GLOBAL → fj_get d p k = None
}.

Lemma init_first d ep force secret now :
  fresh d → wf secret → wf now → ∃ d', init d ep force (Some secret) now = Ok (d', None, secret) ∧ started d' ep secret.
Proof.
  intros Hf Hs Hnow. destruct (prefix_codec secret Hs) as (sb & Hsb & _).
  assert (Hst : ∀ K d0, str_contains NUL K = false → fj_get d0 GLOBAL (static_bytes K) = None →
    get_static_neu (V := Cursor) K d0 = Ok None).
  { intros K d0 HK Hno. unfold get_static_neu. rewrite static_key_Ok by done. cbn [result_bind]. by rewrite Hno. }
  unfold init. rewrite Hst by done. cbn [result_bind].
  rewrite (init_static_Ok JetstreamEndpointKey d (mkEndpoint ep) ep) by (done || by apply Hf). cbn [result_bind].
  set (d1 := fj_commit d _).
  rewrite (init_static_Ok SketchSecretKey d1 secret sb); [|done|unfold d1; by rewrite static_get, decide_False by done|done]. cbn [result_bind].
  set (d2 := fj_commit d1 _).
  rewrite (init_static_Ok TakeoffKey d2 now (u64_to_be_bytes (cursor_us now)));
    [|done|unfold d2, d1; rewrite !static_get, !decide_False by done; by apply Hf|done]. cbn [result_bind].
  set (d3 := fj_commit d2 _).
  rewrite (init_static_Ok NewRollupCursorKey d3 (mkCursor 0) (u64_to_be_bytes 0));
    [|done|unfold d3, d2, d1; rewrite !static_get, !decide_False by done; by apply Hf|done]. cbn [result_bind].
  eexists. split; [done|]. unfold d3, d2, d1. constructor.
  - rewrite !static_get, !decide_False by done. apply Hf.
  - rewrite !static_get, !(decide_False (P := _ = JetstreamEndpointKey)) by done. done.
  - unfold get_static_neu. rewrite static_key_Ok by done. cbn [result_bind].
    rewrite !static_get, !(decide_False (P := _ = SketchSecretKey)) by done.
    rewrite decide_True by done. cbn [dec_opt]. by rewrite (dec_codec secret sb Hs Hsb).
  - unfold cursor_is, get_static_neu. rewrite static_key_Ok by done. cbn [result_bind]. rewrite static_get, decide_True by done. done.
  - intros p k Hp. rewrite !static_other by done. apply Hf.
Qed.

Lemma empty_prefix d p pre : (∀ k, fj_get d p k = None) → fj_prefix d p pre = [].
Proof.
  intros Hno. destruct (fj_prefix d p pre) as [|[k v] l] eqn:E; [done|].
  assert (Hin : (k, v) ∈ fj_prefix d p pre) by (rewrite E; by left). apply fj_prefix_spec in Hin as [Hg _]. by rewrite Hno in Hg.
Qed.

Lemma started_inv d ep secret : started d ep secret → rollup_inv d ∧ rollup_low d.
Proof.
  intros Hst. assert (Hl : live_list d = []) by (apply empty_prefix; intros; by apply (st_other _ _ _ Hst)).
  assert (Hq : queue_list d = []) by (apply empty_prefix; intros; by apply (st_other _ _ _ Hst)).
  split.
  - constructor.
    + exists (mkCursor 0). split; [done|]. apply (st_rollup _ _ _ Hst).
    + unfold live_list in Hl. by rewrite Hl.
    + unfold queue_list in Hq. by rewrite Hq.
    + intros n r k v _ _ _. by rewrite (st_other _ _ _ Hst).
    + intros k v _. by rewrite (st_other _ _ _ Hst).
    + intros n r _ _. unfold total, live_total. unfold live_list in Hl. rewrite Hl, add_counts_0_r. unfold rolled_up.
      destruct (rollup_key r _); [|done]. by rewrite (st_other _ _ _ Hst).
  - exists (mkCursor 0). split; [apply (st_rollup _ _ _ Hst)|]. by rewrite Hl, Hq.
Qed.

Lemma started_total d ep secret n r : started d ep secret → total d n r = zero_counts.
Proof.
  intros Hst. unfold total, live_total. rewrite empty_prefix by (intros; by apply (st_other _ _ _ Hst)).
  rewrite add_counts_0_r. unfold rolled_up. destruct (rollup_key r _); [|done]. by rewrite (st_other _ _ _ Hst).
Qed.

(** A batch keeps the endpoint and the secret. *)
Lemma insert_batch_global d b latest :
  batch_wf b → latest_cursor b = Some latest →
  ∃ d', insert_batch d b = Ok d' ∧ get_static_neu JetstreamCursorKey d' = Ok (Some latest) ∧
    ∀ K, K ≠ JetstreamCursorKey → str_contains NUL K = false → fj_get d' GLOBAL (static_bytes K) = fj_get d GLOBAL (static_bytes K).
Proof.
  intros Hwf Hlat. destruct (insert_batch_Ok d b latest Hwf Hlat (latest_not_empty b latest Hlat)) as (ops & new & qops & Hr & Hops & Hnd & Hq).
  eexists. split; [exact Hr|]. split; [by apply (committed_cursor d b latest ops new qops)|].
  intros K HK Hnul. rewrite (committed_global d b latest ops new qops) by done. rewrite decide_False; [done|].
  intros E. apply HK. apply (in_family_unique _ _ (static_bytes K) Hnul); [done|exists ""; by rewrite str_app_nil_r|].
  exists "". by rewrite str_app_nil_r.
Qed.

(** A first start on an empty store succeeds and leaves a store that is
    well formed for the background task, with nothing pending.  Once a batch is
    inserted, a restart on the same endpoint gives back the cursor of that
    batch and the secret of the first start, and changes nothing. *)
Theorem init_then_restart (d : Keyspace) (ep : string) (force : bool) (secret : SketchSecretPrefix) (now : Cursor) :
  fresh d → valid_utf8 ep = true → wf secret → wf now →
  ∃ d', init d ep force (Some secret) now = Ok (d', None, secret) ∧ rollup_inv d' ∧ rollup_low d' ∧
    ∀ b latest, batch_wf b → latest_cursor b = Some latest →
      ∃ d'', insert_batch d' b = Ok d'' ∧
        ∀ force' random' now', init d'' ep force' random' now' = Ok (d'', Some latest, secret).
Proof.
  intros Hf Hep Hs Hnow. destruct (init_first d ep force secret now Hf Hs Hnow) as (d' & Hi & Hst).
  destruct (started_inv d' ep secret Hst) as [Hinv Hlow]. exists d'. split_and!; [done|done|done|].
  intros b latest Hwf Hlat. destruct (insert_batch_global d' b latest Hwf Hlat) as (d'' & Hr & Hcur & Hold).
  exists d''. split; [done|]. intros. unfold init. rewrite Hcur. cbn [result_bind].
  assert (get_static_neu JetstreamEndpointKey (V := JetstreamEndpointValue) d'' = Ok (Some (mkEndpoint ep))) as ->.
  { unfold get_static_neu. rewrite static_key_Ok by done. cbn [result_bind]. rewrite Hold, (st_endpoint _ _ _ Hst) by done.
    cbn [dec_opt]. unfold dec, db_complete. cbn [from_db_bytes endpoint_db_bytes]. rewrite Hep. cbn [result_bind lift_encoding].
    by rewrite decide_False by lia. }
  cbn [result_bind].
  assert (get_static_neu SketchSecretKey (V := SketchSecretPrefix) d'' = Ok (Some secret)) as ->.
  { rewrite <- (st_secret _ _ _ Hst). unfold get_static_neu. rewrite static_key_Ok by done. cbn [result_bind]. by rewrite Hold. }
  cbn [result_bind]. by rewrite decide_True.
Qed.

(** A restart before the first batch refuses to start: without a stream
    cursor the store counts as new, and the endpoint the first start wrote is
    in the way. *)
Theorem init_twice_refused (d : Keyspace) (ep ep' : string) (force force' : bool) (secret : SketchSecretPrefix)
    (random' : option SketchSecretPrefix) (now now' : Cursor) :
  fresh d → wf secret → wf now →
  ∃ d' msg, init d ep force (Some secret) now = Ok (d', None, secret) ∧
    init d' ep' force' random' now' = Err (InitError msg).
Proof.
  intros Hf Hs Hnow. destruct (init_first d ep force secret now Hf Hs Hnow) as (d' & Hi & Hst). exists d'. eexists. split; [done|].
  unfold init. assert (get_static_neu (V := Cursor) JetstreamCursorKey d' = Ok None) as ->.
  { unfold get_static_neu. rewrite static_key_Ok by done. cbn [result_bind]. by rewrite (st_js _ _ _ Hst). }
  cbn [result_bind]. unfold init_static_neu at 1. rewrite static_key_Ok by done. cbn [result_bind].
  by rewrite (st_endpoint _ _ _ Hst).
Qed.

End Init.
End Init.
