(* ===== verification/UfosTrim.v ===== *)
(** * ufos: trimming a collection

    [trim_collection] walks the feed of a collection from the newest entry
    down: it drops the entries whose record is gone or was replaced, keeps the
    newest live ones up to the limit and drops the others with their records. *)

From Stdlib Require Import Sorted.
From S2P Require Import Prelude RustStr Bytes UfosCursor UfosDbTypes.
From S2P Require Import UfosStoreTypes UfosBatch UfosFjallApi UfosStorage UfosRollup.
Import Db Store Batch FjallStore.

Module Trim.
Section Trim.
Context `{FL : FjallLaws} `{LL : LsmTreeLaws} `{AL : AtriumLaws} `{BL : BincodeStrLaws}.
Context `{SketchOps, Bincode2 CommitCounts, Bincode2 RecordLocationMeta, Bincode2 Sketch, Bincode2 SketchSecretPrefix}.
Context `{!Bincode2Laws CommitCounts, !Bincode2Laws RecordLocationMeta, !Bincode2Laws Sketch}.

Abbreviation FeedKey := (DbConcat Nsid Cursor).
Abbreviation FeedVal := (DbConcat Did (DbConcat RecordKey string)).
Abbreviation LocationKey := (DbConcat Did (DbConcat Nsid RecordKey)).

(** The location key a feed entry points to. *)
Definition location_of (kv : string * string) : StorageResult string :=
  fk ←? dec (T := FeedKey) kv.1;
  fv ←? dec (T := FeedVal) kv.2;
  enc (location_key_from_feed fk fv : LocationKey).

(** Whether the record an entry points to is the version it announced. *)
Definition is_live (d : Keyspace) (kv : string * string) : bool :=
  match dec (T := FeedKey) kv.1, dec (T := FeedVal) kv.2, location_of kv with
  | Ok fk, Ok fv, Ok lk =>
      match fj_get d RECORDS lk with
      | Some v =>
          match from_db_bytes (T := RecordLocationMeta) v with
          | Ok (meta, _) => bool_decide (mkCursor (meta_cursor meta) = nrf_cursor fk ∧ meta_rev meta = nrf_rev fv)
          | Err _ => false
          end
      | None => false
      end
  | _, _, _ => false
  end.

(** The location of the record an entry announced: the record is there and has
    the cursor of the entry, whatever its revision. *)
Definition announced (d : Keyspace) (kv : string * string) : option string :=
  match dec (T := FeedKey) kv.1, location_of kv with
  | Ok fk, Ok lk =>
      match fj_get d RECORDS lk with
      | Some v =>
          match from_db_bytes (T := RecordLocationMeta) v with
          | Ok (meta, _) => if decide (mkCursor (meta_cursor meta) = nrf_cursor fk) then Some lk else None
          | Err _ => None
          end
      | None => None
      end
  | _, _ => None
  end.

(** The cursor of an entry. *)
Definition entry_cursor (kv : string * string) : option Cursor :=
  match dec (T := FeedKey) kv.1 with Ok fk => Some (nrf_cursor fk) | Err _ => None end.

(** Entries of the feed of a collection, and records, as they are written. *)
Definition feed_ok (collection : Nsid) (kv : string * string) : Prop :=
  ∃ (c : Cursor) (did : Did) (rkey : RecordKey) (rev : string), wf c ∧ wf did ∧ wf rkey ∧ wf rev ∧
    to_db_bytes (from_pair collection c : FeedKey) = Ok kv.1 ∧
    to_db_bytes (feed_val_from did rkey rev : FeedVal) = Ok kv.2.
Definition records_ok (d : Keyspace) : Prop :=
  ∀ k v, fj_get d RECORDS k = Some v → ∃ meta n, from_db_bytes (T := RecordLocationMeta) v = Ok (meta, n).

Lemma feed_decodes collection kv :
  wf collection → feed_ok collection kv →
  ∃ c fv lk, dec (T := FeedKey) kv.1 = Ok (from_pair collection c) ∧ dec (T := FeedVal) kv.2 = Ok fv ∧
    enc (location_key_from_feed (from_pair collection c) fv : LocationKey) = Ok lk ∧ location_of kv = Ok lk ∧
    to_db_bytes (from_pair collection c : FeedKey) = Ok kv.1.
Proof.
  intros Hcol (c & did & rkey & rev & Hc & Hd & Hr & Hrev & Hk & Hv).
  pose proof (dec_codec (from_pair collection c : FeedKey) kv.1 (conj Hcol Hc) Hk) as Hdk.
  pose proof (dec_codec (feed_val_from did rkey rev : FeedVal) kv.2 (conj Hd (conj Hr Hrev)) Hv) as Hdv.
  destruct (tail_codec (from_pair did (from_pair collection rkey)) (conj Hd (conj Hcol Hr))) as (lk & Hlk & _).
  assert (Hl : enc (location_key_from_feed (from_pair collection c) (feed_val_from did rkey rev) : LocationKey) = Ok lk) by (by apply enc_Ok).
  exists c, (feed_val_from did rkey rev), lk. split_and!; try done. unfold location_of. rewrite Hdk, Hdv. exact Hl.
Qed.

Lemma is_live_eq collection d kv c fv lk :
  dec (T := FeedKey) kv.1 = Ok (from_pair collection c) → dec (T := FeedVal) kv.2 = Ok fv → location_of kv = Ok lk →
  is_live d kv =
  match fj_get d RECORDS lk with
  | Some v =>
      match from_db_bytes (T := RecordLocationMeta) v with
      | Ok (meta, _) => bool_decide (mkCursor (meta_cursor meta) = c ∧ meta_rev meta = nrf_rev fv)
      | Err _ => false
      end
  | None => false
  end.
Proof. intros Hk Hv Hl. unfold is_live. rewrite Hk, Hv, Hl. done. Qed.

Lemma announced_eq collection d kv c lk :
  dec (T := FeedKey) kv.1 = Ok (from_pair collection c) → location_of kv = Ok lk →
  announced d kv =
  match fj_get d RECORDS lk with
  | Some v =>
      match from_db_bytes (T := RecordLocationMeta) v with
      | Ok (meta, _) => if decide (mkCursor (meta_cursor meta) = c) then Some lk else None
      | Err _ => None
      end
  | None => None
  end.
Proof. intros Hk Hl. unfold announced. rewrite Hk, Hl. done. Qed.

Lemma remove_get d p k q k' : fj_get (remove d p k) q k' = if decide (p = q ∧ k = k') then None else fj_get d q k'.
Proof. unfold remove. rewrite fj_get_commit by auto with microcosm. done. Qed.

(** One entry: kept, or dropped from the feed, with its record only if the
    record is the version of that cursor. *)
Inductive trimmed (limit : nat) (st : TrimLoop) (kv : string * string) : TrimLoop → Prop :=
  | trim_dangling d' :
      is_live (tl_db st) kv = false →
      ((announced (tl_db st) kv = None ∧ d' = remove (tl_db st) FEEDS kv.1) ∨
       ∃ lk v meta n c fv, announced (tl_db st) kv = Some lk ∧ location_of kv = Ok lk ∧ fj_get (tl_db st) RECORDS lk = Some v ∧
         from_db_bytes (T := RecordLocationMeta) v = Ok (meta, n) ∧
         dec (T := FeedKey) kv.1 = Ok fv ∧ nrf_cursor fv = c ∧ mkCursor (meta_cursor meta) = c ∧
         d' = remove (remove (tl_db st) RECORDS lk) FEEDS kv.1) →
      trimmed limit st kv (dangling st d')
  | trim_kept :
      is_live (tl_db st) kv = true → S (live_records_found st) ≤ limit →
      trimmed limit st kv (mkTrim (tl_db st) (dangling_feed_keys_cleaned st) (records_deleted st)
        (S (live_records_found st)) (candidate_new_feed_lower_cursor st))
  | trim_dropped lk c :
      is_live (tl_db st) kv = true → limit < S (live_records_found st) → location_of kv = Ok lk →
      announced (tl_db st) kv = Some lk → entry_cursor kv = Some c →
      trimmed limit st kv (mkTrim (remove (remove (tl_db st) RECORDS lk) FEEDS kv.1) (dangling_feed_keys_cleaned st)
        (S (records_deleted st)) (S (live_records_found st)) (Some (default c (candidate_new_feed_lower_cursor st)))).

Lemma trim_entry_Ok collection limit st kv :
  wf collection → feed_ok collection kv → records_ok (tl_db st) →
  ∃ st', trim_entry limit st kv = Ok st' ∧ trimmed limit st kv st'.
Proof.
  intros Hcol Hok Hrec. destruct (feed_decodes collection kv Hcol Hok) as (c & fv & lk & Hk & Hv & Hl & Hloc & _).
  pose proof (is_live_eq collection (tl_db st) kv c fv lk Hk Hv Hloc) as Hlive.
  pose proof (announced_eq collection (tl_db st) kv c lk Hk Hloc) as Hann.
  assert (Hcur : entry_cursor kv = Some c) by (unfold entry_cursor; by rewrite Hk).
  unfold trim_entry. destruct kv as [kb vb]. cbn [fst snd] in *. rewrite Hk. cbn [result_bind]. rewrite Hv. cbn [result_bind].
  rewrite Hl. cbn [result_bind]. destruct (fj_get (tl_db st) RECORDS lk) as [v|] eqn:Hg.
  2: { eexists. split; [done|]. apply trim_dangling; [done|by left]. }
  destruct (Hrec lk v Hg) as (meta & n & Hm). rewrite Hm in Hlive, Hann |- *. cbn [lift_encoding result_bind].
  change (nrf_cursor (from_pair collection c)) with c. destruct (decide (mkCursor (meta_cursor meta) ≠ c)) as [Hne|Heq].
  { eexists. split; [done|]. rewrite decide_False in Hann by done. apply trim_dangling; [|by left]. rewrite Hlive. apply bool_decide_eq_false. by intros []. }
  apply dec_stable in Heq. rewrite decide_True in Hann by done. destruct (decide (meta_rev meta ≠ nrf_rev fv)) as [Hne|Heq'].
  { eexists. split; [done|]. apply trim_dangling; [rewrite Hlive; apply bool_decide_eq_false; by intros []|].
    right. exists lk, v, meta, n, c, (from_pair collection c). split_and!; done. }
  apply dec_stable in Heq'. rewrite bool_decide_true in Hlive by done.
  destruct (decide (S (live_records_found st) ≤ limit)) as [Hle|Hgt].
  - eexists. split; [done|]. by apply trim_kept.
  - eexists. split; [done|]. apply trim_dropped; [done|lia|done..].
Qed.

(** A record that is removed was the version of the entry at hand: other
    entries did not point to it as live. *)
Lemma live_stable collection d kv kv' lk v meta n c fk :
  wf collection → feed_ok collection kv → feed_ok collection kv' → kv.1 ≠ kv'.1 →
  fj_get d RECORDS lk = Some v → from_db_bytes (T := RecordLocationMeta) v = Ok (meta, n) →
  dec (T := FeedKey) kv.1 = Ok fk → nrf_cursor fk = c → mkCursor (meta_cursor meta) = c →
  is_live (remove (remove d RECORDS lk) FEEDS kv.1) kv' = is_live d kv'.
Proof.
  intros Hcol Hok Hok' Hne Hg Hm Hk Hc Hmc.
  destruct (feed_decodes collection kv Hcol Hok) as (c0 & fv0 & lk0 & Hk0 & _ & _ & _ & Hb0).
  rewrite Hk in Hk0. injection Hk0 as ->. simpl in Hc. subst c0.
  destruct (feed_decodes collection kv' Hcol Hok') as (c' & fv' & lk' & Hk' & Hv' & _ & Hl' & Hb').
  rewrite !(is_live_eq collection _ kv' c' fv' lk' Hk' Hv' Hl'). rewrite !remove_get.
  rewrite (decide_False (P := FEEDS = RECORDS ∧ kv.1 = lk')) by (by intros []).
  destruct (decide (lk = lk')) as [<-|Hl]; [|by rewrite decide_False by (by intros [])].
  rewrite decide_True by done. rewrite Hg, Hm. symmetry. apply bool_decide_eq_false. intros [E _]. apply Hne.
  rewrite E in Hmc. subst c'. rewrite Hb0 in Hb'. by injection Hb'.
Qed.

Lemma announced_stable collection d kv kv' lk v meta n c fk :
  wf collection → feed_ok collection kv → feed_ok collection kv' → kv.1 ≠ kv'.1 →
  fj_get d RECORDS lk = Some v → from_db_bytes (T := RecordLocationMeta) v = Ok (meta, n) →
  dec (T := FeedKey) kv.1 = Ok fk → nrf_cursor fk = c → mkCursor (meta_cursor meta) = c →
  announced (remove (remove d RECORDS lk) FEEDS kv.1) kv' = announced d kv'.
Proof.
  intros Hcol Hok Hok' Hne Hg Hm Hk Hc Hmc.
  destruct (feed_decodes collection kv Hcol Hok) as (c0 & fv0 & lk0 & Hk0 & _ & _ & _ & Hb0).
  rewrite Hk in Hk0. injection Hk0 as ->. simpl in Hc. subst c0.
  destruct (feed_decodes collection kv' Hcol Hok') as (c' & fv' & lk' & Hk' & Hv' & _ & Hl' & Hb').
  rewrite !(announced_eq collection _ kv' c' lk' Hk' Hl'). rewrite !remove_get.
  rewrite (decide_False (P := FEEDS = RECORDS ∧ kv.1 = lk')) by (by intros []).
  destruct (decide (lk = lk')) as [<-|Hl]; [|by rewrite decide_False by (by intros [])].
  rewrite decide_True by done. rewrite Hg, Hm. rewrite decide_False; [done|]. intros E. apply Hne.
  rewrite E in Hmc. subst c'. rewrite Hb0 in Hb'. by injection Hb'.
Qed.

Lemma announced_feeds d k kv' : announced (remove d FEEDS k) kv' = announced d kv'.
Proof.
  unfold announced. destruct (dec kv'.1); [|done]. destruct (location_of kv'); [|done].
  by rewrite remove_get, decide_False by (by intros []).
Qed.

Lemma live_feeds d k kv' : is_live (remove d FEEDS k) kv' = is_live d kv'.
Proof.
  unfold is_live. destruct (dec kv'.1); [|done]. destruct (dec kv'.2); [|done]. destruct (location_of kv'); [|done].
  by rewrite remove_get, decide_False by (by intros []).
Qed.

Definition or_else {A} (mx my : option A) : option A := match mx with Some x => Some x | None => my end.

(** How one entry changes the store. *)
Record step_effect (limit : nat) (st : TrimLoop) (kv : string * string) (st' : TrimLoop) : Prop := {
  se_keep := bool_decide (is_live (tl_db st) kv = true ∧ S (live_records_found st) ≤ limit);
  se_found : live_records_found st' = (if is_live (tl_db st) kv then S (live_records_found st) else live_records_found st);
  se_dangling : dangling_feed_keys_cleaned st' =
    (if is_live (tl_db st) kv then dangling_feed_keys_cleaned st else S (dangling_feed_keys_cleaned st));
  se_deleted : records_deleted st' = (if is_live (tl_db st) kv && negb se_keep then S (records_deleted st) else records_deleted st);
  se_feeds k : fj_get (tl_db st') FEEDS k = if decide (se_keep = false ∧ k = kv.1) then None else fj_get (tl_db st) FEEDS k;
  se_records k : fj_get (tl_db st') RECORDS k =
    if decide (se_keep = false ∧ announced (tl_db st) kv = Some k) then None else fj_get (tl_db st) RECORDS k;
  se_cursor : candidate_new_feed_lower_cursor st' =
    (if is_live (tl_db st) kv && negb se_keep then or_else (candidate_new_feed_lower_cursor st) (entry_cursor kv)
     else candidate_new_feed_lower_cursor st);
  se_other p k : p ≠ FEEDS → p ≠ RECORDS → fj_get (tl_db st') p k = fj_get (tl_db st) p k;
  se_live collection kv' : wf collection → feed_ok collection kv → feed_ok collection kv' → kv.1 ≠ kv'.1 →
    is_live (tl_db st') kv' = is_live (tl_db st) kv';
  se_announced collection kv' : wf collection → feed_ok collection kv → feed_ok collection kv' → kv.1 ≠ kv'.1 →
    announced (tl_db st') kv' = announced (tl_db st) kv';
  se_kept : se_keep = true → is_live (tl_db st') kv = true
}.

Lemma removed_records d lk k q :
  fj_get (remove (remove d RECORDS lk) FEEDS k) RECORDS q = if decide (lk = q) then None else fj_get d RECORDS q.
Proof.
  rewrite !remove_get, (decide_False (P := FEEDS = RECORDS ∧ k = q)) by (by intros []). apply if_decide_iff. naive_solver.
Qed.

(** What dropping an entry with the record it announced does. *)
Lemma drop_both_feeds d lk k q :
  fj_get (remove (remove d RECORDS lk) FEEDS k) FEEDS q = if decide (q = k) then None else fj_get d FEEDS q.
Proof.
  rewrite !remove_get, (decide_False (P := RECORDS = FEEDS ∧ lk = q)) by (by intros []). apply if_decide_iff. naive_solver.
Qed.

Lemma drop_both_other d lk k p q :
  p ≠ FEEDS → p ≠ RECORDS → fj_get (remove (remove d RECORDS lk) FEEDS k) p q = fj_get d p q.
Proof. intros Hp Hp'. by rewrite !remove_get, !decide_False by naive_solver. Qed.

(** An entry found live announced a record whose version is its own. *)
Lemma live_record collection d kv lk :
  wf collection → feed_ok collection kv → location_of kv = Ok lk → is_live d kv = true →
  ∃ c v meta n, dec (T := FeedKey) kv.1 = Ok (from_pair collection c) ∧ fj_get d RECORDS lk = Some v ∧
    from_db_bytes (T := RecordLocationMeta) v = Ok (meta, n) ∧ mkCursor (meta_cursor meta) = c.
Proof.
  intros Hcol Hok Hloc Hlive. destruct (feed_decodes collection kv Hcol Hok) as (c & fv & lk' & Hk & Hv & _ & Hl & _).
  rewrite Hloc in Hl. injection Hl as <-. rewrite (is_live_eq collection d kv c fv lk Hk Hv Hloc) in Hlive.
  destruct (fj_get d RECORDS lk) as [v|] eqn:Hg; [|done].
  destruct (from_db_bytes v) as [[meta n]|] eqn:Hm; [|done]. apply bool_decide_eq_true in Hlive as [Hmc _].
  by exists c, v, meta, n.
Qed.

Lemma dangling_effect limit st kv d' :
  is_live (tl_db st) kv = false → announced (tl_db st) kv = None → d' = remove (tl_db st) FEEDS kv.1 →
  step_effect limit st kv (dangling st d').
Proof.
  intros Hlive Hann ->. constructor; rewrite ?Hlive, ?Hann; try done; cbn [tl_db dangling].
  - intros k. rewrite bool_decide_false by (by intros []). rewrite remove_get. apply if_decide_iff. naive_solver.
  - intros k. rewrite remove_get, !decide_False; [done|by intros []|by intros []].
  - intros p k Hp Hp'. by rewrite remove_get, decide_False by naive_solver.
  - intros col kv' _ _ _ _. apply live_feeds.
  - intros col kv' _ _ _ _. apply announced_feeds.
Qed.

Lemma dropped_effect limit st kv lk v meta n fk st' :
  bool_decide (is_live (tl_db st) kv = true ∧ S (live_records_found st) ≤ limit) = false →
  announced (tl_db st) kv = Some lk → fj_get (tl_db st) RECORDS lk = Some v →
  from_db_bytes (T := RecordLocationMeta) v = Ok (meta, n) →
  dec (T := FeedKey) kv.1 = Ok fk → mkCursor (meta_cursor meta) = nrf_cursor fk →
  tl_db st' = remove (remove (tl_db st) RECORDS lk) FEEDS kv.1 →
  live_records_found st' = (if is_live (tl_db st) kv then S (live_records_found st) else live_records_found st) →
  dangling_feed_keys_cleaned st' =
    (if is_live (tl_db st) kv then dangling_feed_keys_cleaned st else S (dangling_feed_keys_cleaned st)) →
  records_deleted st' = (if is_live (tl_db st) kv then S (records_deleted st) else records_deleted st) →
  candidate_new_feed_lower_cursor st' =
    (if is_live (tl_db st) kv then or_else (candidate_new_feed_lower_cursor st) (entry_cursor kv)
     else candidate_new_feed_lower_cursor st) →
  step_effect limit st kv st'.
Proof.
  intros Hkeep Hann Hg Hm Hk Hmc Hd Hf Hda Hx Hcu. constructor; rewrite ?Hkeep, ?Hd; cbn [negb]; rewrite ?andb_true_r; try done.
  - intros k. rewrite drop_both_feeds. apply if_decide_iff. naive_solver.
  - intros k. rewrite removed_records, Hann. apply if_decide_iff. naive_solver.
  - intros p k. apply drop_both_other.
  - intros col kv' Hcol Hok Hok' Hne. by apply (live_stable col (tl_db st) kv kv' lk v meta n (nrf_cursor fk) fk).
  - intros col kv' Hcol Hok Hok' Hne. by apply (announced_stable col (tl_db st) kv kv' lk v meta n (nrf_cursor fk) fk).
Qed.

Lemma kept_effect limit st kv :
  is_live (tl_db st) kv = true → S (live_records_found st) ≤ limit →
  step_effect limit st kv (mkTrim (tl_db st) (dangling_feed_keys_cleaned st) (records_deleted st)
    (S (live_records_found st)) (candidate_new_feed_lower_cursor st)).
Proof.
  intros Hlive Hle. assert (Hk : bool_decide (is_live (tl_db st) kv = true ∧ S (live_records_found st) ≤ limit) = true) by (by rewrite bool_decide_true).
  constructor; rewrite ?Hk, ?Hlive; cbn [tl_db]; done.
Qed.

Lemma trimmed_effect limit collection st kv st' :
  wf collection → feed_ok collection kv → trimmed limit st kv st' → step_effect limit st kv st'.
Proof.
  intros Hcol Hok [d' Hlive Hd'|Hlive Hle|lk c Hlive Hgt Hloc Hann Hc]; [|by apply kept_effect|].
  - destruct Hd' as [[Hann ->]|(lk & v & meta & n & c & fk & Hann & Hl & Hg & Hm & Hk & Hc & Hmc & ->)]; [by apply dangling_effect|].
    apply (dropped_effect limit st kv lk v meta n fk); rewrite ?Hlive; try done.
    by subst c.
  - destruct (live_record collection (tl_db st) kv lk Hcol Hok Hloc Hlive) as (c' & v & meta & n & Hk & Hg & Hm & Hmc).
    apply (dropped_effect limit st kv lk v meta n (from_pair collection c')); rewrite ?Hlive; try done.
    + rewrite bool_decide_false by (intros []; lia). done.
    + cbn. rewrite Hc. by destruct (candidate_new_feed_lower_cursor st).
Qed.

Definition live_entries (d : Keyspace) (l : list (string * string)) : list (string * string) :=
  filter (λ kv, is_live d kv = true) l.

(** The records announced by the entries of [l] that are not in [kept]. *)
Definition announced_by (d : Keyspace) (kept l : list (string * string)) : list string :=
  omap (announced d) (filter (λ kv, (kv ∉ kept)) l).

Lemma elem_announced_by d kept l k : k ∈ announced_by d kept l ↔ (∃ kv, kv ∈ l ∧ (kv ∉ kept) ∧ announced d kv = Some k).
Proof.
  unfold announced_by. rewrite list_elem_of_omap. split.
  - intros (kv & [Hn Hin]%list_elem_of_filter & Ha). by exists kv.
  - intros (kv & Hin & Hn & Ha). exists kv. split; [|done]. by apply list_elem_of_filter.
Qed.

Lemma live_entries_same d d' l : (∀ kv, kv ∈ l → is_live d' kv = is_live d kv) → live_entries d' l = live_entries d l.
Proof.
  unfold live_entries. induction l as [|kv l IH]; intros Hl; [done|]. rewrite !filter_cons, (Hl kv) by (by left).
  rewrite IH by (intros; apply Hl; by right). done.
Qed.

Lemma records_ok_step limit st kv st' : step_effect limit st kv st' → records_ok (tl_db st) → records_ok (tl_db st').
Proof. intros He Hr k v Hg. rewrite (se_records _ _ _ _ He k) in Hg. case_decide; [done|by apply (Hr k)]. Qed.

(** What the loop makes of the entries [l]: of the live ones the first [n] stay. *)
Record loop_effect (limit : nat) (collection : Nsid) (l : list (string * string)) (st st' : TrimLoop) : Prop := {
  le_live := live_entries (tl_db st) l;
  le_n := limit - live_records_found st;
  le_found : live_records_found st' = live_records_found st + length le_live;
  le_dangling : dangling_feed_keys_cleaned st' + length le_live = dangling_feed_keys_cleaned st + length l;
  le_deleted : records_deleted st' = records_deleted st + (length le_live - le_n);
  le_feeds k : fj_get (tl_db st') FEEDS k =
    if decide (k ∈ l.*1 ∧ k ∉ (take le_n le_live).*1) then None else fj_get (tl_db st) FEEDS k;
  le_records k : fj_get (tl_db st') RECORDS k =
    if decide (k ∈ announced_by (tl_db st) (take le_n le_live) l) then None else fj_get (tl_db st) RECORDS k;
  le_cursor : candidate_new_feed_lower_cursor st' =
    or_else (candidate_new_feed_lower_cursor st) (head (drop le_n le_live) ≫= entry_cursor);
  le_other p k : p ≠ FEEDS → p ≠ RECORDS → fj_get (tl_db st') p k = fj_get (tl_db st) p k;
  le_outside kv : feed_ok collection kv → kv.1 ∉ l.*1 → is_live (tl_db st') kv = is_live (tl_db st) kv;
  le_kept kv : kv ∈ take le_n le_live → is_live (tl_db st') kv = true
}.

Lemma elem_take_filter d n (l : list (string * string)) (kv : string * string) :
  kv.1 ∈ (take n (live_entries d l)).*1 → kv.1 ∈ l.*1.
Proof.
  intros (kv' & -> & Hin)%list_elem_of_fmap. apply list_elem_of_fmap_2.
  apply (subseteq_take n), list_elem_of_filter in Hin. tauto.
Qed.

(** The records that go with the first entry and those that go with the others. *)
Lemma records_cons d d1 (keep : bool) kv (kept l : list (string * string)) k (v : option string) :
  kv.1 ∉ l.*1 → kv.1 ∉ kept.*1 → (∀ kv', kv' ∈ l → announced d1 kv' = announced d kv') →
  (if decide (k ∈ announced_by d1 kept l) then None
   else if decide (keep = false ∧ announced d kv = Some k) then None else v) =
  if decide (k ∈ announced_by d ((if keep then [kv] else []) ++ kept) (kv :: l)) then None else v.
Proof.
  intros Hno Hnot Hann.
  assert (Hl : ∀ kv', kv' ∈ l → kv' ≠ kv) by (intros kv' Hin ->; by apply Hno, list_elem_of_fmap_2).
  assert (Hkv : kv ∉ kept) by (intros Hin; by apply Hnot, list_elem_of_fmap_2).
  assert (Hiff : k ∈ announced_by d ((if keep then [kv] else []) ++ kept) (kv :: l) ↔
    k ∈ announced_by d1 kept l ∨ (keep = false ∧ announced d kv = Some k)).
  { rewrite !elem_announced_by. setoid_rewrite elem_of_cons. setoid_rewrite elem_of_app. split.
    - intros (kv' & [->|Hin] & Hn & Ha); [right|left; exists kv'; rewrite Hann by done; naive_solver].
      destruct keep; [|done]. destruct Hn. left. by apply list_elem_of_singleton.
    - intros [(kv' & Hin & Hn & Ha)|[-> Ha]].
      + exists kv'. rewrite <- Hann by done. split_and!; [by right| |done]. intros [Hk|Hk]; [|done].
        destruct keep; [apply list_elem_of_singleton in Hk; by apply (Hl kv')|by apply not_elem_of_nil in Hk].
      + exists kv. split_and!; [by left| |done]. intros [Hk|Hk]; [by apply not_elem_of_nil in Hk|done]. }
  repeat case_decide; tauto.
Qed.

(** The cursor kept is that of the first entry over the limit. *)
Lemma cursor_cons limit collection kv live found (cand : option Cursor) c (b : bool) :
  dec (T := FeedKey) kv.1 = Ok (from_pair collection c) →
  or_else (if b && negb (bool_decide (b = true ∧ S found ≤ limit)) then or_else cand (entry_cursor kv) else cand)
    (head (drop (limit - (if b then S found else found)) live) ≫= entry_cursor) =
  or_else cand (head (drop (limit - found) (if b then kv :: live else live)) ≫= entry_cursor).
Proof.
  intros Hk. assert (Hc : entry_cursor kv = Some c) by (unfold entry_cursor; by rewrite Hk).
  destruct b; cbn [andb]; [|done]. destruct (decide (S found ≤ limit)) as [Hle|Hgt].
  - rewrite bool_decide_true by done. by replace (limit - found) with (S (limit - S found)) by lia.
  - rewrite bool_decide_false by (intros []; lia). replace (limit - found) with 0 by lia. replace (limit - S found) with 0 by lia.
    cbn. rewrite Hc. by destruct cand.
Qed.

Lemma loop_effect_cons limit collection kv l st st1 st' :
  wf collection → feed_ok collection kv → Forall (feed_ok collection) l → kv.1 ∉ l.*1 →
  step_effect limit st kv st1 → loop_effect limit collection l st1 st' → loop_effect limit collection (kv :: l) st st'.
Proof.
  intros Hcol Hok Hall Hno Hs Hl. rewrite Forall_forall in Hall.
  assert (Hann : ∀ kv', kv' ∈ l → announced (tl_db st1) kv' = announced (tl_db st) kv').
  { intros kv' Hin. apply (se_announced _ _ _ _ Hs collection); auto. intros E. apply Hno. rewrite E. by apply list_elem_of_fmap_2. }
  assert (Hsame : live_entries (tl_db st1) l = live_entries (tl_db st) l).
  { apply live_entries_same. intros kv' Hin. apply (se_live _ _ _ _ Hs collection); auto. intros E. apply Hno. rewrite E. by apply list_elem_of_fmap_2. }
  destruct Hl as [live n Lf Ld Lx Lfe Lr Lc Lo Lout Lk], Hs as [keep Sf Sd Sx Sfe Sr Sc So Sl Sa Sk]. subst live n. rewrite Hsame in *.
  set (live := live_entries (tl_db st) l) in *.
  assert (Hlive : live_entries (tl_db st) (kv :: l) = if is_live (tl_db st) kv then kv :: live else live).
  { unfold live_entries. rewrite filter_cons. destruct (is_live (tl_db st) kv) eqn:E; [by rewrite decide_True|by rewrite decide_False]. }
  assert (Htake : take (limit - live_records_found st) (live_entries (tl_db st) (kv :: l)) =
    (if keep then [kv] else []) ++ take (limit - live_records_found st1) live).
  { rewrite Hlive, Sf. unfold keep. destruct (is_live (tl_db st) kv); [|by rewrite bool_decide_false by (by intros [])].
    destruct (decide (S (live_records_found st) ≤ limit)) as [Hle|Hgt].
    - rewrite bool_decide_true by done. by replace (limit - live_records_found st) with (S (limit - S (live_records_found st))) by lia.
    - rewrite bool_decide_false by (intros []; lia). replace (limit - live_records_found st) with 0 by lia.
      by replace (limit - S (live_records_found st)) with 0 by lia. }
  assert (Hnot : kv.1 ∉ (take (limit - live_records_found st1) live).*1) by (intros Hin; by apply Hno, (elem_take_filter (tl_db st) (limit - live_records_found st1))).
  constructor; cbv zeta.
  - rewrite Lf, Sf, Hlive. destruct (is_live (tl_db st) kv); simpl; lia.
  - rewrite Hlive. destruct (is_live (tl_db st) kv); simpl; lia.
  - rewrite Lx, Sx, Hlive, Sf. unfold keep. destruct (is_live (tl_db st) kv); cbn [andb]; [|done].
    destruct (decide (S (live_records_found st) ≤ limit)) as [Hle|Hgt].
    + rewrite bool_decide_true by done. simpl. lia.
    + rewrite bool_decide_false by (intros []; lia). simpl. lia.
  - intros k. rewrite Lfe, Sfe, Htake, fmap_app. cbn [fmap list_fmap]. destruct (decide (k = kv.1)) as [->|Hne].
    + rewrite decide_False by tauto. destruct keep; cbn [fmap list_fmap app].
      * rewrite !decide_False; [done| |by intros []]. intros [_ Hn]. apply Hn. by left.
      * rewrite !decide_True; [done| |done]. split; [by left|done].
    + rewrite (decide_False (P := keep = false ∧ k = kv.1)) by tauto. apply if_decide_iff.
      rewrite elem_of_cons, elem_of_app. destruct keep; cbn [fmap list_fmap]; rewrite ?list_elem_of_singleton, ?elem_of_nil; tauto.
  - intros k. rewrite Lr, Sr, Htake. by apply records_cons.
  - rewrite Lc, Sc, Hlive, Sf. destruct (feed_decodes collection kv Hcol Hok) as (c & _ & _ & Hk & _). by apply (cursor_cons limit collection kv live _ _ c (is_live (tl_db st) kv)).
  - intros p k Hp Hp'. by rewrite Lo, So.
  - intros kv' Hok' Hn'. cbn [fmap list_fmap] in Hn'. apply not_elem_of_cons in Hn' as [Hne Hn'].
    rewrite Lout by done. by apply (Sl collection).
  - intros kv'. rewrite Htake. intros [Hin|Hin]%elem_of_app; [|by apply Lk]. destruct keep eqn:Ek; [|by apply not_elem_of_nil in Hin].
    apply list_elem_of_singleton in Hin as ->. rewrite Lout by done. by apply Sk.
Qed.

Lemma trim_loop limit collection l st :
  wf collection → Forall (feed_ok collection) l → NoDup l.*1 → records_ok (tl_db st) →
  ∃ st', foldl_res (trim_entry limit) st l = Ok st' ∧ loop_effect limit collection l st st'.
Proof.
  intros Hcol Hall. revert st. induction Hall as [|kv l Hkv Hall IH]; intros st Hnd Hrec.
  { exists st. split; [done|]. constructor; cbv zeta; try done; try (simpl; lia); auto.
    { change (live_entries (tl_db st) []) with (@nil (string * string)). rewrite drop_nil. by destruct (candidate_new_feed_lower_cursor st). }
    intros kv. change (live_entries (tl_db st) []) with (@nil (string * string)). rewrite take_nil. by intros ?%not_elem_of_nil. }
  cbn [fmap list_fmap] in Hnd. apply NoDup_cons in Hnd as [Hno Hnd].
  destruct (trim_entry_Ok collection limit st kv Hcol Hkv Hrec) as (st1 & Ht & Htr%(trimmed_effect limit collection)); [|done..]. cbn [foldl_res]. rewrite Ht. cbn [result_bind].
  destruct (IH st1 Hnd (records_ok_step _ _ _ _ Htr Hrec)) as (st' & -> & Hl). exists st'. split; [done|].
  by apply (loop_effect_cons limit collection kv l st st1).
Qed.

Lemma head_rev {A} (l : list A) : head (rev l) = last l.
Proof. induction l as [|x l IH] using rev_ind; [done|]. by rewrite rev_app_distr, last_snoc. Qed.

Lemma live_entries_rev d l : live_entries d (rev l) = rev (live_entries d l).
Proof.
  unfold live_entries. induction l as [|kv l IH]; [done|]. simpl rev. rewrite filter_app, IH, !filter_cons, filter_nil.
  case_decide; [done|]. apply app_nil_r.
Qed.

Lemma rev_NoDup_keys (l : list (string * string)) : NoDup l.*1 → NoDup (rev l).*1.
Proof. intros Hnd. assert (rev l ≡ₚ l) as Hp by (symmetry; apply Permutation_rev). by rewrite Hp. Qed.

Lemma sorted_drop n (l : list (string * string)) : StronglySorted key_lt l → StronglySorted key_lt (drop n l).
Proof.
  intros Hs. revert n. induction Hs as [|a l Hs IH Hall]; intros n; [destruct n; constructor|]. destruct n; [by constructor|apply IH].
Qed.

(** Writing the trim cursor touches one key of the global partition. *)
Lemma trim_finish collection st :
  wf collection →
  ∃ d' tk, match candidate_new_feed_lower_cursor st with
    | Some new_cursor =>
        k ←? enc (trim_collection_cursor_key collection : DbConcat (DbStaticStr "trim_cursor") Nsid);
        v ←? enc new_cursor;
        Ok (fj_commit (tl_db st) [FjInsert GLOBAL k v])
    | None => Ok (tl_db st)
    end = Ok d' ∧
    to_db_bytes (trim_collection_cursor_key collection : DbConcat (DbStaticStr "trim_cursor") Nsid) = Ok tk ∧
    (∀ p k, p ≠ GLOBAL ∨ k ≠ tk → fj_get d' p k = fj_get (tl_db st) p k) ∧
    fj_get d' GLOBAL tk =
      match candidate_new_feed_lower_cursor st with
      | Some c => Some (u64_to_be_bytes (cursor_us c))
      | None => fj_get (tl_db st) GLOBAL tk
      end.
Proof.
  intros Hcol. destruct (tail_codec (trim_collection_cursor_key collection : DbConcat (DbStaticStr "trim_cursor") Nsid)) as (k & Hk & _); [by split|].
  destruct (candidate_new_feed_lower_cursor st) as [c|]; [|by exists (tl_db st), k].
  rewrite (proj2 (enc_Ok _ _) Hk). cbn [result_bind]. unfold enc at 1. cbn [to_db_bytes cursor_db_bytes lift_encoding result_bind].
  eexists _, k. split_and!; [done|exact Hk| |].
  - intros p q Hp. rewrite fj_get_commit by auto with microcosm.
    unfold fj_applies. simpl. rewrite decide_False; [done|]. intros [E1 E2]. by destruct Hp as [Hp|Hp]; apply Hp.
  - rewrite fj_get_commit by auto with microcosm. unfold fj_applies. simpl. by rewrite decide_True.
Qed.

Lemma is_live_records d d' kv : (∀ k, fj_get d' RECORDS k = fj_get d RECORDS k) → is_live d' kv = is_live d kv.
Proof.
  intros Hr. unfold is_live. destruct (dec kv.1); [|done]. destruct (dec kv.2); [|done]. destruct (location_of kv); [|done]. by rewrite Hr.
Qed.

(** A range after all but some of its entries are removed. *)
Lemma kept_range d d' lo hi (kept : list (string * string)) :
  let feed := fj_range d FEEDS (Included lo) (Excluded hi) in
  StronglySorted key_lt kept → (∀ kv, kv ∈ kept → kv ∈ feed) →
  (∀ k, fj_get d' FEEDS k = if decide (k ∈ feed.*1 ∧ k ∉ kept.*1) then None else fj_get d FEEDS k) →
  fj_range d' FEEDS (Included lo) (Excluded hi) = kept.
Proof.
  intros feed Hs Hsub Hf. apply sorted_unique; [apply fj_range_sorted|done|]. intros [k v]. rewrite fj_range_spec, Hf. split.
  - intros (Hg & Ha & Hb). case_decide as Hc; [done|]. assert (Hin : (k, v) ∈ feed) by (by apply fj_range_spec).
    destruct (decide (k ∈ kept.*1)) as [Hk|Hno].
    2: { destruct Hc. split; [|done]. by apply (list_elem_of_fmap_2 fst _ (k, v)). }
    apply list_elem_of_fmap in Hk as ([k' v'] & E & Hk). simpl in E. subst k'.
    pose proof (Hsub _ Hk) as (Hg' & _)%fj_range_spec. rewrite Hg in Hg'. by injection Hg' as ->.
  - intros Hk. pose proof (Hsub _ Hk) as (Hg & Ha & Hb)%fj_range_spec. rewrite decide_False; [done|].
    intros [_ Hno]. apply Hno. by apply (list_elem_of_fmap_2 fst _ (k, v)).
Qed.

(** C18. Trimming keeps exactly the newest live entries of the range, at most
    [limit] of them: afterwards the feed holds those and no others there, every
    one of them still finds the record it announced, and the entries outside the
    range are untouched. The records removed are exactly those that the entries
    dropped had announced: of the live entries over the limit, and of entries
    whose record has their cursor but another revision; all other records stay
    as they are. Of the other partitions only the trim cursor of the collection
    changes, and only if the limit was exceeded: it becomes the cursor of the
    newest entry over the limit. The counts returned are those of the dangling
    entries and of the live entries over the limit. *)
Theorem trim_collection_keeps_newest (d : Keyspace) (collection : Nsid) (limit : nat) (full_scan : bool) lo hi :
  wf collection → records_ok d → trim_range d collection full_scan = Ok (lo, hi) →
  Forall (feed_ok collection) (fj_range d FEEDS (Included lo) (Excluded hi)) →
  let feed := fj_range d FEEDS (Included lo) (Excluded hi) in
  let live := live_entries d feed in
  let over := take (length live - limit) live in
  let kept := drop (length live - limit) live in
  ∃ d' tk, trim_collection d collection limit full_scan =
      Ok (d', (length feed - length live, length live - limit, false)) ∧
    fj_range d' FEEDS (Included lo) (Excluded hi) = kept ∧
    (∀ kv, kv ∈ kept → is_live d' kv = true) ∧
    (∀ k, k ∉ feed.*1 → fj_get d' FEEDS k = fj_get d FEEDS k) ∧
    (∀ k, fj_get d' RECORDS k = if decide (k ∈ announced_by d kept feed) then None else fj_get d RECORDS k) ∧
    to_db_bytes (trim_collection_cursor_key collection : DbConcat (DbStaticStr "trim_cursor") Nsid) = Ok tk ∧
    fj_get d' GLOBAL tk =
      match last over ≫= entry_cursor with
      | Some c => Some (u64_to_be_bytes (cursor_us c))
      | None => fj_get d GLOBAL tk
      end ∧
    (∀ p k, p ≠ FEEDS → p ≠ RECORDS → p ≠ GLOBAL ∨ k ≠ tk → fj_get d' p k = fj_get d p k).
Proof.
  intros Hcol Hrec Hr Hok feed live over kept. unfold trim_collection. rewrite Hr. cbn [result_bind half_open fst snd]. fold feed.
  assert (Hnd : NoDup feed.*1) by apply sorted_NoDup, fj_range_sorted.
  destruct (trim_loop limit collection (rev feed) (mkTrim d 0 0 0 None) Hcol) as (st & -> & Hl).
  { by apply Forall_rev. } { by apply rev_NoDup_keys. } { done. }
  cbn [result_bind]. destruct (trim_finish collection st Hcol) as (d' & tk & -> & Htk & Hd' & Hg). cbn [result_bind].
  destruct Hl as [l n Lf Ld Lx Lfe Lr Lc Lo Lout Lk]. subst l n. cbn [tl_db live_records_found dangling_feed_keys_cleaned records_deleted candidate_new_feed_lower_cursor or_else] in *.
  rewrite live_entries_rev in Lf, Ld, Lx, Lfe, Lr, Lc, Lk. fold live in Lf, Ld, Lx, Lfe, Lr, Lc, Lk. rewrite !length_rev, Nat.sub_0_r in *.
  rewrite firstn_rev in Lk, Lfe, Lr. rewrite skipn_rev, head_rev in Lc. fold over in Lc. fold kept in Lk, Lfe, Lr.
  assert (Hrev : ∀ (l : list (string * string)) k, k ∈ (rev l).*1 ↔ k ∈ l.*1) by (intros l k; by rewrite <- (Permutation_rev l)).
  assert (Hkl : ∀ kv, kv ∈ kept → kv ∈ feed).
  { intros kv Hin. apply (subseteq_drop (length live - limit) live), list_elem_of_filter in Hin. tauto. }
  assert (Hfeeds : ∀ k, fj_get d' FEEDS k = if decide (k ∈ feed.*1 ∧ k ∉ kept.*1) then None else fj_get d FEEDS k).
  { intros k. rewrite Hd', Lfe by (by left). apply if_decide_iff. by rewrite !Hrev. }
  exists d', tk. split_and!; [..|done| |].
  - assert (dangling_feed_keys_cleaned st = length feed - length live) as -> by lia. by rewrite Lx.
  - apply (kept_range d d' lo hi); [|done|done]. apply sorted_drop, sorted_filter, fj_range_sorted.
  - intros kv Hin. rewrite (is_live_records (tl_db st) d') by (intros; apply Hd'; by left). apply Lk.
    by rewrite <- (Permutation_rev kept).
  - intros k Hk. rewrite Hfeeds, decide_False; [done|]. by intros [].
  - intros k. rewrite Hd' by (by left). rewrite Lr. apply if_decide_iff. rewrite !elem_announced_by.
    setoid_rewrite <- (Permutation_rev feed). by setoid_rewrite <- (Permutation_rev kept).
  - rewrite Hg, Lc. destruct (last over ≫= entry_cursor); [done|]. by apply Lo.
  - intros p k Hp Hp' Hk. by rewrite Hd', Lo.
Qed.

End Trim.
End Trim.
