(* ===== verification/UfosUpkeep.v ===== *)
(** * ufos: upkeep of a store

    Restarts ([init] on a store that is there), the start of the background task
    ([background_tasks], with or without a reroll) and the trimming of a
    collection write to the partitions of records, feeds and metadata only: the
    counts, those not yet rolled up and those rolled up, and the queue of
    account deletions stay as they are. *)

From S2P Require Import Prelude RustStr Bytes UfosCursor UfosDbTypes.
From S2P Require Import UfosStoreTypes UfosBatch UfosFjallApi UfosStorage UfosRollup.
Import Db Store Batch FjallStore.

Module Upkeep.
Section Upkeep.
Context `{FL : FjallLaws} `{LL : LsmTreeLaws} `{AL : AtriumLaws} `{BL : BincodeStrLaws}.
Context `{SketchOps, Bincode2 CommitCounts, Bincode2 RecordLocationMeta, Bincode2 Sketch, Bincode2 SketchSecretPrefix}.
Context `{!Bincode2Laws CommitCounts, !Bincode2Laws RecordLocationMeta, !Bincode2Laws Sketch}.

Abbreviation rollup_cursor := (static_bytes NewRollupCursorKey).

(** A write of the rollup cursor, or one elsewhere than in the counts, the queue
    and the rollup cursor. *)
Definition upkeep_op (op : FjOp) : Prop :=
  (∃ c : Cursor, wf c ∧ op = FjInsert GLOBAL rollup_cursor (u64_to_be_bytes (cursor_us c))) ∨
  ∀ p k, fj_touches p k op → p ≠ ROLLUPS ∧ p ≠ QUEUES ∧ (p = GLOBAL → k ≠ rollup_cursor).

Inductive upkeep (d : Keyspace) : Keyspace → Prop :=
  | upkeep_refl : upkeep d d
  | upkeep_commit d' ops : upkeep d d' → Forall upkeep_op ops → upkeep d (fj_commit d' ops).

Lemma upkeep_trans d1 d2 d3 : upkeep d1 d2 → upkeep d2 d3 → upkeep d1 d3.
Proof. intros H12. induction 1; [done|by apply upkeep_commit]. Qed.
Lemma upkeep_one d op : upkeep_op op → upkeep d (fj_commit d [op]).
Proof. intros Hop. apply upkeep_commit; [constructor|by apply Forall_singleton]. Qed.

Lemma upkeep_op_untouched p k op : upkeep_op op → p = ROLLUPS ∨ p = QUEUES → ¬ fj_touches p k op.
Proof.
  intros [(c & _ & ->)|Hop] Hp Ht; [destruct Ht as [<- _]; by destruct Hp|]. destruct (Hop p k Ht) as (? & ? & _). by destruct Hp.
Qed.

Lemma upkeep_get d d' p k : upkeep d d' → p = ROLLUPS ∨ p = QUEUES → fj_get d' p k = fj_get d p k.
Proof.
  intros Hu Hp. induction Hu as [|d' ops _ IH Hops]; [done|].
  assert (Hun : Forall (λ op, ¬ fj_touches p k op) ops) by (eapply Forall_impl; [exact Hops|]; intros op Hop; by apply upkeep_op_untouched).
  rewrite fj_get_commit by auto with microcosm. by rewrite fj_applies_untouched.
Qed.

Definition cursor_readable (o : option string) : Prop := ∃ c : Cursor, wf c ∧ dec_opt (T := Cursor) o = Ok (Some c).

Lemma cursor_bytes_readable (c : Cursor) : wf c → cursor_readable (Some (u64_to_be_bytes (cursor_us c))).
Proof.
  intros Hc. exists c. split; [done|]. cbn [dec_opt]. by rewrite (dec_codec c (u64_to_be_bytes (cursor_us c))) by done.
Qed.

Lemma upkeep_applies ops o : Forall upkeep_op ops → cursor_readable o → cursor_readable (fj_applies ops GLOBAL rollup_cursor o).
Proof.
  intros Hops. revert o. induction Hops as [|op ops Hop _ IH]; intros o Ho; [done|].
  unfold fj_applies. cbn [fold_left]. apply IH. destruct Hop as [(c & Hc & ->)|Hop].
  - unfold fj_apply. rewrite decide_True by done. by apply cursor_bytes_readable.
  - rewrite fj_apply_untouched; [done|]. intros Ht. by destruct (Hop _ _ Ht) as (_ & _ & []).
Qed.

Lemma upkeep_cursor d d' :
  upkeep d d' → cursor_readable (fj_get d GLOBAL rollup_cursor) → cursor_readable (fj_get d' GLOBAL rollup_cursor).
Proof.
  intros Hu Hr. induction Hu as [|d' ops _ IH Hops]; [done|]. rewrite fj_get_commit; [by apply upkeep_applies|].
  eapply Forall_impl; [exact Hops|]. intros op [(c & _ & ->)|Hop] Hw; [done|]. destruct op as [| |p k]; try done.
  destruct Hw as [-> ->]. by destruct (Hop GLOBAL rollup_cursor (conj eq_refl eq_refl)) as (_ & _ & []).
Qed.

(** Upkeep changes no count, and the background task can go on. *)
Lemma upkeep_inv d d' : upkeep d d' → rollup_inv d → rollup_inv d' ∧ ∀ n r, total d' n r = total d n r.
Proof.
  intros Hu Hinv.
  assert (Hro : ∀ k, fj_get d' ROLLUPS k = fj_get d ROLLUPS k) by (intros; apply (upkeep_get d d'); [done|by left]).
  assert (Htot : ∀ n r, total d' n r = total d n r).
  { intros n r. unfold total, rolled_up, live_total. rewrite (prefix_same d d' ROLLUPS live_family) by done.
    f_equal. destruct (rollup_key r (mkNsid n)); [by rewrite Hro|done]. }
  split; [|done]. destruct Hinv as [Hc Hl Hq Hr Hk Hf]. constructor.
  - unfold get_static_neu in *. rewrite static_key_Ok in * by done. exact (upkeep_cursor d d' Hu Hc).
  - by rewrite (prefix_same d d' ROLLUPS live_family).
  - rewrite (prefix_same d d' QUEUES queue_family); [done|]. intros k _. apply (upkeep_get d d'); [done|by right].
  - intros n r k v. rewrite Hro. by apply Hr.
  - intros k v. rewrite Hro. by apply Hk.
  - intros n r. rewrite Htot. by apply Hf.
Qed.

(** ** The operations *)

Lemma upkeep_elsewhere op : (∀ p k, fj_touches p k op → p = FEEDS ∨ p = RECORDS) → upkeep_op op.
Proof. intros Hop. right. intros p k Ht. by destruct (Hop p k Ht) as [-> | ->]. Qed.

Lemma family_not_cursor lit k : str_contains NUL lit = false → lit ≠ NewRollupCursorKey → in_family lit k → k ≠ rollup_cursor.
Proof.
  intros Hl Hne Hk ->. apply Hne. apply (in_family_unique lit NewRollupCursorKey rollup_cursor); [done|done|done|].
  exists "". symmetry. apply str_app_nil_r.
Qed.

Lemma upkeep_global k v : k ≠ rollup_cursor → upkeep_op (FjInsert GLOBAL k v).
Proof. intros Hk. right. by intros p k' [<- <-]. Qed.

Lemma insert_static_upkeep K d {V} `{DbBytes V} (x : V) d' :
  str_contains NUL K = false → K ≠ NewRollupCursorKey → insert_static_neu K d x = Ok d' → upkeep d d'.
Proof.
  intros HK Hne. unfold insert_static_neu. rewrite static_key_Ok by done. cbn [result_bind]. intros Hi.
  apply result_bind_Ok in Hi as (v & _ & Hi). injection Hi as <-. apply upkeep_one, upkeep_global.
  apply (family_not_cursor K); [done|done|]. exists "". symmetry. apply str_app_nil_r.
Qed.

Lemma insert_cursor_upkeep d (c : Cursor) d' : wf c → insert_static_neu NewRollupCursorKey d c = Ok d' → upkeep d d'.
Proof.
  intros Hc. unfold insert_static_neu. rewrite static_key_Ok by done. cbn [result_bind].
  unfold enc. cbn [to_db_bytes cursor_db_bytes lift_encoding result_bind]. intros [= <-]. apply upkeep_one. left. by exists c.
Qed.

Lemma init_static_insert K d {V} `{DbBytes V} (x : V) d' :
  init_static_neu K d x = Ok d' → d' = d ∨ insert_static_neu K d x = Ok d'.
Proof.
  unfold init_static_neu, insert_static_neu. destruct (static_key K) as [k|]; [|done]. cbn [result_bind].
  destruct (fj_get d GLOBAL k); [done|by right].
Qed.

Lemma init_static_upkeep K d {V} `{DbBytes V} (x : V) d' :
  str_contains NUL K = false → K ≠ NewRollupCursorKey → init_static_neu K d x = Ok d' → upkeep d d'.
Proof. intros HK Hne [-> |Hi]%init_static_insert; [constructor|by apply (insert_static_upkeep K d x)]. Qed.

(** A restart: [init] with a store that is there, with the same endpoint or,
    if it is forced, another one. *)
Lemma init_upkeep d ep force random now d' c secret : init d ep force random now = Ok (d', c, secret) → upkeep d d'.
Proof.
  unfold init. intros Hi. apply result_bind_Ok in Hi as (js & _ & Hi). destruct js as [js|].
  - apply result_bind_Ok in Hi as ([[stored]|] & _ & Hi); [|done]. apply result_bind_Ok in Hi as ([sec|] & _ & Hi); [|done].
    case_decide; [injection Hi as <- _ _; constructor|]. destruct force; [|done].
    apply result_bind_Ok in Hi as (d1 & Hd1 & Hi). injection Hi as <- _ _. by apply (insert_static_upkeep JetstreamEndpointKey d (mkEndpoint ep)).
  - apply result_bind_Ok in Hi as (d1 & Hd1 & Hi). destruct random as [sec|]; [|done].
    apply result_bind_Ok in Hi as (d2 & Hd2 & Hi). apply result_bind_Ok in Hi as (d3 & Hd3 & Hi). apply result_bind_Ok in Hi as (d4 & Hd4 & Hi).
    injection Hi as <- _ _. apply init_static_upkeep in Hd1; [|done..]. apply init_static_upkeep in Hd2; [|done..].
    apply init_static_upkeep in Hd3; [|done..].
    assert (upkeep d3 d4) by (apply init_static_insert in Hd4 as [->|Hd4]; [constructor|by apply insert_cursor_upkeep in Hd4]).
    eauto using upkeep_trans.
Qed.

(** The background task is started, for a reroll from the first cursor. *)
Lemma background_tasks_upkeep taken d reroll b d' : background_tasks taken d reroll = Ok (b, d') → upkeep d d'.
Proof.
  unfold background_tasks. destruct taken; [done|]. destruct reroll; [|intros [= _ <-]; constructor].
  intros Hb. apply result_bind_Ok in Hb as (d1 & Hd1 & Hb). apply result_bind_Ok in Hb as (p & Hp & Hb). injection Hb as _ <-.
  apply insert_cursor_upkeep in Hd1; [|done]. apply upkeep_commit; [done|]. apply Forall_forall. intros op Hop.
  apply list_elem_of_fmap in Hop as ([k v] & -> & Hin). apply fj_prefix_spec in Hin as [_ Hs]. right. intros q k' [<- <-].
  split_and!; [done|done|]. intros _. apply (family_not_cursor "trim_cursor"); [done|done|]. apply in_family_starts.
  assert (static_key "trim_cursor" = Ok p) as E by exact Hp. rewrite static_key_Ok in E by done. by injection E as <-.
Qed.

Lemma trim_entry_upkeep limit st kv st' d : trim_entry limit st kv = Ok st' → upkeep d (tl_db st) → upkeep d (tl_db st').
Proof.
  assert (Hrm : ∀ d1 p k, p = FEEDS ∨ p = RECORDS → upkeep d d1 → upkeep d (remove d1 p k)).
  { intros d1 p k Hp Hu. apply upkeep_commit; [done|]. apply Forall_singleton, upkeep_elsewhere. by intros q k' [<- _]. }
  unfold trim_entry. destruct kv as [kb vb]. intros Ht Hu.
  repeat match type of Ht with (_ ←? _; _) = _ => apply result_bind_Ok in Ht as (? & _ & Ht) end.
  destruct (fj_get _ _ _); [|injection Ht as <-; cbn [tl_db dangling]; by apply Hrm; [left|]].
  apply result_bind_Ok in Ht as ([meta n] & _ & Ht).
  repeat case_decide; injection Ht as <-; cbn [tl_db dangling]; [by apply Hrm; [left|]| | |]; [|done|].
  all: apply Hrm; [by left|]; apply Hrm; [by right|done].
Qed.

Lemma trim_upkeep d collection limit full_scan d' r : trim_collection d collection limit full_scan = Ok (d', r) → upkeep d d'.
Proof.
  unfold trim_collection. intros Ht. apply result_bind_Ok in Ht as ([lo hi] & _ & Ht). cbn [half_open] in Ht.
  apply result_bind_Ok in Ht as (st & Hst & Ht). apply result_bind_Ok in Ht as (d1 & Hd1 & Ht). injection Ht as <- _.
  assert (Hu : upkeep d (tl_db st)).
  { assert (Hfold : ∀ l st0, foldl_res (trim_entry limit) st0 l = Ok st → upkeep d (tl_db st0) → upkeep d (tl_db st)).
    { induction l as [|kv l IH]; intros st0 Hf Hu; cbn [foldl_res] in Hf; [by injection Hf as <-|].
      apply result_bind_Ok in Hf as (st1 & Hst1 & Hf). by eapply IH; [exact Hf|eapply trim_entry_upkeep]. }
    eapply Hfold; [exact Hst|constructor]. }
  destruct (candidate_new_feed_lower_cursor st) as [c|]; [|by injection Hd1 as <-].
  apply result_bind_Ok in Hd1 as (k & Hk & Hd1). apply result_bind_Ok in Hd1 as (v & _ & Hd1). injection Hd1 as <-.
  apply upkeep_commit; [done|]. apply Forall_singleton, upkeep_global. apply enc_Ok, family_of_concat in Hk.
  by apply (family_not_cursor "trim_cursor").
Qed.
End Upkeep.
End Upkeep.
