(* ===== verification/UfosRuns.v ===== *)
(** * ufos: concrete runs of the storage

    The theorems on the storage at concrete stores, over the reference
    instance of the key-value interface, and a run that shows a delete being
    undone by the order in which a full batch keeps its commits. *)

From S2P Require Import Prelude RustStr Bytes UfosCursor UfosDbTypes.
From S2P Require Import UfosStoreTypes UfosBatch UfosFjallApi UfosStorage UfosRollup.
From S2P Require Import UfosBackground UfosInsert UfosInit UfosTrim.
Import Db Store Batch FjallStore Background Insert Init Trim FjallReference.

Module Runs.
Section Runs.
#[local] Existing Instance plain_atrium.
#[local] Existing Instance plain_atrium_laws.
#[local] Existing Instance plain_bincode_str.
#[local] Existing Instance plain_bincode_str_laws.
#[local] Existing Instance plain_lsm.
#[local] Existing Instance plain_lsm_laws.
#[local] Existing Instance plain_sketch.
#[local] Existing Instance plain_sketch_bincode.
#[local] Existing Instance plain_sketch_laws.
#[local] Existing Instance plain_counts_bincode.
#[local] Existing Instance plain_counts_laws.
#[local] Existing Instance plain_meta_bincode.
#[local] Existing Instance plain_meta_laws.

(** Secrets as they are. *)
#[local] Instance plain_secret_bincode : Bincode2 SketchSecretPrefix := {
  encode_to_vec s := if decide (String.length (secret_bytes s) = 16) then Some (secret_bytes s) else None;
  decode_from_slice bytes := '(h, _) ← str_split_at 16 bytes; Some (mkSecret h, 16) }.
#[local] Instance plain_secret_laws : Bincode2Laws SketchSecretPrefix.
Proof.
  intros [s] Hs. unfold wf, secret_wf in Hs. simpl in Hs. exists s.
  cbn [encode_to_vec decode_from_slice plain_secret_bincode secret_bytes]. rewrite decide_True by done. split_and!; [done| |].
  - intros ->. done.
  - intros rest. rewrite (proj2 (str_split_at_Some 16 _ s rest)) by done. simpl. by rewrite Hs.
Qed.

Definition empty_store : Keyspace := (∅ : gmap (string * string) string).
Definition sample_secret : SketchSecretPrefix := mkSecret "0123456789abcdef".
Definition sample_did : Did := mkDid "did.plc.a".
Definition sample_create (us : N) (rkey : string) : UFOsCommit :=
  mkCommit (mkCursor us) sample_did (mkRecordKey rkey) "rev" (Put "{}" false).
Definition sample_cc : CollectionCommits := mkCC 1 0 0 (tt : Sketch) [sample_create 7 "3k"] 0.
Definition sample_batch : EventBatch := mkBatch {["a.b.c" := sample_cc]} [].

Lemma sample_fresh : fresh empty_store.
Proof. intros p k. reflexivity. Qed.

Lemma sample_batch_wf : batch_wf sample_batch.
Proof.
  split; [|constructor]. unfold sample_batch. cbn [commits_by_nsid]. rewrite map_to_list_singleton. constructor; [|constructor].
  split; [reflexivity|]. split; [|split; [|split]; reflexivity]. constructor; [|constructor].
  split; [reflexivity|]. split; [reflexivity|]. split; [reflexivity|]. split; [split; reflexivity|]. vm_compute. discriminate.
Qed.

Lemma inserted_wf n r : wf (inserted sample_batch (mkCursor 7) n r).
Proof.
  unfold inserted. cbn [commits_by_nsid sample_batch]. destruct (decide (n = "a.b.c")) as [->|Hne].
  - rewrite lookup_singleton_eq. case_decide; repeat split; reflexivity.
  - rewrite lookup_singleton_ne by done. repeat split; reflexivity.
Qed.

(** A store that was started and took a batch. *)
Lemma sample_store :
  ∃ d, rollup_inv d ∧ rollup_low d ∧ total d "a.b.c" AllTime = mkCounts 1 0 0.
Proof.
  destruct (init_first empty_store "wss.x" false sample_secret (mkCursor 1) sample_fresh eq_refl eq_refl) as (d & _ & Hst).
  destruct (started_inv d _ _ Hst) as [Hinv Hlow].
  destruct (insert_batch_good d sample_batch (mkCursor 7) Hinv sample_batch_wf eq_refl) as (d' & _ & Hinv' & Htot & Hlow' & _).
  - intros. by apply (st_other _ _ _ Hst).
  - intros n r _ _. rewrite (started_total d _ _ _ _ Hst), add_counts_0_r. apply inserted_wf.
  - exists d'. split; [done|]. split.
    + apply Hlow'; [done|]. intros c Hc. pose proof (st_rollup _ _ _ Hst) as Hc'. unfold cursor_is in *. rewrite Hc in Hc'.
      injection Hc' as ->. split; [vm_compute; discriminate|constructor].
    + etransitivity; [exact (Htot (mkNsid "a.b.c") AllTime eq_refl I)|]. rewrite (started_total d _ _ _ _ Hst). reflexivity.
Qed.

Lemma init_then_restart_witness :
  ∃ d d', init empty_store "wss.x" false (Some sample_secret) (mkCursor 1) = Ok (d, None, sample_secret) ∧
    insert_batch d sample_batch = Ok d' ∧ init d' "wss.x" false None (mkCursor 2) = Ok (d', Some (mkCursor 7), sample_secret).
Proof.
  destruct (init_then_restart empty_store "wss.x" false sample_secret (mkCursor 1) sample_fresh eq_refl eq_refl eq_refl) as (d & Hi & _ & _ & Hb).
  destruct (Hb sample_batch (mkCursor 7) sample_batch_wf eq_refl) as (d' & Hr & Hre). exists d, d'. exact (conj Hi (conj Hr (Hre _ _ _))).
Defined.

Lemma init_twice_refused_witness :
  ∃ d' msg, init empty_store "wss.x" false (Some sample_secret) (mkCursor 1) = Ok (d', None, sample_secret) ∧
    init d' "wss.x" true (Some sample_secret) (mkCursor 2) = Err (InitError msg).
Proof.
  apply (init_twice_refused empty_store "wss.x" "wss.x" false true sample_secret (Some sample_secret) (mkCursor 1) (mkCursor 2));
    [exact sample_fresh|reflexivity|reflexivity].
Defined.

Lemma insert_batch_records_witness :
  ∃ d', insert_batch empty_store sample_batch = Ok d' ∧ get_static_neu JetstreamCursorKey d' = Ok (Some (mkCursor 7)).
Proof.
  destruct (insert_batch_records empty_store sample_batch (mkCursor 7) sample_batch_wf eq_refl) as (d' & H1 & H2 & _).
  exists d'. exact (conj H1 H2).
Defined.

Lemma insert_batch_counts_witness :
  ∃ d d', insert_batch d sample_batch = Ok d' ∧ rollup_inv d' ∧ total d' "a.b.c" AllTime = mkCounts 1 0 0.
Proof.
  destruct (init_first empty_store "wss.x" false sample_secret (mkCursor 1) sample_fresh eq_refl eq_refl) as (d & _ & Hst).
  destruct (started_inv d _ _ Hst) as [Hinv Hlow].
  destruct (insert_batch_counts d sample_batch (mkCursor 7) Hinv sample_batch_wf eq_refl) as (d' & Hr & Hinv' & Htot & _).
  - intros. by apply (st_other _ _ _ Hst).
  - intros n r _ _. rewrite (started_total d _ _ _ _ Hst), add_counts_0_r. apply inserted_wf.
  - exists d, d'. split; [done|]. split; [done|]. etransitivity; [exact (Htot (mkNsid "a.b.c") AllTime eq_refl I)|]. rewrite (started_total d _ _ _ _ Hst). reflexivity.
Defined.

Lemma step_rollup_conserves_witness :
  ∃ d d' n dirty, step_rollup d = Ok (d', n, dirty) ∧ rollup_inv d' ∧ total d' "a.b.c" AllTime = mkCounts 1 0 0.
Proof.
  destruct sample_store as (d & Hinv & _ & Htot).
  destruct (step_rollup_conserves d Hinv) as (d' & n & dirty & Hr & Hinv' & _ & Hc). exists d, d', n, dirty.
  split; [done|]. split; [done|]. rewrite <- Htot. exact (Hc (mkNsid "a.b.c") AllTime eq_refl I).
Defined.

Lemma rollup_catches_up_witness :
  ∃ d d' dirty', rollup_ticks (pending d) (d, ∅) = Ok (d', dirty') ∧ live_list d' = [] ∧ rolled_up d' "a.b.c" AllTime = mkCounts 1 0 0.
Proof.
  destruct sample_store as (d & Hinv & Hlow & Htot).
  destruct (rollup_catches_up d ∅ Hinv Hlow) as (d' & dirty' & Hr & Hl & _ & Hc). exists d, d', dirty'.
  split; [done|]. split; [done|]. rewrite <- Htot. exact (Hc (mkNsid "a.b.c") AllTime eq_refl I).
Defined.

(** A store with one record and its entry in the feed. *)
Definition bytes_of {T} `{DbBytes T} (x : T) : string := default "" (result_to_option (to_db_bytes x)).
Definition sample_location : string :=
  bytes_of (from_pair sample_did (from_pair sample_nsid (mkRecordKey "3k")) : DbConcat Did (DbConcat Nsid RecordKey)).
Definition sample_feed_key : string := bytes_of (from_pair sample_nsid (mkCursor 7) : DbConcat Nsid Cursor).
Definition sample_feed_val : string :=
  bytes_of (feed_val_from sample_did (mkRecordKey "3k") "rev" : DbConcat Did (DbConcat RecordKey string)).
Definition sample_record : string :=
  bytes_of (location_val_from (mkCursor 7) "rev" "{}" false : DbConcat RecordLocationMeta RawBytes).
Definition one_record : Keyspace :=
  (<[(FEEDS, sample_feed_key) := sample_feed_val]> {[(RECORDS, sample_location) := sample_record]} : gmap (string * string) string).

Lemma delete_account_exact_witness :
  ∃ d', delete_account one_record sample_did = Ok (d', 1) ∧ fj_get d' RECORDS sample_location = None.
Proof.
  assert (Hd : wf sample_did) by reflexivity.
  destruct (delete_account_exact one_record sample_did Hd) as (d' & pre & Hr & Hpre & Hg & _).
  assert (E : pre = bytes_of sample_did) by (unfold bytes_of; by rewrite Hpre). subst pre. exists d'. split; [exact Hr|].
  exact (Hg sample_did sample_nsid (mkRecordKey "3k") eq_refl eq_refl eq_refl).
Defined.

Lemma one_record_ok : records_ok one_record.
Proof.
  intros k v Hg. unfold one_record in Hg. simpl in Hg. rewrite lookup_insert_ne in Hg by done.
  apply lookup_singleton_Some in Hg as [_ <-]. eexists _, _. vm_compute. reflexivity.
Qed.

Lemma trim_collection_keeps_newest_witness :
  ∃ d', trim_collection one_record sample_nsid 0 true = Ok (d', (0, 1, false)) ∧ fj_get d' FEEDS sample_feed_key = None ∧
    fj_get d' RECORDS sample_location = None.
Proof.
  destruct (trim_range one_record sample_nsid true) as [[lo hi]|] eqn:Hr; [|vm_compute in Hr; discriminate].
  assert (Hlo : (lo, hi) = (bytes_of sample_nsid, "a.b.c" +:+ String "001" "")) by (vm_compute in Hr |- *; congruence).
  injection Hlo as -> ->.
  assert (Hfeed : fj_range one_record FEEDS (Included (bytes_of sample_nsid)) (Excluded ("a.b.c" +:+ String "001" "")) =
    [(sample_feed_key, sample_feed_val)]) by (vm_compute; reflexivity).
  assert (Hn : wf sample_nsid) by reflexivity.
  destruct (trim_collection_keeps_newest one_record sample_nsid 0 true _ _ Hn one_record_ok Hr) as (d' & tk & Ht & Hrange & _ & _ & Hrec & _).
  - rewrite Hfeed. constructor; [|constructor]. exists (mkCursor 7), sample_did, (mkRecordKey "3k"), "rev".
    split_and!; try reflexivity. split; reflexivity.
  - exists d'. split; [exact Ht|]. split.
    2: { rewrite Hrec, decide_True; [done|]. rewrite Hfeed. vm_compute. left. }
    destruct (fj_get d' FEEDS sample_feed_key) as [v|] eqn:Hg; [|done]. exfalso.
    assert (Hin : (sample_feed_key, v) ∈ fj_range d' FEEDS (Included (bytes_of sample_nsid)) (Excluded ("a.b.c" +:+ String "001" ""))).
    { apply fj_range_spec. split; [done|]. split; vm_compute; reflexivity. }
    rewrite Hrange, Hfeed in Hin. vm_compute in Hin. inversion Hin.
Defined.

(** ** A delete that is undone *)

(** Commits of one collection through [insert_commit_by_nsid] with the limits of
    the consumer, then the batch into the store. *)
Definition insert_all (cs : list UFOsCommit) : EventBatch :=
  fold_left (λ b c, (insert_commit_by_nsid MAX_BATCHED_RECORDS b sample_nsid c MAX_BATCHED_COLLECTIONS "s").1) cs batch_default.

Definition rkey_of (i : nat) : string := String (ascii_of_nat (97 + i / 16)) (String (ascii_of_nat (97 + i mod 16)) "").
Definition creates_then_delete : list UFOsCommit :=
  map (λ i, sample_create (N.of_nat (10 + i)) (rkey_of i)) (seq 0 128) ++
  [mkCommit (mkCursor 200) sample_did (mkRecordKey (rkey_of 1)) "rev2" Cut].

Definition record_left (rkey : string) : bool :=
  match insert_batch empty_store (insert_all creates_then_delete) with
  | Ok d => bool_decide (is_Some (fj_get d RECORDS
      (bytes_of (from_pair sample_did (from_pair sample_nsid (mkRecordKey rkey)) : DbConcat Did (DbConcat Nsid RecordKey)))))
  | Err _ => false
  end.

(** A delete in a full batch can be undone: 128 creates fill the batch, the
    delete of the second of them takes the place of the first, in front of the
    create it follows, and the record is stored although its last commit
    deleted it. *)
Theorem delete_displaced_before_create : record_left (rkey_of 1) = true.
Proof. vm_compute. reflexivity. Qed.

End Runs.
End Runs.
