(* ===== verification/UfosReader.v ===== *)
(** * ufos: the fjall storage, reading side (ufos/src/storage_fjall.rs)

    The queries of [FjallReader] over the byte-level keyspace.  An iterator of
    the source is the list of the results it yields, so that an entry that does
    not decode is an error only when it is reached.  A query sees one state of
    the keyspace.  This file holds the definitions; [UfosQueries] and
    [UfosRecords] hold the properties. *)

From stdpp Require Import sorting.
From S2P Require Import Prelude RustStr Bytes UfosCursor UfosDbTypes.
From S2P Require Import UfosStoreTypes UfosBatch UfosFjallApi UfosStorage.
Import Db Store Batch FjallStore.

(** ** Results of the queries *)

Record UFOsRecord : Type := mkRecord {
  r_cursor : Cursor;
  r_did : Did;
  r_collection : Nsid;
  r_rkey : RecordKey;
  r_rev : string;
  r_record : string;
  r_is_update : bool
}.

Inductive ConsumerInfo : Type :=
  | Jetstream (endpoint : string) (started_at : N) (latest_cursor rollup_cursor : option N).

Record NsidCount : Type := mkNsidCount {
  nc_nsid : string;
  nc_creates : N;
  nc_updates : N;
  nc_deletes : N;
  nc_dids_estimate : N
}.

Record PrefixCount : Type := mkPrefixCount {
  pc_prefix : string;
  pc_creates : N;
  pc_updates : N;
  pc_deletes : N;
  pc_dids_estimate : N
}.

Inductive PrefixChild : Type :=
  | Collection (c : NsidCount)
  | Prefix (p : PrefixCount).

Record NsidPrefix : Type := mkNsidPrefix { prefix_str : string }.

Inductive OrderCollectionsBy : Type :=
  | Lexi (cursor : option string)
  | RecordsCreated
  | DidsEstimate.

Definition order_default : OrderCollectionsBy := Lexi None.

(** What the queries use of atrium's [Nsid] and of serde_json's [RawValue]. *)
Class AtriumNsid := domain_authority : string → string.
Class RawValueJson := raw_value_from_string : string → option string.

(** ** Strings *)

(** [s.contains(term)]. *)
Fixpoint contains_str (term s : string) : bool :=
  starts_with term s || match s with EmptyString => false | String _ s => contains_str term s end.

(** [a > b] and [a < b] on [str]. *)
Definition str_gt (a b : string) : bool := match bytes_compare a b with Gt => true | _ => false end.
Definition str_lt (a b : string) : bool := match bytes_compare a b with Lt => true | _ => false end.

Module Reader.

(** [(limit as f64 * 1.3).ceil() as usize]. *)
Definition f64_1_3 : spec_float := S754_finite false 5854679515581645 (-52).
Definition f64_of_nat (n : nat) : spec_float := binary_normalize 53 1024 (Z.of_nat n) 0 false.
Definition f64_ceil (x : spec_float) : N :=
  match x with
  | S754_finite false m e => if (e <? 0)%Z then Z.to_N ((Z.pos m + 2 ^ (- e) - 1) / 2 ^ (- e)) else Z.to_N (Z.pos m * 2 ^ e)
  | _ => 0%N
  end.
Definition overfetch (limit : nat) : nat := N.to_nat (f64_ceil (SFmul 53 1024 (f64_of_nat limit) f64_1_3)).

(** [sort_by_key]. *)
Definition rank_le {A} (key : A → N) (a b : A) : Prop := (key a ≤ key b)%N.
#[global] Instance rank_le_dec {A} (key : A → N) a b : Decision (rank_le key a b) := N.le_dec (key a) (key b).
Definition sort_by_key {A} (key : A → N) (l : list A) : list A := merge_sort (rank_le key) l.

Section Reader.
Context `{Fjall, LsmTree, Atrium, Bincode2 string, SketchOps, AtriumNsid, RawValueJson}.
Context `{Bincode2 CommitCounts, Bincode2 RecordLocationMeta, Bincode2 Sketch, Bincode2 SketchSecretPrefix}.

Abbreviation Counts := (DbConcat CommitCounts Sketch).
Abbreviation HourlyKey := (DbConcat (DbConcat (DbStaticStr "hourly_counts") (TruncatedCursor Trunc.HOUR_IN_MICROS)) Nsid).
Abbreviation WeeklyKey := (DbConcat (DbConcat (DbStaticStr "weekly_counts") (TruncatedCursor Trunc.WEEK_IN_MICROS)) Nsid).
Abbreviation AllTimeKey := (DbConcat (DbStaticStr "ever_counts") Nsid).
Abbreviation RankedKey lit MOD := (DbConcat (DbConcat (DbStaticStr lit) (TruncatedCursor MOD)) (DbConcat KeyRank Nsid)).
Abbreviation AllTimeRankedKey lit := (DbConcat (DbStaticStr lit) (DbConcat KeyRank Nsid)).

Definition nsid_count (nsid : Nsid) (cv : Counts) : NsidCount :=
  let crud := counts cv in
  mkNsidCount (nsid_str nsid) (creates crud) (updates crud) (deletes crud) (sketch_estimate (dids cv)).
Definition prefix_count (pre : string) (cv : Counts) : PrefixCount :=
  let crud := counts cv in
  mkPrefixCount pre (creates crud) (updates crud) (deletes crud) (sketch_estimate (dids cv)).

(** ** Prefixes *)

Definition nsid_prefix_new (pre : string) : EncodingResult NsidPrefix :=
  if nsid_valid (pre +:+ ".name") then
    if str_contains "." pre then Ok (mkNsidPrefix pre) else Err (Encoding NotEnoughNsidSegments)
  else Err (Encoding BadAtriumStringType).

Definition is_group_of (self : NsidPrefix) (other : Nsid) : StorageResult bool :=
  if starts_with (prefix_str self) (nsid_str other)
  then Ok (bool_decide (prefix_str self = domain_authority (nsid_str other)))
  else Err (StoragePanic "must be a prefix of other").

Definition terminated (self : NsidPrefix) : string := prefix_str self +:+ ".".

(** ** Fixed keys *)

Definition get_snapshot_static_neu (K : string) {V} `{DbBytes V} (d : Keyspace) : StorageResult (option V) :=
  key_bytes ←? static_key K;
  dec_opt (fj_get d GLOBAL key_bytes).

Definition get_consumer_info (d : Keyspace) : StorageResult ConsumerInfo :=
  endpoint ←? get_snapshot_static_neu JetstreamEndpointKey (V := JetstreamEndpointValue) d;
  match endpoint with
  | None => Err (BadStateError "Could not find jetstream endpoint")
  | Some (mkEndpoint endpoint) =>
      started_at ←? get_snapshot_static_neu TakeoffKey (V := Cursor) d;
      match started_at with
      | None => Err (BadStateError "Could not find jetstream takeoff time")
      | Some started_at =>
          latest_cursor ←? get_snapshot_static_neu JetstreamCursorKey (V := Cursor) d;
          rollup_cursor ←? get_snapshot_static_neu NewRollupCursorKey (V := Cursor) d;
          Ok (Jetstream endpoint (cursor_us started_at) (cursor_us <$> latest_cursor) (cursor_us <$> rollup_cursor))
      end
  end.

(** ** Samples of records *)

(** [TryFrom<RecordRawValue> for Box<RawValue>]. *)
Definition raw_value_try_from (rrv : string) : EncodingResult string :=
  if valid_utf8 rrv then
    match raw_value_from_string rrv with Some rv => Ok rv | None => Err (Encoding JsonError) end
  else Err (Encoding NotUtf8String).

(** [location_val_bytes.get(n..)]. *)
Definition bytes_from (n : nat) (bytes : string) : option string := snd <$> str_split_at n bytes.

Definition get_record (d : Keyspace) (db_next : string * string) : StorageResult (option UFOsRecord) :=
  let '(key_bytes, val_bytes) := db_next in
  feed_key ←? dec (T := DbConcat Nsid Cursor) key_bytes;
  feed_val ←? dec (T := DbConcat Did (DbConcat RecordKey string)) val_bytes;
  location_key ←? enc (location_key_from_feed feed_key feed_val : DbConcat Did (DbConcat Nsid RecordKey));
  match fj_get d RECORDS location_key with
  | None => Ok None
  | Some location_val_bytes =>
      '(meta, n) ←? lift_encoding (from_db_bytes (T := RecordLocationMeta) location_val_bytes);
      if decide (mkCursor (meta_cursor meta) ≠ nrf_cursor feed_key) then Ok None
      else if decide (meta_rev meta ≠ nrf_rev feed_val) then Ok None
      else
        match bytes_from n location_val_bytes with
        | None => Ok None
        | Some raw_value_bytes =>
            rawval ←? dec (T := RawBytes) raw_value_bytes;
            record ←? lift_encoding (raw_value_try_from (raw_bytes rawval));
            Ok (Some (mkRecord (nrf_cursor feed_key) (nrf_did feed_val) (nrf_collection feed_key)
                        (nrf_rkey feed_val) (meta_rev meta) record (meta_is_update meta)))
        end
  end.

Record RecordIterator : Type := mkRecordIterator {
  db_iter : list (string * string);
  ri_limit : nat;
  fetched : nat
}.

Definition record_iterator_new (d : Keyspace) (collection : Nsid) (limit : nat) : StorageResult RecordIterator :=
  prefix ←? lift_encoding (from_prefix_to_db_bytes collection);
  Ok (mkRecordIterator (rev (fj_prefix d FEEDS prefix)) limit 0).

(** The [loop] of [next]: the first live record or error, and what is left. *)
Fixpoint next_live (d : Keyspace) (l : list (string * string))
    : option (StorageResult UFOsRecord) * list (string * string) :=
  match l with
  | [] => (None, [])
  | db_next :: l =>
      match get_record d db_next with
      | Err e => (Some (Err e), l)
      | Ok (Some record) => (Some (Ok record), l)
      | Ok None => next_live d l
      end
  end.

(** What an iterator of records yields. *)
Abbreviation RecordItem := (option (StorageResult (option UFOsRecord))).

Definition record_iterator_next (d : Keyspace) (self : RecordIterator) : RecordItem * RecordIterator :=
  if decide (fetched self = ri_limit self) then (Some (Ok None), self)
  else
    match next_live d (db_iter self) with
    | (None, l) => (None, mkRecordIterator l (ri_limit self) (fetched self))
    | (Some (Err e), l) => (Some (Err e), mkRecordIterator l (ri_limit self) (fetched self))
    | (Some (Ok record), l) => (Some (Ok (Some record)), mkRecordIterator l (ri_limit self) (S (fetched self)))
    end.

(** [Peekable] of the standard library. *)
Record Peekable : Type := mkPeekable { peeked : option RecordItem; peek_iter : RecordIterator }.

Definition peek_mut (d : Keyspace) (self : Peekable) : RecordItem * Peekable :=
  match peeked self with
  | Some v => (v, self)
  | None => let '(v, it) := record_iterator_next d (peek_iter self) in (v, mkPeekable (Some v) it)
  end.
Definition peekable_next (d : Keyspace) (self : Peekable) : RecordItem * Peekable :=
  match peeked self with
  | Some v => (v, mkPeekable None (peek_iter self))
  | None => let '(v, it) := record_iterator_next d (peek_iter self) in (v, mkPeekable None it)
  end.

(** The [for] over the iterators: the latest record at their heads. *)
Fixpoint scan_latest (d : Keyspace) (expand_each_collection : bool) (i : nat) (iters : list Peekable)
    (latest : option (Cursor * nat)) : StorageResult (list Peekable * option (Cursor * nat)) :=
  match iters with
  | [] => Ok ([], latest)
  | iter :: iters =>
      let '(it, iter) := peek_mut d iter in
      match it with
      | Some (Err e) => Err e
      | Some (Ok None) =>
          if expand_each_collection then
            '(iters, latest) ←? scan_latest d expand_each_collection (S i) iters latest; Ok (iter :: iters, latest)
          else Ok (iter :: iters, latest)
      | None =>
          '(iters, latest) ←? scan_latest d expand_each_collection (S i) iters latest; Ok (iter :: iters, latest)
      | Some (Ok (Some rec)) =>
          let latest :=
            match latest with
            | Some (cursor, _) =>
                if (cursor_us cursor <? cursor_us (r_cursor rec))%N then Some (r_cursor rec, i) else latest
            | None => Some (r_cursor rec, i)
            end in
          '(iters, latest) ←? scan_latest d expand_each_collection (S i) iters latest; Ok (iter :: iters, latest)
      end
  end.

(** The [loop]; a turn that goes on takes a record from one of the feeds. *)
Fixpoint merge_records (d : Keyspace) (expand_each_collection : bool) (fuel : nat) (iters : list Peekable)
    (merged : list UFOsRecord) : StorageResult (list UFOsRecord) :=
  match fuel with
  | O => Err (StoragePanic "out of fuel")
  | S fuel =>
      '(iters, latest) ←? scan_latest d expand_each_collection 0 iters None;
      match latest with
      | None => Ok merged
      | Some (_, idx) =>
          match iters !! idx with
          | None => Err (StoragePanic "index out of bounds")
          | Some iter =>
              match peekable_next d iter with
              | (Some (Ok (Some record)), iter) =>
                  merge_records d expand_each_collection fuel (<[idx := iter]> iters) (merged ++ [record])
              | _ => Err (StoragePanic "called `Option::unwrap()` on a `None` value")
              end
          end
      end
  end.

(** Turns that are enough: one per entry of a feed, and one more. *)
Definition merge_fuel (iters : list RecordIterator) : nat := S (sum_list_with (λ it, length (db_iter it)) iters).

Fixpoint new_iterators (d : Keyspace) (collections : list Nsid) (limit : nat) : StorageResult (list RecordIterator) :=
  match collections with
  | [] => Ok []
  | collection :: collections =>
      iter ←? record_iterator_new d collection limit;
      iters ←? new_iterators d collections limit;
      Ok (iter :: iters)
  end.

(** The [HashSet] as the list of its elements, in the order of its iteration. *)
Definition get_records_by_collections (d : Keyspace) (collections : list Nsid) (limit : nat)
    (expand_each_collection : bool) : StorageResult (list UFOsRecord) :=
  match collections with
  | [] => Ok []
  | _ =>
      iters ←? new_iterators d collections limit;
      merge_records d expand_each_collection (merge_fuel iters) (map (mkPeekable None) iters) []
  end.

(** ** Iterators over counts *)

(** An nsid with the closure that reads its counts, as the value it returns. *)
Definition NsidCounter : Type := list (StorageResult (Nsid * StorageResult Counts)).

Definition get_lexi_iter {T} `{DbBytes T} (collection : T → Nsid) (snapshot : Keyspace) (lo hi : Bound) : NsidCounter :=
  map (λ kv : string * string,
    key ←? dec (T := T) kv.1;
    Ok (collection key, dec (T := Counts) kv.2)) (fj_range snapshot ROLLUPS lo hi).

Definition get_lookup_iter {T} `{DbBytes T} (collection : T → Nsid) (snapshot : Keyspace) (lo hi : Bound)
    (get_rollup_key : Nsid → StorageResult string) : NsidCounter :=
  map (λ kv : string * string,
    key ←? dec (T := T) kv.1;
    let nsid := collection key in
    Ok (nsid,
      k ←? get_rollup_key nsid;
      match fj_get snapshot ROLLUPS k with
      | None => Err (StoragePanic "integrity: all-time rank rollup must have corresponding all-time count rollup")
      | Some db_count_bytes => dec (T := Counts) db_count_bytes
      end)) (rev (fj_range snapshot ROLLUPS lo hi)).

Definition get_earliest_hour (rollups : Keyspace) : StorageResult N :=
  p ←? enc (the_static_str : DbStaticStr "hourly_counts");
  match fj_prefix rollups ROLLUPS p with
  | [] => Ok (Trunc.truncate_cursor Trunc.HOUR_IN_MICROS 0)
  | (key_bytes, _) :: _ =>
      key ←? dec (T := HourlyKey) key_bytes;
      Ok (truncated (suffix (prefix key)))
  end.

(** The bounds of a bucket, after an nsid or from its start. *)
Definition lexi_start {K} `{DbBytes K} (k : K) (cursor_nsid : option Nsid) : StorageResult Bound :=
  match cursor_nsid with
  | Some nsid => lift_encoding (after_nsid k nsid)
  | None => lift_encoding (rollup_start k)
  end.

(** One turn of the [for bucket in &buckets]. *)
Definition lexi_iter (snapshot : Keyspace) (cursor_nsid : option Nsid) (bucket : Trunc.CursorBucket) : StorageResult NsidCounter :=
  match bucket with
  | Trunc.Hour t =>
      let k := from_pair (the_static_str : DbStaticStr "hourly_counts") (mkTruncated t : TruncatedCursor Trunc.HOUR_IN_MICROS) in
      lo ←? lexi_start k cursor_nsid;
      hi ←? lift_encoding (rollup_end k);
      Ok (get_lexi_iter (T := HourlyKey) suffix snapshot lo hi)
  | Trunc.Week t =>
      let k := from_pair (the_static_str : DbStaticStr "weekly_counts") (mkTruncated t : TruncatedCursor Trunc.WEEK_IN_MICROS) in
      lo ←? lexi_start k cursor_nsid;
      hi ←? lift_encoding (rollup_end k);
      Ok (get_lexi_iter (T := WeeklyKey) suffix snapshot lo hi)
  | Trunc.AllTime =>
      let k := (the_static_str : DbStaticStr "ever_counts") in
      lo ←? lexi_start k cursor_nsid;
      hi ←? lift_encoding (rollup_end k);
      Ok (get_lexi_iter (T := AllTimeKey) suffix snapshot lo hi)
  end.

Fixpoint collect {A B} (f : A → StorageResult B) (l : list A) : StorageResult (list B) :=
  match l with
  | [] => Ok []
  | a :: l => b ←? f a; bs ←? collect f l; Ok (b :: bs)
  end.

Definition merge_counts (a b : Counts) : StorageResult Counts := lift_encoding (counts_value_merge a b).

(** ** Collections in order of their nsid *)

(** First scan: the lowest nsid at the head of an iterator. *)
Definition lower_nsid (lowest : option Nsid) (iter : NsidCounter) : StorageResult (option Nsid) :=
  match iter with
  | [] => Ok lowest
  | Err e :: _ => Err e
  | Ok (nsid, _) :: _ =>
      Ok (match lowest with
          | Some current => if str_gt (nsid_str nsid) (nsid_str current) then lowest else Some nsid
          | None => Some nsid
          end)
  end.

(** Second scan: merge and advance the iterators that are at the nsid. *)
Definition take_nsid (nsid : Nsid) (st : Counts * list NsidCounter) (iter : NsidCounter)
    : StorageResult (Counts * list NsidCounter) :=
  match iter with
  | Err _ :: _ => Err (StoragePanic "called `Result::unwrap()` on an `Err` value")
  | Ok (n, get_counts) :: rest =>
      if decide (n = nsid) then
        c ←? get_counts;
        merged ←? merge_counts st.1 c;
        Ok (merged, st.2 ++ [rest])
      else Ok (st.1, st.2 ++ [iter])
  | [] => Ok (st.1, st.2 ++ [iter])
  end.

Fixpoint lexi_loop (limit : nat) (iters : list NsidCounter) (out : list NsidCount) (current_nsid : option Nsid)
    : StorageResult (list NsidCount * option Nsid) :=
  match limit with
  | O => Ok (out, current_nsid)
  | S limit =>
      lowest ←? foldl_res lower_nsid None iters;
      match lowest with
      | None => Ok (out, None)
      | Some nsid =>
          '(merged, iters) ←? foldl_res (take_nsid nsid) (counts_default, []) iters;
          lexi_loop limit iters (out ++ [nsid_count nsid merged]) (Some nsid)
      end
  end.

Definition get_lexi_collections (snapshot : Keyspace) (limit : nat) (cursor : option string)
    (buckets : list Trunc.CursorBucket) : StorageResult (list NsidCount * option string) :=
  cursor_nsid ←? dec_opt (T := Nsid) cursor;
  iters ←? collect (lexi_iter snapshot cursor_nsid) buckets;
  '(out, current_nsid) ←? lexi_loop limit iters [] None;
  match current_nsid with
  | None => Ok (out, None)
  | Some nsid => next_cursor ←? enc nsid; Ok (out, Some next_cursor)
  end.

(** ** Collections by rank *)

Definition bucket_rollup (bucket : Trunc.CursorBucket) : Rollup :=
  match bucket with
  | Trunc.Hour t => Hourly (mkTruncated t)
  | Trunc.Week t => Weekly (mkTruncated t)
  | Trunc.AllTime => AllTime
  end.

(** The iterator of a bucket through a rank index with the given literal. *)
Definition ranked_iter (lit : string) {MOD} (snapshot : Keyspace) (t : TruncatedCursor MOD) (bucket : Trunc.CursorBucket)
    : StorageResult NsidCounter :=
  lo ←? lift_encoding (ranked_start (P := lit) t);
  hi ←? lift_encoding (ranked_end (P := lit) t);
  Ok (get_lookup_iter (T := RankedKey lit MOD) ranked_collection snapshot lo hi (rollup_key (bucket_rollup bucket))).

Definition all_time_ranked_iter (lit : string) (snapshot : Keyspace) : StorageResult NsidCounter :=
  lo ←? lift_encoding (rollup_start (the_static_str : DbStaticStr lit));
  hi ←? lift_encoding (rollup_end (the_static_str : DbStaticStr lit));
  Ok (get_lookup_iter (T := AllTimeRankedKey lit) (λ k, suffix (suffix k)) snapshot lo hi (rollup_key AllTime)).

Definition ordered_iter (snapshot : Keyspace) (order : OrderCollectionsBy) (bucket : Trunc.CursorBucket) : StorageResult NsidCounter :=
  match order, bucket with
  | RecordsCreated, Trunc.Hour t => ranked_iter "hourly_rank_records" snapshot (mkTruncated t : HourTruncatedCursor) bucket
  | DidsEstimate, Trunc.Hour t => ranked_iter "hourly_rank_dids" snapshot (mkTruncated t : HourTruncatedCursor) bucket
  | RecordsCreated, Trunc.Week t => ranked_iter "weekly_rank_records" snapshot (mkTruncated t : WeekTruncatedCursor) bucket
  | DidsEstimate, Trunc.Week t => ranked_iter "weekly_rank_dids" snapshot (mkTruncated t : WeekTruncatedCursor) bucket
  | RecordsCreated, Trunc.AllTime => all_time_ranked_iter "ever_rank_records" snapshot
  | DidsEstimate, Trunc.AllTime => all_time_ranked_iter "ever_rank_dids" snapshot
  | Lexi _, _ => Err (StoragePanic "internal error: entered unreachable code")
  end.

(** [ranked.entry(nsid).or_default().merge(&counts)]. *)
Definition rank_pair (ranked : gmap string Counts) (pair : StorageResult (Nsid * StorageResult Counts))
    : StorageResult (gmap string Counts) :=
  '(nsid, get_counts) ←? pair;
  c ←? get_counts;
  merged ←? merge_counts (default counts_default (ranked !! nsid_str nsid)) c;
  Ok (<[nsid_str nsid := merged]> ranked).

Definition rank_iter (limit : nat) (ranked : gmap string Counts) (iter : NsidCounter) : StorageResult (gmap string Counts) :=
  foldl_res rank_pair ranked (take (overfetch limit) iter).

Definition sort_key (order : OrderCollectionsBy) : StorageResult (Counts → N) :=
  match order with
  | RecordsCreated => Ok (λ c, creates (counts c))
  | DidsEstimate => Ok (λ c, sketch_estimate (dids c))
  | Lexi _ => Err (StoragePanic "internal error: entered unreachable code")
  end.

(** The [HashMap] is collected in the order of the model. *)
Definition get_ordered_collections (snapshot : Keyspace) (limit : nat) (order : OrderCollectionsBy)
    (buckets : list Trunc.CursorBucket) : StorageResult (list NsidCount) :=
  iters ←? collect (ordered_iter snapshot order) buckets;
  ranked ←? foldl_res (rank_iter limit) ∅ iters;
  key ←? sort_key order;
  let ranked := sort_by_key (λ e : string * Counts, key e.2) (map_to_list ranked) in
  Ok (map (λ e : string * Counts, nsid_count (mkNsid e.1) e.2) (take limit (rev ranked))).

(** The buckets of [get_collections] and [get_prefix]; [now] is the clock. *)
Definition query_buckets (snapshot : Keyspace) (since cur_until : option N) (now : N) : StorageResult (list Trunc.CursorBucket) :=
  match since, cur_until with
  | None, None => Ok [Trunc.AllTime]
  | _, _ =>
      lower ←? get_earliest_hour snapshot;
      let lower := match since with Some specified => if (lower <? specified)%N then specified else lower | None => lower end in
      let upper := default (Trunc.truncate_cursor Trunc.HOUR_IN_MICROS now) cur_until in
      lift_encoding (Trunc.buckets_spanning lower upper)
  end.

Definition get_collections (d : Keyspace) (limit : nat) (order : OrderCollectionsBy) (since cur_until : option N) (now : N)
    : StorageResult (list NsidCount * option string) :=
  buckets ←? query_buckets d since cur_until now;
  match order with
  | Lexi cursor => get_lexi_collections d limit cursor buckets
  | _ => out ←? get_ordered_collections d limit order buckets; Ok (out, None)
  end.

(** ** The children of a prefix *)

Inductive Child : Type :=
  | FullNsid (nsid : Nsid)
  | ChildPrefix (pre : string).

#[global] Instance Child_eq_dec : EqDecision Child.
Proof. solve_decision. Defined.

Definition child_from_prefix (nsid : Nsid) (pre : NsidPrefix) : StorageResult (option Child) :=
  group ←? is_group_of pre nsid;
  if (group : bool) then Ok (Some (FullNsid nsid))
  else
    match strip_prefix (prefix_str pre +:+ ".") (nsid_str nsid) with
    | None => Ok None
    | Some sub =>
        match split_once "." sub with
        | None => Err (StoragePanic "called `Option::unwrap()` on a `None` value")
        | Some (segment, _) => Ok (Some (ChildPrefix (prefix_str pre +:+ "." +:+ segment)))
        end
    end.

Definition is_before (self other : Child) : bool :=
  match self, other with
  | FullNsid s, ChildPrefix o => if decide (nsid_str s = o) then true else str_lt (nsid_str s) o
  | ChildPrefix s, FullNsid o => if decide (s = nsid_str o) then false else str_lt s (nsid_str o)
  | FullNsid s, FullNsid o => str_lt (nsid_str s) (nsid_str o)
  | ChildPrefix s, ChildPrefix o => str_lt s o
  end.

Definition into_inner (self : Child) : string :=
  match self with FullNsid s => nsid_str s | ChildPrefix s => s end.

Definition ChildCounter : Type := list (StorageResult (Child * StorageResult Counts)).

(** The [map] over an iterator; a panic in it surfaces at its entry. *)
Definition to_children (pre : NsidPrefix) (iter : NsidCounter) : ChildCounter :=
  map (λ item : StorageResult (Nsid * StorageResult Counts),
    '(nsid, v) ←? item;
    child ←? child_from_prefix nsid pre;
    match child with
    | Some child => Ok (child, v)
    | None => Err (StoragePanic "failed from_prefix (bad iter bounds?)")
    end) iter.

(** The bounds of a bucket, after the cursor or at the start of the prefix. *)
Definition prefix_bounds {K} `{DbBytes K} (k : K) (cursor_child : option string) (prefix_sub : string)
    : StorageResult (Bound * Bound) :=
  lo ←? lift_encoding (after_nsid_prefix k (default prefix_sub cursor_child));
  hi ←? lift_encoding (nsid_prefix_end k prefix_sub);
  Ok (lo, hi).

Definition prefix_iter (snapshot : Keyspace) (cursor_child : option string) (prefix_sub : string)
    (bucket : Trunc.CursorBucket) : StorageResult NsidCounter :=
  match bucket with
  | Trunc.Hour t =>
      '(lo, hi) ←? prefix_bounds (from_pair (the_static_str : DbStaticStr "hourly_counts")
        (mkTruncated t : TruncatedCursor Trunc.HOUR_IN_MICROS)) cursor_child prefix_sub;
      Ok (get_lexi_iter (T := HourlyKey) suffix snapshot lo hi)
  | Trunc.Week t =>
      '(lo, hi) ←? prefix_bounds (from_pair (the_static_str : DbStaticStr "weekly_counts")
        (mkTruncated t : TruncatedCursor Trunc.WEEK_IN_MICROS)) cursor_child prefix_sub;
      Ok (get_lexi_iter (T := WeeklyKey) suffix snapshot lo hi)
  | Trunc.AllTime =>
      '(lo, hi) ←? prefix_bounds (the_static_str : DbStaticStr "ever_counts") cursor_child prefix_sub;
      Ok (get_lexi_iter (T := AllTimeKey) suffix snapshot lo hi)
  end.

Definition lower_child (lowest : option Child) (iter : ChildCounter) : StorageResult (option Child) :=
  match iter with
  | [] => Ok lowest
  | Err e :: _ => Err e
  | Ok (child, _) :: _ =>
      Ok (match lowest with
          | Some current => if is_before current child then lowest else Some child
          | None => Some child
          end)
  end.

(** The [while let] on one iterator: [(prefix_count, merged)] and the rest. *)
Fixpoint take_while_child (child : Child) (counts2 : Counts * Counts) (iter : ChildCounter)
    : StorageResult (Counts * Counts * ChildCounter) :=
  match iter with
  | [] => Ok (counts2, iter)
  | Err _ :: _ => Err (StoragePanic "called `Result::unwrap()` on an `Err` value")
  | Ok (ch, get_counts) :: rest =>
      if decide (ch = child) then
        c ←? get_counts;
        total ←? merge_counts counts2.1 c;
        merged ←? merge_counts counts2.2 c;
        take_while_child child (total, merged) rest
      else Ok (counts2, iter)
  end.

Definition take_child (child : Child) (st : Counts * Counts * list ChildCounter) (iter : ChildCounter)
    : StorageResult (Counts * Counts * list ChildCounter) :=
  '(counts2, rest) ←? take_while_child child st.1 iter;
  Ok (counts2, st.2 ++ [rest]).

Definition prefix_child (child : Child) (merged : Counts) : PrefixChild :=
  match child with
  | FullNsid nsid => Collection (nsid_count nsid merged)
  | ChildPrefix pre => Prefix (prefix_count pre merged)
  end.

Fixpoint prefix_loop (limit : nat) (iters : list ChildCounter) (total : Counts) (items : list PrefixChild)
    (current_child : option Child) : StorageResult (Counts * list PrefixChild * option Child) :=
  match limit with
  | O => Ok (total, items, current_child)
  | S limit =>
      lowest ←? foldl_res lower_child None iters;
      match lowest with
      | None => Ok (total, items, None)
      | Some child =>
          '(total, merged, iters) ←? foldl_res (take_child child) (total, counts_default, []) iters;
          prefix_loop limit iters total (items ++ [prefix_child child merged]) (Some child)
      end
  end.

Definition get_lexi_prefix (snapshot : Keyspace) (pre : NsidPrefix) (limit : nat) (cursor : option string)
    (buckets : list Trunc.CursorBucket) : StorageResult (JustCount * list PrefixChild * option string) :=
  prefix_sub ←? lift_encoding (sub_prefix (terminated pre));
  cursor_child ←? match cursor with
    | None => Ok None
    | Some encoded_bytes =>
        decoded ←? dec (T := string) encoded_bytes;
        as_sub_prefix_with_null ←? enc decoded;
        Ok (Some as_sub_prefix_with_null)
    end;
  iters ←? collect (prefix_iter snapshot cursor_child prefix_sub) buckets;
  '(total, items, current_child) ←? prefix_loop limit (map (to_children pre) iters) counts_default [] None;
  match current_child with
  | None => Ok (just_count_from total, items, None)
  | Some child => next_cursor ←? enc (into_inner child); Ok (just_count_from total, items, Some next_cursor)
  end.

Definition get_prefix (d : Keyspace) (pre : NsidPrefix) (limit : nat) (order : OrderCollectionsBy)
    (since cur_until : option N) (now : N) : StorageResult (JustCount * list PrefixChild * option string) :=
  buckets ←? query_buckets d since cur_until now;
  match order with
  | Lexi cursor => get_lexi_prefix d pre limit cursor buckets
  | _ => Err (StoragePanic "not yet implemented")
  end.

(** ** Counts over time *)

(** [snapshot.get(key)?.as_deref().map(db_complete).transpose()?.unwrap_or_default()]. *)
Definition counts_or_default (snapshot : Keyspace) (key : string) : StorageResult Counts :=
  o ←? dec_opt (T := Counts) (fj_get snapshot ROLLUPS key);
  Ok (default counts_default o).

Definition hour_counts (snapshot : Keyspace) (collections : list Nsid) (hour : N) : StorageResult (N * list Counts) :=
  cs ←? collect (λ nsid, k ←? rollup_key (Hourly (mkTruncated hour)) nsid; counts_or_default snapshot k) collections;
  Ok (hour, cs).

(** [slice.chunks(n)] panics on 0. *)
Fixpoint chunks_aux {A} (fuel n : nat) (l : list A) : list (list A) :=
  match fuel, l with
  | S fuel, _ :: _ => take n l :: chunks_aux fuel n (drop n l)
  | _, _ => []
  end.
Definition chunks {A} (n : nat) (l : list A) : StorageResult (list (list A)) :=
  if decide (n = 0) then Err (StoragePanic "chunk size must be non-zero") else Ok (chunks_aux (length l) n l).

(** [c.merge(&counts[i])] over a chunk. *)
Definition chunk_counts (i : nat) (chunk : list (N * list Counts)) : StorageResult Counts :=
  foldl_res (λ c hc, match hc.2 !! i with
    | Some counts => merge_counts c counts
    | None => Err (StoragePanic "index out of bounds")
    end) counts_default chunk.

Abbreviation CollectionSerieses := (gmap string (list Counts)).

(** One chunk: push to the series of every collection. *)
Fixpoint push_chunk (i : nat) (collections : list Nsid) (chunk : list (N * list Counts)) (series : CollectionSerieses)
    : StorageResult CollectionSerieses :=
  match collections with
  | [] => Ok series
  | collection :: collections =>
      c ←? chunk_counts i chunk;
      match series !! nsid_str collection with
      | None => Err (StoragePanic "output series is initialized with all collections")
      | Some s => push_chunk (S i) collections chunk (<[nsid_str collection := s ++ [c]]> series)
      end
  end.

Definition output_chunk (collections : list Nsid) (st : list N * CollectionSerieses) (chunk : list (N * list Counts))
    : StorageResult (list N * CollectionSerieses) :=
  match chunk with
  | [] => Err (StoragePanic "index out of bounds")
  | (hour, _) :: _ =>
      series ←? push_chunk 0 collections chunk st.2;
      Ok (st.1 ++ [hour], series)
  end.

Definition empty_series (collections : list Nsid) : CollectionSerieses :=
  list_to_map (map (λ c, (nsid_str c, [])) collections).

(** [step] is in seconds. *)
Definition get_timeseries (snapshot : Keyspace) (collections : list Nsid) (since : N) (cur_until : option N) (step now : N)
    : StorageResult (list N * CollectionSerieses) :=
  if (Trunc.WEEK_IN_MICROS <? step)%N then Err (StoragePanic "week-stepping is todo")
  else
    let cur_until := default (Trunc.truncate_cursor Trunc.HOUR_IN_MICROS now) cur_until in
    if (cur_until <? since)%N then Ok ([], empty_series collections)
    else
      let n_hours := ((cur_until - since) / Trunc.HOUR_IN_MICROS)%N in
      hours ←? collect (λ i, lift_encoding (Trunc.nth_next Trunc.HOUR_IN_MICROS since (N.of_nat i))) (seq 0 (N.to_nat n_hours));
      counts_by_hour ←? collect (hour_counts snapshot collections) hours;
      let step_hours := (step / (Trunc.HOUR_IN_MICROS / 1000000))%N in
      cs ←? chunks (N.to_nat step_hours) counts_by_hour;
      foldl_res (output_chunk collections) ([], empty_series collections) cs.

Definition bucket_counts (rollups : Keyspace) (collection : Nsid) (total : Counts) (bucket : Trunc.CursorBucket) : StorageResult Counts :=
  key ←? match bucket with
    | Trunc.Hour _ | Trunc.Week _ => rollup_key (bucket_rollup bucket) collection
    | Trunc.AllTime => Err (StoragePanic "internal error: entered unreachable code")
    end;
  count ←? counts_or_default rollups key;
  merge_counts total count.

Definition get_collection_counts (d : Keyspace) (collection : Nsid) (since : N) (cur_until : option N) (now : N) : StorageResult JustCount :=
  let cur_until := default (Trunc.truncate_cursor Trunc.HOUR_IN_MICROS now) cur_until in
  buckets ←? lift_encoding (Trunc.buckets_spanning since cur_until);
  total_counts ←? foldl_res (bucket_counts d collection) counts_default buckets;
  Ok (just_count_from total_counts).

(** ** Search *)

Definition SEARCH_LIMIT : nat := 16.

Definition search_entry (terms : list string) (kv : string * string) : StorageResult (option NsidCount) :=
  key ←? dec (T := AllTimeKey) kv.1;
  let nsid := (suffix key : Nsid) in
  if existsb (λ term, contains_str term (nsid_str nsid)) terms then
    counts ←? dec (T := Counts) kv.2;
    Ok (Some (nsid_count nsid counts))
  else Ok None.

Fixpoint search_loop (terms : list string) (kvs : list (string * string)) (matches : list NsidCount)
    : StorageResult (list NsidCount) :=
  match kvs with
  | [] => Ok matches
  | kv :: kvs =>
      o ←? search_entry terms kv;
      let matches := match o with Some m => matches ++ [m] | None => matches end in
      if decide (SEARCH_LIMIT ≤ length matches) then Ok matches else search_loop terms kvs matches
  end.

Definition search_collections (d : Keyspace) (terms : list string) : StorageResult (list NsidCount) :=
  lo ←? lift_encoding (rollup_start (the_static_str : DbStaticStr "ever_counts"));
  hi ←? lift_encoding (rollup_end (the_static_str : DbStaticStr "ever_counts"));
  search_loop terms (fj_range d ROLLUPS lo hi) [].

End Reader.
End Reader.
