(* ===== verification/UfosCounts.v ===== *)
(** * ufos: counts over time

    The queries that add up rollups.  A store in service is one that was
    started and then took batches, rollup steps, trims, restarts and rerolls in
    any order.  In such a
    store the weekly rollup of a collection is the sum of its hourly ones, so
    that [get_collection_counts], which uses whole weeks where they fit, and
    [get_timeseries], which reads hours, agree; and no sum over hours exceeds
    64 bits. *)

From S2P Require Import Prelude RustStr Bytes UfosCursor UfosDbTypes.
From S2P Require Import UfosStoreTypes UfosBatch UfosFjallApi UfosStorage UfosRollup.
From S2P Require Import UfosBackground UfosInsert UfosInit UfosUpkeep UfosReader.
Import Db Store Batch FjallStore Background Insert Init Upkeep Reader.

Module Counting.

(** ** Sums over hours *)

Definition HOUR : N := Trunc.HOUR_IN_MICROS.
Definition WEEK : N := Trunc.WEEK_IN_MICROS.

Definition hours_from (lo : N) (n : nat) : list N := map (λ i, (lo + N.of_nat i * HOUR)%N) (seq 0 n).

(** The sum of [f] over [n] hours from [lo]. *)
Definition hours_sum (f : Rollup → CommitCounts) (lo : N) (n : nat) : CommitCounts :=
  sum_counts (map (λ h, f (Hourly (mkTruncated h))) (hours_from lo n)).

Lemma hours_from_app lo n m : hours_from lo (n + m) = hours_from lo n ++ hours_from (lo + N.of_nat n * HOUR) m.
Proof.
  unfold hours_from. rewrite seq_app, map_app. f_equal. cbn [Nat.add]. rewrite <- (Nat.add_0_r n) at 1.
  rewrite <- fmap_add_seq, map_map. apply map_ext. intros i. lia.
Qed.

Lemma hours_sum_app f lo n m :
  hours_sum f lo (n + m) = add_counts (hours_sum f lo n) (hours_sum f (lo + N.of_nat n * HOUR) m).
Proof. unfold hours_sum. by rewrite hours_from_app, map_app, sum_counts_app. Qed.

Lemma hours_sum_one f lo : hours_sum f lo 1 = f (Hourly (mkTruncated lo)).
Proof. unfold hours_sum, hours_from. simpl. rewrite N.add_0_r. apply add_counts_0_r. Qed.

Lemma hours_sum_S f lo n :
  hours_sum f lo (S n) = add_counts (hours_sum f lo n) (f (Hourly (mkTruncated (lo + N.of_nat n * HOUR)))).
Proof.
  rewrite <- Nat.add_1_r, hours_sum_app. f_equal. apply hours_sum_one.
Qed.

Lemma hours_sum_add f g lo n :
  hours_sum (λ r, add_counts (f r) (g r)) lo n = add_counts (hours_sum f lo n) (hours_sum g lo n).
Proof.
  induction n as [|n IH]; [done|]. rewrite !hours_sum_S, IH.
  unfold add_counts. cbn [creates updates deletes]. f_equal; lia.
Qed.

Lemma hours_sum_ext f g lo n :
  (∀ i, i < n → f (Hourly (mkTruncated (lo + N.of_nat i * HOUR))) = g (Hourly (mkTruncated (lo + N.of_nat i * HOUR)))) →
  hours_sum f lo n = hours_sum g lo n.
Proof.
  induction n as [|n IH]; intros E; [done|]. rewrite !hours_sum_S, E by lia. f_equal. apply IH. intros. apply E. lia.
Qed.

Lemma hours_sum_zero lo n : hours_sum (λ _, zero_counts) lo n = zero_counts.
Proof. induction n as [|n IH]; [done|]. by rewrite hours_sum_S, IH. Qed.

Lemma hours_sum_le f g lo n :
  (∀ r, counts_le (f r) (g r)) → counts_le (hours_sum f lo n) (hours_sum g lo n).
Proof.
  intros E. induction n as [|n IH]; [apply counts_le_refl|]. rewrite !hours_sum_S. by apply counts_le_add.
Qed.

Lemma add_counts_cancel a b c d : add_counts a b = add_counts c d → b = d → a = c.
Proof. destruct a, b, c, d. unfold add_counts. simpl. intros [= ? ? ?] [= -> -> ->]. f_equal; lia. Qed.

(** ** One cursor *)

#[local] Ltac Zify.zify_post_hook ::= Z.to_euclidean_division_equations.

Lemma in_hour (h : HourTruncatedCursor) c :
  in_bucket (Hourly h) c ↔ truncated h = Trunc.truncate_cursor HOUR (cursor_us c).
Proof.
  unfold in_bucket, hour_of. rewrite !elem_of_cons, elem_of_nil. destruct h as [h]. simpl. split.
  - intros [[= ->]|[?|[?|?]]]; done.
  - intros ->. by left.
Qed.
Lemma in_week (w : WeekTruncatedCursor) c :
  in_bucket (Weekly w) c ↔ truncated w = Trunc.truncate_cursor WEEK (cursor_us c).
Proof.
  unfold in_bucket, week_of. rewrite !elem_of_cons, elem_of_nil. destruct w as [w]. simpl. split.
  - intros [?|[[= ->]|[?|?]]]; done.
  - intros ->. right. by left.
Qed.

(** Of the hours of a span, a cursor is in one or in none. *)
Lemma hours_of_cursor lo n c x :
  (lo mod HOUR = 0)%N →
  hours_sum (λ r, if decide (in_bucket r c) then x else zero_counts) lo n =
  if decide (lo ≤ cursor_us c < lo + N.of_nat n * HOUR)%N then x else zero_counts.
Proof.
  intros Hlo. assert (HH : HOUR = 3600000000%N) by reflexivity.
  induction n as [|n IH]; [by rewrite decide_False by lia|]. rewrite hours_sum_S, IH.
  assert (Hin : in_bucket (Hourly (mkTruncated (lo + N.of_nat n * HOUR)%N)) c ↔
    (lo + N.of_nat n * HOUR ≤ cursor_us c < lo + N.of_nat (S n) * HOUR)%N).
  { rewrite in_hour. simpl truncated. unfold Trunc.truncate_cursor, Trunc.truncate. rewrite HH in *. lia. }
  destruct (decide (in_bucket (Hourly (mkTruncated (lo + N.of_nat n * HOUR)%N)) c)) as [Hi|Hi]; rewrite Hin in Hi.
  - rewrite decide_False by (rewrite HH in *; lia). rewrite decide_True by (rewrite HH in *; lia). apply add_counts_0_l.
  - rewrite add_counts_0_r. apply if_decide_iff. rewrite HH in *; lia.
Qed.

(** The hours of a week hold what the week holds. *)
Lemma week_of_cursor (w : WeekTruncatedCursor) c x :
  wf w →
  hours_sum (λ r, if decide (in_bucket r c) then x else zero_counts) (truncated w) 168 =
  if decide (in_bucket (Weekly w) c) then x else zero_counts.
Proof.
  intros [Hw _]. assert (HH : HOUR = 3600000000%N) by reflexivity. assert (HW : WEEK = 604800000000%N) by reflexivity.
  assert (Hm : (truncated w mod 604800000000 = 0)%N) by exact Hw. clear Hw.
  rewrite hours_of_cursor by (rewrite HH; lia). apply if_decide_iff.
  rewrite in_week. unfold Trunc.truncate_cursor, Trunc.truncate. rewrite HH, HW. lia.
Qed.

Section Counting.
Context `{FL : FjallLaws} `{LL : LsmTreeLaws} `{AL : AtriumLaws} `{BL : BincodeStrLaws}.
Context `{SketchOps, AtriumNsid, RawValueJson}.
Context `{Bincode2 CommitCounts, Bincode2 RecordLocationMeta, Bincode2 Sketch, Bincode2 SketchSecretPrefix}.
Context `{!Bincode2Laws CommitCounts, !Bincode2Laws RecordLocationMeta, !Bincode2Laws Sketch, !Bincode2Laws SketchSecretPrefix}.

Abbreviation Counts := (DbConcat CommitCounts Sketch).
Abbreviation LiveKey := (DbConcat (DbConcat (DbStaticStr "live_counts") Cursor) Nsid).

(** ** The live counts *)

(** What an entry adds to a bucket depends only on its cursor. *)
Lemma live_at_cursor n kv : ∃ x c, ∀ r,
  sum_counts (option_list (live_at n r kv)) = if decide (in_bucket r c) then x else zero_counts.
Proof.
  unfold live_at. destruct (dec (T := LiveKey) kv.1) as [key|e]; [|exists zero_counts, (mkCursor 0); intros r; by case_decide].
  destruct (dec (T := Counts) kv.2) as [v|e]; [|exists zero_counts, (mkCursor 0); intros r; by case_decide].
  exists (if decide (nsid_str (live_counts_collection key) = n) then counts v else zero_counts), (live_counts_cursor key).
  intros r. destruct (decide (nsid_str (live_counts_collection key) = n)), (decide (in_bucket r (live_counts_cursor key))).
  - rewrite decide_True by done. simpl. apply add_counts_0_r.
  - by rewrite decide_False by tauto.
  - by rewrite decide_False by tauto.
  - by rewrite decide_False by tauto.
Qed.

Lemma live_sum_split n r kv l :
  live_sum n r (kv :: l) = add_counts (sum_counts (option_list (live_at n r kv))) (live_sum n r l).
Proof. unfold live_sum. simpl. destruct (live_at n r kv) as [x|]; simpl; [by rewrite add_counts_0_r|by rewrite add_counts_0_l]. Qed.

Lemma live_weeks n (w : WeekTruncatedCursor) l :
  wf w → live_sum n (Weekly w) l = hours_sum (λ r, live_sum n r l) (truncated w) 168.
Proof.
  intros Hw. induction l as [|kv l IH]; [symmetry; apply hours_sum_zero|].
  destruct (live_at_cursor n kv) as (x & c & Hx). rewrite live_sum_split, Hx, IH.
  rewrite <- (week_of_cursor w c x Hw), <- hours_sum_add. apply hours_sum_ext. intros i _. by rewrite live_sum_split, Hx.
Qed.

(** ** Stores in service *)

(** Started on a fresh store that satisfies [start], then batches, rollup steps,
    trims of collections, restarts and starts of the background task, with or
    without a reroll, in any order. *)
Inductive service_from (start : Keyspace → Prop) : Keyspace → Prop :=
  | service_start d ep force secret now d' : start d → fresh d → wf secret → wf now →
      init d ep force (Some secret) now = Ok (d', None, secret) → service_from start d'
  | service_insert d b latest d' : service_from start d → batch_wf b → latest_cursor b = Some latest →
      (∀ (nsid : Nsid) k, is_Some (commits_by_nsid b !! nsid_str nsid) →
         to_db_bytes (live_counts_key latest nsid : LiveKey) = Ok k → fj_get d ROLLUPS k = None) →
      (∀ (nsid : Nsid) r, wf nsid → rollup_wf r →
         wf (add_counts (inserted b latest (nsid_str nsid) r) (total d (nsid_str nsid) r))) →
      insert_batch d b = Ok d' → service_from start d'
  | service_rollup d d' n dirty : service_from start d → step_rollup d = Ok (d', n, dirty) → service_from start d'
  | service_trim d collection limit full_scan d' r : service_from start d →
      trim_collection d collection limit full_scan = Ok (d', r) → service_from start d'
  | service_restart d ep force random now d' cursor secret : service_from start d →
      init d ep force random now = Ok (d', cursor, secret) → service_from start d'
  | service_background d reroll d' : service_from start d →
      background_tasks false d reroll = Ok (true, d') → service_from start d'.

Definition in_service : Keyspace → Prop := service_from (λ _, True).

Lemma service_weaken (P Q : Keyspace → Prop) d : (∀ d, P d → Q d) → service_from P d → service_from Q d.
Proof.
  intros HPQ. induction 1; [by eapply service_start; eauto|by eapply service_insert; eauto|by eapply service_rollup; eauto|..].
  - by eapply service_trim; eauto.
  - by eapply service_restart; eauto.
  - by eapply service_background; eauto.
Qed.

(** Every hour of the span is one the store can hold. *)
Definition span_ok (lo : N) (n : nat) : Prop := (lo mod HOUR = 0)%N ∧ (lo + N.of_nat n * HOUR ≤ u64_bound)%N.
Definition week_ok (w : WeekTruncatedCursor) : Prop := wf w ∧ (truncated w + WEEK ≤ u64_bound)%N.

(** What the totals satisfy. *)
Record agrees (f : string → Rollup → CommitCounts) : Prop := {
  ag_weeks (nsid : Nsid) (w : WeekTruncatedCursor) : wf nsid → week_ok w →
    f (nsid_str nsid) (Weekly w) = hours_sum (f (nsid_str nsid)) (truncated w) 168;
  ag_all (nsid : Nsid) lo n : wf nsid → span_ok lo n →
    counts_le (hours_sum (f (nsid_str nsid)) lo n) (f (nsid_str nsid) AllTime)
}.

Lemma span_hour lo n i : span_ok lo n → i < n → rollup_wf (Hourly (mkTruncated (lo + N.of_nat i * HOUR)%N)).
Proof.
  intros [Hm Hb] Hi. assert (HH : HOUR = 3600000000%N) by reflexivity.
  assert (HB : u64_bound = 18446744073709551616%N) by reflexivity. split; simpl; fold HOUR; rewrite HH, ?HB in *; lia.
Qed.

Lemma week_span (w : WeekTruncatedCursor) : week_ok w → span_ok (truncated w) 168.
Proof.
  intros [[Hm Hb] Hu]. assert (HH : HOUR = 3600000000%N) by reflexivity. assert (HW : WEEK = 604800000000%N) by reflexivity.
  assert (Hm' : (truncated w mod 604800000000 = 0)%N) by exact Hm. clear Hm. rewrite HW in Hu. split; rewrite HH; lia.
Qed.

(** Only the buckets that can be written matter. *)
Lemma agrees_ext f g :
  (∀ (nsid : Nsid) r, wf nsid → rollup_wf r → g (nsid_str nsid) r = f (nsid_str nsid) r) → agrees f → agrees g.
Proof.
  intros E [Hw Ha].
  assert (Hs : ∀ nsid lo n, wf nsid → span_ok lo n → hours_sum (g (nsid_str nsid)) lo n = hours_sum (f (nsid_str nsid)) lo n).
  { intros nsid lo n Hn Hs. apply hours_sum_ext. intros i Hi. apply E; [done|]. by eapply span_hour. }
  split.
  - intros nsid w Hn Hok. rewrite Hs by (done || by apply week_span). rewrite E by (done || apply Hok). by apply Hw.
  - intros nsid lo n Hn Hok. rewrite Hs by done. rewrite E by done. by apply Ha.
Qed.

Lemma agrees_add f g : agrees f → agrees g → agrees (λ n r, add_counts (f n r) (g n r)).
Proof.
  intros [Hw1 Ha1] [Hw2 Ha2]. split.
  - intros nsid w Hn Hok. rewrite hours_sum_add. by rewrite Hw1, Hw2.
  - intros nsid lo n Hn Hok. rewrite hours_sum_add. apply counts_le_add; auto.
Qed.

(** Something counted at one cursor. *)
Lemma agrees_at (x : string → CommitCounts) c :
  agrees (λ n r, if decide (in_bucket r c) then x n else zero_counts).
Proof.
  split.
  - intros nsid w Hn [Hok _]. by rewrite week_of_cursor.
  - intros nsid lo n Hn [Hm _]. rewrite hours_of_cursor by done. rewrite (decide_True (P := in_bucket AllTime c)).
    + case_decide; unfold counts_le; simpl; lia.
    + unfold in_bucket. rewrite !elem_of_cons. auto.
Qed.

Lemma upkeep_agrees d d' : upkeep d d' → rollup_inv d ∧ agrees (total d) → rollup_inv d' ∧ agrees (total d').
Proof.
  intros Hu [Hinv Hag]. destruct (upkeep_inv d d' Hu Hinv) as [Hinv' Ht]. split; [done|].
  eapply agrees_ext; [|exact Hag]. intros nsid r _ _. apply Ht.
Qed.

Lemma service_agrees d : in_service d → rollup_inv d ∧ agrees (total d).
Proof.
  induction 1 as [d ep force secret now d' _ Hf Hs Hnow Hi|d b latest d' _ [Hinv Hag] Hwf Hlat Hfresh Hfits Hi|d d' n dirty _ [Hinv Hag] Hr
    |d col limit full d' x _ IH Ht|d ep force random now d' c secret _ IH Hi|d reroll d' _ IH Hb].
  - destruct (init_first d ep force secret now Hf Hs Hnow) as (d1 & Hi' & Hst). rewrite Hi in Hi'. injection Hi' as <-.
    split; [by apply (started_inv d' ep secret)|]. apply (agrees_ext (λ n r, if decide (in_bucket r (mkCursor 0)) then zero_counts else zero_counts)).
    + intros nsid r _ _. rewrite (started_total _ _ _ _ _ Hst). by case_decide.
    + apply (agrees_at (λ _, zero_counts)).
  - destruct (insert_batch_good d b latest Hinv Hwf Hlat Hfresh Hfits) as (d1 & Hi' & Hinv' & Htot & _).
    rewrite Hi in Hi'. injection Hi' as <-. split; [done|].
    apply (agrees_ext (λ n r, add_counts (inserted b latest n r) (total d n r))); [exact Htot|]. apply agrees_add; [|done].
    apply (agrees_ext (λ n r, if decide (in_bucket r latest) then inserted b latest n AllTime else zero_counts)).
    + intros nsid r _ _. unfold inserted. destruct (commits_by_nsid b !! nsid_str nsid); [|by case_decide].
      rewrite (decide_True (P := in_bucket AllTime latest)); [done|]. unfold in_bucket. rewrite !elem_of_cons. auto.
    + apply (agrees_at (λ n, inserted b latest n AllTime)).
  - destruct (step_rollup_good d Hinv) as (d1 & k & dirty1 & Hr' & [Hinv' Htot] & _). rewrite Hr in Hr'. injection Hr' as <- <- <-.
    split; [done|]. by eapply agrees_ext.
  - by eapply upkeep_agrees, IH; eapply trim_upkeep.
  - by eapply upkeep_agrees, IH; eapply init_upkeep.
  - by eapply upkeep_agrees, IH; eapply background_tasks_upkeep.
Qed.

(** The rollups alone. *)
Lemma rolled_weeks d (nsid : Nsid) (w : WeekTruncatedCursor) :
  agrees (total d) → wf nsid → week_ok w →
  rolled_up d (nsid_str nsid) (Weekly w) = hours_sum (rolled_up d (nsid_str nsid)) (truncated w) 168.
Proof.
  intros [Hw _] Hn Hok. specialize (Hw nsid w Hn Hok). unfold total in Hw. rewrite hours_sum_add in Hw.
  eapply add_counts_cancel; [exact Hw|]. apply live_weeks, Hok.
Qed.

Lemma rolled_fits d (nsid : Nsid) lo n :
  rollup_inv d → agrees (total d) → wf nsid → span_ok lo n → wf (hours_sum (rolled_up d (nsid_str nsid)) lo n).
Proof.
  intros Hinv [_ Ha] Hn Hs. eapply counts_le_wf; [|by apply (ri_fits d Hinv nsid AllTime Hn)].
  eapply counts_le_trans; [|by apply Ha]. apply hours_sum_le. intros r. apply counts_le_add_l.
Qed.

(** ** Reading buckets *)

(** A bucket as it is read. *)
Lemma read_bucket d (nsid : Nsid) r :
  rollup_inv d → wf nsid → rollup_wf r →
  ∃ c : Counts, (k ←? rollup_key r nsid; counts_or_default d k) = Ok c ∧ counts c = rolled_up d (nsid_str nsid) r.
Proof.
  intros Hinv Hn Hr. destruct (rollup_key_Ok r nsid Hr Hn) as (k & Hk & _). rewrite Hk. cbn [result_bind].
  destruct (rolled_read d nsid r k Hinv Hn Hr Hk) as (o & Ho & Hc). unfold counts_or_default. rewrite Ho. cbn [result_bind]. eauto.
Qed.

Lemma merge_counts_ok (a b : Counts) :
  wf (add_counts (counts a) (counts b)) → ∃ c : Counts, merge_counts a b = Ok c ∧ counts c = add_counts (counts a) (counts b).
Proof.
  intros Hw. unfold merge_counts, counts_value_merge. fold (counts a) (counts b).
  rewrite counts_merge_ok by done. cbn [result_bind lift_encoding]. eauto.
Qed.

(** What a list of buckets holds. *)
Definition buckets_sum (d : Keyspace) (n : string) (bs : list Trunc.CursorBucket) : CommitCounts :=
  sum_counts (map (λ b, rolled_up d n (bucket_rollup b)) bs).

Lemma buckets_sum_cons d n b bs :
  buckets_sum d n (b :: bs) = add_counts (rolled_up d n (bucket_rollup b)) (buckets_sum d n bs).
Proof. done. Qed.

Definition bucket_ok (b : Trunc.CursorBucket) : Prop := b ≠ Trunc.AllTime ∧ rollup_wf (bucket_rollup b).

Lemma bucket_fold d (nsid : Nsid) bs : ∀ acc : Counts,
  rollup_inv d → wf nsid → Forall bucket_ok bs → wf (add_counts (counts acc) (buckets_sum d (nsid_str nsid) bs)) →
  ∃ c : Counts, foldl_res (bucket_counts d nsid) acc bs = Ok c ∧
    counts c = add_counts (counts acc) (buckets_sum d (nsid_str nsid) bs).
Proof.
  induction bs as [|b bs IH]; intros acc Hinv Hn Hbs Hfit.
  { exists acc. split; [done|]. unfold buckets_sum. simpl. by rewrite add_counts_0_r. }
  apply Forall_cons in Hbs as [[Hna Hb] Hbs]. unfold buckets_sum in *. cbn [map sum_counts foldr] in *.
  rewrite add_counts_assoc in Hfit.
  destruct (read_bucket d nsid (bucket_rollup b) Hinv Hn Hb) as (c & Hc & Hcv).
  destruct (merge_counts_ok acc c) as (m & Hm & Hmv).
  { rewrite Hcv. eapply counts_le_wf; [apply counts_le_add_l|exact Hfit]. }
  assert (Hbc : bucket_counts d nsid acc b = Ok m).
  { unfold bucket_counts. destruct b as [h|w|]; [| |done]; apply result_bind_Ok in Hc as (k & -> & Hk); cbn [result_bind];
      rewrite Hk; exact Hm. }
  cbn [foldl_res]. rewrite Hbc. cbn [result_bind]. destruct (IH m Hinv Hn Hbs) as (z & Hz & Hzv).
  { by rewrite Hmv, Hcv. }
  exists z. split; [exact Hz|]. rewrite Hzv, Hmv, Hcv. unfold sum_counts. by rewrite <- !add_counts_assoc.
Qed.

(** Buckets that tile a span hold what its hours hold. *)
Lemma tiles_sum d (nsid : Nsid) since stop bs : ∀ lo,
  agrees (total d) → wf nsid → (lo mod HOUR = 0)%N → (stop < u64_bound)%N →
  Trunc.tiles lo bs stop → Forall (Trunc.bucket_fits since stop) bs →
  (lo ≤ stop)%N ∧ Forall bucket_ok bs ∧
  ∃ n, (lo + N.of_nat n * HOUR)%N = stop ∧ buckets_sum d (nsid_str nsid) bs = hours_sum (rolled_up d (nsid_str nsid)) lo n.
Proof.
  assert (HH : HOUR = 3600000000%N) by reflexivity. assert (HW : WEEK = 604800000000%N) by reflexivity.
  induction bs as [|b bs IH]; intros lo Hag Hn Hlo Hstop Ht Hf.
  { simpl in Ht. subst lo. split; [lia|]. split; [constructor|]. exists 0. split; [lia|done]. }
  destruct Ht as [Hs Ht]. apply Forall_cons in Hf as [Hfit Hf].
  assert (Hlen : Trunc.bucket_len b = HOUR ∨ Trunc.bucket_len b = WEEK) by (destruct b; [by left|by right|done]).
  destruct (IH (lo + Trunc.bucket_len b)%N) as (Hle & Hoks & n & Hn1 & Hsum); try done.
  { destruct Hlen as [-> | ->]; rewrite ?HH, ?HW in *; lia. }
  split; [lia|]. destruct b as [h|w|]; [| |done]; simpl in Hs, Hle, Hn1, Hsum; subst.
  - split.
    { constructor; [|done]. split; [done|]. split; [exact (proj1 Hfit)|]. simpl. lia. }
    exists (S n). split; [fold HOUR; lia|]. change (S n) with (1 + n). rewrite hours_sum_app, hours_sum_one, buckets_sum_cons, Hsum.
    cbn [bucket_rollup]. by do 2 f_equal.
  - assert (Hwk : week_ok (mkTruncated lo)).
    { split; [split; [exact Hfit|]|]; simpl; change Trunc.WEEK_IN_MICROS with WEEK in Hstop; lia. }
    split; [constructor; [|done]; split; [done|]; exact (proj1 Hwk)|].
    exists (168 + n). change Trunc.WEEK_IN_MICROS with WEEK. split; [rewrite HH, HW; lia|]. rewrite hours_sum_app, buckets_sum_cons, Hsum. cbn [bucket_rollup].
    rewrite (rolled_weeks d nsid (mkTruncated lo)) by done. simpl truncated. by do 2 f_equal.
Qed.

Lemma tiles_ok since stop bs : ∀ lo,
  (stop < u64_bound)%N → Trunc.tiles lo bs stop → Forall (Trunc.bucket_fits since stop) bs → (lo ≤ stop)%N ∧ Forall bucket_ok bs.
Proof.
  induction bs as [|b bs IH]; intros lo Hstop Ht Hf; [simpl in Ht; subst; split; [lia|constructor]|].
  destruct Ht as [Hs Ht]. apply Forall_cons in Hf as [Hfit Hf]. destruct (IH _ Hstop Ht Hf) as [Hle Hoks]. split; [lia|].
  constructor; [|done]. destruct b as [h|w|]; [| |done]; simpl in Hs; subst; split; try done; (split; [exact (proj1 Hfit) || exact Hfit|]; simpl; lia).
Qed.

(** A query span in hours. *)
Definition span_hours (since cur_until : N) : nat := N.to_nat ((cur_until - since) / HOUR).

Lemma spanning_sum d (nsid : Nsid) since stop :
  rollup_inv d → agrees (total d) → wf nsid → (since mod HOUR = 0)%N → (stop mod HOUR = 0)%N → (stop < u64_bound)%N →
  ∃ bs, Trunc.buckets_spanning since stop = Ok bs ∧ Forall bucket_ok bs ∧
    buckets_sum d (nsid_str nsid) bs = hours_sum (rolled_up d (nsid_str nsid)) since (span_hours since stop) ∧
    wf (buckets_sum d (nsid_str nsid) bs).
Proof.
  assert (HH : HOUR = 3600000000%N) by reflexivity. intros Hinv Hag Hn Hs Hu Hb.
  destruct (N.le_gt_cases since stop) as [Hle|Hgt].
  - destruct (Trunc.buckets_spanning_ok since stop Hs Hu (conj Hle Hb)) as (bs & Hbs & Ht & Hf).
    destruct (tiles_sum d nsid since stop bs since Hag Hn Hs Hb Ht Hf) as (_ & Hok & n & Hn1 & Hsum).
    assert (span_hours since stop = n) as Hsp by (unfold span_hours; rewrite HH in *; lia).
    exists bs. rewrite Hsp. split_and!; [done|done|done|]. rewrite Hsum. apply rolled_fits; try done. split; [done|lia].
  - exists []. unfold Trunc.buckets_spanning. rewrite (proj2 (N.leb_le _ _)) by lia. split_and!; [done|constructor| |done].
    assert (span_hours since stop = 0) as -> by (unfold span_hours; rewrite HH; lia). done.
Qed.

Lemma collection_counts_ok (d : Keyspace) (nsid : Nsid) (since now : N) (cur_until : option N) :
  in_service d → wf nsid → (since mod HOUR = 0)%N → (now < u64_bound)%N →
  (match cur_until with Some u => u mod HOUR = 0 ∧ u < u64_bound | None => True end)%N →
  let stop := default (Trunc.truncate_cursor HOUR now) cur_until in
  let sum := hours_sum (rolled_up d (nsid_str nsid)) since (span_hours since stop) in
  ∃ estimate, get_collection_counts d nsid since cur_until now =
    Ok (mkJustCount (creates sum) (updates sum) (deletes sum) estimate).
Proof.
  intros Hser Hn Hs Hnow Hu stop sum. destruct (service_agrees d Hser) as [Hinv Hag].
  assert (Hstop : (stop mod HOUR = 0)%N ∧ (stop < u64_bound)%N).
  { assert (HH : HOUR = 3600000000%N) by reflexivity. subst stop. destruct cur_until as [u|]; simpl; [done|].
    unfold Trunc.truncate_cursor, Trunc.truncate. rewrite HH. lia. }
  destruct (spanning_sum d nsid since stop Hinv Hag Hn Hs (proj1 Hstop) (proj2 Hstop)) as (bs & Hbs & Hok & Hsum & Hfit).
  unfold get_collection_counts. change Trunc.HOUR_IN_MICROS with HOUR. fold stop. rewrite Hbs. cbn [lift_encoding result_bind].
  assert (Hz : counts (counts_default : Counts) = zero_counts) by done.
  destruct (bucket_fold d nsid bs counts_default Hinv Hn Hok) as (c & Hc & Hcv).
  { by rewrite Hz, add_counts_0_l. }
  rewrite Hc. cbn [result_bind]. rewrite Hz, add_counts_0_l, Hsum in Hcv. fold sum in Hcv.
  exists (sketch_estimate (dids c)). unfold just_count_from. by rewrite Hcv.
Qed.

(** C17. Counts of a collection over a span: the query answers with the sum of the
    hourly rollups of the span, whatever weekly rollups it used instead of
    hours; it does not panic. *)
Theorem collection_counts_exact (d : Keyspace) (nsid : Nsid) (since now : N) (cur_until : option N) :
  in_service d → wf nsid → (since mod HOUR = 0)%N → (now < u64_bound)%N →
  (match cur_until with Some u => u mod HOUR = 0 ∧ u < u64_bound | None => True end)%N →
  let stop := default (Trunc.truncate_cursor HOUR now) cur_until in
  let sum := hours_sum (rolled_up d (nsid_str nsid)) since (span_hours since stop) in
  ∃ estimate, get_collection_counts d nsid since cur_until now =
    Ok (mkJustCount (creates sum) (updates sum) (deletes sum) estimate).
Proof. apply collection_counts_ok. Qed.

(** A weekly rollup is the sum of the hourly ones, after any service. *)
Theorem weeks_hold_their_hours (d : Keyspace) (nsid : Nsid) (w : WeekTruncatedCursor) :
  in_service d → wf nsid → week_ok w →
  rolled_up d (nsid_str nsid) (Weekly w) = hours_sum (rolled_up d (nsid_str nsid)) (truncated w) 168.
Proof. intros Hser Hn Hw. apply rolled_weeks; [apply (service_agrees d Hser)|done|done]. Qed.

(** ** Series *)

(** The steps of a series: where each starts and how many hours it has. *)
Definition steps (k : nat) (lo : N) (n : nat) : list (N * nat) :=
  map (λ j, ((lo + N.of_nat (j * k) * HOUR)%N, k `min` (n - j * k))) (seq 0 ((n + k - 1) / k)).

Lemma steps_nil k lo : 0 < k → steps k lo 0 = [].
Proof. intros Hk. unfold steps. by rewrite Nat.div_small by lia. Qed.

Lemma steps_cons k lo n :
  0 < k → 0 < n → steps k lo n = (lo, k `min` n) :: steps k (lo + N.of_nat k * HOUR) (n - k).
Proof.
  intros Hk Hn. unfold steps. assert ((n + k - 1) / k = S ((n - k + k - 1) / k)) as ->.
  { destruct (Nat.le_gt_cases n k) as [Hle|Hgt].
    - assert (n - k = 0) as -> by lia. rewrite (Nat.div_small (0 + k - 1)) by lia. symmetry. apply (Nat.div_unique _ _ _ (n - 1)); lia.
    - replace (n + k - 1) with (n - k + k - 1 + 1 * k) by lia. rewrite Nat.div_add by lia. lia. }
  cbn [seq map]. f_equal; [by rewrite Nat.mul_0_l, N.add_0_r, Nat.sub_0_r|].
  rewrite <- seq_shift, map_map. apply map_ext. intros j. f_equal; lia.
Qed.

Lemma steps_sum f k n : ∀ lo, 0 < k → sum_counts (map (λ p, hours_sum f p.1 p.2) (steps k lo n)) = hours_sum f lo n.
Proof.
  induction n as [n IH] using lt_wf_ind. intros lo Hk. destruct (Nat.eq_dec n 0) as [->|Hn]; [by rewrite steps_nil|].
  rewrite steps_cons by lia. cbn [map sum_counts foldr fst snd]. change (foldr add_counts zero_counts) with sum_counts.
  rewrite IH by lia. destruct (Nat.le_gt_cases n k) as [Hle|Hgt].
  - assert (n - k = 0) as -> by lia. rewrite Nat.min_r by lia. apply add_counts_0_r.
  - rewrite Nat.min_l by lia. rewrite <- hours_sum_app. f_equal. lia.
Qed.

Section Series.
Context (d : Keyspace) (collections : list Nsid) (Hinv : rollup_inv d) (Hag : agrees (total d)).
Context (Hwf : Forall wf collections) (Hnd : NoDup (map nsid_str collections)).

(** An entry of [counts_by_hour]. *)
Definition hour_entry (h : N) (e : N * list Counts) : Prop :=
  e.1 = h ∧ Forall2 (λ nsid (c : Counts), counts c = rolled_up d (nsid_str nsid) (Hourly (mkTruncated h))) collections e.2.

Lemma collect_ok {A B} (f : A → StorageResult B) (R : A → B → Prop) l :
  (∀ a, a ∈ l → ∃ b, f a = Ok b ∧ R a b) → ∃ bs, collect f l = Ok bs ∧ Forall2 R l bs.
Proof.
  induction l as [|a l IH]; intros Hf; [by exists []; split; [|constructor]|]. cbn [collect].
  destruct (Hf a) as (b & -> & Hb); [by left|]. cbn [result_bind].
  destruct IH as (bs & -> & Hbs); [intros; apply Hf; by right|]. cbn [result_bind]. exists (b :: bs). split; [done|]. by constructor.
Qed.

Lemma hours_read lo n :
  span_ok lo n → ∃ cbh, collect (hour_counts d collections) (hours_from lo n) = Ok cbh ∧ Forall2 hour_entry (hours_from lo n) cbh.
Proof.
  intros Hs. apply collect_ok. intros h Hin. unfold hours_from in Hin. apply list_elem_of_fmap in Hin as (i & -> & Hi%elem_of_seq).
  destruct (collect_ok (λ nsid, k ←? rollup_key (Hourly (mkTruncated (lo + N.of_nat i * HOUR)%N)) nsid; counts_or_default d k)
    (λ nsid (c : Counts), counts c = rolled_up d (nsid_str nsid) (Hourly (mkTruncated (lo + N.of_nat i * HOUR)%N))) collections) as (cs & Hcs & HF).
  { intros nsid Hin. rewrite Forall_forall in Hwf. apply read_bucket; [done|by apply Hwf|]. apply (span_hour lo n); [done|lia]. }
  unfold hour_counts. rewrite Hcs. cbn [result_bind]. eexists. split; [done|]. by split.
Qed.

Lemma chunk_fold i nsid hs chunk : ∀ acc : Counts,
  collections !! i = Some nsid → Forall2 hour_entry hs chunk →
  let sum := sum_counts (map (λ h, rolled_up d (nsid_str nsid) (Hourly (mkTruncated h))) hs) in
  wf (add_counts (counts acc) sum) →
  ∃ c : Counts, foldl_res (λ c hc, match hc.2 !! i with Some counts => merge_counts c counts | None => Err (StoragePanic "index out of bounds") end)
    acc chunk = Ok c ∧ counts c = add_counts (counts acc) sum.
Proof.
  intros acc Hi HF. revert acc. induction HF as [|h e hs chunk [_ He] HF IH]; intros acc sum Hw; subst sum.
  { exists acc. simpl. by rewrite add_counts_0_r. }
  cbn [map sum_counts foldr] in *. change (foldr add_counts zero_counts) with sum_counts in *. rewrite add_counts_assoc in *.
  destruct (Forall2_lookup_l _ _ _ _ _ He Hi) as (c & Hc & Hcv). cbn [foldl_res]. rewrite Hc.
  destruct (merge_counts_ok acc c) as (m & Hm & Hmv).
  { rewrite Hcv. eapply counts_le_wf; [apply counts_le_add_l|exact Hw]. }
  rewrite Hm. cbn [result_bind]. rewrite <- Hcv, <- Hmv in *. by apply IH.
Qed.

Abbreviation CollectionSerieses := (gmap string (list Counts)).

(** The series of a collection so far. *)
Definition series_at (series : CollectionSerieses) (nsid : Nsid) (sums : list CommitCounts) : Prop :=
  ∃ s : list Counts, series !! nsid_str nsid = Some s ∧ map counts s = sums.

Lemma push_chunk_ok lo m chunk cols : ∀ i series X,
  span_ok lo m → Forall2 hour_entry (hours_from lo m) chunk → (∀ j nsid, cols !! j = Some nsid → collections !! (i + j) = Some nsid) →
  NoDup (map nsid_str cols) → (∀ nsid, nsid ∈ cols → series_at series nsid (X nsid)) →
  ∃ series', push_chunk i cols chunk series = Ok series' ∧
    (∀ nsid, nsid ∈ cols → series_at series' nsid (X nsid ++ [hours_sum (rolled_up d (nsid_str nsid)) lo m])) ∧
    ∀ k, k ∉ map nsid_str cols → series' !! k = series !! k.
Proof.
  induction cols as [|nsid cols IH]; intros i series X Hs HF Hidx HndC HX; cbn [push_chunk].
  { exists series. split_and!; [done| |done]. by intros nsid ?%not_elem_of_nil. }
  cbn [map] in HndC. apply NoDup_cons in HndC as [Hno HndC].
  assert (Hi : collections !! i = Some nsid) by (rewrite <- (Nat.add_0_r i); by apply Hidx).
  assert (Hn : wf nsid) by (rewrite Forall_forall in Hwf; apply Hwf; by eapply list_elem_of_lookup_2).
  destruct (chunk_fold i nsid (hours_from lo m) chunk counts_default Hi HF) as (c & Hc & Hcv).
  { assert (counts (counts_default : Counts) = zero_counts) as -> by done. rewrite add_counts_0_l. by apply rolled_fits. }
  unfold chunk_counts. rewrite Hc. cbn [result_bind]. destruct (HX nsid) as (s & Hsl & HsX); [by left|]. rewrite Hsl.
  destruct (IH (S i) (<[nsid_str nsid := s ++ [c]]> series) X) as (series' & Hp & Hin & Hout); try done.
  - intros j n Hj. replace (S i + j) with (i + S j) by lia. by apply Hidx.
  - intros n Hn'. destruct (HX n) as (s' & Hs' & HX'); [by right|]. exists s'. split; [|done]. rewrite lookup_insert_ne; [done|].
    intros E. apply Hno. rewrite E. by apply list_elem_of_fmap_2.
  - exists series'. split; [done|]. split.
    + intros n [->|Hn']%elem_of_cons; [|by apply Hin]. exists (s ++ [c]). split; [rewrite Hout by done; by rewrite lookup_insert_eq|].
      rewrite map_app. refine (f_equal2 app HsX _). exact (f_equal (λ x, [x]) (eq_trans Hcv (add_counts_0_l _))).
    + intros k Hk. cbn [map] in Hk. apply not_elem_of_cons in Hk as [Hne Hk]. rewrite Hout by done. by rewrite lookup_insert_ne.
Qed.

Lemma output_chunks_ok k fuel : ∀ lo n cbh hs series X,
  0 < k → n ≤ fuel → span_ok lo n → Forall2 hour_entry (hours_from lo n) cbh →
  (∀ nsid, nsid ∈ collections → series_at series nsid (X nsid)) →
  ∃ series', foldl_res (output_chunk collections) (hs, series) (chunks_aux fuel k cbh) =
      Ok (hs ++ map fst (steps k lo n), series') ∧
    ∀ nsid, nsid ∈ collections →
      series_at series' nsid (X nsid ++ map (λ p, hours_sum (rolled_up d (nsid_str nsid)) p.1 p.2) (steps k lo n)).
Proof.
  induction fuel as [|fuel IH]; intros lo n cbh hs series X Hk Hf Hs HF HX.
  { assert (n = 0) as -> by lia. rewrite steps_nil by done. exists series. simpl. rewrite app_nil_r. split; [done|].
    intros. rewrite app_nil_r. by apply HX. }
  destruct n as [|n].
  { inversion HF; subst. rewrite steps_nil by done. exists series. simpl. rewrite app_nil_r. split; [done|].
    intros. rewrite app_nil_r. by apply HX. }
  rewrite steps_cons by lia. set (m := k `min` S n).
  assert (Em : S n = m + (S n - k)) by (unfold m; lia).
  assert (Hms : span_ok lo m) by (destruct Hs; split; [done|]; unfold m in *; lia).
  rewrite Em, hours_from_app in HF. apply Forall2_app_inv_l in HF as (chunk & rest & Hc & Hr & ->).
  assert (Hlen : length chunk = m) by (apply Forall2_length in Hc; unfold hours_from in Hc; by rewrite length_map, length_seq in Hc).
  destruct chunk as [|[h e] chunk]; [simpl in Hlen; unfold m in Hlen; lia|].
  assert (Hsplit : take k (((h, e) :: chunk) ++ rest) = (h, e) :: chunk ∧ drop k (((h, e) :: chunk) ++ rest) = rest).
  { destruct (Nat.le_gt_cases k (S n)) as [Hle|Hgt].
    - assert (k = length ((h, e) :: chunk)) as -> by (rewrite Hlen; unfold m; lia). by rewrite take_app_length, drop_app_length.
    - assert (S n - k = 0) as E0 by lia. rewrite E0 in Hr. inversion Hr; subst. rewrite app_nil_r, take_ge, drop_ge by (rewrite Hlen; unfold m; lia). done. }
  cbn [chunks_aux]. change (((h, e) :: chunk) ++ rest) with ((h, e) :: (chunk ++ rest)) in *. cbn [chunks_aux]. destruct Hsplit as [-> ->].
  cbn [foldl_res output_chunk fst snd].
  destruct (push_chunk_ok lo m ((h, e) :: chunk) collections 0 series X Hms Hc (λ j n Hj, Hj) Hnd HX) as (series1 & -> & Hs1 & _).
  cbn [result_bind]. assert (h = lo) as ->.
  { unfold m in Hc. destruct (k `min` S n) eqn:E; [lia|]. unfold hours_from in Hc. cbn [seq map] in Hc. inversion Hc as [|? ? ? ? [E1 _]]. simpl in E1. lia. }
  destruct (Nat.le_gt_cases k (S n)) as [Hle|Hgt].
  - assert (m = k) as Emk by (unfold m; lia). rewrite Emk in Hr.
    destruct (IH (lo + N.of_nat k * HOUR)%N (S n - k) rest (hs ++ [lo]) series1
      (λ nsid, X nsid ++ [hours_sum (rolled_up d (nsid_str nsid)) lo m])) as (series' & Hser & Hs'); try done; [lia| |].
    + destruct Hs as [Hm Hb]. split; [|lia]. assert (HH : HOUR = 3600000000%N) by reflexivity. rewrite HH in *. lia.
    + exists series'. rewrite Hser. cbn [map fst]. rewrite <- app_assoc. split; [done|].
      intros nsid Hin. specialize (Hs' nsid Hin). by rewrite <- app_assoc in Hs'.
  - assert (S n - k = 0) as E0 by lia. rewrite E0 in *. inversion Hr. rewrite steps_nil by done. exists series1. cbn [map fst].
    assert (chunks_aux fuel k ([] : list (N * list Counts)) = []) as -> by (by destruct fuel). by split.
Qed.
End Series.

(** C37. A series: the steps cover the span from [since], each of [step] seconds
    rounded down to hours and the last one possibly shorter; the entry of a
    collection for a step is the sum of its hourly rollups in it.  The entries
    of a series add up to the counts of the collection over the whole span,
    which is what [get_collection_counts] answers. *)
Theorem timeseries_exact (d : Keyspace) (collections : list Nsid) (since stop step now : N) :
  in_service d → Forall wf collections → NoDup (map nsid_str collections) →
  (since mod HOUR = 0)%N → (since ≤ stop < u64_bound)%N → (stop mod HOUR = 0)%N → (3600 ≤ step ≤ WEEK)%N →
  let k := N.to_nat (step / 3600) in
  let n := span_hours since stop in
  ∃ series, get_timeseries d collections since (Some stop) step now = Ok (map fst (steps k since n), series) ∧
    ∀ nsid, nsid ∈ collections → ∃ s : list Counts, series !! nsid_str nsid = Some s ∧
      map counts s = map (λ p, hours_sum (rolled_up d (nsid_str nsid)) p.1 p.2) (steps k since n) ∧
      sum_counts (map counts s) = hours_sum (rolled_up d (nsid_str nsid)) since n.
Proof.
  intros Hser Hwf Hnd Hs [Hle Hb] Hu [Hst1 Hst2] k n. destruct (service_agrees d Hser) as [Hinv Hag].
  assert (HH : HOUR = 3600000000%N) by reflexivity. assert (Hk : 0 < k) by (unfold k; lia).
  assert (Hspan : span_ok since n) by (split; [done|]; unfold n, span_hours; rewrite HH in *; lia).
  unfold get_timeseries. change Trunc.WEEK_IN_MICROS with WEEK. change Trunc.HOUR_IN_MICROS with HOUR.
  rewrite (proj2 (N.ltb_ge _ _)) by done. change (default _ (Some stop)) with stop. cbn zeta.
  rewrite (proj2 (N.ltb_ge _ _)) by done. change (N.to_nat ((stop - since) / HOUR)) with n.
  assert (collect (λ i, lift_encoding (Trunc.nth_next HOUR since (N.of_nat i))) (seq 0 n) = Ok (hours_from since n)) as ->.
  { destruct (collect_ok (λ i, lift_encoding (Trunc.nth_next HOUR since (N.of_nat i))) (λ i h, h = (since + N.of_nat i * HOUR)%N) (seq 0 n)) as (hs & Hc & HF).
    - intros i Hi%elem_of_seq. eexists. split; [|done]. unfold Trunc.nth_next. rewrite (proj2 (N.ltb_lt _ _)); [done|].
      destruct Hspan as [_ Hsp]. rewrite HH in *. lia.
    - rewrite Hc. f_equal. unfold hours_from. clear Hc. induction HF as [|i h l hs -> HF IH]; [done|]. cbn [map]. by f_equal. }
  cbn [result_bind]. destruct (hours_read d collections Hinv Hwf since n Hspan) as (cbh & -> & HF). cbn [result_bind].
  change (HOUR / 1000000)%N with 3600%N. fold k. unfold chunks. rewrite decide_False by lia. cbn [result_bind].
  destruct (output_chunks_ok d collections Hinv Hag Hwf Hnd k (length cbh) since n cbh [] (empty_series collections) (λ _, [])) as (series & Hr & Hin); try done.
  - apply Forall2_length in HF. unfold hours_from in HF. rewrite length_map, length_seq in HF. lia.
  - intros nsid Hin. exists []. split; [|done]. unfold empty_series. apply elem_of_list_to_map_1.
    + cut ((map (λ c, (nsid_str c, [] : list Counts)) collections).*1 = map nsid_str collections); [by intros ->|].
      change (map ?f ?l).*1 with (map fst (map f l)). by rewrite map_map.
    + apply list_elem_of_fmap. by exists nsid.
  - exists series. split; [exact Hr|]. intros nsid Hi. destruct (Hin nsid Hi) as (s & Hsl & Hsv). exists s. split_and!; [done|done|].
    simpl in Hsv. rewrite Hsv. by apply steps_sum.
Qed.

End Counting.
End Counting.
