(* ===== verification/UfosRanks.v ===== *)
(** * ufos: the index of collections by records created

    Beside the counts of a bucket, the rollup keeps an index that is ordered by
    the number of records created, and moves the entry of a collection when its
    count changes.  The old entry is removed with a weak tombstone, which fjall
    supports for keys that are only ever inserted once.  Shown here: that no
    key of this index is ever inserted twice, and that at any time the index
    holds exactly the current counts. *)

From S2P Require Import Prelude RustStr Bytes UfosCursor UfosDbTypes.
From S2P Require Import UfosStoreTypes UfosBatch UfosFjallApi UfosStorage UfosRollup.
From S2P Require Import UfosBackground UfosInsert UfosInit UfosUpkeep UfosReader.
From S2P Require Import UfosCounts.
Import Db Store Batch FjallStore Background Insert Init Upkeep Reader Counting.

Module Ranks.
Section Ranks.
Context `{FL : FjallLaws} `{FW : !FjallWeak} `{WL : !FjallWeakLaws} `{LL : LsmTreeLaws} `{AL : AtriumLaws} `{BL : BincodeStrLaws}.
Context `{SketchOps, AtriumNsid, RawValueJson}.
Context `{Bincode2 CommitCounts, Bincode2 RecordLocationMeta, Bincode2 Sketch, Bincode2 SketchSecretPrefix}.
Context `{!Bincode2Laws CommitCounts, !Bincode2Laws RecordLocationMeta, !Bincode2Laws Sketch, !Bincode2Laws SketchSecretPrefix}.

Abbreviation Counts := (DbConcat CommitCounts Sketch).

(** ** Keys of the index *)

Definition records_lit (r : Rollup) : string :=
  match r with Hourly _ => "hourly_rank_records" | Weekly _ => "weekly_rank_records" | AllTime => "ever_rank_records" end.
Definition dids_lit (r : Rollup) : string :=
  match r with Hourly _ => "hourly_rank_dids" | Weekly _ => "weekly_rank_dids" | AllTime => "ever_rank_dids" end.

(** Keys with a literal of the index, and keys of an entry. *)
Definition records_family (k : string) : Prop := ∃ r, in_family (records_lit r) k.
Definition records_key (k : string) : Prop :=
  ∃ r x (n : Nsid), rollup_wf r ∧ wf n ∧ (x < u64_bound)%N ∧ records_rank_key r x n = Ok k.

Lemma records_key_in r x n k : records_rank_key r x n = Ok k → in_family (records_lit r) k.
Proof.
  destruct r as [h|w|]; cbn [records_rank_key records_lit]; intros Hk%enc_Ok.
  - by apply family_of_concat2 in Hk.
  - by apply family_of_concat2 in Hk.
  - by apply family_of_concat in Hk.
Qed.
Lemma dids_key_in r x n k : dids_rank_key r x n = Ok k → in_family (dids_lit r) k.
Proof.
  destruct r as [h|w|]; cbn [dids_rank_key dids_lit]; intros Hk%enc_Ok.
  - by apply family_of_concat2 in Hk.
  - by apply family_of_concat2 in Hk.
  - by apply family_of_concat in Hk.
Qed.

(** The index is apart from the other keys of the partition. *)
Lemma records_rank_family k : records_family k → rank_family k.
Proof. intros [r Hr]. exists (records_lit r). split; [|done]. destruct r; apply (bool_decide_unpack _); vm_compute; exact I. Qed.
Lemma records_not_dids r k : records_family k → ¬ in_family (dids_lit r) k.
Proof.
  intros [r' Hr'] Hr. assert (E : records_lit r' = dids_lit r) by (apply (in_family_unique _ _ k); [by destruct r'|by destruct r|done|done]).
  by destruct r, r'.
Qed.
Lemma records_not_rollup r n k : rollup_wf r → wf n → records_family k → rollup_key r n ≠ Ok k.
Proof. intros Hr Hn Hf Hk. destruct (rollup_key_family r n k Hr Hn Hk) as [Hno _]. by apply Hno, records_rank_family. Qed.

Lemma records_key_inj r x n r' x' n' k :
  rollup_wf r → wf n → (x < u64_bound)%N → rollup_wf r' → wf n' → (x' < u64_bound)%N →
  records_rank_key r x n = Ok k → records_rank_key r' x' n' = Ok k → r = r' ∧ x = x' ∧ n = n'.
Proof.
  intros Hr Hn Hx Hr' Hn' Hx' Hk Hk'.
  assert (E : records_lit r = records_lit r').
  { apply (in_family_unique _ _ k); [by destruct r|by destruct r'|by eapply records_key_in|by eapply records_key_in]. }
  destruct r as [h|w|], r' as [h'|w'|]; try done; cbn [records_rank_key] in Hk, Hk'; apply enc_Ok in Hk, Hk'.
  - assert (ranked_key (P := "hourly_rank_records") h (mkKeyRank x) n = ranked_key h' (mkKeyRank x') n') as E2.
    { refine (codec_inj (T := DbConcat (DbConcat (DbStaticStr "hourly_rank_records") (TruncatedCursor _)) (DbConcat KeyRank Nsid)) _ _ _ _ _ Hk Hk');
        (split; split; done). }
    by injection E2 as -> -> ->.
  - assert (ranked_key (P := "weekly_rank_records") w (mkKeyRank x) n = ranked_key w' (mkKeyRank x') n') as E2.
    { refine (codec_inj (T := DbConcat (DbConcat (DbStaticStr "weekly_rank_records") (TruncatedCursor _)) (DbConcat KeyRank Nsid)) _ _ _ _ _ Hk Hk');
        (split; split; done). }
    by injection E2 as -> -> ->.
  - assert (all_time_ranked_key (P := "ever_rank_records") (mkKeyRank x) n = all_time_ranked_key (mkKeyRank x') n') as E2.
    { refine (codec_inj (T := DbConcat (DbStaticStr "ever_rank_records") (DbConcat KeyRank Nsid)) _ _ _ _ _ Hk Hk'); (split; [done|split; done]). }
    by injection E2 as -> ->.
Qed.

(** ** What a move does to a key of the index *)

(** Of the entry at rank [x], when a count goes from [b] to [a]. *)
Definition moved (b a x : N) (cur : option string) : option string :=
  if decide (a = b) then cur else if decide (x = a) then Some "" else if decide (x = b) then None else cur.
Definition moves_in (b a x : N) : nat := if decide (a ≠ b ∧ x = a) then 1 else 0.

Definition effect (ops : list FjOp) (k : string) (b a x : N) : Prop :=
  sum_list_with (fj_insert_at ROLLUPS k) ops = moves_in b a x ∧ ∀ cur, fj_applies ops ROLLUPS k cur = moved b a x cur.

Lemma effect_untouched ops k b x : Forall (λ op, ¬ fj_touches ROLLUPS k op) ops → effect ops k b b x.
Proof.
  intros Hun. split.
  - rewrite untouched_no_insert by done. unfold moves_in. by rewrite decide_False by tauto.
  - intros cur. rewrite fj_applies_untouched by done. unfold moved. by rewrite decide_True.
Qed.

Lemma effect_app_l ops1 ops2 k b a x : effect ops1 k b a x → Forall (λ op, ¬ fj_touches ROLLUPS k op) ops2 → effect (ops1 ++ ops2) k b a x.
Proof.
  intros [Hs Ha] Hun. split; [by rewrite sum_list_with_app, Hs, untouched_no_insert|].
  intros cur. by rewrite fj_applies_app, (fj_applies_untouched ops2), Ha.
Qed.
Lemma effect_app_r ops1 ops2 k b a x : effect ops2 k b a x → Forall (λ op, ¬ fj_touches ROLLUPS k op) ops1 → effect (ops1 ++ ops2) k b a x.
Proof.
  intros [Hs Ha] Hun. split; [by rewrite sum_list_with_app, Hs, untouched_no_insert|].
  intros cur. by rewrite fj_applies_app, (fj_applies_untouched ops1), Ha.
Qed.

(** The operations of one [move_rank] of the index. *)
Lemma move_records r n b a batch batch' :
  rollup_wf r → wf n → (b < u64_bound)%N → (a < u64_bound)%N →
  move_rank (λ rank, records_rank_key r rank n) b a batch = Ok batch' →
  ∃ ops, batch' = batch ++ ops ∧ (∀ x k, (x < u64_bound)%N → records_rank_key r x n = Ok k → effect ops k b a x) ∧
    Forall (λ op, ∀ p k, fj_touches p k op → ∃ x, (x < u64_bound)%N ∧ records_rank_key r x n = Ok k) ops.
Proof.
  intros Hr Hn Hb Ha. unfold move_rank. destruct (decide (a = b)) as [->|Hne].
  { intros [= <-]. exists []. rewrite app_nil_r. split_and!; [done| |constructor]. intros. by apply effect_untouched. }
  intros Hm. apply result_bind_Ok in Hm as (kb & Hkb & Hm). apply result_bind_Ok in Hm as (ka & Hka & Hm). injection Hm as <-.
  eexists. split_and!; [done| |].
  - intros x k Hx Hk. assert (Ekb : kb = k ↔ x = b).
    { split; [intros ->; by destruct (records_key_inj r x n r b n k) as (_ & -> & _)|intros ->; rewrite Hk in Hkb; congruence]. }
    assert (Eka : ka = k ↔ x = a).
    { split; [intros ->; by destruct (records_key_inj r x n r a n k) as (_ & -> & _)|intros ->; rewrite Hk in Hka; congruence]. }
    unfold effect, moves_in, moved, fj_applies. cbn [sum_list_with fj_insert_at fold_left fj_apply]. split.
    + destruct (decide (x = a)); repeat case_decide; try tauto; lia.
    + intros cur. rewrite (decide_False (P := a = b)) by done. destruct (decide (x = a)), (decide (x = b)); repeat case_decide; tauto.
  - repeat constructor; intros p k [<- <-]; eauto.
Qed.

(** ** One rollup *)

(** The records created of a collection in a bucket. *)
Definition rank (d : Keyspace) (n : string) (r : Rollup) : N := creates (rolled_up d n r).

Lemma rank_bound d (n : Nsid) r : rollup_inv d → wf n → rollup_wf r → (rank d (nsid_str n) r < u64_bound)%N.
Proof.
  intros Hinv Hn Hr. destruct (counts_le_wf (rolled_up d (nsid_str n) r) (total d (nsid_str n) r)) as [Hc _];
    [apply counts_le_add_l|by apply ri_fits|exact Hc].
Qed.

(** What the ops touch of the index is entries of the collection. *)
Definition rank_touches (r : Rollup) (n : Nsid) (ops : list FjOp) : Prop :=
  Forall (λ op, ∀ k, fj_touches ROLLUPS k op → records_family k → ∃ x, (x < u64_bound)%N ∧ records_rank_key r x n = Ok k) ops.

(** Ops on the index by accounts and on the counts are elsewhere. *)
Lemma move_dids r n b a batch batch' :
  move_rank (λ rank, dids_rank_key r rank n) b a batch = Ok batch' →
  ∃ ops, batch' = batch ++ ops ∧ ∀ k, records_family k → Forall (λ op, ¬ fj_touches ROLLUPS k op) ops.
Proof.
  unfold move_rank. case_decide; [intros [= <-]; exists []; by rewrite app_nil_r|].
  intros Hm. apply result_bind_Ok in Hm as (kb & Hkb & Hm). apply result_bind_Ok in Hm as (ka & Hka & Hm). injection Hm as <-.
  eexists. split; [done|]. intros k Hk. repeat constructor; intros [_ <-]; eapply records_not_dids; try done; by eapply dids_key_in.
Qed.

Lemma write_rollup_ranks d batch (n : Nsid) r (c : Counts) batch' :
  rollup_inv d → wf n → rollup_wf r → wf (add_counts (rolled_up d (nsid_str n) r) (counts c)) →
  write_rollup d batch ((nsid_str n, r), c) = Ok batch' →
  ∃ ops, batch' = batch ++ ops ∧ rank_touches r n ops ∧
    ∀ x k, (x < u64_bound)%N → records_rank_key r x n = Ok k →
      effect ops k (rank d (nsid_str n) r) (rank d (nsid_str n) r + creates (counts c)) x.
Proof.
  intros Hinv Hn Hr Hfits. unfold write_rollup. destruct n as [n]. cbn [nsid_str] in *.
  destruct (rollup_key_Ok r (mkNsid n) Hr Hn) as (k & Hk & _). rewrite Hk. cbn [result_bind].
  destruct (rolled_read d (mkNsid n) r k Hinv Hn Hr Hk) as (o & -> & Ho). cbn [result_bind nsid_str] in *.
  unfold counts_value_merge. unfold counts in Ho |- *. assert (Hfits' : wf (add_counts (rolled_up d n r) (prefix c))) by exact Hfits. rewrite Ho, (counts_merge_ok _ _ Hfits'). cbn [result_bind lift_encoding].
  intros Hw. apply result_bind_Ok in Hw as (b1 & H1' & Hw). apply result_bind_Ok in Hw as (b2 & H2' & Hw). apply result_bind_Ok in Hw as (v & _ & Hw).
  injection Hw as <-.
  pose proof (rank_bound d (mkNsid n) r Hinv Hn Hr) as Hb. change (prefix c) with (counts c).
  destruct (move_records r (mkNsid n) (rank d n r) (rank d n r + creates (counts c)) batch b1 Hr Hn Hb) as (ops1 & -> & He & Ht).
  { destruct Hfits as [Hf _]. exact Hf. } { exact H1'. }
  destruct (move_dids r (mkNsid n) _ _ _ _ H2') as (ops2 & -> & Hun).
  exists (ops1 ++ ops2 ++ [FjInsert ROLLUPS k v]). rewrite <- !app_assoc. split; [done|].
  assert (Hk' : ∀ k', records_family k' → Forall (λ op, ¬ fj_touches ROLLUPS k' op) (ops2 ++ [FjInsert ROLLUPS k v])).
  { intros k' Hf. apply Forall_app. split; [by apply Hun|]. repeat constructor. intros [_ <-]. by apply (records_not_rollup r (mkNsid n) k). }
  split.
  - unfold rank_touches. rewrite Forall_app. split; [eapply Forall_impl; [exact Ht|]; eauto|].
    apply Forall_forall. intros op Hop k' Hto Hf. specialize (Hk' k' Hf). rewrite Forall_forall in Hk'. by destruct (Hk' op Hop).
  - intros x k' Hx Hxk. apply effect_app_l; [by apply He|]. apply Hk'. exists r. by eapply records_key_in.
Qed.

(** What a list of buckets adds to one of them. *)
Definition counts_in (L : list ((string * Rollup) * Counts)) (n : string) (r : Rollup) : CommitCounts :=
  sum_counts (map (λ e, if decide (e.1 = (n, r)) then counts e.2 else zero_counts) L).

Lemma counts_in_absent L n r : (n, r) ∉ L.*1 → counts_in L n r = zero_counts.
Proof.
  induction L as [|[k c] L IH]; intros Hno; [done|]. apply not_elem_of_cons in Hno as [Hne Hno]. unfold counts_in in *. cbn [map fst snd].
  rewrite decide_False by (cbn in Hne; congruence). simpl in *. by rewrite IH, add_counts_0_l.
Qed.

Lemma counts_in_map (m : gmap (string * Rollup) Counts) n r : counts_in (map_to_list m) n r = counts_at m (n, r).
Proof.
  unfold counts_at. destruct (m !! (n, r)) as [c|] eqn:E.
  - rewrite <- (insert_delete_id m (n, r) c E) at 1. unfold counts_in.
    rewrite (sum_counts_perm _ _ (Permutation_map _ (map_to_list_insert (delete (n, r) m) (n, r) c (lookup_delete_eq _ _)))).
    cbn [map fst snd]. rewrite decide_True by done. cbn [default].
    change (add_counts (counts c) (counts_in (map_to_list (delete (n, r) m)) n r) = counts c). rewrite counts_in_absent; [apply add_counts_0_r|].
    intros ([k c'] & Ek & Hin)%list_elem_of_fmap. simpl in Ek. subst k. apply elem_of_map_to_list in Hin. by rewrite lookup_delete_eq in Hin.
  - rewrite counts_in_absent; [done|]. intros ([k c'] & Ek & Hin)%list_elem_of_fmap. simpl in Ek. subst k. apply elem_of_map_to_list in Hin. congruence.
Qed.

Lemma write_rollups_ranks d (L : list ((string * Rollup) * Counts)) : ∀ batch batch',
  rollup_inv d → NoDup L.*1 →
  Forall (λ e, wf (mkNsid e.1.1) ∧ rollup_wf e.1.2 ∧ wf (add_counts (rolled_up d e.1.1 e.1.2) (counts e.2))) L →
  foldl_res (write_rollup d) batch L = Ok batch' →
  ∃ ops, batch' = batch ++ ops ∧ Forall (λ op, ∀ k, fj_touches ROLLUPS k op → records_family k → records_key k) ops ∧
    ∀ (n : Nsid) r x k, wf n → rollup_wf r → (x < u64_bound)%N → records_rank_key r x n = Ok k →
      effect ops k (rank d (nsid_str n) r) (rank d (nsid_str n) r + creates (counts_in L (nsid_str n) r)) x.
Proof.
  induction L as [|[[n0 r0] c] L IH]; intros batch batch' Hinv Hnd Hall Hf; cbn [foldl_res] in Hf.
  { injection Hf as <-. exists []. rewrite app_nil_r. split_and!; [done|constructor|]. intros. rewrite N.add_0_r. by apply effect_untouched. }
  apply Forall_cons in Hall as [(Hn0 & Hr0 & Hfits) Hall]. cbn [fst snd] in *. apply NoDup_cons in Hnd as [Hno Hnd]. cbn [fst] in Hno.
  apply result_bind_Ok in Hf as (b1 & Hw & Hf).
  destruct (write_rollup_ranks d batch (mkNsid n0) r0 c b1 Hinv Hn0 Hr0 Hfits Hw) as (ops1 & -> & Ht1 & He1).
  destruct (IH _ _ Hinv Hnd Hall Hf) as (ops2 & -> & Ht2 & He2). exists (ops1 ++ ops2). rewrite <- app_assoc. split_and!; [done| |].
  - apply Forall_app. split; [|done]. eapply Forall_impl; [exact Ht1|]. intros op Hop k Hto Hfam. destruct (Hop k Hto Hfam) as (x & Hx & Hk).
    by exists r0, x, (mkNsid n0).
  - intros n r x k Hn Hr Hx Hk. assert (Hfam : records_family k) by (exists r; by eapply records_key_in).
    specialize (He2 n r x k Hn Hr Hx Hk). unfold counts_in. cbn [map fst snd]. destruct (decide ((n0, r0) = (nsid_str n, r))) as [[= -> ->]|Hne].
    + assert (Ez : counts_in L (nsid_str n) r = zero_counts) by (by apply counts_in_absent). rewrite Ez in He2. change (creates zero_counts) with 0%N in He2.
      change (effect (ops1 ++ ops2) k (rank d (nsid_str n) r) (rank d (nsid_str n) r + creates (add_counts (counts c) (counts_in L (nsid_str n) r))) x).
      rewrite Ez, add_counts_0_r. rewrite N.add_0_r in He2. replace (mkNsid (nsid_str n)) with n in He1 by (by destruct n).
      destruct (He1 x k Hx Hk) as [Hs1 Ha1], He2 as [Hs2 Ha2]. split.
      * rewrite sum_list_with_app, Hs1, Hs2. unfold moves_in at 2. rewrite decide_False by tauto. lia.
      * intros cur. rewrite fj_applies_app, Ha1, Ha2. unfold moved at 1. by rewrite decide_True.
    + change (effect (ops1 ++ ops2) k (rank d (nsid_str n) r) (rank d (nsid_str n) r + creates (add_counts zero_counts (counts_in L (nsid_str n) r))) x).
      rewrite add_counts_0_l. apply effect_app_r; [done|]. eapply Forall_impl; [exact Ht1|]. intros op Hop Hto.
      destruct (Hop k Hto Hfam) as (x' & Hx' & Hk'). destruct (records_key_inj r x n r0 x' (mkNsid n0) k) as (-> & _ & ->); done.
Qed.

(** ** The index agrees with the counts *)

Record rank_inv (d : Keyspace) : Prop := {
  rk_once r x (n : Nsid) k : rollup_wf r → wf n → (x < u64_bound)%N → records_rank_key r x n = Ok k →
    fj_inserts d ROLLUPS k ≤ (if decide (0 < x ≤ rank d (nsid_str n) r)%N then 1 else 0);
  rk_get r x (n : Nsid) k : rollup_wf r → wf n → (x < u64_bound)%N → records_rank_key r x n = Ok k →
    fj_get d ROLLUPS k = if decide (0 < x ∧ x = rank d (nsid_str n) r)%N then Some "" else None;
  rk_keys k v : records_family k → fj_get d ROLLUPS k = Some v → records_key k
}.

Lemma rank_inv_live d con st ops v (d' := fj_commit d (rollup_batch con ops v)) :
  rollup_inv d → rank_inv d → (∀ kv, kv ∈ con → kv ∈ fj_prefix d ROLLUPS live_family) → NoDup con →
  foldl_res (write_rollup d) (rl_batch st) (map_to_list (counts_by_rollup st)) = Ok (rl_batch st ++ ops) →
  writes d (map_to_list (counts_by_rollup st)) ops → acc_rel con (counts_by_rollup st) → rank_inv d'.
Proof.
  intros Hinv Hrk Hsub Hnd Hfold Hw Hacc. pose proof Hacc as [Hat Hdom].
  destruct (write_rollups_ranks d _ _ _ Hinv (NoDup_fst_map_to_list _) (acc_fits d con _ Hinv Hsub Hnd Hacc) Hfold) as (ops' & E & Ht & He).
  apply app_inv_head in E as <-.
  assert (Hcon : ∀ k, records_family k → Forall (λ op, ¬ fj_touches ROLLUPS k op) (map (λ kv, FjRemove ROLLUPS kv.1) con)).
  { intros k Hf. apply removes_touch. right. intros (kv & -> & Hkv)%list_elem_of_fmap. apply (live_not_rank kv.1); [by apply records_rank_family|].
    apply live_family_in. destruct kv as [k' v']. by apply Hsub, fj_prefix_spec in Hkv as [_ ?]. }
  assert (Hcur : ∀ k, Forall (λ op, ¬ fj_touches ROLLUPS k op) [FjInsert GLOBAL (static_bytes NewRollupCursorKey) v]) by (intros k; by repeat constructor; intros []).
  assert (Hall : ∀ (n : Nsid) r x k, wf n → rollup_wf r → (x < u64_bound)%N → records_rank_key r x n = Ok k →
    effect (rollup_batch con ops v) k (rank d (nsid_str n) r) (rank d' (nsid_str n) r) x ∧ (rank d (nsid_str n) r ≤ rank d' (nsid_str n) r)%N).
  { intros n r x k Hn Hr Hx Hk. assert (Hf : records_family k) by (exists r; by eapply records_key_in).
    assert (Er : rank d' (nsid_str n) r = (rank d (nsid_str n) r + creates (counts_in (map_to_list (counts_by_rollup st)) (nsid_str n) r))%N).
    { unfold rank, d'. rewrite (consume_rolled d (counts_by_rollup st) con ops v Hw Hacc Hsub n r Hn Hr), counts_in_map, Hat. done. }
    rewrite Er. split; [|lia]. unfold rollup_batch. apply effect_app_l; [|apply Hcur]. apply effect_app_r; [|by apply Hcon]. by apply He. }
  assert (Honce : ∀ (n : Nsid) r x k, wf n → rollup_wf r → (x < u64_bound)%N → records_rank_key r x n = Ok k →
    fj_inserts d' ROLLUPS k ≤ (if decide (0 < x ≤ rank d' (nsid_str n) r)%N then 1 else 0)).
  { intros n r x k Hn Hr Hx Hk. destruct (Hall n r x k Hn Hr Hx Hk) as [[Hs _] Hle]. unfold d'. rewrite fj_inserts_commit, Hs.
    pose proof (rk_once d Hrk r x n k Hr Hn Hx Hk) as Ho. fold d'. unfold moves_in. repeat case_decide; lia. }
  constructor.
  - intros r x n k Hr Hn Hx Hk. by apply Honce.
  - intros r x n k Hr Hn Hx Hk. pose proof (Honce n r x k Hn Hr Hx Hk) as Ho. destruct (Hall n r x k Hn Hr Hx Hk) as [[_ Ha] Hle].
    unfold d' at 1. rewrite fj_get_commit_once by (fold d'; case_decide; lia). rewrite Ha, (rk_get d Hrk r x n k Hr Hn Hx Hk).
    unfold moved. repeat case_decide; try done; lia.
  - intros k w Hf Hg. destruct (decide (Forall (λ op, ¬ fj_touches ROLLUPS k op) (rollup_batch con ops v))) as [Hun|Hto].
    + apply (rk_keys d Hrk k w Hf). rewrite <- Hg. unfold d'. rewrite fj_get_commit by auto with microcosm. by rewrite fj_applies_untouched.
    + apply not_Forall_Exists in Hto; [|apply _]. apply Exists_exists in Hto as (op & Hop & Hto). apply dec_stable in Hto.
      unfold rollup_batch in Hop. rewrite !elem_of_app, list_elem_of_singleton in Hop. destruct Hop as [[Hop|Hop]| ->].
      * specialize (Hcon k Hf). rewrite Forall_forall in Hcon. by destruct (Hcon op Hop).
      * rewrite Forall_forall in Ht. by apply (Ht op Hop).
      * by destruct Hto.
Qed.

(** ** Commits that leave the index alone *)

Definition quiet_op (op : FjOp) : Prop := ∀ k, fj_touches ROLLUPS k op → in_family "live_counts" k.

Inductive quiet (d : Keyspace) : Keyspace → Prop :=
  | quiet_refl : quiet d d
  | quiet_commit d' ops : quiet d d' → Forall quiet_op ops → quiet d (fj_commit d' ops).

Lemma quiet_untouched k ops : ¬ in_family "live_counts" k → Forall quiet_op ops → Forall (λ op, ¬ fj_touches ROLLUPS k op) ops.
Proof. intros Hk Hops. eapply Forall_impl; [exact Hops|]. intros op Hop Ht. by apply Hk, Hop. Qed.

Lemma quiet_get d d' k : quiet d d' → ¬ in_family "live_counts" k → fj_get d' ROLLUPS k = fj_get d ROLLUPS k.
Proof.
  intros Hq Hk. induction Hq as [|d' ops Hq IH Hops]; [done|]. pose proof (quiet_untouched k ops Hk Hops) as Hun.
  rewrite fj_get_commit by auto with microcosm. by rewrite fj_applies_untouched.
Qed.

Lemma quiet_same d d' k :
  quiet d d' → ¬ in_family "live_counts" k → fj_get d' ROLLUPS k = fj_get d ROLLUPS k ∧ fj_inserts d' ROLLUPS k = fj_inserts d ROLLUPS k.
Proof.
  intros Hq Hk. split; [by apply quiet_get|]. induction Hq as [|d' ops Hq IH Hops]; [done|].
  rewrite fj_inserts_commit, untouched_no_insert by (by apply quiet_untouched). lia.
Qed.

Lemma quiet_rank d d' (n : Nsid) r : quiet d d' → wf n → rollup_wf r → rank d' (nsid_str n) r = rank d (nsid_str n) r.
Proof.
  intros Hq Hn Hr. unfold rank, rolled_up. replace (mkNsid (nsid_str n)) with n by (by destruct n).
  destruct (rollup_key_Ok r n Hr Hn) as (k & Hk & _). rewrite Hk. destruct (rollup_key_family r n k Hr Hn Hk) as [_ Hno].
  by destruct (quiet_same d d' k Hq Hno) as [-> _].
Qed.

Lemma quiet_inv d d' : quiet d d' → rank_inv d → rank_inv d'.
Proof.
  intros Hq Hrk. assert (Hsame : ∀ k, records_family k → fj_get d' ROLLUPS k = fj_get d ROLLUPS k ∧ fj_inserts d' ROLLUPS k = fj_inserts d ROLLUPS k).
  { intros k Hf. apply quiet_same; [done|]. by apply live_not_rank, records_rank_family. }
  constructor.
  - intros r x n k Hr Hn Hx Hk. destruct (Hsame k) as [_ ->]; [exists r; by eapply records_key_in|]. rewrite (quiet_rank d d') by done. by apply rk_once.
  - intros r x n k Hr Hn Hx Hk. destruct (Hsame k) as [-> _]; [exists r; by eapply records_key_in|]. rewrite (quiet_rank d d') by done. by apply rk_get.
  - intros k v Hf. destruct (Hsame k Hf) as [-> _]. by apply rk_keys.
Qed.

(** ** The operations *)

Lemma quiet_elsewhere op : (∀ p k, fj_touches p k op → p ≠ ROLLUPS) → quiet_op op.
Proof. intros Hop k Ht. by destruct (Hop ROLLUPS k Ht). Qed.

Lemma quiet_one d op : (∀ p k, fj_touches p k op → p ≠ ROLLUPS) → quiet d (fj_commit d [op]).
Proof. intros Hop. apply quiet_commit; [constructor|]. by apply Forall_singleton, quiet_elsewhere. Qed.

Lemma quiet_trans d1 d2 d3 : quiet d1 d2 → quiet d2 d3 → quiet d1 d3.
Proof. intros H12. induction 1; [done|by apply quiet_commit]. Qed.

Lemma upkeep_quiet d d' : upkeep d d' → quiet d d'.
Proof.
  induction 1 as [|d' ops _ IH Hops]; [constructor|]. apply quiet_commit; [done|].
  eapply Forall_impl; [exact Hops|]. intros op Hop k Ht. by destruct (upkeep_op_untouched ROLLUPS k op Hop (or_introl eq_refl)).
Qed.

(** Folds that only append quiet operations. *)
Lemma fold_quiet {A} (f : list FjOp → A → StorageResult (list FjOp)) l : ∀ batch batch',
  (∀ b a b', f b a = Ok b' → Forall quiet_op b → Forall quiet_op b') →
  foldl_res f batch l = Ok batch' → Forall quiet_op batch → Forall quiet_op batch'.
Proof.
  induction l as [|a l IH]; intros batch batch' Hf Hr Hq; cbn [foldl_res] in Hr; [by injection Hr as <-|].
  apply result_bind_Ok in Hr as (b & Hb & Hr). by eapply IH; eauto.
Qed.

Lemma insert_commit_quiet nsid batch commit batch' :
  insert_commit nsid batch commit = Ok batch' → Forall quiet_op batch → Forall quiet_op batch'.
Proof.
  unfold insert_commit. intros Hi Hq. destruct (c_action commit) as [record is_update|].
  all: repeat match type of Hi with (_ ←? _; _) = _ => apply result_bind_Ok in Hi as (? & _ & Hi) end; injection Hi as <-.
  all: apply Forall_app; split; [done|]; repeat constructor; apply quiet_elsewhere; intros p k' [<- _]; discriminate.
Qed.

Lemma insert_collection_quiet latest batch e batch' :
  insert_collection latest batch e = Ok batch' → Forall quiet_op batch → Forall quiet_op batch'.
Proof.
  unfold insert_collection. destruct e as [n commits]. intros Hi Hq. apply result_bind_Ok in Hi as (b & Hb & Hi).
  apply result_bind_Ok in Hi as (k & Hk & Hi). apply result_bind_Ok in Hi as (v & _ & Hi). injection Hi as <-.
  apply Forall_app. split; [eapply fold_quiet; [|exact Hb|done]; by intros; eapply insert_commit_quiet|].
  repeat constructor. intros k' [_ <-]. apply enc_Ok in Hk. by apply family_of_concat2 in Hk.
Qed.

Lemma insert_batch_quiet d b d' : insert_batch d b = Ok d' → quiet d d'.
Proof.
  unfold insert_batch. destruct (is_empty b); [intros [= <-]; constructor|]. destruct (latest_cursor b) as [latest|]; [|done].
  intros Hi. apply result_bind_Ok in Hi as (b1 & H1' & Hi). apply result_bind_Ok in Hi as (b2 & H2' & Hi). apply result_bind_Ok in Hi as (b3 & H3' & Hi).
  injection Hi as <-. apply quiet_commit; [constructor|]. unfold insert_batch_static_neu in H3'.
  apply result_bind_Ok in H3' as (k & _ & H3'). apply result_bind_Ok in H3' as (v & _ & H3'). injection H3' as <-.
  apply Forall_app. split; [|repeat constructor; apply quiet_elsewhere; intros p k' [<- _]; discriminate].
  eapply fold_quiet; [|exact H2'|eapply fold_quiet; [|exact H1'|constructor]; by intros; eapply insert_collection_quiet].
  unfold insert_remove. intros b0 a b' Hr Hq. apply result_bind_Ok in Hr as (k' & _ & Hr). apply result_bind_Ok in Hr as (v' & _ & Hr). injection Hr as <-.
  apply Forall_app. split; [done|]. repeat constructor. apply quiet_elsewhere. intros p k0 [<- _]; discriminate.
Qed.

Lemma delete_account_quiet d did d' n : delete_account d did = Ok (d', n) → quiet d d'.
Proof.
  unfold delete_account. intros Hd. apply result_bind_Ok in Hd as (pre & _ & Hd).
  assert (Hfold : ∀ l st, quiet d st.1.1 → Forall quiet_op st.1.2 →
    quiet d (fold_left delete_record l st).1.1 ∧ Forall quiet_op (fold_left delete_record l st).1.2).
  { induction l as [|kv l IH]; intros [[d0 b0] n0] Hq Hb; [done|]. cbn [fold_left fst snd] in *.
    assert (Hb' : Forall quiet_op (b0 ++ [FjRemove RECORDS kv.1])).
    { apply Forall_app. split; [done|]. repeat constructor. apply quiet_elsewhere. intros p k0 [<- _]; discriminate. }
    apply IH; unfold delete_record; case_decide; cbn [fst snd]; try done. by apply quiet_commit. }
  specialize (Hfold (fj_prefix d RECORDS pre) (d, [], 0) (quiet_refl d) (Forall_nil_2 _)).
  destruct (fold_left _ _ _) as [[d1 b1] n1]. destruct Hfold as [Hq Hb]. injection Hd as <- _. by apply quiet_commit.
Qed.

Lemma rollup_delete_account_quiet d c k v d' n : rollup_delete_account d c k v = Ok (d', n) → quiet d d'.
Proof.
  unfold rollup_delete_account. intros Hd. apply result_bind_Ok in Hd as (did & _ & Hd). apply result_bind_Ok in Hd as ([d1 n1] & H1' & Hd).
  apply result_bind_Ok in Hd as (b & Hb & Hd). injection Hd as <- _. apply delete_account_quiet in H1'. apply quiet_commit; [done|].
  unfold insert_batch_static_neu in Hb. apply result_bind_Ok in Hb as (k' & _ & Hb). apply result_bind_Ok in Hb as (v' & _ & Hb). injection Hb as <-.
  repeat constructor; apply quiet_elsewhere; intros p k0 [<- _]; discriminate.
Qed.

Lemma step_rollup_ranks d d' n dirty : rollup_inv d → rank_inv d → step_rollup d = Ok (d', n, dirty) → rank_inv d'.
Proof.
  intros Hinv Hrk Hr. destruct (ri_cursor d Hinv) as (c & Hc & Hcur).
  destruct (step_rollup_reads d c Hinv Hc Hcur) as (timely & queue & Hv & E). rewrite E in Hr. clear E.
  assert (Hlive : ∀ limit, rollup_live_counts d timely limit MAX_BATCHED_ROLLUP_COUNTS = Ok (d', n, dirty) → rank_inv d').
  { intros limit Hl. assert (Hsub : ∀ kv, kv ∈ timely → kv ∈ fj_prefix d ROLLUPS live_family) by (intros kv Hkv; by apply (sv_live _ _ _ _ Hv)).
    assert (Hnd : NoDup timely) by (eapply NoDup_fmap_1, sorted_NoDup, (sv_live_sorted _ _ _ _ Hv)).
    destruct (rollup_live_counts_run d timely limit MAX_BATCHED_ROLLUP_COUNTS Hinv Hsub Hnd) as (con & rest & st & ops & Ht & Hr' & Hf & Hw & Hacc & _).
    rewrite Hl in Hr'. injection Hr' as -> _ _. apply (rank_inv_live d con st ops); try done.
    - intros kv Hkv. apply Hsub. rewrite Ht, elem_of_app. by left.
    - rewrite Ht in Hnd. by apply NoDup_app in Hnd as [? _]. }
  assert (Hdel : ∀ c k v, ('(d, n) ←? rollup_delete_account d c k v; Ok (d, n, ∅)) = Ok (d', n, dirty) → rank_inv d').
  { intros c' k v Hd. apply result_bind_Ok in Hd as ([d1 n1] & Hd & [= -> _ _]). by eapply quiet_inv, Hrk; eapply rollup_delete_account_quiet. }
  destruct timely as [|kv timely], queue as [|q queue]; cbn [step_arms] in Hr.
  - injection Hr as <- _ _. done.
  - by eapply Hdel.
  - by eapply Hlive.
  - destruct (_ <? _)%N; [by eapply Hlive|by eapply Hdel].
Qed.

(** ** Stores in service *)

(** A store to which nothing was ever written. *)
Definition unused (d : Keyspace) : Prop := ∀ p k, fj_inserts d p k = 0.

Lemma service_ranks d : service_from unused d → rank_inv d.
Proof.
  induction 1 as [d ep force secret now d' Hu Hf Hs Hnow Hi|d b latest d' Hser IH Hwf Hlat Hfresh Hfits Hi|d d' n dirty Hser IH Hr
    |d col limit full d' x _ IH Ht|d ep force random now d' c secret _ IH Hi|d reroll d' _ IH Hb].
  - apply init_upkeep, upkeep_quiet in Hi. apply (quiet_inv d d' Hi). constructor.
    + intros. rewrite Hu. lia.
    + intros r x n k _ _ _ _. rewrite Hf. rewrite decide_False; [done|]. unfold rank, rolled_up.
      destruct (rollup_key r _) as [k'|]; [rewrite Hf|]; simpl; lia.
    + intros k v _. by rewrite Hf.
  - apply insert_batch_quiet in Hi. by apply (quiet_inv d d').
  - eapply step_rollup_ranks; [|done|exact Hr]. apply (service_agrees d). by eapply service_weaken; [|exact Hser].
  - by eapply quiet_inv, IH; eapply upkeep_quiet, trim_upkeep.
  - by eapply quiet_inv, IH; eapply upkeep_quiet, init_upkeep.
  - by eapply quiet_inv, IH; eapply upkeep_quiet, background_tasks_upkeep.
Qed.

(** C15. In every state of a store that was unused when it was started, reached
    by batches, rollup steps (with the account removals they make), trims of
    collections, restarts and rerolls that succeed, no key of the index by
    records created was ever inserted twice, which is what its removals with
    weak tombstones rely on; and the index of a bucket has an entry for a
    collection and a number exactly if the number is the creates of the
    collection in that bucket and is not zero: one entry per collection with a
    record created, none for one without.  Its keys are all of this form. *)
Theorem rank_index_exact (d : Keyspace) :
  service_from unused d →
  (∀ (r : Rollup) (x : N) (n : Nsid) k, rollup_wf r → wf n → (x < u64_bound)%N → records_rank_key r x n = Ok k →
     fj_inserts d ROLLUPS k ≤ 1 ∧
     (is_Some (fj_get d ROLLUPS k) ↔ (0 < x)%N ∧ x = creates (rolled_up d (nsid_str n) r))) ∧
  ∀ k v, records_family k → fj_get d ROLLUPS k = Some v → records_key k.
Proof.
  intros Hser. pose proof (service_ranks d Hser) as Hrk. split; [|apply (rk_keys d Hrk)].
  intros r x n k Hr Hn Hx Hk. split.
  - pose proof (rk_once d Hrk r x n k Hr Hn Hx Hk). case_decide; lia.
  - rewrite (rk_get d Hrk r x n k Hr Hn Hx Hk). unfold rank. case_decide as E; [by split; [|eauto]|]. split; [by intros []|done].
Qed.
End Ranks.
End Ranks.
