(* ===== verification/UfosQueries.v ===== *)
(** * ufos: listing and searching collections

    [get_lexi_collections] merges one sorted iterator per bucket, at every turn
    taking the lowest nsid from all that have it.  A page is shown to be the
    next collections in the order of their nsids, each with the sum of its
    buckets, and the pages of a client that follows the cursors to be the whole
    list, without repetition. *)

From Stdlib Require Import Sorted.
From stdpp Require Import sorting.
From S2P Require Import Prelude RustStr Bytes UfosCursor UfosDbTypes.
From S2P Require Import UfosStoreTypes UfosBatch UfosFjallApi UfosStorage UfosRollup.
From S2P Require Import UfosBackground UfosInsert UfosInit UfosReader UfosCounts.
Import Db Store Batch FjallStore Background Insert Init Reader.
Import Counting.

Module Queries.

Lemma StronglySorted_rev {A} (R : A → A → Prop) l : StronglySorted R l → StronglySorted (λ a b, R b a) (rev l).
Proof.
  induction 1 as [|a l Hs IH Ha]; [constructor|]. cbn [rev]. apply StronglySorted_app. split_and!; [|done|by repeat constructor].
  intros x y Hx ->%list_elem_of_singleton. rewrite Forall_forall in Ha. apply Ha. by apply elem_of_rev.
Qed.

(** The order of nsids. *)
Definition nsid_lt (a b : Nsid) : Prop := bytes_compare (nsid_str a) (nsid_str b) = Lt.
#[global] Instance nsid_lt_trans : Transitive nsid_lt.
Proof. intros a b c. apply bytes_lt_trans. Qed.
#[global] Instance nsid_lt_dec a b : Decision (nsid_lt a b).
Proof. unfold nsid_lt. apply _. Defined.
Lemma nsid_lt_irrefl a : ¬ nsid_lt a a.
Proof. unfold nsid_lt. by rewrite bytes_compare_refl. Qed.
Lemma nsid_lt_total a b : nsid_lt a b ∨ a = b ∨ nsid_lt b a.
Proof.
  unfold nsid_lt. rewrite (bytes_compare_antisym (nsid_str a)). destruct a as [a], b as [b]. simpl.
  destruct (bytes_compare a b) eqn:E; [right; left; f_equal; by apply bytes_compare_eq|by left|by right; right].
Qed.

(** A strictly sorted list starts with its least element. *)
Lemma sorted_least l m :
  StronglySorted nsid_lt l → m ∈ l → (∀ n, n ∈ l → ¬ nsid_lt n m) → head l = Some m.
Proof.
  intros Hs Hm Hleast. destruct Hs as [|a l Hs Ha]; [by apply not_elem_of_nil in Hm|]. simpl. f_equal.
  apply elem_of_cons in Hm as [|Hm]; [done|]. rewrite Forall_forall in Ha. destruct (Hleast a); [by left|by apply Ha].
Qed.

Lemma elem_of_take_in {A} (x : A) n l : x ∈ take n l → x ∈ l.
Proof. rewrite <- (take_drop n l) at 2. rewrite elem_of_app. by left. Qed.

Section Merge.
Context `{SketchOps}.
Abbreviation Counts := (DbConcat CommitCounts Sketch).

(** The rows of the buckets, as the iterators yield them when all decodes. *)
Abbreviation Row := (list (Nsid * Counts)).
Definition to_iter (row : Row) : NsidCounter := map (λ e, Ok (e.1, Ok e.2)) row.
Definition row_sorted (row : Row) : Prop := StronglySorted nsid_lt (map fst row).
Definition row_names (rows : list Row) : list Nsid := flat_map (map fst) rows.
Fixpoint row_count (n : Nsid) (row : Row) : CommitCounts :=
  match row with
  | [] => zero_counts
  | (m, c) :: row => add_counts (if decide (m = n) then counts c else zero_counts) (row_count n row)
  end.
Definition rows_count (n : Nsid) (rows : list Row) : CommitCounts := sum_counts (map (row_count n) rows).

Lemma row_names_spec rows n : n ∈ row_names rows ↔ ∃ row, row ∈ rows ∧ n ∈ map fst row.
Proof. apply elem_of_flat_map. Qed.

(** First scan. *)
Lemma lowest_ok rows : ∀ acc,
  Forall row_sorted rows →
  ∃ o, foldl_res lower_nsid acc (map to_iter rows) = Ok o ∧
    match o with
    | None => acc = None ∧ row_names rows = []
    | Some m => (acc = Some m ∨ m ∈ row_names rows) ∧ (∀ a, acc = Some a → ¬ nsid_lt a m) ∧ ∀ n, n ∈ row_names rows → ¬ nsid_lt n m
    end.
Proof.
  induction rows as [|row rows IH]; intros acc Hs; cbn [map foldl_res].
  { exists acc. split; [done|]. destruct acc as [m|]; [|done]. split_and!; [by left| |by intros n ?%not_elem_of_nil].
    intros a [= ->]. apply nsid_lt_irrefl. }
  apply Forall_cons in Hs as [Hrow Hs]. destruct row as [|[h c] row]; cbn [to_iter map lower_nsid].
  { cbn [result_bind]. destruct (IH acc Hs) as (o & Ho & Hm). exists o. split; [exact Ho|]. exact Hm. }
  cbn [result_bind]. apply StronglySorted_inv in Hrow as [_ Hh].
  set (acc' := match acc with Some cur => if str_gt (nsid_str h) (nsid_str cur) then acc else Some h | None => Some h end).
  destruct (IH acc' Hs) as (o & Ho & Hm). exists o. split; [exact Ho|].
  assert (Hacc' : ∃ m', acc' = Some m' ∧ (acc = Some m' ∨ m' = h) ∧ ¬ nsid_lt h m' ∧ ∀ a, acc = Some a → ¬ nsid_lt a m').
  { unfold acc'. destruct acc as [cur|]; [|exists h; split_and!; [done|by right|apply nsid_lt_irrefl|done]].
    unfold str_gt. destruct (bytes_compare (nsid_str h) (nsid_str cur)) eqn:E.
    - exists h. split_and!; [done|by right|apply nsid_lt_irrefl|]. intros a [= <-]. unfold nsid_lt. rewrite bytes_compare_antisym, E. done.
    - exists h. split_and!; [done|by right|apply nsid_lt_irrefl|]. intros a [= <-]. unfold nsid_lt. rewrite bytes_compare_antisym, E. done.
    - exists cur. split_and!; [done|by left|unfold nsid_lt; by rewrite E|]. intros a [= <-]. apply nsid_lt_irrefl. }
  destruct Hacc' as (m' & Em' & Hor & Hh' & Hacc). rewrite Em' in Hm. destruct o as [m|]; [|by destruct Hm].
  destruct Hm as (Hin & Hle & Hleast). specialize (Hle m' eq_refl).
  assert (Hno : ∀ n, ¬ nsid_lt n m' → ¬ nsid_lt n m).
  { intros n Hn Hlt. destruct (nsid_lt_total m m') as [L|[->|L]]; [apply Hn; by etrans|done|done]. }
  unfold row_names in *. cbn [flat_map map fst] in *. split_and!.
  - destruct Hin as [[= <-]|Hin]; [|right; rewrite elem_of_app; by right]. destruct Hor as [->| ->]; [by left|right; by left].
  - intros a Ha. by apply Hno, Hacc.
  - intros n. rewrite elem_of_app. intros [[->|Hn]%elem_of_cons|Hn]; [by apply Hno| |by apply Hleast].
    apply Hno. intros Hlt. apply Hh'. rewrite Forall_forall in Hh. etrans; [by apply Hh|done].
Qed.

(** Second scan. *)
Definition row_drop (n : Nsid) (row : Row) : Row :=
  match row with (m, _) :: rest => if decide (m = n) then rest else row | [] => [] end.

Definition least_in (n : Nsid) (row : Row) : Prop := ∀ m, m ∈ map fst row → ¬ nsid_lt m n.

Lemma row_absent n row : n ∉ map fst row → row_count n row = zero_counts.
Proof.
  induction row as [|[m c] row IH]; intros Hno; [done|]. cbn [map fst] in Hno. apply not_elem_of_cons in Hno as [Hne Hno].
  cbn [row_count]. rewrite decide_False by done. by rewrite add_counts_0_l, IH.
Qed.

(** Behind the head of a sorted row there is nothing at or below it. *)
Lemma head_absent h c row n : row_sorted ((h, c) :: row) → ¬ nsid_lt h n → n ∉ map fst row.
Proof.
  intros [_ Hh]%StronglySorted_inv Hle Hin. rewrite Forall_forall in Hh. by apply Hle, Hh.
Qed.

Lemma row_count_elem n c row : row_sorted row → (n, c) ∈ row → row_count n row = counts c.
Proof.
  induction row as [|[h x] row IH]; intros Hs Hin; [by apply not_elem_of_nil in Hin|]. cbn [row_count].
  apply elem_of_cons in Hin as [[= -> ->]|Hin].
  - rewrite decide_True by done. rewrite row_absent; [apply add_counts_0_r|]. eapply head_absent; [exact Hs|]. apply nsid_lt_irrefl.
  - rewrite decide_False.
    + rewrite add_counts_0_l. apply IH; [|done]. by apply StronglySorted_inv in Hs as [Hs _].
    + intros ->. eapply head_absent; [exact Hs|apply nsid_lt_irrefl|]. by apply (list_elem_of_fmap_2 fst _ (n, c)).
Qed.

Lemma row_drop_sorted n row : row_sorted row → row_sorted (row_drop n row).
Proof. destruct row as [|[m c] row]; [done|]. simpl. intros Hs. case_decide; [|done]. by apply StronglySorted_inv in Hs as [Hs _]. Qed.

Lemma row_drop_names n row :
  row_sorted row → least_in n row → ∀ m, m ∈ map fst (row_drop n row) ↔ m ∈ map fst row ∧ m ≠ n.
Proof.
  destruct row as [|[h c] row]; intros Hs Hl m.
  { cbn. rewrite elem_of_nil. tauto. }
  assert (Hno : n ∉ map fst row) by (apply (head_absent h c row); [done|]; apply Hl; by left).
  cbn [row_drop]. destruct (decide (h = n)) as [->|Hne]; cbn [map fst].
  - rewrite elem_of_cons. split; [|naive_solver]. intros Hm. split; [by right|]. intros ->. done.
  - rewrite elem_of_cons. split; [|tauto]. intros Hm. split; [done|]. intros ->. destruct Hm; done.
Qed.

Lemma row_drop_count n row m : m ≠ n → row_count m (row_drop n row) = row_count m row.
Proof.
  intros Hne. destruct row as [|[h c] row]; [done|]. cbn [row_drop]. destruct (decide (h = n)) as [->|]; [|done].
  cbn [row_count]. rewrite decide_False by done. by rewrite add_counts_0_l.
Qed.

(** The rows, all at or above [n], lose it, and what they had of it is merged. *)
Lemma take_ok n rows : ∀ (acc : Counts) (done_rows : list Row),
  Forall row_sorted rows → Forall (least_in n) rows → wf (add_counts (counts acc) (rows_count n rows)) →
  ∃ merged : Counts,
    foldl_res (take_nsid n) (acc, map to_iter done_rows) (map to_iter rows) =
      Ok (merged, map to_iter (done_rows ++ map (row_drop n) rows)) ∧
    counts merged = add_counts (counts acc) (rows_count n rows).
Proof.
  induction rows as [|row rows IH]; intros acc dr Hs Hl Hw; cbn [map foldl_res].
  { exists acc. rewrite app_nil_r. split; [done|]. unfold rows_count. simpl. by rewrite add_counts_0_r. }
  apply Forall_cons in Hs as [Hrow Hs]. apply Forall_cons in Hl as [Hrl Hl].
  unfold rows_count in *. cbn [map sum_counts foldr] in *. change (foldr add_counts zero_counts) with sum_counts in *.
  rewrite add_counts_assoc in *.
  assert (Hstep : ∃ m : Counts, take_nsid n (acc, map to_iter dr) (to_iter row) = Ok (m, map to_iter (dr ++ [row_drop n row])) ∧
    counts m = add_counts (counts acc) (row_count n row)).
  { rewrite map_app. destruct row as [|[h c] row].
    { exists acc. simpl. by rewrite add_counts_0_r. }
    assert (Hno : n ∉ map fst row) by (apply (head_absent h c row); [done|]; apply Hrl; by left).
    cbn [to_iter map take_nsid fst snd row_drop row_count] in *. rewrite row_absent in * by done. rewrite add_counts_0_r in *.
    destruct (decide (h = n)) as [->|Hne].
    - cbn [result_bind]. destruct (merge_counts_ok acc c) as (m & Hm & Hmv).
      { eapply counts_le_wf; [apply counts_le_add_l|exact Hw]. }
      rewrite Hm. cbn [result_bind]. by exists m.
    - exists acc. by rewrite add_counts_0_r. }
  destruct Hstep as (m & Hm & Hmv). rewrite Hm. cbn [result_bind].
  destruct (IH m (dr ++ [row_drop n row]) Hs Hl) as (z & Hz & Hzv); [by rewrite Hmv|].
  exists z. rewrite Hz, <- app_assoc, Hzv, Hmv. done.
Qed.

(** The answer for a collection. *)
Definition answers (nc : NsidCount) (x : CommitCounts) : Prop :=
  nc_creates nc = creates x ∧ nc_updates nc = updates x ∧ nc_deletes nc = deletes x.

(** The loop, for the sorted list [L] of all names in the rows. *)
Lemma lexi_loop_ok limit : ∀ rows L out cur,
  Forall row_sorted rows → StronglySorted nsid_lt L → (∀ n, n ∈ L ↔ n ∈ row_names rows) → (∀ n, n ∈ L → wf (rows_count n rows)) →
  ∃ page, lexi_loop limit (map to_iter rows) out cur =
      Ok (out ++ page, if decide (limit ≤ length L) then last (option_list cur ++ take limit L) else None) ∧
    map nc_nsid page = map nsid_str (take limit L) ∧
    Forall (λ nc, answers nc (rows_count (mkNsid (nc_nsid nc)) rows)) page.
Proof.
  induction limit as [|limit IH]; intros rows L out cur Hs HL Hnames Hw; cbn [lexi_loop].
  { exists []. rewrite app_nil_r, decide_True by lia. cbn [take]. rewrite app_nil_r. split_and!; [|done|constructor]. by destruct cur. }
  destruct (lowest_ok rows None Hs) as (o & Ho & Hm). rewrite Ho. cbn [result_bind]. destruct o as [n|].
  2: { destruct Hm as [_ Hnil]. assert (L = []) as ->.
       { destruct L as [|n L]; [done|]. exfalso. apply (not_elem_of_nil n). rewrite <- Hnil. apply Hnames. by left. }
       exists []. rewrite app_nil_r, decide_False by (simpl; lia). split_and!; [done|done|constructor]. }
  destruct Hm as ([?|Hin] & _ & Hleast); [done|].
  destruct L as [|n' L]; [exfalso; apply (not_elem_of_nil n), Hnames, Hin|].
  assert (n' = n) as ->.
  { assert (head (n' :: L) = Some n) as [= ->]; [|done]. apply sorted_least; [done|by apply Hnames|]. intros m Hm. apply Hleast, Hnames, Hm. }
  assert (Hlr : Forall (least_in n) rows).
  { apply Forall_forall. intros row Hrow m Hm. apply Hleast, row_names_spec. eauto. }
  assert (Hz : counts (counts_default : Counts) = zero_counts) by done.
  destruct (take_ok n rows counts_default [] Hs Hlr) as (merged & Ht & Hmv); [rewrite Hz, add_counts_0_l; apply Hw; by left|].
  change (map to_iter []) with ([] : list NsidCounter) in Ht. rewrite Ht. cbn [result_bind app]. rewrite Hz, add_counts_0_l in Hmv.
  apply StronglySorted_inv in HL as [HL Hlt]. rewrite Forall_forall in Hlt.
  assert (Hne : ∀ m, m ∈ L → m ≠ n) by (intros m Hm ->; by apply (nsid_lt_irrefl n), Hlt).
  assert (Hcount : ∀ m, m ≠ n → rows_count m (map (row_drop n) rows) = rows_count m rows).
  { intros m Hmn. unfold rows_count. rewrite map_map. f_equal. apply map_ext. intros. by apply row_drop_count. }
  destruct (IH (map (row_drop n) rows) L (out ++ [nsid_count n merged]) (Some n)) as (page & Hp & Hnm & Hans).
  - apply Forall_map. eapply Forall_impl; [exact Hs|]. intros. by apply row_drop_sorted.
  - done.
  - intros m. rewrite row_names_spec. rewrite Forall_forall in Hs, Hlr. split.
    + intros Hm. specialize (Hne m Hm). assert (m ∈ row_names rows) as (row & Hr & Hmr)%row_names_spec by (apply Hnames; by right).
      exists (row_drop n row). split; [by apply list_elem_of_fmap_2|]. apply row_drop_names; auto.
    + intros (row' & Hr & Hmr). apply list_elem_of_fmap in Hr as (row & -> & Hr). apply row_drop_names in Hmr as [Hmr Hmn]; [|auto..].
      assert (m ∈ n :: L) as [?|?]%elem_of_cons; [|done|done]. apply Hnames, row_names_spec. eauto.
  - intros m Hm. rewrite Hcount by auto. apply Hw. by right.
  - exists (nsid_count n merged :: page). rewrite Hp, <- app_assoc. split_and!.
    + do 2 f_equal. cbn [take length]. rewrite last_app_cons. apply if_decide_iff. lia.
    + cbn [map take]. by rewrite Hnm.
    + constructor.
      * unfold answers. cbn [nsid_count nc_nsid nc_creates nc_updates nc_deletes]. replace (mkNsid (nsid_str n)) with n by (by destruct n).
        by rewrite <- Hmv.
      * rewrite Forall_forall in *. intros nc Hnc. rewrite <- Hcount; [by apply Hans|].
        assert (nc_nsid nc ∈ map nsid_str (take limit L)) as (m & -> & Hm)%list_elem_of_fmap by (rewrite <- Hnm; by apply list_elem_of_fmap_2).
        destruct m as [m]. apply Hne. by eapply elem_of_take_in.
Qed.
End Merge.

(** ** Sorting *)

Fixpoint nsid_insert (n : Nsid) (l : list Nsid) : list Nsid :=
  match l with
  | [] => [n]
  | m :: l' => if decide (nsid_lt n m) then n :: l else if decide (n = m) then l else m :: nsid_insert n l'
  end.
Definition sorted_nsids (l : list Nsid) : list Nsid := foldr nsid_insert [] l.

Lemma nsid_insert_elem n l m : m ∈ nsid_insert n l ↔ m = n ∨ m ∈ l.
Proof.
  induction l as [|a l IH]; cbn [nsid_insert]; [by rewrite list_elem_of_singleton, elem_of_nil; tauto|].
  repeat case_decide; subst; rewrite ?elem_of_cons, ?IH; tauto.
Qed.

Lemma nsid_insert_sorted n l : StronglySorted nsid_lt l → StronglySorted nsid_lt (nsid_insert n l).
Proof.
  induction 1 as [|a l Hs IH Ha]; cbn [nsid_insert]; [by constructor; constructor|]. repeat case_decide.
  - constructor; [by constructor|]. constructor; [done|]. eapply Forall_impl; [exact Ha|]. intros b Hb. by etrans.
  - by constructor.
  - constructor; [done|]. rewrite Forall_forall in *. intros b [->|Hb]%nsid_insert_elem; [|by apply Ha].
    destruct (nsid_lt_total n a) as [?|[?|?]]; done.
Qed.

Lemma sorted_nsids_ok l : StronglySorted nsid_lt (sorted_nsids l) ∧ ∀ n, n ∈ sorted_nsids l ↔ n ∈ l.
Proof.
  unfold sorted_nsids. induction l as [|a l [Hs He]]; simpl; [split; [constructor|done]|]. split; [by apply nsid_insert_sorted|].
  intros n. by rewrite nsid_insert_elem, He, elem_of_cons.
Qed.

(** [n] comes after the cursor, if there is one. *)
Definition after (cursor : option Nsid) (n : Nsid) : Prop := match cursor with Some c => nsid_lt c n | None => True end.

Lemma sorted_app_after L1 L2 n :
  StronglySorted nsid_lt (L1 ++ L2) → n ∈ L1 ++ L2 → after (last L1) n ↔ n ∈ L2.
Proof.
  intros Hs Hn. destruct L1 as [|c L1 _] using rev_ind; [done|]. rewrite last_snoc. simpl.
  apply StronglySorted_app in Hs as (Hcross & Hs1 & _). rewrite !elem_of_app, list_elem_of_singleton in Hn. split.
  - intros Hlt. destruct Hn as [[Hn| ->]|?]; [|by apply nsid_lt_irrefl in Hlt|done]. exfalso.
    apply StronglySorted_app in Hs1 as (Hc1 & _). apply (nsid_lt_irrefl n). etrans; [apply Hc1; [exact Hn|by left]|done].
  - intros Hin. apply Hcross; [|done]. rewrite elem_of_app, list_elem_of_singleton. by right.
Qed.

(** ** The store *)

Section Store.
Context `{FL : FjallLaws} `{LL : LsmTreeLaws} `{AL : AtriumLaws} `{BL : BincodeStrLaws}.
Context `{SketchOps, AtriumNsid, RawValueJson}.
Context `{Bincode2 CommitCounts, Bincode2 RecordLocationMeta, Bincode2 Sketch, Bincode2 SketchSecretPrefix}.
Context `{!Bincode2Laws CommitCounts, !Bincode2Laws RecordLocationMeta, !Bincode2Laws Sketch}.

Abbreviation Counts := (DbConcat CommitCounts Sketch).
Abbreviation HourlyKey := (DbConcat (DbConcat (DbStaticStr "hourly_counts") (TruncatedCursor Trunc.HOUR_IN_MICROS)) Nsid).
Abbreviation WeeklyKey := (DbConcat (DbConcat (DbStaticStr "weekly_counts") (TruncatedCursor Trunc.WEEK_IN_MICROS)) Nsid).
Abbreviation AllTimeKey := (DbConcat (DbStaticStr "ever_counts") Nsid).

(** The bytes all keys of a bucket start with. *)
Definition bucket_bytes (r : Rollup) : EncodingResult string :=
  match r with
  | Hourly h => to_db_bytes (from_pair (the_static_str : DbStaticStr "hourly_counts") (h : TruncatedCursor Trunc.HOUR_IN_MICROS))
  | Weekly w => to_db_bytes (from_pair (the_static_str : DbStaticStr "weekly_counts") (w : TruncatedCursor Trunc.WEEK_IN_MICROS))
  | AllTime => to_db_bytes (the_static_str : DbStaticStr "ever_counts")
  end.

Definition nsid_bytes (n : Nsid) : string := nsid_str n +:+ String NUL "".

Lemma nsid_bytes_Ok n : wf n → to_db_bytes n = Ok (nsid_bytes n).
Proof. intros Hn. destruct (nsid_no_nul _ Hn) as [Hnul _]. cbn [to_db_bytes nsid_db_bytes]. unfold string_to_db_bytes. by rewrite Hnul. Qed.

Lemma bucket_bytes_Ok r :
  rollup_wf r → ∃ pb, bucket_bytes r = Ok pb ∧ str_forallb (λ c, (byte_n c =? 255)%N) pb = false ∧
    ∀ n, wf n → rollup_key r n = Ok (pb +:+ nsid_bytes n).
Proof.
  intros Hr.
  assert (Hc : ∀ K `{DbBytes K} (k : K) pb n, to_db_bytes k = Ok pb → wf n → enc (from_pair k n) = Ok (pb +:+ nsid_bytes n)).
  { intros K ? k pb n Hk Hn. apply enc_Ok, concat_to_bytes; [done|by apply nsid_bytes_Ok]. }
  destruct r as [h|w|]; cbn [bucket_bytes rollup_key rollup_wf] in *.
  - destruct (prefix_codec (from_pair (the_static_str : DbStaticStr "hourly_counts") (h : TruncatedCursor Trunc.HOUR_IN_MICROS))) as (pb & Hpb & _).
    { split; [done|exact Hr]. }
    exists pb. split_and!; [exact Hpb| |by intros; apply Hc]. pose proof (bucket_not_ff (lit := "hourly_counts") h pb "" eq_refl eq_refl Hpb) as Hff.
    by rewrite str_app_nil_r in Hff.
  - destruct (prefix_codec (from_pair (the_static_str : DbStaticStr "weekly_counts") (w : TruncatedCursor Trunc.WEEK_IN_MICROS))) as (pb & Hpb & _).
    { split; [done|exact Hr]. }
    exists pb. split_and!; [exact Hpb| |by intros; apply Hc]. pose proof (bucket_not_ff (lit := "weekly_counts") w pb "" eq_refl eq_refl Hpb) as Hff.
    by rewrite str_app_nil_r in Hff.
  - destruct (prefix_codec (the_static_str : DbStaticStr "ever_counts")) as (pb & Hpb & _); [done|].
    exists pb. split_and!; [exact Hpb| |by intros; apply Hc]. injection Hpb as <-. done.
Qed.

(** Keys of a bucket sort by nsid. *)
Lemma bucket_key_order pb n m :
  wf n → wf m → bytes_compare (pb +:+ nsid_bytes n) (pb +:+ nsid_bytes m) = bytes_compare (nsid_str n) (nsid_str m).
Proof.
  intros Hn Hm. transitivity (bytes_compare (nsid_bytes n) (nsid_bytes m)).
  - induction pb as [|c pb IH]; [by rewrite !str_app_nil_l|]. rewrite !str_app_cons. simpl. by rewrite N.compare_refl.
  - by rewrite (ordered_keys n m _ _ Hn Hm (nsid_bytes_Ok n Hn) (nsid_bytes_Ok m Hm)).
Qed.

(** An entry of a bucket as an iterator yields it. *)
Definition entry_at (b : Trunc.CursorBucket) (kv : string * string) : StorageResult (Nsid * StorageResult Counts) :=
  match b with
  | Trunc.Hour _ => key ←? dec (T := HourlyKey) kv.1; Ok (suffix key, dec (T := Counts) kv.2)
  | Trunc.Week _ => key ←? dec (T := WeeklyKey) kv.1; Ok (suffix key, dec (T := Counts) kv.2)
  | Trunc.AllTime => key ←? dec (T := AllTimeKey) kv.1; Ok (suffix key, dec (T := Counts) kv.2)
  end.

Lemma entry_at_ok b n (c : Counts) kv :
  rollup_wf (bucket_rollup b) → wf n → wf c → rollup_key (bucket_rollup b) n = Ok kv.1 → to_db_bytes c = Ok kv.2 →
  entry_at b kv = Ok (n, Ok c).
Proof.
  intros Hb Hn Hc Hk Hv. unfold entry_at. rewrite (dec_codec c kv.2 Hc Hv).
  destruct b as [h|w|]; cbn [bucket_rollup rollup_key rollup_wf] in *; apply enc_Ok in Hk.
  - rewrite (dec_codec (rollup_new (hourly_prefix (mkTruncated h)) n : HourlyKey) kv.1); [done| |exact Hk]. split; [split; [done|exact Hb]|exact Hn].
  - rewrite (dec_codec (rollup_new (weekly_prefix (mkTruncated w)) n : WeeklyKey) kv.1); [done| |exact Hk]. split; [split; [done|exact Hb]|exact Hn].
  - rewrite (dec_codec (rollup_new the_static_str n : AllTimeKey) kv.1); [done| |exact Hk]. split; [done|exact Hn].
Qed.

(** What an iterator of a bucket yields, with its bounds. *)
Lemma lexi_iter_Ok d cursor b pb :
  rollup_wf (bucket_rollup b) → match cursor with Some n => wf n | None => True end → bucket_bytes (bucket_rollup b) = Ok pb →
  str_forallb (λ c, (byte_n c =? 255)%N) pb = false →
  ∃ stop, (∀ k, in_range pb stop k ↔ starts_with pb k = true) ∧
    lexi_iter d cursor b = Ok (map (entry_at b) (fj_range d ROLLUPS
      (match cursor with Some n => Excluded (pb +:+ nsid_bytes n) | None => Included pb end) (Excluded stop))).
Proof.
  intros Hb Hc Hpb Hff. destruct (prefix_to_range_spec pb Hff) as (stop & Hstop & Hk). exists stop. split; [exact Hk|].
  destruct (bucket_bytes_Ok _ Hb) as (pb' & Hpb' & _ & Hkey). rewrite Hpb in Hpb'. injection Hpb' as <-.
  assert (Hlo : ∀ K `{DbBytes K} (k : K), to_db_bytes k = Ok pb →
    lexi_start k cursor = Ok (match cursor with Some n => Excluded (pb +:+ nsid_bytes n) | None => Included pb end)).
  { intros K ? k Hk'. unfold lexi_start, after_nsid, rollup_start, from_prefix_to_db_bytes. destruct cursor as [n|]; [|by rewrite Hk'].
    unfold rollup_new, RollupKey. rewrite (concat_to_bytes (from_pair k n) pb (nsid_bytes n) Hk' (nsid_bytes_Ok n Hc)). done. }
  assert (Hhi : ∀ K `{DbBytes K} (k : K), to_db_bytes k = Ok pb → lift_encoding (rollup_end k) = Ok (Excluded stop)).
  { intros K ? k Hk'. unfold rollup_end, prefix_range_end, as_prefix_range_end. rewrite Hk'. cbn [result_bind]. by rewrite Hstop. }
  unfold lexi_iter. destruct b as [h|w|]; cbn [bucket_rollup bucket_bytes] in Hpb; cbn zeta;
    rewrite Hlo by exact Hpb; cbn [result_bind]; rewrite Hhi by exact Hpb; done.
Qed.

(** A collection is in a bucket; the keys of the bucket are of collections. *)
Definition has (d : Keyspace) (b : Trunc.CursorBucket) (n : Nsid) : Prop :=
  ∃ k v, rollup_key (bucket_rollup b) n = Ok k ∧ fj_get d ROLLUPS k = Some v.
Definition bucket_keys_ok (d : Keyspace) (b : Trunc.CursorBucket) : Prop :=
  ∀ pb k v, bucket_bytes (bucket_rollup b) = Ok pb → fj_get d ROLLUPS k = Some v → starts_with pb k = true →
    ∃ n, wf n ∧ rollup_key (bucket_rollup b) n = Ok k.

(** The bytes of a bucket determine it. *)
Lemma bucket_bytes_unique r r' pb pb' x y :
  rollup_wf r → rollup_wf r' → bucket_bytes r = Ok pb → bucket_bytes r' = Ok pb' → pb +:+ x = pb' +:+ y → r = r'.
Proof.
  intros Hr Hr' Hpb Hpb' E.
  assert (Hfam : ∀ q b z, bucket_bytes q = Ok b → in_family (rollup_lit q) (b +:+ z)).
  { intros q b z Hb. destruct q as [h|w|]; cbn [bucket_bytes rollup_lit] in *.
    - destruct (family_of_concat _ _ Hb) as [rest ->]. exists (rest +:+ z). by rewrite str_app_assoc.
    - destruct (family_of_concat _ _ Hb) as [rest ->]. exists (rest +:+ z). by rewrite str_app_assoc.
    - injection Hb as <-. by exists z. }
  assert (El : rollup_lit r = rollup_lit r').
  { apply (in_family_unique _ _ (pb +:+ x)); [by destruct r|by destruct r'|by apply Hfam|rewrite E; by apply Hfam]. }
  destruct r as [h|w|], r' as [h'|w'|]; try done; cbn [bucket_bytes] in Hpb, Hpb'.
  - destruct (prefix_codec_unique (from_pair (the_static_str : DbStaticStr "hourly_counts") (h : TruncatedCursor Trunc.HOUR_IN_MICROS))
      (from_pair the_static_str (h' : TruncatedCursor Trunc.HOUR_IN_MICROS)) pb pb' x y) as [[= ->] _]; done.
  - destruct (prefix_codec_unique (from_pair (the_static_str : DbStaticStr "weekly_counts") (w : TruncatedCursor Trunc.WEEK_IN_MICROS))
      (from_pair the_static_str (w' : TruncatedCursor Trunc.WEEK_IN_MICROS)) pb pb' x y) as [[= ->] _]; done.
Qed.

Lemma bucket_keys d b : rollup_inv d → rollup_wf (bucket_rollup b) → bucket_keys_ok d b.
Proof.
  intros Hinv Hb pb k v Hpb Hg [t ->]%starts_with_spec.
  assert (Hfam : bucket_family (pb +:+ t)).
  { exists (bucket_rollup b). destruct b as [h|w|]; cbn [bucket_rollup bucket_bytes rollup_lit] in *.
    - destruct (family_of_concat _ _ Hpb) as [rest ->]. exists (rest +:+ t). by rewrite str_app_assoc.
    - destruct (family_of_concat _ _ Hpb) as [rest ->]. exists (rest +:+ t). by rewrite str_app_assoc.
    - injection Hpb as <-. by exists t. }
  destruct (ri_keys d Hinv _ v Hfam Hg) as (r & n & Hr & Hn & Hk). destruct (bucket_bytes_Ok r Hr) as (pb' & Hpb' & _ & Hkey).
  rewrite Hkey in Hk by done. injection Hk as E. exists n. split; [done|].
  assert (r = bucket_rollup b) as <- by (by apply (bucket_bytes_unique r _ pb' pb (nsid_bytes n) t)). by rewrite Hkey, E.
Qed.

(** Entry and row element belong together. *)
Definition entry_row (d : Keyspace) (b : Trunc.CursorBucket) (kv : string * string) (e : Nsid * Counts) : Prop :=
  wf e.1 ∧ rollup_key (bucket_rollup b) e.1 = Ok kv.1 ∧ entry_at b kv = Ok (e.1, Ok e.2) ∧
  counts e.2 = rolled_up d (nsid_str e.1) (bucket_rollup b).

Lemma entries_row d b l pb :
  rollup_inv d → rollup_wf (bucket_rollup b) → bucket_bytes (bucket_rollup b) = Ok pb → bucket_keys_ok d b →
  (∀ kv, kv ∈ l → fj_get d ROLLUPS kv.1 = Some kv.2 ∧ starts_with pb kv.1 = true) →
  ∃ row, Forall2 (entry_row d b) l row.
Proof.
  intros Hinv Hb Hpb Hkeys. induction l as [|kv l IH]; intros Hl; [by exists []; constructor|].
  destruct IH as [row Hrow]; [intros; apply Hl; by right|]. destruct (Hl kv) as [Hg Hsw]; [by left|].
  destruct (Hkeys pb kv.1 kv.2 Hpb Hg Hsw) as (n & Hn & Hk).
  destruct (ri_rolled d Hinv n _ kv.1 kv.2 Hn Hb Hk Hg) as (c & Hc & Hcv).
  exists ((n, c) :: row). constructor; [|done]. split_and!; [done|exact Hk|by apply entry_at_ok|].
  unfold rolled_up. cbn [fst snd]. replace (mkNsid (nsid_str n)) with n by (by destruct n). rewrite Hk, Hg. cbn [dec_opt].
  by rewrite (dec_codec c kv.2 Hc Hcv).
Qed.

Lemma rows_of_entries d b l row : Forall2 (entry_row d b) l row → map (entry_at b) l = to_iter row.
Proof. induction 1 as [|kv e l row (_ & _ & He & _) HF IH]; [done|]. cbn [map to_iter]. rewrite He. by f_equal. Qed.

Lemma row_sorted_of d b l row pb :
  (∀ n, wf n → rollup_key (bucket_rollup b) n = Ok (pb +:+ nsid_bytes n)) →
  StronglySorted key_lt l → Forall2 (entry_row d b) l row → row_sorted row.
Proof.
  intros Hpb Hs HF. revert Hs. induction HF as [|kv e l row (Hn & Hk & _) HF IH]; intros Hs; [constructor|].
  apply StronglySorted_inv in Hs as [Hs Ha]. constructor; [by apply IH|]. rewrite Forall_forall in Ha. apply Forall_forall.
  intros n (e' & -> & He')%list_elem_of_fmap. destruct (Forall2_elem_r _ _ _ _ HF He') as (kv' & (Hn' & Hk' & _) & Hkv').
  specialize (Ha kv' Hkv'). unfold key_lt in Ha. rewrite Hpb in Hk, Hk' by done. injection Hk as Ek. injection Hk' as Ek'.
  rewrite <- Ek, <- Ek', bucket_key_order in Ha by done. exact Ha.
Qed.

Lemma row_count_of d b l row n :
  row_sorted row → Forall2 (entry_row d b) l row → n ∈ map fst row → row_count n row = rolled_up d (nsid_str n) (bucket_rollup b).
Proof.
  intros Hs HF. revert Hs. induction HF as [|kv [m c] l row (_ & _ & _ & Hc) HF IH]; intros Hs Hin; [by apply not_elem_of_nil in Hin|].
  cbn [row_count]. cbn [map fst] in Hin. destruct (decide (m = n)) as [->|Hne].
  - rewrite row_absent; [by rewrite add_counts_0_r|]. apply (head_absent n c row); [done|]. apply nsid_lt_irrefl.
  - rewrite add_counts_0_l. apply elem_of_cons in Hin as [?|Hin]; [done|]. apply IH; [|done]. by apply StronglySorted_inv in Hs as [Hs _].
Qed.

(** The row of a sorted range that holds the entries of a bucket whose
    collections satisfy [Q]. *)
Lemma range_row d b pb l (Q : Nsid → Prop) :
  rollup_inv d → rollup_wf (bucket_rollup b) → bucket_bytes (bucket_rollup b) = Ok pb →
  (∀ n, wf n → rollup_key (bucket_rollup b) n = Ok (pb +:+ nsid_bytes n)) → StronglySorted key_lt l →
  (∀ kv, kv ∈ l ↔ fj_get d ROLLUPS kv.1 = Some kv.2 ∧ starts_with pb kv.1 = true ∧ ∀ n, wf n → kv.1 = pb +:+ nsid_bytes n → Q n) →
  ∃ row, map (entry_at b) l = to_iter row ∧ row_sorted row ∧
    (∀ n, n ∈ map fst row ↔ wf n ∧ has d b n ∧ Q n) ∧
    ∀ n, wf n → Q n → row_count n row = rolled_up d (nsid_str n) (bucket_rollup b).
Proof.
  intros Hinv Hb Hpb Hkey Hsl Hrange. pose proof (bucket_keys d b Hinv Hb) as Hkeys.
  destruct (entries_row d b l pb Hinv Hb Hpb Hkeys) as [row Hrow].
  { intros kv Hkv. apply Hrange in Hkv. tauto. }
  assert (Hs : row_sorted row) by (by apply (row_sorted_of d b l row pb Hkey)).
  assert (Hnames : ∀ n, n ∈ map fst row ↔ wf n ∧ has d b n ∧ Q n).
  { intros n. split.
    - intros (e & -> & He)%list_elem_of_fmap. destruct (Forall2_elem_r _ _ _ _ Hrow He) as (kv & (Hn & Hk & _) & Hkv).
      apply Hrange in Hkv as (Hg & _ & Hall). split_and!; [done|by exists kv.1, kv.2|]. apply Hall; [done|]. rewrite Hkey in Hk by done. by injection Hk.
    - intros (Hn & (k & v & Hk & Hg) & Ha). assert (Hkv : (k, v) ∈ l).
      { apply Hrange. cbn [fst snd]. rewrite Hkey in Hk by done. injection Hk as <-. split_and!; [done|apply starts_with_spec; by eexists|].
        intros m Hm E. apply str_app_inj_l in E. assert (n = m) as <-; [|done].
        pose proof (bucket_key_order "" n m Hn Hm) as Ho. rewrite !str_app_nil_l, E, bytes_compare_refl in Ho.
        destruct n as [n], m as [m]. f_equal. symmetry in Ho. by apply bytes_compare_eq in Ho. }
      destruct (Forall2_elem_l _ _ _ _ Hrow Hkv) as (e & (Hn' & Hk' & _) & He). apply list_elem_of_fmap. exists e. split; [|done].
      by destruct (rollup_key_inj _ n _ e.1 k Hb Hn Hb Hn' Hk Hk') as [_ ->]. }
  exists row. split_and!; [by rewrite (rows_of_entries d b _ row Hrow)|done|exact Hnames|].
  intros n Hn Ha. destruct (decide (n ∈ map fst row)) as [Hin|Hno]; [by apply (row_count_of d b _ row n Hs Hrow)|].
  rewrite row_absent by done. unfold rolled_up. replace (mkNsid (nsid_str n)) with n by (by destruct n).
  rewrite Hkey by done. destruct (fj_get d ROLLUPS (pb +:+ nsid_bytes n)) as [v|] eqn:Hg; [|done].
  exfalso. apply Hno, Hnames. split_and!; [done| |done]. exists (pb +:+ nsid_bytes n), v. by rewrite Hkey.
Qed.

(** The iterator of a bucket after a cursor. *)
Lemma lexi_row d cursor b :
  rollup_inv d → rollup_wf (bucket_rollup b) → match cursor with Some n => wf n | None => True end →
  ∃ row, lexi_iter d cursor b = Ok (to_iter row) ∧ row_sorted row ∧
    (∀ n, n ∈ map fst row ↔ wf n ∧ has d b n ∧ after cursor n) ∧
    ∀ n, wf n → after cursor n → row_count n row = rolled_up d (nsid_str n) (bucket_rollup b).
Proof.
  intros Hinv Hb Hc. pose proof (bucket_keys d b Hinv Hb) as Hkeys. destruct (bucket_bytes_Ok _ Hb) as (pb & Hpb & Hff & Hkey).
  destruct (lexi_iter_Ok d cursor b pb Hb Hc Hpb Hff) as (stop & Hstop & Hit).
  set (lo := match cursor with Some n => Excluded (pb +:+ nsid_bytes n) | None => Included pb end) in *.
  assert (Hrange : ∀ kv, kv ∈ fj_range d ROLLUPS lo (Excluded stop) ↔
    fj_get d ROLLUPS kv.1 = Some kv.2 ∧ starts_with pb kv.1 = true ∧ ∀ n, wf n → kv.1 = pb +:+ nsid_bytes n → after cursor n).
  { intros [k v]. rewrite fj_range_spec. cbn [fst snd]. split.
    - intros (Hg & Ha & Hbl). assert (Hsw : starts_with pb k = true).
      { apply Hstop. apply in_range_bounds. split; [|exact Hbl]. unfold lo in Ha. destruct cursor as [c|]; [|exact Ha].
        simpl in *. destruct (bytes_compare (pb +:+ nsid_bytes c) k) eqn:E; try done.
        pose proof (bytes_le_app pb (nsid_bytes c)) as Hle. destruct (bytes_compare pb (pb +:+ nsid_bytes c)) eqn:E2; [|by rewrite (bytes_lt_trans _ _ _ E2 E)|done].
        apply bytes_compare_eq in E2. rewrite <- E2 in E. by rewrite E. }
      split_and!; [done|done|]. intros n Hn ->. unfold lo in Ha. destruct cursor as [c|]; [|done]. simpl in Ha |- *.
      rewrite bucket_key_order in Ha by done. unfold nsid_lt. by destruct (bytes_compare _ _).
    - intros (Hg & Hsw & Hall). destruct (proj2 (in_range_bounds pb stop k) (proj2 (Hstop k) Hsw)) as [Ha Hbl]. split_and!; [done| |done].
      unfold lo. destruct cursor as [c|]; [|exact Ha]. destruct (Hkeys pb k v Hpb Hg Hsw) as (n & Hn & Hk).
      rewrite Hkey in Hk by done. injection Hk as <-. simpl. rewrite bucket_key_order by done. specialize (Hall n Hn eq_refl). simpl in Hall. by rewrite Hall. }
  destruct (range_row d b pb _ (after cursor) Hinv Hb Hpb Hkey (fj_range_sorted d ROLLUPS lo (Excluded stop)) Hrange) as (row & Hr & Hs & Hn & Hcount).
  exists row. by rewrite Hit, Hr.
Qed.

(** The collections of a list of buckets, in order. *)
Definition listed (d : Keyspace) (buckets : list Trunc.CursorBucket) (n : Nsid) : Prop :=
  wf n ∧ ∃ b, b ∈ buckets ∧ has d b n.
Definition listing (d : Keyspace) (buckets : list Trunc.CursorBucket) (L : list Nsid) : Prop :=
  StronglySorted nsid_lt L ∧ ∀ n, n ∈ L ↔ listed d buckets n.

(** What the queries need of a store and its buckets. *)
Record buckets_ok (d : Keyspace) (buckets : list Trunc.CursorBucket) : Prop := {
  bo_inv : rollup_inv d;
  bo_buckets : Forall (λ b, rollup_wf (bucket_rollup b)) buckets;
  bo_fits (n : Nsid) : wf n → wf (buckets_sum d (nsid_str n) buckets)
}.

(** A client that follows the cursors of a query. *)
Fixpoint all_pages {E} (fuel : nat) (query : option string → result E (list NsidCount * option string)) (cursor : option string)
    : result E (list NsidCount) :=
  match fuel with
  | O => Ok []
  | S fuel =>
      '(page, next) ←? query cursor;
      match next with
      | None => Ok page
      | Some cursor => rest ←? all_pages fuel query (Some cursor); Ok (page ++ rest)
      end
  end.

Lemma all_pages_ext {E} fuel (q q' : option string → result E _) cursor : (∀ c, q c = q' c) → all_pages fuel q cursor = all_pages fuel q' cursor.
Proof.
  intros Eq. revert cursor. induction fuel as [|fuel IH]; intros cursor; [done|]. cbn [all_pages]. rewrite Eq.
  destruct (q' cursor) as [[page [c|]]|]; cbn [result_bind]; [by rewrite IH|done|done].
Qed.

Section Pages.
Context (d : Keyspace) (buckets : list Trunc.CursorBucket) (Hok : buckets_ok d buckets).

Lemma rows_ok cursor :
  match cursor with Some n => wf n | None => True end →
  ∃ rows, collect (lexi_iter d cursor) buckets = Ok (map to_iter rows) ∧ Forall row_sorted rows ∧
    (∀ n, n ∈ row_names rows ↔ listed d buckets n ∧ after cursor n) ∧
    ∀ n, wf n → after cursor n → rows_count n rows = buckets_sum d (nsid_str n) buckets.
Proof.
  intros Hc. destruct Hok as [Hinv Hb _]. unfold listed, buckets_sum, row_names, rows_count. clear Hok.
  induction buckets as [|b bs IH]; cbn [collect].
  { exists []. split_and!; [done|constructor| |done]. intros n. simpl. rewrite elem_of_nil. split; [done|]. by intros [[_ (b & ?%not_elem_of_nil & _)] _]. }
  apply Forall_cons in Hb as [Hb Hbs].
  destruct (lexi_row d cursor b Hinv Hb Hc) as (row & -> & Hs & Hnames & Hcount). cbn [result_bind].
  destruct (IH Hbs) as (rows & -> & Hss & Hns & Hcs). cbn [result_bind]. exists (row :: rows). split_and!; [done|by constructor| |].
  - intros n. cbn [flat_map]. rewrite elem_of_app, Hnames, Hns. setoid_rewrite elem_of_cons. naive_solver.
  - intros n Hn Ha. cbn [map sum_counts foldr]. rewrite Hcount by done. f_equal. by apply Hcs.
Qed.

(** A page: the listing is [L1 ++ L2] and the cursor is at the end of [L1]. *)
Lemma page_ok limit L1 L2 cursor :
  listing d buckets (L1 ++ L2) → cursor = nsid_bytes <$> last L1 →
  ∃ page, get_lexi_collections d limit cursor buckets =
      Ok (page, if decide (limit ≤ length L2) then nsid_bytes <$> last (take limit L2) else None) ∧
    map nc_nsid page = map nsid_str (take limit L2) ∧
    Forall (λ nc, answers nc (buckets_sum d (nc_nsid nc) buckets)) page.
Proof.
  intros [HL Hin] ->. assert (Hwf : ∀ n, n ∈ L1 ++ L2 → wf n) by (intros n Hn; apply Hin, Hn).
  assert (Hcur : match last L1 with Some n => wf n | None => True end).
  { destruct (last L1) as [n|] eqn:E; [|done]. apply Hwf. apply last_Some in E as [l ->]. rewrite !elem_of_app, list_elem_of_singleton. tauto. }
  unfold get_lexi_collections.
  assert (dec_opt (T := Nsid) (nsid_bytes <$> last L1) = Ok (last L1)) as ->.
  { destruct (last L1) as [n|]; [|done]. cbn [fmap option_fmap option_map dec_opt]. by rewrite (dec_codec n _ Hcur (nsid_bytes_Ok n Hcur)). }
  cbn [result_bind]. destruct (rows_ok (last L1) Hcur) as (rows & -> & Hs & Hnames & Hcounts). cbn [result_bind].
  assert (HL2 : ∀ n, n ∈ L2 ↔ n ∈ row_names rows).
  { intros n. rewrite Hnames, <- Hin. split.
    - intros Hn. assert (n ∈ L1 ++ L2) by (rewrite elem_of_app; by right). split; [done|]. by apply (sorted_app_after L1 L2 n HL).
    - intros [Hn Ha]. by apply (sorted_app_after L1 L2 n HL). }
  assert (Hsum : ∀ n, n ∈ L2 → rows_count n rows = buckets_sum d (nsid_str n) buckets).
  { intros n Hn. apply Hcounts; [apply Hwf; rewrite elem_of_app; by right|]. by apply HL2, Hnames in Hn as [_ ?]. }
  destruct (lexi_loop_ok limit rows L2 [] None Hs) as (page & -> & Hpn & Hans).
  - by apply StronglySorted_app in HL as (_ & _ & ?).
  - exact HL2.
  - intros n Hn. rewrite Hsum by done. apply (bo_fits _ _ Hok), Hwf. rewrite elem_of_app. by right.
  - cbn [result_bind option_list app]. exists page. split_and!; [|done|].
    + destruct (decide (limit ≤ length L2)); [|reflexivity]. change (option_list None ++ take limit L2) with (take limit L2). destruct (last (take limit L2)) as [n|] eqn:E; [|reflexivity].
      assert (Hn : n ∈ L2) by (apply last_Some in E as [l0 E]; apply (elem_of_take_in n limit); rewrite E, elem_of_app, list_elem_of_singleton; by right).
      assert (wf n) by (apply Hwf; rewrite elem_of_app; by right). unfold enc. by rewrite (nsid_bytes_Ok n).
    + rewrite Forall_forall in *. intros nc Hnc. cut (mkNsid (nc_nsid nc) ∈ L2); [intros HnL; rewrite <- (Hsum _ HnL : _ = buckets_sum d (nc_nsid nc) buckets); by apply Hans|].
      assert (nc_nsid nc ∈ map nsid_str (take limit L2)) as (m & Em & Hm)%list_elem_of_fmap by (rewrite <- Hpn; by apply list_elem_of_fmap_2).
      rewrite Em. destruct m as [m]. by eapply elem_of_take_in.
Qed.

Lemma pages_ok limit fuel : ∀ L1 L2 cursor,
  0 < limit → length L2 < fuel → listing d buckets (L1 ++ L2) → cursor = nsid_bytes <$> last L1 →
  ∃ pages, all_pages fuel (λ c, get_lexi_collections d limit c buckets) cursor = Ok pages ∧ map nc_nsid pages = map nsid_str L2 ∧
    Forall (λ nc, answers nc (buckets_sum d (nc_nsid nc) buckets)) pages.
Proof.
  induction fuel as [|fuel IH]; intros L1 L2 cursor Hlim Hf HL Hc; [lia|]. cbn [all_pages].
  destruct (page_ok limit L1 L2 cursor HL Hc) as (page & -> & Hn & Ha). cbn [result_bind].
  destruct (decide (limit ≤ length L2)) as [Hle|Hgt].
  - destruct (last (take limit L2)) as [c|] eqn:E.
    2: { apply last_None in E. apply (f_equal length) in E. rewrite length_take in E. simpl in E. lia. }
    cbn [fmap option_fmap option_map]. destruct (IH (L1 ++ take limit L2) (drop limit L2) (Some (nsid_bytes c))) as (rest & -> & Hn' & Ha'); [done| | | |].
    + rewrite length_drop. lia.
    + by rewrite <- app_assoc, take_drop.
    + rewrite last_app, E. done.
    + cbn [result_bind]. exists (page ++ rest). split_and!; [done| |by apply Forall_app].
      rewrite map_app, Hn, Hn', <- map_app. by rewrite take_drop.
  - exists page. split_and!; [done| |done]. by rewrite Hn, take_ge by lia.
Qed.
End Pages.

(** There is such a list. *)
Lemma listing_exists d buckets : buckets_ok d buckets → ∃ L, listing d buckets L.
Proof.
  intros Hok. destruct (rows_ok d buckets Hok None I) as (rows & _ & _ & Hnames & _).
  destruct (sorted_nsids_ok (row_names rows)) as [Hs He]. exists (sorted_nsids (row_names rows)). split; [done|].
  intros n. rewrite He, Hnames. simpl. tauto.
Qed.

(** ** Queries of a store in service *)

Section Service.
Context `{!Bincode2Laws SketchSecretPrefix}.
Context (d : Keyspace) (Hser : in_service d).

#[local] Ltac Zify.zify_post_hook ::= Z.to_euclidean_division_equations.

(** Bounds as the server passes them: whole hours that 64 bits hold. *)
Definition hour_opt (o : option N) : Prop := match o with Some h => (h mod HOUR = 0 ∧ h < u64_bound)%N | None => True end.

Lemma earliest_hour_ok : ∃ h, get_earliest_hour d = Ok h ∧ (h mod HOUR = 0)%N.
Proof.
  destruct (service_agrees d Hser) as [Hinv _]. unfold get_earliest_hour.
  assert (enc (the_static_str : DbStaticStr "hourly_counts") = Ok (static_bytes "hourly_counts")) as -> by done. cbn [result_bind].
  destruct (fj_prefix d ROLLUPS (static_bytes "hourly_counts")) as [|[k v] l] eqn:E; [by exists 0%N|].
  assert (Hin : (k, v) ∈ fj_prefix d ROLLUPS (static_bytes "hourly_counts")) by (rewrite E; by left).
  apply fj_prefix_spec in Hin as [Hg Hsw]. apply in_family_starts in Hsw.
  destruct (ri_keys d Hinv k v) as (r & n & Hr & Hn & Hk); [by exists (Hourly (mkTruncated 0))|done|].
  destruct (rollup_key_Ok r n Hr Hn) as (k' & Hk' & Hf). rewrite Hk in Hk'. injection Hk' as <-.
  assert (rollup_lit r = "hourly_counts") by (apply (in_family_unique _ _ k); [by destruct r|done|done|done]).
  destruct r as [h|w|]; [|done|done]. cbn [rollup_key] in Hk. apply enc_Ok in Hk.
  rewrite (dec_codec (rollup_new (hourly_prefix h) n : HourlyKey) k); [|split; [split; [done|exact Hr]|exact Hn]|exact Hk].
  cbn [result_bind]. exists (truncated h). split; [done|]. exact (proj1 Hr).
Qed.

(** The buckets of a query, and what they hold: the all-time counts, or those
    of the hours of a span. *)
Lemma query_buckets_ok since cur_until now :
  hour_opt since → hour_opt cur_until → (now < u64_bound)%N →
  ∃ buckets, query_buckets d since cur_until now = Ok buckets ∧ buckets_ok d buckets ∧
    match since, cur_until with
    | None, None => buckets = [Trunc.AllTime]
    | _, _ => ∃ lower, (default 0 since ≤ lower)%N ∧ let upper := default (Trunc.truncate_cursor HOUR now) cur_until in
        ∀ n : Nsid, wf n → buckets_sum d (nsid_str n) buckets = hours_sum (rolled_up d (nsid_str n)) lower (span_hours lower upper)
    end.
Proof.
  intros Hs Hu Hnow. destruct (service_agrees d Hser) as [Hinv Hag].
  assert (Hspan : ∀ s u : option N, s = since → u = cur_until → (is_Some s ∨ is_Some u) →
    ∃ buckets lower, query_buckets d since cur_until now = Ok buckets ∧ buckets_ok d buckets ∧ (default 0 since ≤ lower)%N ∧
      let upper := default (Trunc.truncate_cursor HOUR now) cur_until in
      ∀ n : Nsid, wf n → buckets_sum d (nsid_str n) buckets = hours_sum (rolled_up d (nsid_str n)) lower (span_hours lower upper)).
  { intros s u -> -> Hsome. destruct earliest_hour_ok as (e & He & Hem).
    set (lower := match since with Some specified => if (e <? specified)%N then specified else e | None => e end).
    set (upper := default (Trunc.truncate_cursor HOUR now) cur_until).
    assert (Hlow : (lower mod HOUR = 0)%N ∧ (default 0 since ≤ lower)%N).
    { unfold lower. destruct since as [x|]; [|split; [done|simpl; lia]]. destruct Hs as [Hs _]. destruct (N.ltb_spec e x); simpl; split; try done; lia. }
    assert (Hup : (upper mod HOUR = 0)%N ∧ (upper < u64_bound)%N).
    { unfold upper. destruct cur_until as [x|]; [exact Hu|]. simpl. assert (HH : HOUR = 3600000000%N) by reflexivity.
      unfold Trunc.truncate_cursor, Trunc.truncate. rewrite HH. lia. }
    assert (Hbs : ∃ bs, Trunc.buckets_spanning lower upper = Ok bs ∧ Forall bucket_ok bs).
    { destruct (N.le_gt_cases lower upper) as [Hle|Hgt].
      - destruct (Trunc.buckets_spanning_ok lower upper (proj1 Hlow) (proj1 Hup) (conj Hle (proj2 Hup))) as (bs & Hbs & Ht & Hf).
        exists bs. split; [done|]. by apply (tiles_ok lower upper bs lower (proj2 Hup)).
      - exists []. split; [|constructor]. unfold Trunc.buckets_spanning. by rewrite (proj2 (N.leb_le _ _)) by lia. }
    destruct Hbs as (bs & Hbs & Hoks).
    assert (Hsum : ∀ n : Nsid, wf n → buckets_sum d (nsid_str n) bs = hours_sum (rolled_up d (nsid_str n)) lower (span_hours lower upper) ∧
      wf (buckets_sum d (nsid_str n) bs)).
    { intros n Hn. destruct (spanning_sum d n lower upper Hinv Hag Hn (proj1 Hlow) (proj1 Hup) (proj2 Hup)) as (bs' & Hbs' & _ & Hb & Hw).
      rewrite Hbs in Hbs'. injection Hbs' as <-. done. }
    exists bs, lower. split_and!.
    - unfold query_buckets. rewrite He. cbn [result_bind]. change Trunc.HOUR_IN_MICROS with HOUR.
      destruct since as [x|], cur_until as [y|]; try (by destruct Hsome as [[]|[]]); unfold lower, upper in Hbs; simpl in Hbs |- *; by rewrite Hbs.
    - split; [done| |by intros n Hn; apply Hsum]. eapply Forall_impl; [exact Hoks|]. by intros b [_ ?].
    - apply Hlow.
    - intros upper' n Hn. by apply Hsum. }
  destruct since as [x|], cur_until as [y|].
  1-3: destruct (Hspan _ _ eq_refl eq_refl) as (bs & lower & ? & ? & ? & ?); [by eauto|]; exists bs; eauto.
  exists [Trunc.AllTime]. split_and!; [done| |done]. split; [done|by repeat constructor|].
  intros n Hn. unfold buckets_sum. simpl. rewrite add_counts_0_r. eapply counts_le_wf; [|apply (ri_fits d Hinv n AllTime Hn I)]. apply counts_le_add_l.
Qed.

Lemma collection_pages_ok (limit : nat) (since cur_until : option N) (now : N) :
  0 < limit → hour_opt since → hour_opt cur_until → (now < u64_bound)%N →
  ∃ buckets L pages, query_buckets d since cur_until now = Ok buckets ∧ listing d buckets L ∧
    all_pages (S (length L)) (λ c, get_collections d limit (Lexi c) since cur_until now) None = Ok pages ∧
    map nc_nsid pages = map nsid_str L ∧ Forall (λ nc, answers nc (buckets_sum d (nc_nsid nc) buckets)) pages ∧
    match since, cur_until with
    | None, None => buckets = [Trunc.AllTime]
    | _, _ => ∃ lower, (default 0 since ≤ lower)%N ∧ let upper := default (Trunc.truncate_cursor HOUR now) cur_until in
        ∀ n : Nsid, wf n → buckets_sum d (nsid_str n) buckets = hours_sum (rolled_up d (nsid_str n)) lower (span_hours lower upper)
    end.
Proof.
  intros Hlim Hs Hu Hnow. destruct (query_buckets_ok since cur_until now Hs Hu Hnow) as (buckets & Hq & Hok & Hwin).
  destruct (listing_exists d buckets Hok) as [L HL].
  destruct (pages_ok d buckets Hok limit (S (length L)) [] L None Hlim) as (pages & Hp & Hn & Ha); [lia|done|done|].
  exists buckets, L, pages. split_and!; try done. rewrite <- Hp. apply all_pages_ext. intros c. unfold get_collections. by rewrite Hq.
Qed.

(** C12. Listing collections by nsid, for all time or for a window: a client that
    starts without a cursor and follows the cursors gets, whatever the page
    size, every collection that has a rollup in the buckets of the window
    exactly once, in the order of the nsids, each with the sum of its counts
    over the buckets; and the pages end.  For a window the sum is that of the
    hourly rollups from the later of [since] and the earliest hour stored. *)
Theorem collections_paged (limit : nat) (since cur_until : option N) (now : N) :
  0 < limit → hour_opt since → hour_opt cur_until → (now < u64_bound)%N →
  ∃ buckets L pages, query_buckets d since cur_until now = Ok buckets ∧ listing d buckets L ∧
    all_pages (S (length L)) (λ c, get_collections d limit (Lexi c) since cur_until now) None = Ok pages ∧
    map nc_nsid pages = map nsid_str L ∧ Forall (λ nc, answers nc (buckets_sum d (nc_nsid nc) buckets)) pages ∧
    match since, cur_until with
    | None, None => buckets = [Trunc.AllTime]
    | _, _ => ∃ lower, (default 0 since ≤ lower)%N ∧ let upper := default (Trunc.truncate_cursor HOUR now) cur_until in
        ∀ n : Nsid, wf n → buckets_sum d (nsid_str n) buckets = hours_sum (rolled_up d (nsid_str n)) lower (span_hours lower upper)
    end.
Proof. apply collection_pages_ok. Qed.
End Service.

(** ** Search *)

Definition term_matches (terms : list string) (n : Nsid) : bool := existsb (λ term, contains_str term (nsid_str n)) terms.

Lemma search_entry_eq terms kv :
  search_entry terms kv =
  ('(n, c) ←? entry_at Trunc.AllTime kv;
   if term_matches terms n then cv ←? c; Ok (Some (nsid_count n cv)) else Ok None).
Proof. unfold search_entry, entry_at. destruct (dec (T := AllTimeKey) kv.1); done. Qed.

Lemma search_loop_ok terms kvs : ∀ row acc,
  map (entry_at Trunc.AllTime) kvs = to_iter row → length acc < SEARCH_LIMIT →
  search_loop terms kvs acc =
  Ok (acc ++ take (SEARCH_LIMIT - length acc) (map (λ e, nsid_count e.1 e.2) (filter (λ e, term_matches terms e.1) row))).
Proof.
  induction kvs as [|kv kvs IH]; intros [|[n c] row] acc E Hlen; try done; cbn [search_loop].
  { rewrite filter_nil. cbn [map]. by rewrite take_nil, app_nil_r. }
  assert (E1 : entry_at Trunc.AllTime kv = Ok (n, Ok c)) by (by injection E).
  assert (E2 : map (entry_at Trunc.AllTime) kvs = to_iter row) by (by injection E). rewrite search_entry_eq, E1. cbn [result_bind fst snd]. rewrite filter_cons. cbn [fst].
  destruct (term_matches terms n); cbn [result_bind].
  - rewrite (decide_True (P := Is_true true)) by done. cbn [map fst snd].
    destruct (SEARCH_LIMIT - length acc) as [|k] eqn:Ek; [lia|]. cbn [take].
    destruct (decide (SEARCH_LIMIT ≤ length (acc ++ [nsid_count n c]))) as [Hle|Hgt]; rewrite length_app in *; simpl in *.
    + assert (k = 0) as -> by lia. done.
    + rewrite (IH row) by (done || (rewrite length_app; simpl; lia)). rewrite <- app_assoc, length_app. cbn [app length].
      do 3 f_equal. f_equal. lia.
  - rewrite (decide_False (P := Is_true false)) by (by intros []). rewrite decide_False by lia. by apply IH.
Qed.

Lemma sorted_nodup l : StronglySorted nsid_lt l → NoDup l.
Proof. induction 1 as [|a l Hs IH Ha]; constructor; [|done]. rewrite Forall_forall in Ha. intros Hin. by apply (nsid_lt_irrefl a), Ha. Qed.

Lemma sorted_nsids_unique l1 l2 :
  StronglySorted nsid_lt l1 → StronglySorted nsid_lt l2 → (∀ n, n ∈ l1 ↔ n ∈ l2) → l1 = l2.
Proof.
  intros H1' H2' He. eapply StronglySorted_unique_strong; [|done|done|apply NoDup_Permutation; auto using sorted_nodup].
  intros a b _ _ Hab Hba. exfalso. apply (nsid_lt_irrefl a). by etrans.
Qed.

Lemma search_ok `{!Bincode2Laws SketchSecretPrefix} (d : Keyspace) (terms : list string) :
  in_service d →
  ∃ L out, listing d [Trunc.AllTime] L ∧ search_collections d terms = Ok out ∧
    map nc_nsid out = map nsid_str (take SEARCH_LIMIT (filter (term_matches terms) L)) ∧
    Forall (λ nc, answers nc (rolled_up d (nc_nsid nc) AllTime)) out.
Proof.
  intros Hser. destruct (service_agrees d Hser) as [Hinv _].
  destruct (query_buckets_ok d Hser None None 0 I I eq_refl) as (bs & _ & Hok & ->). destruct (listing_exists d _ Hok) as [L HL].
  destruct Hok as [_ Hb _]. apply Forall_cons in Hb as [Hb _]. pose proof HL as [HLs Hin].
  destruct (lexi_row d None Trunc.AllTime Hinv Hb I) as (row & Hrow & Hs & Hnames & Hcount).
  assert (map fst row = L) as EL.
  { apply sorted_nsids_unique; [done|exact HLs|]. intros n. rewrite Hnames, Hin. unfold listed. setoid_rewrite list_elem_of_singleton. naive_solver. }
  unfold search_collections. unfold lexi_iter in Hrow. cbn zeta in Hrow. unfold lexi_start in Hrow.
  destruct (lift_encoding (rollup_start (the_static_str : DbStaticStr "ever_counts"))) as [lo|]; [|done]. cbn [result_bind] in Hrow |- *.
  destruct (lift_encoding (rollup_end (the_static_str : DbStaticStr "ever_counts"))) as [hi|]; [|done]. cbn [result_bind] in Hrow |- *.
  injection Hrow as Hrow. rewrite (search_loop_ok terms _ row) by (exact Hrow || (simpl; unfold SEARCH_LIMIT; lia)).
  exists L. eexists. split; [done|]. split; [done|]. cbn [app length]. rewrite Nat.sub_0_r. split.
  - rewrite <- !firstn_map, map_map. cbn [nsid_count nc_nsid]. rewrite <- EL. f_equal.
    clear. induction row as [|[n c] row IH]; [done|]. cbn [map fst]. rewrite !filter_cons. cbn [fst].
    destruct (decide (term_matches terms n)); [cbn [map fst]; by f_equal|done].
  - apply Forall_forall. intros nc Hnc. apply elem_of_take_in in Hnc. apply list_elem_of_fmap in Hnc as ([n c] & -> & [_ He]%list_elem_of_filter).
    cbn [fst snd nsid_count nc_nsid]. assert (Hn : n ∈ map fst row) by (by apply (list_elem_of_fmap_2 fst _ (n, c))).
    pose proof (proj1 (Hnames n) Hn) as (Hwn & _ & Ha). rewrite <- (Hcount n Hwn Ha : _ = rolled_up d (nsid_str n) AllTime).
    rewrite (row_count_elem n c row Hs He). done.
Qed.

(** Search: the answer is the first sixteen collections, in the order of
    their nsids, that contain one of the terms, with their all-time counts. *)
Theorem search_spec `{!Bincode2Laws SketchSecretPrefix} (d : Keyspace) (terms : list string) :
  in_service d →
  ∃ L out, listing d [Trunc.AllTime] L ∧ search_collections d terms = Ok out ∧
    map nc_nsid out = map nsid_str (take SEARCH_LIMIT (filter (term_matches terms) L)) ∧
    Forall (λ nc, answers nc (rolled_up d (nc_nsid nc) AllTime)) out.
Proof. apply search_ok. Qed.
End Store.
End Queries.
