(* ===== verification/UfosPipeline.v ===== *)
(** * ufos: from the stream to the counts

    The writing side put together: events fill batches, batches go through the
    queue into the store, and the rollup runs in between, in any order.  The
    specification is the list of events: how many creates, updates and deletes
    of a collection it has.  Shown here: no step of the pipeline fails, at any
    time events are counted once, in the buckets, in the live counts or in a
    batch; and once the stream pauses, the totals that a client reads are the
    numbers of events. *)

From Stdlib Require Import Sorted.
From stdpp Require Import sorting.
From S2P Require Import Prelude RustStr Bytes UfosCursor UfosDbTypes.
From S2P Require Import UfosStoreTypes UfosBatch UfosFjallApi UfosStorage UfosRollup.
From S2P Require Import UfosBackground UfosInsert UfosInit UfosReader UfosCounts.
From S2P Require Import UfosQueries.
Import Db Store Batch FjallStore Background Insert Init Reader Counting Queries.

Module Pipeline.

(** ** Counting events *)

Definition op_counts (c : UFOsCommit) : CommitCounts :=
  match c_action c with Put _ false => mkCounts 1 0 0 | Put _ true => mkCounts 0 1 0 | Cut => mkCounts 0 0 1 end.

Definition tally (adds : list (string * UFOsCommit)) (n : string) : CommitCounts :=
  sum_counts (map (λ e, if decide (e.1 = n) then op_counts e.2 else zero_counts) adds).

Definition event_adds (ev : JetstreamEvent) : list (string * UFOsCommit) :=
  match event_effect ev with Ok (adds, _) => adds | Err _ => [] end.

(** The commits of some events, by collection. *)
Definition events_tally (evs : list JetstreamEvent) (n : string) : CommitCounts := tally (concat (map event_adds evs)) n.

Lemma tally_app l1 l2 n : tally (l1 ++ l2) n = add_counts (tally l1 n) (tally l2 n).
Proof. unfold tally. by rewrite map_app, sum_counts_app. Qed.

Lemma events_tally_app evs ev n : events_tally (evs ++ [ev]) n = add_counts (events_tally evs n) (tally (event_adds ev) n).
Proof. unfold events_tally. rewrite map_app, concat_app, tally_app. simpl. by rewrite app_nil_r. Qed.

(** No count exceeds the number of events. *)
Definition counts_within (B : N) (c : CommitCounts) : Prop := (creates c ≤ B ∧ updates c ≤ B ∧ deletes c ≤ B)%N.

Lemma tally_within l n : counts_within (N.of_nat (length l)) (tally l n).
Proof.
  induction l as [|e l (H1 & H2 & H3)]; [done|]. unfold tally in *. cbn [map sum_counts foldr length].
  change (foldr add_counts zero_counts) with sum_counts. assert (Hop : counts_within 1 (if decide (e.1 = n) then op_counts e.2 else zero_counts)).
  { case_decide; [|done]. unfold op_counts. by destruct (c_action e.2) as [? []|]. }
  destruct Hop as (A1 & A2 & A3). unfold counts_within, add_counts. cbn [creates updates deletes]. lia.
Qed.

Lemma event_adds_length ev : length (event_adds ev) ≤ 1.
Proof. unfold event_adds, event_effect. repeat case_match; simplify_eq; simpl; lia. Qed.

Lemma events_within evs n : counts_within (N.of_nat (length evs)) (events_tally evs n).
Proof.
  assert (Hl : length (concat (map event_adds evs)) ≤ length evs).
  { induction evs as [|ev evs IH]; [done|]. cbn [map concat length]. rewrite length_app. pose proof (event_adds_length ev). lia. }
  destruct (tally_within (concat (map event_adds evs)) n) as (H1 & H2 & H3). unfold counts_within, events_tally in *. lia.
Qed.

(** ** What the batcher does to its batches *)

Section Batcher.
Context `{SketchOps}.

Definition seen (b : EventBatch) (n : string) : CommitCounts :=
  match commits_by_nsid b !! n with Some cc => cc_counts cc | None => zero_counts end.
Definition in_flight (st : Batcher) (n : string) : CommitCounts := sum_counts (map (λ b, seen b n) (batches st)).

Lemma in_flight_batch st n : in_flight st n = add_counts (sum_counts (map (λ b, seen b n) (sent st))) (seen (batch st) n).
Proof. unfold in_flight, batches. rewrite map_app, sum_counts_app. simpl. by rewrite add_counts_0_r. Qed.

(** Nothing is taken in. *)
Inductive quiet : Batcher → Batcher → Prop :=
  | quiet_cursor st c : quiet st (mkBatcher c (batch st) (sketch_secret st) (sent st))
  | quiet_send st : quiet st (mkBatcher None batch_default (sketch_secret st) (sent st ++ [batch st])).

(** At most one commit or one removal is taken in. *)
Inductive takes (st : Batcher) : list (string * UFOsCommit) → list DeleteAccount → Batcher → Prop :=
  | takes_none : takes st [] [] st
  | takes_commit n c b : eb_inv b →
      insert_commit_by_nsid MAX_BATCHED_RECORDS (batch st) n c MAX_BATCHED_COLLECTIONS (sketch_secret st) = (b, Ok ()) →
      takes st [(nsid_str n, c)] [] (with_batch st b)
  | takes_removal r : length (account_removes (batch st)) < MAX_ACCOUNT_REMOVES →
      takes st [] [r] (with_batch st (mkBatch (commits_by_nsid (batch st)) (account_removes (batch st) ++ [r]))).

Definition handles (st : Batcher) (adds : list (string * UFOsCommit)) (rems : list DeleteAccount) (st' : Batcher) : Prop :=
  ∃ s1 s2, rtc quiet st s1 ∧ takes s1 adds rems s2 ∧ rtc quiet s2 st'.

Lemma send_quiet q st st' : send_current_batch_now q st = Ok st' → quiet st st'.
Proof. unfold send_current_batch_now. destruct (accepts q); [|done]. intros [= <-]. constructor. Qed.

Lemma quiet_limits st st' : rtc quiet st st' → eb_inv (batch st) → eb_inv (batch st').
Proof. induction 1 as [|s1 s2 s3 Hq _ IH]; [done|]. intros Hb. apply IH. destruct Hq; [done|apply eb_inv_default]. Qed.

Lemma check_span_quiet q st ev st' : check_span q st ev = Ok st' → rtc quiet st st'.
Proof.
  unfold check_span. destruct (initial_cursor st); [|intros [= <-]; apply rtc_once; constructor].
  unfold duration_since. destruct (_ <? _)%N; [done|]. cbn [result_bind]. destruct (_ <? _)%N.
  - intros Hs. by eapply rtc_once, send_quiet.
  - intros [= <-]. reflexivity.
Qed.

Lemma send_if_idle_quiet q st ev st' : send_if_idle q st ev = Ok st' → rtc quiet st st'.
Proof.
  unfold send_if_idle. destruct (initial_cursor st); [|intros [= <-]; reflexivity].
  unfold duration_since. destruct (_ <? _)%N; [done|]. cbn [result_bind]. destruct (_ && _).
  - intros Hs. by eapply rtc_once, send_quiet.
  - intros [= <-]. reflexivity.
Qed.

Lemma no_events_quiet q st st' : no_events_step q st = Ok st' → rtc quiet st st'.
Proof. unfold no_events_step. destruct (is_empty (batch st)); [intros [= <-]; reflexivity|]. intros Hs. by eapply rtc_once, send_quiet. Qed.

Lemma handle_commit_handles q st c n st' :
  eb_inv (batch st) → handle_commit q st c n = Ok st' → handles st [(nsid_str n, c)] [] st'.
Proof.
  intros Hinv. unfold handle_commit. destruct (decide (has_room (batch st) (nsid_str n))) as [Hr|Hr].
  - destruct (insert_nsid_ok (batch st) n c (sketch_secret st) Hinv Hr) as (b' & E & Hb & _). rewrite E. intros [= <-].
    exists st, (with_batch st b'). split_and!; [reflexivity|by constructor|reflexivity].
  - rewrite insert_nsid_full by done. replace (with_batch st (batch st)) with st by (by destruct st).
    destruct (send_current_batch_now q st) as [s1|] eqn:Es; [|done]. cbn [result_bind]. apply send_quiet in Es as Hq.
    assert (Hb1 : batch s1 = batch_default) by (unfold send_current_batch_now in Es; destruct (accepts q); [by injection Es as <-|done]).
    destruct (insert_nsid_ok (batch s1) n c (sketch_secret s1)) as (b' & E & Hb & _); [rewrite Hb1; apply eb_inv_default|rewrite Hb1; apply has_room_default|].
    rewrite E. intros [= <-]. exists s1, (with_batch s1 b'). split_and!; [by apply rtc_once|by constructor|reflexivity].
Qed.

Lemma handle_event_handles q st ev st' adds rems :
  eb_inv (batch st) → event_effect ev = Ok (adds, rems) → handle_event q st ev = Ok st' → handles st adds rems st'.
Proof.
  intros Hinv Hev. unfold handle_event. destruct (check_span q st ev) as [s1|] eqn:E1; [|done]. cbn [result_bind].
  destruct (apply_event q s1 ev) as [s2|] eqn:E2; [|done]. cbn [result_bind]. intros E3%send_if_idle_quiet. apply check_span_quiet in E1.
  assert (Hinv1 : eb_inv (batch s1)) by (by eapply quiet_limits). assert (Hh : handles s1 adds rems s2).
  { unfold apply_event in E2. unfold event_effect in Hev. destruct (ev_kind ev).
    - destruct (ev_commit ev) as [ce|]; [|done]. destruct (from_commit_info ce (ev_did ev) (ev_cursor ev)) as [[c n]|]; [|done]. cbn [lift_firehose result_bind] in E2.
      injection Hev as <- <-. by eapply handle_commit_handles.
    - injection Hev as <- <-. injection E2 as <-. exists s1, s1. split_and!; [reflexivity|constructor|reflexivity].
    - destruct (ev_account_active ev) as [[]|]; [| |done]; injection Hev as <- <-.
      + injection E2 as <-. exists s1, s1. split_and!; [reflexivity|constructor|reflexivity].
      + unfold handle_delete_account in E2. destruct (decide (MAX_ACCOUNT_REMOVES ≤ length (account_removes (batch s1)))) as [Hf|Hf].
        * destruct (send_current_batch_now q s1) as [s3|] eqn:Es; [|done]. cbn [result_bind] in E2. injection E2 as <-. apply send_quiet in Es as Hq.
          assert (Hb3 : batch s3 = batch_default) by (unfold send_current_batch_now in Es; destruct (accepts q); [by injection Es as <-|done]).
          eexists s3, _. split_and!; [by apply rtc_once|constructor; rewrite Hb3; unfold MAX_ACCOUNT_REMOVES; simpl; lia|reflexivity].
        * injection E2 as <-. eexists s1, _. split_and!; [reflexivity|constructor; lia|reflexivity]. }
  destruct Hh as (t1 & t2 & H1 & H2 & H3). exists t1, t2. split_and!; [by etransitivity|done|by etransitivity].
Qed.

(** One more commit in a bounded list. *)
Lemma displace_sub LIMIT commit fuel : ∀ commits head start commits' head' r,
  displace LIMIT fuel commits head start commit = (commits', head', r) → ∀ x, x ∈ commits' → x = commit ∨ x ∈ commits.
Proof.
  induction fuel as [|fuel IH]; intros commits head start commits' head' r E x Hx; cbn [displace] in E; [injection E as <- _ _; by right|].
  destruct (commits !! head) as [y|]; [|injection E as <- _ _; by right]. destruct (is_create (c_action y)).
  - injection E as <- _ _. apply list_elem_of_lookup in Hx as [i Hi]. apply list_lookup_insert_Some in Hi as [(_ & <- & _)|[_ Hi]]; [by left|right; by eapply list_elem_of_lookup_2].
  - case_decide; [injection E as <- _ _; by right|]. by eapply IH.
Qed.

Lemma truncating_insert_takes LIMIT cc c secret cc' :
  cc_inv LIMIT cc → truncating_insert LIMIT cc c secret = (cc', Ok ()) →
  (∀ x, x ∈ cc_commits cc' → x = c ∨ x ∈ cc_commits cc) ∧ cc_commits cc' ≠ [] ∧ cc_counts cc' = add_counts (cc_counts cc) (op_counts c).
Proof.
  intros Hinv E. pose proof (truncating_insert_room LIMIT cc c secret Hinv) as Hs. rewrite E in Hs. destruct Hs as (_ & Hin).
  split_and!; [|intros E'; rewrite E' in Hin; by apply not_elem_of_nil in Hin|].
  - unfold truncating_insert in E. case_decide; [done|]. intros x Hx. destruct (c_action c) as [? []|]; cbn beta iota in E; case_decide.
    all: try (injection E as <-; cbn [cc_commits] in Hx; apply elem_of_app in Hx as [Hx|Hx%list_elem_of_singleton]; [by right|by left]).
    all: destruct (displace LIMIT (S (S LIMIT)) (cc_commits cc) (cc_head cc) (cc_head cc) c) as [[l h] r] eqn:Ed; injection E as <- _; by eapply displace_sub.
  - unfold truncating_insert in E. case_decide; [done|]. unfold op_counts. destruct (c_action c) as [? []|]; cbn beta iota in E; case_decide.
    all: try (destruct (displace LIMIT (S (S LIMIT)) (cc_commits cc) (cc_head cc) (cc_head cc) c) as [[l h] r] eqn:Ed).
    all: injection E as <-; unfold cc_counts, add_counts; cbn [cc_creates cc_updates cc_deletes creates updates deletes]; f_equal; lia.
Qed.

Lemma insert_nsid_takes b n c secret b' :
  eb_inv b → insert_commit_by_nsid MAX_BATCHED_RECORDS b n c MAX_BATCHED_COLLECTIONS secret = (b', Ok ()) →
  account_removes b' = account_removes b ∧ ∃ cc', commits_by_nsid b' = <[nsid_str n := cc']> (commits_by_nsid b) ∧ cc_commits cc' ≠ [] ∧
    (∀ x, x ∈ cc_commits cc' → x = c ∨ x ∈ commits_of b (nsid_str n)) ∧ cc_counts cc' = add_counts (seen b (nsid_str n)) (op_counts c).
Proof.
  intros Hinv. unfold insert_commit_by_nsid. destruct (_ && _); [done|].
  destruct (truncating_insert MAX_BATCHED_RECORDS (default cc_default (commits_by_nsid b !! nsid_str n)) c secret) as [cc' r] eqn:E. intros [= <- ->].
  destruct (truncating_insert_takes _ _ _ _ _ (eb_inv_lookup b _ Hinv) E) as (Hin & Hne & Hc). split; [done|]. exists cc'. split_and!; [done|done|done|].
  rewrite Hc. unfold seen. by destruct (commits_by_nsid b !! nsid_str n).
Qed.

Lemma elem_batch_cursors b u :
  u ∈ batch_cursors b ↔
  (∃ n cc x, commits_by_nsid b !! n = Some cc ∧ x ∈ cc_commits cc ∧ u = cursor_us (c_cursor x)) ∨
  ∃ r, r ∈ account_removes b ∧ u = cursor_us (del_cursor r).
Proof.
  unfold batch_cursors, batch_commits. rewrite elem_of_app, !list_elem_of_fmap. f_equiv.
  - split.
    + intros (x & -> & Hx). apply list_elem_of_In, in_concat in Hx as (l & Hl & Hx). apply in_map_iff in Hl as (cc & <- & Hcc). apply in_map_iff in Hcc as ([n cc'] & <- & Hn).
      exists n, cc', x. apply list_elem_of_In, elem_of_map_to_list in Hn. split_and!; [done|by apply list_elem_of_In|done].
    + intros (n & cc & x & Hn & Hx & ->). exists x. split; [done|]. apply list_elem_of_In, in_concat. exists (cc_commits cc). split; [|by apply list_elem_of_In].
      apply in_map_iff. exists cc. split; [done|]. apply in_map_iff. exists (n, cc). split; [done|]. by apply list_elem_of_In, elem_of_map_to_list.
  - split; intros (r & H1 & H2); exists r; auto.
Qed.
End Batcher.

(** ** Batches in order *)

Section Pipe.
Context `{FL : FjallLaws} `{LL : LsmTreeLaws} `{AL : AtriumLaws} `{BL : BincodeStrLaws}.
Context `{SketchOps, AtriumNsid, RawValueJson}.
Context `{Bincode2 CommitCounts, Bincode2 RecordLocationMeta, Bincode2 Sketch, Bincode2 SketchSecretPrefix}.
Context `{!Bincode2Laws CommitCounts, !Bincode2Laws RecordLocationMeta, !Bincode2Laws Sketch, !Bincode2Laws SketchSecretPrefix}.

Abbreviation LiveKey := (DbConcat (DbConcat (DbStaticStr "live_counts") Cursor) Nsid).

Record batch_shape (b : EventBatch) : Prop := {
  bs_commits n cc : commits_by_nsid b !! n = Some cc → wf (mkNsid n) ∧ Forall commit_wf (cc_commits cc) ∧ cc_commits cc ≠ [];
  bs_removes : Forall remove_wf (account_removes b);
  bs_sorted : StronglySorted (λ x y, (cursor_us (del_cursor x) ≤ cursor_us (del_cursor y))%N) (account_removes b);
  bs_pos u : u ∈ batch_cursors b → (0 < u)%N
}.

Definition earlier (b b' : EventBatch) : Prop := ∀ u u', u ∈ batch_cursors b → u' ∈ batch_cursors b' → (u < u')%N.

(** Nothing in the batches lies after [u]. *)
Record bat_ok (u : N) (st : Batcher) : Prop := {
  bk_shape : Forall batch_shape (batches st);
  bk_order : StronglySorted earlier (batches st);
  bk_upto b v : b ∈ batches st → v ∈ batch_cursors b → (v ≤ u)%N;
  bk_limits : eb_inv (batch st)
}.

Lemma no_cursors u : u ∉ batch_cursors batch_default.
Proof. by apply not_elem_of_nil. Qed.

Lemma empty_shape : batch_shape batch_default.
Proof. split; [intros n cc; simpl; by rewrite lookup_empty|constructor|constructor|by intros u ?%no_cursors]. Qed.

Lemma quiet_ok u st st' : quiet st st' → bat_ok u st → bat_ok u st' ∧ ∀ n, in_flight st' n = in_flight st n.
Proof.
  destruct 1 as [st c|st]; intros [Hs Ho Hu Hl]; [done|]. unfold batches in *. cbn [sent batch] in *. split; [split|]; unfold batches; cbn [sent batch].
  - apply Forall_app. split; [done|]. constructor; [apply empty_shape|constructor].
  - apply StronglySorted_app. split_and!; [|done|constructor; constructor].
    intros b b' _ ->%list_elem_of_singleton v v' _ Hv. by destruct (no_cursors v').
  - intros b v [Hb| ->%list_elem_of_singleton]%elem_of_app Hv; [by eapply Hu|by destruct (no_cursors v)].
  - apply eb_inv_default.
  - intros n. rewrite !in_flight_batch. cbn [sent batch]. rewrite map_app, sum_counts_app. simpl. unfold seen at 3. simpl. rewrite lookup_empty, !add_counts_0_r. done.
Qed.

Lemma quiets_ok u st st' : rtc quiet st st' → bat_ok u st → bat_ok u st' ∧ ∀ n, in_flight st' n = in_flight st n.
Proof.
  induction 1 as [|s1 s2 s3 Hq _ IH]; [done|]. intros Hb. destruct (quiet_ok u s1 s2 Hq Hb) as [Hb2 E2]. destruct (IH Hb2) as [Hb3 E3].
  split; [done|]. intros n. by rewrite E3.
Qed.

(** The last batch grows by something newer than all batches. *)
Lemma grow_ok u v st b :
  bat_ok u st → (u < v)%N → eb_inv b → batch_shape b → (∀ w, w ∈ batch_cursors b → w = v ∨ w ∈ batch_cursors (batch st)) → bat_ok v (with_batch st b).
Proof.
  intros [Hs Ho Hu Hl] Huv Hb Hsh Hc. unfold batches in *. split; unfold batches; cbn [with_batch sent batch].
  - apply Forall_app in Hs as [Hs _]. apply Forall_app. split; [done|]. constructor; [done|constructor].
  - apply StronglySorted_app in Ho as (Hlt & Ho & _). apply StronglySorted_app. split_and!; [|done|constructor; constructor].
    intros b1 b2 Hb1 ->%list_elem_of_singleton x y Hx [->|Hy]%Hc.
    + eapply N.le_lt_trans; [|exact Huv]. apply (Hu b1); [apply elem_of_app; by left|done].
    + by apply (Hlt b1 (batch st)); [|by left|..].
  - intros b1 w [Hb1| ->%list_elem_of_singleton]%elem_of_app Hw.
    + etransitivity; [|apply N.lt_le_incl, Huv]. apply (Hu b1); [apply elem_of_app; by left|done].
    + apply Hc in Hw as [->|Hw]; [done|]. etransitivity; [|apply N.lt_le_incl, Huv]. apply (Hu (batch st)); [apply elem_of_app; right; by left|done].
  - done.
Qed.

Lemma last_shape u st : bat_ok u st → batch_shape (batch st).
Proof. intros [Hs _ _ _]. unfold batches in Hs. apply Forall_app in Hs as [_ Hs]. by inversion Hs. Qed.

(** What an event may bring. *)
Definition adds_wf (v : N) (adds : list (string * UFOsCommit)) (rems : list DeleteAccount) : Prop :=
  (0 < v)%N ∧ (∀ n c, (n, c) ∈ adds → wf (mkNsid n) ∧ commit_wf c ∧ cursor_us (c_cursor c) = v) ∧
  (∀ r, r ∈ rems → remove_wf r ∧ cursor_us (del_cursor r) = v).

Lemma commit_ok u v st n c b :
  bat_ok u st → (u < v)%N → eb_inv b → adds_wf v [(nsid_str n, c)] [] →
  insert_commit_by_nsid MAX_BATCHED_RECORDS (batch st) n c MAX_BATCHED_COLLECTIONS (sketch_secret st) = (b, Ok ()) →
  bat_ok v (with_batch st b) ∧ ∀ m, in_flight (with_batch st b) m = add_counts (in_flight st m) (tally [(nsid_str n, c)] m).
Proof.
  intros Hk Huv Hb (Hv & Ha & _) E. destruct (Ha (nsid_str n) c) as (Hn & Hc & Hcv); [by left|].
  destruct (insert_nsid_takes _ _ _ _ _ (bk_limits u st Hk) E) as (Hr & cc' & Em & Hne & Hin & Hcount).
  pose proof (last_shape u st Hk) as Hsh.
  assert (Hcur : ∀ w, w ∈ batch_cursors b → w = v ∨ w ∈ batch_cursors (batch st)).
  { intros w. rewrite !elem_batch_cursors, Hr, Em. intros [(m & cc & x & Hm & Hx & ->)|Hrem]; [|right; by right].
    apply lookup_insert_Some in Hm as [[<- <-]|[_ Hm]]; [|right; left; by exists m, cc, x].
    apply Hin in Hx as [->|Hx]; [by left|]. right. left. unfold commits_of in Hx. destruct (commits_by_nsid (batch st) !! nsid_str n) as [cc0|] eqn:E0; [|by apply not_elem_of_nil in Hx].
    by exists (nsid_str n), cc0, x. }
  split.
  - apply (grow_ok u v); [done|done|done| |done]. split.
    + intros m cc. rewrite Em. intros [[<- <-]|[_ Hm]]%lookup_insert_Some; [|by apply (bs_commits _ Hsh)]. split_and!; [done| |done].
      apply Forall_forall. intros x [->|Hx]%Hin; [done|]. unfold commits_of in Hx. destruct (commits_by_nsid (batch st) !! nsid_str n) as [cc0|] eqn:E0; [|by apply not_elem_of_nil in Hx].
      destruct (bs_commits _ Hsh _ _ E0) as (_ & Hall & _). rewrite Forall_forall in Hall. by apply Hall.
    + rewrite Hr. apply Hsh.
    + rewrite Hr. apply Hsh.
    + intros w [->|Hw]%Hcur; [done|by apply (bs_pos _ Hsh)].
  - intros m. rewrite !in_flight_batch. cbn [with_batch sent batch]. rewrite <- add_counts_assoc. f_equal. unfold tally. cbn [map sum_counts foldr fst snd].
    change (foldr add_counts zero_counts []) with zero_counts. rewrite add_counts_0_r. unfold seen at 1. rewrite Em. destruct (decide (nsid_str n = m)) as [<-|Hnm].
    + by rewrite lookup_insert_eq, Hcount.
    + by rewrite lookup_insert_ne, add_counts_0_r.
Qed.

Lemma removal_ok u v st r :
  bat_ok u st → (u < v)%N → length (account_removes (batch st)) < MAX_ACCOUNT_REMOVES → adds_wf v [] [r] →
  let st' := with_batch st (mkBatch (commits_by_nsid (batch st)) (account_removes (batch st) ++ [r])) in
  bat_ok v st' ∧ ∀ n, in_flight st' n = in_flight st n.
Proof.
  intros Hk Huv Hlen (Hv & _ & Hr) st'. destruct (Hr r) as [Hrw Hrv]; [by left|]. pose proof (last_shape u st Hk) as Hsh.
  assert (Hcur : ∀ w, w ∈ batch_cursors (batch st') → w = v ∨ w ∈ batch_cursors (batch st)).
  { intros w. rewrite !elem_batch_cursors. cbn [st' with_batch batch commits_by_nsid account_removes].
    intros [Hc|(r' & [Hr'| ->%list_elem_of_singleton]%elem_of_app & ->)]; [right; by left| |by left]. right. right. by exists r'. }
  split; [|intros n; by rewrite !in_flight_batch].
  apply (grow_ok u v); [done|done| | |done]; destruct (bk_limits u st Hk) as [L1 L2 L3]; [split; [done|done|cbn [account_removes]; rewrite length_app; simpl; lia]|].
  split; cbn [st' with_batch batch commits_by_nsid account_removes] in *.
  - apply (bs_commits _ Hsh).
  - apply Forall_app. split; [apply Hsh|]. constructor; [done|constructor].
  - apply StronglySorted_app. split_and!; [|apply Hsh|constructor; constructor]. intros x y Hx ->%list_elem_of_singleton. rewrite Hrv.
    etransitivity; [|apply N.lt_le_incl, Huv]. apply (bk_upto u st Hk (batch st)); [unfold batches; apply elem_of_app; right; by left|].
    apply elem_batch_cursors. right. by exists x.
  - intros w Hw. apply Hcur in Hw as [->|Hw]; [done|by apply (bs_pos _ Hsh)].
Qed.

Lemma bat_ok_mono u v st : (u ≤ v)%N → bat_ok u st → bat_ok v st.
Proof. intros Huv [Hs Ho Hu Hl]. split; [done|done| |done]. intros b w Hb Hw. etransitivity; [by eapply Hu|done]. Qed.

Lemma handles_ok u v st adds rems st' :
  bat_ok u st → (u < v)%N → adds_wf v adds rems → handles st adds rems st' →
  bat_ok v st' ∧ ∀ n, in_flight st' n = add_counts (in_flight st n) (tally adds n).
Proof.
  intros Hk Huv Ha (s1 & s2 & Q1 & T & Q2). destruct (quiets_ok u st s1 Q1 Hk) as [Hk1 E1].
  assert (Hmid : bat_ok v s2 ∧ ∀ n, in_flight s2 n = add_counts (in_flight s1 n) (tally adds n)).
  { destruct T as [|n c b Hb E|r Hr].
    - split; [eapply bat_ok_mono, Hk1; lia|]. intros n. unfold tally. simpl. by rewrite add_counts_0_r.
    - by apply (commit_ok u v).
    - destruct (removal_ok u v s1 r Hk1 Huv Hr Ha) as [Hk2 E2]. split; [done|]. intros n. unfold tally. simpl. by rewrite add_counts_0_r. }
  destruct Hmid as [Hk2 E2]. destruct (quiets_ok v s2 st' Q2 Hk2) as [Hk3 E3]. split; [done|]. intros n. by rewrite E3, E2, E1.
Qed.
(** Batches that were sent stay sent. *)
Lemma quiets_sent st st' : rtc quiet st st' → ∃ l, sent st' = sent st ++ l.
Proof.
  induction 1 as [st|s1 s2 s3 Hq _ [l IH]]; [exists []; by rewrite app_nil_r|]. destruct Hq as [s c|s]; cbn [sent] in IH; [by exists l|].
  exists (batch s :: l). by rewrite IH, <- app_assoc.
Qed.
Lemma handles_sent st adds rems st' : handles st adds rems st' → ∃ l, sent st' = sent st ++ l.
Proof.
  intros (s1 & s2 & [l1 E1]%quiets_sent & T & [l2 E2]%quiets_sent). exists (l1 ++ l2).
  assert (sent s2 = sent s1) as E by (by destruct T). by rewrite E2, E, E1, app_assoc.
Qed.

(** ** The pipeline *)

Record Pipe : Type := mkPipe { pi_batcher : Batcher; pi_stored : nat; pi_store : Keyspace }.

Definition take_event (q : Queue) (p : Pipe) (ev : JetstreamEvent) : result BatcherError Pipe :=
  b ←? handle_event q (pi_batcher p) ev; Ok (mkPipe b (pi_stored p) (pi_store p)).
Definition pause (q : Queue) (p : Pipe) : result BatcherError Pipe :=
  b ←? no_events_step q (pi_batcher p); Ok (mkPipe b (pi_stored p) (pi_store p)).
Definition store_next (p : Pipe) : StorageResult Pipe :=
  match sent (pi_batcher p) !! pi_stored p with
  | None => Ok p
  | Some b => d ←? insert_batch (pi_store p) b; Ok (mkPipe (pi_batcher p) (S (pi_stored p)) d)
  end.
Definition roll (p : Pipe) : StorageResult Pipe :=
  '(d, _, _) ←? step_rollup (pi_store p); Ok (mkPipe (pi_batcher p) (pi_stored p) d).

Definition last_us (evs : list JetstreamEvent) : N := match last evs with Some ev => cursor_us (ev_cursor ev) | None => 0 end.

(** An event as the stream brings it: complete, with valid identifiers, and
    later than the events before it. *)
Record arrives (evs : list JetstreamEvent) (ev : JetstreamEvent) : Prop := {
  ar_effect : ∃ adds rems, event_effect ev = Ok (adds, rems);
  ar_cursor : wf (ev_cursor ev) ∧ (last_us evs < cursor_us (ev_cursor ev))%N;
  ar_did : wf (ev_did ev);
  ar_commit ce : ev_commit ev = Some ce → wf (ce_collection ce) ∧ wf (ce_rkey ce) ∧ wf (ce_rev ce) ∧
    (N.of_nat (String.length (ce_rev ce)) + 17 ≤ BINCODE_LIMIT)%N
}.

(** The states the pipeline reaches, with the events it was given. *)
Inductive flow : list JetstreamEvent → Pipe → Prop :=
  | flow_start d ep force secret now d' : fresh d → wf secret → wf now →
      init d ep force (Some secret) now = Ok (d', None, secret) →
      flow [] (mkPipe (mkBatcher None batch_default (secret_bytes secret) []) 0 d')
  | flow_event q evs ev p p' : flow evs p → accepts q = true → arrives evs ev → take_event q p ev = Ok p' → flow (evs ++ [ev]) p'
  | flow_pause q evs p p' : flow evs p → accepts q = true → pause q p = Ok p' → flow evs p'
  | flow_store evs p p' : flow evs p → store_next p = Ok p' → flow evs p'
  | flow_roll evs p p' : flow evs p → roll p = Ok p' → flow evs p'.

Definition stored (p : Pipe) : list EventBatch := firstn (pi_stored p) (sent (pi_batcher p)).
Definition waiting (p : Pipe) : list EventBatch := drop (pi_stored p) (batches (pi_batcher p)).
Definition seen_in (bs : list EventBatch) (n : string) : CommitCounts := sum_counts (map (λ b, seen b n) bs).

Record pipe_ok (evs : list JetstreamEvent) (p : Pipe) : Prop := {
  po_bat : bat_ok (last_us evs) (pi_batcher p);
  po_initial c : initial_cursor (pi_batcher p) = Some c → (cursor_us c ≤ last_us evs)%N;
  po_flight n : in_flight (pi_batcher p) n = events_tally evs n;
  po_stored : pi_stored p ≤ length (sent (pi_batcher p));
  po_service : in_service (pi_store p);
  po_low : rollup_low (pi_store p);
  po_totals (n : Nsid) r : wf n → rollup_wf r → counts_le (total (pi_store p) (nsid_str n) r) (seen_in (stored p) (nsid_str n));
  po_all (n : Nsid) : wf n → total (pi_store p) (nsid_str n) AllTime = seen_in (stored p) (nsid_str n);
  po_within B : (∀ b u, b ∈ stored p → u ∈ batch_cursors b → (u ≤ B)%N) → within B (pi_store p)
}.

Lemma last_us_snoc evs ev : last_us (evs ++ [ev]) = cursor_us (ev_cursor ev).
Proof. unfold last_us. by rewrite last_snoc. Qed.

(** What an event brings is well formed. *)
Lemma arrives_wf evs ev adds rems : arrives evs ev → event_effect ev = Ok (adds, rems) → adds_wf (cursor_us (ev_cursor ev)) adds rems.
Proof.
  intros [_ [Hc Hlt] Hd Hce] He. split; [lia|]. unfold event_effect in He. destruct (ev_kind ev).
  - destruct (ev_commit ev) as [ce|]; [|done]. destruct (Hce ce eq_refl) as (Hn & Hr & Hv & Hl). unfold from_commit_info in He.
    destruct (match ce_operation ce with OpDelete => _ | _ => _ end) as [a|]; [|done]. cbn [result_bind] in He. injection He as <- <-.
    split; [|by intros r ?%not_elem_of_nil]. intros n c [= -> ->]%list_elem_of_singleton. by destruct (ce_collection ce).
  - injection He as <- <-. split; [by intros n c ?%not_elem_of_nil|by intros r ?%not_elem_of_nil].
  - destruct (ev_account_active ev) as [[]|]; [| |done]; injection He as <- <-.
    + split; [by intros n c ?%not_elem_of_nil|by intros r ?%not_elem_of_nil].
    + split; [by intros n c ?%not_elem_of_nil|]. by intros r ->%list_elem_of_singleton.
Qed.
(** The batcher changes, the store does not. *)
Lemma batcher_step evs evs' p b' :
  pipe_ok evs p → bat_ok (last_us evs') b' → (∀ c, initial_cursor b' = Some c → (cursor_us c ≤ last_us evs')%N) →
  (∀ n, in_flight b' n = events_tally evs' n) → (∃ l, sent b' = sent (pi_batcher p) ++ l) → pipe_ok evs' (mkPipe b' (pi_stored p) (pi_store p)).
Proof.
  intros [Hb Hi Hf Hs Hsv Hlo Ht Ha Hw] Hb' Hi' Hf' [l El].
  assert (Est : stored (mkPipe b' (pi_stored p) (pi_store p)) = stored p).
  { unfold stored. cbn [pi_stored pi_batcher]. rewrite El. by apply take_app_le. }
  split; rewrite ?Est; cbn [pi_batcher pi_stored pi_store]; try done. rewrite El, length_app. lia.
Qed.

Lemma event_step q evs p ev :
  pipe_ok evs p → accepts q = true → arrives evs ev → ∃ p', take_event q p ev = Ok p' ∧ pipe_ok (evs ++ [ev]) p'.
Proof.
  intros Hok Hq Har. destruct (ar_effect _ _ Har) as (adds & rems & He). destruct (ar_cursor _ _ Har) as [_ Hlt].
  destruct (handle_event_ok q (pi_batcher p) ev adds rems Hq (bk_limits _ _ (po_bat _ _ Hok))) as (b' & E & _ & Hi).
  { intros c Hc%(po_initial _ _ Hok). lia. } { done. }
  pose proof (handle_event_handles _ _ _ _ _ _ (bk_limits _ _ (po_bat _ _ Hok)) He E) as Hh.
  destruct (handles_ok _ _ _ _ _ _ (po_bat _ _ Hok) Hlt (arrives_wf _ _ _ _ Har He) Hh) as [Hb Hf].
  unfold take_event. rewrite E. eexists. split; [done|]. apply (batcher_step evs); rewrite ?last_us_snoc; try done.
  - intros n. rewrite Hf, (po_flight _ _ Hok), events_tally_app. unfold event_adds at 1. by rewrite He.
  - by eapply handles_sent.
Qed.

Lemma pause_step q evs p :
  pipe_ok evs p → accepts q = true → ∃ p', pause q p = Ok p' ∧ pipe_ok evs p' ∧ is_empty (batch (pi_batcher p')) = true.
Proof.
  intros Hok Hq. unfold pause, no_events_step, send_current_batch_now. rewrite Hq. destruct (is_empty (batch (pi_batcher p))) eqn:He; cbn [result_bind].
  - eexists. split_and!; [done| |done]. destruct p. apply Hok.
  - eexists. split_and!; [done| |done]. destruct (quiet_ok _ _ _ (quiet_send (pi_batcher p)) (po_bat _ _ Hok)) as [Hb Hf].
    apply (batcher_step evs); [done|done|done| |by eexists]. intros n. by rewrite Hf, (po_flight _ _ Hok).
Qed.

Lemma roll_step evs p : pipe_ok evs p → ∃ p', roll p = Ok p' ∧ pipe_ok evs p' ∧ pi_batcher p' = pi_batcher p ∧ pi_stored p' = pi_stored p.
Proof.
  intros Hok. destruct (service_agrees _ (po_service _ _ Hok)) as [Hinv _].
  destruct (step_rollup_good _ Hinv) as (d' & n & dirty & E & [Hinv' Ht] & _ & Hlow & Hw). unfold roll. rewrite E. cbn [result_bind].
  eexists. split_and!; [done| |done|done]. destruct Hok as [Hb Hi Hf Hs Hsv Hlo Hts Ha Hwi]. split; cbn [pi_batcher pi_stored pi_store]; try done.
  - by eapply service_rollup.
  - by apply Hlow.
  - intros m r Hm Hr. rewrite Ht by done. by apply Hts.
  - intros m Hm. rewrite Ht by done. by apply Ha.
  - intros B HB. by apply Hw, Hwi.
Qed.

(** Storing the next batch. *)
Lemma seen_in_app l1 l2 n : seen_in (l1 ++ l2) n = add_counts (seen_in l1 n) (seen_in l2 n).
Proof. unfold seen_in. by rewrite map_app, sum_counts_app. Qed.

Lemma seen_fits evs p k n : pipe_ok evs p → (N.of_nat (length evs) < u64_bound)%N → wf (seen_in (firstn k (sent (pi_batcher p))) n).
Proof.
  intros Hok Hlen. apply (counts_le_wf _ (events_tally evs n)).
  - rewrite <- (po_flight _ _ Hok), in_flight_batch. rewrite <- (take_drop k (sent (pi_batcher p))) at 2.
    rewrite map_app, sum_counts_app, <- add_counts_assoc. apply counts_le_add_l.
  - destruct (events_within evs n) as (W1 & W2 & W3). unfold wf, counts_wf. lia.
Qed.

Lemma inserted_le b latest n r : counts_le (inserted b latest n r) (seen b n).
Proof.
  unfold inserted, seen. destruct (commits_by_nsid b !! n) as [cc|]; [|apply counts_le_refl]. destruct (decide (in_bucket r latest)); [apply counts_le_refl|].
  unfold counts_le. simpl. lia.
Qed.

Lemma inserted_all b latest n : inserted b latest n AllTime = seen b n.
Proof.
  unfold inserted, seen. destruct (commits_by_nsid b !! n) as [cc|]; [|done]. rewrite decide_True; [done|]. unfold in_bucket. rewrite !elem_of_cons. auto.
Qed.

Lemma empty_seen b n : is_empty b = true → seen b n = zero_counts.
Proof. intros [E%bool_decide_eq_true _]%andb_true_iff. unfold seen. by rewrite E, lookup_empty. Qed.

Lemma shape_latest b :
  batch_shape b → is_empty b = false → ∃ latest, latest_cursor b = Some latest ∧ cursor_us latest ∈ batch_cursors b.
Proof.
  intros Hs He. pose proof (latest_cursor_spec b (bs_sorted _ Hs)) as Hl. destruct (latest_cursor b) as [c|]; [exists c; by destruct Hl|].
  assert (∃ u, u ∈ batch_cursors b) as [u Hu].
  { unfold is_empty in He. apply andb_false_iff in He as [He|He]; apply bool_decide_eq_false in He.
    - apply map_choose in He as (n & cc & Hn). destruct (bs_commits _ Hs n cc Hn) as (_ & _ & Hne). destruct (cc_commits cc) as [|x l] eqn:El; [done|].
      exists (cursor_us (c_cursor x)). apply elem_batch_cursors. left. exists n, cc, x. rewrite El. split_and!; [done|by left|done].
    - destruct (account_removes b) as [|r l] eqn:El; [done|]. exists (cursor_us (del_cursor r)). apply elem_batch_cursors. right. exists r. rewrite El. split; [by left|done]. }
  specialize (Hl u Hu). pose proof (bs_pos _ Hs u Hu). lia.
Qed.
(** A batch later than everything stored. *)
Lemma later_fresh B d latest :
  rollup_inv d → within B d → (B < cursor_us latest)%N → wf latest →
  ∀ (nsid : Nsid) k, wf nsid → to_db_bytes (live_counts_key latest nsid : LiveKey) = Ok k → fj_get d ROLLUPS k = None.
Proof.
  intros Hinv HB Hlt Hl nsid k Hn Hk. destruct (fj_get d ROLLUPS k) as [v|] eqn:Hg; [exfalso|done].
  assert (Hin : (k, v) ∈ live_list d).
  { apply fj_prefix_spec. split; [done|]. apply live_family_in. by apply family_of_concat2 in Hk. }
  pose proof (wi_live B d HB _ Hin) as Hle. unfold live_us in Hle. cbn [fst] in Hle.
  rewrite (dec_codec (live_counts_key latest nsid : LiveKey) k) in Hle; [|split; [split; [done|exact Hl]|exact Hn]|exact Hk].
  change (live_counts_cursor (live_counts_key latest nsid)) with latest in Hle. lia.
Qed.

Lemma sent_in_batches st i b : sent st !! i = Some b → batches st !! i = Some b.
Proof. intros E. unfold batches. by apply lookup_app_l_Some. Qed.

Lemma stored_before evs p b b' u u' :
  pipe_ok evs p → sent (pi_batcher p) !! pi_stored p = Some b → b' ∈ stored p → u' ∈ batch_cursors b' → u ∈ batch_cursors b → (u' < u)%N.
Proof.
  intros Hok Hb Hb' Hu' Hu. pose proof (bk_order _ _ (po_bat _ _ Hok)) as Ho. unfold batches in Ho. apply StronglySorted_app in Ho as (_ & Ho & _).
  rewrite <- (take_drop (pi_stored p) (sent (pi_batcher p))) in Ho. apply StronglySorted_app in Ho as (Hlt & _ & _).
  apply (Hlt b' b); [done| |done|done]. apply list_elem_of_lookup. exists 0. by rewrite lookup_drop, Nat.add_0_r.
Qed.

(** Whatever a well-shaped batch holds is added, in the buckets of its cursor. *)
Lemma insert_shaped d b (held : string → CommitCounts) :
  in_service d → rollup_low d → batch_shape b → (∀ n, wf (add_counts (seen b n) (held n))) →
  (∀ (n : Nsid) r, wf n → rollup_wf r → counts_le (total d (nsid_str n) r) (held (nsid_str n))) →
  (∀ u, u ∈ batch_cursors b → within (u - 1) d) →
  ∃ d', insert_batch d b = Ok d' ∧ in_service d' ∧ rollup_low d' ∧
    (∀ (n : Nsid) r, wf n → rollup_wf r → ∃ x, counts_le x (seen b (nsid_str n)) ∧ (r = AllTime → x = seen b (nsid_str n)) ∧
       total d' (nsid_str n) r = add_counts x (total d (nsid_str n) r)) ∧
    (∀ B, within B d → (∀ u, u ∈ batch_cursors b → u ≤ B)%N → within B d').
Proof.
  intros Hsv Hlow Hsh Hfit Hle Hbefore. destruct (is_empty b) eqn:He.
  { exists d. unfold insert_batch. rewrite He. split_and!; [done|done|done| |done].
    intros n r _ _. exists zero_counts. rewrite (empty_seen b _ He). split_and!; [apply counts_le_refl|done|done]. }
  destruct (service_agrees _ Hsv) as [Hinv _]. destruct (shape_latest b Hsh He) as (latest & Hlat & Hlb).
  assert (Hbw : batch_wf b).
  { split; [|apply Hsh]. apply Forall_forall. intros [n cc] Hn%elem_of_map_to_list. destruct (bs_commits _ Hsh n cc Hn) as (W1 & W2 & _).
    split_and!; [done|done|]. apply (counts_le_wf _ _ (counts_le_add_l _ (held n))). specialize (Hfit n). unfold seen in Hfit. by rewrite Hn in Hfit. }
  assert (Hfresh : ∀ (nsid : Nsid) k, is_Some (commits_by_nsid b !! nsid_str nsid) →
    to_db_bytes (live_counts_key latest nsid : LiveKey) = Ok k → fj_get d ROLLUPS k = None).
  { intros nsid k [cc Hcc]. pose proof (bs_pos _ Hsh _ Hlb). apply (later_fresh (cursor_us latest - 1)); [done|by apply Hbefore|lia|by eapply latest_wf|].
    destruct (bs_commits _ Hsh _ _ Hcc) as (W & _). by destruct nsid. }
  destruct (insert_batch_good d b latest Hinv Hbw Hlat Hfresh) as (d' & E & _ & Ht & Hlo & Hw).
  { intros nsid r Hn Hr. eapply counts_le_wf; [|apply (Hfit (nsid_str nsid))]. apply counts_le_add; [apply inserted_le|by apply Hle]. }
  assert (Hrem : ∀ r, r ∈ account_removes b → cursor_us (del_cursor r) ∈ batch_cursors b) by (intros r Hr; apply elem_batch_cursors; right; by exists r).
  exists d'. split_and!; [done| | | |].
  - eapply service_insert; [done..| |done]. intros nsid r Hn Hr. eapply counts_le_wf; [|apply (Hfit (nsid_str nsid))].
    apply counts_le_add; [apply inserted_le|by apply Hle].
  - apply Hlo; [done|]. intros c Hc. split.
    + pose proof (wi_cursor _ _ (Hbefore _ Hlb) c Hc). lia.
    + apply Forall_forall. intros r Hr. pose proof (wi_cursor _ _ (Hbefore _ (Hrem r Hr)) c Hc). lia.
  - intros n r Hn Hr. exists (inserted b latest (nsid_str n) r). split_and!; [apply inserted_le|intros ->; apply inserted_all|by apply Ht].
  - intros B HB Hc. apply Hw; [done|by apply Hc|]. intros r Hr. by apply Hc, Hrem.
Qed.

Lemma store_step evs p :
  pipe_ok evs p → (N.of_nat (length evs) < u64_bound)%N →
  ∃ p', store_next p = Ok p' ∧ pipe_ok evs p' ∧ pi_batcher p' = pi_batcher p ∧ (pi_stored p < length (sent (pi_batcher p)) → pi_stored p' = S (pi_stored p)).
Proof.
  intros Hok Hlen. unfold store_next. destruct (sent (pi_batcher p) !! pi_stored p) as [b|] eqn:Eb.
  2: { exists p. split_and!; [done|done|done|]. apply lookup_ge_None in Eb. lia. }
  assert (Hlt : pi_stored p < length (sent (pi_batcher p))) by (by eapply lookup_lt_Some).
  assert (Hsh : batch_shape b).
  { pose proof (bk_shape _ _ (po_bat _ _ Hok)) as Hs. rewrite Forall_forall in Hs. apply Hs. by eapply list_elem_of_lookup_2, sent_in_batches. }
  assert (Hst : ∀ d', stored (mkPipe (pi_batcher p) (S (pi_stored p)) d') = stored p ++ [b]) by (intros; by apply take_S_r).
  assert (Hsum : ∀ n, seen_in (stored p ++ [b]) n = add_counts (seen b n) (seen_in (stored p) n)).
  { intros n. rewrite seen_in_app, add_counts_comm. unfold seen_in at 1. simpl. by rewrite add_counts_0_r. }
  assert (Hfit : ∀ n, wf (add_counts (seen b n) (seen_in (stored p) n))).
  { intros n. rewrite <- Hsum, <- (Hst (pi_store p)). exact (seen_fits evs p (S (pi_stored p)) n Hok Hlen). }
  destruct (insert_shaped (pi_store p) b (seen_in (stored p)) (po_service _ _ Hok) (po_low _ _ Hok) Hsh Hfit (po_totals _ _ Hok))
    as (d' & E & Hsv & Hlo & Ht & Hw).
  { intros u Hu. apply (po_within _ _ Hok). intros b' u' Hb' Hu'. pose proof (stored_before evs p b b' u u' Hok Eb Hb' Hu' Hu). lia. }
  rewrite E. cbn [result_bind]. eexists. split_and!; [done| |done|done].
  destruct Hok as [Kb Ki Kf Ks Ksv Klo Kt Ka Kw]. split; rewrite ?Hst; cbn [pi_batcher pi_stored pi_store]; try done.
  - intros n r Hn Hr. destruct (Ht n r Hn Hr) as (x & Hx & _ & ->). rewrite Hsum. apply counts_le_add; [done|by apply Kt].
  - intros n Hn. destruct (Ht n AllTime Hn I) as (x & _ & -> & ->); [|done]. by rewrite Hsum, Ka.
  - intros B HB. apply Hw.
    + apply Kw. intros b' u Hb' Hu. apply (HB b'); [|done]. apply elem_of_app. by left.
    + intros u Hu. apply (HB b); [|done]. apply elem_of_app. right. by left.
Qed.
Lemma flow_ok evs p : flow evs p → (N.of_nat (length evs) < u64_bound)%N → pipe_ok evs p.
Proof.
  induction 1 as [d ep force secret now d' Hf Hs Hnow Hi|q evs ev p p' _ IH Hq Har E|q evs p p' _ IH Hq E|evs p p' _ IH E|evs p p' _ IH E]; intros Hlen.
  - destruct (init_first d ep force secret now Hf Hs Hnow) as (d1 & Hi' & Hst). rewrite Hi in Hi'. injection Hi' as <-.
    destruct (started_inv _ _ _ Hst) as [_ Hlow]. split; cbn [pi_batcher pi_stored pi_store]; try done.
    + split; unfold batches; cbn [sent batch app].
      * constructor; [apply empty_shape|constructor].
      * constructor; constructor.
      * intros b v ->%list_elem_of_singleton Hv. by destruct (no_cursors v).
      * apply eb_inv_default.
    + by apply (service_start _ d ep force secret now).
    + intros n r _ _. rewrite (started_total _ _ _ _ _ Hst). unfold counts_le. simpl. lia.
    + intros n _. by rewrite (started_total _ _ _ _ _ Hst).
    + intros B _. split.
      * intros c Hc. pose proof (st_rollup _ _ _ Hst) as Hz. unfold cursor_is in *. rewrite Hc in Hz. injection Hz as ->. simpl. lia.
      * intros kv. unfold live_list. rewrite empty_prefix; [by intros ?%not_elem_of_nil|]. intros k. by apply (st_other _ _ _ Hst).
      * intros kv. unfold queue_list. rewrite empty_prefix; [by intros ?%not_elem_of_nil|]. intros k. by apply (st_other _ _ _ Hst).
  - rewrite length_app in Hlen. simpl in Hlen. destruct (event_step q evs p ev) as (p2 & E2 & Hok); [apply IH; lia|done|done|]. rewrite E in E2. by injection E2 as ->.
  - destruct (pause_step q evs p (IH Hlen) Hq) as (p2 & E2 & Hok & _). rewrite E in E2. by injection E2 as ->.
  - destruct (store_step evs p (IH Hlen) Hlen) as (p2 & E2 & Hok & _). rewrite E in E2. by injection E2 as ->.
  - destruct (roll_step evs p (IH Hlen)) as (p2 & E2 & Hok & _). rewrite E in E2. by injection E2 as ->.
Qed.

(** In the store or in a batch that waits. *)
Lemma counted_once evs p (n : Nsid) :
  pipe_ok evs p → wf n → add_counts (total (pi_store p) (nsid_str n) AllTime) (seen_in (waiting p) (nsid_str n)) = events_tally evs (nsid_str n).
Proof.
  intros Hok Hn. rewrite (po_all _ _ Hok n Hn), <- (po_flight _ _ Hok), <- seen_in_app. unfold in_flight. change (sum_counts _) with (seen_in (batches (pi_batcher p)) (nsid_str n)).
  f_equal. unfold stored, waiting, batches. rewrite drop_app_le by apply (po_stored _ _ Hok). by rewrite app_assoc, take_drop.
Qed.

(** C6. From the stream to the store: however events, pauses, stores and
    rollup steps interleave, none of them fails, and at any time every commit
    of the events so far is counted exactly once for its collection, in the
    rolled-up counts, in the live counts or in a batch that waits. *)
Theorem pipeline_counts (evs : list JetstreamEvent) (p : Pipe) (q : Queue) :
  flow evs p → (N.of_nat (length evs) < u64_bound)%N → accepts q = true →
  (∀ ev, arrives evs ev → ∃ p', take_event q p ev = Ok p') ∧ (∃ p', pause q p = Ok p') ∧
  (∃ p', store_next p = Ok p') ∧ (∃ p', roll p = Ok p') ∧
  ∀ n : Nsid, wf n →
    add_counts (add_counts (rolled_up (pi_store p) (nsid_str n) AllTime) (live_total (pi_store p) (nsid_str n) AllTime))
      (seen_in (waiting p) (nsid_str n)) = events_tally evs (nsid_str n).
Proof.
  intros Hflow Hlen Hq. pose proof (flow_ok evs p Hflow Hlen) as Hok. split_and!.
  - intros ev Har. destruct (event_step q evs p ev Hok Hq Har) as (p' & E & _). eauto.
  - destruct (pause_step q evs p Hok Hq) as (p' & E & _). eauto.
  - destruct (store_step evs p Hok Hlen) as (p' & E & _). eauto.
  - destruct (roll_step evs p Hok) as (p' & E & _). eauto.
  - intros n Hn. by apply counted_once.
Qed.

(** ** When the stream pauses *)

Fixpoint store_all (k : nat) (p : Pipe) : StorageResult Pipe :=
  match k with O => Ok p | S k => p ←? store_next p; store_all k p end.

Lemma store_all_ok evs k : ∀ p,
  pipe_ok evs p → (N.of_nat (length evs) < u64_bound)%N → pi_stored p + k = length (sent (pi_batcher p)) →
  ∃ p', store_all k p = Ok p' ∧ pipe_ok evs p' ∧ pi_batcher p' = pi_batcher p ∧ pi_stored p' = length (sent (pi_batcher p)).
Proof.
  induction k as [|k IH]; intros p Hok Hlen Hk; cbn [store_all]; [exists p; split_and!; [done..|lia]|].
  destruct (store_step evs p Hok Hlen) as (p1 & -> & Hok1 & Eb & Es). cbn [result_bind]. specialize (Es ltac:(lia)).
  destruct (IH p1 Hok1 Hlen) as (p2 & E2 & Hok2 & Eb2 & Es2); [rewrite Eb; lia|]. exists p2. rewrite Eb2, Es2, Eb. done.
Qed.

Lemma ticks_service k : ∀ d dirty d' dirty', in_service d → rollup_ticks k (d, dirty) = Ok (d', dirty') → in_service d'.
Proof.
  induction k as [|k IH]; intros d dirty d' dirty' Hs; cbn [rollup_ticks]; [by intros [= <- _]|].
  unfold rollup_tick. cbn [fst snd]. destruct (step_rollup d) as [[[d1 n] dirty1]|] eqn:E; [|done]. cbn [result_bind]. apply IH. by eapply service_rollup.
Qed.

Lemma has_counts d (n : Nsid) : rolled_up d (nsid_str n) AllTime ≠ zero_counts → has d Trunc.AllTime n.
Proof.
  unfold rolled_up, has. destruct n as [n]. cbn [nsid_str]. change (bucket_rollup Trunc.AllTime) with AllTime.
  destruct (rollup_key AllTime (mkNsid n)) as [k|]; [|done]. destruct (fj_get d ROLLUPS k) as [v|] eqn:E; [|done]. eauto.
Qed.

(** C5. When the stream pauses, the index catches up with it: the idle batcher
    sends its batch, the queued batches are stored, as many rollup ticks run as
    entries are pending, and then a client that pages through the collections
    gets every collection with a commit, once, each with the numbers of its
    creates, updates and deletes in the stream. *)
Theorem stream_reaches_clients (evs : list JetstreamEvent) (p : Pipe) (q : Queue) (limit : nat) (now : N) :
  flow evs p → (N.of_nat (length evs) < u64_bound)%N → accepts q = true → 0 < limit → (now < u64_bound)%N →
  ∃ p1 p2 d' dirty' L pages,
    pause q p = Ok p1 ∧ store_all (length (sent (pi_batcher p1)) - pi_stored p1) p1 = Ok p2 ∧
    rollup_ticks (pending (pi_store p2)) (pi_store p2, ∅) = Ok (d', dirty') ∧
    all_pages (S (length L)) (λ c, get_collections d' limit (Lexi c) None None now) None = Ok pages ∧
    map nc_nsid pages = map nsid_str L ∧ StronglySorted nsid_lt L ∧
    (∀ n : Nsid, wf n → events_tally evs (nsid_str n) ≠ zero_counts → n ∈ L) ∧
    Forall (λ nc, answers nc (events_tally evs (nc_nsid nc))) pages.
Proof.
  intros Hflow Hlen Hq Hlim Hnow. pose proof (flow_ok evs p Hflow Hlen) as Hok.
  destruct (pause_step q evs p Hok Hq) as (p1 & E1 & Hok1 & He). destruct (store_all_ok evs (length (sent (pi_batcher p1)) - pi_stored p1) p1 Hok1 Hlen) as (p2 & E2 & Hok2 & Eb & Es).
  { pose proof (po_stored _ _ Hok1). lia. }
  destruct (service_agrees _ (po_service _ _ Hok2)) as [Hinv _].
  destruct (ticks_catch_up (pi_store p2) ∅ Hinv (po_low _ _ Hok2)) as (d' & dirty' & E3 & _ & _ & Hroll).
  pose proof (ticks_service _ _ _ _ _ (po_service _ _ Hok2) E3) as Hsv.
  assert (Hall : ∀ n : Nsid, wf n → rolled_up d' (nsid_str n) AllTime = events_tally evs (nsid_str n)).
  { intros n Hn. rewrite (Hroll n AllTime Hn I), <- (counted_once evs p2 n Hok2 Hn). unfold waiting, batches. rewrite Eb, Es, drop_app_length.
    unfold seen_in. cbn [map]. rewrite (empty_seen _ _ He). simpl. by rewrite !add_counts_0_r. }
  destruct (collection_pages_ok d' Hsv limit None None now Hlim I I Hnow) as (buckets & L & pages & _ & [HsL HL] & Hp & Hn & Ha & ->).
  exists p1, p2, d', dirty', L, pages. split_and!; try done.
  - intros n Hw Hne. apply HL. split; [done|]. exists Trunc.AllTime. split; [by left|]. apply has_counts. by rewrite Hall.
  - apply Forall_forall. intros nc Hnc. rewrite Forall_forall in Ha. specialize (Ha nc Hnc). assert (Hin : nc_nsid nc ∈ map nsid_str L) by (rewrite <- Hn; by apply list_elem_of_fmap_2).
    apply list_elem_of_fmap in Hin as (n & En & Hin). apply HL in Hin as [Hw _]. rewrite En in *. rewrite <- (Hall n Hw).
    unfold buckets_sum in Ha. simpl in Ha. by rewrite add_counts_0_r in Ha.
Qed.
End Pipe.
End Pipeline.
