(* ===== verification/UfosTop.v ===== *)
(** * ufos: the top collections

    [get_ordered_collections] by records created, over all time: with the index
    in step with the counts, the answer is the true top of the list. *)

From Stdlib Require Import Sorted.
From stdpp Require Import sorting.
From S2P Require Import Prelude RustStr Bytes UfosCursor UfosDbTypes.
From S2P Require Import UfosStoreTypes UfosBatch UfosFjallApi UfosStorage UfosRollup.
From S2P Require Import UfosBackground UfosReader UfosCounts UfosRanks UfosQueries.
Import Db Store Batch FjallStore Background Reader Counting Ranks Queries.

Module Top.

(** The pages that are fetched are at least the ones asked for. *)
Lemma overfetch_enough limit : limit ≤ 200 → limit ≤ overfetch limit.
Proof.
  intros Hl. assert (Hall : forallb (λ l, l <=? overfetch l) (seq 0 201) = true) by (vm_compute; reflexivity).
  rewrite forallb_forall in Hall. apply Nat.leb_le, Hall, in_seq. lia.
Qed.

(** A reversed sorted list is sorted the other way. *)
Lemma StronglySorted_cross {A} (R : A → A → Prop) l n x y : StronglySorted R l → x ∈ take n l → y ∈ drop n l → R x y.
Proof. intros Hs Hx Hy. rewrite <- (take_drop n l) in Hs. apply StronglySorted_app in Hs as (Hc & _). by apply Hc. Qed.

Section Top.
Context `{FL : FjallLaws} `{FW : !FjallWeak} `{WL : !FjallWeakLaws} `{LL : LsmTreeLaws} `{AL : AtriumLaws} `{BL : BincodeStrLaws}.
Context `{SketchOps, AtriumNsid, RawValueJson}.
Context `{Bincode2 CommitCounts, Bincode2 RecordLocationMeta, Bincode2 Sketch, Bincode2 SketchSecretPrefix}.
Context `{!Bincode2Laws CommitCounts, !Bincode2Laws RecordLocationMeta, !Bincode2Laws Sketch, !Bincode2Laws SketchSecretPrefix}.

Abbreviation Counts := (DbConcat CommitCounts Sketch).
Abbreviation Row := (list (Nsid * Counts)).
Abbreviation EverKey := (DbConcat (DbStaticStr "ever_rank_records") (DbConcat KeyRank Nsid)).

(** ** The index, from the top *)

Definition lookup_entry (d : Keyspace) (kv : string * string) : StorageResult (Nsid * StorageResult Counts) :=
  key ←? dec (T := EverKey) kv.1;
  let nsid := suffix (suffix key) in
  Ok (nsid,
    k ←? rollup_key AllTime nsid;
    match fj_get d ROLLUPS k with
    | None => Err (StoragePanic "integrity: all-time rank rollup must have corresponding all-time count rollup")
    | Some b => dec (T := Counts) b
    end).

(** The entry of a key of the index and what is looked up for it. *)
Definition ranked_row (d : Keyspace) (kv : string * string) (e : Nsid * Counts) : Prop :=
  wf e.1 ∧ (0 < rank d (nsid_str e.1) AllTime)%N ∧ records_rank_key AllTime (rank d (nsid_str e.1) AllTime) e.1 = Ok kv.1 ∧
  lookup_entry d kv = Ok (e.1, Ok e.2) ∧ counts e.2 = rolled_up d (nsid_str e.1) AllTime.

Lemma ranked_row_of d kv :
  rollup_inv d → rank_inv d → in_family "ever_rank_records" kv.1 → fj_get d ROLLUPS kv.1 = Some kv.2 → ∃ e, ranked_row d kv e.
Proof.
  intros Hinv Hrk Hf Hg. destruct (rk_keys d Hrk kv.1 kv.2) as (r & x & n & Hr & Hn & Hx & Hk); [by exists AllTime|done|].
  assert (r = AllTime) as ->.
  { assert (E : records_lit r = "ever_rank_records") by (apply (in_family_unique _ _ kv.1); [by destruct r|done|by eapply records_key_in|done]). by destruct r. }
  pose proof (rk_get d Hrk AllTime x n kv.1 I Hn Hx Hk) as Hgx. rewrite Hg in Hgx. destruct (decide _) as [[Hpos ->]|]; [|done].
  destruct (rollup_key_Ok AllTime n I Hn) as (k & Hrk' & _). destruct (fj_get d ROLLUPS k) as [v|] eqn:Hv.
  2: { exfalso. unfold rank, rolled_up in Hpos. replace (mkNsid (nsid_str n)) with n in Hpos by (by destruct n). rewrite Hrk', Hv in Hpos. simpl in Hpos. lia. }
  destruct (ri_rolled d Hinv n AllTime k v Hn I Hrk' Hv) as (c & Hc & Hb). exists (n, c). unfold ranked_row. cbn [fst snd]. split_and!; try done.
  - unfold lookup_entry. cbn [records_rank_key] in Hk. apply enc_Ok in Hk.
    rewrite (dec_codec (all_time_ranked_key (mkKeyRank (rank d (nsid_str n) AllTime)) n : EverKey) kv.1); [|split; [done|split; [exact Hx|exact Hn]]|exact Hk].
    cbn [result_bind]. change (suffix (suffix (all_time_ranked_key (P := "ever_rank_records") (mkKeyRank (rank d (nsid_str n) AllTime)) n))) with n.
    rewrite Hrk'. cbn [result_bind]. by rewrite Hv, (dec_codec c v Hc Hb).
  - unfold rolled_up. replace (mkNsid (nsid_str n)) with n by (by destruct n). rewrite Hrk', Hv. cbn [dec_opt]. by rewrite (dec_codec c v Hc Hb).
Qed.

(** Keys of the index compare by rank first. *)
Lemma rank_key_order x n k x' n' k' :
  (x < u64_bound)%N → wf n → (x' < u64_bound)%N → wf n' → records_rank_key AllTime x n = Ok k → records_rank_key AllTime x' n' = Ok k' →
  bytes_compare k k' = Lt → (x ≤ x')%N.
Proof.
  intros Hx Hn Hx' Hn' Hk Hk' Hlt. cbn [records_rank_key] in Hk, Hk'. apply enc_Ok in Hk, Hk'.
  pose proof (ordered_keys _ _ _ _ (conj (static_ok "ever_rank_records" eq_refl eq_refl) (conj Hx Hn) : wf (all_time_ranked_key (mkKeyRank x) n : EverKey))
    (conj (static_ok "ever_rank_records" eq_refl eq_refl) (conj Hx' Hn')) Hk Hk') as Ho.
  rewrite Hlt in Ho. unfold key_compare, concat_order, key_compare, concat_order, key_compare, static_order, rank_order in Ho. simpl in Ho.
  destruct (N.compare_spec x x'); [lia|lia|]. simpl in Ho. done.
Qed.

(** The rows, highest count first. *)
Definition by_rank (d : Keyspace) (e e' : Nsid * Counts) : Prop := (rank d (nsid_str e'.1) AllTime ≤ rank d (nsid_str e.1) AllTime)%N.

(** Highest count first, and every collection once. *)
Definition before (d : Keyspace) (e e' : Nsid * Counts) : Prop := by_rank d e e' ∧ e.1 ≠ e'.1.

Lemma rows_before d l row :
  rollup_inv d → StronglySorted (flip key_lt) l → Forall2 (ranked_row d) l row → StronglySorted (before d) row.
Proof.
  intros Hinv Hs HF. revert Hs. induction HF as [|kv e l row (Hn & Hp & Hk & _) HF IH]; intros Hs; [constructor|].
  apply StronglySorted_inv in Hs as [Hs Ha]. constructor; [by apply IH|]. rewrite Forall_forall in Ha. apply Forall_forall.
  intros e' He'. destruct (Forall2_elem_r _ _ _ _ HF He') as (kv' & (Hn' & Hp' & Hk' & _) & Hkv'). specialize (Ha kv' Hkv'). unfold flip, key_lt in Ha. split.
  - unfold by_rank. eapply rank_key_order; [| | | |exact Hk'|exact Hk|exact Ha]; try done; by apply rank_bound.
  - intros E. rewrite <- E, Hk in Hk'. injection Hk' as Hk'. by rewrite Hk', bytes_compare_refl in Ha.
Qed.

Lemma rows_iter d l row : Forall2 (ranked_row d) l row → map (lookup_entry d) l = to_iter row.
Proof. induction 1 as [|kv e l row (_ & _ & _ & He & _) HF IH]; [done|]. cbn [map to_iter]. rewrite He. by f_equal. Qed.

Lemma ranked_rows d :
  rollup_inv d → rank_inv d →
  ∃ row : Row, all_time_ranked_iter "ever_rank_records" d = Ok (to_iter row) ∧ StronglySorted (before d) row ∧
    (∀ n, n ∈ map fst row ↔ wf n ∧ (0 < rank d (nsid_str n) AllTime)%N) ∧
    Forall (λ e, counts e.2 = rolled_up d (nsid_str e.1) AllTime) row.
Proof.
  intros Hinv Hrk. set (pb := static_bytes "ever_rank_records").
  destruct (prefix_to_range_spec pb (static_prefix_ff _)) as (stop & Hstop & Hin).
  set (l := fj_range d ROLLUPS (Included pb) (Excluded stop)).
  assert (Hl : ∀ k v, (k, v) ∈ l ↔ fj_get d ROLLUPS k = Some v ∧ in_family "ever_rank_records" k).
  { intros k v. unfold l. rewrite fj_range_spec, in_range_bounds, Hin. by rewrite in_family_starts. }
  assert (Hiter : all_time_ranked_iter "ever_rank_records" d = Ok (map (lookup_entry d) (rev l))).
  { assert (Hlo : lift_encoding (rollup_start (the_static_str : DbStaticStr "ever_rank_records")) = Ok (Included pb)) by reflexivity.
    assert (Hhi : lift_encoding (rollup_end (the_static_str : DbStaticStr "ever_rank_records")) = Ok (Excluded stop)).
    { unfold rollup_end, prefix_range_end, as_prefix_range_end.
      change (to_db_bytes (the_static_str : DbStaticStr "ever_rank_records")) with (Ok pb : EncodingResult string). cbn [result_bind]. by rewrite Hstop. }
    unfold all_time_ranked_iter. rewrite Hlo, Hhi. reflexivity. }
  destruct (proj1 (Forall_exists_Forall2_l (ranked_row d) (rev l))) as [row Hrow].
  { apply Forall_forall. intros [k v] Hkv. rewrite elem_of_rev, Hl in Hkv. destruct Hkv as [Hg Hf]. by apply ranked_row_of. }
  assert (Hs : StronglySorted (before d) row) by (apply (rows_before d (rev l)); [done|apply StronglySorted_rev, fj_range_sorted|done]).
  exists row. split_and!; [|done| |].
  - by rewrite Hiter, (rows_iter d (rev l) row Hrow).
  - intros n. split.
    + intros (e & -> & He)%list_elem_of_fmap. by destruct (Forall2_elem_r _ _ _ _ Hrow He) as (kv & (Hn & Hp & _) & _).
    + intros [Hn Hp]. pose proof (rank_bound d n AllTime Hinv Hn I) as Hb.
      destruct (records_rank_key_Ok AllTime (rank d (nsid_str n) AllTime) n Hn) as (k & Hk & _).
      pose proof (rk_get d Hrk AllTime _ n k I Hn Hb Hk) as Hg. rewrite decide_True in Hg by done.
      assert (Hkv : (k, "") ∈ rev l) by (rewrite elem_of_rev; apply Hl; split; [done|exact (records_key_in AllTime _ n k Hk)]).
      destruct (Forall2_elem_l _ _ _ _ Hrow Hkv) as (e & (Hn' & _ & Hk' & _) & He). apply list_elem_of_fmap. exists e. split; [|done].
      destruct (records_key_inj AllTime _ n AllTime _ e.1 k I Hn Hb I Hn' (rank_bound d e.1 AllTime Hinv Hn' I) Hk Hk') as (_ & _ & E). exact E.
  - apply Forall_forall. intros e He. by destruct (Forall2_elem_r _ _ _ _ Hrow He) as (kv & (_ & _ & _ & _ & Hc) & _).
Qed.

(** ** Merging and sorting *)

(** The map of the entries taken. *)
Lemma rank_pairs_ok d (row : Row) : ∀ ranked : gmap string Counts,
  rollup_inv d → NoDup (map fst row) → Forall (λ e, wf e.1 ∧ counts e.2 = rolled_up d (nsid_str e.1) AllTime) row → (∀ n, n ∈ map fst row → ranked !! nsid_str n = None) →
  ∃ m, foldl_res rank_pair ranked (to_iter row) = Ok m ∧
    ∀ n, (n ∈ map nsid_str (map fst row) → ∃ c : Counts, m !! n = Some c ∧ counts c = rolled_up d n AllTime) ∧ (n ∉ map nsid_str (map fst row) → m !! n = ranked !! n).
Proof.
  induction row as [|[n c] row IH]; intros ranked Hinv Hnd Hall Hno; cbn [to_iter map foldl_res].
  { exists ranked. split; [done|]. intros n. split; [by intros ?%not_elem_of_nil|done]. }
  cbn [map fst] in Hnd. apply NoDup_cons in Hnd as [Hn0 Hnd]. apply Forall_cons in Hall as [[Hn Hc] Hall]. cbn [fst snd] in *.
  destruct (merge_counts_ok counts_default c) as (c' & Hm & Hc').
  { change (counts counts_default) with zero_counts. rewrite add_counts_0_l, Hc. eapply counts_le_wf; [apply counts_le_add_l|exact (ri_fits d Hinv n AllTime Hn I)]. }
  assert (Hstep : rank_pair ranked (Ok (n, Ok c)) = Ok (<[nsid_str n := c']> ranked)).
  { unfold rank_pair. cbn [result_bind]. rewrite (Hno n) by (by left). cbn [default]. by rewrite Hm. }
  rewrite Hstep. cbn [result_bind]. change (counts counts_default) with zero_counts in Hc'. rewrite add_counts_0_l, Hc in Hc'.
  assert (Hinj : ∀ a b : Nsid, nsid_str a = nsid_str b → a = b) by (intros [a] [b]; simpl; congruence).
  destruct (IH (<[nsid_str n := c']> ranked) Hinv Hnd Hall) as (m & Hf & Hmap).
  { intros m Hm'. rewrite lookup_insert_ne; [apply Hno; by right|]. intros E%Hinj. congruence. }
  exists m. split; [exact Hf|]. intros x. destruct (Hmap x) as [Hin Hout]. split.
  - intros [->|Hx]%elem_of_cons; [|by apply Hin]. destruct (decide (nsid_str n ∈ map nsid_str (map fst row))) as [Hx|Hx]; [by apply Hin|].
    exists c'. split; [|done]. etransitivity; [exact (Hout Hx)|]. apply lookup_insert_eq.
  - intros [Hne Hx]%not_elem_of_cons. rewrite Hout by done. by rewrite lookup_insert_ne.
Qed.

(** By rank, highest first. *)
Definition entry_ge (e e' : string * Counts) : Prop := (creates (counts e'.2) ≤ creates (counts e.2))%N.
Definition entry_count (e : string * Counts) : NsidCount := nsid_count (mkNsid e.1) e.2.

Lemma sorted_entries (l : list (string * Counts)) :
  StronglySorted entry_ge (rev (sort_by_key (λ e : string * Counts, creates (counts e.2)) l)) ∧
  rev (sort_by_key (λ e : string * Counts, creates (counts e.2)) l) ≡ₚ l.
Proof.
  split.
  - apply (StronglySorted_rev (rank_le (λ e : string * Counts, creates (counts e.2)))), Sorted_StronglySorted.
    + intros a b c. unfold rank_le. lia.
    + apply Sorted_merge_sort. intros a b. unfold rank_le. lia.
  - rewrite <- Permutation_rev. apply merge_sort_Permutation.
Qed.

(** The true top of the list, of [limit] collections, ties in any order. *)
Definition top_of (d : Keyspace) (limit : nat) (out : list NsidCount) : Prop :=
  length out ≤ limit ∧ NoDup (map nc_nsid out) ∧ StronglySorted (λ a b, nc_creates b ≤ nc_creates a)%N out ∧
  Forall (λ nc, nsid_valid (nc_nsid nc) = true ∧ (0 < nc_creates nc)%N ∧ answers nc (rolled_up d (nc_nsid nc) AllTime)) out ∧
  ∀ n : Nsid, wf n → (0 < creates (rolled_up d (nsid_str n) AllTime))%N → nsid_str n ∉ map nc_nsid out →
    length out = limit ∧ Forall (λ nc, creates (rolled_up d (nsid_str n) AllTime) ≤ nc_creates nc)%N out.

(** What is taken from the index, as the answer. *)
Section Answer.
Context (d : Keyspace) (limit more : nat) (row : Row) (m : gmap string Counts) (Hmore : limit ≤ more).
Context (Hsorted : StronglySorted (before d) row).
Context (Hnames : ∀ n, n ∈ map fst row ↔ wf n ∧ (0 < rank d (nsid_str n) AllTime)%N).
Context (Hm : ∀ n, (n ∈ map nsid_str (map fst (take more row)) → ∃ c : Counts, m !! n = Some c ∧ counts c = rolled_up d n AllTime) ∧
  (n ∉ map nsid_str (map fst (take more row)) → m !! n = None)).
Context (R : list (string * Counts)) (HR : StronglySorted entry_ge R) (Hperm : R ≡ₚ map_to_list m).

Lemma answer_entry x (c : Counts) : (x, c) ∈ R ↔ x ∈ map nsid_str (map fst (take more row)) ∧ m !! x = Some c ∧ counts c = rolled_up d x AllTime.
Proof.
  rewrite Hperm, elem_of_map_to_list. split; [|tauto]. intros Hx. destruct (Hm x) as [Hin Hout].
  destruct (decide (x ∈ map nsid_str (map fst (take more row)))) as [Hi|Hi]; [|by rewrite Hout in Hx].
  destruct (Hin Hi) as (c' & Hc' & Hcount). rewrite Hx in Hc'. injection Hc' as <-. done.
Qed.

Lemma names_nodup : NoDup (map nsid_str (map fst row)).
Proof.
  rewrite map_map. clear -Hsorted. induction Hsorted as [|e row Hs IH Ha]; [constructor|]. cbn [map]. constructor; [|by apply IH].
  rewrite Forall_forall in Ha. intros (e' & E & He')%list_elem_of_fmap. destruct (Ha e' He') as [_ Hne]. apply Hne.
  destruct e as [[n] c], e' as [[n'] c']. simpl in *. congruence.
Qed.

Lemma answer_length : length R = length (take more row).
Proof.
  transitivity (length (map nsid_str (map fst (take more row)))); [|by rewrite !length_map].
  rewrite <- (length_fmap fst R). apply Permutation_length, NoDup_Permutation.
  - rewrite Hperm. apply NoDup_fst_map_to_list.
  - pose proof names_nodup as Hnd. rewrite <- (take_drop more row), !map_app in Hnd. by apply NoDup_app in Hnd as [? _].
  - intros x. split.
    + intros ([y c] & -> & Hy)%list_elem_of_fmap. by apply answer_entry in Hy as [? _].
    + intros Hx. destruct (proj1 (Hm x) Hx) as (c & Hc & Hcount). apply (list_elem_of_fmap_2 fst R (x, c)). by apply answer_entry.
Qed.

Lemma answer_top : top_of d limit (map entry_count (take limit R)).
Proof.
  assert (Hout : ∀ nc, nc ∈ map entry_count (take limit R) → ∃ x c, nc = entry_count (x, c) ∧ (x, c) ∈ take limit R ∧ (x, c) ∈ R).
  { intros nc ([x c] & -> & Hx)%list_elem_of_fmap. exists x, c. split_and!; [done|done|]. by eapply elem_of_take_in. }
  unfold top_of. split_and!.
  - rewrite length_map, length_take. lia.
  - rewrite map_map. change (map (λ e, nc_nsid (entry_count e)) (take limit R)) with (fst <$> take limit R).
    eapply sublist_NoDup; [|apply fmap_sublist, (sublist_take R limit)]. rewrite Hperm. apply NoDup_fst_map_to_list.
  - rewrite <- (take_drop limit R) in HR. apply StronglySorted_app in HR as (_ & Hs & _). clear -Hs.
    induction Hs as [|a l Hs IH Ha]; [constructor|]. cbn [map]. constructor; [done|]. rewrite Forall_forall in Ha. apply Forall_forall.
    intros nc (b & -> & Hb)%list_elem_of_fmap. exact (Ha b Hb).
  - apply Forall_forall. intros nc Hnc. destruct (Hout nc Hnc) as (x & c & -> & _ & (Hx & _ & Hcount)%answer_entry).
    apply list_elem_of_fmap in Hx as (n & -> & Hn). assert (Hn' : n ∈ map fst row).
    { apply list_elem_of_fmap in Hn as (e & -> & He). apply list_elem_of_fmap_2. by eapply elem_of_take_in. }
    apply Hnames in Hn' as [Hwf Hpos]. unfold entry_count, nsid_count, answers. cbn [nc_nsid nc_creates nc_updates nc_deletes nsid_str fst snd].
    rewrite Hcount. split_and!; done.
  - intros n Hwf Hpos Hno. assert (Hn : n ∈ map fst row) by (by apply Hnames).
    assert (Hlen : length (take limit R) = limit ∧ Forall (λ nc, creates (rolled_up d (nsid_str n) AllTime) ≤ nc_creates nc)%N (map entry_count (take limit R))); [|by rewrite length_map].
    rewrite <- (take_drop more row), map_app, elem_of_app in Hn. destruct Hn as [Hn|Hn].
    + destruct (proj1 (Hm (nsid_str n))) as (c & Hc & Hcount); [by apply list_elem_of_fmap_2|].
      assert (Hin : (nsid_str n, c) ∈ take limit R ++ drop limit R) by (rewrite take_drop; apply answer_entry; split_and!; [by apply list_elem_of_fmap_2|done|done]).
      apply elem_of_app in Hin as [Hin|Hin].
      { destruct Hno. apply (list_elem_of_fmap_2 (λ e, nc_nsid e) _ (entry_count (nsid_str n, c))). by apply (list_elem_of_fmap_2 entry_count). }
      split.
      * rewrite length_take. destruct (decide (limit ≤ length R)); [lia|]. rewrite drop_ge in Hin by lia. by apply not_elem_of_nil in Hin.
      * apply Forall_forall. intros nc Hnc. destruct (Hout nc Hnc) as (x & c' & -> & Hx & _).
        pose proof (StronglySorted_cross entry_ge R limit _ _ HR Hx Hin) as Hge. unfold entry_ge in Hge. cbn [snd] in Hge. rewrite Hcount in Hge. exact Hge.
    + apply list_elem_of_fmap in Hn as (e & -> & He). split.
      * assert (more < length row). { destruct (decide (more < length row)); [done|]. rewrite drop_ge in He by lia. by apply not_elem_of_nil in He. }
        rewrite length_take, answer_length, length_take. lia.
      * apply Forall_forall. intros nc Hnc. destruct (Hout nc Hnc) as (x & c' & -> & _ & (Hx & _ & Hcount)%answer_entry).
        apply list_elem_of_fmap in Hx as (y & -> & (e' & -> & He')%list_elem_of_fmap).
        destruct (StronglySorted_cross (before d) row more _ _ Hsorted He' He) as [Hge _].
        unfold entry_count, nsid_count. cbn [nc_creates snd]. rewrite Hcount. exact Hge.
Qed.
End Answer.

(** C16. Collections by records created, over all time: the answer is the true top of
    the list, of at most [limit] collections, in descending order, each with
    its counts, and a collection with a record created is left out only if the
    list is full and none of it has fewer. *)
Theorem top_collections (d : Keyspace) (limit : nat) (now : N) :
  service_from unused d → limit ≤ 200 →
  ∃ out, get_collections d limit RecordsCreated None None now = Ok (out, None) ∧ top_of d limit out.
Proof.
  intros Hser Hlim. pose proof (service_ranks d Hser) as Hrk.
  destruct (service_agrees d) as [Hinv _]; [by eapply service_weaken; [|exact Hser]|].
  destruct (ranked_rows d Hinv Hrk) as (row & Hiter & Hs & Hnames & Hcounts).
  destruct (rank_pairs_ok d (take (overfetch limit) row) ∅ Hinv) as (m & Hm & Hmap).
  - pose proof (names_nodup d row Hs) as Hnd. apply NoDup_fmap_1 in Hnd. rewrite <- (take_drop (overfetch limit) row), map_app in Hnd.
    by apply NoDup_app in Hnd as [? _].
  - rewrite Forall_forall in Hcounts. apply Forall_forall. intros e He%elem_of_take_in. split; [|by apply Hcounts]. apply (Hnames e.1). by apply list_elem_of_fmap_2.
  - intros n _. apply lookup_empty.
  - destruct (sorted_entries (map_to_list m)) as [HR Hperm]. eexists. split.
    + unfold get_collections. cbn [query_buckets result_bind]. unfold get_ordered_collections. cbn [collect ordered_iter]. rewrite Hiter. cbn [result_bind foldl_res].
      unfold rank_iter. assert (take (overfetch limit) (to_iter row) = to_iter (take (overfetch limit) row)) as -> by apply firstn_map.
      rewrite Hm. cbn [result_bind sort_key]. reflexivity.
    + apply (answer_top d limit (overfetch limit) row m (overfetch_enough limit Hlim) Hs Hnames); [|done|done].
      intros n. destruct (Hmap n) as [Hin Hout]. split; [exact Hin|]. intros Hno. etransitivity; [exact (Hout Hno)|]. apply lookup_empty.
Qed.
End Top.
End Top.
