(* ===== verification/UfosRecords.v ===== *)
(** * ufos: samples of records

    [get_records_by_collections] merges the feeds of several collections, the
    newest record first, skipping entries whose record is gone or was replaced.
    The theorems say that every collection contributes its newest live records
    up to the limit, in descending order of cursors, and that each is the
    version that is stored. *)

From Stdlib Require Import Sorted.
From stdpp Require Import sorting.
From S2P Require Import Prelude RustStr Bytes UfosCursor UfosDbTypes.
From S2P Require Import UfosStoreTypes UfosBatch UfosFjallApi UfosStorage UfosRollup.
From S2P Require Import UfosTrim UfosReader UfosCounts UfosQueries.
Import Db Store Batch FjallStore Trim Reader Queries.

Module Records.

(** ** Merging, on lists *)

(** Newest first. *)
Definition newer (a b : UFOsRecord) : Prop := (cursor_us (r_cursor b) ≤ cursor_us (r_cursor a))%N.
#[global] Instance newer_trans : Transitive newer.
Proof. intros a b c. unfold newer. lia. Qed.

(** [scan_latest], for lists of the records the iterators yield. *)
Definition update_latest (latest : option (Cursor * nat)) (r : UFOsRecord) (i : nat) : option (Cursor * nat) :=
  match latest with
  | Some (cursor, _) => if (cursor_us cursor <? cursor_us (r_cursor r))%N then Some (r_cursor r, i) else latest
  | None => Some (r_cursor r, i)
  end.
Fixpoint latest_of (i : nat) (rss : list (list UFOsRecord)) (latest : option (Cursor * nat)) : option (Cursor * nat) :=
  match rss with
  | [] => latest
  | [] :: rss => latest_of (S i) rss latest
  | (r :: _) :: rss => latest_of (S i) rss (update_latest latest r i)
  end.

(** The latest is at the head of its list and no head is newer. *)
Definition latest_ok (rss : list (list UFOsRecord)) (latest : option (Cursor * nat)) : Prop :=
  match latest with
  | None => Forall (λ rs, rs = []) rss
  | Some (c, idx) => (∃ r rs, rss !! idx = Some (r :: rs) ∧ r_cursor r = c) ∧
      Forall (λ rs, match rs with [] => True | r :: _ => (cursor_us (r_cursor r) ≤ cursor_us c)%N end) rss
  end.

Lemma latest_of_ok rss : ∀ pre latest,
  latest_ok pre latest → latest_ok (pre ++ rss) (latest_of (length pre) rss latest).
Proof.
  induction rss as [|rs rss IH]; intros pre latest Hok; cbn [latest_of]; [by rewrite app_nil_r|].
  rewrite (cons_middle rs pre rss), app_assoc. destruct rs as [|r rs].
  - replace (S (length pre)) with (length (pre ++ [[]])) by (rewrite length_app; simpl; lia). apply IH.
    destruct latest as [[c idx]|]; simpl in *.
    + destruct Hok as [(r & rs & Hl & Hc) Hall]. split; [|by apply Forall_app; split; [done|repeat constructor]].
      exists r, rs. split; [|done]. by apply lookup_app_l_Some.
    + apply Forall_app. split; [done|]. by repeat constructor.
  - replace (S (length pre)) with (length (pre ++ [r :: rs])) by (rewrite length_app; simpl; lia). apply IH.
    assert (Hnew : (pre ++ [r :: rs]) !! length pre = Some (r :: rs)) by (by rewrite lookup_app_r, Nat.sub_diag by lia).
    unfold update_latest. destruct latest as [[c idx]|]; simpl in *.
    + destruct Hok as [(r' & rs' & Hl & Hc) Hall]. destruct (N.ltb_spec (cursor_us c) (cursor_us (r_cursor r))) as [Hlt|Hge]; simpl.
      * split; [eauto|]. apply Forall_app. split; [|repeat constructor; lia].
        eapply Forall_impl; [exact Hall|]. intros [|x xs]; [done|]. lia.
      * split; [exists r', rs'; split; [by apply lookup_app_l_Some|done]|]. apply Forall_app. split; [done|]. by repeat constructor.
    + split; [eauto|]. apply Forall_app. split; [|repeat constructor; lia].
      eapply Forall_impl; [exact Hok|]. by intros ? ->.
Qed.

(** A list read from several lists, always at the head of one of them. *)
Inductive interleaving : list (list UFOsRecord) → list UFOsRecord → Prop :=
  | interleave_nil rss : Forall (λ rs, rs = []) rss → interleaving rss []
  | interleave_cons rss i r rs out :
      rss !! i = Some (r :: rs) → interleaving (<[i := rs]> rss) out → interleaving rss (r :: out).

Lemma interleaving_elem rss out r : interleaving rss out → r ∈ out → ∃ rs, rs ∈ rss ∧ r ∈ rs.
Proof.
  induction 1 as [rss _|rss i x rs out Hi _ IH]; intros Hr; [by apply not_elem_of_nil in Hr|].
  assert (Hx : x :: rs ∈ rss) by (by eapply list_elem_of_lookup_2).
  apply elem_of_cons in Hr as [->|Hr]; [exists (x :: rs); split; [done|by left]|].
  destruct (IH Hr) as (rs' & [j Hj]%list_elem_of_lookup_1 & Hr'). apply list_lookup_insert_Some in Hj as [(_ & E & _)|[Hne Hj]].
  - exists (x :: rs). split; [done|]. rewrite E. by right.
  - exists rs'. split; [by eapply list_elem_of_lookup_2|done].
Qed.

(** When the lists are told apart by a key, each can be read back. *)
Lemma interleaving_filter {K} `{EqDecision K} (key : UFOsRecord → K) rss out (ks : list K) :
  interleaving rss out → Forall2 (λ k rs, Forall (λ r, key r = k) rs) ks rss → NoDup ks →
  ∀ i k rs, ks !! i = Some k → rss !! i = Some rs → filter (λ r, key r = k) out = rs.
Proof.
  intros Hil. revert ks. induction Hil as [rss Hnil|rss i r rs out Hi _ IH]; intros ks HF Hnd j k rs' Hk Hj.
  { rewrite Forall_lookup in Hnil. by rewrite (Hnil j rs' Hj). }
  destruct (Forall2_lookup_r _ _ _ _ _ HF Hi) as (ki & Hki & Hall). apply Forall_cons in Hall as [Hr Hall].
  assert (HF' : Forall2 (λ k rs, Forall (λ r, key r = k) rs) ks (<[i := rs]> rss)).
  { rewrite <- (list_insert_id ks i ki Hki). by apply Forall2_insert. }
  rewrite filter_cons. destruct (decide (i = j)) as [->|Hne].
  - rewrite Hki in Hk. injection Hk as <-. rewrite Hi in Hj. injection Hj as <-. rewrite decide_True by done. f_equal.
    apply (IH ks HF' Hnd j ki rs Hki). apply list_lookup_insert_eq. by eapply lookup_lt_Some.
  - rewrite decide_False; [|intros E; apply Hne; rewrite Hr in E; subst; by eapply NoDup_lookup].
    apply (IH ks HF' Hnd j k rs' Hk). by rewrite list_lookup_insert_ne.
Qed.

Section Iterators.
Context `{Fjall, Atrium, Bincode2 string, RawValueJson, Bincode2 RecordLocationMeta}.
Context (d : Keyspace).

(** The record an entry of a feed stands for, if it is live. *)
Definition sample (kv : string * string) : option UFOsRecord :=
  match get_record d kv with Ok o => o | Err _ => None end.
Definition readable (kv : string * string) : Prop := is_ok (get_record d kv) = true.

Lemma next_live_ok l :
  Forall readable l →
  match omap sample l with
  | [] => next_live d l = (None, [])
  | r :: rs => ∃ l', next_live d l = (Some (Ok r), l') ∧ Forall readable l' ∧ omap sample l' = rs ∧ length l' < length l
  end.
Proof.
  induction 1 as [|kv l Hkv Hl IH]; [done|]. cbn [next_live omap list_omap length]. unfold sample at 1. unfold readable in Hkv.
  destruct (get_record d kv) as [[r|]|e]; [| |done].
  - exists l. split_and!; [done|done|done|lia].
  - destruct (omap sample l) as [|r rs] eqn:E; [exact IH|]. destruct IH as (l' & ? & ? & ? & ?). exists l'. split_and!; try done. lia.
Qed.

(** The records an iterator will yield. *)
Definition iter_yields (it : RecordIterator) (rs : list UFOsRecord) : Prop :=
  Forall readable (db_iter it) ∧ fetched it ≤ ri_limit it ∧ rs = take (ri_limit it - fetched it) (omap sample (db_iter it)).
Definition at_end (v : option (StorageResult (option UFOsRecord))) : Prop := v = None ∨ v = Some (Ok None).
Definition yields (p : Peekable) (rs : list UFOsRecord) : Prop :=
  match peeked p with
  | None => iter_yields (peek_iter p) rs
  | Some (Some (Ok (Some r))) => ∃ rs', rs = r :: rs' ∧ iter_yields (peek_iter p) rs'
  | Some v => at_end v ∧ rs = []
  end.

Lemma iterator_next_ok it rs :
  iter_yields it rs →
  match rs with
  | [] => at_end (record_iterator_next d it).1
  | r :: rs => (record_iterator_next d it).1 = Some (Ok (Some r)) ∧ iter_yields (record_iterator_next d it).2 rs
  end.
Proof.
  intros (Hr & Hle & ->). unfold record_iterator_next. pose proof (next_live_ok _ Hr) as Hn.
  destruct (decide (fetched it = ri_limit it)) as [E|E]; [rewrite E, Nat.sub_diag; by right|].
  destruct (ri_limit it - fetched it) as [|k] eqn:Ek; [lia|]. destruct (omap sample (db_iter it)) as [|r rs]; cbn [take].
  - rewrite Hn. by left.
  - destruct Hn as (l' & -> & Hl' & <- & _). cbn [fst snd]. split; [done|]. split_and!; simpl; [done|lia|]. f_equal. lia.
Qed.

Lemma peek_ok p rs :
  yields p rs → yields (peek_mut d p).2 rs ∧
  match rs with [] => at_end (peek_mut d p).1 | r :: _ => (peek_mut d p).1 = Some (Ok (Some r)) ∧ peeked (peek_mut d p).2 = Some (Some (Ok (Some r))) end.
Proof.
  unfold yields, peek_mut. destruct (peeked p) as [v|] eqn:Ep.
  - cbn [fst snd]. rewrite Ep. destruct v as [[[r|]|e]|]; try (intros [Hv ->]; done). intros (rs' & -> & Hit). split; [by eauto|done].
  - intros Hit. pose proof (iterator_next_ok _ _ Hit) as Hn. destruct (record_iterator_next d (peek_iter p)) as [v it]. cbn [fst snd peeked peek_iter] in *.
    destruct rs as [|r rs]; [by destruct Hn as [-> | ->]; repeat split; (left + right)|]. destruct Hn as [-> Hn]. split; [by eauto|done].
Qed.

(** Iterators that have been looked at. *)
Definition looked (p : Peekable) (rs : list UFOsRecord) : Prop :=
  yields p rs ∧ match rs with [] => True | r :: _ => peeked p = Some (Some (Ok (Some r))) end.

Lemma scan_ok ps rss : ∀ i latest,
  Forall2 yields ps rss → ∃ ps', scan_latest d true i ps latest = Ok (ps', latest_of i rss latest) ∧ Forall2 looked ps' rss.
Proof.
  intros i latest HF. revert i latest. induction HF as [|p rs ps rss Hp HF IH]; intros i latest; cbn [scan_latest latest_of].
  { exists []. by split; [|constructor]. }
  destruct (peek_ok p rs Hp) as [Hy Hv]. destruct (peek_mut d p) as [v p'] eqn:Epk. cbn [fst snd] in *. destruct rs as [|r rs].
  - destruct (IH (S i) latest) as (ps' & Hs & HF'). destruct Hv as [-> | ->]; rewrite Hs; cbn [result_bind]; (eexists; split; [done|]; by constructor).
  - destruct Hv as [-> Hpk]. destruct (IH (S i) (update_latest latest r i)) as (ps' & Hs & HF'). unfold update_latest in Hs at 1. rewrite Hs.
    cbn [result_bind]. eexists. split; [done|]. by constructor.
Qed.

(** ** The merge *)

(** The head of a list of which [c] is the latest is at least as new as all. *)
Lemma latest_newest rss c idx r rs rs' x :
  Forall (StronglySorted newer) rss → latest_ok rss (Some (c, idx)) → rss !! idx = Some (r :: rs) →
  rs' ∈ rss → x ∈ rs' → newer r x.
Proof.
  intros Hs [(r0 & rs0 & Hi & Hc) Hall] Hr Hrs Hx. rewrite Hi in Hr. injection Hr as -> ->. rewrite Forall_forall in Hs, Hall.
  specialize (Hs rs' Hrs). specialize (Hall rs' Hrs). destruct rs' as [|h t]; [by apply not_elem_of_nil in Hx|].
  apply StronglySorted_inv in Hs as [_ Hs]. rewrite Forall_forall in Hs. unfold newer in *. rewrite Hc.
  apply elem_of_cons in Hx as [->|Hx]; [done|]. specialize (Hs x Hx). lia.
Qed.

Lemma sum_insert (rss : list (list UFOsRecord)) i r rs :
  rss !! i = Some (r :: rs) → sum_list_with length rss = S (sum_list_with length (<[i := rs]> rss)).
Proof.
  revert i. induction rss as [|x rss IH]; intros [|i] Hi; try done; cbn in *.
  - injection Hi as ->. done.
  - rewrite (IH i Hi). rewrite Nat.add_succ_r. done.
Qed.

Lemma merge_ok fuel : ∀ ps rss merged,
  Forall2 (yields) ps rss → Forall (StronglySorted newer) rss → sum_list_with length rss < fuel →
  ∃ out, merge_records d true fuel ps merged = Ok (merged ++ out) ∧ interleaving rss out ∧ StronglySorted newer out.
Proof.
  induction fuel as [|fuel IH]; intros ps rss merged HF Hs Hf; [lia|]. cbn [merge_records].
  destruct (scan_ok ps rss 0 None HF) as (ps' & -> & HF'). cbn [result_bind].
  pose proof (latest_of_ok rss [] None (Forall_nil_2 _)) as Hl. cbn [length app] in Hl.
  destruct (latest_of 0 rss None) as [[c idx]|]; [|exists []; rewrite app_nil_r; split_and!; [done|by constructor|constructor]].
  pose proof Hl as [(r & rs & Hi & Hc) _].
  destruct (Forall2_lookup_r _ _ _ _ _ HF' Hi) as (p & Hp & Hy & Hpk). rewrite Hp. unfold peekable_next. rewrite Hpk.
  unfold yields in Hy. rewrite Hpk in Hy. destruct Hy as (rs0 & [= <-] & Hit).
  destruct (IH (<[idx := mkPeekable None (peek_iter p)]> ps') (<[idx := rs]> rss) (merged ++ [r])) as (out & -> & Hil & Hso).
  - apply Forall2_insert; [|exact Hit]. eapply Forall2_impl; [exact HF'|]. by intros ? ? [? _].
  - apply Forall_insert; [done|]. rewrite Forall_lookup in Hs. by apply Hs in Hi as [? _]%StronglySorted_inv.
  - rewrite (sum_insert _ _ _ _ Hi) in Hf. lia.
  - exists (r :: out). rewrite <- app_assoc. split_and!; [done|by eapply interleave_cons|]. constructor; [done|].
    apply Forall_forall. intros x Hx. destruct (interleaving_elem _ _ _ (interleave_cons _ _ _ _ _ Hi Hil) (list_elem_of_further _ _ _ Hx)) as (rs' & Hrs & Hx').
    by apply (latest_newest rss c idx r rs rs' x).
Qed.
End Iterators.

(** ** Feeds and records of a store *)

Section Store.
Context `{FL : FjallLaws} `{LL : LsmTreeLaws} `{AL : AtriumLaws} `{BL : BincodeStrLaws}.
Context `{SketchOps, AtriumNsid, RawValueJson}.
Context `{Bincode2 CommitCounts, Bincode2 RecordLocationMeta, Bincode2 Sketch, Bincode2 SketchSecretPrefix}.
Context `{!Bincode2Laws CommitCounts, !Bincode2Laws RecordLocationMeta, !Bincode2Laws Sketch}.

Abbreviation FeedKey := (DbConcat Nsid Cursor).
Abbreviation FeedVal := (DbConcat Did (DbConcat RecordKey string)).
Abbreviation LocationKey := (DbConcat Did (DbConcat Nsid RecordKey)).
Abbreviation LocationVal := (DbConcat RecordLocationMeta RawBytes).

Definition feed (d : Keyspace) (c : Nsid) : list (string * string) := fj_prefix d FEEDS (nsid_bytes c).

(** Records as they are written: metadata and a text that is JSON. *)
Definition stored_ok (d : Keyspace) : Prop :=
  ∀ k v, fj_get d RECORDS k = Some v → ∃ meta raw, wf meta ∧ raw ≠ "" ∧ to_db_bytes (from_pair meta (mkRaw raw) : LocationVal) = Ok v ∧
    valid_utf8 raw = true ∧ raw_value_from_string raw = Some raw.

(** The store holds exactly this version of the record. *)
Definition stored_as (d : Keyspace) (r : UFOsRecord) : Prop :=
  ∃ k v, to_db_bytes (from_pair (r_did r) (from_pair (r_collection r) (r_rkey r)) : LocationKey) = Ok k ∧ fj_get d RECORDS k = Some v ∧
    to_db_bytes (from_pair (mkMeta (cursor_us (r_cursor r)) (r_is_update r) (r_rev r)) (mkRaw (r_record r)) : LocationVal) = Ok v.

(** The entry of the feed a record comes from. *)
Definition from_entry (r : UFOsRecord) (kv : string * string) : Prop :=
  to_db_bytes (from_pair (r_collection r) (r_cursor r) : FeedKey) = Ok kv.1.

Lemma location_decodes meta raw v :
  wf meta → raw ≠ "" → to_db_bytes (from_pair meta (mkRaw raw) : LocationVal) = Ok v →
  ∃ n, from_db_bytes (T := RecordLocationMeta) v = Ok (meta, n) ∧ bytes_from n v = Some raw.
Proof.
  intros Hm Hraw Hv. destruct (prefix_codec meta Hm) as (b & Hb & _ & Hf).
  assert (E : to_db_bytes (from_pair meta (mkRaw raw) : LocationVal) = Ok (b +:+ raw)) by (by apply concat_to_bytes).
  rewrite Hv in E. injection E as ->. exists (String.length b). split; [apply Hf|]. unfold bytes_from.
  by rewrite (proj2 (str_split_at_Some _ _ b raw)).
Qed.

Lemma get_record_ok d col kv :
  wf col → feed_ok col kv → stored_ok d →
  ∃ o, get_record d kv = Ok o ∧
    match o with
    | Some r => is_live d kv = true ∧ r_collection r = col ∧ wf (r_cursor r) ∧ from_entry r kv ∧ stored_as d r
    | None => is_live d kv = false
    end.
Proof.
  intros Hcol (c & did & rkey & rv & Hc & Hd & Hr & Hrev & Hk & Hv) Hst. destruct kv as [key val]. cbn [fst snd] in *.
  pose proof (dec_codec (from_pair col c : FeedKey) key (conj Hcol Hc) Hk) as Hdk.
  pose proof (dec_codec (feed_val_from did rkey rv : FeedVal) val (conj Hd (conj Hr Hrev)) Hv) as Hdv.
  destruct (tail_codec (from_pair did (from_pair col rkey)) (conj Hd (conj Hcol Hr))) as (lk & Hlk & _).
  assert (Hl : location_of (key, val) = Ok lk) by (unfold location_of; cbn [fst snd]; rewrite Hdk, Hdv; by apply enc_Ok).
  rewrite (is_live_eq col d (key, val) c (feed_val_from did rkey rv) lk Hdk Hdv Hl).
  unfold location_of in Hl. cbn [fst snd] in Hl. unfold get_record. rewrite Hdk, Hdv in *. cbn [result_bind] in *. rewrite Hl. cbn [result_bind].
  destruct (fj_get d RECORDS lk) as [v|] eqn:Hg; [|by exists None].
  destruct (Hst lk v Hg) as (meta & raw & Hm & Hraw & Hvb & Hutf & Hjson).
  destruct (location_decodes meta raw v Hm Hraw Hvb) as (n & Hdec & Hfrom). rewrite Hdec. cbn [lift_encoding result_bind].
  cbn [nrf_cursor suffix]. change (nrf_rev (feed_val_from did rkey rv)) with rv.
  destruct (decide (mkCursor (meta_cursor meta) ≠ c)) as [Hne|He]; [exists None; split; [done|]; apply bool_decide_eq_false; tauto|]. apply dec_stable in He.
  destruct (decide (meta_rev meta ≠ rv)) as [Hne|He2]; [exists None; split; [done|]; apply bool_decide_eq_false; tauto|]. apply dec_stable in He2.
  rewrite Hfrom. assert (dec (T := RawBytes) raw = Ok (mkRaw raw)) as -> by (by apply (dec_codec (mkRaw raw))). cbn [result_bind raw_bytes].
  unfold raw_value_try_from. rewrite Hutf, Hjson. cbn [lift_encoding result_bind]. eexists. split; [done|]. cbn [r_collection r_cursor nrf_collection prefix].
  split_and!; [by apply bool_decide_eq_true|done|done|exact Hk|]. exists lk, v. split_and!; [exact Hlk|done|]. cbn. rewrite <- He. cbn. by destruct meta.
Qed.

(** Older entries come first in a feed. *)
Lemma feed_order r r' kv kv' :
  wf (r_collection r) → r_collection r' = r_collection r → wf (r_cursor r) → wf (r_cursor r') →
  from_entry r kv → from_entry r' kv' → key_lt kv kv' → newer r' r.
Proof.
  intros Hcol Ecol Hc Hc' Hk Hk' Hlt. unfold from_entry in *. rewrite Ecol in Hk'. unfold key_lt in Hlt.
  rewrite (ordered_keys _ _ _ _ (conj Hcol Hc : wf (from_pair _ _ : FeedKey)) (conj Hcol Hc' : wf (from_pair _ _ : FeedKey)) Hk Hk') in Hlt.
  unfold key_compare, concat_order, key_compare, nsid_order, cursor_order in Hlt. simpl in Hlt. rewrite bytes_compare_refl in Hlt. simpl in Hlt.
  apply N.compare_lt_iff in Hlt. by apply N.lt_le_incl.
Qed.

(** The live entries of a list of entries, as records. *)
Lemma samples_ok d col l :
  wf col → stored_ok d → Forall (feed_ok col) l →
  Forall (readable d) l ∧ Forall2 (λ r kv, from_entry r kv ∧ kv ∈ l ∧ r_collection r = col ∧ wf (r_cursor r) ∧ stored_as d r) (omap (sample d) l) (live_entries d l).
Proof.
  intros Hcol Hst HF. induction HF as [|kv l Hkv HF [IHr IHs]]; [split; constructor|].
  destruct (get_record_ok d col kv Hcol Hkv Hst) as (o & Ho & Hm). split; [constructor; [unfold readable; by rewrite Ho|done]|].
  assert (IHs' : Forall2 (λ r kv', from_entry r kv' ∧ kv' ∈ kv :: l ∧ r_collection r = col ∧ wf (r_cursor r) ∧ stored_as d r) (omap (sample d) l) (live_entries d l)).
  { eapply Forall2_impl; [exact IHs|]. intros r kv' (? & Hin & Hrest). split; [done|]. split; [by right|exact Hrest]. }
  cbn [omap list_omap]. unfold sample at 1. rewrite Ho. unfold live_entries. rewrite filter_cons. destruct o as [r|].
  - destruct Hm as (Hlive & Hrest). rewrite decide_True by done. constructor; [|exact IHs']. destruct Hrest as (? & ? & ? & ?). split; [done|]. split; [by left|done].
  - rewrite decide_False by (by rewrite Hm). exact IHs'.
Qed.

Lemma samples_sorted d col l :
  wf col → stored_ok d → Forall (feed_ok col) l → StronglySorted (λ a b, key_lt b a) l → StronglySorted newer (omap (sample d) l).
Proof.
  intros Hcol Hst HF Hs. induction Hs as [|kv l Hs IH Ha]; [constructor|]. apply Forall_cons in HF as [Hkv HF].
  cbn [omap list_omap]. unfold sample at 1. destruct (get_record_ok d col kv Hcol Hkv Hst) as (o & -> & Hm). destruct o as [r|]; [|by apply IH].
  constructor; [by apply IH|]. destruct Hm as (_ & Hc & Hw & He & _). apply Forall_forall. intros x Hx.
  destruct (samples_ok d col l Hcol Hst HF) as [_ HF2]. destruct (Forall2_elem_l _ _ _ _ HF2 Hx) as (kv' & (He' & Hin & Hc' & Hw' & _) & _).
  rewrite Forall_forall in Ha. apply (feed_order x r kv' kv); try done; [by rewrite Hc'|by rewrite Hc'|by apply Ha].
Qed.

Lemma length_omap_le {A B} (f : A → option B) l : length (omap f l) ≤ length l.
Proof. induction l as [|a l IH]; [done|]. cbn. destruct (f a); simpl; lia. Qed.

Lemma take_sorted {A} (R : A → A → Prop) n l : StronglySorted R l → StronglySorted R (take n l).
Proof. intros Hs. rewrite <- (take_drop n l) in Hs. by apply StronglySorted_app in Hs as (_ & ? & _). Qed.

(** The newest live records of a collection. *)
Definition newest (d : Keyspace) (limit : nat) (c : Nsid) : list UFOsRecord := take limit (omap (sample d) (rev (feed d c))).

Lemma iterators_ok d limit cols :
  Forall (λ c, wf c ∧ Forall (feed_ok c) (feed d c)) cols → stored_ok d →
  ∃ iters, new_iterators d cols limit = Ok iters ∧ Forall2 (iter_yields d) iters (map (newest d limit) cols) ∧
    sum_list_with length (map (newest d limit) cols) < merge_fuel iters.
Proof.
  intros HF Hst. unfold merge_fuel. induction HF as [|c cols [Hc Hf] HF (iters & Hi & Hy & Hsum)]; cbn [new_iterators].
  { exists []. split_and!; [done|constructor|simpl; lia]. }
  unfold record_iterator_new, from_prefix_to_db_bytes. rewrite (nsid_bytes_Ok c Hc). cbn [lift_encoding result_bind]. rewrite Hi. cbn [result_bind].
  eexists. split; [done|]. split.
  - constructor; [|exact Hy]. split_and!; cbn [db_iter fetched ri_limit]; [|lia|].
    + apply (samples_ok d c); try done. rewrite Forall_forall in *. intros kv Hkv. apply Hf. by apply elem_of_rev.
    + unfold newest. by rewrite Nat.sub_0_r.
  - cbn [map sum_list_with db_iter] in *. unfold newest at 1. rewrite length_take. pose proof (length_omap_le (sample d) (rev (feed d c))) as Hle. unfold feed in *. lia.
Qed.

(** C19. Samples of several collections: the query succeeds; its records are
    sorted by cursor, the newest first; every one is of a requested collection
    and is the version that is stored; and each collection contributes exactly
    its newest live entries, up to the limit. *)
Theorem records_newest (d : Keyspace) (collections : list Nsid) (limit : nat) :
  NoDup collections → Forall (λ c, wf c ∧ Forall (feed_ok c) (feed d c)) collections → stored_ok d →
  ∃ out, get_records_by_collections d collections limit true = Ok out ∧
    StronglySorted newer out ∧ Forall (λ r, r_collection r ∈ collections ∧ stored_as d r) out ∧
    ∀ c, c ∈ collections → Forall2 from_entry (filter (λ r, r_collection r = c) out) (take limit (live_entries d (rev (feed d c)))).
Proof.
  intros Hnd HF Hst. destruct (iterators_ok d limit collections HF Hst) as (iters & Hi & Hy & Hfuel).
  assert (Hrev : ∀ c, c ∈ collections → wf c ∧ Forall (feed_ok c) (rev (feed d c))).
  { intros c Hc. rewrite Forall_forall in HF. destruct (HF c Hc) as [Hw Hf]. split; [done|]. rewrite Forall_forall in *. intros kv Hkv. apply Hf.
    by apply elem_of_rev. }
  assert (Hnew : ∀ c r, c ∈ collections → r ∈ newest d limit c → r_collection r = c ∧ stored_as d r).
  { intros c r Hc Hr. destruct (Hrev c Hc) as [Hw Hf]. apply elem_of_take_in in Hr. destruct (samples_ok d c _ Hw Hst Hf) as [_ HF2].
    destruct (Forall2_elem_l _ _ _ _ HF2 Hr) as (kv & (_ & _ & ? & _ & ?) & _). done. }
  destruct (merge_ok d (merge_fuel iters) (map (mkPeekable None) iters) (map (newest d limit) collections) []) as (out & Hm & Hil & Hs).
  - apply Forall2_fmap_l. exact Hy.
  - apply Forall_forall. intros rs (c & -> & Hc)%list_elem_of_fmap. destruct (Hrev c Hc) as [Hw Hf]. apply take_sorted.
    apply (samples_sorted d c); try done. apply StronglySorted_rev, fj_prefix_sorted.
  - exact Hfuel.
  - exists out. split.
    { unfold get_records_by_collections. rewrite Hi. destruct collections; [|exact Hm]. cbn [result_bind] in *. simpl in Hil. inversion Hil; [done|]. by rewrite lookup_nil in *. }
    split; [done|]. split.
    + apply Forall_forall. intros r Hr. destruct (interleaving_elem _ _ _ Hil Hr) as (rs & (c & -> & Hc)%list_elem_of_fmap & Hrs).
      destruct (Hnew c r Hc Hrs) as [<- ?]. done.
    + intros c Hc. apply list_elem_of_lookup_1 in Hc as [i Hci].
      rewrite (interleaving_filter r_collection (map (newest d limit) collections) out collections Hil) with (i := i) (rs := newest d limit c); try done.
      * apply Forall2_take. destruct (Hrev c) as [Hw Hf]; [by eapply list_elem_of_lookup_2|]. destruct (samples_ok d c _ Hw Hst Hf) as [_ HF2].
        eapply Forall2_impl; [exact HF2|]. by intros ? ? [? _].
      * apply Forall2_fmap_r, Forall_Forall2_diag, Forall_forall. intros x Hx. apply Forall_forall. intros r Hr. by apply (Hnew x r).
      * rewrite list_lookup_fmap. by rewrite Hci.
Qed.
End Store.
End Records.
