(* ===== verification/UfosPrefix.v ===== *)
(** * ufos: the children of a prefix

    [get_lexi_prefix] groups the collections below an nsid prefix by the next
    segment.  Shown here: the first page never panics, the counts of its
    children add up to the total it reports, and when it is the last page that
    total is that of every collection below the prefix. *)

From Stdlib Require Import Sorted.
From S2P Require Import Prelude RustStr Bytes UfosCursor UfosDbTypes.
From S2P Require Import UfosStoreTypes UfosBatch UfosFjallApi UfosStorage UfosRollup.
From S2P Require Import UfosBackground UfosReader UfosCounts UfosQueries.
Import Db Store Batch FjallStore Background Reader Counting Queries.

(** atrium: the authority of an nsid is everything before its last dot. *)
Class AtriumNsidLaws `{Atrium, AtriumNsid} :=
  domain_authority_spec s : nsid_valid s = true →
    ∃ name, s = domain_authority s +:+ "." +:+ name ∧ str_contains "." name = false.

Module PrefixQuery.

Lemma sum_counts_cons a l : sum_counts (a :: l) = add_counts a (sum_counts l).
Proof. done. Qed.

Section Merge.
Context `{SketchOps}.
Abbreviation Counts := (DbConcat CommitCounts Sketch).
Abbreviation CRow := (list (Child * Counts)).

Definition to_citer (row : CRow) : ChildCounter := map (λ e, Ok (e.1, Ok e.2)) row.
Definition row_total {A} (row : list (A * Counts)) : CommitCounts := sum_counts (map (λ e, counts e.2) row).
Definition rows_total {A} (rows : list (list (A * Counts))) : CommitCounts := sum_counts (map row_total rows).

(** What an item of the answer counts. *)
Definition item_counts (c : PrefixChild) : CommitCounts :=
  match c with
  | Collection n => mkCounts (nc_creates n) (nc_updates n) (nc_deletes n)
  | Prefix p => mkCounts (pc_creates p) (pc_updates p) (pc_deletes p)
  end.
Definition items_total (items : list PrefixChild) : CommitCounts := sum_counts (map item_counts items).

Lemma item_counts_of child (c : Counts) : item_counts (prefix_child child c) = counts c.
Proof. destruct child; simpl; by destruct (counts c). Qed.

Lemma lower_child_ok rows : ∀ acc,
  ∃ o, foldl_res lower_child acc (map to_citer rows) = Ok o ∧
    match o with
    | None => acc = None ∧ Forall (λ row, row = []) rows
    | Some child => acc = Some child ∨ ∃ c row, (child, c) :: row ∈ rows
    end.
Proof.
  induction rows as [|row rows IH]; intros acc; cbn [map foldl_res].
  { exists acc. split; [done|]. destruct acc; [by left|by split; [|constructor]]. }
  destruct row as [|[child c] row]; cbn [to_citer map lower_child result_bind fst snd].
  - destruct (IH acc) as (o & Ho & Hm). exists o. split; [exact Ho|]. destruct o as [m|]; [|destruct Hm; split; [done|by constructor]].
    destruct Hm as [?|(c & row & Hin)]; [by left|right]. exists c, row. by right.
  - edestruct IH as (o & Ho & Hm). exists o. split; [exact Ho|].
    assert (Hout : ∀ m, (match acc with Some current => if is_before current child then acc else Some child | None => Some child end) = Some m →
      acc = Some m ∨ m = child).
    { intros m. destruct acc as [cur|]; [destruct (is_before cur child)|]; intros [= <-]; auto. }
    destruct o as [m|].
    + destruct Hm as [Hm|(c' & row' & Hin)]; [destruct (Hout m Hm) as [?| ->]; [by left|right; exists c, row; by left]|].
      right. exists c', row'. by right.
    + destruct Hm as [Hm _]. destruct acc as [cur|]; [destruct (is_before cur child)|]; done.
Qed.

(** The [while let] takes the run of entries of the child. *)
Lemma take_while_ok child row : ∀ total merged : Counts,
  wf (add_counts (counts total) (row_total row)) → wf (add_counts (counts merged) (row_total row)) →
  ∃ taken rest (total' merged' : Counts), row = taken ++ rest ∧
    take_while_child child (total, merged) (to_citer row) = Ok (total', merged', to_citer rest) ∧
    counts total' = add_counts (counts total) (row_total taken) ∧ counts merged' = add_counts (counts merged) (row_total taken) ∧
    (∀ c row', row = (child, c) :: row' → taken ≠ []).
Proof.
  induction row as [|[ch c] row IH]; intros total merged Ht Hm; cbn [to_citer map take_while_child fst snd].
  { exists [], [], total, merged. unfold row_total. simpl. rewrite !add_counts_0_r. by split_and!. }
  destruct (decide (ch = child)) as [->|Hne].
  2: { exists [], ((ch, c) :: row), total, merged. unfold row_total. simpl. rewrite !add_counts_0_r. split_and!; try done. by intros c' row' [= ? ? ?]. }
  unfold row_total in *. cbn [map snd] in *. rewrite sum_counts_cons, add_counts_assoc in Ht, Hm. cbn [result_bind].
  destruct (merge_counts_ok total c) as (t & Ht1 & Ht2); [eapply counts_le_wf; [apply counts_le_add_l|exact Ht]|].
  destruct (merge_counts_ok merged c) as (m & Hm1 & Hm2); [eapply counts_le_wf; [apply counts_le_add_l|exact Hm]|].
  rewrite Ht1. cbn [result_bind]. rewrite Hm1. cbn [result_bind]. destruct (IH t m) as (taken & rest & t' & m' & -> & Hr & Ht' & Hm' & _).
  { by rewrite Ht2. } { by rewrite Hm2. }
  exists ((child, c) :: taken), rest, t', m'. cbn [map snd]. rewrite !sum_counts_cons, !add_counts_assoc. split_and!; try done.
  - by rewrite Ht', Ht2.
  - by rewrite Hm', Hm2.
Qed.

Lemma row_total_app {A} (a b : list (A * Counts)) : row_total (a ++ b) = add_counts (row_total a) (row_total b).
Proof. unfold row_total. by rewrite map_app, sum_counts_app. Qed.
Lemma rows_total_cons {A} (row : list (A * Counts)) rows : rows_total (row :: rows) = add_counts (row_total row) (rows_total rows).
Proof. done. Qed.

Definition entries {A} (rows : list (list (A * Counts))) : nat := sum_list_with length rows.

(** Both sums grow by what is taken, and the rest stays. *)
Lemma take_child_ok child rows : ∀ (total merged : Counts) (dr : list CRow),
  wf (add_counts (counts total) (rows_total rows)) → wf (add_counts (counts merged) (rows_total rows)) →
  ∃ rows' (total' merged' : Counts) x,
    foldl_res (take_child child) (total, merged, map to_citer dr) (map to_citer rows) = Ok (total', merged', map to_citer (dr ++ rows')) ∧
    rows_total rows = add_counts x (rows_total rows') ∧ counts total' = add_counts (counts total) x ∧ counts merged' = add_counts (counts merged) x ∧
    entries rows' ≤ entries rows ∧ (∀ c row, (child, c) :: row ∈ rows → entries rows' < entries rows) ∧
    (∀ row' e, row' ∈ rows' → e ∈ row' → ∃ row, row ∈ rows ∧ e ∈ row).
Proof.
  induction rows as [|row rows IH]; intros total merged dr Ht Hm; cbn [map foldl_res].
  { exists [], total, merged, zero_counts. rewrite app_nil_r, !add_counts_0_r. split_and!; try done; [by intros c row ?%not_elem_of_nil|].
    by intros row' e ?%not_elem_of_nil. }
  rewrite rows_total_cons, add_counts_assoc in Ht, Hm.
  destruct (take_while_ok child row total merged) as (taken & rest & t & m & Hrow & Hw & Ht1 & Hm1 & Hprog);
    [eapply counts_le_wf; [apply counts_le_add_l|exact Ht]|eapply counts_le_wf; [apply counts_le_add_l|exact Hm]|].
  unfold take_child at 1. cbn [fst snd]. rewrite Hw. cbn [result_bind].
  assert (Hrt : row_total row = add_counts (row_total taken) (row_total rest)) by (rewrite Hrow; apply row_total_app).
  assert (Hle : ∀ z : CommitCounts, counts_le (add_counts (add_counts z (row_total taken)) (rows_total rows)) (add_counts (add_counts z (row_total row)) (rows_total rows))).
  { intros z. rewrite Hrt. apply counts_le_add; [|apply counts_le_refl]. apply counts_le_add; [apply counts_le_refl|apply counts_le_add_l]. }
  destruct (IH t m (dr ++ [rest])) as (rows' & t' & m' & x & Hf & Hx & Ht2 & Hm2 & Hen & Hpr & Hsub).
  { rewrite Ht1. eapply counts_le_wf; [apply Hle|exact Ht]. } { rewrite Hm1. eapply counts_le_wf; [apply Hle|exact Hm]. }
  rewrite map_app in Hf. exists (rest :: rows'), t', m', (add_counts (row_total taken) x). split_and!.
  - etransitivity; [exact Hf|]. by rewrite <- app_assoc.
  - rewrite !rows_total_cons, Hrt, Hx. unfold add_counts. cbn [creates updates deletes]. f_equal; lia.
  - by rewrite Ht2, Ht1, add_counts_assoc.
  - by rewrite Hm2, Hm1, add_counts_assoc.
  - unfold entries in *. cbn [sum_list_with]. rewrite Hrow, length_app. lia.
  - unfold entries in *. intros c row0 [E|Hin]%elem_of_cons; cbn [sum_list_with].
    + specialize (Hprog c row0 (eq_sym E)). rewrite Hrow, length_app. destruct taken; [done|simpl; lia].
    + specialize (Hpr c row0 Hin). rewrite Hrow, length_app. lia.
  - intros row' e [->|Hin]%elem_of_cons He.
    + exists row. split; [by left|]. rewrite Hrow, elem_of_app. by right.
    + destruct (Hsub row' e Hin He) as (r & ? & ?). exists r. split; [by right|done].
Qed.

(** The loop: the items and the total grow together, and when it ends without a
    cursor everything has been taken. *)
Lemma prefix_loop_ok limit : ∀ rows (total : Counts) items cur (P : Child → Prop),
  (∀ row e, row ∈ rows → e ∈ row → P e.1) → wf (add_counts (counts total) (rows_total rows)) →
  ∃ (total' : Counts) more cur' x, prefix_loop limit (map to_citer rows) total items cur = Ok (total', items ++ more, cur') ∧
    counts total' = add_counts (counts total) x ∧ items_total more = x ∧
    Forall (λ it, ∃ child c, P child ∧ it = prefix_child child c) more ∧ length more ≤ limit ∧
    (cur' = None → x = rows_total rows ∨ limit = 0) ∧ (∀ child, cur' = Some child → cur = Some child ∨ P child).
Proof.
  induction limit as [|limit IH]; intros rows total items cur P HP Hw; cbn [prefix_loop].
  { exists total, [], cur, zero_counts. rewrite app_nil_r, add_counts_0_r. split_and!; try done; [by right|by left]. }
  destruct (lower_child_ok rows None) as (o & -> & Hm). cbn [result_bind]. destruct o as [child|].
  2: { destruct Hm as [_ Hnil]. exists total, [], None, zero_counts. rewrite app_nil_r, add_counts_0_r. split_and!; try done; [simpl; lia|]. intros _. left.
       clear -Hnil. induction Hnil as [|row rows -> _ IH]; [done|]. rewrite rows_total_cons, <- IH. done. }
  destruct Hm as [?|(c & row & Hin)]; [done|].
  assert (Hz : counts (counts_default : Counts) = zero_counts) by done.
  destruct (take_child_ok child rows total counts_default []) as (rows' & t' & m' & x & Hf & Hx & Ht & Hmc & _ & _ & Hsub); [done| |].
  { rewrite Hz, add_counts_0_l. eapply counts_le_wf; [|exact Hw]. rewrite add_counts_comm. apply counts_le_add_l. }
  change (map to_citer []) with ([] : list ChildCounter) in Hf. rewrite Hf. cbn [result_bind app].
  rewrite Hx, add_counts_assoc, <- Ht in Hw. rewrite Hz, add_counts_0_l in Hmc.
  assert (HPc : P child) by (apply (HP _ (child, c) Hin); by left).
  destruct (IH rows' t' (items ++ [prefix_child child m']) (Some child) P) as (t2 & more & cur' & y & Hl & Ht2 & Hmore & HF & Hlen & Hend & Hcur); [|done|].
  { intros row' e Hr He. destruct (Hsub row' e Hr He) as (r & Hr' & He'). by eapply HP. }
  exists t2, (prefix_child child m' :: more), cur', (add_counts x y). rewrite Hl, <- app_assoc. split_and!.
  - done.
  - by rewrite Ht2, Ht, add_counts_assoc.
  - unfold items_total in *. cbn [map]. by rewrite sum_counts_cons, Hmore, item_counts_of, Hmc.
  - constructor; [by exists child, m'|done].
  - cbn [length]. lia.
  - intros Hc. destruct (Hend Hc) as [->| ->]; [left; by rewrite Hx|]. cbn in Hl. congruence.
  - intros ch Hc. right. destruct (Hcur ch Hc) as [[= <-]|?]; done.
Qed.

(** The total of rows as a sum over the collections they name. *)
Lemma sum_counts_map_add {A} (f g : A → CommitCounts) l :
  sum_counts (map (λ x, add_counts (f x) (g x)) l) = add_counts (sum_counts (map f l)) (sum_counts (map g l)).
Proof.
  induction l as [|a l IH]; [done|]. cbn [map]. rewrite !sum_counts_cons, IH. unfold add_counts. cbn [creates updates deletes]. f_equal; lia.
Qed.

Lemma sum_counts_zero {A} (l : list A) : sum_counts (map (λ _, zero_counts) l) = zero_counts.
Proof. induction l as [|a l IH]; [done|]. cbn [map]. by rewrite sum_counts_cons, IH. Qed.

Lemma sum_counts_single (n : Nsid) x L :
  NoDup L → n ∈ L → sum_counts (map (λ m, if decide (n = m) then x else zero_counts) L) = x.
Proof.
  induction 1 as [|a L Ha _ IH]; intros Hin; [by apply not_elem_of_nil in Hin|]. cbn [map]. rewrite sum_counts_cons.
  destruct (decide (n = a)) as [->|Hne].
  - rewrite (map_ext_in _ (λ _, zero_counts)); [by rewrite sum_counts_zero, add_counts_0_r|].
    intros m Hm%list_elem_of_In. rewrite decide_False; [done|]. by intros ->.
  - apply elem_of_cons in Hin as [?|Hin]; [done|]. by rewrite IH, add_counts_0_l.
Qed.

Lemma row_total_names (row : list (Nsid * Counts)) L :
  NoDup L → (∀ n, n ∈ map fst row → n ∈ L) → row_total row = sum_counts (map (λ n, row_count n row) L).
Proof.
  intros Hnd. induction row as [|[h c] row IH]; intros Hsub; [cbn [row_count]; by rewrite sum_counts_zero|].
  cbn [row_count]. rewrite sum_counts_map_add, sum_counts_single by (done || (apply Hsub; by left)).
  rewrite <- IH; [done|]. intros n Hn. apply Hsub. by right.
Qed.

Lemma rows_total_names (rows : list (list (Nsid * Counts))) L :
  NoDup L → (∀ n, n ∈ row_names rows → n ∈ L) → rows_total rows = sum_counts (map (λ n, rows_count n rows) L).
Proof.
  intros Hnd. induction rows as [|row rows IH]; intros Hsub; [unfold rows_count; cbn [map]; by rewrite sum_counts_zero|].
  unfold rows_count in *. cbn [map]. rewrite rows_total_cons.
  rewrite (sum_counts_map_add (λ n, row_count n row) (λ n, sum_counts (map (row_count n) rows))).
  rewrite <- (row_total_names row L Hnd), <- IH; [done|..]; intros n Hn; apply Hsub, elem_of_app; [by right|by left].
Qed.
End Merge.

(** ** Children of nsids *)

(** What comes before the last dot is determined. *)
Lemma last_dot_unique a b x y :
  str_contains "." x = false → str_contains "." y = false → a +:+ "." +:+ x = b +:+ "." +:+ y → a = b.
Proof.
  intros Hx Hy. revert b. induction a as [|c a IH]; intros [|c' b]; rewrite ?str_app_cons, ?str_app_nil_l; intros E; [done|..].
  - injection E as _ ->. rewrite !str_contains_app in Hx. simpl in Hx. by rewrite orb_true_r in Hx.
  - injection E as _ <-. rewrite !str_contains_app in Hy. simpl in Hy. by rewrite orb_true_r in Hy.
  - injection E as <- E. f_equal. by apply IH.
Qed.

Section Children.
Context `{Atrium} `{AN : AtriumNsid} `{!AtriumNsidLaws}.

(** [n] is below the prefix. *)
Definition under (p : NsidPrefix) (n : Nsid) : bool := starts_with (terminated p) (nsid_str n).

(** Every nsid below a prefix has a child, and its name is the prefix with one
    more segment. *)
Lemma child_ok (p : NsidPrefix) (n : Nsid) :
  nsid_valid (nsid_str n) = true → under p n = true →
  ∃ child segment rest, child_from_prefix n p = Ok (Some child) ∧ str_contains "." segment = false ∧
    into_inner child = prefix_str p +:+ "." +:+ segment ∧ nsid_str n = into_inner child +:+ rest.
Proof.
  intros Hv [sub E]%starts_with_spec. unfold terminated in E. rewrite str_app_assoc in E.
  destruct (domain_authority_spec _ Hv) as (name & En & Hname). unfold child_from_prefix, is_group_of.
  assert (starts_with (prefix_str p) (nsid_str n) = true) as -> by (apply starts_with_spec; eauto). cbn [result_bind].
  case_bool_decide as Hd.
  - exists (FullNsid n), name, "". split_and!; [done|done|by rewrite Hd|]. by rewrite str_app_nil_r.
  - rewrite (proj2 (strip_prefix_Some _ _ sub)) by (by rewrite str_app_assoc).
    destruct (split_once "." sub) as [[segment rest]|] eqn:Es.
    + apply split_once_Some in Es as [-> Hseg]. exists (ChildPrefix (prefix_str p +:+ "." +:+ segment)), segment, (String "." rest).
      split_and!; [done|done|done|]. cbn [into_inner]. by rewrite E, !str_app_assoc.
    + apply split_once_None in Es. exfalso. apply Hd. apply (last_dot_unique _ _ sub name Es Hname). by rewrite <- E, <- En.
Qed.
End Children.

(** ** The store *)

Section Store.
Context `{FL : FjallLaws} `{LL : LsmTreeLaws} `{AL : AtriumLaws} `{BL : BincodeStrLaws}.
Context `{SketchOps, AN : !AtriumNsid, !AtriumNsidLaws, RawValueJson}.
Context `{Bincode2 CommitCounts, Bincode2 RecordLocationMeta, Bincode2 Sketch, Bincode2 SketchSecretPrefix}.
Context `{!Bincode2Laws CommitCounts, !Bincode2Laws RecordLocationMeta, !Bincode2Laws Sketch, !Bincode2Laws SketchSecretPrefix}.
Abbreviation Counts := (DbConcat CommitCounts Sketch).

(** The iterator of a bucket, at the start of a prefix. *)
Lemma prefix_iter_Ok d sub b pb :
  bucket_bytes (bucket_rollup b) = Ok pb → str_forallb (λ c, (byte_n c =? 255)%N) (pb +:+ sub) = false →
  ∃ stop, (∀ k, in_range (pb +:+ sub) stop k ↔ starts_with (pb +:+ sub) k = true) ∧
    prefix_iter d None sub b = Ok (map (entry_at b) (fj_range d ROLLUPS (Excluded (pb +:+ sub)) (Excluded stop))).
Proof.
  intros Hpb Hff. destruct (prefix_to_range_spec _ Hff) as (stop & Hstop & Hk). exists stop. split; [exact Hk|].
  assert (Hbounds : ∀ K `{DbBytes K} (k : K), to_db_bytes k = Ok pb → prefix_bounds k None sub = Ok (Excluded (pb +:+ sub), Excluded stop)).
  { intros K ? k Hk'. pose proof (concat_to_bytes (from_pair k (mkRaw sub)) pb sub Hk' eq_refl) as Hto.
    unfold prefix_bounds, after_nsid_prefix, nsid_prefix_end, as_prefix_range_end, new_nsid_prefix, RollupPre. cbn [default].
    unfold RollupPre in *. rewrite Hto. cbn [result_bind]. by rewrite Hstop. }
  unfold prefix_iter. destruct b as [h|w|]; cbn [bucket_rollup bucket_bytes] in Hpb; rewrite Hbounds by exact Hpb; done.
Qed.

(** A key of a bucket goes on with a string without NUL when its nsid starts
    with it, and is never that string itself. *)
Lemma key_under sub pb n :
  str_contains NUL sub = false → starts_with (pb +:+ sub) (pb +:+ nsid_bytes n) = true ↔ starts_with sub (nsid_str n) = true.
Proof.
  intros Hnul. rewrite <- (starts_with_nul sub (nsid_str n) Hnul). rewrite !starts_with_spec. unfold nsid_bytes. split; intros [t E]; exists t.
  - rewrite str_app_assoc in E. by apply str_app_inj_l in E.
  - by rewrite E, str_app_assoc.
Qed.

Lemma prefix_row d sub b :
  rollup_inv d → rollup_wf (bucket_rollup b) → str_contains NUL sub = false →
  ∃ row, prefix_iter d None sub b = Ok (to_iter row) ∧
    (∀ n, n ∈ map fst row ↔ wf n ∧ has d b n ∧ starts_with sub (nsid_str n) = true) ∧
    ∀ n, wf n → starts_with sub (nsid_str n) = true → row_count n row = rolled_up d (nsid_str n) (bucket_rollup b).
Proof.
  intros Hinv Hb Hnul. destruct (bucket_bytes_Ok _ Hb) as (pb & Hpb & Hff & Hkey).
  assert (Hff' : str_forallb (λ c, (byte_n c =? 255)%N) (pb +:+ sub) = false) by (by rewrite str_forallb_app, Hff).
  destruct (prefix_iter_Ok d sub b pb Hpb Hff') as (stop & Hstop & Hit).
  destruct (range_row d b pb (fj_range d ROLLUPS (Excluded (pb +:+ sub)) (Excluded stop)) (λ n, starts_with sub (nsid_str n) = true)
    Hinv Hb Hpb Hkey (fj_range_sorted _ _ _ _)) as (row & Hr & _ & Hn & Hc); [|exists row; by rewrite Hit, Hr].
  intros [k v]. rewrite fj_range_spec. cbn [fst snd]. split.
  - intros (Hg & Hlo & Hhi). assert (Hsw : starts_with (pb +:+ sub) k = true).
    { apply Hstop, in_range_bounds. split; [|exact Hhi]. simpl in *. by destruct (bytes_compare _ _). }
    split_and!; [done| |intros n Hn ->; by apply (key_under sub pb n)].
    apply starts_with_spec in Hsw as [t ->]. apply starts_with_spec. exists (sub +:+ t). by rewrite str_app_assoc.
  - intros (Hg & Hsw & Hall). destruct (bucket_keys d b Hinv Hb pb k v Hpb Hg Hsw) as (n & Hn & Hk).
    rewrite Hkey in Hk by done. injection Hk as <-. specialize (Hall n Hn eq_refl). apply (key_under sub pb n Hnul), Hstop, in_range_bounds in Hall as [Hlo Hhi].
    split_and!; [done| |done]. simpl in *. destruct (bytes_compare _ _) eqn:E; [|done|done]. apply bytes_compare_eq, str_app_inj_l in E.
    rewrite E in Hnul. unfold nsid_bytes in Hnul. rewrite str_contains_app in Hnul. simpl in Hnul. by rewrite orb_true_r in Hnul.
Qed.

(** The rows of the buckets of a query, and their children. *)
Lemma prefix_rows d sub buckets :
  buckets_ok d buckets → str_contains NUL sub = false →
  ∃ rows, collect (prefix_iter d None sub) buckets = Ok (map to_iter rows) ∧
    (∀ n, n ∈ row_names rows ↔ listed d buckets n ∧ starts_with sub (nsid_str n) = true) ∧
    ∀ n, wf n → starts_with sub (nsid_str n) = true → rows_count n rows = buckets_sum d (nsid_str n) buckets.
Proof.
  intros [Hinv Hb _] Hnul. unfold listed, buckets_sum, row_names, rows_count.
  induction buckets as [|b bs IH]; cbn [collect].
  { exists []. split_and!; [done| |done]. intros n. simpl. rewrite elem_of_nil. split; [done|]. by intros [[_ (b & ?%not_elem_of_nil & _)] _]. }
  apply Forall_cons in Hb as [Hb Hbs]. destruct (prefix_row d sub b Hinv Hb Hnul) as (row & -> & Hn & Hc). cbn [result_bind].
  destruct (IH Hbs) as (rows & -> & Hns & Hcs). cbn [result_bind]. exists (row :: rows). split_and!; [done| |].
  - intros n. cbn [flat_map]. rewrite elem_of_app, Hn, Hns. setoid_rewrite elem_of_cons. naive_solver.
  - intros n Hwf Hu. cbn [map sum_counts foldr]. rewrite Hc by done. f_equal. by apply Hcs.
Qed.

(** [child] is the child of a collection of [L]. *)
Definition child_in (p : NsidPrefix) (L : list Nsid) (child : Child) : Prop :=
  ∃ n, n ∈ L ∧ under p n = true ∧ child_from_prefix n p = Ok (Some child).

Lemma child_row (p : NsidPrefix) L (row : list (Nsid * Counts)) :
  (∀ n, n ∈ map fst row → n ∈ L ∧ wf n ∧ under p n = true) →
  ∃ crow, to_children p (to_iter row) = to_citer crow ∧ row_total crow = row_total row ∧ ∀ e, e ∈ crow → child_in p L e.1.
Proof.
  induction row as [|[n c] row IH]; intros Hn; [exists []; split_and!; [done|done|by intros e ?%not_elem_of_nil]|].
  destruct IH as (crow & Hc & Ht & He); [intros m Hm; apply Hn; by right|]. destruct (Hn n) as (HL & Hwf & Hu); [by left|].
  destruct (child_ok p n Hwf Hu) as (child & _ & _ & Hch & _). exists ((child, c) :: crow). split_and!.
  - unfold to_children, to_iter in *. cbn [map fst snd result_bind]. rewrite Hch. cbn [result_bind]. by rewrite Hc.
  - unfold row_total in *. cbn [map snd]. by rewrite !sum_counts_cons, Ht.
  - intros e [->|Hin]%elem_of_cons; [|by apply He]. by exists n.
Qed.

Lemma child_rows (p : NsidPrefix) L (rows : list (list (Nsid * Counts))) :
  (∀ n, n ∈ row_names rows → n ∈ L ∧ wf n ∧ under p n = true) →
  ∃ crows, map (to_children p) (map to_iter rows) = map to_citer crows ∧ rows_total crows = rows_total rows ∧
    ∀ row e, row ∈ crows → e ∈ row → child_in p L e.1.
Proof.
  induction rows as [|row rows IH]; intros Hn; [exists []; split_and!; [done|done|by intros row e ?%not_elem_of_nil]|].
  destruct IH as (crows & Hc & Ht & He); [intros m Hm; apply Hn, elem_of_app; by right|].
  destruct (child_row p L row) as (crow & Hc' & Ht' & He'); [intros m Hm; apply Hn, elem_of_app; by left|].
  exists (crow :: crows). split_and!.
  - cbn [map]. by rewrite Hc, Hc'.
  - by rewrite !rows_total_cons, Ht, Ht'.
  - intros r e [->|Hr]%elem_of_cons; [apply He'|by apply He].
Qed.

(** The cursor of a child can be encoded. *)
Lemma child_cursor p L child : (∀ n, n ∈ L → wf n) → child_in p L child → ∃ b, enc (into_inner child) = Ok b.
Proof.
  intros Hwf (n & Hn & Hu & Hc). specialize (Hwf n Hn). destruct (child_ok p n Hwf Hu) as (child' & seg & rest & Hc' & _ & _ & E).
  rewrite Hc in Hc'. injection Hc' as <-. destruct (nsid_no_nul _ Hwf) as [Hnul _]. rewrite E, str_contains_app in Hnul.
  apply orb_false_iff in Hnul as [Hnul _]. eexists. apply enc_Ok. cbn [to_db_bytes string_db_bytes]. unfold string_to_db_bytes. by rewrite Hnul.
Qed.

Lemma prefix_no_nul pre p : nsid_prefix_new pre = Ok p → p = mkNsidPrefix pre ∧ str_contains NUL (terminated p) = false.
Proof.
  unfold nsid_prefix_new. destruct (nsid_valid (pre +:+ ".name")) eqn:Hv; [|done]. destruct (str_contains "." pre); [|done].
  intros [= <-]. split; [done|]. destruct (nsid_no_nul _ Hv) as [Hn _]. unfold terminated. cbn [prefix_str].
  rewrite str_contains_app in *. by apply orb_false_iff in Hn as [-> _].
Qed.

(** The counts of all collections below a prefix. *)
Definition total_under (d : Keyspace) (p : NsidPrefix) (buckets : list Trunc.CursorBucket) (L : list Nsid) : CommitCounts :=
  sum_counts (map (λ n, buckets_sum d (nsid_str n) buckets) (filter (under p) L)).

(** The first page of the children of a prefix, for all time or a window: the
    query never panics and never fails, it has at most [limit] items, each the
    child of a collection below the prefix, the counts of the items add up to
    the total of the page, and when there is no further page that total is the
    sum over every collection below the prefix. *)
Theorem prefix_total_exact (d : Keyspace) (pre : string) (p : NsidPrefix) (limit : nat) (since cur_until : option N) (now : N) :
  in_service d → nsid_prefix_new pre = Ok p → 0 < limit → hour_opt since → hour_opt cur_until → (now < u64_bound)%N →
  (∀ buckets L, query_buckets d since cur_until now = Ok buckets → listing d buckets L → wf (total_under d p buckets L)) →
  ∃ buckets L total items next, query_buckets d since cur_until now = Ok buckets ∧ listing d buckets L ∧
    get_prefix d p limit (Lexi None) since cur_until now = Ok (total, items, next) ∧
    items_total items = mkCounts (jc_creates total) (jc_updates total) (jc_deletes total) ∧ length items ≤ limit ∧
    Forall (λ it, ∃ child c, child_in p L child ∧ it = prefix_child child c) items ∧
    (next = None → items_total items = total_under d p buckets L).
Proof.
  intros Hser Hp Hlim Hs Hu Hnow Hfits. apply prefix_no_nul in Hp as [_ Hnul].
  destruct (query_buckets_ok d Hser since cur_until now Hs Hu Hnow) as (buckets & Hq & Hok & _). destruct (listing_exists d buckets Hok) as [L HL].
  specialize (Hfits buckets L Hq HL). pose proof HL as [HLs HLin]. assert (Hwf : ∀ n, n ∈ L → wf n) by (intros n Hn; by apply HLin in Hn as [? _]).
  destruct (prefix_rows d (terminated p) buckets Hok Hnul) as (rows & Hr & Hn & Hc).
  assert (Htot : rows_total rows = total_under d p buckets L).
  { rewrite (rows_total_names rows (filter (under p) L)).
    - unfold total_under. f_equal. apply map_ext_in. intros n Hin%list_elem_of_In. apply list_elem_of_filter in Hin as [Hun Hin].
      apply Hc; [by apply Hwf|]. by apply Is_true_true.
    - apply NoDup_filter, (sorted_nodup L HLs).
    - intros n Hin. apply Hn in Hin as [Hli Hun]. apply list_elem_of_filter. split; [by apply Is_true_true|by apply HLin]. }
  destruct (child_rows p L rows) as (crows & Hcr & Hct & Hce); [intros n [Hli Hun]%Hn; split_and!; [by apply HLin|apply Hli|done]|].
  destruct (prefix_loop_ok limit crows counts_default [] None (child_in p L) Hce) as (total & items & cur & x & Hloop & Ht & Hi & HF & Hlen & Hend & Hcur).
  { change (counts counts_default) with zero_counts. by rewrite add_counts_0_l, Hct, Htot. }
  assert (Hnext : ∃ next, (match cur with None => Ok (just_count_from total, items, None)
    | Some child => next_cursor ←? enc (into_inner child); Ok (just_count_from total, items, Some next_cursor) end) = Ok (just_count_from total, items, next) ∧
    (next = None → cur = None)).
  { destruct cur as [child|]; [|by exists None]. destruct (Hcur child eq_refl) as [?|Hch]; [done|].
    destruct (child_cursor p L child Hwf Hch) as [b ->]. by exists (Some b). }
  destruct Hnext as (next & Hnext & Hcn). exists buckets, L, (just_count_from total), items, next.
  change (counts counts_default) with zero_counts in Ht. rewrite add_counts_0_l in Ht. split_and!; [done|done| | |done|done|].
  - unfold get_prefix. rewrite Hq. cbn [result_bind]. unfold get_lexi_prefix, sub_prefix. rewrite Hnul. cbn [lift_encoding result_bind].
    rewrite Hr. cbn [result_bind]. rewrite Hcr, Hloop. cbn [result_bind app]. exact Hnext.
  - rewrite Hi, <- Ht. cbn [just_count_from jc_creates jc_updates jc_deletes]. by destruct (counts total).
  - intros Hnn. destruct (Hend (Hcn Hnn)) as [->|]; [by rewrite Hi, Hct, Htot|lia].
Qed.
End Store.
End PrefixQuery.
