(* ===== verification/UfosServer.v ===== *)
(** * ufos: the HTTP handlers (ufos/src/server)

    The storage is an interface, [StoreReader], as in the source, and the
    handlers are functions over it; [fjall_reader] is the implementation of
    storage_fjall.rs, whose queries run on a blocking task.  A request reads
    the clock once.  dropshot's routing, extraction of queries and rendering of
    responses are left out, and so are metrics and CORS headers. *)

From Stdlib Require Import Sorted.
From S2P Require Import Prelude RustStr Bytes UfosCursor UfosDbTypes.
From S2P Require Import UfosStoreTypes UfosBatch UfosFjallApi UfosStorage UfosRollup.
From S2P Require Import UfosBackground UfosInsert UfosInit UfosReader UfosCounts.
From S2P Require Import UfosQueries.
Import Db Store Batch FjallStore Background Insert Init Reader.
Import Counting Queries.

Module Server.

(** ** Errors and types *)

(** [for_bad_request], [for_internal_error], and a panic of the handler.  Texts
    are abridged. *)
Inductive HttpError : Type :=
  | BadRequest (msg : string)
  | InternalError (e : StorageError)
  | HandlerPanic (msg : string).

Record ApiRecord : Type := mkApiRecord {
  ar_did : string;
  ar_collection : string;
  ar_rkey : string;
  ar_record : string;
  ar_time_us : N
}.
Definition api_record_from (ufo : UFOsRecord) : ApiRecord :=
  mkApiRecord (did_str (r_did ufo)) (nsid_str (r_collection ufo)) (rkey_str (r_rkey ufo)) (r_record ufo) (cursor_us (r_cursor ufo)).

Inductive CollectionsQueryOrder : Type := ByRecordsCreated | ByDidsEstimate.
Definition order_from (q : CollectionsQueryOrder) : OrderCollectionsBy :=
  match q with ByRecordsCreated => RecordsCreated | ByDidsEstimate => DidsEstimate end.

(** A [DateTime<Utc>] as its microseconds. *)
Record CollectionsQuery : Type := mkCollectionsQuery {
  cq_limit : option nat;
  cq_cursor : option string;
  cq_since : option Z;
  cq_until : option Z;
  cq_order : option CollectionsQueryOrder
}.
Record PrefixQuery : Type := mkPrefixQuery { pq_prefix : string; pq_query : CollectionsQuery }.
Record CollectionTimeseriesQuery : Type := mkTimeseriesQuery {
  tq_collection : string;
  tq_since : option Z;
  tq_until : option Z;
  tq_step : option N
}.

Record MetaInfo : Type := mkMetaInfo { storage_name : string; storage : string; consumer : ConsumerInfo }.

(** [URL_SAFE_NO_PAD] and chrono's [from_timestamp_micros]. *)
Class Base64 := { b64_encode : string → string; b64_decode : string → option string }.
Class Base64Laws `{Base64} := {
  b64_roundtrip b : b64_decode (b64_encode b) = Some b;
  b64_not_empty b : b ≠ "" → b64_encode b ≠ ""
}.
Class Chrono := from_timestamp_micros : Z → option Z.

(** ** The storage interface *)

Section Server.
Context `{SketchOps}.
Abbreviation Counts := (DbConcat CommitCounts Sketch).

Class StoreReader := {
  rd_name : string;
  rd_storage_stats : StorageResult string;
  rd_consumer_info : StorageResult ConsumerInfo;
  rd_get_collections : nat → OrderCollectionsBy → option N → option N → StorageResult (list NsidCount * option string);
  rd_get_prefix : NsidPrefix → nat → OrderCollectionsBy → option N → option N →
    StorageResult (JustCount * list PrefixChild * option string);
  rd_get_timeseries : list Nsid → N → option N → N → StorageResult (list N * gmap string (list Counts));
  rd_get_collection_counts : Nsid → N → option N → StorageResult JustCount;
  rd_get_records_by_collections : list Nsid → nat → bool → StorageResult (list UFOsRecord);
  rd_search_collections : list string → StorageResult (list NsidCount)
}.

(** [spawn_blocking(..).await?]: a panic of the task is an error to join it. *)
Definition spawn_blocking {A} (r : StorageResult A) : StorageResult A :=
  match r with Err (StoragePanic msg) => Err (JoinError msg) | r => r end.

Definition internal {A} (r : StorageResult A) : result HttpError A :=
  match r with Ok a => Ok a | Err e => Err (InternalError e) end.

(** ** Parameters of requests *)

Section Handlers.
Context `{Atrium, Base64, Chrono}.
Context `{SR : StoreReader} (now : N).

Definition ONE_HOUR : N := 60 * 60 * 1000000.

Definition dt_to_cursor (dt : Z) : result HttpError N :=
  if (dt <? 0)%Z then Err (BadRequest "timestamp too old")
  else
    let t := Z.to_N dt in
    if ((now <? t) && (2 * ONE_HOUR <? t - now))%N then Err (BadRequest "future timestamp")
    else Ok (Trunc.truncate_raw_u64 Trunc.HOUR_IN_MICROS t).

(** [q.since.map(dt_to_cursor).transpose()?]. *)
Definition dt_opt (o : option Z) : result HttpError (option N) :=
  match o with Some dt => c ←? dt_to_cursor dt; Ok (Some c) | None => Ok None end.

(** [Cursor::at(SystemTime::now() - Duration::from_secs(secs))]. *)
Definition cursor_ago (secs : N) : result HttpError N :=
  if (now <? secs * 1000000)%N then Err (HandlerPanic "cannot set jetstream cursor earlier than unix epoch") else Ok (now - secs * 1000000)%N.

Definition since_or_week_ago (o : option Z) : result HttpError N :=
  since ←? dt_opt o;
  match since with
  | Some since => Ok since
  | None => week_ago ←? cursor_ago (7 * 86400); Ok (Trunc.truncate_cursor Trunc.HOUR_IN_MICROS week_ago)
  end.

(** Sets of nsids by their strings. *)
Fixpoint nsid_set (cs : list string) (msg : string) : result HttpError (gset string) :=
  match cs with
  | [] => Ok ∅
  | c :: cs =>
      if nsid_valid c then out ←? nsid_set cs msg; Ok ({[c]} ∪ out) else Err (BadRequest msg)
  end.
Definition to_multiple_nsids (s : string) : result HttpError (gset string) :=
  nsid_set (str_split "," s) "collection was not a valid NSID".
Definition multi_collection_try_from (collection : list string) : result HttpError (gset string) :=
  nsid_set collection "failed to convert collection to an NSID".

(** ** Handlers *)

Definition get_meta_info : result HttpError MetaInfo :=
  storage_info ←? internal rd_storage_stats;
  consumer ←? internal rd_consumer_info;
  Ok (mkMetaInfo rd_name storage_info consumer).

Definition get_records_by_collections (collection : option string) : result HttpError (list ApiRecord) :=
  '(collections, limit) ←?
    match collection with
    | Some provided_collection => cs ←? to_multiple_nsids provided_collection; Ok (cs, 42)
    | None =>
        min_time_ago ←? cursor_ago (86400 * 3);
        match Trunc.try_as Trunc.HOUR_IN_MICROS (Trunc.truncate_cursor Trunc.WEEK_IN_MICROS min_time_ago) with
        | Err _ => Err (HandlerPanic "called `Result::unwrap()` on an `Err` value")
        | Ok since =>
            '(collections, _) ←? internal (rd_get_collections 1000 order_default (Some since) None);
            cs ←? match nsid_set (map nc_nsid collections) "" with
              | Ok cs => Ok cs
              | Err _ => Err (HandlerPanic "called `Result::unwrap()` on an `Err` value")
              end;
            Ok (cs, 12)
        end
    end;
  records ←? internal (rd_get_records_by_collections (map mkNsid (elements collections)) limit true);
  Ok (map api_record_from records).

Definition stats_of (since : N) (cur_until : option N) (seen : gmap string JustCount) (collection : string)
    : result HttpError (gmap string JustCount) :=
  counts ←? internal (rd_get_collection_counts (mkNsid collection) since cur_until);
  Ok (<[collection := counts]> seen).

Definition get_collection_stats (collections : list string) (since cur_until : option Z) : result HttpError (gmap string JustCount) :=
  collections ←? multi_collection_try_from collections;
  since ←? since_or_week_ago since;
  cur_until ←? dt_opt cur_until;
  foldl_res (stats_of since cur_until) ∅ (elements collections).

(** The part that [get_collections] and [get_prefix] share: order, limit, bounds. *)
Definition page_request (q : CollectionsQuery) : result HttpError (nat * OrderCollectionsBy * option N * option N) :=
  if bool_decide (is_Some (cq_cursor q) ∧ is_Some (cq_order q))
  then Err (BadRequest "`cursor` is mutually exclusive with `order`. ordered results cannot be paged.")
  else
    order ←?
      match cq_order q with
      | Some o => Ok (order_from o)
      | None =>
          match (c ← cq_cursor q; if decide (c = "") then None else Some c) with
          | None => Ok (Lexi None)
          | Some c => match b64_decode c with Some b => Ok (Lexi (Some b)) | None => Err (BadRequest "invalid cursor") end
          end
      end;
    let limit := match cq_limit q, cq_order q with Some limit, _ => limit | None, Some _ => 32 | None, None => 100 end in
    if decide (1 ≤ limit ≤ 200) then
      since ←? dt_opt (cq_since q);
      cur_until ←? dt_opt (cq_until q);
      Ok (limit, order, since, cur_until)
    else Err (BadRequest "limit not in 1..=200").

Definition get_collections (q : CollectionsQuery) : result HttpError (list NsidCount * option string) :=
  '(limit, order, since, cur_until) ←? page_request q;
  '(collections, next_cursor) ←? internal (rd_get_collections limit order since cur_until);
  Ok (collections, b64_encode <$> next_cursor).

Definition get_prefix (q : PrefixQuery) : result HttpError (JustCount * list PrefixChild * option string) :=
  match nsid_prefix_new (pq_prefix q) with
  | Err _ => Err (BadRequest "was not a valid NSID prefix")
  | Ok prefix =>
      '(limit, order, since, cur_until) ←? page_request (pq_query q);
      '(total, children, next_cursor) ←? internal (rd_get_prefix prefix limit order since cur_until);
      Ok (total, children, b64_encode <$> next_cursor)
  end.

(** [c as i64]. *)
Definition as_i64 (c : N) : Z := if (c <? 2 ^ 63)%N then Z.of_N c else (Z.of_N c - 2 ^ 64)%Z.

Fixpoint to_dates (cursors : list N) : result HttpError (list Z) :=
  match cursors with
  | [] => Ok []
  | c :: cursors =>
      match from_timestamp_micros (as_i64 c) with
      | None => Err (HandlerPanic "called `Option::unwrap()` on a `None` value")
      | Some dt => dts ←? to_dates cursors; Ok (dt :: dts)
      end
  end.

Definition get_timeseries (q : CollectionTimeseriesQuery) : result HttpError (list Z * gmap string (list JustCount)) :=
  since ←? since_or_week_ago (tq_since q);
  cur_until ←? dt_opt (tq_until q);
  step ←?
    match tq_step q with
    | Some secs => if (secs <? 3600)%N then Err (BadRequest "step is too small") else Ok (secs / 3600 * 3600)%N
    | None => Ok 86400%N
    end;
  if nsid_valid (tq_collection q) then
    '(range_cursors, series) ←? internal (rd_get_timeseries [mkNsid (tq_collection q)] since cur_until step);
    range ←? to_dates range_cursors;
    Ok (range, ((λ v : list Counts, map just_count_from v) <$> series : gmap string (list JustCount)))
  else Err (BadRequest "collection was not a valid NSID").

Definition search_collections (q : string) : result HttpError (list NsidCount) :=
  internal (rd_search_collections (str_split " " q)).
End Handlers.
End Server.

(** ** The fjall store behind the interface *)

Section Fjall.
Context `{FL : FjallLaws} `{LL : LsmTreeLaws} `{AL : AtriumLaws} `{BL : BincodeStrLaws}.
Context `{SketchOps, AtriumNsid, RawValueJson}.
Context `{Bincode2 CommitCounts, Bincode2 RecordLocationMeta, Bincode2 Sketch, Bincode2 SketchSecretPrefix}.
Context `{!Bincode2Laws CommitCounts, !Bincode2Laws RecordLocationMeta, !Bincode2Laws Sketch, !Bincode2Laws SketchSecretPrefix}.
Context `{BA : Base64Laws} `{Chrono}.

(** [stats]: what fjall reports of its disk usage, as JSON. *)
Definition fjall_reader (d : Keyspace) (stats : StorageResult string) (now : N) : StoreReader := {|
  rd_name := "fjall storage v2";
  rd_storage_stats := spawn_blocking stats;
  rd_consumer_info := spawn_blocking (get_consumer_info d);
  rd_get_collections limit order since cur_until := spawn_blocking (Reader.get_collections d limit order since cur_until now);
  rd_get_prefix prefix limit order since cur_until := spawn_blocking (Reader.get_prefix d prefix limit order since cur_until now);
  rd_get_timeseries collections since cur_until step := spawn_blocking (Reader.get_timeseries d collections since cur_until step now);
  rd_get_collection_counts collection since cur_until := spawn_blocking (Reader.get_collection_counts d collection since cur_until now);
  rd_get_records_by_collections collections limit expand := spawn_blocking (Reader.get_records_by_collections d collections limit expand);
  rd_search_collections terms := spawn_blocking (Reader.search_collections d terms)
|}.

Context (d : Keyspace) (stats : StorageResult string) (now : N).
#[local] Instance service : StoreReader := fjall_reader d stats now.

(** ** Bad requests *)

(** What a request for a page must satisfy. *)
Definition date_ok (o : option Z) : Prop := ∃ c, dt_opt now o = Ok c.
Definition request_ok (q : CollectionsQuery) : Prop :=
  (cq_cursor q = None ∨ cq_order q = None) ∧
  (∀ c, cq_order q = None → cq_cursor q = Some c → c ≠ "" → is_Some (b64_decode c)) ∧
  (∀ limit, cq_limit q = Some limit → 1 ≤ limit ≤ 200) ∧ date_ok (cq_since q) ∧ date_ok (cq_until q).

Lemma dt_opt_cases o : date_ok o ∨ ∃ msg, dt_opt now o = Err (BadRequest msg).
Proof.
  unfold date_ok, dt_opt, dt_to_cursor. destruct o as [dt|]; [|eauto]. destruct (dt <? 0)%Z; [eauto|]. destruct (_ && _)%N; cbn [result_bind]; eauto.
Qed.

(** The parameters are accepted, or the answer is a bad request. *)
Lemma page_request_cases q :
  (request_ok q ∧ ∃ limit order since cur_until, page_request now q = Ok (limit, order, since, cur_until) ∧ 1 ≤ limit ≤ 200 ∧
     dt_opt now (cq_since q) = Ok since ∧ dt_opt now (cq_until q) = Ok cur_until ∧
     order = match cq_order q with
       | Some o => order_from o
       | None => Lexi (c ← cq_cursor q; if decide (c = "") then None else b64_decode c)
       end ∧ limit = match cq_limit q, cq_order q with Some limit, _ => limit | None, Some _ => 32 | None, None => 100 end) ∨
  (¬ request_ok q ∧ ∃ msg, page_request now q = Err (BadRequest msg)).
Proof.
  unfold page_request, request_ok. destruct q as [ql qc qs qu qo]. cbn [cq_limit cq_cursor cq_since cq_until cq_order].
  case_bool_decide as Hex.
  { right. split; [|eauto]. intros [[-> | ->] _]; destruct Hex as [[? ?] [? ?]]; done. }
  set (limit := match ql, qo with Some limit, _ => limit | None, Some _ => 32 | None, None => 100 end).
  assert (Hlim : 1 ≤ limit ≤ 200 ↔ ∀ l, ql = Some l → 1 ≤ l ≤ 200).
  { unfold limit. destruct ql as [l|]; [|split; [done|]; intros _; destruct qo; lia]. split; [by intros ? ? [= <-]|auto]. }
  assert (Hor : qc = None ∨ qo = None).
  { destruct qc as [c|], qo as [o|]; try (by left); try (by right). destruct Hex. split; eauto. }
  assert (Horder : (∃ order, (match qo with Some o => Ok (order_from o) | None =>
        match (c ← qc; if decide (c = "") then None else Some c) with None => Ok (Lexi None)
        | Some c => match b64_decode c with Some b => Ok (Lexi (Some b)) | None => Err (BadRequest "invalid cursor") end end end) = Ok order ∧
        order = match qo with Some o => order_from o | None => Lexi (c ← qc; if decide (c = "") then None else b64_decode c) end ∧
        (∀ c, qo = None → qc = Some c → c ≠ "" → is_Some (b64_decode c))) ∨
     ((match qo with Some o => Ok (order_from o) | None =>
        match (c ← qc; if decide (c = "") then None else Some c) with None => Ok (Lexi None)
        | Some c => match b64_decode c with Some b => Ok (Lexi (Some b)) | None => Err (BadRequest "invalid cursor") end end end) = Err (BadRequest "invalid cursor") ∧
        ¬ ∀ c, qo = None → qc = Some c → c ≠ "" → is_Some (b64_decode c))).
  { destruct qo as [o|]; [left; eexists; split_and!; [done|done|]; by intros|]. destruct qc as [c|]; cbn [mbind option_bind]; [|left; by eexists].
    destruct (decide (c = "")) as [->|Hne]; [left; eexists; split_and!; [done|done|]; by intros ? _ [= <-]|].
    destruct (b64_decode c) as [b|] eqn:Eb.
    - left. eexists. split_and!; [done|done|]. intros ? _ [= <-] _. by rewrite Eb.
    - right. split; [done|]. intros Hall. destruct (Hall c eq_refl eq_refl Hne) as [? E]. congruence. }
  destruct Horder as [(order & -> & Eo & Hcur)|[-> Hcur]]; cbn [result_bind]; [|right; split; [tauto|eauto]].
  destruct (decide (1 ≤ limit ≤ 200)) as [Hl|Hl]; [|right; split; [tauto|eauto]].
  destruct (dt_opt_cases qs) as [[s Hs]|[msg Hs]]; rewrite Hs; cbn [result_bind].
  2: { right. split; [|eauto]. intros (_ & _ & _ & [c Hc] & _). congruence. }
  destruct (dt_opt_cases qu) as [[u Hu]|[msg Hu]]; rewrite Hu; cbn [result_bind].
  2: { right. split; [|eauto]. intros (_ & _ & _ & _ & [c Hc]). congruence. }
  left. split; [split_and!; [done|done|by apply Hlim|by exists s|by exists u]|]. exists limit, order, s, u. done.
Qed.

(** The collections endpoint refuses exactly the requests its documentation
    rules out (a cursor together with an order, a cursor that is not base64, a
    limit outside 1 to 200, a date before the epoch or more than two hours in
    the future) with a bad request, without asking the store; it never panics,
    and any other failure is that of the store. *)
Theorem collections_validates (q : CollectionsQuery) :
  match get_collections now q with
  | Ok _ => request_ok q
  | Err (BadRequest _) => ¬ request_ok q
  | Err (InternalError e) => request_ok q ∧ ∃ limit order since cur_until,
      1 ≤ limit ≤ 200 ∧ spawn_blocking (Reader.get_collections d limit order since cur_until now) = Err e
  | Err (HandlerPanic _) => False
  end.
Proof.
  unfold get_collections. destruct (page_request_cases q) as [[Hok (limit & order & s & u & Hp & Hl & _)]|[Hno [msg Hp]]]; rewrite Hp; [|done].
  cbn [result_bind rd_get_collections service fjall_reader].
  destruct (spawn_blocking (Reader.get_collections d limit order s u now)) as [[cs next]|e] eqn:E; cbn [internal result_bind]; [done|]. eauto 8.
Qed.

(** ** Following cursors over HTTP *)

(** Dates that 64 bits hold give whole hours. *)
Lemma dt_opt_hour o c : (∀ dt, o = Some dt → (dt < 2 ^ 63)%Z) → dt_opt now o = Ok c → hour_opt c.
Proof.
  intros Hb. unfold dt_opt. destruct o as [dt|]; [|by intros [= <-]]. unfold dt_to_cursor. specialize (Hb dt eq_refl).
  destruct (Z.ltb_spec dt 0) as [?|Hpos]; [done|]. destruct (_ && _)%N; cbn [result_bind]; [done|]. intros [= <-].
  unfold hour_opt, Trunc.truncate_raw_u64, Trunc.truncate, HOUR. split; [apply N.Div0.mod_mul|].
  pose proof (N.Div0.mul_div_le (Z.to_N dt) Trunc.HOUR_IN_MICROS) as Hle. rewrite N.mul_comm in Hle.
  eapply N.le_lt_trans; [exact Hle|]. unfold u64_bound. lia.
Qed.

(** The cursor of a page is never empty. *)
Lemma next_not_empty limit c since cur_until page b :
  Reader.get_collections d limit (Lexi c) since cur_until now = Ok (page, Some b) → b ≠ "".
Proof.
  unfold Reader.get_collections, get_lexi_collections. intros Hq.
  apply result_bind_Ok in Hq as (bs & _ & Hq). apply result_bind_Ok in Hq as (cn & _ & Hq). apply result_bind_Ok in Hq as (its & _ & Hq).
  apply result_bind_Ok in Hq as ([out cur] & _ & Hq). destruct cur as [n|]; [|done]. apply result_bind_Ok in Hq as (nb & Hnb & Hq). injection Hq as _ <-.
  apply enc_Ok in Hnb. cbn [to_db_bytes nsid_db_bytes] in Hnb. unfold string_to_db_bytes in Hnb. destruct (str_contains NUL (nsid_str n)); [done|].
  injection Hnb as <-. intros [_ E]%str_app_empty. done.
Qed.

Section Paging.
Context (limit : nat) (dsince duntil : option Z) (since cur_until : option N).
Context (Hlim : 1 ≤ limit ≤ 200) (Hs : dt_opt now dsince = Ok since) (Hu : dt_opt now duntil = Ok cur_until).

Definition http_page (cursor : option string) : result HttpError (list NsidCount * option string) :=
  get_collections now (mkCollectionsQuery (Some limit) cursor dsince duntil None).

(** A request with the encoding of a cursor is the query with the cursor. *)
Lemma http_page_eq c :
  c ≠ Some "" → http_page (b64_encode <$> c) =
  ('(page, next) ←? internal (spawn_blocking (Reader.get_collections d limit (Lexi c) since cur_until now)); Ok (page, b64_encode <$> next)).
Proof.
  intros Hc. unfold http_page, get_collections.
  set (q := mkCollectionsQuery (Some limit) (b64_encode <$> c) dsince duntil None).
  assert (Hcur : (x ← b64_encode <$> c; if decide (x = "") then None else b64_decode x) = c).
  { destruct c as [b|]; [|done]. cbn. rewrite decide_False; [apply b64_roundtrip|]. apply b64_not_empty. by intros ->. }
  destruct (page_request_cases q) as [[_ (l & o & s & u & -> & _ & Es & Eu & Eo & El)]|[Hno _]].
  - cbn [cq_limit cq_cursor cq_since cq_until cq_order q] in Es, Eu, Eo, El. rewrite Hs in Es. rewrite Hu in Eu. injection Es as <-. injection Eu as <-.
    rewrite Hcur in Eo. subst. done.
  - exfalso. apply Hno. split_and!; cbn [cq_limit cq_cursor cq_since cq_until cq_order q]; [by right| |by intros ? [= <-]|by exists since|by exists cur_until].
    intros x _ Ex _. destruct c as [b|]; [|done]. cbn in Ex. injection Ex as <-. rewrite b64_roundtrip. eauto.
Qed.

Lemma http_pages_ok fuel : ∀ c pages,
  c ≠ Some "" → all_pages fuel (λ c, Reader.get_collections d limit (Lexi c) since cur_until now) c = Ok pages →
  all_pages fuel http_page (b64_encode <$> c) = Ok pages.
Proof.
  induction fuel as [|fuel IH]; intros c pages Hc Hp; [cbn in *; congruence|]. cbn [all_pages] in *. rewrite http_page_eq by done.
  apply result_bind_Ok in Hp as ([page next] & Hq & Hp). rewrite Hq. cbn [spawn_blocking internal result_bind].
  destruct next as [b|]; cbn [fmap option_fmap option_map]; [|by injection Hp as <-].
  apply result_bind_Ok in Hp as (rest & Hr & Hp). injection Hp as <-. pose proof (next_not_empty _ _ _ _ _ _ Hq) as Hb.
  assert (Hb' : Some b ≠ Some "") by congruence. rewrite (IH (Some b) rest Hb' Hr : all_pages fuel http_page (Some (b64_encode b)) = Ok rest). done.
Qed.
End Paging.

(** Over HTTP: on a store in service, a client of the collections endpoint
    that starts without a cursor and passes on the cursor of each response gets
    every collection of the window exactly once, in order, and the responses
    end. *)
Theorem http_collections_complete (limit : nat) (since cur_until : option Z) :
  in_service d → (now < u64_bound)%N → 1 ≤ limit ≤ 200 → date_ok since → date_ok cur_until →
  (∀ dt, since = Some dt → (dt < 2 ^ 63)%Z) → (∀ dt, cur_until = Some dt → (dt < 2 ^ 63)%Z) →
  ∃ buckets L pages, listing d buckets L ∧ (since = None → cur_until = None → buckets = [Trunc.AllTime]) ∧
    all_pages (S (length L)) (http_page limit since cur_until) None = Ok pages ∧
    map nc_nsid pages = map nsid_str L ∧ Forall (λ nc, answers nc (buckets_sum d (nc_nsid nc) buckets)) pages.
Proof.
  intros Hser Hnow Hlim [s Hs] [u Hu] Hbs Hbu.
  destruct (collection_pages_ok d Hser limit s u now) as (buckets & L & pages & _ & HL & Hp & Hn & Ha & Hw);
    [lia|exact (dt_opt_hour since s Hbs Hs)|exact (dt_opt_hour cur_until u Hbu Hu)|done|].
  exists buckets, L, pages. split_and!; [done| | |done|done].
  - intros -> ->. injection Hs as <-. injection Hu as <-. exact Hw.
  - by apply (http_pages_ok limit since cur_until s u Hlim Hs Hu (S (length L)) None pages).
Qed.

(** ** Statistics *)

(** The counts of a collection from an hour to another, as the store has them. *)
Definition counts_between (c : string) (since stop : N) : CommitCounts := hours_sum (rolled_up d c) since (span_hours since stop).
Definition stat_ok (since stop : N) (c : string) (jc : JustCount) : Prop :=
  let sum := counts_between c since stop in
  jc_creates jc = creates sum ∧ jc_updates jc = updates sum ∧ jc_deletes jc = deletes sum.

Lemma stats_fold since cur_until cs : ∀ seen,
  in_service d → Forall (λ c, nsid_valid c = true) cs → NoDup cs → (since mod HOUR = 0)%N → (now < u64_bound)%N → hour_opt cur_until →
  ∃ m, foldl_res (stats_of since cur_until) seen cs = Ok m ∧ (∀ c, c ∉ cs → m !! c = seen !! c) ∧
    ∀ c, c ∈ cs → ∃ jc, m !! c = Some jc ∧ stat_ok since (default (Trunc.truncate_cursor HOUR now) cur_until) c jc.
Proof.
  induction cs as [|c cs IH]; intros seen Hser Hv Hnd Hs Hnow Hu.
  { exists seen. split_and!; [done|done|]. by intros c ?%not_elem_of_nil. }
  apply Forall_cons in Hv as [Hc Hv]. apply NoDup_cons in Hnd as [Hno Hnd].
  destruct (collection_counts_ok d (mkNsid c) since now cur_until Hser Hc Hs Hnow Hu) as [est He].
  cbn [foldl_res]. unfold stats_of at 1. cbn [rd_get_collection_counts service fjall_reader]. rewrite He. cbn [spawn_blocking internal result_bind].
  eset (jc := mkJustCount _ _ _ est). destruct (IH (<[c := jc]> seen) Hser Hv Hnd Hs Hnow Hu) as (m & -> & Hout & Hin).
  exists m. split_and!; [done| |].
  - intros x [Hne Hx]%not_elem_of_cons. rewrite Hout by done. by rewrite lookup_insert_ne.
  - intros x [->|Hx]%elem_of_cons; [|by apply Hin]. exists jc. split; [rewrite Hout by done; by rewrite lookup_insert_eq|done].
Qed.

Lemma nsid_set_ok cs msg : Forall (λ c, nsid_valid c = true) cs → nsid_set cs msg = Ok (list_to_set cs).
Proof. induction 1 as [|c cs Hc _ IH]; [done|]. cbn [nsid_set list_to_set]. rewrite Hc, IH. done. Qed.

(** The stats endpoint answers, for every collection asked for and no other,
    with the sums of its hourly rollups from [since] (a week ago if it is left
    out) to [until] (now). *)
Theorem http_stats_exact (collections : list string) (since cur_until : option Z) (u : option N) :
  in_service d → (now < u64_bound)%N → (7 * 86400 * 1000000 ≤ now)%N → Forall (λ c, nsid_valid c = true) collections →
  date_ok since → dt_opt now cur_until = Ok u →
  (∀ dt, since = Some dt → (dt < 2 ^ 63)%Z) → (∀ dt, cur_until = Some dt → (dt < 2 ^ 63)%Z) →
  ∃ s m, since_or_week_ago now since = Ok s ∧ get_collection_stats now collections since cur_until = Ok m ∧
    ∀ c, match m !! c with
         | Some jc => c ∈ collections ∧ stat_ok s (default (Trunc.truncate_cursor HOUR now) u) c jc
         | None => c ∉ collections
         end.
Proof.
  intros Hser Hnow Hweek Hcs [s Hs] Hu Hbs Hbu.
  assert (Hsw : ∃ s', since_or_week_ago now since = Ok s' ∧ (s' mod HOUR = 0)%N).
  { unfold since_or_week_ago. rewrite Hs. cbn [result_bind]. destruct s as [s|].
    - exists s. split; [done|]. exact (proj1 (dt_opt_hour since (Some s) Hbs Hs)).
    - unfold cursor_ago. rewrite (proj2 (N.ltb_ge _ _)) by done. cbn [result_bind]. eexists. split; [done|]. apply N.Div0.mod_mul. }
  destruct Hsw as (s' & Hs' & Hm). unfold get_collection_stats, multi_collection_try_from. rewrite nsid_set_ok by done. cbn [result_bind].
  rewrite Hs', Hu. cbn [result_bind].
  destruct (stats_fold s' u (elements (list_to_set collections : gset string)) ∅) as (m & Hr & Hout & Hin); try done.
  - apply Forall_forall. intros c Hc. rewrite elem_of_elements, elem_of_list_to_set in Hc. rewrite Forall_forall in Hcs. by apply Hcs.
  - apply NoDup_elements.
  - exact (dt_opt_hour cur_until u Hbu Hu).
  - exists s', m. split_and!; [done|exact Hr|]. intros c. assert (He : c ∈ elements (list_to_set collections : gset string) ↔ c ∈ collections).
    { by rewrite elem_of_elements, elem_of_list_to_set. }
    destruct (decide (c ∈ collections)) as [Hc|Hc].
    + destruct (Hin c (proj2 He Hc)) as (jc & -> & Hok). done.
    + rewrite Hout by (by rewrite He). by rewrite lookup_empty.
Qed.

(** ** Search and order *)

(** Every string contains the empty one. *)
Lemma contains_empty s : contains_str "" s = true.
Proof. by destruct s. Qed.

(** An empty query, or one with two spaces in a row, searches for the empty
    term, which every nsid contains: the answer is the first sixteen
    collections. *)
Theorem search_empty_term (q : string) :
  in_service d → "" ∈ str_split " " q →
  ∃ L out, listing d [Trunc.AllTime] L ∧ search_collections q = Ok out ∧ map nc_nsid out = map nsid_str (take SEARCH_LIMIT L).
Proof.
  intros Hser Hin. destruct (search_ok d (str_split " " q) Hser) as (L & out & HL & Ho & Hn & _). exists L, out. split; [done|].
  unfold search_collections. cbn [rd_search_collections service fjall_reader]. rewrite Ho. split; [done|]. rewrite Hn. do 2 f_equal.
  assert (Hall : ∀ n, term_matches (str_split " " q) n = true).
  { intros n. unfold term_matches. apply existsb_exists. exists "". rewrite <- list_elem_of_In. split; [done|apply contains_empty]. }
  clear - Hall. induction L as [|n L IH]; [done|]. rewrite filter_cons, decide_True by (by rewrite Hall). by f_equal.
Qed.

(** The prefix endpoint documents an order; every valid request that names
    one fails with an internal error, because the store has not implemented it. *)
Theorem prefix_order_fails (q : PrefixQuery) (o : CollectionsQueryOrder) pre :
  in_service d → (now < u64_bound)%N → nsid_prefix_new (pq_prefix q) = Ok pre → request_ok (pq_query q) → cq_order (pq_query q) = Some o →
  (∀ dt, cq_since (pq_query q) = Some dt → (dt < 2 ^ 63)%Z) → (∀ dt, cq_until (pq_query q) = Some dt → (dt < 2 ^ 63)%Z) →
  get_prefix now q = Err (InternalError (JoinError "not yet implemented")).
Proof.
  intros Hser Hnow Hpre Hok Ho Hbs Hbu. unfold get_prefix. rewrite Hpre.
  destruct (page_request_cases (pq_query q)) as [[_ (l & ord & s & u & -> & _ & Es & Eu & Eo & _)]|[Hno _]]; [|done].
  rewrite Ho in Eo. cbn [result_bind rd_get_prefix service fjall_reader].
  destruct (query_buckets_ok d Hser s u now) as (bs & Hq & _); [exact (dt_opt_hour _ s Hbs Es)|exact (dt_opt_hour _ u Hbu Eu)|done|].
  unfold Reader.get_prefix. rewrite Hq. cbn [result_bind]. subst ord. by destruct o.
Qed.
End Fjall.
End Server.
