(* ===== verification/UfosHttp.v ===== *)
(** * ufos: the HTTP surface (ufos/src/server)

    The endpoints that [serve] registers, with their handlers, the CORS header
    of a success and the labels under which a request is counted.  A handler
    runs after dropshot has extracted its query; a panic ends the task without
    a response and without counting the request. *)

From Stdlib Require Import Sorted.
From S2P Require Import Prelude RustStr Bytes UfosCursor UfosDbTypes.
From S2P Require Import UfosStoreTypes UfosBatch UfosFjallApi UfosStorage UfosRollup.
From S2P Require Import UfosBackground UfosInsert UfosInit UfosReader UfosCounts.
From S2P Require Import UfosQueries UfosServer.
Import Db Store Batch FjallStore Background Insert Init Reader.
Import Counting Queries Server.

Module UfosHttp.

(** ** Requests *)

(** A request to a registered endpoint, its query as dropshot extracts it; the
    query of the stats endpoint is also read by [MultiCollectionQuery]. *)
Inductive Call : Type :=
  | CallIndex
  | CallOpenapi
  | CallMeta
  | CallRecords (collection : option string)
  | CallStats (raw_query : option string) (since until_ : option Z)
  | CallCollections (q : CollectionsQuery)
  | CallPrefix (q : PrefixQuery)
  | CallTimeseries (q : CollectionTimeseriesQuery)
  | CallSearch (q : string).

(** dropshot's operation id is the name of the function. *)
Definition operation_id (c : Call) : string :=
  match c with
  | CallIndex => "index"
  | CallOpenapi => "get_openapi"
  | CallMeta => "get_meta_info"
  | CallRecords _ => "get_records_by_collections"
  | CallStats _ _ _ => "get_collection_stats"
  | CallCollections _ => "get_collections"
  | CallPrefix _ => "get_prefix"
  | CallTimeseries _ => "get_timeseries"
  | CallSearch _ => "search_collections"
  end.

(** Headers as [to_str] gives them: [None] if absent or not visible ASCII. *)
Record Headers : Type := mkHeaders { hd_origin : option string; hd_user_agent : option string }.

(** ** Responses *)

Inductive Content : Type :=
  | Html (page : string)
  | OpenApi (spec : string)
  | Meta (info : MetaInfo)
  | Records (records : list ApiRecord)
  | Stats (seen_by_collection : gmap string JustCount)
  | Collections (collections : list NsidCount) (cursor : option string)
  | Children (total : JustCount) (children : list PrefixChild) (cursor : option string)
  | Timeseries (range : list Z) (series : gmap string (list JustCount))
  | Matches (matches : list NsidCount).

Record Response : Type := mkResponse { rs_headers : list (string * string); rs_content : Content }.

Definition ok_cors (c : Content) : Response := mkResponse [("access-control-allow-origin", "*")] c.

(** The status of an error; a panic has none. *)
Definition error_status (e : HttpError) : option nat :=
  match e with BadRequest _ => Some 400 | InternalError _ => Some 500 | HandlerPanic _ => None end.
Definition status_of (r : result HttpError Response) : option nat :=
  match r with Ok _ => Some 200 | Err e => error_status e end.

Record Labels : Type := mkLabels { lb_endpoint : string; lb_origin : string; lb_ua : string; lb_status_code : nat }.

Section Api.
Context `{SketchOps} `{Atrium, Base64, Chrono}.
Context (INDEX_HTML spec : string) (serde_qs : string → option (list string)).

(** The counter, unless the handler panics. *)
Definition instrument_handler (c : Call) (h : Headers) (result : result HttpError Response) : Prelude.result HttpError Response * option Labels :=
  let origin := default "" (hd_origin h) in
  let ua := default "" ((λ ua, if String.prefix "Mozilla/5.0 " ua then "browser" else ua) <$> hd_user_agent h) in
  (result, mkLabels (operation_id c) origin ua <$> status_of result).

(** [MultiCollectionQuery::from_request]. *)
Definition from_request (raw_query : option string) : result HttpError (list string) :=
  match serde_qs (default "" raw_query) with
  | Some q => Ok q
  | None => Err (BadRequest "unable to parse query string")
  end.

Context `{SR : StoreReader} (now : N).

Definition handler (c : Call) : result HttpError Response :=
  match c with
  | CallIndex => Ok (mkResponse [("content-type", "text/html")] (Html INDEX_HTML))
  | CallOpenapi => Ok (ok_cors (OpenApi spec))
  | CallMeta => info ←? get_meta_info; Ok (ok_cors (Meta info))
  | CallRecords collection => records ←? get_records_by_collections now collection; Ok (ok_cors (Records records))
  | CallStats raw since until_ =>
      collections ←? from_request raw; seen ←? get_collection_stats now collections since until_; Ok (ok_cors (Stats seen))
  | CallCollections q => '(cs, cursor) ←? get_collections now q; Ok (ok_cors (Collections cs cursor))
  | CallPrefix q => '(total, cs, cursor) ←? get_prefix now q; Ok (ok_cors (Children total cs cursor))
  | CallTimeseries q => '(range, series) ←? get_timeseries now q; Ok (ok_cors (Timeseries range series))
  | CallSearch q => matches ←? search_collections q; Ok (ok_cors (Matches matches))
  end.

(** The extraction of a query comes before the handler, and is not counted. *)
Definition serve (c : Call) (h : Headers) : result HttpError Response * option Labels :=
  match c with
  | CallStats raw _ _ =>
      match from_request raw with
      | Ok _ => instrument_handler c h (handler c)
      | Err e => (Err e, None)
      end
  | _ => instrument_handler c h (handler c)
  end.
End Api.

(** ** Answers from the store *)

Section Fjall.
Context `{FL : FjallLaws} `{LL : LsmTreeLaws} `{AL : AtriumLaws} `{BL : BincodeStrLaws}.
Context `{SketchOps, AtriumNsid, RawValueJson}.
Context `{Bincode2 CommitCounts, Bincode2 RecordLocationMeta, Bincode2 Sketch, Bincode2 SketchSecretPrefix}.
Context `{!Bincode2Laws CommitCounts, !Bincode2Laws RecordLocationMeta, !Bincode2Laws Sketch, !Bincode2Laws SketchSecretPrefix}.
Context `{BA : Base64Laws} `{Chrono}.

(** Whatever decodes as an nsid is one. *)
Lemma dec_nsid_wf b (n : Nsid) : dec b = Ok n → wf n.
Proof.
  unfold dec, db_complete. cbn [from_db_bytes nsid_db_bytes]. intros Hd.
  destruct (string_from_db_bytes b) as [[s k]|e]; cbn [result_bind] in Hd; [|by destruct e].
  destruct (nsid_valid s) eqn:E; cbn [result_bind] in Hd; [|done]. case_decide; [done|]. injection Hd as <-. exact E.
Qed.

(** A page at any cursor that decodes, also one that was never handed out. *)
Lemma lexi_answers d buckets limit cursor c :
  buckets_ok d buckets → dec_opt (T := Nsid) cursor = Ok c → ∃ r, get_lexi_collections d limit cursor buckets = Ok r.
Proof.
  intros Hok Hc. unfold get_lexi_collections. rewrite Hc. cbn [result_bind].
  assert (Hwf : match c with Some n => wf n | None => True end).
  { destruct cursor as [b|]; cbn [dec_opt] in Hc; [|by injection Hc as <-]. apply result_bind_Ok in Hc as (n & Hn & [= <-]). by eapply dec_nsid_wf. }
  destruct (rows_ok d buckets Hok c Hwf) as (rows & -> & Hs & Hnames & Hcounts). cbn [result_bind].
  destruct (sorted_nsids_ok (row_names rows)) as [HL He].
  assert (Hin : ∀ n, n ∈ sorted_nsids (row_names rows) → wf n ∧ wf (rows_count n rows)).
  { intros n Hn. apply He, Hnames in Hn as [[Hn _] Ha]. split; [done|]. rewrite (Hcounts n Hn Ha). by apply (bo_fits d buckets Hok). }
  destruct (lexi_loop_ok limit rows _ [] None Hs HL He) as (page & -> & _); [by intros n [_ ?]%Hin|]. cbn [result_bind].
  destruct (decide _); [|by eexists]. change (option_list None ++ ?l) with l.
  destruct (last _) as [n|] eqn:E; [|by eexists].
  assert (Hn : wf n).
  { apply Hin. apply last_Some in E as [l0 E]. apply (elem_of_take_in n limit). rewrite E, elem_of_app, list_elem_of_singleton. by right. }
  unfold enc. rewrite (nsid_bytes_Ok n Hn). by eexists.
Qed.

Context (INDEX_HTML spec : string) (serde_qs : string → option (list string)).
Context (d : Keyspace) (stats : StorageResult string) (now : N).
Context (Hser : in_service d) (Hnow : (7 * 86400 * 1000000 ≤ now < u64_bound)%N).
#[local] Instance live : StoreReader := fjall_reader d stats now.

(** Dates before the year 294247, which 64 bits of microseconds hold. *)
Definition date_fits (o : option Z) : Prop := ∀ dt, o = Some dt → (dt < 2 ^ 63)%Z.
(** The cursor of a page as the store gets it. *)
Definition page_cursor (q : CollectionsQuery) : option string := c ← cq_cursor q; if decide (c = "") then None else b64_decode c.

Lemma collections_answer q (handle := handler INDEX_HTML spec serde_qs now) :
  cq_order q = None → date_fits (cq_since q) → date_fits (cq_until q) →
  (¬ request_ok now q ∧ ∃ msg, handle (CallCollections q) = Err (BadRequest msg)) ∨
  (request_ok now q ∧ match dec_opt (T := Nsid) (page_cursor q) with
     | Ok _ => ∃ cs cursor, handle (CallCollections q) = Ok (ok_cors (Collections cs cursor))
     | Err _ => ∃ e, handle (CallCollections q) = Err (InternalError e)
     end).
Proof.
  intros Ho Hs Hu. unfold handle, handler, get_collections.
  destruct (page_request_cases now q) as [[Hok (limit & order & s & u & -> & _ & Es & Eu & -> & _)]|[Hno [msg ->]]];
    [right; split; [done|]|left; split; [done|by exists msg]].
  rewrite Ho. cbn [result_bind rd_get_collections live fjall_reader]. unfold Reader.get_collections.
  destruct (query_buckets_ok d Hser s u now) as (bs & -> & Hbs & _);
    [exact (dt_opt_hour now _ s Hs Es)|exact (dt_opt_hour now _ u Hu Eu)|apply Hnow|].
  cbn [result_bind]. change (c ← cq_cursor q; if decide (c = "") then None else b64_decode c) with (page_cursor q).
  destruct (dec_opt (page_cursor q)) as [c|e] eqn:Ec.
  - destruct (lexi_answers d bs limit (page_cursor q) c Hbs Ec) as [[cs next] ->]. by eexists _, _.
  - unfold get_lexi_collections. rewrite Ec. cbn [result_bind]. destruct e; by eexists.
Qed.

Lemma nsid_set_cases cs msg :
  Forall (λ c, nsid_valid c = true) cs ∨ (¬ Forall (λ c, nsid_valid c = true) cs ∧ nsid_set cs msg = Err (BadRequest msg)).
Proof.
  induction cs as [|c cs IH]; [by left|]. cbn [nsid_set]. destruct (nsid_valid c) eqn:E.
  - destruct IH as [IH|[Hno ->]]; [left; by constructor|right]. split; [|done]. by intros [_ ?]%Forall_cons.
  - right. split; [|done]. intros [? _]%Forall_cons. congruence.
Qed.

(** What the stats endpoint accepts. *)
Definition stats_ok (cs : list string) (since cur_until : option Z) : Prop :=
  Forall (λ c, nsid_valid c = true) cs ∧ date_ok now since ∧ date_ok now cur_until.

Lemma stats_answer cs since cur_until :
  date_fits since → date_fits cur_until →
  (¬ stats_ok cs since cur_until ∧ ∃ msg, get_collection_stats now cs since cur_until = Err (BadRequest msg)) ∨
  (stats_ok cs since cur_until ∧ ∃ m, get_collection_stats now cs since cur_until = Ok m).
Proof.
  intros Hs Hu. unfold stats_ok.
  destruct (nsid_set_cases cs "failed to convert collection to an NSID") as [Hcs|[Hno E]].
  2: { left. split; [by intros [? _]|]. unfold get_collection_stats, multi_collection_try_from. rewrite E. by eexists. }
  destruct (dt_opt_cases now since) as [Hds|[msg E]].
  2: { left. split; [intros (_ & [c Hc] & _); congruence|]. unfold get_collection_stats, multi_collection_try_from, since_or_week_ago.
       rewrite nsid_set_ok by done. cbn [result_bind]. rewrite E. by eexists. }
  destruct (dt_opt_cases now cur_until) as [[u Hdu]|[msg E]].
  - right. split; [split_and!; [done|done|by exists u]|].
    destruct (http_stats_exact d stats now cs since cur_until u Hser) as (? & m & _ & Hm & _); try done; try apply Hnow. by exists m.
  - left. split; [intros (_ & _ & [c Hc]); congruence|]. unfold get_collection_stats, multi_collection_try_from.
    rewrite nsid_set_ok by done. cbn [result_bind]. unfold since_or_week_ago. destruct Hds as [s ->]. cbn [result_bind].
    destruct s as [s|]; cbn [result_bind]; [rewrite E; by eexists|].
    unfold cursor_ago. rewrite (proj2 (N.ltb_ge _ _)) by apply Hnow. cbn [result_bind]. rewrite E. by eexists.
Qed.

(** ** Status codes *)

(** Requests to the pages that need no store, the collections in the order of
    their nsids, the stats and the search. *)
Definition plain_call (c : Call) : Prop :=
  match c with
  | CallIndex | CallOpenapi | CallSearch _ => True
  | CallStats _ since cur_until => date_fits since ∧ date_fits cur_until
  | CallCollections q => cq_order q = None ∧ date_fits (cq_since q) ∧ date_fits (cq_until q)
  | _ => False
  end.
Definition bad_call (c : Call) : Prop :=
  match c with
  | CallStats raw since cur_until =>
      match serde_qs (default "" raw) with Some cs => ¬ stats_ok cs since cur_until | None => True end
  | CallCollections q => ¬ request_ok now q
  | _ => False
  end.
Definition foreign_cursor (c : Call) : Prop :=
  match c with CallCollections q => request_ok now q ∧ ∃ e, dec_opt (T := Nsid) (page_cursor q) = Err e | _ => False end.
Definition unparsed (c : Call) : Prop :=
  match c with CallStats raw _ _ => serde_qs (default "" raw) = None | _ => False end.

(** The status and why. *)
Inductive answered (c : Call) : nat → Prop :=
  | answered_ok : ¬ bad_call c → ¬ foreign_cursor c → answered c 200
  | answered_bad : bad_call c → answered c 400
  | answered_failed : foreign_cursor c → answered c 500.

Lemma handler_answered c :
  plain_call c → ∃ code, status_of (handler INDEX_HTML spec serde_qs now c) = Some code ∧ answered c code.
Proof.
  destruct c as [| | | |raw since cur_until|q| | |q]; cbn [plain_call]; try done.
  - intros _. exists 200. split; [done|]. constructor; by intros ?.
  - intros _. exists 200. split; [done|]. constructor; by intros ?.
  - intros [Hs Hu]. cbn [handler]. unfold from_request. destruct (serde_qs (default "" raw)) as [cs|] eqn:E; cbn [result_bind].
    + destruct (stats_answer cs since cur_until Hs Hu) as [[Hno [msg ->]]|[Hok [m ->]]].
      * exists 400. split; [done|]. apply answered_bad. cbn [bad_call]. by rewrite E.
      * exists 200. split; [done|]. apply answered_ok; [cbn [bad_call]; rewrite E; naive_solver|by intros ?].
    + exists 400. split; [done|]. apply answered_bad. cbn [bad_call]. by rewrite E.
  - intros (Ho & Hs & Hu). destruct (collections_answer q Ho Hs Hu) as [[Hno [msg ->]]|[Hok Hc]].
    + exists 400. split; [done|]. by apply answered_bad.
    + destruct (dec_opt (page_cursor q)) as [x|e] eqn:E.
      * destruct Hc as (cs & cur & ->). exists 200. split; [done|]. apply answered_ok; [by intros ?|]. intros [_ [e He]]. congruence.
      * destruct Hc as [e' ->]. exists 500. split; [done|]. apply answered_failed. split; [done|]. by exists e.
  - intros _. cbn [handler]. unfold Server.search_collections. cbn [rd_search_collections live fjall_reader].
    destruct (search_ok d (str_split " " q) Hser) as (L & out & _ & -> & _). exists 200. split; [done|]. constructor; by intros ?.
Qed.

(** C20. Requests are answered: on a store in service, every request for the
    index, the description of the api, the list of collections, the statistics
    of collections or the search gets a response.  It is a bad request exactly
    if a parameter is refused, an internal error exactly if the cursor of the
    list is base64 of something that is not an nsid, and a success otherwise; a
    success of the data endpoints carries the CORS header; and the request is
    counted once, under its endpoint and its status, unless its query string
    could not be parsed. *)
Theorem requests_answered (c : Call) (h : Headers) (reply := serve INDEX_HTML spec serde_qs now c h) :
  plain_call c →
  ∃ code, status_of reply.1 = Some code ∧ answered c code ∧
    (∀ r, reply.1 = Ok r → c ≠ CallIndex → ("access-control-allow-origin", "*") ∈ rs_headers r) ∧
    ((unparsed c ∧ code = 400 ∧ reply.2 = None) ∨
     ∃ l, reply.2 = Some l ∧ lb_endpoint l = operation_id c ∧ lb_status_code l = code).
Proof.
  intros Hp. destruct (handler_answered c Hp) as (code & Hst & Ha). exists code.
  assert (Hcors : ∀ r, handler INDEX_HTML spec serde_qs now c = Ok r → c ≠ CallIndex → ("access-control-allow-origin", "*") ∈ rs_headers r).
  { intros r Hr Hne. destruct c; cbn [handler] in Hr; try done.
    all: repeat match type of Hr with context [result_bind ?x] => destruct x as [?|?]; cbn [result_bind] in Hr; [|done] end.
    all: repeat match type of Hr with context [let '(_, _) := ?x in _] => destruct x end; injection Hr as <-; by left. }
  assert (Hin : reply = instrument_handler c h (handler INDEX_HTML spec serde_qs now c) ∨
    (unparsed c ∧ reply = (handler INDEX_HTML spec serde_qs now c, None))).
  { unfold reply. destruct c; try by left. cbn [serve handler unparsed]. unfold from_request.
    destruct (serde_qs _); [by left|by right]. }
  destruct Hin as [-> |[Hu ->]]; cbn [instrument_handler fst snd].
  - split_and!; [done|done|exact Hcors|]. right. rewrite Hst. by eexists.
  - split_and!; [done|done|exact Hcors|]. left. split_and!; [done| |done].
    destruct c; try done. cbn [handler unparsed] in *. unfold from_request in Hst. rewrite Hu in Hst. by injection Hst as <-.
Qed.
End Fjall.
End UfosHttp.
