(* ===== verification/UfosLivePages.v ===== *)
(** * ufos: listing collections while the store changes

    The documentation of the collections endpoint promises a client that pages
    through the list while batches are inserted and rolled up: all collections
    that were there before its first request, no collection twice.  Here every
    request is answered from a store that may have moved on since the request
    before. *)

From Stdlib Require Import Sorted.
From stdpp Require Import sorting.
From S2P Require Import Prelude RustStr Bytes UfosCursor UfosDbTypes.
From S2P Require Import UfosStoreTypes UfosBatch UfosFjallApi UfosStorage UfosRollup.
From S2P Require Import UfosBackground UfosInsert UfosInit UfosReader UfosCounts.
From S2P Require Import UfosRanks UfosQueries UfosServer.
Import Db Store Batch FjallStore Background Insert Init Reader.
Import Counting Ranks Queries Server.

Module LivePages.

(** ** Sorted lists *)

(** The list of a later store splits where the client stopped reading. *)
Lemma sorted_split (L P : list Nsid) : (∀ n, n ∈ P → n ∈ L) → ∃ L1 L2, L = L1 ++ L2 ∧ last L1 = last P.
Proof.
  intros Hsub. destruct (last P) as [c|] eqn:E; [|by exists [], L]. apply last_Some in E as [P' ->].
  destruct (list_elem_of_split L c) as (l1 & l2 & ->); [apply Hsub; rewrite elem_of_app, list_elem_of_singleton; by right|].
  exists (l1 ++ [c]), l2. by rewrite <- app_assoc, last_snoc.
Qed.

(** Behind the last element of a sorted list there is room for what comes after it. *)
Lemma sorted_extend (P Q : list Nsid) :
  StronglySorted nsid_lt P → StronglySorted nsid_lt Q → (∀ n, n ∈ Q → after (last P) n) → StronglySorted nsid_lt (P ++ Q).
Proof.
  intros HP HQ Ha. apply StronglySorted_app. split_and!; [|done|done]. intros a b Ha' Hb. specialize (Ha b Hb).
  destruct P as [|c P _] using rev_ind; [by apply not_elem_of_nil in Ha'|]. rewrite last_snoc in Ha. simpl in Ha.
  apply StronglySorted_app in HP as (HP & _ & _). rewrite elem_of_app, list_elem_of_singleton in Ha'.
  destruct Ha' as [Ha'| ->]; [|done]. etrans; [apply HP; [done|by left]|done].
Qed.

Lemma sorted_length (P L : list Nsid) : StronglySorted nsid_lt P → (∀ n, n ∈ P → n ∈ L) → length P ≤ length L.
Proof. intros HP Hsub. apply submseteq_length, NoDup_submseteq; [by apply sorted_nodup|done]. Qed.

Section Live.
Context `{FL : FjallLaws} `{LL : LsmTreeLaws} `{AL : AtriumLaws} `{BL : BincodeStrLaws}.
Context `{SketchOps, AtriumNsid, RawValueJson}.
Context `{Bincode2 CommitCounts, Bincode2 RecordLocationMeta, Bincode2 Sketch, Bincode2 SketchSecretPrefix}.
Context `{!Bincode2Laws CommitCounts, !Bincode2Laws RecordLocationMeta, !Bincode2Laws Sketch, !Bincode2Laws SketchSecretPrefix}.
Context `{BA : Base64Laws} `{Chrono}.

Abbreviation LiveKey := (DbConcat (DbConcat (DbStaticStr "live_counts") Cursor) Nsid).

(** ** The store moves on *)

(** Batches and rollup steps, as for [service_from]. *)
Inductive serves (d : Keyspace) : Keyspace → Prop :=
  | serves_still : serves d d
  | serves_insert d' b latest d'' : serves d d' → batch_wf b → latest_cursor b = Some latest →
      (∀ (nsid : Nsid) k, is_Some (commits_by_nsid b !! nsid_str nsid) →
         to_db_bytes (live_counts_key latest nsid : LiveKey) = Ok k → fj_get d' ROLLUPS k = None) →
      (∀ (nsid : Nsid) r, wf nsid → rollup_wf r →
         wf (add_counts (inserted b latest (nsid_str nsid) r) (total d' (nsid_str nsid) r))) →
      insert_batch d' b = Ok d'' → serves d d''
  | serves_rollup d' d'' n dirty : serves d d' → step_rollup d' = Ok (d'', n, dirty) → serves d d''.

Lemma serves_service d d' : in_service d → serves d d' → in_service d'.
Proof. intros Hd. induction 1; [done|by eapply service_insert|by eapply service_rollup]. Qed.

(** A collection that is in a bucket stays there. *)
Definition keeps (d d' : Keyspace) : Prop :=
  ∀ b n, rollup_wf (bucket_rollup b) → wf n → has d b n → has d' b n.

Lemma quiet_keeps d d' : quiet d d' → keeps d d'.
Proof.
  intros Hq b n Hb Hn (k & v & Hk & Hg). exists k, v. split; [done|].
  destruct (rollup_key_family _ n k Hb Hn Hk) as [_ Hno]. by rewrite (quiet_get d d').
Qed.

Lemma rollup_live_keeps d timely limit d' n dirty :
  rollup_inv d → (∀ kv, kv ∈ timely → kv ∈ fj_prefix d ROLLUPS live_family) → NoDup timely →
  rollup_live_counts d timely limit MAX_BATCHED_ROLLUP_COUNTS = Ok (d', n, dirty) → keeps d d'.
Proof.
  intros Hinv Hsub Hnd Hl b m Hb Hm (k & v & Hk & Hg).
  destruct (rollup_live_counts_run d timely limit MAX_BATCHED_ROLLUP_COUNTS Hinv Hsub Hnd) as (con & rest & st & ops & Ht & Hr & _ & Hw & _).
  rewrite Hl in Hr. injection Hr as -> _ _.
  assert (Hcon : Forall (λ kv, in_family "live_counts" kv.1) con).
  { apply Forall_forall. intros kv Hkv. assert (Hp : kv ∈ fj_prefix d ROLLUPS live_family) by (apply Hsub; rewrite Ht, elem_of_app; by left).
    destruct kv as [k' v']. apply fj_prefix_spec in Hp as [_ Hp]. by apply in_family_starts. }
  destruct (batch_bucket d _ con ops (u64_to_be_bytes (cursor_us (last_cursor st))) Hw Hcon m _ k Hm Hb Hk) as [(c & c' & v' & _ & _ & _ & _ & Hg')|[_ Hg']].
  - by exists k, v'.
  - exists k, v. by rewrite Hg'.
Qed.

Lemma step_rollup_keeps d d' n dirty : rollup_inv d → step_rollup d = Ok (d', n, dirty) → keeps d d'.
Proof.
  intros Hinv Hr. destruct (ri_cursor d Hinv) as (c & Hc & Hcur).
  destruct (step_rollup_reads d c Hinv Hc Hcur) as (timely & queue & Hv & E). rewrite E in Hr. clear E.
  assert (Hlive : ∀ limit, rollup_live_counts d timely limit MAX_BATCHED_ROLLUP_COUNTS = Ok (d', n, dirty) → keeps d d').
  { intros limit. apply rollup_live_keeps; [done|intros kv Hkv; by apply (sv_live _ _ _ _ Hv)|].
    eapply NoDup_fmap_1, sorted_NoDup, (sv_live_sorted _ _ _ _ Hv). }
  assert (Hdel : ∀ c k v, ('(d, n) ←? rollup_delete_account d c k v; Ok (d, n, ∅)) = Ok (d', n, dirty) → keeps d d').
  { intros c' k v Hd. apply result_bind_Ok in Hd as ([d1 n1] & Hd & [= -> _ _]). by eapply quiet_keeps, rollup_delete_account_quiet. }
  destruct timely as [|kv timely], queue as [|q queue]; cbn [step_arms] in Hr.
  - injection Hr as <- _ _. by intros b m.
  - by eapply Hdel.
  - by eapply Hlive.
  - destruct (_ <? _)%N; [by eapply Hlive|by eapply Hdel].
Qed.

Lemma serves_keeps d d' : in_service d → serves d d' → keeps d d'.
Proof.
  intros Hd. induction 1 as [|d' b latest d'' Hs IH ???? Hi|d' d'' n dirty Hs IH Hr]; intros bk m Hb Hm Hh; [done|..].
  - apply (quiet_keeps d' d''); [by eapply insert_batch_quiet|done|done|by apply IH].
  - eapply step_rollup_keeps; [|exact Hr|done|done|by apply IH]. apply (service_agrees d'). by eapply serves_service.
Qed.

Lemma listed_keeps d d' n : in_service d → serves d d' → listed d [Trunc.AllTime] n → listed d' [Trunc.AllTime] n.
Proof.
  intros Hd Hs (Hn & b & ->%list_elem_of_singleton & Hh). split; [done|]. exists Trunc.AllTime. split; [by left|].
  by apply (serves_keeps d d' Hd Hs).
Qed.

(** ** The client *)

Context (stats : StorageResult string) (limit : nat) (Hlim : 1 ≤ limit ≤ 200).

(** One request per store and time; [true] when the last response had no cursor. *)
Fixpoint live_pages (reqs : list (Keyspace * N)) (cursor : option string) : result HttpError (list NsidCount * bool) :=
  match reqs with
  | [] => Ok ([], false)
  | (d, now) :: reqs =>
      '(page, next) ←? http_page d stats now limit None None cursor;
      match next with
      | None => Ok (page, true)
      | Some cursor => '(rest, ended) ←? live_pages reqs (Some cursor); Ok (page ++ rest, ended)
      end
  end.

(** From [d], the store only moves on between requests. *)
Fixpoint moving (d : Keyspace) (reqs : list (Keyspace * N)) : Prop :=
  match reqs with
  | [] => True
  | (d', now) :: reqs => serves d d' ∧ (now < u64_bound)%N ∧ moving d' reqs
  end.
Fixpoint at_end (d : Keyspace) (reqs : list (Keyspace * N)) : Keyspace :=
  match reqs with [] => d | (d', _) :: reqs => at_end d' reqs end.

Lemma moving_end reqs : ∀ d n, in_service d → moving d reqs → listed d [Trunc.AllTime] n → listed (at_end d reqs) [Trunc.AllTime] n.
Proof.
  induction reqs as [|[d' now] reqs IH]; intros d n Hd Hm Hn; [done|]. destruct Hm as (Hs & _ & Hm). cbn [at_end].
  apply IH; [by eapply serves_service|done|by eapply listed_keeps].
Qed.

(** One response: [P] is what the client has, [L] the list of the store. *)
Lemma live_page d now P :
  in_service d → (now < u64_bound)%N → (∀ n, n ∈ P → listed d [Trunc.AllTime] n) →
  ∃ L1 L2 page, listing d [Trunc.AllTime] (L1 ++ L2) ∧ last L1 = last P ∧
    http_page d stats now limit None None (b64_encode <$> (nsid_bytes <$> last P)) =
      Ok (page, if decide (limit ≤ length L2) then b64_encode <$> (nsid_bytes <$> last (take limit L2)) else None) ∧
    map nc_nsid page = map nsid_str (take limit L2) ∧
    Forall (λ nc, answers nc (buckets_sum d (nc_nsid nc) [Trunc.AllTime])) page.
Proof.
  intros Hd Hnow HP. destruct (query_buckets_ok d Hd None None now I I Hnow) as (bs & Hq & Hok & ->).
  destruct (listing_exists d _ Hok) as [L HL]. destruct (sorted_split L P) as (L1 & L2 & -> & Elast); [intros n Hn; by apply HL, HP|].
  destruct (page_ok d _ Hok limit L1 L2 (nsid_bytes <$> last P) HL) as (page & Hp & Hn & Ha); [by rewrite Elast|].
  exists L1, L2, page. split_and!; [done|done| |done|done].
  rewrite (http_page_eq d stats now limit None None None None Hlim eq_refl eq_refl).
  - unfold Reader.get_collections. rewrite Hq. cbn [result_bind]. rewrite Hp. cbn [spawn_blocking internal result_bind]. by case_decide.
  - destruct (last P) as [c|]; [|done]. cbn. intros [= E]. by apply str_app_empty in E as [_ ?].
Qed.

(** What the client has at the end, from what it has so far. *)
Lemma live_pages_ok reqs : ∀ d (P L0 L' : list Nsid),
  in_service d → moving d reqs → (∀ n, n ∈ P → listed d [Trunc.AllTime] n) → StronglySorted nsid_lt P →
  (∀ n, n ∈ L0 → listed d [Trunc.AllTime] n ∧ (n ∈ P ∨ after (last P) n)) →
  listing (at_end d reqs) [Trunc.AllTime] L' → length L' < length P + length reqs →
  ∃ pages Q, live_pages reqs (b64_encode <$> (nsid_bytes <$> last P)) = Ok (pages, true) ∧ map nc_nsid pages = map nsid_str Q ∧
    StronglySorted nsid_lt (P ++ Q) ∧ (∀ n, n ∈ L0 → n ∈ P ++ Q) ∧ (∀ n, n ∈ Q → n ∈ L') ∧
    Forall (λ nc, ∃ req, req ∈ reqs ∧ answers nc (buckets_sum req.1 (nc_nsid nc) [Trunc.AllTime])) pages.
Proof.
  induction reqs as [|[d' now] reqs IH]; intros d P L0 L' Hd Hm HP Hs Hb0 HL' Hf.
  { cbn [at_end length] in *. assert (length P ≤ length L'); [|lia]. apply sorted_length; [done|]. intros n Hn. by apply HL', HP. }
  destruct Hm as (Hsv & Hnow & Hm). cbn [at_end length live_pages] in *.
  assert (Hd' : in_service d') by (by eapply serves_service).
  assert (HP' : ∀ n, n ∈ P → listed d' [Trunc.AllTime] n) by (intros n Hn; eapply listed_keeps; [exact Hd|exact Hsv|by apply HP]).
  destruct (live_page d' now P Hd' Hnow HP') as (L1 & L2 & page & HL & Elast & -> & Hn & Ha). cbn [result_bind].
  destruct HL as [HLs HLin]. pose proof HLs as (_ & _ & HL2)%StronglySorted_app.
  assert (Hin2 : ∀ n, n ∈ L2 → n ∈ L1 ++ L2) by (intros n ?; rewrite elem_of_app; by right).
  assert (Haft : ∀ n, n ∈ L2 → after (last P) n) by (intros n Hn2; rewrite <- Elast; apply (sorted_app_after L1 L2); auto).
  assert (Hcov : ∀ n, n ∈ L0 → n ∈ P ∨ n ∈ L2).
  { intros n [Hl [?|Haf]]%Hb0; [by left|]. right. rewrite <- Elast in Haf. apply (sorted_app_after L1 L2 n HLs); [|done]. apply HLin. exact (listed_keeps d d' n Hd Hsv Hl). }
  assert (Hans : Forall (λ nc, ∃ req, req ∈ (d', now) :: reqs ∧ answers nc (buckets_sum req.1 (nc_nsid nc) [Trunc.AllTime])) page).
  { eapply Forall_impl; [exact Ha|]. intros nc Hnc. exists (d', now). split; [by left|done]. }
  destruct (decide (limit ≤ length L2)) as [Hle|Hgt].
  - pose proof HL2 as Hcut. rewrite <- (take_drop limit L2) in Hcut. pose proof Hcut as (_ & Hst & _)%StronglySorted_app.
    assert (Hext : StronglySorted nsid_lt (P ++ take limit L2)) by (apply sorted_extend; [done|done|]; intros n ?%elem_of_take_in; auto).
    destruct (last (take limit L2)) as [c|] eqn:Ec.
    2: { apply last_None in Ec. apply (f_equal length) in Ec. rewrite length_take in Ec. simpl in Ec. lia. }
    cbn [fmap option_fmap option_map]. assert (Elast' : last (P ++ take limit L2) = Some c) by (by rewrite last_app, Ec).
    destruct (IH d' (P ++ take limit L2) L0 L' Hd' Hm) as (rest & Q & Hr & Hnr & Hsr & Hbr & HLr & Har); [| |..|].
    + intros n [?|?%elem_of_take_in]%elem_of_app; [by apply HP'|by apply HLin, Hin2].
    + done.
    + intros n Hn0. split; [by eapply listed_keeps; [exact Hd|exact Hsv|apply Hb0]|]. rewrite Elast', elem_of_app.
      destruct (Hcov n Hn0) as [?|Hn2]; [by left; left|]. rewrite <- (take_drop limit L2), elem_of_app in Hn2. destruct Hn2 as [?|Hn2]; [by left; right|].
      right. rewrite <- Ec. apply (sorted_app_after (take limit L2) (drop limit L2) n Hcut); [rewrite elem_of_app; by right|done].
    + done.
    + rewrite length_app, length_take. lia.
    + rewrite Elast' in Hr. cbn [fmap option_fmap option_map] in Hr. rewrite Hr. cbn [result_bind].
      exists (page ++ rest), (take limit L2 ++ Q). rewrite app_assoc, !map_app, Hn, Hnr. split_and!; try done.
      * intros n [Hnt|?]%elem_of_app; [|by apply HLr]. apply HL', (moving_end reqs d' n Hd' Hm), HLin, Hin2. by eapply elem_of_take_in.
      * apply Forall_app. split; [done|]. eapply Forall_impl; [exact Har|]. intros nc (req & ? & ?). exists req. split; [by right|done].
  - exists page, L2. rewrite take_ge in Hn by lia. split_and!; try done.
    + apply sorted_extend; auto.
    + intros n Hn0. rewrite elem_of_app. by apply Hcov.
    + intros n Hn2. by apply HL', (moving_end reqs d' n Hd' Hm), HLin, Hin2.
Qed.

(** C4. The promise of the collections endpoint to a client that pages through
    the list while the service goes on.  From a store in service with the
    collections [L0], with any batches and rollup steps before and between its
    requests, the client gets a list in strict order of the nsids, so without
    duplicates, with all of [L0], and with nothing but collections [L'] of the
    store at the end; every count is that of the store that answered; and its
    requests come to an end, after at most one more than there are collections. *)
Theorem live_listing (d : Keyspace) (reqs : list (Keyspace * N)) (L0 L' : list Nsid) :
  in_service d → moving d reqs → listing d [Trunc.AllTime] L0 →
  listing (at_end d reqs) [Trunc.AllTime] L' → length L' < length reqs →
  ∃ pages names, live_pages reqs None = Ok (pages, true) ∧ map nc_nsid pages = map nsid_str names ∧
    StronglySorted nsid_lt names ∧ (∀ n, n ∈ L0 → n ∈ names) ∧ (∀ n, n ∈ names → n ∈ L') ∧
    Forall (λ nc, ∃ req, req ∈ reqs ∧ answers nc (buckets_sum req.1 (nc_nsid nc) [Trunc.AllTime])) pages.
Proof.
  intros Hd Hm Hb0 HL' Hf. destruct (live_pages_ok reqs d [] L0 L' Hd Hm) as (pages & Q & Hp & Hrest); [..|by exists pages, Q].
  - by intros n ?%not_elem_of_nil.
  - constructor.
  - intros n Hn. split; [by apply Hb0|by right].
  - done.
  - done.
Qed.
End Live.
End LivePages.
