(* ===== verification/UfosQueryRuns.v ===== *)
(** * ufos: concrete runs of the queries

    The theorems on the queries at concrete stores, over the reference instance
    of the key-value interface, and runs of the prefix query that show where
    its pages repeat and where it panics. *)

From Stdlib Require Import Sorted.
From S2P Require Import Prelude RustStr Bytes UfosCursor UfosDbTypes.
From S2P Require Import UfosStoreTypes UfosBatch UfosFjallApi UfosStorage UfosRollup.
From S2P Require Import UfosBackground UfosInsert UfosInit UfosTrim UfosRuns.
From S2P Require Import UfosReader UfosCounts UfosQueries UfosRecords UfosPrefix.
From S2P Require Import UfosServer UfosHttp UfosLivePages.
Import Db Store Batch FjallStore Background Insert Init Trim FjallReference.
Import Runs Reader Counting Queries Records PrefixQuery LivePages.

Module QueryRuns.

(** The authority of an nsid: everything before its last dot. *)
Fixpoint authority_of (s : string) : string :=
  match s with
  | EmptyString => ""
  | String c s => if bool_decide (c = "."%char) && negb (str_contains "." s) then "" else String c (authority_of s)
  end.

#[local] Instance plain_authority : AtriumNsid := authority_of.
#[local] Instance plain_authority_laws : AtriumNsidLaws (H := plain_atrium).
Proof.
  intros s Hs. cbn [nsid_valid plain_atrium] in Hs. apply andb_true_iff in Hs as [_ Hdot].
  unfold domain_authority, plain_authority. induction s as [|c s IH]; [done|]. cbn [authority_of].
  case_bool_decide as Hc; cbn [andb].
  - subst c. destruct (str_contains "." s) eqn:E; cbn [negb].
    + destruct (IH eq_refl) as (name & En & Hname). exists name. split; [|done]. by rewrite str_app_cons, <- En.
    + by exists s.
  - assert (Hs : str_contains "." s = true).
    { cbn [str_contains] in Hdot. apply orb_true_iff in Hdot as [Hd|Hd]; [|done]. by apply bool_decide_eq_true in Hd. }
    destruct (IH Hs) as (name & En & Hname). exists name. split; [|done]. by rewrite str_app_cons, <- En.
Qed.
#[local] Instance plain_json : RawValueJson := λ s, Some s.

Section Runs.
#[local] Existing Instance plain_atrium.
#[local] Existing Instance plain_atrium_laws.
#[local] Existing Instance plain_bincode_str.
#[local] Existing Instance plain_bincode_str_laws.
#[local] Existing Instance plain_lsm.
#[local] Existing Instance plain_lsm_laws.
#[local] Existing Instance plain_sketch.
#[local] Existing Instance plain_sketch_bincode.
#[local] Existing Instance plain_sketch_laws.
#[local] Existing Instance plain_counts_bincode.
#[local] Existing Instance plain_counts_laws.
#[local] Existing Instance plain_meta_bincode.
#[local] Existing Instance plain_meta_laws.
#[local] Existing Instance plain_secret_bincode.
#[local] Existing Instance plain_secret_laws.

(** A store that was started, took a batch and rolled it up. *)
Definition store0 : Keyspace :=
  match init empty_store "wss.x" false (Some sample_secret) (mkCursor 1) with Ok (d, _, _) => d | Err _ => empty_store end.
Definition store1 : Keyspace := match insert_batch store0 sample_batch with Ok d => d | Err _ => store0 end.
Definition store2 : Keyspace := match step_rollup store1 with Ok (d, _, _) => d | Err _ => store1 end.

Lemma store1_inserted : insert_batch store0 sample_batch = Ok store1.
Proof. vm_cast_no_check (@eq_refl (StorageResult Keyspace) (Ok store1)). Qed.
Lemma store2_rolled_up : step_rollup store1 = Ok (store2, 1, {["a.b.c"]}).
Proof. vm_cast_no_check (@eq_refl (StorageResult (Keyspace * nat * gset string)) (Ok (store2, 1, {["a.b.c"]}))). Qed.

Lemma store2_service : in_service store2.
Proof.
  destruct (init_first empty_store "wss.x" false sample_secret (mkCursor 1) sample_fresh eq_refl eq_refl) as (d & Hi & Hst).
  assert (d = store0) as -> by (unfold store0; by rewrite Hi).
  apply (service_rollup _ store1 store2 1 {["a.b.c"]}); [|exact store2_rolled_up].
  apply (service_insert _ store0 sample_batch (mkCursor 7)).
  - by eapply (service_start _ empty_store "wss.x" false sample_secret (mkCursor 1)).
  - apply sample_batch_wf.
  - reflexivity.
  - intros. by apply (st_other _ _ _ Hst).
  - intros n r _ _. rewrite (started_total _ _ _ _ _ Hst), add_counts_0_r. apply inserted_wf.
  - exact store1_inserted.
Qed.

(** The one collection of the store. *)
Lemma store2_listed n : listed store2 [Trunc.AllTime] n → n = sample_nsid.
Proof.
  intros (Hwf & b & ->%list_elem_of_singleton & k & v & Hk & Hg).
  destruct (bucket_bytes_Ok AllTime I) as (pb & Hpb & _ & Hkey). injection Hpb as <-. cbn [bucket_rollup] in Hk. rewrite Hkey in Hk by done. injection Hk as <-.
  assert (Hp : (static_bytes "ever_counts" +:+ nsid_bytes n, v) ∈ fj_prefix store2 ROLLUPS (static_bytes "ever_counts")).
  { apply fj_prefix_spec. split; [done|]. apply starts_with_spec. by eexists. }
  assert (Hf : map fst (fj_prefix store2 ROLLUPS (static_bytes "ever_counts")) = [static_bytes "ever_counts" +:+ nsid_bytes sample_nsid]).
  { vm_cast_no_check (@eq_refl (list string) [static_bytes "ever_counts" +:+ nsid_bytes sample_nsid]). }
  apply (list_elem_of_fmap_2 fst) in Hp. change (fst <$> ?l) with (map fst l) in Hp. rewrite Hf in Hp. apply list_elem_of_singleton in Hp. cbn [fst] in Hp.
  apply str_app_inj_l in Hp. pose proof (bucket_key_order "" n sample_nsid Hwf eq_refl) as Ho. rewrite !str_app_nil_l, Hp, bytes_compare_refl in Ho.
  destruct n as [n]. f_equal. symmetry in Ho. by apply bytes_compare_eq in Ho.
Qed.

Lemma store2_has : is_Some (fj_get store2 ROLLUPS (static_bytes "ever_counts" +:+ nsid_bytes sample_nsid)).
Proof. vm_compute. eauto. Qed.

Lemma store2_listing : listing store2 [Trunc.AllTime] [sample_nsid].
Proof.
  split; [by repeat constructor|]. intros n. rewrite list_elem_of_singleton. split; [|apply store2_listed]. intros ->.
  split; [reflexivity|]. exists Trunc.AllTime. split; [by left|]. destruct store2_has as [v Hv].
  exists (static_bytes "ever_counts" +:+ nsid_bytes sample_nsid), v. split; [|exact Hv]. reflexivity.
Qed.

(** All the store holds is one create. *)
Lemma store2_fits L : listing store2 [Trunc.AllTime] L → wf (total_under store2 (mkNsidPrefix "a.b") [Trunc.AllTime] L).
Proof.
  intros [Hs Hin]. assert (Hall : ∀ n, n ∈ L → n = sample_nsid) by (intros n Hn; by apply store2_listed, Hin).
  destruct L as [|a [|b L]].
  - done.
  - rewrite (Hall a) by (by left). vm_compute. split_and!; reflexivity.
  - exfalso. apply StronglySorted_inv in Hs as [_ Hs]. apply Forall_cons in Hs as [Hs _].
    rewrite (Hall a), (Hall b) in Hs by (by (left || (right; left))). by apply nsid_lt_irrefl in Hs.
Qed.

Lemma collection_counts_exact_witness :
  ∃ estimate, get_collection_counts store2 sample_nsid 0 (Some (2 * HOUR)%N) 0 = Ok (mkJustCount 1 0 0 estimate).
Proof.
  apply (collection_counts_exact store2 sample_nsid 0 0 (Some (2 * HOUR)%N) store2_service);
    [reflexivity|reflexivity|reflexivity|split; reflexivity].
Defined.

Lemma weeks_hold_their_hours_witness :
  rolled_up store2 "a.b.c" (Weekly (mkTruncated 0)) = hours_sum (rolled_up store2 "a.b.c") 0 168.
Proof.
  apply (weeks_hold_their_hours store2 sample_nsid (mkTruncated 0) store2_service); [reflexivity|].
  split; [split; reflexivity|vm_compute; discriminate].
Defined.

Lemma timeseries_exact_witness :
  ∃ hours series, get_timeseries store2 [sample_nsid] 0 (Some (5 * HOUR)%N) 7200 0 = Ok (hours, series) ∧ hours = [0; 2 * HOUR; 4 * HOUR]%N.
Proof.
  destruct (timeseries_exact store2 [sample_nsid] 0 (5 * HOUR) 7200 0 store2_service) as (series & Hs & _).
  - constructor; [reflexivity|constructor].
  - apply NoDup_singleton.
  - reflexivity.
  - split; [discriminate|reflexivity].
  - reflexivity.
  - split; discriminate.
  - eexists _, series. split; [exact Hs|reflexivity].
Defined.

Lemma collections_paged_witness :
  ∃ buckets L pages, listing store2 buckets L ∧
    all_pages (S (length L)) (λ c, get_collections store2 1 (Lexi c) None None 0) None = Ok pages ∧ map nc_nsid pages = map nsid_str L.
Proof.
  destruct (collections_paged store2 store2_service 1 None None 0) as (buckets & L & pages & _ & HL & Hp & Hn & _); [lia|done|done|reflexivity|].
  exists buckets, L, pages. exact (conj HL (conj Hp Hn)).
Defined.

Lemma search_spec_witness :
  ∃ L out, listing store2 [Trunc.AllTime] L ∧ search_collections store2 ["b"] = Ok out.
Proof. destruct (search_spec store2 ["b"] store2_service) as (L & out & HL & Hs & _). exists L, out. exact (conj HL Hs). Defined.

Lemma records_newest_witness :
  ∃ out, get_records_by_collections one_record [sample_nsid] 5 true = Ok out ∧ StronglySorted newer out.
Proof.
  destruct (records_newest one_record [sample_nsid] 5) as (out & Ho & Hs & _).
  - apply NoDup_singleton.
  - constructor; [|constructor]. split; [reflexivity|]. assert (Hf : feed one_record sample_nsid = [(sample_feed_key, sample_feed_val)]) by (vm_compute; reflexivity).
    rewrite Hf. constructor; [|constructor]. exists (mkCursor 7), sample_did, (mkRecordKey "3k"), "rev". split_and!; try reflexivity. split; reflexivity.
  - intros k v Hg. unfold one_record in Hg. simpl in Hg. rewrite lookup_insert_ne in Hg by done.
    apply lookup_singleton_Some in Hg as [_ <-]. exists (mkMeta 7 false "rev"), "{}".
    split_and!; try reflexivity; [|discriminate]. split_and!; [reflexivity|reflexivity|vm_compute; discriminate].
  - exists out. exact (conj Ho Hs).
Defined.

Lemma prefix_total_exact_witness :
  ∃ total items next, get_prefix store2 (mkNsidPrefix "a.b") 5 (Lexi None) None None 0 = Ok (total, items, next).
Proof.
  destruct (prefix_total_exact store2 "a.b" (mkNsidPrefix "a.b") 5 None None 0 store2_service) as (bs & L & total & items & next & _ & _ & Hp & _).
  - reflexivity.
  - lia.
  - exact I.
  - exact I.
  - reflexivity.
  - intros buckets L Hq HL. injection Hq as <-. apply store2_fits. exact HL.
  - exists total, items, next. exact Hp.
Defined.

(** ** Requests *)

#[local] Instance plain_base64 : Server.Base64 :=
  {| Server.b64_encode s := "_" +:+ s; Server.b64_decode := strip_prefix "_" |}.
#[local] Instance plain_base64_laws : Server.Base64Laws.
Proof. split; [intros b; apply strip_prefix_app|done]. Qed.
#[local] Instance plain_chrono : Server.Chrono := λ us, Some us.

Lemma no_date dt : (None : option Z) = Some dt → (dt < 2 ^ 63)%Z.
Proof. done. Qed.

Lemma http_collections_complete_witness :
  ∃ L pages, listing store2 [Trunc.AllTime] L ∧
    all_pages (S (length L)) (Server.http_page store2 (Ok "{}") 0 1 None None) None = Ok pages ∧ map nc_nsid pages = map nsid_str L.
Proof.
  destruct (Server.http_collections_complete store2 (Ok "{}") 0 1 None None store2_service) as (bs & L & pages & HL & Hb & Hp & Hn & _).
  - reflexivity.
  - lia.
  - exists None. reflexivity.
  - exists None. reflexivity.
  - exact no_date.
  - exact no_date.
  - rewrite (Hb eq_refl eq_refl) in HL. exists L, pages. exact (conj HL (conj Hp Hn)).
Defined.

(** A client that asks twice, with a rollup step between its requests. *)
Lemma store2_idle : step_rollup store2 = Ok (store2, 0, ∅).
Proof. vm_cast_no_check (@eq_refl (StorageResult (Keyspace * nat * gset string)) (Ok (store2, 0, ∅))). Qed.

Lemma live_listing_witness :
  ∃ pages names, live_pages (Ok "{}") 1 [(store2, 0%N); (store2, 1%N)] None = Ok (pages, true) ∧
    map nc_nsid pages = map nsid_str names ∧ sample_nsid ∈ names.
Proof.
  destruct (live_listing (Ok "{}") 1 ltac:(lia) store2 [(store2, 0%N); (store2, 1%N)] [sample_nsid] [sample_nsid] store2_service)
    as (pages & names & Hp & Hn & _ & Hall & _).
  - split; [apply serves_still|]. split; [reflexivity|]. split; [|split; [reflexivity|exact I]].
    eapply serves_rollup; [apply serves_still|exact store2_idle].
  - apply store2_listing.
  - apply store2_listing.
  - simpl. lia.
  - exists pages, names. split_and!; [exact Hp|exact Hn|]. apply Hall. by left.
Defined.

(** A collection is listed from its first rollup on, not from the moment it is
    observed: after the batch that creates its first record it has live counts,
    and the list is empty. *)
Theorem observed_not_listed :
  length (fj_prefix store1 ROLLUPS (static_bytes "live_counts")) = 1 ∧
  Server.http_page store1 (Ok "{}") 0 1 None None None = Ok ([], None).
Proof. split; vm_compute; reflexivity. Qed.

Definition week_us : N := 7 * 86400 * 1000000.

Lemma http_stats_exact_witness :
  ∃ m, Server.get_collection_stats (SR := Server.fjall_reader store2 (Ok "{}") week_us) week_us ["a.b.c"] None None = Ok m ∧
    is_Some (m !! "a.b.c").
Proof.
  destruct (Server.http_stats_exact store2 (Ok "{}") week_us ["a.b.c"] None None None store2_service) as (s & m & _ & Hm & Hall).
  - reflexivity.
  - discriminate.
  - constructor; [reflexivity|constructor].
  - exists None. reflexivity.
  - reflexivity.
  - exact no_date.
  - exact no_date.
  - exists m. split; [exact Hm|]. specialize (Hall "a.b.c"). destruct (m !! "a.b.c"); [eauto|].
    exfalso. apply Hall. by left.
Defined.

(** A request of a script for the list of collections, with the given cursor. *)
Definition listing_call (cursor : option string) : UfosHttp.Call :=
  UfosHttp.CallCollections (Server.mkCollectionsQuery None cursor None None None).
Definition reply_to (c : UfosHttp.Call) : result Server.HttpError UfosHttp.Response * option UfosHttp.Labels :=
  UfosHttp.serve (SR := Server.fjall_reader store2 (Ok "{}") week_us) "<html>" "{}" (λ s, Some [s]) week_us c (UfosHttp.mkHeaders None (Some "curl")).

Lemma requests_answered_witness :
  UfosHttp.status_of (reply_to (listing_call None)).1 = Some 200 ∧
  ∃ l, (reply_to (listing_call None)).2 = Some l ∧ UfosHttp.lb_endpoint l = "get_collections" ∧ UfosHttp.lb_status_code l = 200.
Proof.
  assert (Hst : UfosHttp.status_of (reply_to (listing_call None)).1 = Some 200) by (vm_compute; reflexivity).
  split; [exact Hst|].
  destruct (UfosHttp.requests_answered "<html>" "{}" (λ s, Some [s]) store2 (Ok "{}") week_us store2_service
    ltac:(split; [discriminate|reflexivity]) (listing_call None) (UfosHttp.mkHeaders None (Some "curl"))) as (code & Hc & _ & _ & Hl).
  - split_and!; [reflexivity|exact no_date|exact no_date].
  - assert (code = 200) as -> by (pose proof (eq_trans (eq_sym Hst) Hc) as E; by injection E).
    destruct Hl as [(_ & Habs & _)|Hl]; [discriminate Habs|exact Hl].
Defined.

(** A cursor that is base64 of something else is a mistake of the client, and
    is answered as a failure of the server. *)
Theorem foreign_cursor_fails :
  UfosHttp.status_of (reply_to (listing_call (Some "_x"))).1 = Some 500 ∧ UfosHttp.status_of (reply_to (listing_call (Some "x"))).1 = Some 400.
Proof. split; vm_compute; reflexivity. Qed.

Lemma search_empty_term_witness :
  ∃ L out, listing store2 [Trunc.AllTime] L ∧
    Server.search_collections (SR := Server.fjall_reader store2 (Ok "{}") 0) "" = Ok out ∧ map nc_nsid out = map nsid_str (take SEARCH_LIMIT L).
Proof. apply (Server.search_empty_term store2 (Ok "{}") 0 "" store2_service). vm_compute. by left. Defined.

Lemma prefix_order_fails_witness :
  Server.get_prefix (SR := Server.fjall_reader store2 (Ok "{}") 0) 0
    (Server.mkPrefixQuery "a.b" (Server.mkCollectionsQuery None None None None (Some Server.ByDidsEstimate))) =
  Err (Server.InternalError (JoinError "not yet implemented")).
Proof.
  apply (Server.prefix_order_fails store2 (Ok "{}") 0 _ Server.ByDidsEstimate (mkNsidPrefix "a.b") store2_service).
  - reflexivity.
  - reflexivity.
  - split_and!; [by left|done|done|by exists None|by exists None].
  - reflexivity.
  - exact no_date.
  - exact no_date.
Defined.

(** ** Runs of the prefix query *)

(** A store that holds rollups of one create each. *)
Definition rollup_store (l : list (Rollup * string)) : Keyspace :=
  (list_to_map (map (λ e : Rollup * string,
     ((ROLLUPS, default "" (result_to_option (rollup_key e.1 (mkNsid e.2)))),
      bytes_of (T := DbConcat CommitCounts Sketch) (counts_value_new (mkCounts 1 0 0) (tt : Sketch)))) l) : gmap (string * string) string).

Definition child_names (r : StorageResult (JustCount * list PrefixChild * option string)) : option (list string * option string) :=
  match r with
  | Ok (_, items, next) => Some (map (λ c, match c with Collection n => nc_nsid n | Prefix p => pc_prefix p end) items, next)
  | Err _ => None
  end.

Definition two_children : Keyspace := rollup_store [(AllTime, "a.b.c.d"); (AllTime, "a.b.e.f")].

(** The pages of a prefix do not advance past a child that is itself a prefix:
    the cursor after such a child selects the collections below it again, so
    that with a page size of one every page is the first one. *)
Theorem prefix_pages_stuck :
  let next := Some ("a.b.c" +:+ String NUL "") in
  child_names (get_prefix two_children (mkNsidPrefix "a.b") 1 (Lexi None) None None 0) = Some (["a.b.c"], next) ∧
  child_names (get_prefix two_children (mkNsidPrefix "a.b") 1 (Lexi next) None None 0) = Some (["a.b.c"], next).
Proof. split; vm_compute; reflexivity. Qed.

(** Two hours, where a segment is the start of a longer one with a hyphen. *)
Definition hyphens : Keyspace :=
  rollup_store [(Hourly (mkTruncated 0), "a.b.c-x.y"); (Hourly (mkTruncated 0), "a.b.c.z"); (Hourly (mkTruncated HOUR), "a.b.c.z")].

(** One page can name a child twice, each time with a part of its counts: the
    children compare as strings, where a segment comes before the same segment
    with a hyphen, and the keys as bytes with their dots, where it comes after. *)
Theorem prefix_child_repeated :
  child_names (get_lexi_prefix hyphens (mkNsidPrefix "a.b") 10 None [Trunc.Hour 0; Trunc.Hour HOUR]) =
  Some (["a.b.c"; "a.b.c-x"; "a.b.c"], None).
Proof. vm_compute. reflexivity. Qed.

(** A cursor from before the prefix makes the query panic. *)
Theorem prefix_cursor_panics :
  get_prefix (rollup_store [(AllTime, "a.a.x"); (AllTime, "a.b.y")]) (mkNsidPrefix "a.b") 10 (Lexi (Some ("a.a" +:+ String NUL ""))) None None 0 =
  Err (StoragePanic "must be a prefix of other").
Proof. vm_compute. reflexivity. Qed.

End Runs.
End QueryRuns.
