(* ===== verification/UfosPipelineRuns.v ===== *)
(** * ufos: a run of the pipeline

    The theorems on the pipeline at a concrete run: a record is created and
    updated, its account goes away, and a batch is stored and rolled up in
    between. *)

From Stdlib Require Import Sorted.
From S2P Require Import Prelude RustStr Bytes UfosCursor UfosDbTypes.
From S2P Require Import UfosStoreTypes UfosBatch UfosFjallApi UfosStorage UfosRollup.
From S2P Require Import UfosBackground UfosInsert UfosInit UfosRuns UfosReader.
From S2P Require Import UfosCounts UfosQueries UfosPipeline UfosQueryRuns.
Import Db Store Batch FjallStore Background Insert Init FjallReference.
Import Runs Reader Counting Queries Pipeline QueryRuns.

Module PipelineRuns.
Section Runs.
#[local] Existing Instance plain_atrium.
#[local] Existing Instance plain_atrium_laws.
#[local] Existing Instance plain_bincode_str.
#[local] Existing Instance plain_bincode_str_laws.
#[local] Existing Instance plain_lsm.
#[local] Existing Instance plain_lsm_laws.
#[local] Existing Instance plain_sketch.
#[local] Existing Instance plain_sketch_bincode.
#[local] Existing Instance plain_sketch_laws.
#[local] Existing Instance plain_counts_bincode.
#[local] Existing Instance plain_counts_laws.
#[local] Existing Instance plain_meta_bincode.
#[local] Existing Instance plain_meta_laws.
#[local] Existing Instance plain_secret_bincode.
#[local] Existing Instance plain_secret_laws.
#[local] Existing Instance plain_authority.
#[local] Existing Instance plain_json.

Definition idle : Queue := mkQueue true true.

Definition commit_event (us : N) (op : CommitOp) : JetstreamEvent :=
  mkEvent (mkCursor us) sample_did KCommit
    (Some (mkCommitEvent sample_nsid (mkRecordKey "3k") "rev" op (match op with OpDelete => None | _ => Some "{}" end) None)) None.
Definition gone_event (us : N) : JetstreamEvent := mkEvent (mkCursor us) sample_did KAccount None (Some false).

Definition or_stay {E} (p : Pipe) (r : result E Pipe) : Pipe := match r with Ok p' => p' | Err _ => p end.

Definition pipe0 : Pipe := mkPipe (mkBatcher None batch_default (secret_bytes sample_secret) []) 0 store0.
Definition pipe1 : Pipe := or_stay pipe0 (take_event idle pipe0 (commit_event 7 OpCreate)).
Definition pipe2 : Pipe := or_stay pipe1 (pause idle pipe1).
Definition pipe3 : Pipe := or_stay pipe2 (store_next pipe2).
Definition pipe4 : Pipe := or_stay pipe3 (take_event idle pipe3 (commit_event 9 OpUpdate)).
Definition pipe5 : Pipe := or_stay pipe4 (roll pipe4).
Definition pipe6 : Pipe := or_stay pipe5 (take_event idle pipe5 (gone_event 12)).

Definition sample_events : list JetstreamEvent := [commit_event 7 OpCreate; commit_event 9 OpUpdate; gone_event 12].

Lemma commit_arrives evs us op : (us < u64_bound)%N → (last_us evs < us)%N → arrives evs (commit_event us op).
Proof.
  intros Hb Hlt. split.
  - destruct op; by eexists _, _.
  - split; [exact Hb|exact Hlt].
  - reflexivity.
  - intros ce [= <-]. split; [reflexivity|]. split; [reflexivity|]. split; [split; reflexivity|vm_compute; discriminate].
Qed.

Lemma sample_flow : flow sample_events pipe6.
Proof.
  destruct (init_first empty_store "wss.x" false sample_secret (mkCursor 1) sample_fresh eq_refl eq_refl) as (d & Hi & _).
  assert (d = store0) as -> by (unfold store0; by rewrite Hi).
  assert (F0 : flow [] pipe0) by (by apply (flow_start empty_store "wss.x" false sample_secret (mkCursor 1))).
  assert (F1 : flow [commit_event 7 OpCreate] pipe1).
  { apply (flow_event idle [] (commit_event 7 OpCreate) pipe0 pipe1 F0); [reflexivity|by apply commit_arrives|].
    vm_cast_no_check (@eq_refl (result BatcherError Pipe) (Ok pipe1)). }
  assert (F2 : flow [commit_event 7 OpCreate] pipe2).
  { apply (flow_pause idle _ pipe1 pipe2 F1); [reflexivity|]. vm_cast_no_check (@eq_refl (result BatcherError Pipe) (Ok pipe2)). }
  assert (F3 : flow [commit_event 7 OpCreate] pipe3).
  { apply (flow_store _ pipe2 pipe3 F2). vm_cast_no_check (@eq_refl (StorageResult Pipe) (Ok pipe3)). }
  assert (F4 : flow [commit_event 7 OpCreate; commit_event 9 OpUpdate] pipe4).
  { apply (flow_event idle [commit_event 7 OpCreate] (commit_event 9 OpUpdate) pipe3 pipe4 F3); [reflexivity|by apply commit_arrives|].
    vm_cast_no_check (@eq_refl (result BatcherError Pipe) (Ok pipe4)). }
  assert (F5 : flow [commit_event 7 OpCreate; commit_event 9 OpUpdate] pipe5).
  { apply (flow_roll _ pipe4 pipe5 F4). vm_cast_no_check (@eq_refl (StorageResult Pipe) (Ok pipe5)). }
  apply (flow_event idle [commit_event 7 OpCreate; commit_event 9 OpUpdate] (gone_event 12) pipe5 pipe6 F5); [reflexivity| |].
  - split; [by eexists _, _|by split|reflexivity|done].
  - vm_cast_no_check (@eq_refl (result BatcherError Pipe) (Ok pipe6)).
Qed.

Lemma pipeline_counts_witness :
  (∃ p', roll pipe6 = Ok p') ∧ rolled_up (pi_store pipe6) "a.b.c" AllTime = mkCounts 1 0 0 ∧ seen_in (waiting pipe6) "a.b.c" = mkCounts 0 1 0 ∧
  add_counts (add_counts (rolled_up (pi_store pipe6) "a.b.c" AllTime) (live_total (pi_store pipe6) "a.b.c" AllTime)) (seen_in (waiting pipe6) "a.b.c") =
    mkCounts 1 1 0.
Proof.
  destruct (pipeline_counts sample_events pipe6 idle sample_flow eq_refl eq_refl) as (_ & _ & _ & Hr & Hc).
  split; [exact Hr|]. split; [vm_compute; reflexivity|]. split; [vm_compute; reflexivity|]. exact (Hc sample_nsid eq_refl).
Defined.

Lemma stream_reaches_clients_witness :
  ∃ p1 p2 d' dirty' L pages,
    pause idle pipe6 = Ok p1 ∧ store_all (length (sent (pi_batcher p1)) - pi_stored p1) p1 = Ok p2 ∧
    rollup_ticks (pending (pi_store p2)) (pi_store p2, ∅) = Ok (d', dirty') ∧
    all_pages (S (length L)) (λ c, get_collections d' 1 (Lexi c) None None 0) None = Ok pages ∧ sample_nsid ∈ L ∧
    Forall (λ nc, answers nc (events_tally sample_events (nc_nsid nc))) pages.
Proof.
  destruct (stream_reaches_clients sample_events pipe6 idle 1 0 sample_flow eq_refl eq_refl (Nat.lt_0_succ 0) eq_refl)
    as (p1 & p2 & d' & dirty' & L & pages & E1 & E2 & E3 & E4 & _ & _ & Hin & Ha).
  exists p1, p2, d', dirty', L, pages. split; [exact E1|]. split; [exact E2|]. split; [exact E3|]. split; [exact E4|]. split; [|exact Ha].
  apply (Hin sample_nsid); [reflexivity|discriminate].
Defined.
End Runs.
End PipelineRuns.
