(* ===== verification/UfosRankRuns.v ===== *)
(** * ufos: concrete runs of the rank index

    The theorems on the index by records created, at a store that remembers its
    history. *)

From S2P Require Import Prelude RustStr Bytes UfosCursor UfosDbTypes.
From S2P Require Import UfosStoreTypes UfosBatch UfosFjallApi UfosStorage UfosRollup.
From S2P Require Import UfosBackground UfosInsert UfosInit UfosTrim UfosRuns.
From S2P Require Import UfosReader UfosCounts UfosRanks UfosQueries UfosTop.
Import Db Store Batch FjallStore Background Insert Init FjallHistory.
Import Runs Reader Counting Ranks Queries Top.

Module RankRuns.
Section Runs.
#[local] Existing Instance plain_atrium.
#[local] Existing Instance plain_atrium_laws.
#[local] Existing Instance plain_bincode_str.
#[local] Existing Instance plain_bincode_str_laws.
#[local] Existing Instance plain_lsm.
#[local] Existing Instance plain_lsm_laws.
#[local] Existing Instance plain_sketch.
#[local] Existing Instance plain_sketch_bincode.
#[local] Existing Instance plain_sketch_laws.
#[local] Existing Instance plain_counts_bincode.
#[local] Existing Instance plain_counts_laws.
#[local] Existing Instance plain_meta_bincode.
#[local] Existing Instance plain_meta_laws.
#[local] Existing Instance plain_secret_bincode.
#[local] Existing Instance plain_secret_laws.
#[local] Instance no_authority : AtriumNsid := λ s, s.
#[local] Instance any_json : RawValueJson := λ s, Some s.

(** Started, a batch with one create, rolled up. *)
Definition unused_store : Keyspace := ((∅, []) : History).
Definition store0 : Keyspace :=
  match init unused_store "wss.x" false (Some sample_secret) (mkCursor 1) with Ok (d, _, _) => d | Err _ => unused_store end.
Definition store1 : Keyspace := match insert_batch store0 sample_batch with Ok d => d | Err _ => store0 end.
Definition store2 : Keyspace := match step_rollup store1 with Ok (d, _, _) => d | Err _ => store1 end.

Lemma ranked_store1_inserted : insert_batch store0 sample_batch = Ok store1.
Proof. vm_cast_no_check (@eq_refl (StorageResult Keyspace) (Ok store1)). Qed.
Lemma ranked_store2_rolled_up : step_rollup store1 = Ok (store2, 1, {["a.b.c"]}).
Proof. vm_cast_no_check (@eq_refl (StorageResult (Keyspace * nat * gset string)) (Ok (store2, 1, {["a.b.c"]}))). Qed.

Lemma ranked_store2_service : service_from unused store2.
Proof.
  assert (Hf : fresh unused_store) by (by intros p k).
  destruct (init_first unused_store "wss.x" false sample_secret (mkCursor 1) Hf eq_refl eq_refl) as (d & Hi & Hst).
  assert (d = store0) as -> by (unfold store0; by rewrite Hi).
  apply (service_rollup _ store1 store2 1 {["a.b.c"]}); [|exact ranked_store2_rolled_up].
  apply (service_insert _ store0 sample_batch (mkCursor 7)).
  - by eapply (service_start _ unused_store "wss.x" false sample_secret (mkCursor 1)).
  - apply sample_batch_wf.
  - reflexivity.
  - intros. by apply (st_other _ _ _ Hst).
  - intros n r _ _. rewrite (started_total _ _ _ _ _ Hst), add_counts_0_r. apply inserted_wf.
  - exact ranked_store1_inserted.
Qed.

Definition one_key : string := default "" (result_to_option (records_rank_key AllTime 1 (mkNsid "a.b.c"))).

Lemma rank_index_exact_witness : fj_inserts store2 ROLLUPS one_key ≤ 1 ∧ is_Some (fj_get store2 ROLLUPS one_key).
Proof.
  destruct (rank_index_exact store2 ranked_store2_service) as [Hk _].
  destruct (Hk AllTime 1%N (mkNsid "a.b.c") one_key I) as [Honce Hget]; [reflexivity|reflexivity|reflexivity|].
  split; [exact Honce|]. apply Hget. split; [reflexivity|]. vm_compute. reflexivity.
Defined.

Lemma top_collections_witness :
  ∃ out, get_collections store2 10 RecordsCreated None None 0 = Ok (out, None) ∧ top_of store2 10 out.
Proof. apply (top_collections store2 10 0 ranked_store2_service). lia. Defined.
End Runs.
End RankRuns.
