(* ===== verification/UfosTests.v ===== *)
(** * ufos: the repository's tests of the storage
      (the tests module of ufos/src/storage_fjall.rs)

    Every test of the storage as a run of the model, over the reference
    instances of the libraries and a sketch that counts exactly.  An assertion
    that fails is a panic, as in the source. *)

From S2P Require Import Prelude RustStr Bytes UfosCursor UfosDbTypes.
From S2P Require Import UfosStoreTypes UfosBatch UfosFjallApi UfosStorage UfosReader.
From S2P Require Import UfosRuns UfosQueryRuns.
Import Db Store Batch FjallStore FjallReference Reader Runs QueryRuns.

#[global] Instance NsidCount_eq_dec : EqDecision NsidCount.
Proof. solve_decision. Defined.
#[global] Instance PrefixCount_eq_dec : EqDecision PrefixCount.
Proof. solve_decision. Defined.
#[global] Instance PrefixChild_eq_dec : EqDecision PrefixChild.
Proof. solve_decision. Defined.

Module FjallTests.
Section Tests.

(** ** A sketch that counts exactly *)

#[local] Instance exact_sketch : SketchOps := {|
  Sketch := gmap string (); sketch_default := ∅; Element := string; from_digest_with_prefix prefix bytes := prefix +:+ bytes;
  sketch_insert s x := <[x := ()]> s; sketch_merge s t := s ∪ t; sketch_estimate s := N.of_nat (size s) |}.

Fixpoint take_strings (n : nat) (bytes : string) : option (list string * nat) :=
  match n with
  | O => Some ([], 0)
  | S n =>
      '(len, r) ← take_u64 bytes; '(s, r) ← str_split_at (N.to_nat len) r;
      '(l, used) ← take_strings n r; Some (s :: l, 8 + N.to_nat len + used)
  end.
#[local] Instance exact_sketch_bincode : Bincode2 Sketch := {
  encode_to_vec (s : gmap string ()) :=
    Some (u64_to_be_bytes (N.of_nat (size s)) +:+
      foldr (λ x b, u64_to_be_bytes (N.of_nat (String.length x)) +:+ x +:+ b) "" (map fst (map_to_list s)));
  decode_from_slice bytes :=
    '(n, r) ← take_u64 bytes; '(l, used) ← take_strings (N.to_nat n) r; Some ((list_to_map (map (λ x, (x, ())) l) : gmap string ()), 8 + used) }.

#[local] Existing Instance plain_atrium.
#[local] Existing Instance plain_bincode_str.
#[local] Existing Instance plain_lsm.
#[local] Existing Instance plain_counts_bincode.
#[local] Existing Instance plain_meta_bincode.
#[local] Existing Instance plain_secret_bincode.
#[local] Existing Instance plain_authority.
#[local] Existing Instance plain_json.

(** ** The harness *)

Definition assert (b : bool) : StorageResult () := if b then Ok () else Err (StoragePanic "assertion failed").
Definition unwrap {E A} (r : result E A) : StorageResult A :=
  match r with Ok a => Ok a | Err _ => Err (StoragePanic "called `Result::unwrap()` on an `Err` value") end.
Definition new_id {A} (valid : bool) (a : A) : StorageResult A := if valid then Ok a else Err (StoragePanic "invalid identifier").

(** The time of the tests: any time after the first hour would do. *)
Definition now : N := 15 * 86400 * 1000000 + 5.
Definition fjall_db : StorageResult Keyspace :=
  '(d, _, _) ←? init empty_store "offline test (no real jetstream endpoint)" false (Some sample_secret) (mkCursor now); Ok d.

Definition TEST_BATCH_LIMIT : nat := 16.
Definition beginning : N := Trunc.truncate_cursor Trunc.HOUR_IN_MICROS 0.
Definition zeros : string := foldr String "" (replicate 16 NUL).

Definition tb_commit (op : CommitOp) (did collection rkey : string) (record rev : option string) (cursor : N) (batch : EventBatch) : StorageResult EventBatch :=
  did ←? new_id (did_valid did) (mkDid did);
  collection ←? new_id (nsid_valid collection) (mkNsid collection);
  rkey ←? new_id (rkey_valid rkey) (mkRecordKey rkey);
  '(commit, collection) ←? unwrap (from_commit_info (mkCommitEvent collection rkey (default "asdf" rev) op record (Some "cid")) did (mkCursor cursor));
  let '(cc, r) := truncating_insert TEST_BATCH_LIMIT (default cc_default (commits_by_nsid batch !! nsid_str collection)) commit zeros in
  _ ←? unwrap r;
  Ok (mkBatch (<[nsid_str collection := cc]> (commits_by_nsid batch)) (account_removes batch)).
Definition tb_create (did collection rkey record : string) (rev : option string) (cursor : N) : EventBatch → StorageResult EventBatch :=
  tb_commit OpCreate did collection rkey (Some record) rev cursor.
Definition tb_update (did collection rkey record : string) (rev : option string) (cursor : N) : EventBatch → StorageResult EventBatch :=
  tb_commit OpUpdate did collection rkey (Some record) rev cursor.
Definition tb_delete (did collection rkey : string) (rev : option string) (cursor : N) : EventBatch → StorageResult EventBatch :=
  tb_commit OpDelete did collection rkey None rev cursor.
Definition tb_delete_account (did : string) (cursor : N) (batch : EventBatch) : StorageResult EventBatch :=
  did ←? new_id (did_valid did) (mkDid did);
  Ok (mkBatch (commits_by_nsid batch) (account_removes batch ++ [mkDelete did (mkCursor cursor)])).

(** A batch filled by a test, then [write.insert_batch]. *)
Definition filled (fill : list (EventBatch → StorageResult EventBatch)) : StorageResult EventBatch :=
  foldl_res (λ b f, f b) batch_default fill.
Definition insert_filled (d : Keyspace) (fill : list (EventBatch → StorageResult EventBatch)) : StorageResult Keyspace :=
  b ←? filled fill; insert_batch d b.

(** [write.step_rollup]: the store and how much was rolled up. *)
Definition rollup (d : Keyspace) : StorageResult (Keyspace * nat) := '(d, n, _) ←? step_rollup d; Ok (d, n).

Definition counts_are (d : Keyspace) (collection : string) (creates dids_estimate : N) : StorageResult () :=
  c ←? get_collection_counts d (mkNsid collection) beginning None now;
  assert (bool_decide (jc_creates c = creates ∧ jc_dids_estimate c = dids_estimate)).
Definition records_of (d : Keyspace) (collections : list string) (limit : nat) (expand : bool) : StorageResult (list (string * string * bool)) :=
  rs ←? get_records_by_collections d (map mkNsid collections) limit expand;
  Ok (map (λ r, (nsid_str (r_collection r), r_record r, r_is_update r)) rs).
Definition record_count (d : Keyspace) (collection : string) (limit n : nat) : StorageResult () :=
  rs ←? records_of d [collection] limit false; assert (bool_decide (length rs = n)).

Definition quoted (s : string) : string := let q := ascii_of_nat 34 in String q (s +:+ String q "").
Definition digit (i : nat) : string := String (ascii_of_nat (48 + i)) "".
Definition numbered (s : string) (i : nat) : string := s +:+ (if decide (i < 10) then digit i else digit (i / 10) +:+ digit (i mod 10)).
(** The record {"n": i}. *)
Definition json_n (i : nat) : string := "{" +:+ quoted "n" +:+ numbered ": " i +:+ "}".
Definition inze : string := "did:plc:inze6wrmsm7pjl7yta3oig77".
(** ** The tests *)

Definition test_hello : StorageResult () :=
  d ←? fjall_db;
  d ←? insert_batch d batch_default;
  counts_are d "a.b.c" 0 0.

Definition test_insert_one : StorageResult () :=
  d ←? fjall_db;
  d ←? insert_filled d [tb_create inze "a.b.c" "asdf" "{}" (Some "rev-z") 100];
  '(d, _) ←? rollup d;
  _ ←? counts_are d "a.b.c" 1 1;
  _ ←? counts_are d "d.e.f" 0 0;
  records ←? records_of d ["a.b.c"] 2 false;
  _ ←? assert (bool_decide (records = [("a.b.c", "{}", false)]));
  record_count d "d.e.f" 2 0.

Definition test_get_multi_collection : StorageResult () :=
  d ←? fjall_db;
  d ←? insert_filled d
    [tb_create inze "a.a.a" "aaa" (quoted "earliest") (Some "rev-a") 100;
     tb_create inze "a.a.b" "aab" (quoted "in between") (Some "rev-ab") 101;
     tb_create inze "a.a.a" "aaa-2" (quoted "last") (Some "rev-a-2") 102];
  records ←? records_of d ["a.a.a"; "a.a.b"; "a.a.c"] 100 false;
  assert (bool_decide (map fst records = [("a.a.a", quoted "last"); ("a.a.b", quoted "in between"); ("a.a.a", quoted "earliest")])).

Definition test_get_multi_collection_expanded : StorageResult () :=
  d ←? fjall_db;
  d ←? insert_filled d
    (map (λ i, tb_create inze "a.a.b" (numbered "aab-" i) (quoted (numbered "b " i)) (Some (numbered "rev-b-" i)) (100 + N.of_nat i)) [1; 2; 3] ++
     map (λ i, tb_create inze "a.a.a" (numbered "aaa-" i) (quoted (numbered "a " i)) (Some (numbered "rev-a-" i)) (200 + N.of_nat i)) [1; 2; 3]);
  records ←? records_of d ["a.a.a"; "a.a.b"; "a.a.c"] 2 true;
  assert (bool_decide (length records = 4 ∧ map fst records !! 0 = Some ("a.a.a", quoted "a 3") ∧ map fst records !! 3 = Some ("a.a.b", quoted "b 2"))).

Definition changes : string := "{" +:+ quoted "ch" +:+ ":  " +:+ quoted "ch-ch-ch-changes" +:+ "}".

Definition test_update_one : StorageResult () :=
  d ←? fjall_db;
  d ←? insert_filled d [tb_create inze "a.b.c" "rkey-asdf" "{}" (Some "rev-a") 100];
  d ←? insert_filled d [tb_update inze "a.b.c" "rkey-asdf" changes (Some "rev-z") 101];
  '(d, _) ←? rollup d;
  _ ←? counts_are d "a.b.c" 1 1;
  records ←? records_of d ["a.b.c"] 2 false;
  assert (bool_decide (records = [("a.b.c", changes, true)])).

Definition test_delete_one : StorageResult () :=
  d ←? fjall_db;
  d ←? insert_filled d [tb_create inze "a.b.c" "rkey-asdf" "{}" (Some "rev-a") 100];
  d ←? insert_filled d [tb_delete inze "a.b.c" "rkey-asdf" (Some "rev-z") 101];
  '(d, _) ←? rollup d;
  _ ←? counts_are d "a.b.c" 1 1;
  record_count d "a.b.c" 2 0.

Definition test_collection_trim : StorageResult () :=
  d ←? fjall_db;
  d ←? insert_filled d
    ([tb_create inze "a.a.a" "rkey-aaa" "{}" (Some "rev-aaa") 10000] ++
     map (λ i, tb_create ("did:plc:inze6wrmsm7pjl7yta3oig7" +:+ digit (i mod 3)) "a.a.b" (numbered "rkey-bbb-" i) (json_n i)
       (Some (numbered "rev-bbb-" i)) (11000 + N.of_nat i)) (seq 1 10) ++
     [tb_create inze "a.a.c" "rkey-ccc" "{}" (Some "rev-ccc") 12000]);
  _ ←? record_count d "a.a.a" 100 1;
  _ ←? record_count d "a.a.b" 100 10;
  _ ←? record_count d "a.a.c" 100 1;
  _ ←? record_count d "a.a.d" 100 0;
  '(d, _) ←? trim_collection d (mkNsid "a.a.a") 6 false;
  '(d, _) ←? trim_collection d (mkNsid "a.a.b") 6 false;
  '(d, _) ←? trim_collection d (mkNsid "a.a.c") 6 false;
  '(d, _) ←? trim_collection d (mkNsid "a.a.d") 6 false;
  _ ←? record_count d "a.a.a" 100 1;
  _ ←? record_count d "a.a.b" 100 6;
  _ ←? record_count d "a.a.c" 100 1;
  record_count d "a.a.d" 100 0.

Definition test_delete_account : StorageResult () :=
  d ←? fjall_db;
  d ←? insert_filled d
    ([tb_create "did:plc:person-a" "a.a.a" "rkey-aaa" "{}" (Some "rev-aaa") 10000] ++
     map (λ i, tb_create "did:plc:person-b" "a.a.a" (numbered "rkey-bbb-" i) (json_n i) (Some (numbered "rev-bbb-" i)) (11000 + N.of_nat i)) [1; 2]);
  _ ←? record_count d "a.a.a" 100 3;
  '(d, records_deleted) ←? delete_account d (mkDid "did:plc:person-b");
  _ ←? assert (bool_decide (records_deleted = 2));
  record_count d "a.a.a" 100 1.

Definition rollup_delete_account_removes_record : StorageResult () :=
  d ←? fjall_db;
  d ←? insert_filled d [tb_create "did:plc:person-a" "a.a.a" "rkey-aaa" "{}" (Some "rev-aaa") 10000];
  d ←? insert_filled d [tb_delete_account "did:plc:person-a" 9999];
  '(d, _) ←? rollup d;
  record_count d "a.a.a" 1 0.

Definition rollup_delete_live_count_step : StorageResult () :=
  d ←? fjall_db;
  d ←? insert_filled d [tb_create "did:plc:person-a" "a.a.a" "rkey-aaa" "{}" (Some "rev-aaa") 10000];
  '(d, n) ←? rollup d;
  _ ←? assert (bool_decide (n = 1));
  d ←? insert_filled d [tb_delete_account "did:plc:person-a" 10001];
  _ ←? record_count d "a.a.a" 1 1;
  '(d, n) ←? rollup d;
  _ ←? assert (bool_decide (n = 1));
  _ ←? record_count d "a.a.a" 1 0;
  d ←? insert_filled d [tb_delete_account "did:plc:person-a" 9999];
  '(d, n) ←? rollup d;
  assert (bool_decide (n = 0)).

Definition rollup_multiple_count_batches : StorageResult () :=
  d ←? fjall_db;
  d ←? insert_filled d [tb_create "did:plc:person-a" "a.a.a" "rkey-aaa" "{}" (Some "rev-aaa") 10000];
  d ←? insert_filled d [tb_create "did:plc:person-a" "a.a.a" "rkey-aab" "{}" (Some "rev-aab") 10001];
  '(d, n) ←? rollup d;
  _ ←? assert (bool_decide (n = 2));
  '(d, n) ←? rollup d;
  assert (bool_decide (n = 0)).

Definition counts_before_and_after_rollup : StorageResult () :=
  d ←? fjall_db;
  d ←? insert_filled d
    [tb_create "did:plc:person-a" "a.a.a" "rkey-aaa" "{}" (Some "rev-aaa") 10000;
     tb_create "did:plc:person-b" "a.a.a" "rkey-bbb" "{}" (Some "rev-bbb") 10001];
  d ←? insert_filled d [tb_delete_account "did:plc:person-a" 11000];
  d ←? insert_filled d [tb_create "did:plc:person-a" "a.a.a" "rkey-aac" "{}" (Some "rev-aac") 12000];
  _ ←? counts_are d "a.a.a" 0 0;
  '(d, n) ←? rollup d;
  _ ←? assert (bool_decide (n = 1));
  _ ←? counts_are d "a.a.a" 2 2;
  '(d, n) ←? rollup d;
  _ ←? assert (bool_decide (n = 1));
  _ ←? counts_are d "a.a.a" 2 2;
  '(d, n) ←? rollup d;
  _ ←? assert (bool_decide (n = 1));
  _ ←? counts_are d "a.a.a" 3 2;
  '(d, n) ←? rollup d;
  assert (bool_decide (n = 0)).

(** A page of ten of a prefix: its total and its children. *)
Definition prefix_is (d : Keyspace) (pre : string) (creates dids_estimate : N) (children : list PrefixChild) : StorageResult () :=
  pre ←? unwrap (nsid_prefix_new pre);
  '(total, found, cursor) ←? get_prefix d pre 10 (Lexi None) None None now;
  assert (bool_decide (jc_creates total = creates ∧ jc_dids_estimate total = dids_estimate ∧ found = children ∧ cursor = None)).

(** The collections created by one person, rolled up. *)
Definition with_collections (collections : list (string * string)) : StorageResult Keyspace :=
  d ←? fjall_db;
  d ←? insert_filled d (imap (λ i '(c, rkey), tb_create "did:plc:person-a" c ("rkey-" +:+ rkey) "{}" (Some ("rev-" +:+ rkey)) (10000 + N.of_nat i)) collections);
  '(d, _) ←? rollup d; Ok d.

Definition get_prefix_children_lexi_empty : StorageResult () := d ←? fjall_db; prefix_is d "aaa.aaa" 0 0 [].
Definition get_prefix_excludes_exact_collection : StorageResult () :=
  d ←? with_collections [("a.a.a", "aaa")]; prefix_is d "a.a.a" 0 0 [].
Definition get_prefix_excludes_neighbour_collection : StorageResult () :=
  d ←? with_collections [("a.a.aa", "aaa")]; prefix_is d "a.a.a" 0 0 [].
Definition get_prefix_includes_child_collection : StorageResult () :=
  d ←? with_collections [("a.a.a", "aaa")]; prefix_is d "a.a" 1 1 [Collection (mkNsidCount "a.a.a" 1 0 0 1)].
Definition get_prefix_includes_child_prefix : StorageResult () :=
  d ←? with_collections [("a.a.a.a", "aaaa")]; prefix_is d "a.a" 1 1 [Prefix (mkPrefixCount "a.a.a" 1 0 0 1)].
Definition get_prefix_merges_child_prefixes : StorageResult () :=
  d ←? with_collections [("a.a.a.a", "aaaa"); ("a.a.a.b", "aaab")]; prefix_is d "a.a" 2 1 [Prefix (mkPrefixCount "a.a.a" 2 0 0 1)].
Definition get_prefix_exact_and_child_and_prefix : StorageResult () :=
  d ←? with_collections [("a.a.a", "aaa"); ("a.a.a.a", "aaaa"); ("a.a.a.a.a", "aaaaa")];
  prefix_is d "a.a.a" 2 1 [Collection (mkNsidCount "a.a.a.a" 1 0 0 1); Prefix (mkPrefixCount "a.a.a.a" 1 0 0 1)].

Definition fjall_suite : list (StorageResult ()) :=
  [test_hello; test_insert_one; test_get_multi_collection; test_get_multi_collection_expanded; test_update_one; test_delete_one;
   test_collection_trim; test_delete_account; rollup_delete_account_removes_record; rollup_delete_live_count_step;
   rollup_multiple_count_batches; counts_before_and_after_rollup; get_prefix_children_lexi_empty;
   get_prefix_excludes_exact_collection; get_prefix_excludes_neighbour_collection; get_prefix_includes_child_collection;
   get_prefix_includes_child_prefix; get_prefix_merges_child_prefixes; get_prefix_exact_and_child_and_prefix].

(** The nineteen tests of the storage pass. *)
Theorem fjall_tests_pass : fjall_suite = replicate 19 (Ok ()).
Proof. vm_compute. reflexivity. Qed.
End Tests.
End FjallTests.
