(* ===== verification/UfosTypeTests.v ===== *)
(** * ufos: the repository's tests of keys, values, cursors and batches
      (the tests modules of ufos/src/db_types.rs, store_types.rs and lib.rs)

    Every test as a run of the model, over the reference instances of the
    libraries and the exact sketch of [UfosTests]. *)

From stdpp Require Import pretty.
From S2P Require Import Prelude RustStr Bytes UfosCursor UfosDbTypes.
From S2P Require Import UfosStoreTypes UfosBatch UfosStorage UfosTests.
Import Db Store Batch FjallTests.

#[global] Instance DbConcat_eq_dec {P S} `{EqDecision P, EqDecision S} : EqDecision (DbConcat P S).
Proof. solve_decision. Defined.
#[global] Instance DbStaticStr_eq_dec lit : EqDecision (DbStaticStr lit).
Proof. solve_decision. Defined.
#[global] Instance DbEmpty_eq_dec : EqDecision DbEmpty.
Proof. solve_decision. Defined.
#[global] Instance TruncatedCursor_eq_dec MOD : EqDecision (TruncatedCursor MOD).
Proof. solve_decision. Defined.
#[global] Instance CursorBucket_eq_dec : EqDecision Trunc.CursorBucket.
Proof. solve_decision. Defined.

Module TypeTests.
Section Tests.
#[local] Existing Instance exact_sketch.
#[local] Existing Instance exact_sketch_bincode.
#[local] Existing Instance plain_atrium.
#[local] Existing Instance plain_bincode_str.
#[local] Existing Instance plain_counts_bincode.

(** ** ufos/src/db_types.rs *)

(** What [to_db_bytes] gives, [from_db_bytes] restores, using all of it. *)
Definition restores {T} `{DbBytes T, EqDecision T} (x : T) : bool :=
  match to_db_bytes x with
  | Ok b => match from_db_bytes b with Ok (y, n) => bool_decide (y = x ∧ n = String.length b) | Err _ => false end
  | Err _ => false
  end.
Definition serialized {T} `{DbBytes T} (x : T) : string := match to_db_bytes x with Ok b => b | Err _ => "" end.

Definition test_db_empty : bool := restores mkDbEmpty && bool_decide (serialized mkDbEmpty = "").
Definition test_string_roundtrip : bool := forallb restores [""; "a"; "asdf asdf asdf even µnicode"].
Definition test_string_serialized_lexicographic_sort : bool := bool_decide (bytes_compare (serialized "b") (serialized "aa") = Gt).

Definition prefix_case (bytes pre : string) (is_pre : bool) : bool :=
  match sub_prefix pre with Ok p => bool_decide (starts_with p bytes = is_pre) | Err _ => false end.
Definition test_nullstring_can_prefix : bool :=
  forallb (λ '(s, pre, is_pre), prefix_case (serialized (s : string)) pre is_pre)
    [("", "", true); ("", "a", false); ("a", "", true); ("a", "a", true); ("a", "b", false); ("ab", "a", true); ("ab", "b", false)].
Definition test_nsid_can_prefix : bool :=
  forallb (λ '(pre, is_pre), prefix_case (serialized (mkNsid "ab.cd.ef")) pre is_pre)
    [("", true); ("a", true); ("abc", false); ("ab", true); ("ab.cd", true); ("ab.cd.ef", true); ("ab.cd.ef.g", false)].

Definition test_string_cursor_prefix_roundtrip : bool :=
  forallb (λ '(s, c), restores (from_pair s (mkCursor c) : DbConcat string Cursor)) [("", 0%N); ("aaa", 0%N); ("", 1234%N); ("aaaaa", 789%N)].
Definition test_cursor_string_prefix_roundtrip : bool :=
  forallb (λ '(c, s), restores (from_pair (mkCursor c) s : DbConcat Cursor string)) [(0%N, ""); (0%N, "aaa"); (1234%N, ""); (789%N, "aaaaa")].

Definition test_static_str : bool :=
  let original := the_static_str : DbStaticStr "a static str" in restores original && starts_with "a static str" (serialized original).
Definition test_static_str_empty : bool :=
  let original := the_static_str : DbStaticStr "" in restores original && bool_decide (serialized original = String NUL "").
Definition test_static_prefix : bool :=
  let original := from_pair the_static_str (mkCursor 123) : DbConcat (DbStaticStr "a static prefix") Cursor in
  restores original && bool_decide (cursor_us (suffix original) = 123%N) && starts_with "a static prefix" (serialized original).

(** ** ufos/src/store_types.rs *)

Definition test_by_hourly_rollup_key : bool :=
  let hour := mkTruncated (Trunc.truncate_cursor Trunc.HOUR_IN_MICROS 4567890) : HourTruncatedCursor in
  let original := rollup_new (hourly_prefix hour) (mkNsid "ab.cd.efg") in
  restores original && match to_prefix_db_bytes original with Ok p => starts_with "hourly_counts" p | Err _ => false end.

Definition inserts_dids (name : string) (from n : nat) (s : Sketch) : Sketch :=
  foldl (λ s i, sketch_insert s (from_digest_with_prefix "" (name +:+ pretty (N.of_nat i)))) s (seq from n).
Definition value_restores (s : Sketch) : bool := restores (counts_value_new (mkCounts 123 0 0) s : DbConcat CommitCounts Sketch).
Definition test_by_hourly_rollup_value : bool :=
  let estimator := inserts_dids "did:plc:inze6wrmsm7pjl7yta3oig7" 0 10 sketch_default in
  value_restores estimator && value_restores (inserts_dids "did:plc:inze6wrmsm7pjl7yta3oig" 10 990 estimator).

Definition test_hour_truncated_cursor : bool :=
  let us := 1743778483483895%N in let back := Trunc.truncate_cursor Trunc.HOUR_IN_MICROS us in
  (back <? us)%N && (us - back <? Trunc.HOUR_IN_MICROS)%N.
Definition test_hour_truncated_cursor_already_truncated : bool :=
  let us := 1743775200000000%N in bool_decide (Trunc.truncate_cursor Trunc.HOUR_IN_MICROS us = us).

Definition spans (from stop : N) (bs : list Trunc.CursorBucket) : bool :=
  match Trunc.buckets_spanning from stop with Ok found => bool_decide (found = bs) | Err _ => false end.
Definition test_spanning_nothing : bool :=
  spans 1743775200000000 1743775200000000 [] && spans 1743775200000000 0 [].
Definition or_zero (r : EncodingResult N) : N := match r with Ok n => n | Err _ => 0%N end.
Definition next_hour (h : N) : N := or_zero (Trunc.next Trunc.HOUR_IN_MICROS h).
Definition as_week (h : N) : N := or_zero (Trunc.try_as Trunc.WEEK_IN_MICROS h).
Definition test_spanning_low_hours : bool :=
  let from := Trunc.truncate_cursor Trunc.HOUR_IN_MICROS 0 in let stop := next_hour from in let stop2 := next_hour stop in
  spans from stop [Trunc.Hour from] && spans from (next_hour stop2) [Trunc.Hour from; Trunc.Hour stop; Trunc.Hour stop2].
Definition test_spanning_week_aligned : bool :=
  let from := Trunc.truncate_cursor Trunc.HOUR_IN_MICROS 0 in let stop := Trunc.truncate_cursor Trunc.HOUR_IN_MICROS Trunc.WEEK_IN_MICROS in
  spans from stop [Trunc.Week (as_week from)] && spans from (next_hour stop) [Trunc.Week (as_week from); Trunc.Hour stop].
Definition is_hour (b : Trunc.CursorBucket) : bool := match b with Trunc.Hour _ => true | _ => false end.
Definition test_spanning_week_unaligned : bool :=
  let from := Trunc.truncate_cursor Trunc.HOUR_IN_MICROS (Trunc.WEEK_IN_MICROS - Trunc.HOUR_IN_MICROS) in
  let stop := Trunc.truncate_cursor Trunc.HOUR_IN_MICROS (from + Trunc.WEEK_IN_MICROS) in
  match Trunc.buckets_spanning from stop with Ok span => bool_decide (length span = 168) && forallb is_hour span | Err _ => false end &&
  spans from (next_hour stop) [Trunc.Hour from; Trunc.Week (as_week (next_hour from))].

(** ** ufos/src/lib.rs *)

Definition a_commit (cursor : N) (rkey rev : string) (action : CommitAction) : UFOsCommit :=
  mkCommit (mkCursor cursor) (mkDid "did:plc:whatever") (mkRecordKey rkey) rev action.
Definition a_create : CommitAction := Put "{}" false.
(** Insert into a collection of at most two commits; the last result. *)
Definition inserts (cs : list UFOsCommit) : CollectionCommits * result BatchInsertError () :=
  fold_left (λ st c, truncating_insert 2 st.1 c zeros) cs (cc_default, Ok ()).
Definition has_rev (rev : string) (cc : CollectionCommits) : bool := existsb (λ c, bool_decide (c_rev c = rev)) (cc_commits cc).
Definition cc_counts_are (cc : CollectionCommits) (creates updates deletes : nat) (dids : N) (len : nat) : bool :=
  bool_decide (cc_creates cc = creates ∧ cc_updates cc = updates ∧ cc_deletes cc = deletes ∧
    sketch_estimate (cc_dids_estimate cc) = dids ∧ length (cc_commits cc) = len).

Definition test_truncating_insert_truncates : bool :=
  let cc := (inserts [a_commit 100 "rkey-asdf-a" "rev-asdf" a_create; a_commit 101 "rkey-asdf-b" "rev-asdg" a_create;
                      a_commit 102 "rkey-asdf-c" "rev-asdh" a_create]).1 in
  cc_counts_are cc 3 0 0 1 2 && negb (has_rev "rev-asdf" cc) && has_rev "rev-asdh" cc.
Definition test_truncating_insert_counts_updates : bool :=
  cc_counts_are (inserts [a_commit 100 "rkey-asdf-a" "rev-asdf" (Put "{}" true)]).1 0 1 0 1 1.
Definition test_truncating_insert_does_not_truncate_deletes : bool :=
  let cc := (inserts [a_commit 100 "rkey-asdf-a" "rev-asdf" Cut; a_commit 101 "rkey-asdf-b" "rev-asdg" a_create;
                      a_commit 102 "rkey-asdf-c" "rev-asdh" a_create]).1 in
  cc_counts_are cc 2 0 1 1 2 && negb (has_rev "rev-asdg" cc) && has_rev "rev-asdh" cc &&
  existsb (λ c, bool_decide (c_action c = Cut)) (cc_commits cc).
Definition test_truncating_insert_maxes_out_deletes : bool :=
  let first := inserts [a_commit 100 "rkey-asdf-a" "rev-asdf" Cut; a_commit 80 "rkey-asdf-zzz" "rev-asdzzz" a_create;
                        a_commit 101 "rkey-asdf-b" "rev-asdg" Cut] in
  match first.2, (truncating_insert 2 first.1 (a_commit 102 "rkey-asdf-c" "rev-asdh" Cut) zeros).2 with
  | Ok _, Err (BatchFull c) => bool_decide (c_rev c = "rev-asdh")
  | _, _ => false
  end.

Definition types_suite : list bool :=
  [test_db_empty; test_string_roundtrip; test_string_serialized_lexicographic_sort; test_nullstring_can_prefix; test_nsid_can_prefix;
   test_string_cursor_prefix_roundtrip; test_cursor_string_prefix_roundtrip; test_static_str; test_static_str_empty; test_static_prefix;
   test_by_hourly_rollup_key; test_by_hourly_rollup_value; test_hour_truncated_cursor; test_hour_truncated_cursor_already_truncated;
   test_spanning_nothing; test_spanning_low_hours; test_spanning_week_aligned; test_spanning_week_unaligned;
   test_truncating_insert_truncates; test_truncating_insert_counts_updates; test_truncating_insert_does_not_truncate_deletes;
   test_truncating_insert_maxes_out_deletes].

(** The twenty-two tests of the types of ufos pass. *)
Theorem types_tests_pass : types_suite = replicate 22 true.
Proof. vm_compute. reflexivity. Qed.
End Tests.
End TypeTests.
