(* ===== verification/SpacedustQueue.v ===== *)
(** * spacedust: the removable delay queue (spacedust/src/removable_delay_queue.rs)

    A queue of keys with the instants at which they were enqueued, beside a map
    from keys to items: an item leaves by key at once, and its key is skipped
    later.  The reading end takes the first live item, waits until its delay is
    over and returns it; delay.rs forwards what it returns.  The theorems relate
    the two-part representation to the plain list of what is pending, and
    describe what every run emits, when, and that nothing pending is lost. *)

From stdpp Require Import sorting.
From S2P Require Import Prelude.

Module DelayQueue.

(** ** The queue *)

(** [Instant] and [Duration], in nanoseconds. *)
Abbreviation Instant := Z.
Definition ONE_MILLI : Z := 1_000_000.

(** [filter] after [map], as far as the length goes. *)
Lemma length_filter_fmap {A B} (f : A → B) (P : B → Prop) `{∀ x, Decision (P x)} l :
  length (filter P (f <$> l)) = length (filter (λ x, P (f x)) l).
Proof.
  induction l as [|x l IH]; [done|]. rewrite fmap_cons, !filter_cons.
  case_decide; simpl; by rewrite IH.
Qed.

#[global] Instance app_submseteq_proper {A} : Proper (submseteq ==> submseteq ==> submseteq) (@app A).
Proof. intros l1 l2 Hl k1 k2 Hk. by apply submseteq_app. Qed.

Section Queue.
Context {K : Type} `{Countable K} {T : Type}.

Record Queue : Type := mkQueue {
  queue : list (Instant * K);
  items : gmap K T
}.

Inductive EnqueueError : Type := OutputDropped (item : T).

(** [removable_delay_queue]: the shared queue of a fresh pair of ends. *)
Definition removable_delay_queue : Queue := mkQueue [] ∅.

(** [Input::enqueue] at the instant [now]; [strong_count] is the number of ends
    that are still alive. *)
Definition enqueue (strong_count : nat) (now : Instant) (key : K) (item : T) (q : Queue)
    : result EnqueueError Queue :=
  if decide (strong_count = 1) then Err (OutputDropped item)
  else Ok (mkQueue (queue q ++ [(now, key)]) (<[key := item]> (items q))).

(** [Input::remove_range], with the range as a test; also the number of items
    removed, which goes into the metrics. *)
Definition remove_range (range : K → bool) (q : Queue) : Queue * nat :=
  let keys := filter (λ k, range k = true) (map_to_list (items q)).*1 in
  (mkQueue (queue q) (foldl (λ m k, delete k m) (items q) keys), length keys).

(** The closure [get] of [Output::next]: pop until a key is live. *)
Fixpoint get_loop (queue : list (Instant * K)) (items : gmap K T) : option (Instant * T) * Queue :=
  match queue with
  | [] => (None, mkQueue [] items)
  | (t, k) :: queue =>
      match items !! k with
      | Some item => (Some (t, item), mkQueue queue (delete k items))
      | None => get_loop queue items
      end
  end.

Definition get (q : Queue) : option (Instant * T) * Queue := get_loop (queue q) (items q).

(** [Output::next] is suspended in one of two sleeps or runs; after it returned
    [None] the reader has ended. *)
Inductive OutState : Type :=
  | Ready
  | Holding (release : Instant) (item : T)
  | Napping (wake : Instant)
  | Ended.

(** One turn of the loop of [next], at [now]. *)
Definition next_turn (delay : Z) (strong_count : nat) (now : Instant) (q : Queue)
    : option T * OutState * Queue :=
  match get q with
  | (Some (t, item), q) =>
      let expected_release := (t + delay)%Z in
      if decide (ONE_MILLI < Z.max 0 (expected_release - now))%Z
      then (None, Holding expected_release item, q)
      else (Some item, Ready, q)
  | (None, q) =>
      if decide (strong_count = 1) then (None, Ended, q)
      else (None, Napping (now + delay)%Z, q)
  end.

(** The runtime polls [next] at [now]: a sleep that is not over goes on. *)
Definition poll_next (delay : Z) (strong_count : nat) (now : Instant) (o : OutState) (q : Queue)
    : option T * OutState * Queue :=
  match o with
  | Ready => next_turn delay strong_count now q
  | Holding release item =>
      if decide (release ≤ now)%Z then (Some item, Ready, q) else (None, o, q)
  | Napping wake =>
      if decide (wake ≤ now)%Z then next_turn delay strong_count now q else (None, o, q)
  | Ended => (None, Ended, q)
  end.

(** ** Both ends at work: delay.rs *)

Record System : Type := mkSystem {
  sys_q : Queue;
  sys_out : OutState;
  sys_input : bool;
  sys_output : bool;
  sys_sent : list (Instant * T)
}.

Definition system_start : System := mkSystem removable_delay_queue Ready true true [].

Definition strong_count (s : System) : nat := Nat.b2n (sys_input s) + Nat.b2n (sys_output s).

(** What the tasks do: the consumer enqueues and removes, and drops its end when
    it returns; the runtime polls [to_broadcast]; [shutdown] is cancelled. *)
Inductive Event : Type :=
  | EvEnqueue (now : Instant) (key : K) (item : T)
  | EvRemove (range : K → bool)
  | EvDropInput
  | EvPoll (now : Instant)
  | EvShutdown.

(** [to_broadcast]: send what [next] returns; return, dropping the output, when
    it ended or on shutdown. *)
Definition to_broadcast_poll (delay : Z) (now : Instant) (s : System) : System :=
  match poll_next delay (strong_count s) now (sys_out s) (sys_q s) with
  | (Some item, o, q) => mkSystem q o (sys_input s) true (sys_sent s ++ [(now, item)])
  | (None, Ended, q) => mkSystem q Ended (sys_input s) false (sys_sent s)
  | (None, o, q) => mkSystem q o (sys_input s) true (sys_sent s)
  end.

Definition with_q (q : Queue) (s : System) : System :=
  mkSystem q (sys_out s) (sys_input s) (sys_output s) (sys_sent s).

(** One event, if it can happen: an end that was dropped does nothing more.  A
    consumer whose enqueue is refused returns and drops its end. *)
Definition step (delay : Z) (s : System) (e : Event) : option System :=
  match e with
  | EvEnqueue now key item =>
      if sys_input s then
        Some match enqueue (strong_count s) now key item (sys_q s) with
        | Ok q => with_q q s
        | Err _ => mkSystem (sys_q s) (sys_out s) false (sys_output s) (sys_sent s)
        end
      else None
  | EvRemove range => if sys_input s then Some (with_q (remove_range range (sys_q s)).1 s) else None
  | EvDropInput =>
      if sys_input s then Some (mkSystem (sys_q s) (sys_out s) false (sys_output s) (sys_sent s)) else None
  | EvPoll now => if sys_output s then Some (to_broadcast_poll delay now s) else None
  | EvShutdown =>
      if sys_output s then Some (mkSystem (sys_q s) Ended (sys_input s) false (sys_sent s)) else None
  end.

Definition run (delay : Z) (s : System) (es : list Event) : option System := foldl_opt (step delay) s es.

(** ** What is pending *)

(** The entries that repeated calls of [get] return, in order. *)
Fixpoint pend (queue : list (Instant * K)) (items : gmap K T) : list (Instant * K * T) :=
  match queue with
  | [] => []
  | (t, k) :: queue =>
      match items !! k with
      | Some item => (t, k, item) :: pend queue (delete k items)
      | None => pend queue items
      end
  end.

Definition pending (q : Queue) : list (Instant * K * T) := pend (queue q) (items q).

(** Every live key is in the queue. *)
Definition wf (q : Queue) : Prop := ∀ k, is_Some (items q !! k) → k ∈ (queue q).*2.

(** ** The representation *)

Lemma pend_agree l (m1 m2 : gmap K T) :
  (∀ k, k ∈ l.*2 → m1 !! k = m2 !! k) → pend l m1 = pend l m2.
Proof.
  revert m1 m2; induction l as [|[t k] l IH]; intros m1 m2 Hm; simpl; [done|].
  rewrite (Hm k) by (simpl; left).
  destruct (m2 !! k) as [v|] eqn:E; [f_equal|]; apply IH; intros j Hj.
  - destruct (decide (j = k)) as [->|]; [by rewrite !lookup_delete_eq|].
    rewrite !lookup_delete_ne by done. apply Hm. by right.
  - apply Hm. by right.
Qed.

Lemma pend_keys l (m : gmap K T) t k v : (t, k, v) ∈ pend l m → m !! k = Some v ∧ (t, k) ∈ l.
Proof.
  revert m; induction l as [|[t' k'] l IH]; intros m; simpl; [by intros ?%not_elem_of_nil|].
  destruct (m !! k') as [v'|] eqn:E.
  - intros [[= -> -> ->]|[Hk Hl]%IH]%elem_of_cons; [split; [done|by left]|].
    split; [|by right]. destruct (decide (k = k')) as [->|]; [by rewrite lookup_delete_eq in Hk|].
    by rewrite lookup_delete_ne in Hk.
  - intros [Hk Hl]%IH. split; [done|by right].
Qed.

Lemma pend_complete l (m : gmap K T) k v :
  m !! k = Some v → k ∈ l.*2 → ∃ t, (t, k, v) ∈ pend l m.
Proof.
  revert m; induction l as [|[t' k'] l IH]; intros m Hk Hin; simpl in *; [by apply not_elem_of_nil in Hin|].
  destruct (decide (k' = k)) as [->|Hne].
  { rewrite Hk. exists t'. by left. }
  apply elem_of_cons in Hin as [->|Hin]; [done|].
  destruct (m !! k') as [v'|] eqn:E; [|by apply IH].
  destruct (IH (delete k' m)) as [t Ht]; [by rewrite lookup_delete_ne|done|]. exists t. by right.
Qed.

(** A key that is not queued goes to the end. *)
Lemma pend_fresh l (m : gmap K T) t k v :
  k ∉ l.*2 → pend (l ++ [(t, k)]) (<[k := v]> m) = pend l m ++ [(t, k, v)].
Proof.
  revert m; induction l as [|[t' k'] l IH]; intros m Hk; simpl in *.
  { by rewrite lookup_insert_eq. }
  apply not_elem_of_cons in Hk as [Hne Hk]. rewrite lookup_insert_ne by done.
  destruct (m !! k') as [v'|]; [|by apply IH].
  rewrite delete_insert_ne by done. simpl. f_equal. by apply IH.
Qed.

(** A key that is queued already keeps its first entry. *)
Lemma pend_first l1 l2 (m : gmap K T) t t0 k v :
  k ∉ l1.*2 →
  pend ((l1 ++ (t0, k) :: l2) ++ [(t, k)]) (<[k := v]> m) =
  pend l1 m ++ (t0, k, v) :: pend l2 (delete k (foldr (λ e, delete e.2) m l1)).
Proof.
  revert m; induction l1 as [|[t' k'] l1 IH]; intros m Hk; simpl in *.
  - rewrite lookup_insert_eq, delete_insert_eq. f_equal. clear Hk.
    assert (Hno : delete k m !! k = None) by apply lookup_delete_eq.
    revert Hno. generalize (delete k m). induction l2 as [|[t' k'] l2 IH]; intros m' Hno; simpl; [by rewrite Hno|].
    destruct (m' !! k') eqn:E; [f_equal|]; apply IH; [|done].
    destruct (decide (k = k')) as [->|]; [apply lookup_delete_eq|by rewrite lookup_delete_ne].
  - apply not_elem_of_cons in Hk as [Hne Hk]. rewrite lookup_insert_ne by done.
    assert (Hcomm : ∀ (l : list (Instant * K)) (m : gmap K T),
      foldr (λ e, delete e.2) (delete k' m) l = delete k' (foldr (λ e, delete e.2) m l)).
    { induction l as [|e l IHl]; intros m'; simpl; [done|]. by rewrite IHl, delete_delete. }
    destruct (m !! k') as [v'|] eqn:E.
    + rewrite delete_insert_ne by done. simpl. f_equal. rewrite IH by done. by rewrite Hcomm.
    + rewrite IH by done. rewrite <- Hcomm. by rewrite (delete_id m k').
Qed.

Lemma foldr_delete_None l (m : gmap K T) k : m !! k = None → foldr (λ e : Instant * K, delete e.2) m l !! k = None.
Proof. intros Hk. induction l as [|e l IH]; [done|]. simpl. rewrite lookup_delete_None. by right. Qed.

(** A dead entry in the middle separates what is pending before it and after it. *)
Lemma pend_split l1 l2 (m : gmap K T) t0 k :
  m !! k = None → pend (l1 ++ (t0, k) :: l2) m = pend l1 m ++ pend l2 (foldr (λ e, delete e.2) m l1).
Proof.
  assert (Hcomm : ∀ (l : list (Instant * K)) k' (m : gmap K T),
    foldr (λ e, delete e.2) (delete k' m) l = delete k' (foldr (λ e, delete e.2) m l)).
  { induction l as [|e l IHl]; intros k' m'; simpl; [done|]. by rewrite IHl, delete_delete. }
  revert m; induction l1 as [|[t k'] l1 IH]; intros m Hk; simpl; [by rewrite Hk|].
  destruct (m !! k') as [v|] eqn:E; simpl.
  - rewrite IH by (rewrite lookup_delete_None; by right). by rewrite Hcomm.
  - rewrite IH by done. by rewrite <- Hcomm, (delete_id m k').
Qed.

Lemma remove_items (range : K → bool) (q : Queue) k :
  items (remove_range range q).1 !! k = if range k then None else items q !! k.
Proof.
  unfold remove_range. simpl.
  assert (Hdel : ∀ ks (m : gmap K T), foldl (λ m k, delete k m) m ks !! k =
    if decide (k ∈ ks) then None else m !! k).
  { induction ks as [|k' ks IH]; intros m; [done|]. cbn [foldl].
    rewrite IH. destruct (decide (k = k')) as [->|Hne].
    - rewrite lookup_delete_eq, (decide_True (P := k' ∈ k' :: ks)) by (by left). by destruct (decide _).
    - rewrite lookup_delete_ne by done. destruct (decide (k ∈ ks)) as [Hk|Hk].
      + by rewrite decide_True by (by right).
      + by rewrite decide_False by (rewrite elem_of_cons; naive_solver). }
  rewrite Hdel. destruct (range k) eqn:Hr.
  - case_decide as Hin; [done|]. apply eq_None_not_Some. intros [v Hv]. apply Hin.
    apply list_elem_of_filter. split; [done|]. apply (list_elem_of_fmap_2 fst _ (k, v)). by apply elem_of_map_to_list.
  - rewrite decide_False; [done|]. intros [? _]%list_elem_of_filter. congruence.
Qed.

Lemma pend_remove l (m m' : gmap K T) (range : K → bool) :
  (∀ k, m' !! k = if range k then None else m !! k) →
  pend l m' = filter (λ e, range e.1.2 = false) (pend l m).
Proof.
  revert m m'; induction l as [|[t k] l IH]; intros m m' Hm; simpl; [done|].
  assert (Hdel : ∀ j, delete k m' !! j = if range j then None else delete k m !! j).
  { intros j. destruct (decide (j = k)) as [->|]; [rewrite !lookup_delete_eq; by destruct (range k)|].
    by rewrite !lookup_delete_ne. }
  rewrite Hm. destruct (m !! k) as [v|] eqn:E, (range k) eqn:Hr; try (by apply IH).
  - rewrite filter_cons, decide_False by (simpl; congruence). apply IH. intros j.
    destruct (decide (j = k)) as [->|Hne]; [by rewrite Hm, Hr|]. by rewrite lookup_delete_ne.
  - rewrite filter_cons, decide_True by done. f_equal. by apply IH.
Qed.

Lemma get_pending (q : Queue) :
  match get q with
  | (Some (t, v), q') => ∃ k, pending q = (t, k, v) :: pending q' ∧ (t, k) ∈ queue q ∧
      items q !! k = Some v ∧ items q' = delete k (items q) ∧
      ∃ l, queue q = l ++ (t, k) :: queue q' ∧ Forall (λ e, items q !! e.2 = None) l
  | (None, q') => pending q = [] ∧ q' = mkQueue [] (items q)
  end.
Proof.
  destruct q as [l m]. unfold get, pending. simpl.
  induction l as [|[t k] l IH]; simpl; [done|].
  destruct (m !! k) as [v|] eqn:E; simpl.
  - exists k. split_and!; [done|by left|done|done|by exists []].
  - destruct (get_loop l m) as [[[t' v]|] q']; [|done].
    destruct IH as (k' & Hp & Hin & Hk & Hi & l' & Hl & Hdead). exists k'.
    split_and!; [done|by right|done|done|]. exists ((t, k) :: l'). split; [by rewrite Hl|by constructor].
Qed.

(** [wf] through the operations. *)
Lemma wf_start : wf removable_delay_queue.
Proof. intros k [v Hv]. simpl in Hv. by rewrite lookup_empty in Hv. Qed.

Lemma wf_enqueue now k v (q : Queue) : wf q → wf (mkQueue (queue q ++ [(now, k)]) (<[k := v]> (items q))).
Proof.
  intros Hq j Hj. simpl in *. rewrite fmap_app, elem_of_app. simpl.
  destruct (decide (j = k)) as [->|Hne]; [right; by left|]. left. apply Hq.
  by rewrite lookup_insert_ne in Hj.
Qed.

Lemma wf_remove range (q : Queue) : wf q → wf (remove_range range q).1.
Proof.
  intros Hq k Hk. rewrite remove_items in Hk. apply Hq. destruct (range k); [by destruct Hk|done].
Qed.

Lemma wf_get (q : Queue) : wf q → wf (get q).2.
Proof.
  intros Hq. pose proof (get_pending q) as Hg. destruct (get q) as [[[t v]|] q'].
  - destruct Hg as (k & Hp & _ & _ & Hi & _). intros j [w Hw]. simpl in Hw. rewrite Hi in Hw.
    destruct (decide (j = k)) as [->|Hne]; [by rewrite lookup_delete_eq in Hw|].
    assert (Hj : items q !! j = Some w) by (by rewrite lookup_delete_ne in Hw).
    destruct (pend_complete (queue q) (items q) j w Hj) as [t' Ht']; [by apply Hq; exists w|].
    unfold pending in Hp. rewrite Hp in Ht'. apply elem_of_cons in Ht' as [?|Ht']; [congruence|].
    apply pend_keys in Ht' as [_ ?]. by apply (list_elem_of_fmap_2 snd _ (t', j)).
  - destruct Hg as [Hp ->]. intros j [w Hw]. simpl in Hw.
    destruct (pend_complete (queue q) (items q) j w Hw) as [t' Ht']; [by apply Hq; exists w|].
    unfold pending in Hp. rewrite Hp in Ht'. by apply not_elem_of_nil in Ht'.
Qed.
#[local] Hint Resolve wf_start wf_enqueue wf_remove wf_get : microcosm.

(** ** The specification: one list *)

Definition entry_key (e : Instant * K * T) : K := e.1.2.

(** A new key goes to the end; a key that is present keeps its place and its
    instant and gets the new item. *)
Definition list_enqueue (now : Instant) (k : K) (v : T) (a : list (Instant * K * T)) : list (Instant * K * T) :=
  if decide (k ∈ entry_key <$> a)
  then (λ e, if decide (entry_key e = k) then (e.1, v) else e) <$> a
  else a ++ [(now, k, v)].

Definition list_remove (range : K → bool) (a : list (Instant * K * T)) : list (Instant * K * T) :=
  filter (λ e, range (entry_key e) = false) a.

Definition represents (q : Queue) (a : list (Instant * K * T)) : Prop := wf q ∧ pending q = a.

Lemma pend_entry_key l (m : gmap K T) k : m !! k = None → k ∉ entry_key <$> pend l m.
Proof. intros Hk ([[t k'] v] & -> & [Hv _]%pend_keys)%list_elem_of_fmap. unfold entry_key in Hk. by simplify_eq/=. Qed.

Lemma pend_dead l (m : gmap K T) t k : m !! k = None → pend (l ++ [(t, k)]) m = pend l m.
Proof.
  revert m; induction l as [|[t' k'] l IH]; intros m Hk; simpl; [by rewrite Hk|].
  destruct (m !! k') eqn:E; [f_equal|]; apply IH; [|done]. by rewrite lookup_delete_None; auto.
Qed.

Lemma map_other_keys k v (a : list (Instant * K * T)) :
  k ∉ entry_key <$> a → (λ e, if decide (entry_key e = k) then (e.1, v) else e) <$> a = a.
Proof.
  induction a as [|e a IH]; [done|]. rewrite !fmap_cons, not_elem_of_cons. intros [Hne Hk].
  rewrite decide_False by congruence. by rewrite IH.
Qed.

Lemma pend_overwrite l (m : gmap K T) t k v :
  is_Some (m !! k) →
  k ∈ l.*2 →
  pend (l ++ [(t, k)]) (<[k := v]> m) = (λ e, if decide (entry_key e = k) then (e.1, v) else e) <$> pend l m.
Proof.
  revert m; induction l as [|[t' k'] l IH]; intros m Hk Hin; [by apply not_elem_of_nil in Hin|]. simpl.
  destruct (decide (k' = k)) as [->|Hne].
  - rewrite lookup_insert_eq. destruct Hk as [w Hw]. rewrite Hw. cbn [fmap list_fmap].
    rewrite decide_True by done. f_equal. rewrite delete_insert_eq, pend_dead by apply lookup_delete_eq.
    symmetry. apply map_other_keys, pend_entry_key, lookup_delete_eq.
  - rewrite lookup_insert_ne by done. simpl in Hin. apply elem_of_cons in Hin as [->|Hin]; [done|].
    destruct (m !! k') as [w|]; [|by apply IH]. cbn [fmap list_fmap].
    rewrite decide_False by done. f_equal. rewrite delete_insert_ne by done. apply IH; [|done].
    by rewrite lookup_delete_ne.
Qed.

Lemma pend_NoDup l (m : gmap K T) : NoDup (entry_key <$> pend l m).
Proof.
  revert m; induction l as [|[t k] l IH]; intros m; simpl; [constructor|].
  destruct (m !! k); [|done]. rewrite fmap_cons. constructor; [|done]. apply pend_entry_key, lookup_delete_eq.
Qed.

Lemma pending_perm (q : Queue) : wf q → (λ e, (entry_key e, e.2)) <$> pending q ≡ₚ map_to_list (items q).
Proof.
  intros Hq. apply NoDup_Permutation.
  - apply (NoDup_fmap_1 fst). rewrite <- list_fmap_compose. apply pend_NoDup.
  - apply NoDup_map_to_list.
  - intros [k v]. rewrite elem_of_map_to_list. split.
    + intros ([[t k'] v'] & [= -> ->] & [??]%pend_keys)%list_elem_of_fmap. done.
    + intros Hv. destruct (pend_complete (queue q) (items q) k v Hv) as [t Ht]; [by apply Hq; exists v|].
      apply (list_elem_of_fmap_2 (λ e, (entry_key e, e.2)) _ _ Ht).
Qed.

Lemma live_pending (q : Queue) k : wf q → k ∈ entry_key <$> pending q ↔ is_Some (items q !! k).
Proof.
  intros Hq. split.
  - intros ([[t k'] v] & -> & [??]%pend_keys)%list_elem_of_fmap. by exists v.
  - intros [v Hv]. destruct (pend_complete (queue q) (items q) k v Hv) as [t Ht]; [by apply Hq; exists v|].
    apply (list_elem_of_fmap_2 entry_key _ _ Ht).
Qed.

Lemma first_entry (l : list (Instant * K)) k :
  k ∈ l.*2 → ∃ l1 t0 l2, l = l1 ++ (t0, k) :: l2 ∧ k ∉ l1.*2.
Proof.
  induction l as [|[t k'] l IH]; simpl; [by intros ?%not_elem_of_nil|]. intros Hin.
  destruct (decide (k' = k)) as [->|Hne]; [exists [], t, l; split; [done|apply not_elem_of_nil]|].
  apply elem_of_cons in Hin as [->|Hin]; [done|].
  destruct (IH Hin) as (l1 & t0 & l2 & -> & Hl1). exists ((t, k') :: l1), t0, l2. split; [done|].
  simpl. apply not_elem_of_cons. split; [congruence|done].
Qed.

Lemma represents_enqueue q a now k v :
  represents q a → is_Some (items q !! k) ∨ k ∉ (queue q).*2 →
  represents (mkQueue (queue q ++ [(now, k)]) (<[k := v]> (items q))) (list_enqueue now k v a).
Proof.
  intros [Hq <-] Hk. split; [by apply wf_enqueue|]. unfold list_enqueue.
  destruct (decide (k ∈ entry_key <$> pending q)) as [Hin|Hnin]; rewrite live_pending in * by done.
  - by apply pend_overwrite, Hq.
  - destruct Hk as [?|Hk]; [done|]. by apply pend_fresh.
Qed.

Lemma represents_remove q a range :
  represents q a →
  represents (remove_range range q).1 (list_remove range a) ∧
  (remove_range range q).2 = length (filter (λ e, range (entry_key e) = true) a).
Proof.
  intros [Hq <-]. split; [split; [by apply wf_remove|apply pend_remove; intros k; apply remove_items]|].
  unfold remove_range. simpl. rewrite <- (pending_perm q Hq), <- list_fmap_compose.
  by rewrite length_filter_fmap.
Qed.

(** An enqueue of a key that was removed and is still queued: the item takes the
    place and the instant of the entry left behind. *)
Lemma represents_requeue q a now k v l1 t0 l2 :
  represents q a → items q !! k = None → queue q = l1 ++ (t0, k) :: l2 → k ∉ l1.*2 →
  ∃ a2, a = pend l1 (items q) ++ a2 ∧
    represents (mkQueue (queue q ++ [(now, k)]) (<[k := v]> (items q))) (pend l1 (items q) ++ (t0, k, v) :: a2).
Proof.
  intros [Hq <-] Hk Hl Hno. eexists. split; [|split; [by apply wf_enqueue|]].
  2: { unfold pending. cbn [queue items]. rewrite Hl. by apply pend_first. }
  unfold pending. rewrite Hl. rewrite delete_id by (by apply foldr_delete_None). by apply pend_split.
Qed.

(** C27. The two-part queue implements the plain list of what is pending.  An
    enqueue of a key that is not queued appends its entry; of a key that is
    live, it replaces the item and keeps the place and the old instant; of a
    key that was removed and is still queued, it puts the item in the place and
    under the instant of the entry left behind, after the items pending before
    it.  These are all the cases, so that a delay is reset only if the key has
    left the queue.  Removing a range is filtering the list, and the number
    reported is that of the items dropped; [get] takes the first entry, and
    finds nothing exactly when nothing is pending. *)
Theorem delay_queue_refines (q : Queue) (a : list (Instant * K * T)) :
  represents q a →
  (∀ now k v, is_Some (items q !! k) ∨ k ∉ (queue q).*2 →
     ∃ q', enqueue 2 now k v q = Ok q' ∧ represents q' (list_enqueue now k v a)) ∧
  (∀ now k v, items q !! k = None → k ∈ (queue q).*2 →
     ∃ q' l1 t0 l2 a2, enqueue 2 now k v q = Ok q' ∧ queue q = l1 ++ (t0, k) :: l2 ∧ (k ∉ l1.*2) ∧
       a = pend l1 (items q) ++ a2 ∧ represents q' (pend l1 (items q) ++ (t0, k, v) :: a2)) ∧
  (∀ range, represents (remove_range range q).1 (list_remove range a) ∧
     (remove_range range q).2 = length (filter (λ e, range (entry_key e) = true) a)) ∧
  represents (get q).2 (tail a) ∧ (get q).1 = (λ e, (e.1.1, e.2)) <$> head a.
Proof.
  intros Hr. split_and!.
  - intros now k v Hk. eexists. split; [done|]. by apply represents_enqueue.
  - intros now k v Hk (l1 & t0 & l2 & Hl & Hno)%first_entry.
    destruct (represents_requeue q a now k v l1 t0 l2 Hr Hk Hl Hno) as (a2 & Ha & Hr').
    by exists (mkQueue (queue q ++ [(now, k)]) (<[k := v]> (items q))), l1, t0, l2, a2.
  - intros range. by apply represents_remove.
  - destruct Hr as [Hq <-]. split; [by apply wf_get|].
    pose proof (get_pending q) as Hg. destruct (get q) as [[[t v]|] q'].
    + by destruct Hg as (k & -> & _).
    + destruct Hg as [Hp ->]. by rewrite Hp.
  - destruct Hr as [Hq <-]. pose proof (get_pending q) as Hg. destruct (get q) as [[[t v]|] q'].
    + by destruct Hg as (k & -> & _).
    + by destruct Hg as [-> _].
Qed.

(** Enqueueing a key that is still in the queue, live or removed, does not
    reset its delay: the new item is pending under the instant of the first
    entry of the key, and under no other. *)
Theorem requeued_key_keeps_instant (q q' : Queue) l1 t0 l2 now k v :
  queue q = l1 ++ (t0, k) :: l2 → k ∉ l1.*2 → enqueue 2 now k v q = Ok q' →
  ∀ t w, (t, k, w) ∈ pending q' ↔ t = t0 ∧ w = v.
Proof.
  intros Hq Hl1 [= <-] t w. unfold pending. cbn [queue items]. rewrite Hq, pend_first by done.
  rewrite elem_of_app, elem_of_cons. split.
  - intros [[_ Hin]%pend_keys|[[= -> ->]|[Hk _]%pend_keys]]; [|done|by rewrite lookup_delete_eq in Hk].
    destruct Hl1. by apply (list_elem_of_fmap_2 snd _ (t, k)).
  - intros [-> ->]. right. by left.
Qed.

(** Without an output the item comes back. *)
Lemma enqueue_dropped now k v (q : Queue) : enqueue 1 now k v q = Err (OutputDropped v).
Proof. done. Qed.

(** ** What a run emits *)

Section Runs.
Context (delay : Z).

(** No event of [es] enqueues or removes [k]. *)
Definition leaves_alone (k : K) (e : Event) : Prop :=
  match e with
  | EvEnqueue _ k' _ => k' ≠ k
  | EvRemove range => range k = false
  | _ => True
  end.

(** The instant of the first entry of a key. *)
Definition first_instant (k : K) (l : list (Instant * K)) : option Instant :=
  head (omap (λ e, if decide (e.2 = k) then Some e.1 else None) l).

(** The item of [k] is the last one enqueued, not removed since; when it was,
    the first entry of its key was that of [t0]. *)
Definition current (es : list Event) (k : K) (v : T) (t0 : Instant) : Prop :=
  ∃ es1 now es2 s1, es = es1 ++ EvEnqueue now k v :: es2 ∧ Forall (leaves_alone k) es2 ∧
    run delay system_start es1 = Some s1 ∧ first_instant k (queue (sys_q s1) ++ [(now, k)]) = Some t0.

(** The item was enqueued under some key, nothing enqueued or removed the key
    until a poll took it, and [release] is [delay] after the instant under which
    the key was first queued when the item was enqueued: an earlier one if the
    key was still queued, its own otherwise. *)
Definition taken (es : list Event) (release : Instant) (v : T) : Prop :=
  ∃ k es1 now es2 poll es3 t0 v0,
    es = es1 ++ EvEnqueue now k v :: es2 ++ EvPoll poll :: es3 ∧ Forall (leaves_alone k) es2 ∧
    EvEnqueue t0 k v0 ∈ es1 ++ [EvEnqueue now k v] ∧ release = (t0 + delay)%Z ∧
    ∃ s1, run delay system_start es1 = Some s1 ∧ first_instant k (queue (sys_q s1) ++ [(now, k)]) = Some t0.

Lemma first_instant_app k l1 l2 : first_instant k l1 = None → first_instant k (l1 ++ l2) = first_instant k l2.
Proof. unfold first_instant. rewrite omap_app. by destruct (omap _ l1). Qed.

Lemma first_instant_here k l1 l2 t : first_instant k l1 = Some t → first_instant k (l1 ++ l2) = Some t.
Proof. unfold first_instant. rewrite omap_app. by destruct (omap _ l1). Qed.

Lemma first_instant_cons k t j l : first_instant k ((t, j) :: l) = if decide (j = k) then Some t else first_instant k l.
Proof. unfold first_instant. simpl. by case_decide. Qed.

Lemma first_instant_None k l : Forall (λ e : Instant * K, e.2 ≠ k) l → first_instant k l = None.
Proof.
  induction 1 as [|[t j] l Hj _ IH]; [done|]. rewrite first_instant_cons. simpl in Hj. by rewrite decide_False.
Qed.

Lemma first_instant_elem k l t : first_instant k l = Some t → (t, k) ∈ l.
Proof.
  induction l as [|[t' j] l IH]; [done|]. rewrite first_instant_cons.
  case_decide as Hj; [intros [= <-]; subst; by left|right; auto].
Qed.

Lemma taken_snoc es e release v : taken es release v → taken (es ++ [e]) release v.
Proof.
  intros (k & es1 & now & es2 & p & es3 & t0 & v0 & -> & Hrest).
  exists k, es1, now, es2, p, (es3 ++ [e]), t0, v0. split; [|done]. by rewrite <- !app_assoc, !app_comm_cons, <- app_assoc.
Qed.

Lemma current_snoc es e k v t0 : leaves_alone k e → current es k v t0 → current (es ++ [e]) k v t0.
Proof.
  intros He (es1 & now & es2 & s1 & -> & Hes & Hs). exists es1, now, (es2 ++ [e]), s1.
  split; [by rewrite <- app_assoc|]. split; [apply Forall_app; auto|done].
Qed.

Lemma taken_now es t t0 k v v0 :
  current es k v t0 → EvEnqueue t0 k v0 ∈ es → taken (es ++ [EvPoll t]) (t0 + delay) v.
Proof.
  intros (es1 & now & es2 & s1 & -> & Hes & Hs) Hin. exists k, es1, now, es2, t, [], t0, v0.
  split_and!; [by rewrite <- app_assoc|done| |done|by exists s1].
  apply elem_of_app. apply elem_of_app in Hin as [Hin|Hin]; [by left|].
  apply elem_of_cons in Hin as [Hin|Hin]; [right; rewrite Hin; by left|].
  rewrite Forall_forall in Hes. by destruct (Hes _ Hin).
Qed.

(** An item is live under its key, and the first entry of the key decides when
    it goes out. *)
Definition waits (es : list Event) (q : Queue) (k : K) (v : T) : Prop :=
  ∃ t0, current es k v t0 ∧ first_instant k (queue q) = Some t0.

Record traced (es : list Event) (s : System) : Prop := {
  tr_items : sys_output s = true → ∀ k v, items (sys_q s) !! k = Some v → waits es (sys_q s) k v;
  tr_queue : ∀ t k, (t, k) ∈ queue (sys_q s) → ∃ v, EvEnqueue t k v ∈ es;
  tr_held : ∀ r v, sys_out s = Holding r v → taken es r v;
  tr_sent : ∀ now v, (now, v) ∈ sys_sent s → ∃ r, taken es r v ∧ (r - ONE_MILLI ≤ now)%Z
}.

Lemma waits_snoc es e q q' k v :
  leaves_alone k e → first_instant k (queue q') = first_instant k (queue q) → waits es q k v → waits (es ++ [e]) q' k v.
Proof. intros He Hq (t0 & Hc & Hf). exists t0. split; [by apply current_snoc|congruence]. Qed.

Lemma traced_start : traced [] system_start.
Proof.
  split; cbn [system_start sys_q sys_out sys_sent removable_delay_queue queue items].
  - intros _ k v Hv. by rewrite lookup_empty in Hv.
  - by intros t k ?%not_elem_of_nil.
  - done.
  - by intros t k ?%not_elem_of_nil.
Qed.

Lemma queued_snoc es e t k : (∃ v, EvEnqueue t k v ∈ es) → ∃ v, EvEnqueue t k v ∈ es ++ [e].
Proof. intros [v Hv]. exists v. apply elem_of_app. by left. Qed.

Lemma sent_snoc es e (now : Instant) v :
  (∃ r, taken es r v ∧ (r - ONE_MILLI ≤ now)%Z) → ∃ r, taken (es ++ [e]) r v ∧ (r - ONE_MILLI ≤ now)%Z.
Proof. intros (r & ? & ?). exists r. split; [by apply taken_snoc|done]. Qed.
#[local] Hint Resolve queued_snoc sent_snoc taken_snoc : microcosm.

(** An event that leaves the queue as it is. *)
Lemma traced_frame es e s s' :
  traced es s → sys_q s' = sys_q s → sys_sent s' = sys_sent s →
  (sys_out s' = sys_out s ∨ sys_out s' = Ended) →
  (sys_output s' = true → sys_output s = true ∧ ∀ k, leaves_alone k e) → traced (es ++ [e]) s'.
Proof.
  intros [Hi Hq Hh Hs] Eq Es Ho Hk. split; rewrite ?Eq, ?Es; auto with microcosm.
  - intros Hout k v Hv. destruct (Hk Hout) as [Hs' He]. by apply (waits_snoc es e (sys_q s)), Hi.
  - intros r v Hv. apply taken_snoc, Hh. destruct Ho; congruence.
Qed.

Lemma traced_enqueue es s now k v :
  run delay system_start es = Some s → traced es s →
  traced (es ++ [EvEnqueue now k v])
    (with_q (mkQueue (queue (sys_q s) ++ [(now, k)]) (<[k := v]> (items (sys_q s)))) s).
Proof.
  intros Hrun [Hi Hq Hh Hs]. split; cbn [with_q sys_q sys_out sys_sent sys_output queue items]; auto with microcosm.
  - intros Hout j w. destruct (decide (j = k)) as [->|Hne].
    + rewrite lookup_insert_eq. intros [= <-].
      assert (is_Some (first_instant k (queue (sys_q s) ++ [(now, k)]))) as [t0 Ht].
      { destruct (first_instant k (queue (sys_q s))) as [t0|] eqn:Ht; [exists t0; by apply first_instant_here|].
        rewrite first_instant_app, first_instant_cons, decide_True by done. by exists now. }
      exists t0. split; [|done]. by exists es, now, [], s.
    + rewrite lookup_insert_ne by done. intros Hw. apply (waits_snoc es _ (sys_q s)); [by simpl| |by apply Hi].
      cbn [queue]. destruct (Hi Hout _ _ Hw) as (t0 & _ & Hf). rewrite Hf. by apply first_instant_here.
  - intros t j [Hin|Hin]%elem_of_app; [auto with microcosm|].
    apply list_elem_of_singleton in Hin as [= -> ->]. exists v. apply elem_of_app. right. by left.
Qed.

Lemma traced_remove es s range :
  traced es s → traced (es ++ [EvRemove range]) (with_q (remove_range range (sys_q s)).1 s).
Proof.
  intros [Hi Hq Hh Hs]. split; cbn [with_q sys_q sys_out sys_sent sys_output]; auto with microcosm.
  intros Hout k v. rewrite remove_items. destruct (range k) eqn:Hr; [done|]. intros Hv.
  by apply (waits_snoc es _ (sys_q s)); [| |apply Hi].
Qed.

(** Taking the first live item leaves the first entries of the other live keys. *)
Lemma first_after_get (q q' : Queue) l t k j w :
  queue q = l ++ (t, k) :: queue q' → Forall (λ e, items q !! e.2 = None) l → items q !! j = Some w →
  (j = k → first_instant j (queue q) = Some t) ∧ (j ≠ k → first_instant j (queue q') = first_instant j (queue q)).
Proof.
  intros Hl Hdead Hj. rewrite Hl, first_instant_app, first_instant_cons.
  - split; [intros ->; by rewrite decide_True|intros Hne; by rewrite decide_False].
  - apply first_instant_None. rewrite Forall_forall in *. intros [t' j'] He%Hdead E. simpl in *. congruence.
Qed.

(** A poll that runs a turn of the loop. *)
Lemma traced_turn es s now ov o q b :
  traced es s → sys_output s = true → next_turn delay (strong_count s) now (sys_q s) = (ov, o, q) →
  traced (es ++ [EvPoll now])
    (mkSystem q o (sys_input s) b (sys_sent s ++ match ov with Some v => [(now, v)] | None => [] end)).
Proof.
  intros [Hi Hq Hh Hs] Hout Hn. specialize (Hi Hout). pose proof (get_pending (sys_q s)) as Hg. unfold next_turn in Hn.
  destruct (get (sys_q s)) as [[[t v]|] q'].
  - destruct Hg as (k & _ & Hin & Hk & Hi' & l & Hl & Hdead). destruct (Hq _ _ Hin) as [v0 Hv0].
    assert (Ht : taken (es ++ [EvPoll now]) (t + delay) v).
    { destruct (Hi _ _ Hk) as (t0 & Hc & Hf). rewrite (proj1 (first_after_get _ _ _ _ _ _ _ Hl Hdead Hk) eq_refl) in Hf.
      injection Hf as <-. by apply (taken_now es now t k v v0). }
    assert (q' = q) as <- by (case_decide; congruence).
    split; cbn [sys_q sys_out sys_sent].
    + intros _ j w. rewrite Hi'. destruct (decide (j = k)) as [->|Hne]; [by rewrite lookup_delete_eq|].
      rewrite lookup_delete_ne by done. intros Hw. apply (waits_snoc es _ (sys_q s)); [done| |by apply Hi].
      by apply (proj2 (first_after_get _ _ _ _ _ _ _ Hl Hdead Hw)).
    + intros t' j Hin'. apply queued_snoc, Hq. rewrite Hl. apply elem_of_app. right. by right.
    + intros r w. case_decide; simplify_eq; [|done]. intros [= <- <-]. done.
    + intros t' w [Hin'|Hin']%elem_of_app; [auto with microcosm|].
      case_decide; simplify_eq; [by apply not_elem_of_nil in Hin'|].
      apply list_elem_of_singleton in Hin' as [= -> ->]. exists (t + delay)%Z. split; [done|lia].
  - destruct Hg as [Hp ->].
    assert (ov = None ∧ q = mkQueue [] (items (sys_q s)) ∧ (∀ r v, o ≠ Holding r v)) as (-> & -> & Ho)
      by (case_decide; simplify_eq; done).
    split; cbn [sys_q sys_out sys_sent queue items].
    + intros _ j w Hw. exfalso. destruct (Hi _ _ Hw) as (t0 & _ & Hf%first_instant_elem).
      destruct (pend_complete (queue (sys_q s)) (items (sys_q s)) j w Hw) as [t' Ht'].
      { by apply (list_elem_of_fmap_2 snd _ (t0, j)). }
      unfold pending in Hp. rewrite Hp in Ht'. by apply not_elem_of_nil in Ht'.
    + by intros t k ?%not_elem_of_nil.
    + intros r v Hr. by destruct (Ho r v).
    + rewrite app_nil_r. auto with microcosm.
Qed.

Lemma traced_poll es s now :
  sys_output s = true → traced es s → traced (es ++ [EvPoll now]) (to_broadcast_poll delay now s).
Proof.
  intros Hout Hs. unfold to_broadcast_poll.
  assert (Hturn : ∀ ov o q, next_turn delay (strong_count s) now (sys_q s) = (ov, o, q) →
    traced (es ++ [EvPoll now]) match (ov, o, q) with
      | (Some item, o, q) => mkSystem q o (sys_input s) true (sys_sent s ++ [(now, item)])
      | (None, Ended, q) => mkSystem q Ended (sys_input s) false (sys_sent s)
      | (None, o, q) => mkSystem q o (sys_input s) true (sys_sent s)
      end).
  { intros ov o q Hn. pose proof (traced_turn es s now ov o q true Hs Hout Hn) as H1.
    pose proof (traced_turn es s now ov o q false Hs Hout Hn) as H2.
    destruct ov; [done|]. rewrite app_nil_r in *. by destruct o. }
  unfold poll_next. destruct (sys_out s) as [|r v|w|] eqn:Ho.
  - destruct (next_turn _ _ _ _) as [[ov o] q]. by apply Hturn.
  - case_decide as Hr.
    + pose proof (tr_held _ _ Hs _ _ Ho) as Ht.
      destruct Hs as [Hi Hq Hh Hs]. split; simpl; auto with microcosm; [|done|].
      * intros _ k u Hu. by apply (waits_snoc es _ (sys_q s)); [| |apply Hi].
      * intros t w [Hin|Hin]%elem_of_app; [auto with microcosm|].
        apply list_elem_of_singleton in Hin as [= -> ->]. exists r.
        split; [by apply taken_snoc|unfold ONE_MILLI; lia].
    + apply (traced_frame es (EvPoll now) s); simpl; naive_solver.
  - case_decide.
    + destruct (next_turn _ _ _ _) as [[ov o] q]. by apply Hturn.
    + apply (traced_frame es (EvPoll now) s); simpl; naive_solver.
  - apply (traced_frame es (EvPoll now) s); simpl; naive_solver.
Qed.

Lemma traced_run es s : run delay system_start es = Some s → traced es s.
Proof.
  revert s; induction es as [|e es IH] using rev_ind; intros s'; [intros [= <-]; apply traced_start|].
  unfold run. rewrite foldl_opt_app. intros (s & Hs & He)%bind_Some. specialize (IH _ Hs). simpl in He.
  apply bind_Some in He as (s'' & He & [= ->]). destruct e as [now k v|range| |now|]; simpl in He.
  - destruct (sys_input s) eqn:Hin; [|done]. injection He as <-. unfold enqueue. case_decide as Hsc.
    + apply (traced_frame es _ s); simpl; [done|done|done|by left|]. intros Hout. unfold strong_count in Hsc. by rewrite Hin, Hout in Hsc.
    + by apply traced_enqueue.
  - destruct (sys_input s); [|done]. injection He as <-. by apply traced_remove.
  - destruct (sys_input s); [|done]. injection He as <-. apply (traced_frame es _ s); simpl; naive_solver.
  - destruct (sys_output s) eqn:Hout; [|done]. injection He as <-. by apply traced_poll.
  - destruct (sys_output s); [|done]. injection He as <-. apply (traced_frame es _ s); simpl; naive_solver.
Qed.

(** ** At most once *)

Definition held (o : OutState) : list T := match o with Holding _ v => [v] | _ => [] end.
Definition stored (q : Queue) : list T := (map_to_list (items q)).*2.
Definition enqueued (e : Event) : option T := match e with EvEnqueue _ _ v => Some v | _ => None end.

Lemma stored_subset (q q' : Queue) : items q' ⊆ items q → stored q' ⊆+ stored q.
Proof. intros Hm. by apply fmap_submseteq, map_to_list_submseteq. Qed.

Lemma stored_enqueue now k v (q : Queue) :
  stored (mkQueue (queue q ++ [(now, k)]) (<[k := v]> (items q))) ⊆+ v :: stored q.
Proof.
  unfold stored. simpl. rewrite <- insert_delete_eq, map_to_list_insert by apply lookup_delete_eq.
  cbn [fmap list_fmap snd]. apply submseteq_skip. apply fmap_submseteq, map_to_list_submseteq, delete_subseteq.
Qed.

Lemma stored_remove range (q : Queue) : stored (remove_range range q).1 ⊆+ stored q.
Proof.
  apply stored_subset, map_subseteq_spec. intros k v. rewrite remove_items. by destruct (range k).
Qed.

Lemma stored_get (q : Queue) :
  stored q ≡ₚ match (get q).1 with Some (_, v) => [v] | None => [] end ++ stored (get q).2.
Proof.
  pose proof (get_pending q) as Hg. destruct (get q) as [[[t v]|] q']; simpl.
  - destruct Hg as (k & _ & _ & Hk & Hi & _). unfold stored. rewrite Hi.
    by rewrite <- (map_to_list_delete (items q) k v Hk).
  - by destruct Hg as [_ ->].
Qed.

Definition contents (s : System) : list T := (sys_sent s).*2 ++ held (sys_out s) ++ stored (sys_q s).

Lemma contents_turn now s ov o q b :
  held (sys_out s) = [] →
  next_turn delay (strong_count s) now (sys_q s) = (ov, o, q) →
  contents (mkSystem q o (sys_input s) b (sys_sent s ++ match ov with Some v => [(now, v)] | None => [] end))
  ≡ₚ contents s.
Proof.
  intros Hh Hn. unfold contents. simpl. rewrite Hh, fmap_app. simpl. rewrite (stored_get (sys_q s)).
  unfold next_turn in Hn. destruct (get (sys_q s)) as [[[t v]|] q']; simpl; case_decide; simplify_eq/=.
  - by rewrite app_nil_r.
  - by rewrite <- app_assoc.
  - by rewrite app_nil_r.
  - by rewrite app_nil_r.
Qed.

Lemma contents_poll now s : contents (to_broadcast_poll delay now s) ≡ₚ contents s.
Proof.
  assert (Hturn : held (sys_out s) = [] → ∀ ov o q, next_turn delay (strong_count s) now (sys_q s) = (ov, o, q) →
    contents match (ov, o, q) with
      | (Some item, o, q) => mkSystem q o (sys_input s) true (sys_sent s ++ [(now, item)])
      | (None, Ended, q) => mkSystem q Ended (sys_input s) false (sys_sent s)
      | (None, o, q) => mkSystem q o (sys_input s) true (sys_sent s)
      end ≡ₚ contents s).
  { intros Hh ov o q Hn. rewrite <- (contents_turn now s ov o q true Hh Hn).
    destruct ov; [done|]. rewrite app_nil_r. by destruct o. }
  unfold to_broadcast_poll, poll_next. destruct (sys_out s) as [|r v|w|] eqn:Ho.
  - destruct (next_turn _ _ _ _) as [[ov o] q]. by apply Hturn.
  - case_decide; unfold contents; simpl; rewrite Ho; [|done]. by rewrite fmap_app, <- app_assoc.
  - case_decide; [|unfold contents; simpl; by rewrite Ho].
    destruct (next_turn _ _ _ _) as [[ov o] q]. by apply Hturn.
  - unfold contents. simpl. by rewrite Ho.
Qed.

Lemma contents_run es s : run delay system_start es = Some s → contents s ⊆+ omap enqueued es.
Proof.
  revert s; induction es as [|e es IH] using rev_ind; intros s'.
  { intros [= <-]. unfold contents, stored. simpl. by rewrite map_to_list_empty. }
  unfold run. rewrite foldl_opt_app. intros (s & Hs & He)%bind_Some. specialize (IH _ Hs). cbn [foldl_opt] in He.
  apply bind_Some in He as (s'' & He & [= ->]). rewrite omap_app.
  destruct e as [now k v|range| |now|]; cbn [step enqueued omap list_omap] in *; rewrite ?app_nil_r.
  - destruct (sys_input s); [|done]. injection He as <-. unfold enqueue. case_decide.
    + etrans; [apply IH|]. apply submseteq_inserts_r. done.
    + unfold contents in *. simpl. rewrite stored_enqueue. rewrite (Permutation_app_comm (omap enqueued es)).
      rewrite app_assoc, <- Permutation_middle, <- app_assoc. by apply submseteq_skip.
  - destruct (sys_input s); [|done]. injection He as <-. rewrite <- IH. unfold contents.
    by apply submseteq_app, submseteq_app, stored_remove.
  - destruct (sys_input s); [|done]. injection He as <-. done.
  - destruct (sys_output s); [|done]. injection He as <-. by rewrite contents_poll.
  - destruct (sys_output s); [|done]. injection He as <-. rewrite <- IH. unfold contents. simpl.
    apply submseteq_app; [done|]. by apply submseteq_inserts_l.
Qed.


(** ** Nothing is lost *)

Definition awake (now : Instant) (o : OutState) : Prop :=
  match o with
  | Ready => True
  | Holding r _ => (r ≤ now)%Z
  | Napping w => (w ≤ now)%Z
  | Ended => False
  end.

Lemma poll_pending now s :
  sys_output s = true → awake now (sys_out s) →
  Forall (λ e, (e.1.1 + delay ≤ now)%Z) (pending (sys_q s)) →
  match held (sys_out s) ++ (pending (sys_q s)).*2 with
  | [] => True
  | v :: rest =>
      let s' := to_broadcast_poll delay now s in
      sys_sent s' = sys_sent s ++ [(now, v)] ∧ sys_out s' = Ready ∧ sys_output s' = true ∧
      Forall (λ e, (e.1.1 + delay ≤ now)%Z) (pending (sys_q s')) ∧ (pending (sys_q s')).*2 = rest
  end.
Proof.
  intros Hout Ha Hall.
  assert (Hturn : match (pending (sys_q s)).*2 with
    | [] => True
    | v :: rest => ∃ q, next_turn delay (strong_count s) now (sys_q s) = (Some v, Ready, q) ∧
        Forall (λ e, (e.1.1 + delay ≤ now)%Z) (pending q) ∧ (pending q).*2 = rest
    end).
  { unfold next_turn. pose proof (get_pending (sys_q s)) as Hg. destruct (get (sys_q s)) as [[[t v]|] q'].
    - destruct Hg as (k & Hp & _). rewrite Hp in *. apply Forall_cons in Hall as [Ht Hall]. simpl in *.
      exists q'. split; [|done]. rewrite decide_False by (unfold ONE_MILLI; lia). done.
    - by destruct Hg as [-> _]. }
  unfold to_broadcast_poll, poll_next. destruct (sys_out s) as [|r v|w|]; simpl in *; [| | |done].
  - destruct ((pending (sys_q s)).*2) as [|v rest]; [done|]. by destruct Hturn as (q & -> & ? & ?).
  - by rewrite decide_True.
  - destruct ((pending (sys_q s)).*2) as [|v rest]; [done|]. rewrite decide_True by done.
    by destruct Hturn as (q & -> & ? & ?).
Qed.

(** Nothing that is pending is lost: once every delay is over, as many polls
    as there are items send the held item and then everything pending, in the
    order of the queue, and leave nothing pending. *)
Theorem delay_queue_drains now s :
  sys_output s = true → awake now (sys_out s) →
  Forall (λ e, (e.1.1 + delay ≤ now)%Z) (pending (sys_q s)) →
  let waiting := held (sys_out s) ++ (pending (sys_q s)).*2 in
  ∃ s', run delay s (replicate (length waiting) (EvPoll now)) = Some s' ∧
    sys_sent s' = sys_sent s ++ (pair now <$> waiting) ∧ held (sys_out s') ++ (pending (sys_q s')).*2 = [].
Proof.
  intros Hout Ha Hall waiting. remember waiting as l eqn:Hl. subst waiting.
  revert s Hout Ha Hall Hl; induction l as [|v l IH]; intros s Hout Ha Hall Hl; simpl.
  { exists s. by rewrite app_nil_r. }
  pose proof (poll_pending now s Hout Ha Hall) as Hp. rewrite <- Hl in Hp.
  unfold run. simpl. rewrite Hout. simpl.
  destruct Hp as (Hs & Ho & Hout' & Hall' & Hrest).
  destruct (IH (to_broadcast_poll delay now s)) as (s' & Hrun & Hsent & Hno); [done|by rewrite Ho|done|by rewrite Ho|].
  exists s'. split_and!; [done| |done]. by rewrite Hsent, Hs, <- app_assoc.
Qed.

(** An item whose record is deleted while the reader waits for its release is
    sent all the same: the reader takes the item out of the map before it
    sleeps, so that the removal finds nothing. *)
Theorem removal_misses_held_item k v :
  (ONE_MILLI < delay)%Z →
  ∃ s, run delay system_start [EvEnqueue 0 k v; EvPoll 0; EvRemove (λ _, true); EvPoll delay] = Some s ∧
    sys_sent s = [(delay, v)].
Proof.
  intros Hd.
  assert (Hp : to_broadcast_poll delay 0 (with_q (mkQueue [(0%Z, k)] (<[k := v]> ∅)) system_start) =
    mkSystem (mkQueue [] (delete k (<[k := v]> ∅))) (Holding delay v) true true []).
  { unfold to_broadcast_poll. simpl. unfold next_turn, get. simpl.
    by rewrite lookup_insert_eq, decide_True by lia. }
  unfold run. simpl. rewrite Hp. simpl. eexists. split; [reflexivity|].
  unfold to_broadcast_poll, poll_next. simpl. by rewrite decide_True by lia.
Qed.

End Runs.

End Queue.
Arguments Queue K {_ _} T.
Arguments OutState T : clear implicits.
Arguments Event K T : clear implicits.
Arguments System K {_ _} T.

(** ** Concrete queues *)

Definition sample_queue : Queue nat string :=
  mkQueue [(0%Z, 1); (5%Z, 2); (7%Z, 3)] (<[1 := "a"]> (<[3 := "c"]> ∅)).

Lemma delay_queue_refines_witness :
  represents sample_queue [(0%Z, 1, "a"); (7%Z, 3, "c")] ∧
  (get sample_queue).1 = Some (0%Z, "a") ∧ pending (get sample_queue).2 = [(7%Z, 3, "c")].
Proof.
  assert (Hr : represents sample_queue [(0%Z, 1, "a"); (7%Z, 3, "c")]).
  { split; [|vm_compute; reflexivity]. intros k Hk. unfold sample_queue in Hk. simpl in Hk.
    rewrite !lookup_insert_is_Some', lookup_empty in Hk. simpl.
    destruct Hk as [<-|[<-|[? ?]]]; [set_solver|set_solver|done]. }
  destruct (delay_queue_refines sample_queue _ Hr) as (_ & _ & _ & Hg & Hh).
  split; [exact Hr|]. split; [exact Hh|apply Hg].
Defined.

Lemma requeued_key_keeps_instant_witness :
  ∀ t w, (t, 2, w) ∈ pending (mkQueue (queue sample_queue ++ [(9%Z, 2)]) (<[2 := "b"]> (items sample_queue))) ↔
    t = 5%Z ∧ w = "b".
Proof.
  apply (requeued_key_keeps_instant sample_queue _ [(0%Z, 1)] 5%Z [(7%Z, 3)] 9%Z 2 "b"); [done| |done].
  simpl. intros [?|?%not_elem_of_nil]%elem_of_cons; done.
Defined.

Definition sample_run : list (Event nat string) :=
  [EvEnqueue 0 1 "a"; EvEnqueue 1 2 "b"; EvRemove (Nat.eqb 1); EvEnqueue 1_000_000 2 "c"; EvPoll 1_000_001; EvPoll 3_000_001].


Lemma delay_queue_drains_witness :
  ∃ s', run 4 (mkSystem sample_queue (Holding 3 "z") true true []) (replicate 3 (EvPoll 20)) = Some s' ∧
    sys_sent s' = [(20%Z, "z"); (20%Z, "a"); (20%Z, "c")] ∧ held (sys_out s') ++ (pending (sys_q s')).*2 = [].
Proof.
  apply (delay_queue_drains 4 20 (mkSystem sample_queue (Holding 3 "z") true true [])); [done|simpl; lia|].
  vm_compute. repeat constructor; done.
Defined.

Lemma removal_misses_held_item_witness :
  ∃ s, run 21_000_000_000 system_start
    [EvEnqueue 0 7 "x"; EvPoll 0; EvRemove (λ _, true); EvPoll 21_000_000_000] = Some s ∧
    sys_sent s = [(21_000_000_000%Z, "x")].
Proof. apply (removal_misses_held_item 21_000_000_000 7 "x"). vm_compute. reflexivity. Defined.

End DelayQueue.
