(* ===== verification/SpacedustConsumer.v ===== *)
(** * spacedust: from events to client messages (spacedust/src/consumer.rs, lib.rs)

    A commit becomes one message per link, sent at once to the instant
    subscribers and put into the delay queue under the record's at-uri and the
    position of the link; a delete takes the record's links back out of the
    queue.  The theorems say which messages a commit produces, that a delete
    clears every link of its record and nothing else, and what an update leaves
    behind. *)

From S2P Require Import Prelude RustStr Bytes LinksAtUri LinksRecord.
From S2P Require Import UfosDbTypes UfosBatch SpacedustQueue.
Import Links.

(** ** lib.rs *)

Record FilterableProperties : Type := mkProperties {
  subject : string;
  subject_did : option string;
  source : string
}.

(** [message] is always [Message::Text]. *)
Record ClientMessage : Type := mkClientMessage {
  message : string;
  properties : FilterableProperties
}.

Record ClientLinkEvent : Type := mkClientLinkEvent {
  cl_operation : string;
  cl_source : string;
  cl_source_record : string;
  cl_source_rev : string;
  cl_subject : string
}.

Record ClientEvent : Type := mkClientEvent {
  cl_kind : string;
  cl_origin : string;
  cl_link : ClientLinkEvent
}.

Inductive ConsumerError : Type := JetstreamEnded | DelayQueueOutputDropped.

Module Spacedust.

Definition MAX_LINKS_PER_EVENT : nat := 100.

(** The key of a link in the delay queue, with the derived order of the pair. *)
Abbreviation LinkKey := (string * nat)%type.

Definition key_le (a b : LinkKey) : bool :=
  match bytes_compare a.1 b.1 with
  | Lt => true
  | Eq => a.2 <=? b.2
  | Gt => false
  end.

(** [lo..=hi]. *)
Definition range_inclusive (lo hi k : LinkKey) : bool := key_le lo k && key_le k hi.

Section Consumer.
Context `{FluentUri}.
(** serde_json's serializer and tinyjson's parser. *)
Context (to_json : ClientEvent → option string) (parse_json : string → option JsonValue).

Definition new_link (link : CollectedLink) (at_uri : string) (commit : CommitEvent) : option ClientMessage :=
  let subject_did := did (target link) in
  let subject := into_string (target link) in
  let undotted := default "" (strip_prefix "." (path link)) in
  let source := nsid_str (ce_collection commit) +:+ ":" +:+ undotted in
  client_event_json ← to_json
    (mkClientEvent "link" "live" (mkClientLinkEvent "create" source at_uri (ce_rev commit) subject));
  Some (mkClientMessage client_event_json (mkProperties subject subject_did source)).

Definition event_at_uri (event : JetstreamEvent) (commit : CommitEvent) : string :=
  "at://" +:+ did_str (ev_did event) +:+ "/" +:+ nsid_str (ce_collection commit) +:+ "/" +:+ rkey_str (ce_rkey commit).

(** What the consumer writes to: the instant broadcast and the delay queue. *)
Record Sinks : Type := mkSinks {
  instant : list ClientMessage;
  delayed : DelayQueue.Queue LinkKey ClientMessage
}.

(** The loop over the links from position [i] on; [now] gives the instants at
    which they are enqueued. *)
Fixpoint consume_links (strong_count : nat) (now : nat → Z) (at_uri : string) (commit : CommitEvent)
    (i : nat) (links : list CollectedLink) (s : Sinks) : Sinks * option ConsumerError :=
  match links with
  | [] => (s, None)
  | link :: links =>
      if decide (MAX_LINKS_PER_EVENT ≤ i) then (s, None)
      else
        match new_link link at_uri commit with
        | None => consume_links strong_count now at_uri commit (S i) links s
        | Some message =>
            let instant := instant s ++ [message] in
            match DelayQueue.enqueue strong_count (now i) (at_uri, i) message (delayed s) with
            | Err _ => (mkSinks instant (delayed s), Some DelayQueueOutputDropped)
            | Ok d => consume_links strong_count now at_uri commit (S i) links (mkSinks instant d)
            end
        end
  end.

(** The body of the loop of [consume] for one event. *)
Definition consume_event (strong_count : nat) (now : nat → Z) (event : JetstreamEvent) (s : Sinks)
    : Sinks * option ConsumerError :=
  match ev_kind event, ev_commit event with
  | KCommit, Some commit =>
      let at_uri := event_at_uri event commit in
      match ce_operation commit with
      | OpDelete =>
          (mkSinks (instant s)
            (DelayQueue.remove_range (range_inclusive (at_uri, 0) (at_uri, MAX_LINKS_PER_EVENT)) (delayed s)).1, None)
      | _ =>
          match ce_record commit ≫= parse_json with
          | None => (s, None)
          | Some jv => consume_links strong_count now at_uri commit 0 (collect_links jv) s
          end
      end
  | _, _ => (s, None)
  end.

(** One turn of the loop finds the shutdown requested, or the stream ended, or
    an event. *)
Inductive Turn : Type :=
  | Cancelled
  | StreamEnded
  | Received (strong_count : nat) (now : nat → Z) (event : JetstreamEvent).

(** [consume]: what was written, and how it returned, if it did. *)
Fixpoint consume (turns : list Turn) (s : Sinks) : Sinks * option (result ConsumerError ()) :=
  match turns with
  | [] => (s, None)
  | Cancelled :: _ => (s, Some (Ok ()))
  | StreamEnded :: _ => (s, Some (Err JetstreamEnded))
  | Received sc now event :: turns =>
      match consume_event sc now event s with
      | (s, None) => consume turns s
      | (s, Some e) => (s, Some (Err e))
      end
  end.

(** ** Keys *)

(** The keys of a record are one range. *)
Lemma range_inclusive_record uri n k :
  range_inclusive (uri, 0) (uri, n) k = true ↔ k.1 = uri ∧ k.2 ≤ n.
Proof.
  unfold range_inclusive, key_le. simpl. rewrite (bytes_compare_antisym uri k.1).
  destruct (bytes_compare uri k.1) eqn:E; simpl.
  - apply bytes_compare_eq in E. subst. rewrite Nat.leb_le. naive_solver.
  - split; [done|]. intros [Eu _]. subst. by rewrite bytes_compare_refl in E.
  - split; [done|]. intros [Eu _]. subst. by rewrite bytes_compare_refl in E.
Qed.

(** Different records have different keys. *)
Lemma event_at_uri_inj e1 c1 e2 c2 :
  str_contains "/" (did_str (ev_did e1)) = false → str_contains "/" (did_str (ev_did e2)) = false →
  str_contains "/" (nsid_str (ce_collection c1)) = false → str_contains "/" (nsid_str (ce_collection c2)) = false →
  event_at_uri e1 c1 = event_at_uri e2 c2 →
  did_str (ev_did e1) = did_str (ev_did e2) ∧
  nsid_str (ce_collection c1) = nsid_str (ce_collection c2) ∧ rkey_str (ce_rkey c1) = rkey_str (ce_rkey c2).
Proof.
  intros Hd1 Hd2 Hn1 Hn2. unfold event_at_uri. intros [= E].
  rewrite !str_app_cons, !str_app_nil_l in E.
  apply (f_equal (split_once "/")) in E. rewrite !split_once_app in E by done.
  injection E as -> E. apply (f_equal (split_once "/")) in E. rewrite !split_once_app in E by done.
  by injection E as -> ->.
Qed.

(** ** What a commit produces *)

(** The messages of the links from position [i] on, with their keys. *)
Fixpoint link_messages (at_uri : string) (commit : CommitEvent) (i : nat) (links : list CollectedLink)
    : list (nat * ClientMessage) :=
  match links with
  | [] => []
  | link :: links =>
      if decide (MAX_LINKS_PER_EVENT ≤ i) then []
      else option_list (pair i <$> new_link link at_uri commit) ++ link_messages at_uri commit (S i) links
  end.

Lemma consume_links_Ok now at_uri commit i links s :
  consume_links 2 now at_uri commit i links s =
  (let l := link_messages at_uri commit i links in
   mkSinks (instant s ++ l.*2)
     (DelayQueue.mkQueue (DelayQueue.queue (delayed s) ++ ((λ e, (now e.1, (at_uri, e.1))) <$> l))
       (foldl (λ m e, <[(at_uri, e.1) := e.2]> m) (DelayQueue.items (delayed s)) l)),
   None).
Proof.
  revert i s; induction links as [|link links IH]; intros i s; simpl.
  { rewrite !app_nil_r. by destruct s as [? []]. }
  destruct (decide (MAX_LINKS_PER_EVENT ≤ i)); simpl.
  { rewrite !app_nil_r. by destruct s as [? []]. }
  destruct (new_link link at_uri commit) as [m|]; simpl; [|by apply IH].
  rewrite IH. simpl. by rewrite <- !app_assoc.
Qed.

Lemma link_messages_pos at_uri commit i links j m :
  (j, m) ∈ link_messages at_uri commit i links ↔
  i ≤ j < MAX_LINKS_PER_EVENT ∧ ∃ link, links !! (j - i) = Some link ∧ new_link link at_uri commit = Some m.
Proof.
  revert i; induction links as [|link links IH]; intros i; simpl.
  { rewrite elem_of_nil. split; [done|]. by intros [_ (link & Hl & _)]. }
  case_decide as Hi; [rewrite elem_of_nil; split; [done|lia]|].
  rewrite elem_of_app, IH. split.
  - intros [Hin|(Hj & link' & Hl & Hm)].
    + destruct (new_link link at_uri commit) as [m'|] eqn:E; [|by apply not_elem_of_nil in Hin].
      simpl in Hin. apply list_elem_of_singleton in Hin as [= -> ->]. split; [lia|].
      exists link. by rewrite Nat.sub_diag.
    + split; [lia|]. exists link'. split; [|done]. by replace (j - i) with (S (j - S i)) by lia.
  - intros (Hj & link' & Hl & Hm). destruct (decide (j = i)) as [->|Hne].
    + left. rewrite Nat.sub_diag in Hl. injection Hl as ->. rewrite Hm. by left.
    + right. split; [lia|]. exists link'. split; [|done]. by replace (j - i) with (S (j - S i)) in Hl by lia.
Qed.

Lemma link_messages_keys at_uri commit i links :
  NoDup (link_messages at_uri commit i links).*1.
Proof.
  revert i; induction links as [|link links IH]; intros i; simpl; [constructor|].
  case_decide; [constructor|]. rewrite fmap_app. apply NoDup_app. split_and!; [|intros j|apply IH].
  - destruct (new_link link at_uri commit); simpl; [apply NoDup_singleton|constructor].
  - intros Hj ([j' m] & -> & Hin)%list_elem_of_fmap. apply link_messages_pos in Hin as [Hin _].
    destruct (new_link link at_uri commit); simpl in Hj; [|by apply not_elem_of_nil in Hj].
    apply list_elem_of_singleton in Hj. simpl in *. lia.
Qed.

Lemma foldl_insert_keys (at_uri : string) (l : list (nat * ClientMessage)) (m : gmap LinkKey ClientMessage) (k : LinkKey) :
  NoDup l.*1 →
  foldl (λ m e, <[(at_uri, e.1) := e.2]> m) m l !! k =
  if decide (k.1 = at_uri) then from_option Some (m !! k) ((list_to_map l : gmap nat ClientMessage) !! k.2)
  else m !! k.
Proof.
  revert m; induction l as [|[i x] l IH]; intros m Hnd; simpl.
  { rewrite lookup_empty. by case_decide. }
  apply NoDup_cons in Hnd as [Hi Hnd]. simpl in Hi. rewrite IH by done. destruct k as [u j]. simpl.
  destruct (decide (u = at_uri)) as [->|Hu]; [|by rewrite lookup_insert_ne by congruence].
  destruct (decide (i = j)) as [->|Hne].
  - by rewrite !lookup_insert_eq, (not_elem_of_list_to_map_1 l j).
  - by rewrite !lookup_insert_ne by congruence.
Qed.

(** A create or an update whose record parses: every one of its first hundred
    links that serializes becomes a message, in the order of the links, for the
    instant subscribers; the same message is in the delay queue under the
    record and the position of the link.  Positions beyond the links of the
    record, and other records, stay as they were: the links that an update drops
    remain queued. *)
Theorem consume_commit_spec now event commit s jv :
  ev_kind event = KCommit → ev_commit event = Some commit → ce_operation commit ≠ OpDelete →
  ce_record commit ≫= parse_json = Some jv →
  let at_uri := event_at_uri event commit in
  let messages := link_messages at_uri commit 0 (collect_links jv) in
  ∃ s', consume_event 2 now event s = (s', None) ∧
    instant s' = instant s ++ messages.*2 ∧
    (∀ i m, (i, m) ∈ messages ↔ i < 100 ∧
       ∃ link, collect_links jv !! i = Some link ∧ new_link link at_uri commit = Some m) ∧
    (∀ i m, (i, m) ∈ messages → DelayQueue.items (delayed s') !! (at_uri, i) = Some m) ∧
    (∀ u i, u ≠ at_uri ∨ length (collect_links jv) ≤ i →
       DelayQueue.items (delayed s') !! (u, i) = DelayQueue.items (delayed s) !! (u, i)).
Proof.
  intros Hk Hc Hop Hr at_uri messages. unfold consume_event. rewrite Hk, Hc, Hr.
  assert (Hpos : ∀ i m, (i, m) ∈ messages ↔ i < 100 ∧
       ∃ link, collect_links jv !! i = Some link ∧ new_link link at_uri commit = Some m).
  { intros i m. unfold messages. rewrite link_messages_pos, Nat.sub_0_r. unfold MAX_LINKS_PER_EVENT.
    naive_solver lia. }
  exists (mkSinks (instant s ++ messages.*2)
     (DelayQueue.mkQueue (DelayQueue.queue (delayed s) ++ ((λ e, (now e.1, (at_uri, e.1))) <$> messages))
       (foldl (λ m e, <[(at_uri, e.1) := e.2]> m) (DelayQueue.items (delayed s)) messages))).
  split_and!.
  - pose proof (consume_links_Ok now at_uri commit 0 (collect_links jv) s) as Hl. by destruct (ce_operation commit).
  - done.
  - done.
  - intros i m Hin. cbn [delayed DelayQueue.items]. rewrite foldl_insert_keys by apply link_messages_keys.
    simpl. rewrite decide_True by done.
    rewrite (elem_of_list_to_map_1 _ i m); [done|apply link_messages_keys|done].
  - intros u i Hu. cbn [delayed DelayQueue.items]. rewrite foldl_insert_keys by apply link_messages_keys.
    simpl. case_decide as Eu; [|done]. destruct Hu as [?|Hi]; [done|].
    rewrite not_elem_of_list_to_map_1; [done|].
    intros ([j m] & -> & Hin)%list_elem_of_fmap. apply Hpos in Hin as (_ & link & Hl & _).
    apply lookup_lt_Some in Hl. simpl in *. lia.
Qed.

(** ** The server's two outputs *)

(** Consumer and delay task together: what instant subscribers got, and the
    queue with what delayed subscribers got. *)
Record Server : Type := mkServer {
  srv_instant : list ClientMessage;
  srv_sys : DelayQueue.System LinkKey ClientMessage
}.

Inductive Action : Type :=
  | ActEvent (now : nat → Z) (event : JetstreamEvent)
  | ActPoll (now : Z).

Definition server_start : Server := mkServer [] DelayQueue.system_start.

Definition act (delay : Z) (s : Server) (a : Action) : Server :=
  let sys := srv_sys s in
  match a with
  | ActEvent now event =>
      let s' := (consume_event (DelayQueue.strong_count sys) now event
                   (mkSinks (srv_instant s) (DelayQueue.sys_q sys))).1 in
      mkServer (instant s') (DelayQueue.with_q (delayed s') sys)
  | ActPoll now => mkServer (srv_instant s) (DelayQueue.to_broadcast_poll delay now sys)
  end.

Definition acts (delay : Z) (l : list Action) : Server := foldl (act delay) server_start l.

(** The messages of an event, with their positions. *)
Definition event_messages (event : JetstreamEvent) : list (nat * ClientMessage) :=
  match ev_kind event, ev_commit event with
  | KCommit, Some commit =>
      match ce_operation commit with
      | OpDelete => []
      | _ => match ce_record commit ≫= parse_json with
             | None => []
             | Some jv => link_messages (event_at_uri event commit) commit 0 (collect_links jv)
             end
      end
  | _, _ => []
  end.

Definition event_uri (event : JetstreamEvent) : option string := event_at_uri event <$> ev_commit event.

(** The event deletes the record [uri]. *)
Definition deletes (uri : string) (event : JetstreamEvent) : Prop :=
  ev_kind event = KCommit ∧ ∃ commit, ev_commit event = Some commit ∧
    ce_operation commit = OpDelete ∧ event_at_uri event commit = uri.

(** What an action does to the queue. *)
Definition queue_events (a : Action) : list (DelayQueue.Event LinkKey ClientMessage) :=
  match a with
  | ActPoll now => [DelayQueue.EvPoll now]
  | ActEvent now event =>
      match ev_kind event, ev_commit event with
      | KCommit, Some commit =>
          let at_uri := event_at_uri event commit in
          match ce_operation commit with
          | OpDelete => [DelayQueue.EvRemove (range_inclusive (at_uri, 0) (at_uri, MAX_LINKS_PER_EVENT))]
          | _ => (λ e, DelayQueue.EvEnqueue (now e.1) (at_uri, e.1) e.2) <$> event_messages event
          end
      | _, _ => []
      end
  end.

(** Both ends are alive and the reader has not ended. *)
Definition live (s : DelayQueue.System LinkKey ClientMessage) : Prop :=
  DelayQueue.sys_input s = true ∧ DelayQueue.sys_output s = true ∧ DelayQueue.sys_out s ≠ DelayQueue.Ended.

Lemma live_poll delay now s : live s → live (DelayQueue.to_broadcast_poll delay now s).
Proof.
  intros (Hi & Ho & Hn). unfold DelayQueue.to_broadcast_poll, DelayQueue.poll_next, DelayQueue.next_turn, DelayQueue.strong_count.
  rewrite Hi, Ho. simpl.
  destruct (DelayQueue.sys_out s); simpl; try (case_decide; simpl; [|by repeat split]);
    try (by repeat split); try done;
    destruct (DelayQueue.get (DelayQueue.sys_q s)) as [[[t v]|] q]; try case_decide; by repeat split.
Qed.

Lemma run_enqueues delay now at_uri (l : list (nat * ClientMessage)) s :
  live s →
  DelayQueue.run delay s ((λ e, DelayQueue.EvEnqueue (now e.1) (at_uri, e.1) e.2) <$> l) =
  Some (DelayQueue.with_q (DelayQueue.mkQueue
    (DelayQueue.queue (DelayQueue.sys_q s) ++ ((λ e, (now e.1, (at_uri, e.1))) <$> l))
    (foldl (λ m e, <[(at_uri, e.1) := e.2]> m) (DelayQueue.items (DelayQueue.sys_q s)) l)) s).
Proof.
  revert s; induction l as [|[i m] l IH]; intros s (Hi & Ho & Hn); simpl.
  { rewrite app_nil_r. by destruct s as [[]]. }
  unfold DelayQueue.run. simpl. unfold DelayQueue.enqueue, DelayQueue.strong_count. rewrite Hi, Ho. simpl.
  etrans; [apply IH; by repeat split|]. simpl. by rewrite <- app_assoc.
Qed.

(** An action is the run of its queue events. *)
Lemma act_run delay s a :
  live (srv_sys s) →
  live (srv_sys (act delay s a)) ∧ DelayQueue.run delay (srv_sys s) (queue_events a) = Some (srv_sys (act delay s a)) ∧
  srv_instant (act delay s a) =
    srv_instant s ++ match a with ActEvent _ event => (event_messages event).*2 | ActPoll _ => [] end.
Proof.
  intros Hl. pose proof Hl as (Hi & Ho & Hn). destruct a as [now event|now]; simpl.
  2:{ split_and!; [by apply live_poll| |by rewrite app_nil_r]. unfold DelayQueue.run. simpl. by rewrite Ho. }
  unfold consume_event, event_messages, DelayQueue.strong_count. rewrite Hi, Ho. cbn [Nat.b2n Nat.add].
  assert (Hsame : DelayQueue.run delay (srv_sys s) [] = Some (DelayQueue.with_q (DelayQueue.sys_q (srv_sys s)) (srv_sys s)))
    by (unfold DelayQueue.run; simpl; by destruct (srv_sys s)).
  destruct (ev_kind event); [|split_and!; [done|done|by rewrite app_nil_r]..].
  destruct (ev_commit event) as [commit|]; [|split_and!; [done|done|by rewrite app_nil_r]].
  assert (Hlinks : ∀ r, let s' := (match r with
      | None => (mkSinks (srv_instant s) (DelayQueue.sys_q (srv_sys s)), None)
      | Some jv => consume_links 2 now (event_at_uri event commit) commit 0 (collect_links jv)
                     (mkSinks (srv_instant s) (DelayQueue.sys_q (srv_sys s)))
      end).1 in
    let l := match r with None => [] | Some jv => link_messages (event_at_uri event commit) commit 0 (collect_links jv) end in
    live (DelayQueue.with_q (delayed s') (srv_sys s)) ∧
    DelayQueue.run delay (srv_sys s)
      ((λ e, DelayQueue.EvEnqueue (now e.1) (event_at_uri event commit, e.1) e.2) <$> l) =
      Some (DelayQueue.with_q (delayed s') (srv_sys s)) ∧ instant s' = srv_instant s ++ l.*2).
  { intros [jv|]; cbv zeta; [|split_and!; [done|done|simpl; by rewrite app_nil_r]].
    rewrite consume_links_Ok. cbn [fst delayed instant]. split_and!; [done|by apply run_enqueues|done]. }
  destruct (ce_operation commit); [apply Hlinks|apply Hlinks|].
  split_and!; [done| |by rewrite app_nil_r]. unfold DelayQueue.run. simpl. by rewrite Hi.
Qed.

Lemma acts_run delay l :
  live (srv_sys (acts delay l)) ∧
  DelayQueue.run delay DelayQueue.system_start (flat_map queue_events l) = Some (srv_sys (acts delay l)) ∧
  srv_instant (acts delay l) =
    flat_map (λ a, match a with ActEvent _ event => (event_messages event).*2 | ActPoll _ => [] end) l.
Proof.
  induction l as [|a l (Hl & Hr & Hi)] using rev_ind; [by repeat split|].
  unfold acts in *. rewrite foldl_app, !flat_map_app. cbn [foldl flat_map].
  destruct (act_run delay _ a Hl) as (Hl' & Hr' & Hi'). split_and!; [done| |by rewrite Hi', Hi, app_nil_r].
  unfold DelayQueue.run in *. rewrite foldl_opt_app, Hr. simpl. by rewrite app_nil_r.
Qed.

(** What an action puts into the queue, and when it spares a key. *)
Lemma queue_events_enqueue a now k m :
  DelayQueue.EvEnqueue now k m ∈ queue_events a →
  ∃ clock event uri, a = ActEvent clock event ∧ event_uri event = Some uri ∧ k.1 = uri ∧ now = clock k.2 ∧
    (k.2, m) ∈ event_messages event ∧ Forall (λ e, ∃ n k v, e = DelayQueue.EvEnqueue n k v) (queue_events a).
Proof.
  destruct a as [clock event|now']; simpl; [|by intros [?|?%not_elem_of_nil]%elem_of_cons].
  destruct (ev_kind event); [|by intros ?%not_elem_of_nil..].
  destruct (ev_commit event) as [commit|] eqn:Hc; [|by intros ?%not_elem_of_nil].
  assert (Hmap : DelayQueue.EvEnqueue now k m ∈
    ((λ e, DelayQueue.EvEnqueue (clock e.1) (event_at_uri event commit, e.1) e.2) <$> event_messages event) →
    ∃ clock0 event0 uri, ActEvent clock event = ActEvent clock0 event0 ∧ event_uri event0 = Some uri ∧ k.1 = uri ∧
      now = clock0 k.2 ∧ (k.2, m) ∈ event_messages event0 ∧
      Forall (λ e, ∃ n k v, e = DelayQueue.EvEnqueue n k v)
        ((λ e, DelayQueue.EvEnqueue (clock e.1) (event_at_uri event commit, e.1) e.2) <$> event_messages event)).
  { intros ([i m'] & [= -> -> ->] & Hin)%list_elem_of_fmap. exists clock, event, (event_at_uri event commit).
    split_and!; [done|unfold event_uri; by rewrite Hc|done|done|done|].
    apply Forall_fmap, Forall_forall. intros e _. by eexists _, _, _. }
  destruct (ce_operation commit); [apply Hmap|apply Hmap|by intros [?|?%not_elem_of_nil]%elem_of_cons].
Qed.

Lemma spared_not_deleted uri i a :
  i < MAX_LINKS_PER_EVENT → Forall (DelayQueue.leaves_alone (uri, i)) (queue_events a) →
  match a with ActEvent _ e => ¬ deletes uri e | ActPoll _ => True end.
Proof.
  intros Hi Ha. destruct a as [now event|]; [|done]. intros (Hk & commit & Hc & Hop & Hu).
  simpl in Ha. rewrite Hk, Hc, Hop in Ha. apply Forall_cons in Ha as [Ha _]. cbn [DelayQueue.leaves_alone] in Ha.
  assert (Hr : range_inclusive (event_at_uri event commit, 0) (event_at_uri event commit, MAX_LINKS_PER_EVENT) (uri, i) = true)
    by (apply range_inclusive_record; simpl; split; [done|lia]). congruence.
Qed.

Lemma event_messages_pos event i m : (i, m) ∈ event_messages event → i < MAX_LINKS_PER_EVENT.
Proof.
  unfold event_messages. destruct (ev_kind event), (ev_commit event) as [commit|]; try by intros ?%not_elem_of_nil.
  destruct (ce_operation commit), (ce_record commit ≫= parse_json); try (by intros ?%not_elem_of_nil);
    intros [Hi _]%link_messages_pos; lia.
Qed.

Lemma enqueues_before_poll (b x es2 es3 : list (DelayQueue.Event LinkKey ClientMessage)) p :
  Forall (λ e, ∃ n k v, e = DelayQueue.EvEnqueue n k v) b →
  b ++ x = es2 ++ DelayQueue.EvPoll p :: es3 →
  ∃ es2', es2 = b ++ es2' ∧ x = es2' ++ DelayQueue.EvPoll p :: es3.
Proof.
  intros Hb; revert es2; induction Hb as [|e b (n & k & v & ->) Hb IH]; intros es2 E; simpl in *; [by exists es2|].
  destruct es2 as [|e es2]; [done|]. injection E as <- E. destruct (IH _ E) as (es2' & -> & ->). by exists es2'.
Qed.

Lemma queue_events_poll a p : DelayQueue.EvPoll p ∈ queue_events a → a = ActPoll p.
Proof.
  destruct a as [now event|now]; simpl.
  - destruct (ev_kind event), (ev_commit event) as [commit|]; try by intros ?%not_elem_of_nil.
    destruct (ce_operation commit); [by intros (? & ? & ?)%list_elem_of_fmap..|].
    by intros [?|?%not_elem_of_nil]%elem_of_cons.
  - by intros [[= ->]|?%not_elem_of_nil]%elem_of_cons.
Qed.

(** Where a message that was sent comes from. *)
Lemma sent_origin delay l t m :
  (t, m) ∈ DelayQueue.sys_sent (srv_sys (acts delay l)) →
  ∃ l1 now event l2 poll l3 i uri,
    l = l1 ++ ActEvent now event :: l2 ++ ActPoll poll :: l3 ∧
    event_uri event = Some uri ∧ (i, m) ∈ event_messages event ∧
    Forall (λ a, match a with ActEvent _ e => ¬ deletes uri e | ActPoll _ => True end) l2 ∧
    (∃ now0 event0, ActEvent now0 event0 ∈ l1 ++ [ActEvent now event] ∧ event_uri event0 = Some uri ∧
       now0 i + delay - DelayQueue.ONE_MILLI ≤ t)%Z.
Proof.
  destruct (acts_run delay l) as (_ & Hrun & _). intros Hsent.
  destruct (DelayQueue.tr_sent _ _ _ (DelayQueue.traced_run _ _ _ Hrun) _ _ Hsent) as (r & Ht & Hr).
  destruct Ht as (k & es1 & now & es2 & p & es3 & t0 & v0 & Hes & Hfree & Hin0 & -> & _).
  apply flat_map_split in Hes as (l1 & y & l2' & a2 & b1 & Hl & Hy & Ha & Hb).
  assert (Hin : DelayQueue.EvEnqueue now k m ∈ queue_events y) by (rewrite Hy; apply elem_of_app; right; by left).
  apply queue_events_enqueue in Hin as (clock & event & uri & -> & Hu & Hk & -> & Hm & Hall).
  rewrite Hy in Hall. apply Forall_app in Hall as [_ Hall]. apply Forall_cons in Hall as [_ Hall].
  symmetry in Hb. apply (enqueues_before_poll _ _ _ _ _ Hall) in Hb as (es2' & -> & Hx).
  apply Forall_app in Hfree as [_ Hfree].
  apply flat_map_split in Hx as (l2 & y2 & l3 & a2' & b1' & -> & Hy2 & -> & _).
  assert (y2 = ActPoll p) as -> by (apply queue_events_poll; rewrite Hy2; apply elem_of_app; right; by left).
  apply Forall_app in Hfree as [Hfree _]. destruct k as [u i]. simpl in Hk. subst u.
  exists l1, clock, event, l2, p, l3, i, uri. split_and!; [done|done|done| |].
  - rewrite Forall_forall in Hfree. apply Forall_forall. intros x Hx.
    apply (spared_not_deleted uri i); [by apply event_messages_pos in Hm|].
    apply Forall_forall. intros e He. apply Hfree, elem_of_flat_map. eauto.
  - assert (Hin : DelayQueue.EvEnqueue t0 (uri, i) v0 ∈ flat_map queue_events (l1 ++ [ActEvent clock event])).
    { rewrite flat_map_app. simpl. rewrite app_nil_r. fold (queue_events (ActEvent clock event)). rewrite Hy.
      subst es1. apply elem_of_app in Hin0 as [Hin0|Hin0].
      - apply elem_of_app in Hin0 as [?|?]; apply elem_of_app; [by left|right; apply elem_of_app; by left].
      - apply list_elem_of_singleton in Hin0. rewrite Hin0. apply elem_of_app. right. apply elem_of_app. right. by left. }
    apply elem_of_flat_map in Hin as (y & Hyin & Hin).
    apply queue_events_enqueue in Hin as (clock0 & event0 & uri0 & -> & Hu0 & Hk0 & -> & _). simpl in *. subst uri0.
    exists clock0, event0. split_and!; [done|done|lia].
Qed.

(** Delivery to delayed subscribers, over every interleaving of events and of
    the delay task: a message sent is that of a link of some event, and between
    that event and the moment the delay task took the message off the queue no
    event deleted its record; it is sent no earlier than a millisecond before
    the delay has passed since that event, or since an earlier event of the
    same record.  Instant subscribers get every message at once. *)
Theorem delayed_links_not_deleted delay l t m :
  (t, m) ∈ DelayQueue.sys_sent (srv_sys (acts delay l)) →
  ∃ l1 now event l2 poll l3 i uri,
    l = l1 ++ ActEvent now event :: l2 ++ ActPoll poll :: l3 ∧
    event_uri event = Some uri ∧ (i, m) ∈ event_messages event ∧
    Forall (λ a, match a with ActEvent _ e => ¬ deletes uri e | ActPoll _ => True end) l2 ∧
    (∃ now0 event0, ActEvent now0 event0 ∈ l1 ++ [ActEvent now event] ∧ event_uri event0 = Some uri ∧
       now0 i + delay - DelayQueue.ONE_MILLI ≤ t)%Z ∧
    m ∈ srv_instant (acts delay l).
Proof.
  intros (l1 & now & event & l2 & poll & l3 & i & uri & Hl & Hu & Hm & Hd & Ht)%sent_origin.
  exists l1, now, event, l2, poll, l3, i, uri. split_and!; try done.
  destruct (acts_run delay l) as (_ & _ & ->). rewrite Hl. apply elem_of_flat_map. exists (ActEvent now event).
  split; [apply elem_of_app; right; by left|]. apply (list_elem_of_fmap_2 snd _ _ Hm).
Qed.

End Consumer.

(** ** A concrete run *)

#[local] Instance no_uri : FluentUri := { uri_parse_normalized _ := None; uri_ref_resolved_path _ := None }.

Definition plain_json (e : ClientEvent) : option string :=
  Some (cl_source (cl_link e) +:+ " " +:+ cl_subject (cl_link e)).
Definition follow_record (s : string) : option JsonValue := Some (JObject [("subject", JString s)]).

Definition follow_commit (rkey : string) (op : CommitOp) : CommitEvent :=
  mkCommitEvent (mkNsid "app.follow") (mkRecordKey rkey) "rev" op
    (match op with OpDelete => None | _ => Some "did:plc:b" end) None.
Definition follow_event (rkey : string) (op : CommitOp) : JetstreamEvent :=
  mkEvent (mkCursor 1) (mkDid "did:plc:a") KCommit (Some (follow_commit rkey op)) None.
Definition follow_message : ClientMessage :=
  mkClientMessage "app.follow:subject did:plc:b" (mkProperties "did:plc:b" (Some "did:plc:b") "app.follow:subject").

Lemma consume_commit_spec_witness :
  ∃ s', consume_event plain_json follow_record 2 (λ _, 5%Z) (follow_event "r" OpCreate)
          (mkSinks [] DelayQueue.removable_delay_queue) = (s', None) ∧ instant s' = [follow_message].
Proof.
  destruct (consume_commit_spec plain_json follow_record (λ _, 5%Z) (follow_event "r" OpCreate)
    (follow_commit "r" OpCreate) (mkSinks [] DelayQueue.removable_delay_queue)
    (JObject [("subject", JString "did:plc:b")])) as (s' & Hs & Hi & _); [done|done|done|done|].
  exists s'. split; [exact Hs|]. rewrite Hi. vm_compute. reflexivity.
Defined.

(** Two follows, one of them undone before the delay task looks: only the other
    one is sent, after the delay. *)
Definition follow_acts : list Action :=
  [ActEvent (λ _, 0%Z) (follow_event "r" OpCreate); ActEvent (λ _, 1%Z) (follow_event "s" OpCreate);
   ActEvent (λ _, 2%Z) (follow_event "r" OpDelete); ActPoll 3; ActPoll 21_000_000_001].

Lemma delayed_links_not_deleted_witness :
  DelayQueue.sys_sent (srv_sys (acts plain_json follow_record 21_000_000_000 follow_acts)) =
    [(21_000_000_001%Z, follow_message)] ∧
  follow_message ∈ srv_instant (acts plain_json follow_record 21_000_000_000 follow_acts).
Proof.
  assert (Hs : DelayQueue.sys_sent (srv_sys (acts plain_json follow_record 21_000_000_000 follow_acts)) =
    [(21_000_000_001%Z, follow_message)]) by (vm_compute; reflexivity).
  split; [exact Hs|].
  destruct (delayed_links_not_deleted plain_json follow_record 21_000_000_000 follow_acts
    21_000_000_001%Z follow_message) as (l1 & now & e & l2 & p & l3 & i & u & _ & _ & _ & _ & _ & Hin);
    [rewrite Hs; by left|exact Hin].
Defined.

End Spacedust.
