(* ===== verification/SpacedustSubscriber.v ===== *)
(** * spacedust: subscribers (spacedust/src/subscriber.rs, server.rs)

    A subscriber filters the links of its broadcast by its query, answers and
    sends pings, and takes updates of the query from the client.  Its loop is a
    state machine over what [select!] can choose.  The theorems say which links
    are delivered, which updates of the query are taken, and that a client that
    stops answering pings is dropped. *)

From S2P Require Import Prelude SpacedustConsumer.

(** server.rs *)
Record MultiSubscribeQuery : Type := mkQuery {
  wanted_subjects : gset string;
  wanted_subject_dids : gset string;
  wanted_sources : gset string
}.

Record ScalarSubscribeQuery : Type := mkScalarQuery { sq_instant : bool }.

Inductive SubscriberUpdateError : Type :=
  | FailedToParseMessage
  | TooManySourcesWanted
  | TooManyDidsWanted
  | TooManySubjectsWanted.

(** Messages of the websocket. *)
Inductive Message : Type :=
  | Text (s : string)
  | Binary (s : string)
  | Ping (s : string)
  | Pong (s : string)
  | Close.

Module Subscriber.
Section Subscriber.
(** serde_json's parser for [SubscriberSourcedMessage::OptionsUpdate]. *)
Context (parse_update : string → option MultiSubscribeQuery).

Definition filter (query : MultiSubscribeQuery) (p : FilterableProperties) : bool :=
  if negb ((bool_decide (wanted_subjects query = ∅) && bool_decide (wanted_subject_dids query = ∅))
      || bool_decide (subject p ∈ wanted_subjects query)
      || match subject_did p with
         | Some did => bool_decide (did ∈ wanted_subject_dids query)
         | None => false
         end)
  then false
  else if negb (bool_decide (wanted_sources query = ∅) || bool_decide (source p ∈ wanted_sources query))
  then false
  else true.

Definition update_from_raw (self : MultiSubscribeQuery) (s : string)
    : result SubscriberUpdateError MultiSubscribeQuery :=
  match parse_update s with
  | None => Err FailedToParseMessage
  | Some opts =>
      if decide (1000 < size (wanted_sources opts))%nat then Err TooManySourcesWanted
      else if decide (N.to_nat 10000 < size (wanted_subject_dids opts))%nat then Err TooManyDidsWanted
      else if decide (N.to_nat 50000 < size (wanted_subjects opts))%nat then Err TooManySubjectsWanted
      else Ok opts
  end.

(** ** The loop of [start] *)

Record Subscriber : Type := mkSubscriber {
  query : MultiSubscribeQuery;
  cancelled : bool;
  ping_state : option string;
  sent : list Message;
  running : bool
}.

Definition new (query : MultiSubscribeQuery) : Subscriber := mkSubscriber query false None [] true.

Definition cancel (s : Subscriber) : Subscriber :=
  mkSubscriber (query s) true (ping_state s) (sent s) (running s).
Definition break (s : Subscriber) : Subscriber :=
  mkSubscriber (query s) (cancelled s) (ping_state s) (sent s) false.
Definition send (m : Message) (s : Subscriber) : Subscriber :=
  mkSubscriber (query s) (cancelled s) (ping_state s) (sent s ++ [m]) (running s).
Definition set_ping (p : option string) (s : Subscriber) : Subscriber :=
  mkSubscriber (query s) (cancelled s) p (sent s) (running s).
Definition set_query (q : MultiSubscribeQuery) (s : Subscriber) : Subscriber :=
  mkSubscriber q (cancelled s) (ping_state s) (sent s) (running s).

(** What an arm of [select!] gets, with whether the sends it makes succeed, and
    the cancellation of the token by the server. *)
Inductive Input : Type :=
  | Link (link : ClientMessage) (send_ok : bool)
  | BroadcastClosed
  | BroadcastLagged (n : nat)
  | FromClient (m : Message) (send_ok : bool)
  | ClientError
  | ClientEnd
  | PingTick (new_state : string) (send_ok : bool)
  | ShutdownSeen
  | ServerShutdown.

Definition handle (s : Subscriber) (i : Input) : Subscriber :=
  match i with
  | Link link ok =>
      if filter (query s) (properties link)
      then if ok then send (Text (message link)) s else break s
      else s
  | BroadcastClosed => cancel s
  | BroadcastLagged _ => cancel s
  | FromClient (Ping state) ok => if ok then send (Pong state) s else break s
  | FromClient (Pong state) _ =>
      match ping_state s with
      | Some expected_state =>
          if bool_decide (state = expected_state) then set_ping None s else cancel s
      | None => cancel s
      end
  | FromClient (Text raw) _ =>
      match update_from_raw (query s) raw with
      | Ok q => set_query q s
      | Err _ => cancel s
      end
  | FromClient _ _ => s
  | ClientError => break s
  | ClientEnd => break s
  | PingTick new_state ok =>
      match ping_state s with
      | Some _ => cancel s
      | None =>
          let s := set_ping (Some new_state) s in
          if ok then send (Ping new_state) s else cancel s
      end
  | ShutdownSeen => if cancelled s then break s else s
  | ServerShutdown => cancel s
  end.

Definition step (s : Subscriber) (i : Input) : Subscriber := if running s then handle s i else s.
Definition start (q : MultiSubscribeQuery) (ins : list Input) : Subscriber := foldl step (new q) ins.

(** ** server.rs: [subscribe] *)

Definition subscription {B} (b d : B) (q : ScalarSubscribeQuery) : B := if sq_instant q then b else d.

(** ** What is delivered *)

(** The documented meaning of a query: subjects and subject DIDs are
    alternatives, sources are a further condition, and no wish means any. *)
Definition matches (q : MultiSubscribeQuery) (p : FilterableProperties) : Prop :=
  (wanted_subjects q = ∅ ∧ wanted_subject_dids q = ∅ ∨
   subject p ∈ wanted_subjects q ∨
   ∃ did, subject_did p = Some did ∧ did ∈ wanted_subject_dids q) ∧
  (wanted_sources q = ∅ ∨ source p ∈ wanted_sources q).

Lemma filter_matches q p : filter q p = true ↔ matches q p.
Proof.
  clear parse_update. unfold filter, matches. destruct (subject_did p) as [d|]; repeat case_bool_decide; simpl; naive_solver.
Qed.

Definition texts (l : list Message) : list string := omap (λ m, match m with Text s => Some s | _ => None end) l.

(** Inputs that neither end the loop nor change the query. *)
Definition steady (i : Input) : bool :=
  match i with
  | Link _ ok | FromClient (Ping _) ok => ok
  | FromClient (Text _) _ | ClientError | ClientEnd | ShutdownSeen => false
  | _ => true
  end.

Definition delivered (q : MultiSubscribeQuery) (i : Input) : option string :=
  match i with
  | Link link true => if filter q (properties link) then Some (message link) else None
  | _ => None
  end.

Lemma texts_app l1 l2 : texts (l1 ++ l2) = texts l1 ++ texts l2.
Proof. apply omap_app. Qed.

(** One input: at most the link is delivered, by the query in force. *)
Lemma step_texts s i :
  texts (sent (step s i)) = texts (sent s) ++ (if running s then option_list (delivered (query s) i) else []).
Proof.
  unfold step. destruct (running s); [|by rewrite app_nil_r].
  destruct i as [link ok| |n|m ok| | |p ok| |]; simpl; rewrite ?app_nil_r; try done.
  - destruct (filter _ _), ok; simpl; rewrite ?texts_app, ?app_nil_r; done.
  - destruct m as [raw| |p|p|]; simpl; rewrite ?app_nil_r; try done.
    + by destruct (update_from_raw (query s) raw).
    + destruct ok; simpl; rewrite ?texts_app, ?app_nil_r; done.
    + destruct (ping_state s); [|done]. by case_bool_decide.
  - destruct (ping_state s), ok; simpl; rewrite ?texts_app, ?app_nil_r; done.
  - by destruct (cancelled s).
Qed.

Lemma step_steady s i :
  steady i = true → running s = true → running (step s i) = true ∧ query (step s i) = query s.
Proof.
  intros Hi Hr. unfold step. rewrite Hr.
  destruct i as [link ok| |n|m ok| | |p ok| |]; simpl in *; try done.
  - destruct (filter _ _); [|done]. by rewrite Hi.
  - destruct m; simpl in *; try done; [by rewrite Hi|]. destruct (ping_state s); [|done]. by case_bool_decide.
  - destruct (ping_state s); [done|]. by destruct ok.
Qed.

Lemma start_steady q ins :
  Forall (λ i, steady i = true) ins →
  running (start q ins) = true ∧ query (start q ins) = q ∧ texts (sent (start q ins)) = omap (delivered q) ins.
Proof.
  unfold start. induction ins as [|i ins IH] using rev_ind; [done|].
  intros [His [Hi _]%Forall_cons]%Forall_app. rewrite foldl_app. cbn [foldl].
  destruct (IH His) as (Hr & Hq & Ht). destruct (step_steady _ i Hi Hr) as [Hr' Hq'].
  split_and!; [done|congruence|]. rewrite step_texts, Hr, Hq, Ht, omap_app. simpl. by destruct (delivered q i).
Qed.

Lemma start_texts q ins t :
  t ∈ texts (sent (start q ins)) →
  ∃ is1 link is2, ins = is1 ++ Link link true :: is2 ∧ t = message link ∧
    filter (query (start q is1)) (properties link) = true.
Proof.
  induction ins as [|i ins IH] using rev_ind; [by intros ?%not_elem_of_nil|].
  unfold start. rewrite foldl_app. cbn [foldl]. rewrite step_texts. fold (start q ins). intros [Hin|Hin]%elem_of_app.
  - destruct (IH Hin) as (is1 & link & is2 & -> & Ht & Hf). exists is1, link, (is2 ++ [i]).
    split; [by rewrite <- app_assoc|done].
  - destruct (running (start q ins)); [|by apply not_elem_of_nil in Hin].
    destruct (delivered (query (start q ins)) i) as [t'|] eqn:Hd; [|by apply not_elem_of_nil in Hin].
    apply list_elem_of_singleton in Hin as ->. unfold delivered in Hd.
    destruct i as [link []| | | | | | | |]; try done. exists ins, link, [].
    destruct (filter _ _) eqn:Hf; [|done]. by injection Hd as ->.
Qed.

(** A subscriber delivers the links that its query asks for.  While the query
    stays, nothing ends the connection and sends succeed, exactly the received
    links that match are delivered, in the order received.  In every run, a
    text that was delivered is the message of a received link that matched the
    query in force when it was received. *)
Theorem subscriber_delivers q ins :
  (Forall (λ i, steady i = true) ins →
   texts (sent (start q ins)) = omap (λ i, match i with
     | Link link true => if filter q (properties link) then Some (message link) else None
     | _ => None
     end) ins) ∧
  (∀ t, t ∈ texts (sent (start q ins)) →
   ∃ is1 link is2, ins = is1 ++ Link link true :: is2 ∧ t = message link ∧
     matches (query (start q is1)) (properties link)).
Proof.
  split.
  - intros His. apply (start_steady q ins His).
  - intros t Ht. apply start_texts in Ht as (is1 & link & is2 & Hi & Hm & Hf).
    exists is1, link, is2. split_and!; [done|done|by apply filter_matches].
Qed.

(** ** The query stays within its limits *)

Definition within_limits (q : MultiSubscribeQuery) : Prop :=
  size (wanted_sources q) ≤ 1000 ∧ size (wanted_subject_dids q) ≤ N.to_nat 10000 ∧
  size (wanted_subjects q) ≤ N.to_nat 50000.

Lemma update_within q raw q' : update_from_raw q raw = Ok q' → within_limits q' ∧ parse_update raw = Some q'.
Proof.
  unfold update_from_raw. destruct (parse_update raw) as [o|]; [|done].
  repeat (case_decide; [done|]). intros [= <-]. unfold within_limits. split; [lia|done].
Qed.

Definition is_text (i : Input) : bool := match i with FromClient (Text _) _ => true | _ => false end.

Lemma step_query s i : is_text i = false → query (step s i) = query s.
Proof.
  intros Hi. unfold step. destruct (running s); [|done]. destruct i as [link ok| |n|m ok| | |p ok| |]; simpl in *; try done.
  - destruct (filter _ _); [|done]. by destruct ok.
  - destruct m as [raw| |p|p|]; simpl in *; try done; [by destruct ok|]. destruct (ping_state s); [|done]. by case_bool_decide.
  - destruct (ping_state s); [done|]. by destruct ok.
  - by destruct (cancelled s).
Qed.

(** An update is taken, or it is refused: it does not parse or wants too much. *)
Lemma step_update s raw ok :
  running s = true →
  (parse_update raw = Some (query (step s (FromClient (Text raw) ok))) ∧
   within_limits (query (step s (FromClient (Text raw) ok))) ∧
   cancelled (step s (FromClient (Text raw) ok)) = cancelled s) ∨
  ((∀ opts, parse_update raw = Some opts → ¬ within_limits opts) ∧
   query (step s (FromClient (Text raw) ok)) = query s ∧ cancelled (step s (FromClient (Text raw) ok)) = true).
Proof.
  intros Hr. unfold step. rewrite Hr. simpl. destruct (update_from_raw (query s) raw) as [q|e] eqn:E.
  - left. by apply update_within in E as [? ?].
  - right. split_and!; [|done|done]. intros opts Hp. revert E. unfold update_from_raw, within_limits. rewrite Hp.
    repeat (case_decide; [intros _; lia|]). done.
Qed.

(** C31. Whatever a client sends, the query in force is the one it connected
    with, which nothing checks, or one it sent as an update and that is within
    the limits.  While the subscriber runs an update is taken exactly if it
    parses and is within the limits; one that is refused leaves the query as it
    was and cancels the subscriber.  No other input changes the query. *)
Theorem query_limits q ins :
  (query (start q ins) = q ∨
   within_limits (query (start q ins)) ∧
   ∃ is1 raw ok is2, ins = is1 ++ FromClient (Text raw) ok :: is2 ∧ parse_update raw = Some (query (start q ins))) ∧
  (running (start q ins) = true → ∀ raw ok,
   let s' := start q (ins ++ [FromClient (Text raw) ok]) in
   (parse_update raw = Some (query s') ∧ within_limits (query s') ∧ cancelled s' = cancelled (start q ins)) ∨
   ((∀ opts, parse_update raw = Some opts → ¬ within_limits opts) ∧
    query s' = query (start q ins) ∧ cancelled s' = true)) ∧
  (∀ i, is_text i = false → query (start q (ins ++ [i])) = query (start q ins)).
Proof.
  split_and!.
  - induction ins as [|i ins IH] using rev_ind; [by left|]. unfold start. rewrite foldl_app. cbn [foldl]. fold (start q ins).
    assert (Hsame : query (step (start q ins) i) = query (start q ins) →
      query (step (start q ins) i) = q ∨ within_limits (query (step (start q ins) i)) ∧
      ∃ is1 raw ok is2, ins ++ [i] = is1 ++ FromClient (Text raw) ok :: is2 ∧ parse_update raw = Some (query (step (start q ins) i))).
    { intros ->. destruct IH as [IH|(Hw & is1 & raw & ok & is2 & -> & Hp)]; [by left|right; split; [done|]].
      exists is1, raw, ok, (is2 ++ [i]). by rewrite <- app_assoc. }
    destruct (is_text i) eqn:Hi; [|by apply Hsame, step_query]. destruct i as [| | |[raw| | | |] ok| | | | |]; try done.
    destruct (running (start q ins)) eqn:Hr; [|apply Hsame; unfold step; by rewrite Hr].
    destruct (step_update (start q ins) raw ok Hr) as [(Hp & Hw & _)|(_ & Hq & _)]; [|by apply Hsame].
    right. split; [done|]. by exists ins, raw, ok, [].
  - intros Hr raw ok. cbv zeta. unfold start. rewrite foldl_app. cbn [foldl]. by apply step_update.
  - intros i Hi. unfold start. rewrite foldl_app. cbn [foldl]. by apply step_query.
Qed.

(** ** Pings *)

Definition is_pong (i : Input) : bool := match i with FromClient (Pong _) _ => true | _ => false end.
Definition is_tick (i : Input) : bool := match i with PingTick _ _ => true | _ => false end.

(** Dropped: cancelled, to end at the latest when [select!] sees it, or ended. *)
Definition dropped (s : Subscriber) : Prop := cancelled s = true ∨ running s = false.

Lemma step_dropped s i : dropped s → dropped (step s i).
Proof.
  unfold dropped, step. intros [Hc|Hr]; [|rewrite Hr; by right].
  destruct (running s) eqn:Hrun; [|by right].
  destruct i as [link ok| |n|m ok| | |p ok| |]; simpl; try (by left); try (by right).
  - destruct (filter _ _), ok; simpl; auto.
  - destruct m as [raw| |p|p|]; simpl; try (by left).
    + destruct (update_from_raw (query s) raw); by left.
    + destruct ok; auto.
    + destruct (ping_state s); [|by left]. case_bool_decide; by left.
  - destruct (ping_state s), ok; by left.
  - rewrite Hc. by right.
Qed.

Lemma foldl_dropped s ins : dropped s → dropped (foldl step s ins).
Proof. revert s; induction ins as [|i ins IH]; intros s Hs; [done|]. apply IH. by apply step_dropped. Qed.

(** A ping is outstanding until a pong. *)
Lemma step_outstanding s i p :
  is_pong i = false → ping_state s = Some p → ping_state (step s i) = Some p.
Proof.
  intros Hi Hp. unfold step. destruct (running s); [|done].
  destruct i as [link ok| |n|m ok| | |p' ok| |]; simpl in *; try done.
  - destruct (filter _ _), ok; done.
  - destruct m as [raw| |p'|p'|]; simpl; try done; [by destruct (update_from_raw (query s) raw)|by destruct ok].
  - by rewrite Hp.
  - by destruct (cancelled s).
Qed.

Lemma foldl_outstanding s ins p :
  Forall (λ i, is_pong i = false) ins → ping_state s = Some p → ping_state (foldl step s ins) = Some p.
Proof.
  revert s; induction ins as [|i ins IH]; intros s His Hp; [done|]. apply Forall_cons in His as [Hi His].
  simpl. apply IH; [done|]. by apply step_outstanding.
Qed.

Lemma tick_outstanding s i : is_tick i = true → is_Some (ping_state s) → dropped (step s i).
Proof.
  destruct i; try done. intros _ [p Hp]. unfold step, dropped. destruct (running s) eqn:Hr; [|by right].
  simpl. rewrite Hp. by left.
Qed.

Lemma tick_sets s i : is_tick i = true → dropped s ∨ is_Some (ping_state (step s i)) .
Proof.
  destruct i as [| | | | | |p ok| |]; try done. intros _. unfold dropped, step.
  destruct (running s) eqn:Hr; [|by auto]. right. simpl.
  destruct (ping_state s) as [p'|] eqn:Hp; simpl; [by rewrite Hp|]. by destruct ok.
Qed.

(** A client that does not answer is dropped: once the ping timer has fired
    twice with no pong in between, the subscriber is cancelled or has ended, and
    it stays so; when the loop then sees the cancellation it ends. *)
Theorem unresponsive_dropped s t1 between t2 rest :
  is_tick t1 = true → is_tick t2 = true → Forall (λ i, is_pong i = false) between →
  dropped (foldl step s ([t1] ++ between ++ [t2] ++ rest)) ∧
  running (foldl step s ([t1] ++ between ++ [t2] ++ rest ++ [ShutdownSeen])) = false.
Proof.
  intros H1 H2 Hb.
  assert (Hd : dropped (foldl step s ([t1] ++ between ++ [t2] ++ rest))).
  { rewrite !foldl_app. apply foldl_dropped. simpl.
    destruct (tick_sets s t1 H1) as [Hs|[p Hp]].
    - by apply step_dropped, foldl_dropped, step_dropped.
    - apply tick_outstanding; [done|]. exists p. by apply foldl_outstanding. }
  split; [done|].
  replace ([t1] ++ between ++ [t2] ++ rest ++ [ShutdownSeen]) with
    (([t1] ++ between ++ [t2] ++ rest) ++ [ShutdownSeen]) by (by rewrite <- !app_assoc).
  rewrite foldl_app. revert Hd. generalize (foldl step s ([t1] ++ between ++ [t2] ++ rest)). intros s' Hd.
  simpl. unfold step. destruct (running s') eqn:Hr; [|done]. simpl. destruct Hd as [->|Hr']; congruence || done.
Qed.

End Subscriber.

(** ** Concrete subscribers *)

Definition sample_query : MultiSubscribeQuery := mkQuery ∅ {["did:plc:b"]} {["app.follow:subject"]}.
Definition no_update (s : string) : option MultiSubscribeQuery := None.

Definition sample_inputs : list Input :=
  [PingTick "12345678" true; Link Spacedust.follow_message true; FromClient (Pong "12345678") true;
   Link (mkClientMessage "x" (mkProperties "did:plc:c" (Some "did:plc:c") "app.follow:subject")) true].

Lemma subscriber_delivers_witness :
  texts (sent (start no_update sample_query sample_inputs)) = ["app.follow:subject did:plc:b"].
Proof.
  etransitivity; [apply (proj1 (subscriber_delivers no_update sample_query sample_inputs))|vm_compute; reflexivity].
  repeat constructor.
Defined.

(** A client whose update asks for nothing, taken after a refused one. *)
Definition empty_update (s : string) : option MultiSubscribeQuery := if String.eqb s "{}" then Some (mkQuery ∅ ∅ ∅) else None.

Lemma query_limits_witness :
  query (start empty_update sample_query [FromClient (Text "[") true]) = sample_query ∧
  query (start empty_update sample_query [FromClient (Text "[") true; FromClient (Text "{}") true]) = mkQuery ∅ ∅ ∅.
Proof.
  split.
  - destruct (proj1 (proj2 (query_limits empty_update sample_query [])) eq_refl "[" true) as [(Hp & _)|(_ & Hq & _)]; [discriminate Hp|exact Hq].
  - destruct (proj1 (proj2 (query_limits empty_update sample_query [FromClient (Text "[") true])) eq_refl "{}" true) as [(Hp & _)|(Hn & _)].
    + reflexivity.
    + destruct (Hn (mkQuery ∅ ∅ ∅) eq_refl). unfold within_limits. cbn [wanted_sources wanted_subject_dids wanted_subjects]. rewrite !size_empty. lia.
Defined.

Lemma unresponsive_dropped_witness :
  running (foldl (step no_update) (new sample_query)
    ([PingTick "12345678" true] ++ [BroadcastLagged 3] ++ [PingTick "87654321" true] ++ [] ++ [ShutdownSeen])) = false.
Proof. apply (unresponsive_dropped no_update); repeat constructor. Defined.

End Subscriber.
