(* ===== verification/SpacedustService.v ===== *)
(** * spacedust: the service (spacedust/src/server.rs, with consumer.rs, delay.rs and subscriber.rs)

    The requests the server answers, and all tasks together: the consumer feeds
    the instant broadcast and the delay queue, the delay task feeds the delayed
    broadcast, and every subscriber reads one of the two.  The broadcast
    channels of tokio are behind an interface.  Shown here, over every
    interleaving of the tasks: what a subscriber gets are the links, of events
    since it connected, that its query asks for; nothing is left out while it
    keeps up; and links that wait out their delay arrive. *)

From S2P Require Import Prelude RustStr Bytes LinksAtUri LinksRecord.
From S2P Require Import UfosDbTypes UfosBatch SpacedustQueue SpacedustConsumer SpacedustSubscriber.

(** ** tokio's broadcast channels *)

Inductive Recv (M : Type) : Type :=
  | RecvOk (m : M)
  | RecvLagged (n : nat)
  | RecvPending.
Arguments RecvOk {M} m.
Arguments RecvLagged {M} n.
Arguments RecvPending {M}.

(** A channel is never closed while a sender lives; the context of the server
    keeps one of each. *)
Class Broadcast (M : Type) : Type := {
  Ch : Type;
  Rx : Type;
  bc_channel : nat → Ch;
  bc_send : Ch → M → Ch;
  bc_subscribe : Ch → Rx;
  bc_recv : Ch → Rx → Recv M * Rx
}.

(** A receiver gets what is sent after it subscribed, in order; if it is more
    than the capacity behind, it is told so and goes on further ahead. *)
Class BroadcastLaws (M : Type) `{Broadcast M} : Type := {
  bc_log : Ch → list M;
  bc_capacity : Ch → nat;
  bc_pos : Rx → nat;
  bc_channel_log n : bc_log (bc_channel n) = [];
  bc_channel_capacity n : n ≤ bc_capacity (bc_channel n);
  bc_send_log ch m : bc_log (bc_send ch m) = bc_log ch ++ [m];
  bc_send_capacity ch m : bc_capacity (bc_send ch m) = bc_capacity ch;
  bc_subscribe_pos ch : bc_pos (bc_subscribe ch) = length (bc_log ch);
  bc_recv_spec ch rx : bc_pos rx ≤ length (bc_log ch) →
    match bc_recv ch rx with
    | (RecvOk m, rx') => bc_log ch !! bc_pos rx = Some m ∧ bc_pos rx' = S (bc_pos rx)
    | (RecvLagged _, rx') => bc_capacity ch < length (bc_log ch) - bc_pos rx ∧ bc_pos rx ≤ bc_pos rx' ≤ length (bc_log ch)
    | (RecvPending, rx') => rx' = rx ∧ bc_pos rx = length (bc_log ch)
    end
}.

Module Service.

(** ** server.rs: requests *)

Record Response : Type := mkResponse {
  rs_status : nat;
  rs_headers : list (string * string);
  rs_body : string
}.
Record HttpError : Type := mkHttpError { he_status : nat; he_message : string }.

(** The labels of the counter [server_requests_total]. *)
Record Labels : Type := mkLabels {
  lb_endpoint : string;
  lb_origin : string;
  lb_ua : string;
  lb_status_code : nat
}.

(** A header as [to_str] gives it: [None] if absent or not visible ASCII. *)
Record Request : Type := mkRequest {
  rq_operation_id : string;
  rq_origin : option string;
  rq_user_agent : option string;
  rq_query : option string
}.

(** The result of the handler goes through; the labels are counted. *)
Definition instrument_handler (rq : Request) (res : result HttpError Response) : result HttpError Response * Labels :=
  let status_code := match res with Ok response => rs_status response | Err e => he_status e end in
  let origin := default "" (rq_origin rq) in
  let ua := default "" ((λ ua, if String.prefix "Mozilla/5.0 " ua then "browser" else ua) <$> rq_user_agent rq) in
  (res, mkLabels (rq_operation_id rq) origin ua status_code).

Definition ok_cors (json : string) : result HttpError Response :=
  Ok (mkResponse 200 [("access-control-allow-origin", "*")] json).

Section Handlers.
(** The files of static/, the description of the api, and serde_qs. *)
Context (INDEX_HTML FAVICON spec : string) (serde_qs : string → result string MultiSubscribeQuery).

Definition index (rq : Request) : result HttpError Response * Labels :=
  instrument_handler rq (Ok (mkResponse 200 [("content-type", "text/html")] INDEX_HTML)).
Definition favicon (rq : Request) : result HttpError Response * Labels :=
  instrument_handler rq (Ok (mkResponse 200 [("content-type", "image/x-icon")] FAVICON)).
Definition openapi (rq : Request) : result HttpError Response * Labels :=
  instrument_handler rq (ok_cors spec).

(** [MultiSubscribeQuery::from_request]. *)
Definition from_request (rq : Request) : result HttpError MultiSubscribeQuery :=
  match serde_qs (default "" (rq_query rq)) with
  | Ok q => Ok q
  | Err e => Err (mkHttpError 400 ("unable to parse query string: " +:+ e))
  end.
End Handlers.

(** ** All tasks together *)

Section Service.
Context `{FluentUri} `{BC : Broadcast ClientMessage}.
Context (to_json : ClientEvent → option string) (parse_json : string → option JsonValue).
Context (parse_update : string → option MultiSubscribeQuery).

(** A subscriber: its request, its receiver, and what its loop has got so far. *)
Record Client : Type := mkClient {
  cl_query : MultiSubscribeQuery;
  cl_instant : bool;
  cl_rx : Rx;
  cl_seen : list Subscriber.Input
}.
Definition cl_sub (cl : Client) : Subscriber.Subscriber := Subscriber.start parse_update (cl_query cl) (cl_seen cl).

Record State : Type := mkState {
  sv_server : Spacedust.Server;
  sv_b : Ch;
  sv_d : Ch;
  sv_clients : list Client
}.

(** main: both channels hold 16384 messages, the delay is 21 seconds. *)
Definition CHANNEL_SIZE : nat := Nat.pow 2 14.
Definition DELAY : Z := 21_000_000_000.
Definition service_start : State :=
  mkState Spacedust.server_start (bc_channel CHANNEL_SIZE) (bc_channel CHANNEL_SIZE) [].

(** One of the tasks runs: the consumer on an event, the delay task at an
    instant, a request to subscribe, and the loop of a subscriber with its
    broadcast or with one of its other arms. *)
Inductive Move : Type :=
  | Jetstream (now : nat → Z) (event : JetstreamEvent)
  | Delay (now : Z)
  | Subscribe (query : MultiSubscribeQuery) (scalar : ScalarSubscribeQuery)
  | Hear (j : nat) (send_ok : bool)
  | Other (j : nat) (i : Subscriber.Input).

Definition action (m : Move) : option Spacedust.Action :=
  match m with
  | Jetstream now event => Some (Spacedust.ActEvent now event)
  | Delay now => Some (Spacedust.ActPoll now)
  | _ => None
  end.

(** What was sent on a channel. *)
Definition channel_log (instant : bool) (s : Spacedust.Server) : list ClientMessage :=
  if instant then Spacedust.srv_instant s else (DelayQueue.sys_sent (Spacedust.srv_sys s)).*2.
Definition channel (instant : bool) (s : State) : Ch := Subscriber.subscription (sv_b s) (sv_d s) (mkScalarQuery instant).

(** The messages a task emits are sent on its channel. *)
Definition send_new (instant : bool) (before after : Spacedust.Server) (ch : Ch) : Ch :=
  foldl bc_send ch (drop (length (channel_log instant before)) (channel_log instant after)).

Definition subscribe (query : MultiSubscribeQuery) (scalar : ScalarSubscribeQuery) (s : State) : Client :=
  mkClient query (sq_instant scalar) (bc_subscribe (Subscriber.subscription (sv_b s) (sv_d s) scalar)) [].

(** The arm of [select!] on the broadcast. *)
Definition hear (send_ok : bool) (s : State) (cl : Client) : Client :=
  if Subscriber.running (cl_sub cl) then
    match bc_recv (channel (cl_instant cl) s) (cl_rx cl) with
    | (RecvOk link, rx) => mkClient (cl_query cl) (cl_instant cl) rx (cl_seen cl ++ [Subscriber.Link link send_ok])
    | (RecvLagged n, rx) => mkClient (cl_query cl) (cl_instant cl) rx (cl_seen cl ++ [Subscriber.BroadcastLagged n])
    | (RecvPending, rx) => cl
    end
  else cl.

Definition from_broadcast (i : Subscriber.Input) : bool :=
  match i with Subscriber.Link _ _ | Subscriber.BroadcastClosed | Subscriber.BroadcastLagged _ => true | _ => false end.
Definition other (i : Subscriber.Input) (cl : Client) : Client :=
  if Subscriber.running (cl_sub cl) && negb (from_broadcast i)
  then mkClient (cl_query cl) (cl_instant cl) (cl_rx cl) (cl_seen cl ++ [i]) else cl.

Definition move (delay : Z) (s : State) (m : Move) : State :=
  match action m with
  | Some a =>
      let server := Spacedust.act to_json parse_json delay (sv_server s) a in
      mkState server (send_new true (sv_server s) server (sv_b s)) (send_new false (sv_server s) server (sv_d s)) (sv_clients s)
  | None =>
      mkState (sv_server s) (sv_b s) (sv_d s)
        match m with
        | Subscribe query scalar => sv_clients s ++ [subscribe query scalar s]
        | Hear j ok => alter (hear ok s) j (sv_clients s)
        | Other j i => alter (other i) j (sv_clients s)
        | _ => sv_clients s
        end
  end.
Definition serve (delay : Z) (ms : list Move) : State := foldl (move delay) service_start ms.

(** ** The log of the channels *)

Definition actions (ms : list Move) : list Spacedust.Action := omap action ms.

Lemma consume_links_instant sc now uri commit i links s :
  ∃ l, Spacedust.instant (Spacedust.consume_links to_json sc now uri commit i links s).1 = Spacedust.instant s ++ l.
Proof.
  revert i s; induction links as [|link links IH]; intros i s; simpl; [exists []; by rewrite app_nil_r|].
  case_decide; [exists []; by rewrite app_nil_r|]. destruct (Spacedust.new_link to_json link uri commit) as [m|]; [|apply IH].
  destruct (DelayQueue.enqueue sc (now i) (uri, i) m (Spacedust.delayed s)); [|by exists [m]].
  destruct (IH (S i) (Spacedust.mkSinks (Spacedust.instant s ++ [m]) a)) as [l ->]. exists (m :: l). simpl. by rewrite <- app_assoc.
Qed.

(** What was sent stays sent. *)
Lemma act_grows delay s a instant :
  ∃ l, channel_log instant (Spacedust.act to_json parse_json delay s a) = channel_log instant s ++ l.
Proof.
  destruct a as [now event|now].
  - destruct instant; simpl; [|exists []; by rewrite app_nil_r].
    unfold Spacedust.consume_event. destruct (ev_kind event), (ev_commit event) as [commit|]; try (exists []; by rewrite app_nil_r).
    assert (Hl : ∀ r s', ∃ l, Spacedust.instant (match r with None => (s', None) | Some jv =>
      Spacedust.consume_links to_json (DelayQueue.strong_count (Spacedust.srv_sys s)) now (Spacedust.event_at_uri event commit) commit 0 (Links.collect_links jv) s' end).1
      = Spacedust.instant s' ++ l).
    { intros [jv|] s'; [apply consume_links_instant|]. exists []. by rewrite app_nil_r. }
    destruct (ce_operation commit); [apply Hl|apply Hl|exists []; by rewrite app_nil_r].
  - destruct instant; simpl; [exists []; by rewrite app_nil_r|]. unfold DelayQueue.to_broadcast_poll.
    destruct (DelayQueue.poll_next _ _ _ _ _) as [[[item|] []] q]; simpl; try (exists []; by rewrite app_nil_r);
      exists [item]; by rewrite fmap_app.
Qed.

Section Laws.
Context `{BL : !BroadcastLaws ClientMessage}.

Lemma send_all_log ch ms : bc_log (foldl bc_send ch ms) = bc_log ch ++ ms ∧ bc_capacity (foldl bc_send ch ms) = bc_capacity ch.
Proof.
  revert ch; induction ms as [|m ms IH]; intros ch; cbn [foldl]; [by rewrite app_nil_r|].
  destruct (IH (bc_send ch m)) as [-> ->]. by rewrite bc_send_log, bc_send_capacity, <- app_assoc.
Qed.

(** The channels carry what the tasks emitted, and no receiver is ahead. *)
Definition consistent (s : State) : Prop :=
  (∀ i, bc_log (channel i s) = channel_log i (sv_server s) ∧ CHANNEL_SIZE ≤ bc_capacity (channel i s)) ∧
  Forall (λ cl, bc_pos (cl_rx cl) ≤ length (channel_log (cl_instant cl) (sv_server s))) (sv_clients s).

Lemma hear_pos s ok cl :
  consistent s → bc_pos (cl_rx cl) ≤ length (channel_log (cl_instant cl) (sv_server s)) →
  cl_instant (hear ok s cl) = cl_instant cl ∧
  bc_pos (cl_rx (hear ok s cl)) ≤ length (channel_log (cl_instant cl) (sv_server s)).
Proof.
  intros [Hs _] Hp. destruct (Hs (cl_instant cl)) as [Hl _]. unfold hear. destruct (Subscriber.running _); [|done].
  pose proof (bc_recv_spec (channel (cl_instant cl) s) (cl_rx cl)) as Hr. rewrite Hl in Hr. specialize (Hr Hp).
  destruct (bc_recv _ _) as [[link|n|] rx]; simpl; split; try done; try lia.
  destruct Hr as [Hm ->]. apply lookup_lt_Some in Hm. lia.
Qed.

Lemma consistent_move delay s m : consistent s → consistent (move delay s m).
Proof.
  intros Hs. pose proof Hs as [Hc Hcl]. unfold move. destruct (action m) as [a|] eqn:Ea.
  - split; simpl.
    + intros i. destruct (act_grows delay (sv_server s) a i) as [l Hl]. destruct (Hc i) as [Hi Hcap].
      unfold channel, Subscriber.subscription in *. cbn [sq_instant sv_b sv_d] in *.
      destruct i; unfold send_new; rewrite Hl, drop_app_length; destruct (send_all_log (if true then sv_b s else sv_d s) l), (send_all_log (sv_d s) l); simpl in *; split; congruence.
    + eapply Forall_impl; [exact Hcl|]. intros cl Hp. simpl. destruct (act_grows delay (sv_server s) a (cl_instant cl)) as [l ->].
      rewrite length_app. cbn beta in Hp. lia.
  - split; [exact Hc|]. cbn [sv_clients sv_server]. destruct m as [| |q sc|j ok|j i]; try done.
    + apply Forall_app. split; [done|]. constructor; [|constructor]. unfold subscribe. cbn [cl_rx cl_instant].
      rewrite bc_subscribe_pos. destruct (Hc (sq_instant sc)) as [<- _]. unfold channel, Subscriber.subscription. simpl. done.
    + apply Forall_alter; [done|]. intros cl _ Hp. destruct (hear_pos s ok cl Hs Hp) as [-> ?]. done.
    + apply Forall_alter; [done|]. intros cl _ Hp. unfold other. by destruct (_ && _).
Qed.

Lemma serve_snoc delay ms m : serve delay (ms ++ [m]) = move delay (serve delay ms) m.
Proof. unfold serve. by rewrite foldl_app. Qed.

Lemma consistent_serve delay ms : consistent (serve delay ms).
Proof.
  unfold serve. induction ms as [|m ms IH] using rev_ind.
  - split; [|constructor]. intros i. unfold channel, Subscriber.subscription. simpl.
    destruct i; rewrite bc_channel_log; split; [done|apply bc_channel_capacity|done|apply bc_channel_capacity].
  - rewrite foldl_app. by apply consistent_move.
Qed.

Lemma serve_acts delay ms : sv_server (serve delay ms) = Spacedust.acts to_json parse_json delay (actions ms).
Proof.
  unfold serve, actions, Spacedust.acts. induction ms as [|m ms IH] using rev_ind; [done|].
  rewrite foldl_app, omap_app, foldl_app. cbn [foldl omap list_omap]. unfold move at 1. destruct (action m) as [a|]; simpl; by rewrite <- ?IH.
Qed.

(** ** What a subscriber has got *)

Definition link_of (i : Subscriber.Input) : option ClientMessage :=
  match i with Subscriber.Link link _ => Some link | _ => None end.
Definition lagged (i : Subscriber.Input) : bool := match i with Subscriber.BroadcastLagged _ => true | _ => false end.

(** Its sends succeed, its query stays, nothing ends it, and it is never too
    far behind. *)
Definition keeps_up (i : Subscriber.Input) : Prop := Subscriber.steady i = true ∧ lagged i = false.

(** The subscriber reads the log of its channel from [p0] on. *)
Record follows (q : MultiSubscribeQuery) (i : bool) (p0 : nat) (s : State) (cl : Client) : Prop := {
  fo_query : cl_query cl = q;
  fo_instant : cl_instant cl = i;
  fo_pos : p0 ≤ bc_pos (cl_rx cl) ≤ length (channel_log i (sv_server s));
  fo_links : ∀ link ok, Subscriber.Link link ok ∈ cl_seen cl → link ∈ drop p0 (channel_log i (sv_server s));
  fo_all : Forall keeps_up (cl_seen cl) →
    omap link_of (cl_seen cl) = take (bc_pos (cl_rx cl) - p0) (drop p0 (channel_log i (sv_server s)))
}.

Lemma follows_grows q i p0 s s' cl l :
  channel_log i (sv_server s') = channel_log i (sv_server s) ++ l → follows q i p0 s cl → follows q i p0 s' cl.
Proof.
  intros Hl [Hq Hi Hp Hin Hall]. constructor; [done|done| | |]; rewrite Hl.
  - rewrite length_app. lia.
  - intros link ok Hs. rewrite drop_app_le by lia. apply elem_of_app. left. by eapply Hin.
  - intros Hk. rewrite drop_app_le by lia. rewrite take_app_le by (rewrite length_drop; lia). by apply Hall.
Qed.

Lemma follows_other q i p0 s cl x : follows q i p0 s cl → follows q i p0 s (other x cl).
Proof.
  intros [Hq Hi Hp Hin Hall]. unfold other. destruct (_ && negb (from_broadcast x)) eqn:E; [|done].
  apply andb_prop in E as [_ E]. constructor; simpl; [done|done|done| |].
  - intros link ok [?|Hx%list_elem_of_singleton]%elem_of_app; [by eapply Hin|]. by subst x.
  - intros [Hk _]%Forall_app. rewrite omap_app, (Hall Hk). destruct x; try done; by rewrite app_nil_r.
Qed.

Lemma follows_hear q i p0 s cl ok : consistent s → follows q i p0 s cl → follows q i p0 s (hear ok s cl).
Proof.
  intros [Hs _] Hf. pose proof Hf as [Hq Hi Hp Hin Hall]. unfold hear. destruct (Subscriber.running _); [|done].
  destruct (Hs i) as [Hl _]. rewrite Hi. pose proof (bc_recv_spec (channel i s) (cl_rx cl)) as Hr. rewrite Hl in Hr. specialize (Hr ltac:(lia)).
  destruct (bc_recv _ _) as [[link|n|] rx]; [| |done].
  - destruct Hr as [Hm Hpos]. pose proof (lookup_lt_Some _ _ _ Hm) as Hlt.
    assert (Hd : drop p0 (channel_log i (sv_server s)) !! (bc_pos (cl_rx cl) - p0) = Some link)
      by (rewrite lookup_drop; by replace (p0 + (bc_pos (cl_rx cl) - p0)) with (bc_pos (cl_rx cl)) by lia).
    constructor; simpl; [done|done|lia| |].
    + intros link' ok' [?|[= -> ->]%list_elem_of_singleton]%elem_of_app; [by eapply Hin|]. by apply list_elem_of_lookup_2 in Hd.
    + intros [Hk _]%Forall_app. rewrite omap_app, (Hall Hk), Hpos. simpl.
      replace (S (bc_pos (cl_rx cl)) - p0) with (S (bc_pos (cl_rx cl) - p0)) by lia. symmetry. by apply take_S_r.
  - destruct Hr as [_ Hpos]. constructor; simpl; [done|done|lia| |].
    + intros link' ok' [?|[=]%list_elem_of_singleton]%elem_of_app. by eapply Hin.
    + intros [_ [[_ ?] _]%Forall_cons]%Forall_app. done.
Qed.

Lemma move_grows delay s m i :
  ∃ l, channel_log i (sv_server (move delay s m)) = channel_log i (sv_server s) ++ l.
Proof.
  unfold move. destruct (action m) as [a|]; simpl; [apply act_grows|]. exists []. by rewrite app_nil_r.
Qed.

Lemma follows_move delay q i p0 s m j cl :
  consistent s → sv_clients s !! j = Some cl → follows q i p0 s cl →
  ∃ cl', sv_clients (move delay s m) !! j = Some cl' ∧ follows q i p0 (move delay s m) cl'.
Proof.
  intros Hs Hj Hf. destruct (move_grows delay s m i) as [l Hl].
  assert (∃ cl', sv_clients (move delay s m) !! j = Some cl' ∧ follows q i p0 s cl') as (cl' & Hj' & Hf');
    [|exists cl'; split; [done|by apply (follows_grows _ _ _ s _ _ l)]].
  unfold move. destruct (action m) as [a|] eqn:Ea; [by exists cl|]. cbn [sv_clients].
  destruct m as [| |q' sc|j' ok|j' x]; try done.
  - exists cl. split; [by apply lookup_app_l_Some|done].
  - destruct (decide (j = j')) as [->|Hne]; [|rewrite list_lookup_alter_ne by done; by exists cl].
    rewrite list_lookup_alter_eq, Hj. eexists. split; [done|]. by apply follows_hear.
  - destruct (decide (j = j')) as [->|Hne]; [|rewrite list_lookup_alter_ne by done; by exists cl].
    rewrite list_lookup_alter_eq, Hj. eexists. split; [done|]. by apply follows_other.
Qed.

Lemma subscriber_follows delay m1 q sc m2 :
  let s1 := serve delay m1 in let s := serve delay (m1 ++ Subscribe q sc :: m2) in
  (∃ cl, sv_clients s !! length (sv_clients s1) = Some cl ∧
     follows q (sq_instant sc) (length (channel_log (sq_instant sc) (sv_server s1))) s cl) ∧
  ∃ since, channel_log (sq_instant sc) (sv_server s) = channel_log (sq_instant sc) (sv_server s1) ++ since.
Proof.
  cbv zeta. induction m2 as [|m m2 [(cl & Hj & Hf) [since Hs]]] using rev_ind.
  - destruct (consistent_serve delay m1) as [Hc _]. rewrite serve_snoc. split; [|exists []; by rewrite app_nil_r].
    exists (subscribe q sc (serve delay m1)). split; [simpl; by rewrite lookup_app_r, Nat.sub_diag|].
    destruct (Hc (sq_instant sc)) as [Hl _]. change (channel (sq_instant sc) (serve delay m1)) with (Subscriber.subscription (sv_b (serve delay m1)) (sv_d (serve delay m1)) sc) in Hl.
    constructor; simpl; rewrite ?bc_subscribe_pos, ?Hl; [done|done|lia| |].
    + by intros ? ? ?%not_elem_of_nil.
    + intros _. by rewrite Nat.sub_diag.
  - change (Subscribe q sc :: m2 ++ [m]) with ((Subscribe q sc :: m2) ++ [m]). rewrite app_assoc, serve_snoc. split.
    + by apply (follows_move delay _ _ _ _ m _ cl (consistent_serve delay _)).
    + destruct (move_grows delay (serve delay (m1 ++ Subscribe q sc :: m2)) m (sq_instant sc)) as [l ->]. rewrite Hs, <- app_assoc. by eexists.
Qed.

#[global] Instance matches_dec q p : Decision (Subscriber.matches q p).
Proof. refine (cast_if (decide (Subscriber.filter q p = true))); by rewrite <- Subscriber.filter_matches. Defined.

(** The messages among [l] that a query asks for. *)
Definition wanted (q : MultiSubscribeQuery) (l : list ClientMessage) : list string :=
  message <$> filter (λ m, Subscriber.matches q (properties m)) l.

Lemma wanted_app q l1 l2 : wanted q (l1 ++ l2) = wanted q l1 ++ wanted q l2.
Proof. unfold wanted. by rewrite filter_app, fmap_app. Qed.

Lemma delivered_wanted q ins : Forall keeps_up ins → omap (Subscriber.delivered q) ins = wanted q (omap link_of ins).
Proof.
  induction ins as [|i ins IH]; [done|]. intros [[Hst Hl] Hk]%Forall_cons. specialize (IH Hk).
  destruct i as [link ok| | | | | | | |]; try done. simpl in Hst. subst ok. cbn [omap list_omap link_of Subscriber.delivered].
  unfold wanted in *. rewrite filter_cons. destruct (Subscriber.filter q (properties link)) eqn:E.
  - rewrite decide_True by (by apply Subscriber.filter_matches). simpl. by rewrite IH.
  - rewrite decide_False by (intros Hm%Subscriber.filter_matches; congruence). done.
Qed.

Lemma follows_texts q i p0 s cl :
  follows q i p0 s cl → Forall keeps_up (cl_seen cl) →
  Subscriber.running (cl_sub cl) = true ∧
  Subscriber.texts (Subscriber.sent (cl_sub cl)) = wanted q (take (bc_pos (cl_rx cl) - p0) (drop p0 (channel_log i (sv_server s)))).
Proof.
  intros Hf Hk. unfold cl_sub. rewrite (fo_query _ _ _ _ _ Hf).
  destruct (Subscriber.start_steady parse_update q (cl_seen cl)) as (Hr & _ & Ht).
  { eapply Forall_impl; [exact Hk|]. by intros x [? _]. }
  split; [done|]. by rewrite Ht, delivered_wanted, (fo_all _ _ _ _ _ Hf).
Qed.

(** The links of the events a subscriber could have seen. *)
Definition event_links (m : Move) : list ClientMessage :=
  match m with Jetstream _ event => (Spacedust.event_messages to_json parse_json event).*2 | _ => [] end.

Lemma instant_log delay ms : channel_log true (sv_server (serve delay ms)) = flat_map event_links ms.
Proof.
  rewrite serve_acts. destruct (Spacedust.acts_run to_json parse_json delay (actions ms)) as (_ & _ & Hi). simpl. rewrite Hi.
  unfold actions. clear Hi. induction ms as [|m ms IH]; [done|]. cbn [omap list_omap flat_map]. rewrite <- IH.
  by destruct m.
Qed.


(** ** Links that wait arrive *)

Lemma polls_run delay now n server sys' :
  DelayQueue.run delay (Spacedust.srv_sys server) (replicate n (DelayQueue.EvPoll now)) = Some sys' →
  Spacedust.srv_sys (foldl (Spacedust.act to_json parse_json delay) server (replicate n (Spacedust.ActPoll now))) = sys'.
Proof.
  revert server; induction n as [|n IH]; intros server; [by intros [= <-]|]. unfold DelayQueue.run. cbn [replicate foldl_opt foldl].
  cbn [DelayQueue.step]. destruct (DelayQueue.sys_output _); [|done]. cbn [mbind option_bind]. intros Hr. by apply IH.
Qed.

(** A subscriber that is not too far behind catches up. *)
Lemma hear_catches_up delay q i p0 j n : ∀ ms cl,
  sv_clients (serve delay ms) !! j = Some cl → follows q i p0 (serve delay ms) cl → Forall keeps_up (cl_seen cl) →
  length (channel_log i (sv_server (serve delay ms))) = bc_pos (cl_rx cl) + n → n ≤ CHANNEL_SIZE →
  let s' := serve delay (ms ++ replicate n (Hear j true)) in
  sv_server s' = sv_server (serve delay ms) ∧
  ∃ cl', sv_clients s' !! j = Some cl' ∧ follows q i p0 s' cl' ∧ Forall keeps_up (cl_seen cl') ∧
    bc_pos (cl_rx cl') = length (channel_log i (sv_server s')).
Proof.
  induction n as [|n IH]; intros ms cl Hj Hf Hk Hlen Hn; cbn [replicate].
  { rewrite app_nil_r. cbv zeta. split; [done|]. exists cl. split_and!; [done|done|done|lia]. }
  pose proof (consistent_serve delay ms) as Hc. pose proof (follows_hear q i p0 _ cl true Hc Hf) as Hf'.
  destruct (follows_texts _ _ _ _ _ Hf Hk) as [Hrun _].
  assert (Hgot : ∃ link rx, bc_pos rx = S (bc_pos (cl_rx cl)) ∧
    hear true (serve delay ms) cl = mkClient (cl_query cl) (cl_instant cl) rx (cl_seen cl ++ [Subscriber.Link link true])).
  { unfold hear. rewrite Hrun, (fo_instant _ _ _ _ _ Hf). destruct (proj1 Hc i) as [Hl Hcap].
    pose proof (bc_recv_spec (channel i (serve delay ms)) (cl_rx cl)) as Hr. rewrite Hl in Hr. specialize (Hr ltac:(lia)).
    destruct (bc_recv _ _) as [[link|k|] rx]; [destruct Hr; by exists link, rx|lia|lia]. }
  destruct Hgot as (link & rx & Hpos & E).
  rewrite (app_assoc ms [Hear j true] (replicate n (Hear j true)) : ms ++ Hear j true :: replicate n (Hear j true) = _).
  assert (Hsv : sv_server (serve delay (ms ++ [Hear j true])) = sv_server (serve delay ms)) by (by rewrite serve_snoc).
  rewrite <- Hsv. apply (IH _ (hear true (serve delay ms) cl)).
  - rewrite serve_snoc. unfold move. cbn [action sv_clients]. by rewrite list_lookup_alter_eq, Hj.
  - apply (follows_grows _ _ _ (serve delay ms) _ _ []); [by rewrite Hsv, app_nil_r|done].
  - rewrite E. cbn [cl_seen]. apply Forall_app. split; [done|]. by constructor.
  - rewrite Hsv, E. cbn [cl_rx]. lia.
  - lia.
Qed.

(** C8. Links arrive: when the delay of everything that waits is over, a
    delayed subscriber that has kept up and is not too far behind has, after as
    many turns of the delay task as links wait and enough turns of its own,
    got exactly the links it asks for among all that were sent since it
    connected and all that waited. *)
Theorem waiting_links_arrive delay m1 q m2 now cl :
  let s1 := serve delay m1 in
  let ms := m1 ++ Subscribe q (mkScalarQuery false) :: m2 in
  let s := serve delay ms in
  let sys := Spacedust.srv_sys (sv_server s) in
  let waiting := DelayQueue.held (DelayQueue.sys_out sys) ++ (DelayQueue.pending (DelayQueue.sys_q sys)).*2 in
  let j := length (sv_clients s1) in
  sv_clients s !! j = Some cl → Forall keeps_up (cl_seen cl) →
  DelayQueue.awake now (DelayQueue.sys_out sys) →
  Forall (λ e, e.1.1 + delay ≤ now)%Z (DelayQueue.pending (DelayQueue.sys_q sys)) →
  length (channel_log false (sv_server s)) - bc_pos (cl_rx cl) + length waiting ≤ CHANNEL_SIZE →
  ∃ n cl' since,
    let s' := serve delay (ms ++ replicate (length waiting) (Delay now) ++ replicate n (Hear j true)) in
    channel_log false (sv_server s) = channel_log false (sv_server s1) ++ since ∧
    sv_clients s' !! j = Some cl' ∧
    Subscriber.texts (Subscriber.sent (cl_sub cl')) = wanted q (since ++ waiting).
Proof.
  cbv zeta. set (ms := m1 ++ _ :: m2). set (j := length _). set (sys := Spacedust.srv_sys _).
  set (waiting := DelayQueue.held _ ++ _). intros Hj Hk Ha Hold Hcap.
  destruct (subscriber_follows delay m1 q (mkScalarQuery false) m2) as [(cl0 & Hj0 & Hf) [since Hs]].
  fold ms j in Hj0, Hf, Hs. rewrite Hj in Hj0. injection Hj0 as <-. cbn [sq_instant] in *.
  assert (Hpolls : ∀ n, actions (ms ++ replicate n (Delay now)) = actions ms ++ replicate n (Spacedust.ActPoll now)).
  { intros n. unfold actions. rewrite omap_app. f_equal. induction n as [|n IHn]; [done|]. cbn [replicate omap list_omap action]. by f_equal. }
  destruct (Spacedust.acts_run to_json parse_json delay (actions ms)) as ((_ & Hout & _) & _ & _). rewrite <- serve_acts in Hout.
  destruct (DelayQueue.delay_queue_drains delay now sys Hout Ha Hold) as (sys' & Hrun & Hsent & _). fold waiting in Hrun, Hsent.
  apply polls_run in Hrun. set (ms' := ms ++ replicate (length waiting) (Delay now)).
  assert (Hlog : channel_log false (sv_server (serve delay ms')) = channel_log false (sv_server (serve delay ms)) ++ waiting).
  { unfold ms'. rewrite (serve_acts delay (_ ++ _)), Hpolls. unfold Spacedust.acts. rewrite foldl_app.
    fold (Spacedust.acts to_json parse_json delay (actions ms)). rewrite <- serve_acts. cbn [channel_log].
    rewrite Hrun, Hsent, fmap_app. f_equal. rewrite <- list_fmap_compose. apply list_fmap_id. }
  assert (Hcl : sv_clients (serve delay ms') = sv_clients (serve delay ms)).
  { unfold ms', serve. rewrite foldl_app. generalize (length waiting). intros n. induction n as [|n IHn]; [done|].
    rewrite replicate_S_end, foldl_app. cbn [foldl]. by rewrite <- IHn. }
  pose proof (follows_grows _ _ _ _ _ _ _ Hlog Hf) as Hf'. pose proof (fo_pos _ _ _ _ _ Hf') as Hpos.
  set (n := length (channel_log false (sv_server (serve delay ms'))) - bc_pos (cl_rx cl)).
  destruct (hear_catches_up delay q false (length (channel_log false (sv_server (serve delay m1)))) j n ms' cl) as (Hsv & cl' & Hj' & Hf2 & Hk2 & Hp2);
    [by rewrite Hcl|exact Hf'|exact Hk|lia|unfold n; rewrite Hlog, length_app; pose proof (fo_pos _ _ _ _ _ Hf); lia|].
  exists n, cl', since. rewrite (app_assoc ms). fold ms'. split_and!; [exact Hs|exact Hj'|].
  destruct (follows_texts _ _ _ _ _ Hf2 Hk2) as [_ ->]. rewrite Hp2, Hsv, Hlog, Hs, <- app_assoc, drop_app_length.
  f_equal. apply take_ge. rewrite !length_app. lia.
Qed.
End Laws.
End Service.

(** ** A concrete channel, and runs *)

Definition ref_recv {M} (ch : nat * list M) (rx : nat) : Recv M * nat :=
  if decide (ch.1 < length ch.2 - rx) then (RecvLagged (length ch.2 - ch.1 - rx), length ch.2 - ch.1)
  else match ch.2 !! rx with Some m => (RecvOk m, S rx) | None => (RecvPending, rx) end.
#[local] Instance ref_broadcast (M : Type) : Broadcast M := {
  Ch := nat * list M;
  Rx := nat;
  bc_channel n := (n, []);
  bc_send ch m := (ch.1, ch.2 ++ [m]);
  bc_subscribe ch := length ch.2;
  bc_recv := ref_recv
}.

Lemma ref_recv_spec {M} (ch : nat * list M) (rx : nat) : rx ≤ length ch.2 →
  match ref_recv ch rx with
  | (RecvOk m, rx') => ch.2 !! rx = Some m ∧ rx' = S rx
  | (RecvLagged _, rx') => ch.1 < length ch.2 - rx ∧ rx ≤ rx' ≤ length ch.2
  | (RecvPending, rx') => rx' = rx ∧ rx = length ch.2
  end.
Proof.
  intros Hp. unfold ref_recv. case_decide; [lia|]. destruct (ch.2 !! rx) as [m|] eqn:E; [done|].
  apply lookup_ge_None in E. split; [done|lia].
Qed.
#[local] Instance ref_broadcast_laws (M : Type) : @BroadcastLaws M (ref_broadcast M).
Proof.
  refine {| bc_log (ch : @Ch M (ref_broadcast M)) := ch.2; bc_capacity (ch : @Ch M (ref_broadcast M)) := ch.1;
    bc_pos (rx : @Rx M (ref_broadcast M)) := rx |}; try done. apply ref_recv_spec.
Defined.

#[local] Instance service_uri : FluentUri := { uri_parse_normalized _ := None; uri_ref_resolved_path _ := None }.

(** Two subscribers, two follows of which one is undone at once. *)
Definition follows_query : MultiSubscribeQuery := mkQuery ∅ ∅ {["app.follow:subject"]}.
Definition no_update (raw : string) : option MultiSubscribeQuery := None.
Definition connects : list Move := [Subscribe follows_query (mkScalarQuery true)].
Definition two_follows : list Move :=
  [Jetstream (λ _, 0%Z) (Spacedust.follow_event "r" OpCreate); Jetstream (λ _, 1%Z) (Spacedust.follow_event "s" OpCreate);
   Jetstream (λ _, 2%Z) (Spacedust.follow_event "r" OpDelete); Hear 0 true; Delay 3; Hear 0 true].
Abbreviation serve_ref := (serve (BC := ref_broadcast ClientMessage) Spacedust.plain_json Spacedust.follow_record no_update).


(** The instant subscriber has both links at once; the delayed one gets the one
    that was not undone, when its delay is over. *)
Lemma waiting_links_arrive_witness :
  ∃ n cl', sv_clients (serve_ref DELAY
      ((connects ++ Subscribe follows_query (mkScalarQuery false) :: two_follows) ++ [Delay 21_000_000_001] ++ replicate n (Hear 1 true))) !! 1 = Some cl' ∧
    Subscriber.texts (Subscriber.sent (cl_sub no_update cl')) = ["app.follow:subject did:plc:b"].
Proof.
  destruct (waiting_links_arrive (BL := ref_broadcast_laws ClientMessage) Spacedust.plain_json Spacedust.follow_record no_update DELAY connects follows_query
    two_follows 21_000_000_001 (mkClient (BC := ref_broadcast ClientMessage) follows_query false 0 [])) as (n & cl' & since & Hs & Hj & Ht).
  - vm_compute. reflexivity.
  - constructor.
  - vm_compute. discriminate.
  - match goal with |- Forall ?P ?l => assert (E : l = []) by (vm_compute; reflexivity); rewrite E end. constructor.
  - apply Nat.leb_le. vm_compute. reflexivity.
  - exists n, cl'. split; [exact Hj|]. rewrite Ht. vm_compute in Hs. destruct since as [|m since]; [|discriminate Hs]. vm_compute. reflexivity.
Defined.
End Service.
