(* ===== verification/JetstreamEvents.v ===== *)
(** * jetstream: cursors and the clock (jetstream/src/events.rs)

    A cursor is the time of an event in microseconds.  Here: its conversions to
    and from the clock, which is in nanoseconds since the epoch and may be
    before it, with the panics of the source as errors, and that the two
    directions agree. *)

From S2P Require Import Prelude RustStr Bytes UfosDbTypes.

Module Cursors.

(** [SystemTime], in nanoseconds after the epoch. *)
Abbreviation SystemTime := Z.
Definition NANOS : Z := 1000.

Definition from_start : Cursor := mkCursor 0.
Definition from_raw_u64 (time_us : N) : Cursor := mkCursor time_us.
Definition to_raw_u64 (c : Cursor) : N := cursor_us c.

(** [duration_since(UNIX_EPOCH).expect(..)]; [as_micros() as u64] wraps. *)
Definition at_time (t : SystemTime) : result string Cursor :=
  if decide (t < 0)%Z then Err "cannot set jetstream cursor earlier than unix epoch"
  else Ok (mkCursor (Z.to_N (t / NANOS) mod u64_bound)).

(** The clock reads [now]; [d] is in nanoseconds. *)
Definition back_by (now : SystemTime) (d : Z) : result string Cursor := at_time (now - d).

(** [From<&Cursor> for SystemTime]. *)
Definition to_time (c : Cursor) : SystemTime := Z.of_N (cursor_us c) * NANOS.

(** [elapsed]: the error has the time the cursor is ahead of the clock. *)
Definition elapsed (now : SystemTime) (c : Cursor) : result Z Z :=
  if decide (to_time c ≤ now)%Z then Ok (now - to_time c)%Z else Err (to_time c - now)%Z.

(** [elapsed_micros_f64], before the conversion to a float. *)
Definition elapsed_micros (now : SystemTime) (c : Cursor) : Z :=
  match elapsed now c with
  | Ok d => (d / NANOS)%Z
  | Err d => (- (d / NANOS))%Z
  end.

(** The addition panics on overflow. *)
Definition next (c : Cursor) : result string Cursor :=
  if decide (cursor_us c + 1 < u64_bound)%N then Ok (mkCursor (cursor_us c + 1)) else Err "attempt to add with overflow".

(** ** The two directions agree *)

(** A cursor goes through the clock unchanged; a time goes through a cursor
    with an error of less than a microsecond, downwards. *)
Lemma time_roundtrip c : (cursor_us c < u64_bound)%N → at_time (to_time c) = Ok c.
Proof.
  intros Hc. unfold at_time, to_time, NANOS. rewrite decide_False by lia. rewrite Z.div_mul by lia.
  rewrite N2Z.id, N.mod_small by done. by destruct c.
Qed.
Lemma at_time_floor t : (0 ≤ t < Z.of_N u64_bound * NANOS)%Z → ∃ c, at_time t = Ok c ∧ (to_time c ≤ t < to_time c + NANOS)%Z.
Proof.
  intros [H0 H1]. unfold at_time, to_time, NANOS in *. rewrite decide_False by lia. eexists. split; [done|]. cbn [cursor_us].
  assert (Hq : (0 ≤ t / 1000 < Z.of_N u64_bound)%Z) by (split; [apply Z.div_pos; lia|apply Z.div_lt_upper_bound; lia]).
  rewrite N.mod_small by lia. rewrite Z2N.id by lia. pose proof (Z.div_mod t 1000). pose proof (Z.mod_pos_bound t 1000). lia.
Qed.

(** The age, signed, is that of the cursor to the microsecond, and a cursor as
    old as [d] is [back_by d]. *)
Lemma elapsed_micros_spec now c : (Z.abs (now - to_time c - elapsed_micros now c * NANOS) < NANOS)%Z.
Proof.
  unfold elapsed_micros, elapsed, NANOS. destruct (decide _).
  - pose proof (Z.div_mod (now - to_time c) 1000). pose proof (Z.mod_pos_bound (now - to_time c) 1000). lia.
  - pose proof (Z.div_mod (to_time c - now) 1000). pose proof (Z.mod_pos_bound (to_time c - now) 1000). lia.
Qed.
Lemma back_by_elapsed now d : (0 ≤ now - d < Z.of_N u64_bound * NANOS)%Z → (0 ≤ d)%Z →
  ∃ c e, back_by now d = Ok c ∧ elapsed now c = Ok e ∧ (d ≤ e < d + NANOS)%Z.
Proof.
  intros Ht Hd. unfold back_by. destruct (at_time_floor _ Ht) as (c & -> & Hc). exists c, (now - to_time c)%Z. unfold elapsed.
  rewrite decide_True by lia. split_and!; [done|done|lia|lia].
Qed.

(** The next cursor is the least one above; the last has none. *)
Lemma next_spec c c' : next c = Ok c' → (cursor_us c < cursor_us c')%N ∧ ∀ x, (cursor_us c < cursor_us x)%N → (cursor_us c' ≤ cursor_us x)%N.
Proof. unfold next. destruct (decide _); [|done]. intros [= <-]. cbn [cursor_us]. split; [lia|]. intros; lia. Qed.
End Cursors.
