(* ===== verification/JetstreamClient.v ===== *)
(** * jetstream: the reconnecting client (jetstream/src/lib.rs, error.rs, events.rs)

    Configuration and request parameters, the task that reads one websocket
    connection, and the loop that reconnects with a cursor and backs off.  What
    the network does is the input.  The theorems say that with a starting
    cursor and replay the consumer gets the stream without gap or repetition
    across reconnects, what happens without a starting cursor, and when the
    loop gives up. *)

From Stdlib Require Import Sorted.
From stdpp Require Import pretty.
From S2P Require Import Prelude RustStr UfosDbTypes UfosBatch.

(** ** Endpoints and configuration *)

Inductive DefaultJetstreamEndpoints : Type := USEastOne | USEastTwo | USWestOne | USWestTwo.

Inductive JetstreamCompression : Type := NoCompression | Zstd.

Record JetstreamConfig : Type := mkConfig {
  endpoint : string;
  wanted_collections : list Nsid;
  wanted_dids : list Did;
  compression : JetstreamCompression;
  user_agent : option string;
  omit_user_agent_jetstream_info : bool;
  replay_on_reconnect : bool;
  channel_size : N;
  liveliness_ttl : N
}.

Inductive ConfigValidationError : Type :=
  | TooManyWantedCollections (n : nat)
  | TooManyDids (n : nat)
  | InvalidEndpoint.

Inductive JetstreamEventError : Type :=
  | CompressionDictionaryError
  | PingPongError
  | NoMessagesReceived
  | ReceiverClosedError.

Module JetstreamClient.

Definition endpoint_url (e : DefaultJetstreamEndpoints) : string :=
  match e with
  | USEastOne => "wss://jetstream1.us-east.bsky.network/subscribe"
  | USEastTwo => "wss://jetstream2.us-east.bsky.network/subscribe"
  | USWestOne => "wss://jetstream1.us-west.bsky.network/subscribe"
  | USWestTwo => "wss://jetstream2.us-west.bsky.network/subscribe"
  end.

Definition endpoint_or_shortcut (s : string) : string :=
  if decide (s = "us-east-1") then endpoint_url USEastOne
  else if decide (s = "us-east-2") then endpoint_url USEastTwo
  else if decide (s = "us-west-1") then endpoint_url USWestOne
  else if decide (s = "us-west-2") then endpoint_url USWestTwo
  else s.

Definition compression_to_bool (c : JetstreamCompression) : bool :=
  match c with NoCompression => false | Zstd => true end.
Definition compression_of_bool (b : bool) : JetstreamCompression := if b then Zstd else NoCompression.

(** [JetstreamConfig::default]; durations in seconds. *)
Definition default_config : JetstreamConfig :=
  mkConfig (endpoint_url USEastOne) [] [] NoCompression None false false 4096 15.

Definition MAX_WANTED_COLLECTIONS : nat := 100.
Definition MAX_WANTED_DIDS : nat := N.to_nat 10000.

(** [Cursor::to_jetstream]. *)
Definition to_jetstream (c : Cursor) : string := pretty (cursor_us c).

(** The query parameters of [get_request_builder]. *)
Definition request_params (self : JetstreamConfig) (maybe_cursor : option Cursor) : list (string * string) :=
  ((λ s, ("wantedDids", did_str s)) <$> wanted_dids self) ++
  ((λ s, ("wantedCollections", nsid_str s)) <$> wanted_collections self) ++
  [("compress", match compression self with NoCompression => "false" | Zstd => "true" end)] ++
  match maybe_cursor with Some cursor => [("cursor", to_jetstream cursor)] | None => [] end.

(** Its user agent; [pkg_version] is that of the crate. *)
Definition request_user_agent (pkg_version : string) (self : JetstreamConfig) : option string :=
  let ua_info :=
    if omit_user_agent_jetstream_info self then None
    else Some ("v" +:+ pkg_version +:+ " via jetstream-oxide (microcosm/links fork)") in
  match user_agent self, ua_info with
  | Some ua, Some info => Some (ua +:+ " " +:+ info)
  | Some ua, None => Some ua
  | None, Some info => Some info
  | None, None => None
  end.

(** [validate], with the url crate's parser as a test. *)
Definition validate (is_url : string → bool) (self : JetstreamConfig) : result ConfigValidationError () :=
  let collections := length (wanted_collections self) in
  let dids := length (wanted_dids self) in
  if decide (MAX_WANTED_COLLECTIONS < collections) then Err (TooManyWantedCollections collections)
  else if decide (MAX_WANTED_DIDS < dids) then Err (TooManyDids dids)
  else if is_url (endpoint self) then Ok ()
  else Err InvalidEndpoint.

(** ** One connection: [websocket_task] *)

Section Client.
(** serde_json on a text message; zstd and serde_json on a binary one, where the
    decoder itself may be refused. *)
Context (from_str : string → option JetstreamEvent).
Context (from_zstd : string → result () (option JetstreamEvent)).

(** What [socket_read.next()] under the timeout gives, with the outcome of what
    the task then sends: to its channel, and on the socket. *)
Inductive SendOutcome : Type := Sent | ReceiversDropped (close_ok : bool).

Inductive WsInput : Type :=
  | TimedOut
  | TextMessage (json : string) (o : SendOutcome)
  | BinaryMessage (zstd_json : string) (o : SendOutcome)
  | PingMessage (pong_ok : bool)
  | CloseMessage
  | PongMessage
  | FrameMessage
  | WsError
  | WsEnd.

(** The cursor and what went into the channel. *)
Record Reading : Type := mkReading {
  last_cursor : option Cursor;
  delivered : list JetstreamEvent
}.

Inductive Verdict : Type := Continue | Return (r : result JetstreamEventError ()).

(** An event that was parsed: dropped when it is not newer, else sent. *)
Definition deliver (event : JetstreamEvent) (o : SendOutcome) (s : Reading) : Reading * Verdict :=
  let event_cursor := ev_cursor event in
  let old := match last_cursor s with
             | Some last => bool_decide (cursor_us event_cursor ≤ cursor_us last)%N
             | None => false
             end in
  if old then (s, Continue)
  else
    match o with
    | ReceiversDropped close_ok => (s, Return (Err (if close_ok then ReceiverClosedError else PingPongError)))
    | Sent =>
        (mkReading (match last_cursor s with Some _ => Some event_cursor | None => None end)
           (delivered s ++ [event]), Continue)
    end.

Definition websocket_turn (s : Reading) (i : WsInput) : Reading * Verdict :=
  match i with
  | TimedOut => (s, Return (Err NoMessagesReceived))
  | TextMessage json o =>
      match from_str json with
      | None => (s, Continue)
      | Some event => deliver event o s
      end
  | BinaryMessage zstd_json o =>
      match from_zstd zstd_json with
      | Err _ => (s, Return (Err CompressionDictionaryError))
      | Ok None => (s, Continue)
      | Ok (Some event) => deliver event o s
      end
  | PingMessage pong_ok => (s, if pong_ok then Continue else Return (Err PingPongError))
  | CloseMessage | PongMessage | FrameMessage => (s, Continue)
  | WsError | WsEnd => (s, Return (Ok ()))
  end.

(** [websocket_task]; a connection whose inputs run out is still open. *)
Fixpoint websocket_task (s : Reading) (ins : list WsInput) : Reading * option (result JetstreamEventError ()) :=
  match ins with
  | [] => (s, None)
  | i :: ins =>
      match websocket_turn s i with
      | (s, Continue) => websocket_task s ins
      | (s, Return r) => (s, Some r)
      end
  end.

(** ** The reconnecting loop of [connect_cursor] *)

Definition max_retries : N := 300.
Definition base_delay_ms : N := 1000.
Definition max_delay_ms : N := 30000.
Definition success_threshold_s : N := 15.

Definition u64_max : N := 2 ^ 64 - 1.
Definition saturating_pow2 (k : N) : N := N.min u64_max (2 ^ k).

(** The backoff; the product is checked or wraps, as the build has it. *)
Definition backoff (overflow_checks : bool) (retry_attempt : N) : option N :=
  let product := (base_delay_ms * saturating_pow2 retry_attempt)%N in
  if decide (product ≤ u64_max)%N then Some (N.min product max_delay_ms)
  else if overflow_checks then None
  else Some (N.min (product `mod` 2 ^ 64) max_delay_ms).

(** How one turn of the loop goes: the request cannot be built, connecting
    fails, or a connection with its inputs lasts some milliseconds. *)
Inductive Attempt : Type :=
  | RequestRefused
  | ConnectFailed
  | Connected (ins : list WsInput) (elapsed_ms : N).

(** [Open] is a connection that goes on. *)
Inductive Status : Type := Looping | Open | Stopped | ReceiverGone | Panicked.

Record Client : Type := mkClient {
  retry_attempt : N;
  connect_cursor : option Cursor;
  out : list JetstreamEvent;
  slept_ms : list N;
  status : Status
}.

Definition client_start (cursor : option Cursor) : Client := mkClient 0 cursor [] [] Looping.

Definition with_status (st : Status) (c : Client) : Client :=
  mkClient (retry_attempt c) (connect_cursor c) (out c) (slept_ms c) st.

(** After the connection: the retry limit, the cursor of the next connection,
    the backoff. *)
Definition after_attempt (overflow_checks replay : bool) (retry : N) (s : Reading) (c : Client) : Client :=
  if decide (max_retries ≤ retry)%N then mkClient retry (connect_cursor c) (delivered s) (slept_ms c) Stopped
  else
    let connect_cursor := if replay then last_cursor s else None in
    if decide (0 < retry)%N then
      match backoff overflow_checks retry with
      | None => mkClient retry connect_cursor (delivered s) (slept_ms c) Panicked
      | Some delay => mkClient retry connect_cursor (delivered s) (slept_ms c ++ [delay]) Looping
      end
    else mkClient retry connect_cursor (delivered s) (slept_ms c) Looping.

Definition attempt (overflow_checks replay : bool) (c : Client) (a : Attempt) : Client :=
  match status c with
  | Looping =>
      let s := mkReading (connect_cursor c) (out c) in
      let retry := (retry_attempt c + 1)%N in
      match a with
      | RequestRefused => with_status Stopped c
      | ConnectFailed => after_attempt overflow_checks replay retry s c
      | Connected ins elapsed_ms =>
          match websocket_task s ins with
          | (s, Some (Err ReceiverClosedError)) =>
              mkClient retry (connect_cursor c) (delivered s) (slept_ms c) ReceiverGone
          | (s, Some _) =>
              after_attempt overflow_checks replay (if decide (success_threshold_s * 1000 < elapsed_ms)%N then 0%N else retry) s c
          | (s, None) => mkClient (retry_attempt c) (connect_cursor c) (delivered s) (slept_ms c) Open
          end
      end
  | _ => c
  end.

Definition attempts (overflow_checks replay : bool) (cursor : option Cursor) (l : list Attempt) : Client :=
  foldl (attempt overflow_checks replay) (client_start cursor) l.

Lemma attempts_snoc checks replay cursor l a :
  attempts checks replay cursor (l ++ [a]) = attempt checks replay (attempts checks replay cursor l) a.
Proof. unfold attempts. by rewrite foldl_app. Qed.

(** ** Replay without gap or repetition *)

Definition cu (e : JetstreamEvent) : N := cursor_us (ev_cursor e).

(** The event an input carries. *)
Definition event_of (i : WsInput) : option JetstreamEvent :=
  match i with
  | TextMessage json _ => from_str json
  | BinaryMessage z _ => match from_zstd z with Ok e => e | Err _ => None end
  | _ => None
  end.

Section Stream.
(** What the server has, in the order of its cursors. *)
Context (stream : list JetstreamEvent).
Hypothesis stream_sorted : StronglySorted (λ e1 e2, cu e1 < cu e2)%N stream.
Context (c0 : N).

(** The events after [c0] up to [c]. *)
Definition between (c : N) : list JetstreamEvent := filter (λ e, c0 < cu e ∧ cu e ≤ c)%N stream.

Definition above (c : N) : list JetstreamEvent := filter (λ e, c < cu e)%N stream.
Definition at_least (c : N) : list JetstreamEvent := filter (λ e, c ≤ cu e)%N stream.

Lemma filter_all {A} (P : A → Prop) `{∀ x, Decision (P x)} (l : list A) : Forall P l → filter P l = l.
Proof. induction 1 as [|x l Hx Hl IH]; [done|]. by rewrite filter_cons, decide_True, IH. Qed.

Lemma filter_none {A} (P : A → Prop) `{∀ x, Decision (P x)} (l : list A) : Forall (λ x, ¬ P x) l → filter P l = [].
Proof. induction 1 as [|x l Hx Hl IH]; [done|]. by rewrite filter_cons, decide_False. Qed.

Lemma above_cons c e rest :
  (c0 ≤ c)%N → above c = e :: rest →
  (c < cu e)%N ∧ rest = above (cu e) ∧ between (cu e) = between c ++ [e].
Proof.
  unfold above, between. intros Hc. induction stream_sorted as [|a l Hl IH Ha]; [done|].
  rewrite !filter_cons. case_decide as Hca.
  - intros [= <- <-]. split; [done|]. rewrite Forall_forall in Ha.
    rewrite (decide_False (P := (cu a < cu a)%N)) by lia.
    rewrite (decide_True (P := (c0 < cu a ∧ cu a ≤ cu a)%N)) by lia.
    rewrite (decide_False (P := (c0 < cu a ∧ cu a ≤ c)%N)) by lia.
    rewrite (filter_all (λ e, c < cu e)%N l), (filter_all (λ e, cu a < cu e)%N l),
      (filter_none (λ e, c0 < cu e ∧ cu e ≤ cu a)%N l), (filter_none (λ e, c0 < cu e ∧ cu e ≤ c)%N l);
      [done|..]; apply Forall_forall; intros x Hx; specialize (Ha x Hx); simpl in Ha; lia.
  - intros Hf. destruct (IH Hl Hf) as (He & -> & Hb). split; [done|].
    rewrite (decide_False (P := (cu e < cu a)%N)) by lia. split; [done|]. rewrite Hb.
    destruct (decide (c0 < cu a)%N).
    + by rewrite (decide_True (P := (c0 < cu a ∧ cu a ≤ cu e)%N)), (decide_True (P := (c0 < cu a ∧ cu a ≤ c)%N)) by lia.
    + by rewrite (decide_False (P := (c0 < cu a ∧ cu a ≤ cu e)%N)), (decide_False (P := (c0 < cu a ∧ cu a ≤ c)%N)) by lia.
Qed.

Lemma at_least_cons c e rest :
  at_least c = e :: rest →
  (c ≤ cu e)%N ∧ (cu e = c ∧ rest = above c ∨ above c = e :: rest).
Proof.
  unfold above, at_least. induction stream_sorted as [|a l Hl IH Ha]; [done|].
  rewrite !filter_cons. case_decide as Hca.
  - intros [= <- <-]. split; [done|]. rewrite Forall_forall in Ha.
    assert (Habove : ∀ c, (c ≤ cu a)%N → filter (λ e, c < cu e)%N l = l).
    { intros c' Hc'. apply filter_all, Forall_forall. intros x Hx. specialize (Ha x Hx). lia. }
    rewrite (filter_all (λ e, c ≤ cu e)%N l), (Habove c) by
      (done || (apply Forall_forall; intros x Hx; specialize (Ha x Hx); lia)).
    destruct (decide (cu a = c)); [left|right]; [by rewrite decide_False by lia|by rewrite decide_True by lia].
  - intros Hf. rewrite decide_False by lia. by apply (IH Hl).
Qed.

(** The reader has everything after [c0] up to its cursor. *)
Definition caught_up (s : Reading) : Prop :=
  ∃ c, last_cursor s = Some (mkCursor c) ∧ (c0 ≤ c)%N ∧ delivered s = between c.

(** What is still to come goes on where the reader is, or repeats its last event. *)
Definition follows (s : Reading) (evs : list JetstreamEvent) : Prop :=
  ∀ c, last_cursor s = Some (mkCursor c) → evs `prefix_of` above c ∨ evs `prefix_of` at_least c.

Lemma deliver_caught_up e o s evs :
  caught_up s → follows s (e :: evs) →
  caught_up (deliver e o s).1 ∧ ((deliver e o s).2 = Continue → follows (deliver e o s).1 evs).
Proof.
  intros (c & Hl & Hc & Hd) Hf. unfold deliver. rewrite Hl.
  assert (He : (cu e = c ∧ evs `prefix_of` above c) ∨ ∃ rest, above c = e :: rest ∧ evs `prefix_of` rest).
  { destruct (Hf c Hl) as [Hp|Hp]; destruct Hp as [k Hk].
    - right. exists (evs ++ k). split; [done|by exists k].
    - apply at_least_cons in Hk as [_ [[Hce Hr]|Hr]]; [left|right].
      + split; [done|]. rewrite <- Hr. by exists k.
      + exists (evs ++ k). split; [done|by exists k]. }
  destruct He as [[Hce Hp]|(rest & Hab & Hp)].
  - rewrite bool_decide_eq_true_2 by (simpl; unfold cu in Hce; lia). split; [by exists c|].
    intros _ c' [= <-]%(eq_trans (eq_sym Hl)). by left.
  - destruct (above_cons c e rest Hc Hab) as (Hlt & -> & Hb).
    rewrite bool_decide_eq_false_2 by (simpl; unfold cu in Hlt; lia).
    destruct o; simpl; [|by split; [exists c|]]. split.
    + exists (cu e). simpl. split_and!; [unfold cu; by destruct (ev_cursor e)|lia|]. by rewrite Hd, Hb.
    + intros _ c' [= Hc']. left. replace c' with (cu e) by (unfold cu; by rewrite Hc'). done.
Qed.

Lemma task_caught_up ins s :
  caught_up s → follows s (omap event_of ins) → caught_up (websocket_task s ins).1.
Proof.
  revert s; induction ins as [|i ins IH]; intros s Hs Hf; [done|]. simpl in *.
  assert (Hdel : ∀ e o, event_of i = Some e → caught_up (match deliver e o s with
    | (s, Continue) => websocket_task s ins
    | (s, Return r) => (s, Some r)
    end).1).
  { intros e o Hi. rewrite Hi in Hf. destruct (deliver_caught_up e o s _ Hs Hf) as [Hc Hk].
    destruct (deliver e o s) as [s' []]; [|done]. apply IH; [done|]. by apply Hk. }
  destruct i as [|json o|z o|ok| | | | |]; simpl in *; try done; try (by apply IH).
  - destruct (from_str json) as [e|] eqn:E; [by apply Hdel|by apply IH].
  - destruct (from_zstd z) as [[e|]|] eqn:E; [by apply Hdel|by apply IH|done].
  - destruct ok; [by apply IH|done].
Qed.

(** The server serves a connection: from the cursor on, in order, as far as the
    connection lasts. *)
Definition served (checks : bool) (cursor : option Cursor) (l : list Attempt) : Prop :=
  ∀ l1 ins t l2 c, l = l1 ++ Connected ins t :: l2 →
    connect_cursor (attempts checks true cursor l1) = Some (mkCursor c) →
    omap event_of ins `prefix_of` at_least c.

Definition client_reading (c : Client) : Reading := mkReading (connect_cursor c) (out c).

Lemma after_attempt_caught_up checks retry s c :
  caught_up s →
  match status (after_attempt checks true retry s c) with
  | Looping => caught_up (client_reading (after_attempt checks true retry s c))
  | _ => ∃ n, out (after_attempt checks true retry s c) = between n
  end.
Proof.
  intros Hs. unfold after_attempt, client_reading. case_decide; simpl.
  { destruct Hs as (c' & _ & _ & ->). by exists c'. }
  case_decide; [destruct (backoff checks retry)|]; simpl; try (by destruct s);
    destruct Hs as (c' & _ & _ & ->); by exists c'.
Qed.

Lemma attempts_caught_up checks l :
  served checks (Some (mkCursor c0)) l →
  let c := attempts checks true (Some (mkCursor c0)) l in
  match status c with Looping => caught_up (client_reading c) | _ => ∃ c', out c = between c' end.
Proof.
  induction l as [|a l IH] using rev_ind; intros Hserved.
  { exists c0. split_and!; [done|lia|]. symmetry. apply filter_none, Forall_forall. intros e _. lia. }
  assert (Hl : served checks (Some (mkCursor c0)) l).
  { intros l1 ins t l2 c' Hl. subst l. apply (Hserved l1 ins t (l2 ++ [a])). by rewrite <- app_assoc. }
  specialize (IH Hl). cbv zeta in *. rewrite attempts_snoc. remember (attempts checks true (Some (mkCursor c0)) l) as c eqn:Hdef.
  unfold attempt. destruct (status c) eqn:Hst; rewrite ?Hst; try done.
  destruct a as [| |ins t].
  - destruct IH as (c' & _ & _ & Hd). simpl in *. by exists c'.
  - by apply after_attempt_caught_up.
  - assert (Hc : caught_up (websocket_task (client_reading c) ins).1).
    { apply task_caught_up; [done|]. intros c' Hc'. right. apply (Hserved l ins t [] c'); [done|]. by rewrite <- Hdef. }
    unfold client_reading in Hc. destruct (websocket_task _ ins) as [s [[|[]]|]]; simpl in *;
      try (by apply after_attempt_caught_up); destruct Hc as (c' & _ & _ & Hd); by exists c'.
Qed.

(** C14. Gapless playback: starting from a cursor and replaying on reconnect,
    through any number of connections that fail, break off or repeat the event
    at their cursor, the consumer has received exactly the events of the stream
    after the starting cursor up to some cursor, each once and in order; while
    the client goes on, that is the cursor it reconnects with. *)
Theorem replay_gapless checks l :
  served checks (Some (mkCursor c0)) l →
  let client := attempts checks true (Some (mkCursor c0)) l in
  ∃ c, out client = filter (λ e, c0 < cu e ∧ cu e ≤ c)%N stream ∧
    (status client = Looping → connect_cursor client = Some (mkCursor c)).
Proof.
  intros Hs client. pose proof (attempts_caught_up checks l Hs) as Hc. cbv zeta in Hc. fold client in Hc.
  destruct (status client); [|by destruct Hc as [c Hc]; exists c..].
  destruct Hc as (c & Hl & _ & Hd). by exists c.
Qed.

End Stream.

(** ** Without a starting cursor *)

Lemma task_no_cursor ins s : last_cursor s = None → last_cursor (websocket_task s ins).1 = None.
Proof.
  revert s; induction ins as [|i ins IH]; intros s Hs; [done|]. simpl.
  assert (Hdel : ∀ e o, last_cursor (match deliver e o s with
    | (s, Continue) => websocket_task s ins
    | (s, Return r) => (s, Some r)
    end).1 = None).
  { intros e o. unfold deliver. rewrite Hs. destruct o; [|done]. by apply IH. }
  destruct i as [|json o|z o|ok| | | | |]; simpl; try done; try (by apply IH).
  - destruct (from_str json); [apply Hdel|by apply IH].
  - destruct (from_zstd z) as [[e|]|]; [apply Hdel|by apply IH|done].
  - destruct ok; [by apply IH|done].
Qed.

Lemma after_attempt_cursor checks replay retry s c :
  connect_cursor c = None → last_cursor s = None → connect_cursor (after_attempt checks replay retry s c) = None.
Proof.
  intros Hc Hs. unfold after_attempt. case_decide; [done|].
  case_decide; [destruct (backoff checks retry)|]; simpl; by destruct replay.
Qed.

(** A client that starts without a cursor never gets one, also when it is to
    replay on reconnect: no request it makes, after however many events and
    reconnects, carries a cursor. *)
Theorem no_cursor_never_replays checks replay l config :
  let client := attempts checks replay None l in
  connect_cursor client = None ∧
  Forall (λ p, p.1 ≠ "cursor") (request_params config (connect_cursor client)).
Proof.
  intros client.
  assert (Hc : connect_cursor client = None).
  { subst client. induction l as [|a l IH] using rev_ind; [done|]. rewrite attempts_snoc.
    unfold attempt. destruct (status _); try done. destruct a as [| |ins t]; [done|by apply after_attempt_cursor|].
    rewrite IH. pose proof (task_no_cursor ins (mkReading None (out (attempts checks replay None l))) eq_refl) as Ht.
    destruct (websocket_task _ ins) as [s [[|[]]|]]; simpl in *; try done; by apply after_attempt_cursor. }
  split; [done|]. rewrite Hc. unfold request_params. rewrite app_nil_r.
  rewrite !Forall_app, !Forall_fmap. split_and!; [apply Forall_forall; done..|]. by repeat constructor.
Qed.

(** ** Backing off and giving up *)

Lemma backoff_small checks k : (k < 55)%N → backoff checks k = Some (N.min (1000 * 2 ^ k) 30000).
Proof.
  intros Hk. assert (Hp : (2 ^ k ≤ 2 ^ 54)%N) by (apply N.pow_le_mono_r; lia).
  assert (H54 : (2 ^ 54 = 18014398509481984)%N) by reflexivity.
  assert (Hmax : u64_max = 18446744073709551615%N) by reflexivity.
  unfold backoff, saturating_pow2. rewrite (N.min_r u64_max) by lia.
  unfold base_delay_ms, max_delay_ms. by rewrite decide_True by lia.
Qed.

Lemma backoff_large k : (55 ≤ k)%N → backoff true k = None.
Proof.
  intros Hk. assert (Hp : (2 ^ 55 ≤ 2 ^ k)%N) by (apply N.pow_le_mono_r; lia).
  assert (H55 : (2 ^ 55 = 36028797018963968)%N) by reflexivity.
  assert (Hmax : u64_max = 18446744073709551615%N) by reflexivity.
  unfold backoff, saturating_pow2, base_delay_ms. by rewrite decide_False by lia.
Qed.

(** The backoff doubles from two seconds up to its maximum of thirty seconds,
    and never waits longer; but from the 55th failure in a row on its product
    exceeds 64 bits: a build with overflow checks panics there, and one without
    does not wait at all before the attempts after failures 61 to 63. *)
Theorem backoff_overflows :
  (∀ checks k, (k < 55)%N → backoff checks k = Some (N.min (1000 * 2 ^ k) 30000)) ∧
  (∀ checks k d, backoff checks k = Some d → (d ≤ 30000)%N) ∧
  (∀ k, (55 ≤ k)%N → backoff true k = None) ∧
  (∀ k, k ∈ [61; 62; 63]%N → backoff false k = Some 0%N) ∧ (63 < max_retries)%N.
Proof.
  split_and!; [apply backoff_small| |apply backoff_large| |done].
  - intros checks k d. unfold backoff, max_delay_ms. case_decide; [|destruct checks; [done|]]; intros [= <-]; lia.
  - intros k Hk. rewrite !elem_of_cons, elem_of_nil in Hk.
    destruct Hk as [E|[E|[E|[]]]]; rewrite E; vm_compute; reflexivity.
Qed.

(** An attempt that does not reset the count of failures. *)
Definition short (a : Attempt) : Prop :=
  match a with Connected _ t => (t ≤ success_threshold_s * 1000)%N | _ => True end.

Lemma after_attempt_looping checks replay retry s c :
  status (after_attempt checks replay retry s c) = Looping →
  (retry < max_retries)%N ∧ retry_attempt (after_attempt checks replay retry s c) = retry.
Proof.
  unfold after_attempt. case_decide; [done|]. case_decide; [destruct (backoff checks retry)|]; simpl; try done;
    intros _; split; (lia || done).
Qed.

Lemma attempt_short checks replay c a :
  short a → status (attempt checks replay c a) = Looping →
  status c = Looping ∧ (retry_attempt c + 1 < max_retries)%N ∧
  retry_attempt (attempt checks replay c a) = (retry_attempt c + 1)%N.
Proof.
  intros Ha. unfold attempt. destruct (status c) eqn:Hst; try (by rewrite Hst).
  destruct a as [| |ins t]; simpl in Ha; [done|by intros ?%after_attempt_looping|].
  rewrite decide_False by lia.
  destruct (websocket_task _ ins) as [s [[|[]]|]]; simpl; try done; by intros ?%after_attempt_looping.
Qed.

(** C33. The loop ends: after 300 attempts in a row that fail or break off within
    fifteen seconds, the client is not trying any more, whatever it did before. *)
Theorem client_gives_up checks replay c l :
  Forall short l → 300 ≤ length l → status (foldl (attempt checks replay) c l) ≠ Looping.
Proof.
  intros Hl Hlen Hst.
  assert (Hr : status c = Looping ∧
    retry_attempt (foldl (attempt checks replay) c l) = (retry_attempt c + N.of_nat (length l))%N ∧
    (l ≠ [] → retry_attempt c + N.of_nat (length l) < max_retries)%N).
  { clear Hlen. induction l as [|a l IH] using rev_ind; [by split_and!; [done|simpl; lia|]|].
    apply Forall_app in Hl as [Hl [Ha _]%Forall_cons]. rewrite foldl_app in *. cbn [foldl] in *.
    destruct (attempt_short _ _ _ _ Ha Hst) as (Hst' & Hlt & Hr). destruct (IH Hl Hst') as (Hc & Hr' & _).
    rewrite length_app. simpl. split_and!; [done|lia|intros _; lia]. }
  destruct Hr as (_ & _ & Hlt). destruct l as [|a l]; [simpl in Hlen; lia|].
  specialize (Hlt ltac:(done)). unfold max_retries in Hlt. lia.
Qed.

(** A configuration is accepted exactly when it stays within the limits of
    the service and its endpoint is a url; of several faults the first in the
    order collections, DIDs, endpoint is reported. *)
Theorem validate_spec is_url config :
  match validate is_url config with
  | Ok _ => length (wanted_collections config) ≤ 100 ∧ length (wanted_dids config) ≤ N.to_nat 10000 ∧
            is_url (endpoint config) = true
  | Err (TooManyWantedCollections n) => n = length (wanted_collections config) ∧ 100 < n
  | Err (TooManyDids n) => n = length (wanted_dids config) ∧ N.to_nat 10000 < n ∧
            length (wanted_collections config) ≤ 100
  | Err InvalidEndpoint => is_url (endpoint config) = false ∧ length (wanted_collections config) ≤ 100 ∧
            length (wanted_dids config) ≤ N.to_nat 10000
  end.
Proof.
  unfold validate, MAX_WANTED_COLLECTIONS, MAX_WANTED_DIDS. case_decide; [done|]. case_decide; [split_and!; (done || lia)|].
  destruct (is_url (endpoint config)) eqn:E; split_and!; (done || lia).
Qed.

End Client.

(** ** A concrete stream *)

Definition event_at (n : N) : JetstreamEvent := mkEvent (mkCursor n) (mkDid "did:plc:a") KIdentity None None.
Definition number_event (s : string) : option JetstreamEvent := event_at <$> parse_u64 s.
Definition no_zstd (s : string) : result () (option JetstreamEvent) := Err ().

Definition sample_stream : list JetstreamEvent := event_at <$> [4; 5; 6; 7; 8]%N.
Definition sample_attempts : list Attempt :=
  [Connected [TextMessage "4" Sent; TextMessage "5" Sent; PingMessage true; TextMessage "6" Sent; WsError] 100;
   ConnectFailed; Connected [TextMessage "6" Sent; TextMessage "7" Sent; TimedOut] 20000].

Lemma sample_served : served number_event no_zstd sample_stream true (Some (mkCursor 4)) sample_attempts.
Proof.
  intros l1 ins t l2 c E Hc.
  unfold sample_attempts in E. destruct l1 as [|a1 l1].
  { injection E as <- <- <-. vm_compute in Hc. injection Hc as <-.
    exists [event_at 7; event_at 8]. vm_compute. reflexivity. }
  injection E as <- E. destruct l1 as [|a2 l1]; [discriminate E|]. injection E as <- E. destruct l1 as [|a3 l1].
  { injection E as <- <- <-. vm_compute in Hc. injection Hc as <-.
    exists [event_at 8]. vm_compute. reflexivity. }
  injection E as <- E. by destruct l1.
Qed.

Lemma replay_gapless_witness :
  ∃ c, out (attempts number_event no_zstd true true (Some (mkCursor 4)) sample_attempts) =
    filter (λ e, 4 < cu e ∧ cu e ≤ c)%N sample_stream ∧
    out (attempts number_event no_zstd true true (Some (mkCursor 4)) sample_attempts) = event_at <$> [5; 6; 7]%N.
Proof.
  destruct (replay_gapless number_event no_zstd sample_stream) with (c0 := 4%N) (checks := true) (l := sample_attempts)
    as (c & Hc & _).
  - repeat constructor.
  - apply sample_served.
  - exists c. split; [exact Hc|vm_compute; reflexivity].
Defined.

Lemma client_gives_up_witness :
  status (foldl (attempt number_event no_zstd false true) (client_start None) (replicate 300 ConnectFailed)) ≠ Looping.
Proof.
  apply (client_gives_up number_event no_zstd); [|rewrite length_replicate; constructor].
  apply Forall_replicate. exact I.
Defined.

End JetstreamClient.
