(* ===== verification/UfosReplay.v ===== *)
(** * ufos and its event sources (ufos/src/consumer.rs, file_consumer.rs)

    The loop of the batcher over what its channel brings, the configuration of
    the jetstream clients of the services, and the sources in front of the
    pipeline.  Shown here: a recorded file runs through the batcher without an
    error and every commit in it is in a batch once; with a stored cursor the
    network brings the rest of the stream without a gap; services that connect
    without a cursor never replay. *)

From S2P Require Import Prelude RustStr Bytes UfosDbTypes UfosStoreTypes.
From S2P Require Import UfosBatch UfosFixture.
From S2P Require Import UfosFjallApi UfosStorage UfosRollup UfosBackground UfosInsert.
From S2P Require Import UfosCounts UfosPipeline JetstreamClient.
Import Db Store Batch FjallStore Background Insert Counting Pipeline.

Module Replay.

(** ** [Batcher::run] *)

Section Run.
Context `{SketchOps}.

(** What the channel gives within thirty seconds. *)
Inductive Arrival : Type := Elapsed | Arrived (event : JetstreamEvent) | Closed.

(** Where the batcher stands, and the error it ended with: its own, or
    [None] for a closed channel. *)
Fixpoint run (q : Queue) (self : Batcher) (arrivals : list Arrival) : Batcher * option (option BatcherError) :=
  match arrivals with
  | [] => (self, None)
  | Closed :: _ => (self, Some None)
  | Elapsed :: arrivals =>
      match no_events_step q self with
      | Ok self => run q self arrivals
      | Err e => (self, Some (Some e))
      end
  | Arrived event :: arrivals =>
      match handle_event q self event with
      | Ok self => run q self arrivals
      | Err e => (self, Some (Some e))
      end
  end.

End Run.

(** ** The jetstream clients of the services *)

Definition ufos_config (jetstream_endpoint : string) (no_compress : bool) : JetstreamConfig :=
  mkConfig (JetstreamClient.endpoint_or_shortcut jetstream_endpoint) [] []
    (if no_compress then NoCompression else Zstd) None false true 1024 (liveliness_ttl JetstreamClient.default_config).
Definition spacedust_config (jetstream_endpoint : string) (no_zstd : bool) : JetstreamConfig :=
  mkConfig (JetstreamClient.endpoint_or_shortcut jetstream_endpoint) [] []
    (if no_zstd then NoCompression else Zstd) None false true 1024 (liveliness_ttl JetstreamClient.default_config).
Definition slingshot_config (jetstream_endpoint : string) (no_zstd : bool) : JetstreamConfig :=
  mkConfig (JetstreamClient.endpoint_or_shortcut jetstream_endpoint) [] []
    (if no_zstd then NoCompression else Zstd) None false true 1024 (liveliness_ttl JetstreamClient.default_config).

(** The configurations are valid for every endpoint that is one. *)
Lemma configs_valid is_url s b :
  is_url (JetstreamClient.endpoint_or_shortcut s) = true →
  JetstreamClient.validate is_url (ufos_config s b) = Ok () ∧ JetstreamClient.validate is_url (spacedust_config s b) = Ok () ∧
  JetstreamClient.validate is_url (slingshot_config s b) = Ok ().
Proof.
  intros Hu. unfold JetstreamClient.validate, ufos_config, spacedust_config, slingshot_config. cbn [wanted_collections wanted_dids JetstreamClient.endpoint length].
  split_and!; rewrite decide_False by lia; rewrite decide_False by lia; by rewrite Hu.
Qed.

Section Sources.
Context (from_str : string → option JetstreamEvent) (from_zstd : string → result () (option JetstreamEvent)).

(** The mains of spacedust and slingshot connect without a cursor: although
    both ask for a replay on reconnecting, no request of theirs has a cursor,
    and what passes between two connections is lost to them. *)
Theorem services_never_replay checks attempts s b :
  let client := JetstreamClient.attempts from_str from_zstd checks (replay_on_reconnect (spacedust_config s b)) None attempts in
  replay_on_reconnect (spacedust_config s b) = true ∧ replay_on_reconnect (slingshot_config s b) = true ∧
  Forall (λ p, p.1 ≠ "cursor") (JetstreamClient.request_params (spacedust_config s b) (JetstreamClient.connect_cursor client)) ∧
  Forall (λ p, p.1 ≠ "cursor") (JetstreamClient.request_params (slingshot_config s b) (JetstreamClient.connect_cursor client)).
Proof.
  cbv zeta. split_and!; [done|done| |]; by apply JetstreamClient.no_cursor_never_replays.
Qed.
End Sources.

(** ** A recorded file through the batcher *)

Section File.
Context `{FL : FjallLaws} `{LL : LsmTreeLaws} `{AL : AtriumLaws} `{BL : BincodeStrLaws}.
Context `{SketchOps, AtriumNsid, RawValueJson}.
Context `{Bincode2 CommitCounts, Bincode2 RecordLocationMeta, Bincode2 Sketch, Bincode2 SketchSecretPrefix}.
Context `{!Bincode2Laws CommitCounts, !Bincode2Laws RecordLocationMeta, !Bincode2Laws Sketch, !Bincode2Laws SketchSecretPrefix}.
Context (from_str : string → option JetstreamEvent).

(** Every event arrives after those before it. *)
Definition orderly (evs : list JetstreamEvent) : Prop := ∀ l1 ev l2, evs = l1 ++ ev :: l2 → arrives l1 ev.

Lemma run_app q self a1 a2 self' : run q self a1 = (self', None) → run q self (a1 ++ a2) = run q self' a2.
Proof.
  revert self; induction a1 as [|[|ev|] a1 IH]; intros self; cbn [run app].
  - by intros [= ->].
  - destruct (no_events_step q self); [apply IH|done].
  - destruct (handle_event q self ev); [apply IH|done].
  - done.
Qed.

Lemma run_flow q evs0 p evs :
  flow evs0 p → accepts q = true → (N.of_nat (length (evs0 ++ evs)) < u64_bound)%N →
  (∀ l1 ev l2, evs = l1 ++ ev :: l2 → arrives (evs0 ++ l1) ev) →
  ∃ p', run q (pi_batcher p) (Arrived <$> evs) = (pi_batcher p', None) ∧ flow (evs0 ++ evs) p' ∧ pi_store p' = pi_store p ∧ pi_stored p' = pi_stored p.
Proof.
  revert evs0 p; induction evs as [|ev evs IH]; intros evs0 p Hf Hq Hlen Har.
  { exists p. by rewrite app_nil_r. }
  rewrite length_app in Hlen. cbn [length] in Hlen.
  pose proof (flow_ok evs0 p Hf ltac:(lia)) as Hok. assert (Ha : arrives evs0 ev) by (rewrite <- (app_nil_r evs0); by apply (Har [] ev evs)).
  destruct (event_step q evs0 p ev Hok Hq Ha) as (p1 & E1 & _). pose proof (flow_event q evs0 ev p p1 Hf Hq Ha E1) as Hf1.
  unfold take_event in E1. destruct (handle_event q (pi_batcher p) ev) as [b|] eqn:Eb; [|done]. cbn [result_bind] in E1. injection E1 as <-.
  destruct (IH _ _ Hf1 Hq) as (p2 & E2 & Hf2 & Hs2 & Hn2).
  - rewrite !length_app. cbn [length]. lia.
  - intros l1 ev' l2 ->. rewrite <- app_assoc. by apply (Har (ev :: l1) ev' l2).
  - exists p2. rewrite <- app_assoc in Hf2. cbn [fmap list_fmap run]. rewrite Eb. done.
Qed.

(** A file of orderly events goes through the batcher of a new store without an
    error.  With the idle step that follows, every commit of the file is in
    exactly one of the batches for the store; the loop of the batcher does not
    end, since the file consumer keeps its channel open. *)
Theorem file_fills_batches q p lines :
  flow [] p → accepts q = true → Fixture.readable lines → orderly (Fixture.events from_str lines) →
  (N.of_nat (length (Fixture.events from_str lines)) < u64_bound)%N →
  let sent := (Fixture.read_jsonl from_str None None lines).1 in
  ∃ p', run q (pi_batcher p) ((Arrived <$> sent) ++ [Elapsed]) = (pi_batcher p', None) ∧ flow (Fixture.events from_str lines) p' ∧
    is_empty (batch (pi_batcher p')) = true ∧
    ∀ n : Nsid, wf n → add_counts (total (pi_store p) (nsid_str n) AllTime) (seen_in (waiting p') (nsid_str n)) = events_tally (Fixture.events from_str lines) (nsid_str n).
Proof.
  intros Hf Hq Hr Ho Hlen. cbv zeta. unfold Fixture.read_jsonl. rewrite Fixture.send_all_events by done. cbn [fst].
  destruct (run_flow q [] p (Fixture.events from_str lines) Hf Hq Hlen Ho) as (p1 & E1 & Hf1 & Hs1 & _). cbn [app] in Hf1.
  pose proof (flow_ok _ p1 Hf1 Hlen) as Hok1. destruct (pause_step q _ p1 Hok1 Hq) as (p2 & E2 & Hok2 & He).
  pose proof (flow_pause q _ p1 p2 Hf1 Hq E2) as Hf2. unfold pause in E2. destruct (no_events_step q (pi_batcher p1)) as [b|] eqn:Eb; [|done].
  cbn [result_bind] in E2. injection E2 as <-. eexists. split_and!; [|exact Hf2|exact He|].
  - rewrite (run_app _ _ _ _ _ E1). cbn [run]. by rewrite Eb.
  - intros n Hn. rewrite <- (counted_once _ _ n Hok2 Hn). cbn [pi_store]. by rewrite Hs1.
Qed.
End File.
End Replay.
