(* ===== verification/SlingshotIdentity.v ===== *)
(** * slingshot: identities (slingshot/src/identity.rs)

    Handles and DIDs are resolved through a cache whose entries are refreshed
    in the background: a request that finds an old entry puts its key on a
    queue that one refresher works off.  The cache (foyer) and the resolvers
    (atrium) are parameters; the cache may forget entries.  The theorems say
    that cached values have the type their key asks for and come from an answer
    of the resolver, that a handle is only resolved to a DID whose document names
    it, that queue and set of the refresher stay in step, and when the refresher
    makes progress.  Calls and turns are not interrupted here; SlingshotTasks has
    them with their awaits. *)

From S2P Require Import Prelude RustStr UfosDbTypes.

(** ** Types *)

Record Handle : Type := mkHandle { handle_str : string }.

#[global] Instance Handle_eq_dec : EqDecision Handle.
Proof. solve_decision. Defined.

Inductive IdentityKey : Type := KHandle (h : Handle) | KDid (d : Did).

#[global] Instance IdentityKey_eq_dec : EqDecision IdentityKey.
Proof. solve_decision. Defined.
#[global] Instance IdentityKey_countable : Countable IdentityKey.
Proof.
  apply (inj_countable' (λ k, match k with KHandle h => inl (handle_str h) | KDid d => inr (did_str d) end)
    (λ s, match s with inl h => KHandle (mkHandle h) | inr d => KDid (mkDid d) end)).
  by intros [[]|[]].
Defined.

Record PartialMiniDoc : Type := mkMiniDoc {
  unverified_handle : Handle;
  pds : string;
  signing_key : string
}.

Inductive IdentityData : Type := NotFound | DataDid (d : Did) | DataDoc (d : PartialMiniDoc).

(** The time of the fetch, in seconds, and the data. *)
Record IdentityVal : Type := mkVal { last_fetch : Z; data : IdentityData }.

(** atrium's DID documents. *)
Record VerificationMethod : Type := mkMethod {
  vm_id : string;
  vm_type : string;
  vm_controller : string;
  public_key_multibase : option string
}.
Record Service : Type := mkService { sv_id : string; sv_type : string; sv_endpoint : string }.
Record DidDocument : Type := mkDidDocument {
  doc_id : string;
  also_known_as : option (list string);
  verification_method : option (list VerificationMethod);
  service : option (list Service)
}.

Inductive ResolveError : Type := ResolveNotFound | ResolveOther.

Inductive IdentityError : Type :=
  | IdentityValTypeMixup (s : string)
  | FoyerError (e : IdentityError)
  | ResolutionFailed
  | BadDidDoc (s : string)
  | RefreshQueueKeyError (s : string).

Definition MIN_TTL : Z := 4 * 3600.
Definition MIN_NOT_FOUND_TTL : Z := 60.

(** ** Parameters *)

(** The cache of foyer: it may forget entries, but it does not make them up and
    does not return a value that was replaced. *)
Class FoyerCache (C K V : Type) := {
  cache_get : C → K → option V;
  cache_insert : K → V → C → C
}.

Class FoyerLaws (C K V : Type) `{FoyerCache C K V} := {
  cache_get_insert c k v j w :
    cache_get (cache_insert k v c) j = Some w → (j = k ∧ w = v) ∨ (j ≠ k ∧ cache_get c j = Some w)
}.

(** [HybridCache::fetch]: the entry, or what the closure makes, which is inserted. *)
Definition cache_fetch {C K V E : Type} `{FoyerCache C K V} (k : K) (f : result E V) (c : C) : result E V * C :=
  match cache_get c k with
  | Some v => (Ok v, c)
  | None => match f with
            | Ok v => (Ok v, cache_insert k v c)
            | Err e => (Err e, c)
            end
  end.

(** atrium: which strings are handles, and where a document keeps its server. *)
Class AtriumIdentity := {
  handle_new : string → option Handle;
  get_pds_endpoint : DidDocument → option string
}.

(** The clock and what the resolvers answer, at the time of a call. *)
Record World : Type := mkWorld {
  w_now : Z;
  w_handle : Handle → result ResolveError Did;
  w_did : Did → result ResolveError DidDocument
}.

Module Identity.
Section Identity.
Context `{AtriumIdentity}.

(** ** PartialMiniDoc::try_from *)

Fixpoint first_handle (akas : list string) : option Handle :=
  match akas with
  | [] => None
  | aka :: akas =>
      match strip_prefix "at://" aka with
      | None => first_handle akas
      | Some maybe_handle =>
          match handle_new maybe_handle with
          | None => first_handle akas
          | Some h => Some h
          end
      end
  end.

Fixpoint first_key (id : string) (methods : list VerificationMethod) : option string :=
  match methods with
  | [] => None
  | method :: methods =>
      if negb (bool_decide (vm_id method = id +:+ "#atproto")) then first_key id methods
      else if negb (bool_decide (vm_type method = "Multikey")) then first_key id methods
      else if negb (bool_decide (vm_controller method = id)) then first_key id methods
      else match public_key_multibase method with
           | None => first_key id methods
           | Some key => Some key
           end
  end.

Definition try_from (did_doc : DidDocument) : result string PartialMiniDoc :=
  match also_known_as did_doc with
  | None => Err "did doc missing `also_known_as`"
  | Some akas =>
      match first_handle akas with
      | None => Err "no valid atproto handles in `also_known_as`"
      | Some h =>
          match get_pds_endpoint did_doc with
          | None => Err "no valid pds service found"
          | Some pds =>
              match verification_method did_doc with
              | None => Err "no verification methods found"
              | Some methods =>
                  match first_key (doc_id did_doc) methods with
                  | None => Err "no valid atproto signing key found in verification methods"
                  | Some key => Ok (mkMiniDoc h pds key)
                  end
              end
          end
      end
  end.

(** ** State *)

Context {C : Type} `{FoyerCache C IdentityKey IdentityVal}.

Record RefreshQueue : Type := mkRefresh { queue : list IdentityKey; items : gset IdentityKey }.
Record St : Type := mkSt { cache : C; refresh_queue : RefreshQueue }.

(** ** The refresh queue *)

Definition queue_refresh (key : IdentityKey) (s : St) : St :=
  let q := refresh_queue s in
  if decide (key ∈ items q) then s
  else mkSt (cache s) (mkRefresh (queue q ++ [key]) ({[key]} ∪ items q)).

Definition peek_refresh (s : St) : option IdentityKey := head (queue (refresh_queue s)).

Definition complete_refresh (key : IdentityKey) (s : St) : result IdentityError () * St :=
  let q := refresh_queue s in
  match queue q with
  | [] =>
      (Err (RefreshQueueKeyError "no key in queue"), mkSt (cache s) (mkRefresh [] (items q ∖ {[key]})))
  | queue_key :: rest =>
      if negb (bool_decide (queue_key = key)) then
        (Err (RefreshQueueKeyError "wrong key at front of queue"),
         mkSt (cache s) (mkRefresh rest (items q ∖ {[queue_key]})))
      else if decide (key ∈ items q) then
        (Ok (), mkSt (cache s) (mkRefresh rest (items q ∖ {[key]})))
      else
        (Err (RefreshQueueKeyError "key not in items"), mkSt (cache s) (mkRefresh rest (items q)))
  end.

(** ** Requests *)

Definition with_cache (c : C) (s : St) : St := mkSt c (refresh_queue s).

(** The closures given to the cache. *)
Definition fetch_handle (w : World) (handle : Handle) : result IdentityError IdentityVal :=
  match w_handle w handle with
  | Ok did => Ok (mkVal (w_now w) (DataDid did))
  | Err ResolveNotFound => Ok (mkVal (w_now w) NotFound)
  | Err ResolveOther => Err ResolutionFailed
  end.

Definition fetch_did (w : World) (did : Did) : result IdentityError IdentityVal :=
  match w_did w did with
  | Ok did_doc =>
      if negb (bool_decide (doc_id did_doc = did_str did)) then Err (BadDidDoc "did doc's id did not match did")
      else match try_from did_doc with
           | Err e => Err (BadDidDoc e)
           | Ok mini_doc => Ok (mkVal (w_now w) (DataDoc mini_doc))
           end
  | Err ResolveNotFound => Ok (mkVal (w_now w) NotFound)
  | Err ResolveOther => Err ResolutionFailed
  end.

Definition refresh_if (old : bool) (key : IdentityKey) (s : St) : St := if old then queue_refresh key s else s.

Definition handle_to_unverified_did (w : World) (handle : Handle) (s : St) : result IdentityError (option Did) * St :=
  let key := KHandle handle in
  match cache_fetch key (fetch_handle w handle) (cache s) with
  | (Err e, c) => (Err (FoyerError e), with_cache c s)
  | (Ok v, c) =>
      let s := with_cache c s in
      match data v with
      | DataDoc _ => (Err (IdentityValTypeMixup (handle_str handle)), s)
      | NotFound => (Ok None, refresh_if (bool_decide (MIN_NOT_FOUND_TTL ≤ w_now w - last_fetch v)%Z) key s)
      | DataDid did => (Ok (Some did), refresh_if (bool_decide (MIN_TTL ≤ w_now w - last_fetch v)%Z) key s)
      end
  end.

Definition did_to_partial_mini_doc (w : World) (did : Did) (s : St) : result IdentityError (option PartialMiniDoc) * St :=
  let key := KDid did in
  match cache_fetch key (fetch_did w did) (cache s) with
  | (Err e, c) => (Err (FoyerError e), with_cache c s)
  | (Ok v, c) =>
      let s := with_cache c s in
      match data v with
      | DataDid _ => (Err (IdentityValTypeMixup (did_str did)), s)
      | NotFound => (Ok None, refresh_if (bool_decide (MIN_NOT_FOUND_TTL ≤ w_now w - last_fetch v)%Z) key s)
      | DataDoc doc => (Ok (Some doc), refresh_if (bool_decide (MIN_TTL ≤ w_now w - last_fetch v)%Z) key s)
      end
  end.

Definition handle_to_did (w : World) (handle : Handle) (s : St) : result IdentityError (option Did) * St :=
  match handle_to_unverified_did w handle s with
  | (Err e, s) => (Err e, s)
  | (Ok None, s) => (Ok None, s)
  | (Ok (Some did), s) =>
      match did_to_partial_mini_doc w did s with
      | (Err e, s) => (Err e, s)
      | (Ok None, s) => (Ok None, s)
      | (Ok (Some doc), s) =>
          if negb (bool_decide (unverified_handle doc = handle)) then (Ok None, s) else (Ok (Some did), s)
      end
  end.

Definition did_to_pds (w : World) (did : Did) (s : St) : result IdentityError (option string) * St :=
  match did_to_partial_mini_doc w did s with
  | (Err e, s) => (Err e, s)
  | (Ok None, s) => (Ok None, s)
  | (Ok (Some doc), s) => (Ok (Some (pds doc)), s)
  end.

(** ** The refresher *)

Definition insert_val (key : IdentityKey) (v : IdentityVal) (s : St) : St :=
  with_cache (cache_insert key v (cache s)) s.

(** One turn of [run_refresher] that is not the shutdown; an error ends it. *)
Definition refresh_turn (w : World) (s : St) : result IdentityError () * St :=
  match peek_refresh s with
  | None => (Ok (), s)
  | Some (KHandle handle as key) =>
      let s := match w_handle w handle with
               | Ok did => insert_val key (mkVal (w_now w) (DataDid did)) s
               | Err ResolveNotFound => insert_val key (mkVal (w_now w) NotFound) s
               | Err ResolveOther => s
               end in
      complete_refresh key s
  | Some (KDid did as key) =>
      match w_did w did with
      | Ok did_doc =>
          if negb (bool_decide (doc_id did_doc = did_str did)) then (Ok (), s)
          else match try_from did_doc with
               | Err _ => (Ok (), s)
               | Ok mini_doc => complete_refresh key (insert_val key (mkVal (w_now w) (DataDoc mini_doc)) s)
               end
      | Err ResolveNotFound => complete_refresh key (insert_val key (mkVal (w_now w) NotFound) s)
      | Err ResolveOther => complete_refresh key s
      end
  end.

(** ** What a document yields *)

Definition handle_of_aka (aka : string) : option Handle := strip_prefix "at://" aka ≫= handle_new.

Definition key_of_method (id : string) (m : VerificationMethod) : option string :=
  if decide (vm_id m = id +:+ "#atproto" ∧ vm_type m = "Multikey" ∧ vm_controller m = id)
  then public_key_multibase m else None.

Lemma first_handle_spec akas : first_handle akas = head (omap handle_of_aka akas).
Proof.
  induction akas as [|aka akas IH]; simpl; [done|]. unfold handle_of_aka at 1.
  destruct (strip_prefix "at://" aka) as [h|]; simpl; [|done]. by destruct (handle_new h).
Qed.

Lemma first_key_spec id methods : first_key id methods = head (omap (key_of_method id) methods).
Proof.
  induction methods as [|m methods IH]; simpl; [done|]. unfold key_of_method at 1.
  repeat case_bool_decide; simpl; try (by rewrite decide_False by naive_solver).
  rewrite decide_True by done. by destruct (public_key_multibase m).
Qed.

(** A document is accepted exactly when it names a valid handle, a server and
    a key with the expected id, type and controller; the handle and the key
    taken are the first valid ones of their lists. *)
Theorem try_from_spec did_doc doc :
  try_from did_doc = Ok doc ↔
  ∃ akas methods,
    also_known_as did_doc = Some akas ∧ verification_method did_doc = Some methods ∧
    head (omap handle_of_aka akas) = Some (unverified_handle doc) ∧
    get_pds_endpoint did_doc = Some (pds doc) ∧
    head (omap (key_of_method (doc_id did_doc)) methods) = Some (signing_key doc).
Proof.
  unfold try_from. setoid_rewrite <- first_handle_spec. setoid_rewrite <- first_key_spec.
  destruct doc as [h p k]. split.
  - intros Hd. break_in Hd. by eexists _, _.
  - intros (akas & methods & -> & -> & -> & -> & ->). done.
Qed.

(** ** Where cached values come from *)

Section Provenance.
Context `{!FoyerLaws C IdentityKey IdentityVal}.

(** The value of a key is what a resolver answered in one of the worlds seen. *)
Definition origin (seen : list World) (k : IdentityKey) (v : IdentityVal) : Prop :=
  ∃ w, w ∈ seen ∧ last_fetch v = w_now w ∧
  match k, data v with
  | KHandle h, DataDid d => w_handle w h = Ok d
  | KHandle h, NotFound => w_handle w h = Err ResolveNotFound
  | KHandle _, DataDoc _ => False
  | KDid d, DataDoc doc => ∃ dd, w_did w d = Ok dd ∧ doc_id dd = did_str d ∧ try_from dd = Ok doc
  | KDid d, NotFound => w_did w d = Err ResolveNotFound
  | KDid _, DataDid _ => False
  end.

Definition sourced (seen : list World) (c : C) : Prop :=
  ∀ k v, cache_get c k = Some v → origin seen k v.

(** Queue and set of the refresher agree. *)
Definition in_step (q : RefreshQueue) : Prop := NoDup (queue q) ∧ ∀ k, k ∈ queue q ↔ k ∈ items q.

Definition good (seen : list World) (s : St) : Prop := sourced seen (cache s) ∧ in_step (refresh_queue s).

Lemma origin_mono seen seen' k v : seen ⊆ seen' → origin seen k v → origin seen' k v.
Proof. intros Hs (w & Hw & Hr). exists w. split; [by apply Hs|done]. Qed.

Lemma good_mono seen seen' s : seen ⊆ seen' → good seen s → good seen' s.
Proof. intros Hs [Hc Hq]. split; [|done]. intros k v Hv. by apply (origin_mono seen), Hc. Qed.

Lemma sourced_insert seen c k v : sourced seen c → origin seen k v → sourced seen (cache_insert k v c).
Proof. intros Hc Hv j w [[-> ->]|[_ Hw]]%cache_get_insert; [done|by apply Hc]. Qed.

Lemma in_step_queue key s : in_step (refresh_queue s) → in_step (refresh_queue (queue_refresh key s)).
Proof.
  intros [Hnd Hq]. unfold queue_refresh. case_decide as Hk; [done|]. split; simpl.
  - apply NoDup_app. split_and!; [done| |apply NoDup_singleton].
    intros x Hx ->%list_elem_of_singleton. by apply Hk, Hq.
  - intros k. rewrite elem_of_app, list_elem_of_singleton, elem_of_union, elem_of_singleton, Hq. naive_solver.
Qed.

Lemma good_queue seen key s : good seen s → good seen (queue_refresh key s).
Proof.
  intros [Hc Hq]. split; [|by apply in_step_queue]. unfold queue_refresh. by case_decide.
Qed.

Lemma good_refresh_if seen old key s : good seen s → good seen (refresh_if old key s).
Proof. destruct old; [apply good_queue|done]. Qed.

(** The front key is completed without error. *)
Lemma complete_front seen key s :
  good seen s → peek_refresh s = Some key →
  ∃ s', complete_refresh key s = (Ok (), s') ∧ good seen s' ∧ cache s' = cache s ∧
    queue (refresh_queue s') = tail (queue (refresh_queue s)).
Proof.
  intros [Hc [Hnd Hq]] Hp. unfold peek_refresh in Hp. unfold complete_refresh.
  destruct (queue (refresh_queue s)) as [|k rest] eqn:E; [done|]. injection Hp as ->.
  rewrite bool_decide_eq_true_2 by done. simpl.
  rewrite decide_True by (apply Hq; by left). eexists. split_and!; [done| |done|done].
  split; [done|]. simpl. apply NoDup_cons in Hnd as [Hk Hnd]. split; [done|].
  intros k. cbn [queue items refresh_queue]. rewrite elem_of_difference, elem_of_singleton, <- Hq, elem_of_cons. naive_solver.
Qed.

Lemma fetch_handle_origin seen w h v : w ∈ seen → fetch_handle w h = Ok v → origin seen (KHandle h) v.
Proof.
  intros Hw. unfold fetch_handle. destruct (w_handle w h) as [d|[]] eqn:E; [| |done]; intros [= <-]; by exists w.
Qed.

Lemma fetch_did_origin seen w d v : w ∈ seen → fetch_did w d = Ok v → origin seen (KDid d) v.
Proof.
  intros Hw. unfold fetch_did. destruct (w_did w d) as [dd|[]] eqn:E; [| |done].
  - case_bool_decide as Hid; [|done]. simpl. destruct (try_from dd) as [doc|] eqn:Ht; [|done].
    intros [= <-]. exists w. split_and!; [done|done|]. by exists dd.
  - intros [= <-]. by exists w.
Qed.

Lemma fetch_sourced seen (k : IdentityKey) (f : result IdentityError IdentityVal) c :
  sourced seen c → (∀ v, f = Ok v → origin seen k v) →
  sourced seen (cache_fetch k f c).2 ∧ (∀ v, (cache_fetch k f c).1 = Ok v → origin seen k v) ∧
  (∀ e, (cache_fetch k f c).1 = Err e → f = Err e).
Proof.
  intros Hc Hf. unfold cache_fetch. destruct (cache_get c k) as [v|] eqn:E.
  - split_and!; [done| |done]. intros v' [= <-]. by apply Hc.
  - destruct f as [v|e]; simpl.
    + split_and!; [by apply sourced_insert; [|apply Hf]| |done]. intros v' [= <-]. by apply Hf.
    + split_and!; [done|done|]. by intros e' [= <-].
Qed.

(** Errors that say the program lost track of its own data. *)
Definition internal (e : IdentityError) : bool :=
  match e with IdentityValTypeMixup _ | RefreshQueueKeyError _ => true | _ => false end.

Lemma handle_to_unverified_good seen w h s :
  w ∈ seen → good seen s →
  good seen (handle_to_unverified_did w h s).2 ∧
  match (handle_to_unverified_did w h s).1 with
  | Ok (Some d) => ∃ w', w' ∈ seen ∧ w_handle w' h = Ok d
  | Ok None => ∃ w', w' ∈ seen ∧ w_handle w' h = Err ResolveNotFound
  | Err e => internal e = false
  end.
Proof.
  intros Hw [Hc Hq]. unfold handle_to_unverified_did.
  destruct (fetch_sourced seen (KHandle h) (fetch_handle w h) (cache s)) as (Hc' & Hv & He);
    [done|intros v; by apply fetch_handle_origin|].
  destruct (cache_fetch _ _ _) as [[v|e] c]; simpl in *; [|done].
  destruct (Hv v eq_refl) as (w' & Hw' & _ & Hd). destruct (data v); [| |done];
    (split; [by apply good_refresh_if|by exists w']).
Qed.

Lemma did_to_doc_good seen w d s :
  w ∈ seen → good seen s →
  good seen (did_to_partial_mini_doc w d s).2 ∧
  match (did_to_partial_mini_doc w d s).1 with
  | Ok (Some doc) => ∃ w' dd, w' ∈ seen ∧ w_did w' d = Ok dd ∧ doc_id dd = did_str d ∧ try_from dd = Ok doc
  | Ok None => ∃ w', w' ∈ seen ∧ w_did w' d = Err ResolveNotFound
  | Err e => internal e = false
  end.
Proof.
  intros Hw [Hc Hq]. unfold did_to_partial_mini_doc.
  destruct (fetch_sourced seen (KDid d) (fetch_did w d) (cache s)) as (Hc' & Hv & He);
    [done|intros v; by apply fetch_did_origin|].
  destruct (cache_fetch _ _ _) as [[v|e] c]; simpl in *; [|done].
  destruct (Hv v eq_refl) as (w' & Hw' & _ & Hd). destruct (data v); [|done|];
    (split; [by apply good_refresh_if|]); [by exists w'|]. destruct Hd as (dd & ? & ? & ?). by exists w', dd.
Qed.

(** The DID that a handle resolved to, and a document of that DID that names it. *)
Definition verified (seen : list World) (h : Handle) (d : Did) : Prop :=
  (∃ w, w ∈ seen ∧ w_handle w h = Ok d) ∧
  ∃ w dd doc, w ∈ seen ∧ w_did w d = Ok dd ∧ doc_id dd = did_str d ∧ try_from dd = Ok doc ∧
    unverified_handle doc = h.

Lemma handle_to_did_good seen w h s :
  w ∈ seen → good seen s →
  good seen (handle_to_did w h s).2 ∧
  match (handle_to_did w h s).1 with
  | Ok (Some d) => verified seen h d
  | Ok None => True
  | Err e => internal e = false
  end.
Proof.
  intros Hw Hs. unfold handle_to_did. destruct (handle_to_unverified_good seen w h s Hw Hs) as [Hs1 Hr1].
  destruct (handle_to_unverified_did w h s) as [[[d|]|e] s1]; simpl in *; try done.
  destruct (did_to_doc_good seen w d s1 Hw Hs1) as [Hs2 Hr2].
  destruct (did_to_partial_mini_doc w d s1) as [[[doc|]|e] s2]; simpl in *; try done.
  case_bool_decide as Hh; simpl; [|done]. split; [done|]. split; [done|].
  destruct Hr2 as (w' & dd & ? & ? & ? & ?). by exists w', dd, doc.
Qed.

Lemma refresh_turn_good seen w s :
  w ∈ seen → good seen s → ∃ s', refresh_turn w s = (Ok (), s') ∧ good seen s'.
Proof.
  intros Hw Hs. unfold refresh_turn. destruct (peek_refresh s) as [key|] eqn:Hp; [|by exists s].
  assert (Hdone : ∀ s', good seen s' → refresh_queue s' = refresh_queue s →
    ∃ s'', complete_refresh key s' = (Ok (), s'') ∧ good seen s'').
  { intros s' Hs' Hq. destruct (complete_front seen key s' Hs') as (s'' & Hc & Hg & _); [|by exists s''].
    unfold peek_refresh. by rewrite Hq. }
  assert (Hins : ∀ v, origin seen key v → good seen (insert_val key v s)).
  { intros v Hv. destruct Hs as [Hc Hq]. split; [by apply sourced_insert|done]. }
  destruct key as [h|d].
  - destruct (w_handle w h) as [d|[]] eqn:E; apply Hdone; try done; apply Hins; by exists w.
  - destruct (w_did w d) as [dd|[]] eqn:E; [|apply Hdone; try done; apply Hins; by exists w|by apply Hdone].
    case_bool_decide as Hid; simpl; [|by exists s]. destruct (try_from dd) as [doc|] eqn:Ht; [|by exists s].
    apply Hdone; [|done]. apply Hins. exists w. split_and!; [done|done|]. by exists dd.
Qed.

(** ** Every run *)

Inductive Op : Type := OpHandleToDid (h : Handle) | OpDidToDoc (d : Did) | OpDidToPds (d : Did) | OpRefresh.

Definition op_step (w : World) (op : Op) (s : St) : St :=
  match op with
  | OpHandleToDid h => (handle_to_did w h s).2
  | OpDidToDoc d => (did_to_partial_mini_doc w d s).2
  | OpDidToPds d => (did_to_pds w d s).2
  | OpRefresh => (refresh_turn w s).2
  end.

(** States of the service: it starts with an empty cache, runs operations in
    worlds that change, and its cache may forget. *)
Inductive reachable : list World → St → Prop :=
  | reach_start c :
      (∀ k, cache_get c k = None) → reachable [] (mkSt c (mkRefresh [] ∅))
  | reach_op seen s w op :
      reachable seen s → reachable (w :: seen) (op_step w op s)
  | reach_evict seen s c :
      reachable seen s → (∀ k v, cache_get c k = Some v → cache_get (cache s) k = Some v) →
      reachable seen (with_cache c s).

Lemma did_to_pds_state w d s : (did_to_pds w d s).2 = (did_to_partial_mini_doc w d s).2.
Proof. unfold did_to_pds. by destruct (did_to_partial_mini_doc w d s) as [[[?|]|?] ?]. Qed.

Lemma reachable_good seen s : reachable seen s → good seen s.
Proof.
  induction 1 as [c Hc|seen s w op Hr IH|seen s c Hr IH Hc].
  - split; [by intros k v Hv; rewrite Hc in Hv|]. split; simpl; [constructor|set_solver].
  - assert (Hw : w ∈ w :: seen) by (by left).
    apply (good_mono seen (w :: seen)) in IH; [|set_solver].
    destruct op as [h|d|d|]; simpl.
    + by apply handle_to_did_good.
    + by apply did_to_doc_good.
    + rewrite did_to_pds_state. by apply did_to_doc_good.
    + destruct (refresh_turn_good _ w s Hw IH) as (s' & -> & ?). done.
  - destruct IH as [Hs Hq]. split; [|done]. intros k v Hv. by apply Hs, Hc.
Qed.

(** Handles are verified: in every run of requests and refreshes, over any
    changes of the outside world and any forgetting of the cache, a DID is
    returned for a handle only if the resolver at some time answered it for that
    handle, and at some time answered a document for that DID, with its id, whose
    first valid handle is the one asked for. *)
Theorem resolved_handle_verified seen s w h d :
  reachable seen s → (handle_to_did w h s).1 = Ok (Some d) → verified (w :: seen) h d.
Proof.
  intros Hr%reachable_good Hd. apply (good_mono _ (w :: seen)) in Hr; [|set_solver].
  destruct (handle_to_did_good (w :: seen) w h s) as [_ Hg]; [by left|done|]. by rewrite Hd in Hg.
Qed.

(** C29. Cached values have the type of their key: no request of any run ends in
    the mix-up error, and what it answers is what a resolver answered for its
    key; the refresher never stops with a queue error. *)
Theorem identity_types seen s w :
  reachable seen s →
  (∀ h, match (handle_to_unverified_did w h s).1 with
        | Ok (Some d) => ∃ w', w' ∈ w :: seen ∧ w_handle w' h = Ok d
        | Ok None => ∃ w', w' ∈ w :: seen ∧ w_handle w' h = Err ResolveNotFound
        | Err e => internal e = false
        end) ∧
  (∀ d, match (did_to_partial_mini_doc w d s).1 with
        | Ok (Some doc) => ∃ w' dd, w' ∈ w :: seen ∧ w_did w' d = Ok dd ∧ doc_id dd = did_str d ∧ try_from dd = Ok doc
        | Ok None => ∃ w', w' ∈ w :: seen ∧ w_did w' d = Err ResolveNotFound
        | Err e => internal e = false
        end) ∧
  (refresh_turn w s).1 = Ok ().
Proof.
  intros Hr%reachable_good. apply (good_mono _ (w :: seen)) in Hr; [|set_solver].
  assert (Hw : w ∈ w :: seen) by (by left). split_and!.
  - intros h. by apply handle_to_unverified_good.
  - intros d. by apply did_to_doc_good.
  - destruct (refresh_turn_good _ w s Hw Hr) as (s' & -> & _). done.
Qed.

(** The queue of the refresher holds no key twice and has exactly the keys of
    its set, in every run. *)
Theorem refresh_queue_in_step seen s :
  reachable seen s → NoDup (queue (refresh_queue s)) ∧ ∀ k, k ∈ queue (refresh_queue s) ↔ k ∈ items (refresh_queue s).
Proof. intros [_ Hq]%reachable_good. exact Hq. Qed.

(** ** Progress of the refresher *)

Definition turns (ws : list World) (s : St) : St := foldl (λ s w, (refresh_turn w s).2) s ws.

(** The document of the key, if one is found, can be used. *)
Definition usable (w : World) (k : IdentityKey) : Prop :=
  match k with
  | KHandle _ => True
  | KDid d => match w_did w d with
              | Ok dd => doc_id dd = did_str d ∧ is_ok (try_from dd) = true
              | Err _ => True
              end
  end.

Lemma refresh_turn_progress seen w s key :
  good seen s → peek_refresh s = Some key → usable w key →
  queue (refresh_queue (refresh_turn w s).2) = tail (queue (refresh_queue s)).
Proof.
  intros Hs Hp Hu. unfold refresh_turn. rewrite Hp.
  assert (Hdone : ∀ s', refresh_queue s' = refresh_queue s →
    queue (refresh_queue (complete_refresh key s').2) = tail (queue (refresh_queue s))).
  { intros s' Hq. unfold complete_refresh. rewrite Hq. unfold peek_refresh in Hp.
    destruct (queue (refresh_queue s)) as [|k rest]; [done|]. destruct (negb _); [done|]. by case_decide. }
  destruct key as [h|d]; simpl in Hu.
  - destruct (w_handle w h) as [d|[]]; by apply Hdone.
  - destruct (w_did w d) as [dd|[]]; [|by apply Hdone..]. destruct Hu as [Hid Ht].
    rewrite bool_decide_eq_true_2 by done. simpl. destruct (try_from dd); [by apply Hdone|done].
Qed.

(** The refresher works its queue off: if every document that is found for a
    queued DID is usable, as many turns as there are keys empty the queue. *)
Theorem refresher_drains seen s ws :
  reachable seen s → length ws = length (queue (refresh_queue s)) →
  Forall (λ w, ∀ k, k ∈ queue (refresh_queue s) → usable w k) ws →
  queue (refresh_queue (turns ws s)) = [].
Proof.
  intros Hr%reachable_good. revert seen s Hr; induction ws as [|w ws IH]; intros seen s Hr Hlen Hall; simpl in *.
  { by destruct (queue (refresh_queue s)). }
  apply Forall_cons in Hall as [Hw Hall].
  destruct (queue (refresh_queue s)) as [|key rest] eqn:Hq; [done|].
  assert (Hp : peek_refresh s = Some key) by (unfold peek_refresh; by rewrite Hq).
  assert (Hu : usable w key) by (apply Hw; by left).
  pose proof (refresh_turn_progress seen w s key Hr Hp Hu) as Hrest. rewrite Hq in Hrest. simpl in Hrest.
  destruct (refresh_turn_good (w :: seen) w s) as (s' & Hs' & Hg'); [by left|by apply (good_mono seen); [set_solver|]|].
  apply (IH (w :: seen)); rewrite Hs'; [done| |]; rewrite Hs' in Hrest; simpl in *; rewrite Hrest; [lia|].
  apply (Forall_impl _ _ _ Hall). intros w' Hw' k Hk. apply Hw'. by right.
Qed.

(** A document that was found but is not usable stops the refresher: as long
    as the DID at the front of the queue has such a document, no number of turns
    changes anything, and no key behind it is ever refreshed. *)
Theorem refresher_stuck s ws d :
  peek_refresh s = Some (KDid d) → Forall (λ w, ¬ usable w (KDid d)) ws → turns ws s = s.
Proof.
  intros Hp. induction 1 as [|w ws Hw Hws IH]; [done|]. simpl.
  assert (Hs : (refresh_turn w s).2 = s); [|by rewrite Hs].
  unfold refresh_turn. rewrite Hp. simpl in Hw. destruct (w_did w d) as [dd|]; [|by destruct Hw].
  case_bool_decide; [|done]. simpl. destruct (try_from dd); [by destruct Hw|done].
Qed.

End Provenance.

End Identity.

(** ** A concrete service *)

#[local] Instance map_cache : FoyerCache (gmap IdentityKey IdentityVal) IdentityKey IdentityVal :=
  { cache_get c k := c !! k; cache_insert k v c := <[k := v]> c }.
#[local] Instance map_cache_laws : FoyerLaws (gmap IdentityKey IdentityVal) IdentityKey IdentityVal.
Proof.
  split. intros c k v j w. simpl. destruct (decide (j = k)) as [->|Hne].
  - rewrite lookup_insert_eq. intros [= <-]. by left.
  - rewrite lookup_insert_ne by done. by right.
Qed.
#[local] Instance dotted_handles : AtriumIdentity := {
  handle_new s := if str_contains "." s then Some (mkHandle s) else None;
  get_pds_endpoint d := match service d with Some (s :: _) => Some (sv_endpoint s) | _ => None end
}.

Definition alice : Handle := mkHandle "alice.test".
Definition alice_did : Did := mkDid "did:plc:alice".
Definition bob_did : Did := mkDid "did:plc:bob".

Definition alice_doc : DidDocument :=
  mkDidDocument "did:plc:alice" (Some ["https://x"; "at://alice.test"])
    (Some [mkMethod "did:plc:alice#atproto" "Multikey" "did:plc:alice" (Some "zKey")])
    (Some [mkService "#atproto_pds" "AtprotoPersonalDataServer" "https://pds.test"]).

(** bob's document has no usable handle. *)
Definition bob_doc : DidDocument := mkDidDocument "did:plc:bob" (Some []) None None.

Definition sample_world (now : Z) : World := mkWorld now
  (λ h, if decide (h = alice) then Ok alice_did else Err ResolveNotFound)
  (λ d, if decide (d = alice_did) then Ok alice_doc else if decide (d = bob_did) then Ok bob_doc else Err ResolveNotFound).

Definition empty_service : St (C := gmap IdentityKey IdentityVal) := mkSt ∅ (mkRefresh [] ∅).
Definition warm_service : St := op_step (sample_world 0) (OpHandleToDid alice) empty_service.
(** Five hours later both entries of alice are old. *)
Definition stale_service : St := op_step (sample_world 18000) (OpHandleToDid alice) warm_service.

Lemma empty_reachable : reachable [] empty_service.
Proof. apply reach_start. intros k. apply lookup_empty. Qed.
Lemma warm_reachable : reachable [sample_world 0] warm_service.
Proof. apply reach_op, empty_reachable. Qed.
Lemma stale_reachable : reachable [sample_world 18000; sample_world 0] stale_service.
Proof. apply reach_op, warm_reachable. Qed.

Lemma resolved_handle_verified_witness :
  (handle_to_did (sample_world 5) alice warm_service).1 = Ok (Some alice_did) ∧
  verified [sample_world 5; sample_world 0] alice alice_did.
Proof.
  assert (Hd : (handle_to_did (sample_world 5) alice warm_service).1 = Ok (Some alice_did)) by (vm_compute; reflexivity).
  split; [exact Hd|]. apply (resolved_handle_verified _ warm_service _ _ _ warm_reachable Hd).
Defined.

Lemma identity_types_witness : (refresh_turn (sample_world 18001) stale_service).1 = Ok ().
Proof. apply (identity_types _ stale_service (sample_world 18001) stale_reachable). Defined.

Lemma refresh_queue_in_step_witness :
  queue (refresh_queue stale_service) = [KHandle alice; KDid alice_did] ∧ NoDup (queue (refresh_queue stale_service)).
Proof.
  split; [vm_compute; reflexivity|]. apply (refresh_queue_in_step _ stale_service stale_reachable).
Defined.

Lemma refresher_drains_witness :
  queue (refresh_queue (turns [sample_world 18001; sample_world 18002] stale_service)) = [].
Proof.
  assert (Hq : queue (refresh_queue stale_service) = [KHandle alice; KDid alice_did]) by (vm_compute; reflexivity).
  apply (refresher_drains _ _ _ stale_reachable); rewrite Hq; [reflexivity|].
  repeat constructor; intros k [E|[E|E%not_elem_of_nil]%elem_of_cons]%elem_of_cons; rewrite ?E;
    try done; vm_compute; split; reflexivity.
Defined.

(** A stale entry of bob at the front, with alice's behind it. *)
Definition blocked_service : St (C := gmap IdentityKey IdentityVal) :=
  mkSt ∅ (mkRefresh [KDid bob_did; KHandle alice] {[KDid bob_did; KHandle alice]}).

Lemma refresher_stuck_witness : turns (sample_world <$> [1; 2; 3]%Z) blocked_service = blocked_service.
Proof.
  apply (refresher_stuck blocked_service _ bob_did); [reflexivity|].
  repeat constructor; vm_compute; intros [_ E]; discriminate E.
Defined.

End Identity.
