(* ===== verification/SlingshotServer.v ===== *)
(** * slingshot: records and handlers (slingshot/src/record.rs, consumer.rs, server.rs)

    Records come from the event stream, which fills a cache, or from the server
    of their repository; the handlers answer from the cache and through the
    identity component.  The theorems say what a found record is, that a
    requested version is the one returned, when a deletion is reported, that a
    handle which is returned was verified, and how the requests upstream are
    repeated.  A handler here is a request that no other task interrupts; with
    its awaits, and with other tasks in between, it is in SlingshotTasks. *)

From S2P Require Import Prelude RustStr LinksAtUri UfosDbTypes UfosBatch.
From S2P Require Import SlingshotIdentity.
Import Identity.

(** ** record.rs *)

(** A CID, parsed. *)
Record Cid : Type := mkCid { cid_str : string }.

#[global] Instance Cid_eq_dec : EqDecision Cid.
Proof. solve_decision. Defined.

Record RawRecord : Type := mkRawRecord { rr_cid : Cid; rr_record : string }.
Inductive CachedRecord : Type := Found (raw : RawRecord) | Deleted.

Record RecordResponseObject : Type := mkRecordResponse { ro_cid : option string; ro_value : string }.
Record ErrorResponseObject : Type := mkErrorResponse { er_error : string; er_message : string }.

Inductive RecordError : Type :=
  | RecIdentityError (e : IdentityError)
  | RecNotFound (s : string)
  | RecUrlParseError
  | RecSendError
  | RecStatusError
  | RecParseJsonError
  | RecMissingUpstreamCid
  | RecBadUpstreamCid
  | RecUpstreamBadRequest (e : ErrorResponseObject)
  | RecUpstreamBadBadNotGoodRequest.

(** What a request to a server can come to; bodies are [None] when they do not
    parse. *)
Inductive HttpOutcome : Type :=
  | UrlInvalid
  | SendFailed
  | BadRequestStatus (body : option ErrorResponseObject)
  | ErrorStatus
  | SuccessStatus (body : option RecordResponseObject).

(** ** server.rs: responses *)

Record XrpcError : Type := mkXrpcError { xe_error : string; xe_message : string }.

Record FoundRecordResponseObject : Type := mkFoundRecord { fr_uri : string; fr_cid : option string; fr_value : string }.
Record MiniDocResponseObject : Type := mkMiniDocResponse {
  md_did : string;
  md_handle : string;
  md_pds : string;
  md_signing_key : string
}.
Record FoundDidResponseObject : Type := mkFoundDid { fd_did : string }.

(** The three response types; [RespPanic] is a handler that panicked. *)
Inductive Response (A : Type) : Type :=
  | RespOk (a : A)
  | RespBadRequest (e : XrpcError)
  | RespServerError (e : XrpcError)
  | RespPanic.
Arguments RespOk {A} a.
Arguments RespBadRequest {A} e.
Arguments RespServerError {A} e.
Arguments RespPanic {A}.

Definition xrpc_error (error message : string) : XrpcError := mkXrpcError error message.

Module Slingshot.
Section Slingshot.
Context `{AtriumIdentity, Atrium, FluentUri}.
Context {C : Type} `{FoyerCache C IdentityKey IdentityVal}.
Context {R : Type} `{FoyerCache R string CachedRecord}.
(** [Cid::from_str]; and whether a text is JSON, for serde_json. *)
Context (cid_from_str : string → option Cid) (is_json : string → bool).

Definition did_new (s : string) : option Did := if did_valid s then Some (mkDid s) else None.
Definition nsid_new (s : string) : option Nsid := if nsid_valid s then Some (mkNsid s) else None.
Definition rkey_new (s : string) : option RecordKey := if rkey_valid s then Some (mkRecordKey s) else None.

(** ** Repo::get_record *)

Definition record_params (did : Did) (collection : Nsid) (rkey : RecordKey) (cid : option Cid) : list (string * string) :=
  [("repo", did_str did); ("collection", nsid_str collection); ("rkey", rkey_str rkey)] ++
  match cid with Some cid => [("cid", cid_str cid)] | None => [] end.

(** The loop around the request; [get] sends the parameters to the server. *)
Fixpoint request_loop (fuel : nat) (get : list (string * string) → HttpOutcome)
    (did : Did) (collection : Nsid) (rkey : RecordKey) (cid : option Cid) : option (result RecordError HttpOutcome) :=
  match fuel with
  | O => None
  | S fuel =>
      match get (record_params did collection rkey cid) with
      | UrlInvalid => Some (Err RecUrlParseError)
      | SendFailed => Some (Err RecSendError)
      | BadRequestStatus None => Some (Err RecUpstreamBadBadNotGoodRequest)
      | BadRequestStatus (Some err) =>
          if bool_decide (er_error err = "NotFound") && bool_decide (is_Some cid)
          then request_loop fuel get did collection rkey None
          else Some (Err (RecUpstreamBadRequest err))
      | res => Some (Ok res)
      end
  end.

(** The rest of [get_record], on the response. *)
Definition record_of_response (res : HttpOutcome) : result RecordError CachedRecord :=
  match res with
  | SuccessStatus None => Err RecParseJsonError
  | SuccessStatus (Some data) =>
      match ro_cid data with
      | None => Err RecMissingUpstreamCid
      | Some cid =>
          match cid_from_str cid with
          | None => Err RecBadUpstreamCid
          | Some cid => Ok (Found (mkRawRecord cid (ro_value data)))
          end
      end
  | _ => Err RecStatusError
  end.

(** Two turns of the loop are enough; [None] does not occur. *)
Definition repo_get_record (w : World) (http : string → list (string * string) → HttpOutcome)
    (did : Did) (collection : Nsid) (rkey : RecordKey) (cid : option Cid) (s : St (C := C))
    : result RecordError CachedRecord * St (C := C) :=
  match did_to_pds w did s with
  | (Err e, s) => (Err (RecIdentityError e), s)
  | (Ok None, s) => (Err (RecNotFound "could not get pds for DID"), s)
  | (Ok (Some pds), s) =>
      (match request_loop 2 (http pds) did collection rkey cid with
       | None => Err RecSendError
       | Some (Err e) => Err e
       | Some (Ok res) => record_of_response res
       end, s)
  end.

(** ** consumer.rs *)

Definition record_uri (did : Did) (collection : Nsid) (rkey : RecordKey) : string :=
  "at://" +:+ did_str did +:+ "/" +:+ nsid_str collection +:+ "/" +:+ rkey_str rkey.

(** One event of [consume]; the [cid] of the event is parsed already. *)
Definition consume_event (event : JetstreamEvent) (cache : R) : R :=
  match ev_kind event, ev_commit event with
  | KCommit, Some commit =>
      let at_uri := record_uri (ev_did event) (ce_collection commit) (ce_rkey commit) in
      match ce_operation commit with
      | OpDelete => cache_insert at_uri Deleted cache
      | _ =>
          match ce_record commit, ce_cid commit with
          | Some record, Some cid => cache_insert at_uri (Found (mkRawRecord (mkCid cid) record)) cache
          | _, _ => cache
          end
      end
  | _, _ => cache
  end.

(** ** The handlers *)

Record Xrpc : Type := mkXrpc { x_cache : R; x_identity : St (C := C) }.

Definition sorry {A} : Response A := RespServerError (xrpc_error "ServerError" "sorry, something went wrong").

(** [get_record_impl] after its parameters are validated. *)
Definition serve_record (w : World) (http : string → list (string * string) → HttpOutcome)
    (did : Did) (collection : Nsid) (rkey : RecordKey) (cid : option Cid) (x : Xrpc)
    : Response FoundRecordResponseObject * Xrpc :=
  let at_uri := record_uri did collection rkey in
  let '(fetched, s) :=
    match cache_get (x_cache x) at_uri with
    | Some _ => (Err RecSendError, x_identity x)
    | None => repo_get_record w http did collection rkey cid (x_identity x)
    end in
  let '(fr, c) := cache_fetch at_uri fetched (x_cache x) in
  let x := mkXrpc c s in
  (match fr with
   | Err (RecUpstreamBadRequest err) =>
       RespBadRequest (xrpc_error (er_error err) ("Upstream bad request: " +:+ er_message err))
   | Err _ => sorry
   | Ok (Found raw) =>
       if negb (is_json (rr_record raw)) then RespPanic
       else if match cid with Some c => negb (bool_decide (c = rr_cid raw)) | None => false end
       then RespBadRequest (xrpc_error "RecordNotFound" "A record was found but its CID did not match that requested")
       else RespOk (mkFoundRecord at_uri (Some (cid_str (rr_cid raw))) (rr_record raw))
   | Ok Deleted => RespBadRequest (xrpc_error "RecordNotFound" "This record was deleted")
   end, x).

(** The repository parameter: a DID, or a handle to resolve. *)
Definition repo_did (w : World) (repo : string) (x : Xrpc) : result (Response FoundRecordResponseObject) Did * Xrpc :=
  match did_new repo with
  | Some did => (Ok did, x)
  | None =>
      match handle_new repo with
      | None => (Err (RespBadRequest (xrpc_error "InvalidRequest" "repo was not a valid DID or handle")), x)
      | Some handle =>
          let '(r, s) := handle_to_did w handle (x_identity x) in
          (match r with
           | Ok (Some did) => Ok did
           | Ok None => Err (RespBadRequest (xrpc_error "InvalidRequest" "Could not resolve handle repo to a DID"))
           | Err _ => Err (RespServerError (xrpc_error "ResolutionFailed" "errored while trying to resolve handle to DID"))
           end, mkXrpc (x_cache x) s)
      end
  end.

Definition get_record_impl (w : World) (http : string → list (string * string) → HttpOutcome)
    (repo collection rkey : string) (cid : option string) (x : Xrpc) : Response FoundRecordResponseObject * Xrpc :=
  match repo_did w repo x with
  | (Err r, x) => (r, x)
  | (Ok did, x) =>
      match nsid_new collection with
      | None => (RespBadRequest (xrpc_error "InvalidRequest" "invalid NSID for collection"), x)
      | Some collection =>
          match rkey_new rkey with
          | None => (RespBadRequest (xrpc_error "InvalidRequest" "invalid rkey"), x)
          | Some rkey =>
              match cid with
              | None => serve_record w http did collection rkey None x
              | Some cid =>
                  match cid_from_str cid with
                  | None => (RespBadRequest (xrpc_error "InvalidRequest" "invalid CID"), x)
                  | Some cid => serve_record w http did collection rkey (Some cid) x
                  end
              end
          end
      end
  end.

Definition bad_at_uri : Response FoundRecordResponseObject :=
  RespBadRequest (xrpc_error "InvalidRequest" "at-uri does not appear to be valid").

Definition get_uri_record (w : World) (http : string → list (string * string) → HttpOutcome)
    (at_uri : string) (cid : option string) (x : Xrpc) : Response FoundRecordResponseObject * Xrpc :=
  match AtUri.parse_at_uri at_uri with
  | None => (bad_at_uri, x)
  | Some normalized =>
      match strip_prefix "at://" normalized with
      | None => (bad_at_uri, x)
      | Some rest =>
          match split_once "/" rest with
          | None => (bad_at_uri, x)
          | Some (repo, rest) =>
              match split_once "/" rest with
              | None => (bad_at_uri, x)
              | Some (collection, rest) =>
                  let rkey := match split_once "?" rest with Some (rkey, _) => rkey | None => rest end in
                  get_record_impl w http repo collection rkey cid x
              end
          end
      end
  end.

Definition resolve_handle (w : World) (handle : string) (s : St (C := C)) : Response FoundDidResponseObject * St (C := C) :=
  match handle_new handle with
  | None => (RespBadRequest (xrpc_error "InvalidRequest" "not a valid handle"), s)
  | Some handle =>
      match handle_to_did w handle s with
      | (Err _, s) => (RespServerError (xrpc_error "Failed" "Could not resolve handle"), s)
      | (Ok None, s) => (RespBadRequest (xrpc_error "HandleNotFound" "Could not resolve handle to a DID"), s)
      | (Ok (Some alleged_did), s) =>
          match did_to_partial_mini_doc w alleged_did s with
          | (Err _, s) => (RespServerError (xrpc_error "Failed" "Could not fetch DID doc"), s)
          | (Ok None, s) =>
              (RespBadRequest (xrpc_error "HandleNotFound" "Resolved handle but could not find DID doc for the DID"), s)
          | (Ok (Some partial_doc), s) =>
              if negb (bool_decide (unverified_handle partial_doc = handle))
              then (RespBadRequest (xrpc_error "HandleNotFound" "Resolved handle failed bi-directional validation"), s)
              else (RespOk (mkFoundDid (did_str alleged_did)), s)
          end
      end
  end.

Definition invalid (reason : string) : Response MiniDocResponseObject :=
  RespBadRequest (xrpc_error "InvalidRequest" reason).

(** The identifier of [resolve_mini_id]: the DID, and the handle if it was one. *)
Definition mini_identifier (w : World) (identifier : string) (s : St (C := C))
    : result (Response MiniDocResponseObject) (Did * option Handle) * St (C := C) :=
  match did_new identifier with
  | Some did => (Ok (did, None), s)
  | None =>
      match handle_new identifier with
      | None => (Err (invalid "identifier was not a valid DID or handle"), s)
      | Some alleged_handle =>
          match handle_to_did w alleged_handle s with
          | (Ok (Some did), s) => (Ok (did, Some alleged_handle), s)
          | (Ok None, s) => (Err (invalid "Could not resolve handle identifier to a DID"), s)
          | (Err _, s) => (Err (invalid "errored while trying to resolve handle to DID"), s)
          end
      end
  end.

Definition resolve_mini_id (w : World) (identifier : string) (s : St (C := C))
    : Response MiniDocResponseObject * St (C := C) :=
  match mini_identifier w identifier s with
  | (Err r, s) => (r, s)
  | (Ok (did, maybe_handle), s) =>
      match did_to_partial_mini_doc w did s with
      | (Err _, s) => (invalid "failed to get DID doc", s)
      | (Ok None, s) => (invalid "failed to find DID doc", s)
      | (Ok (Some partial_doc), s) =>
          let answer handle :=
            RespOk (mkMiniDocResponse (did_str did) handle (pds partial_doc) (signing_key partial_doc)) in
          match maybe_handle with
          | Some h =>
              (answer (if bool_decide (h = unverified_handle partial_doc) then handle_str h else "handle.invalid"), s)
          | None =>
              match handle_to_did w (unverified_handle partial_doc) s with
              | (Err _, s) => (invalid "failed to get did doc's handle", s)
              | (Ok None, s) => (invalid "failed to resolve did doc's handle", s)
              | (Ok (Some handle_did), s) =>
                  (answer (if bool_decide (handle_did = did) then handle_str (unverified_handle partial_doc)
                           else "handle.invalid"), s)
              end
          end
      end
  end.

(** ** Requests upstream *)

(** What a single response comes to, without a retry. *)
Definition settle (o : HttpOutcome) : result RecordError HttpOutcome :=
  match o with
  | UrlInvalid => Err RecUrlParseError
  | SendFailed => Err RecSendError
  | BadRequestStatus None => Err RecUpstreamBadBadNotGoodRequest
  | BadRequestStatus (Some err) => Err (RecUpstreamBadRequest err)
  | res => Ok res
  end.

Definition wants_retry (o : HttpOutcome) : bool :=
  match o with BadRequestStatus (Some err) => bool_decide (er_error err = "NotFound") | _ => false end.

(** Asking upstream ends after at most two requests: the first with the CID
    that was asked for, and a second one without a CID exactly when the first
    had one and was refused with the error name NotFound.  The outcome is that
    of the last request. *)
Theorem upstream_retry n get did collection rkey cid :
  request_loop (S (S n)) get did collection rkey cid =
  Some (settle
    (if bool_decide (is_Some cid) && wants_retry (get (record_params did collection rkey cid))
     then get (record_params did collection rkey None)
     else get (record_params did collection rkey cid))).
Proof.
  assert (Hnone : request_loop (S n) get did collection rkey None =
    Some (settle (get (record_params did collection rkey None)))).
  { cbn [request_loop]. destruct (get _) as [| |[err|]| |]; try done. by rewrite andb_false_r. }
  cbn [request_loop]. destruct (get (record_params did collection rkey cid)) as [| |[err|]| |] eqn:E; simpl;
    rewrite ?andb_false_r, ?E; try done.
  rewrite andb_comm. destruct (bool_decide (is_Some cid) && bool_decide (er_error err = "NotFound")); [|done].
  apply Hnone.
Qed.

(** The name that the lexicon gives for a missing record, RecordNotFound, does
    not lead to the retry without the CID: it is passed on. *)
Theorem record_not_found_not_retried get did collection rkey cid message :
  get (record_params did collection rkey (Some cid)) =
    BadRequestStatus (Some (mkErrorResponse "RecordNotFound" message)) →
  request_loop 2 get did collection rkey (Some cid) =
    Some (Err (RecUpstreamBadRequest (mkErrorResponse "RecordNotFound" message))).
Proof. intros Hg. cbn [request_loop]. by rewrite Hg. Qed.

(** ** Found records *)

Section Served.
Context `{!FoyerLaws C IdentityKey IdentityVal, !FoyerLaws R string CachedRecord}.

(** What the cache holds is JSON, as what comes from the stream and from servers
    is. *)
Definition json_record (r : CachedRecord) : Prop :=
  match r with Found raw => is_json (rr_record raw) = true | Deleted => True end.
Definition json_cache (c : R) : Prop := ∀ u r, cache_get c u = Some r → json_record r.
Definition json_upstream (http : string → list (string * string) → HttpOutcome) : Prop :=
  ∀ p q data, http p q = SuccessStatus (Some data) → is_json (ro_value data) = true.
Definition json_event (e : JetstreamEvent) : Prop :=
  ∀ commit record, ev_commit e = Some commit → ce_record commit = Some record → is_json record = true.

Lemma json_insert u r c : json_cache c → json_record r → json_cache (cache_insert u r c).
Proof. intros Hc Hr v q [[-> ->]|[_ Hq]]%cache_get_insert; [done|by apply (Hc v)]. Qed.

Lemma json_consume e c : json_cache c → json_event e → json_cache (consume_event e c).
Proof.
  intros Hc He. unfold consume_event. destruct (ev_kind e); try done.
  destruct (ev_commit e) as [commit|] eqn:Ec; [|done].
  destruct (ce_operation commit); [| |by apply json_insert];
    (destruct (ce_record commit) as [record|] eqn:Er; [|done]); (destruct (ce_cid commit); [|done]);
    (apply json_insert; [done|by apply (He commit)]).
Qed.

Lemma request_loop_origin fuel get did collection rkey cid res :
  request_loop fuel get did collection rkey cid = Some (Ok res) → ∃ q, get q = res.
Proof.
  revert cid; induction fuel as [|fuel IH]; intros cid; simpl; [done|].
  destruct (get (record_params did collection rkey cid)) as [| |[err|]| |] eqn:E; try done.
  - destruct (_ && _); [apply IH|done].
  - intros [= <-]. by exists (record_params did collection rkey cid).
  - intros [= <-]. by exists (record_params did collection rkey cid).
Qed.

Lemma repo_get_record_json w http did collection rkey cid s r s' :
  json_upstream http → repo_get_record w http did collection rkey cid s = (Ok r, s') → json_record r.
Proof.
  intros Hh. unfold repo_get_record. destruct (did_to_pds w did s) as [[[p|]|e] s1]; try done.
  destruct (request_loop 2 (http p) did collection rkey cid) as [[res|e]|] eqn:Hl; try done.
  apply request_loop_origin in Hl as (q & Hq). unfold record_of_response.
  destruct res as [| | | |[data|]]; try done. destruct (ro_cid data) as [c|]; [|done].
  destruct (cid_from_str c); [|done]. intros [= <- _]. by apply (Hh p q).
Qed.

Lemma serve_record_sound w http did collection rkey cid x r x' :
  json_cache (x_cache x) → json_upstream http →
  serve_record w http did collection rkey cid x = (r, x') →
  r ≠ RespPanic ∧ json_cache (x_cache x') ∧
  ∀ obj, r = RespOk obj →
    fr_uri obj = record_uri did collection rkey ∧ is_json (fr_value obj) = true ∧
    (∀ c, cid = Some c → fr_cid obj = Some (cid_str c)).
Proof.
  intros Hc Hh. unfold serve_record.
  destruct (match cache_get (x_cache x) _ with Some _ => _ | None => _ end) as [fetched s] eqn:Ef.
  assert (Hf : match cache_fetch (record_uri did collection rkey) fetched (x_cache x) with
    | (Ok v, c) => json_record v ∧ json_cache c | (Err _, c) => json_cache c end).
  { unfold cache_fetch. destruct (cache_get (x_cache x) _) as [v|] eqn:Eg; [split; [by apply (Hc _ _ Eg)|done]|].
    destruct fetched as [v|e]; [|done].
    assert (Hv : json_record v) by (by apply (repo_get_record_json _ _ _ _ _ _ _ _ _ Hh Ef)).
    split; [done|by apply json_insert]. }
  destruct (cache_fetch _ _ _) as [[[raw|]|e] c]; intros [= <- <-]; simpl.
  - destruct Hf as [Hraw Hc']. simpl in Hraw. rewrite Hraw. simpl.
    destruct cid as [cid|]; [case_bool_decide as Hcid|]; simpl; (split_and!; [done|done|]); try done;
      intros obj [= <-]; simpl; split_and!; try done; intros c' [= <-]; by rewrite Hcid.
  - by destruct Hf.
  - destruct e; done.
Qed.

(** C30. Answers with a record: whatever the cache has forgotten and whatever
    upstream says, no request panics on a stored record; a record found has the
    uri of the repository, collection and key asked for, and, when a CID was
    asked for, that CID. *)
Theorem get_record_sound w http repo collection rkey cid x r x' :
  json_cache (x_cache x) → json_upstream http →
  get_record_impl w http repo collection rkey cid x = (r, x') →
  r ≠ RespPanic ∧ json_cache (x_cache x') ∧
  ∀ obj, r = RespOk obj →
    (∃ did, ((repo_did w repo x).1 = Ok did) ∧
       fr_uri obj = record_uri did (mkNsid collection) (mkRecordKey rkey)) ∧
    is_json (fr_value obj) = true ∧
    (∀ c, cid = Some c → ∃ c', cid_from_str c = Some c' ∧ fr_cid obj = Some (cid_str c')).
Proof.
  intros Hc Hh. unfold get_record_impl. destruct (repo_did w repo x) as [[did|r0] x1] eqn:Hd.
  2:{ intros [= <- <-]. unfold repo_did in Hd. destruct (did_new repo); [done|].
      destruct (handle_new repo); [|by simplify_eq].
      destruct (handle_to_did w _ _) as [[[?|]|?] ?]; simplify_eq; done. }
  assert (Hc1 : json_cache (x_cache x1)).
  { unfold repo_did in Hd. destruct (did_new repo); [by simplify_eq|].
    destruct (handle_new repo); [|done]. destruct (handle_to_did w _ _) as [[[?|]|?] ?]; by simplify_eq. }
  unfold nsid_new, rkey_new. destruct (nsid_valid collection); [|by intros [= <- <-]].
  destruct (rkey_valid rkey); [|by intros [= <- <-]].
  assert (Hserve : ∀ cid', serve_record w http did (mkNsid collection) (mkRecordKey rkey) cid' x1 = (r, x') →
    (∀ c, cid = Some c → ∃ c', cid_from_str c = Some c' ∧ cid' = Some c') →
    r ≠ RespPanic ∧ json_cache (x_cache x') ∧ ∀ obj, r = RespOk obj →
    (∃ did0, Ok did = Ok (E := Response FoundRecordResponseObject) did0 ∧
       fr_uri obj = record_uri did0 (mkNsid collection) (mkRecordKey rkey)) ∧
    is_json (fr_value obj) = true ∧
    (∀ c, cid = Some c → ∃ c', cid_from_str c = Some c' ∧ fr_cid obj = Some (cid_str c'))).
  { intros cid' Hs Hcid. destruct (serve_record_sound _ _ _ _ _ _ _ _ _ Hc1 Hh Hs) as (Hp & Hj & Ho).
    split_and!; [done|done|]. intros obj Hobj. destruct (Ho obj Hobj) as (Hu & Hv & Hci).
    split_and!; [by exists did|done|]. intros c Hcc. destruct (Hcid c Hcc) as (c' & Hc' & Hcid').
    exists c'. split; [done|by apply Hci]. }
  destruct cid as [c|]; [|by intros Hs; apply (Hserve None Hs)].
  destruct (cid_from_str c) as [c'|] eqn:Ec; [|by intros [= <- <-]].
  intros Hs. apply (Hserve (Some c') Hs). intros c0 [= <-]. by exists c'.
Qed.

(** ** From the stream to the answer *)

(** What the stream said last is what is answered, as long as the cache keeps
    it: after a create or an update the record and the CID of the event, after a
    delete that the record was deleted; upstream is not asked. *)
Theorem event_then_request w http event commit c s :
  ev_kind event = KCommit → ev_commit event = Some commit →
  (ce_operation commit = OpDelete ∨ is_Some (ce_record commit) ∧ is_Some (ce_cid commit)) →
  json_event event →
  let uri := record_uri (ev_did event) (ce_collection commit) (ce_rkey commit) in
  let x := mkXrpc (consume_event event c) s in
  is_Some (cache_get (x_cache x) uri) →
  serve_record w http (ev_did event) (ce_collection commit) (ce_rkey commit) None x =
  (match ce_operation commit, ce_record commit, ce_cid commit with
   | OpDelete, _, _ => RespBadRequest (xrpc_error "RecordNotFound" "This record was deleted")
   | _, Some record, Some cid => RespOk (mkFoundRecord uri (Some cid) record)
   | _, _, _ => sorry
   end, x).
Proof.
  intros Hk Hcm Hdata Hj uri x [v Hv].
  assert (Hval : v = match ce_operation commit, ce_record commit, ce_cid commit with
    | OpDelete, _, _ => Deleted
    | _, Some record, Some cid => Found (mkRawRecord (mkCid cid) record)
    | _, _, _ => v
    end).
  { revert Hv. subst x uri. unfold consume_event. rewrite Hk, Hcm. cbn [x_cache].
    destruct (ce_operation commit), (ce_record commit), (ce_cid commit); try done;
      by intros [[_ ->]|[? _]]%cache_get_insert. }
  unfold serve_record. fold uri. rewrite Hv. unfold cache_fetch. rewrite Hv. rewrite Hval.
  destruct (ce_operation commit) eqn:Eo.
  1,2: destruct Hdata as [?|[[record Er] [cid Ec]]]; [done|]; rewrite Er, Ec; simpl;
    rewrite (Hj commit record Hcm Er); reflexivity.
  reflexivity.
Qed.

(** ** At-uris *)

(** The at-uri endpoint is the record endpoint: an at-uri whose normal form has
    a repository, a collection and a key, with or without a query, is answered
    like the three parameters. *)
Theorem uri_record_same w http at_uri repo collection rkey query cid x :
  AtUri.parse_at_uri at_uri =
    Some ("at://" +:+ repo +:+ String "/" (collection +:+ String "/" (rkey +:+
      match query with Some q => String "?" q | None => "" end))) →
  str_contains "/" repo = false → str_contains "/" collection = false → str_contains "?" rkey = false →
  get_uri_record w http at_uri cid x = get_record_impl w http repo collection rkey cid x.
Proof.
  intros Hp Hr Hc Hk. unfold get_uri_record. rewrite Hp.
  assert (Hstrip : ∀ s, strip_prefix "at://" ("at://" +:+ s) = Some s) by done.
  rewrite Hstrip, !split_once_app by done. destruct query as [q|].
  - by rewrite split_once_app.
  - rewrite str_app_nil_r. by rewrite (proj2 (split_once_None "?" rkey)).
Qed.

(** ** Verified handles *)

(** C26. No answer carries a handle that was not verified, in any run: resolveHandle
    returns only a DID whose document named the handle, and the handle of a
    mini document is the placeholder handle.invalid or belongs to its DID both
    ways. *)
Theorem served_handles_verified seen s w :
  reachable seen s →
  (∀ h did, (resolve_handle w h s).1 = RespOk did →
     ∃ handle, handle_new h = Some handle ∧ verified (w :: seen) handle (mkDid (fd_did did))) ∧
  (∀ identifier doc, (resolve_mini_id w identifier s).1 = RespOk doc →
     md_handle doc = "handle.invalid" ∨ verified (w :: seen) (mkHandle (md_handle doc)) (mkDid (md_did doc))).
Proof.
  intros Hr%reachable_good. apply (good_mono _ (w :: seen)) in Hr; [|set_solver].
  assert (Hw : w ∈ w :: seen) by (by left). split.
  - intros h did. unfold resolve_handle. destruct (handle_new h) as [handle|]; [|done].
    destruct (handle_to_did_good _ w handle s Hw Hr) as [_ Hg].
    destruct (handle_to_did w handle s) as [[[d|]|e] s1]; try done.
    destruct (did_to_partial_mini_doc w d s1) as [[[doc|]|e] s2]; try done.
    destruct (negb _); [done|]. intros [= <-]. exists handle. split; [done|]. by destruct d.
  - intros identifier doc. unfold resolve_mini_id.
    destruct (mini_identifier w identifier s) as [[[d mh]|r] s1] eqn:Em.
    2:{ unfold mini_identifier in Em. break_in Em; by intros [= ]. }
    assert (Hm : good (w :: seen) s1 ∧ match mh with Some h => verified (w :: seen) h d | None => True end).
    { unfold mini_identifier in Em. destruct (did_new identifier); [by simplify_eq|].
      destruct (handle_new identifier) as [h|]; [|done].
      destruct (handle_to_did_good _ w h s Hw Hr) as [Hg Hv].
      destruct (handle_to_did w h s) as [[[d'|]|e] s']; by simplify_eq. }
    destruct Hm as [Hs1 Hmh]. destruct (did_to_doc_good _ w d s1 Hw Hs1) as [Hs2 _].
    destruct (did_to_partial_mini_doc w d s1) as [[[pd|]|e] s2]; try done. simpl in Hs2.
    destruct mh as [h|].
    + intros [= <-]. simpl. case_bool_decide as Hh; [|by left]. right. by destruct h, d.
    + destruct (handle_to_did_good _ w (unverified_handle pd) s2 Hw Hs2) as [_ Hv].
      destruct (handle_to_did w _ s2) as [[[hd|]|e] s3]; try done. intros [= <-]. simpl.
      case_bool_decide as Hh; [|by left]. subst hd. right. simpl in Hv. by destruct d, (unverified_handle pd).
Qed.

End Served.

End Slingshot.

(** ** A concrete service *)

#[local] Existing Instance Identity.map_cache.
#[local] Existing Instance Identity.map_cache_laws.
#[local] Existing Instance Identity.dotted_handles.
#[local] Existing Instance AtUri.plain_uri.
#[local] Instance record_cache : FoyerCache (gmap string CachedRecord) string CachedRecord :=
  { cache_get c k := c !! k; cache_insert k v c := <[k := v]> c }.
#[local] Instance record_cache_laws : FoyerLaws (gmap string CachedRecord) string CachedRecord.
Proof.
  split. intros c k v j w. simpl. destruct (decide (j = k)) as [->|Hne].
  - rewrite lookup_insert_eq. intros [= <-]. by left.
  - rewrite lookup_insert_ne by done. by right.
Qed.
#[local] Instance plain_ids : Atrium :=
  { did_valid s := starts_with "did:" s; nsid_valid s := str_contains "." s; rkey_valid s := negb (str_contains "/" s) }.

Definition plain_cid (s : string) : option Cid := Some (mkCid s).
Definition braces (s : string) : bool := starts_with "{" s.

(** A server that has one version of alice's record. *)
Definition sample_http (pds : string) (q : list (string * string)) : HttpOutcome :=
  match q with
  | [_; _; _; ("cid", c)] =>
      if decide (c = "bafy2") then SuccessStatus (Some (mkRecordResponse (Some "bafy2") "{2}"))
      else BadRequestStatus (Some (mkErrorResponse "NotFound" "no such version"))
  | _ => SuccessStatus (Some (mkRecordResponse (Some "bafy2") "{2}"))
  end.

Definition empty_xrpc : Xrpc := mkXrpc (∅ : gmap string CachedRecord) Identity.empty_service.

Lemma sample_http_json : json_upstream braces sample_http.
Proof.
  intros p q data. unfold sample_http.
  repeat match goal with |- context [match ?x with _ => _ end] => destruct x end; by intros [= <-].
Qed.

(** An old version is asked for: the retry finds the new one, which is refused
    but cached. *)
Lemma get_record_sound_witness :
  (get_record_impl plain_cid braces (Identity.sample_world 0) sample_http "alice.test" "app.post" "r" (Some "bafy1") empty_xrpc).1 =
    RespBadRequest (xrpc_error "RecordNotFound" "A record was found but its CID did not match that requested") ∧
  (get_record_impl plain_cid braces (Identity.sample_world 0) sample_http "alice.test" "app.post" "r" None empty_xrpc).1 ≠ RespPanic.
Proof.
  split; [vm_compute; reflexivity|].
  destruct (get_record_impl plain_cid braces (Identity.sample_world 0) sample_http "alice.test" "app.post" "r" None empty_xrpc)
    as [r x'] eqn:E.
  apply (get_record_sound plain_cid braces (Identity.sample_world 0) sample_http "alice.test" "app.post" "r" None empty_xrpc r x');
    [intros u r' Hr; simpl in Hr; by rewrite lookup_empty in Hr|apply sample_http_json|exact E].
Defined.

Lemma record_not_found_not_retried_witness :
  request_loop 2 (λ _, BadRequestStatus (Some (mkErrorResponse "RecordNotFound" "m")))
    Identity.alice_did (mkNsid "app.post") (mkRecordKey "r") (Some (mkCid "bafy1")) =
  Some (Err (RecUpstreamBadRequest (mkErrorResponse "RecordNotFound" "m"))).
Proof. apply record_not_found_not_retried. reflexivity. Defined.

Definition sample_commit (op : CommitOp) : CommitEvent :=
  mkCommitEvent (mkNsid "app.post") (mkRecordKey "r") "rev" op (Some "{1}") (Some "bafy1").
Definition sample_event (op : CommitOp) : JetstreamEvent :=
  mkEvent (mkCursor 1) Identity.alice_did KCommit (Some (sample_commit op)) None.

Lemma event_then_request_witness :
  (serve_record plain_cid braces (Identity.sample_world 0) sample_http Identity.alice_did (mkNsid "app.post") (mkRecordKey "r") None
    (mkXrpc (consume_event (sample_event OpDelete) (consume_event (sample_event OpCreate) (∅ : gmap string CachedRecord)))
      Identity.empty_service)).1 =
  RespBadRequest (xrpc_error "RecordNotFound" "This record was deleted").
Proof.
  rewrite (event_then_request plain_cid braces (Identity.sample_world 0) sample_http (sample_event OpDelete) (sample_commit OpDelete)
    (consume_event (sample_event OpCreate) (∅ : gmap string CachedRecord)) Identity.empty_service);
    [reflexivity|reflexivity|reflexivity|by left| |].
  - intros c r [= <-] [= <-]. reflexivity.
  - eexists. vm_compute. reflexivity.
Defined.

Lemma uri_record_same_witness :
  get_uri_record plain_cid braces (Identity.sample_world 0) sample_http "at://did:plc:alice/app.post/r" None empty_xrpc =
  get_record_impl plain_cid braces (Identity.sample_world 0) sample_http "did:plc:alice" "app.post" "r" None empty_xrpc.
Proof.
  apply (uri_record_same plain_cid braces) with (query := None); [vm_compute; reflexivity|reflexivity|reflexivity|reflexivity].
Defined.

Lemma served_handles_verified_witness :
  (resolve_handle (Identity.sample_world 5) "alice.test" Identity.warm_service).1 = RespOk (mkFoundDid "did:plc:alice") ∧
  ∃ handle, handle_new "alice.test" = Some handle ∧
    verified [Identity.sample_world 5; Identity.sample_world 0] handle Identity.alice_did.
Proof.
  assert (Hr : (resolve_handle (Identity.sample_world 5) "alice.test" Identity.warm_service).1 =
    RespOk (mkFoundDid "did:plc:alice")) by (vm_compute; reflexivity).
  split; [exact Hr|].
  apply (proj1 (served_handles_verified _ _ (Identity.sample_world 5) Identity.warm_reachable) _ _ Hr).
Defined.

(** A world where alice's document names her handle and the handle does not resolve. *)
Definition unresolvable_world : World :=
  mkWorld 0 (λ _, Err ResolveNotFound) (w_did (Identity.sample_world 0)).

(** The mini document of a DID whose handle does not resolve is refused; the
    documented placeholder handle.invalid is not given. *)
Theorem unresolvable_handle_refused :
  (resolve_mini_id unresolvable_world "did:plc:alice" Identity.empty_service).1 =
  RespBadRequest (xrpc_error "InvalidRequest" "failed to resolve did doc's handle").
Proof. vm_compute. reflexivity. Qed.

End Slingshot.
