(* ===== verification/SlingshotTasks.v ===== *)
(** * slingshot: requests as tasks (slingshot/src/server.rs, record.rs, identity.rs)

    The handlers are async: at every await another task of the runtime, the
    consumer of the stream or the refresher may run.  Here a handler is the
    sequence of its segments between awaits, each of which sees the clock, the
    resolvers and the servers as they are when it runs, and the caches as the
    others left them.  A fetch through the cache of foyer is a lookup, on a miss
    the awaits of its closure, and the insertion of what the closure made: what
    others insert in between is overwritten.  (Foyer lets requests that miss on
    one key at a time share one closure: they are those whose lookup comes after
    its insertion.)

    Shown here: run without interruption, in one world, every task does what the
    function of the same name of the sequential model does. *)

From S2P Require Import Prelude RustStr LinksAtUri UfosDbTypes UfosBatch.
From S2P Require Import SlingshotIdentity SlingshotServer.
Import Identity.

Module Tasks.
Section Tasks.
Context `{AtriumIdentity, Atrium, FluentUri}.
Context {C : Type} `{FoyerCache C IdentityKey IdentityVal}.
Context {R : Type} `{FoyerCache R string CachedRecord}.
Context (cid_from_str : string → option Cid) (is_json : string → bool).

Abbreviation Http := (string → list (string * string) → HttpOutcome).
Abbreviation Xrpc := (Slingshot.Xrpc (C := C) (R := R)).

(** A task is done, or has a next segment: what it stores in the cache of the
    records, what it does to the identities, and the rest of the task. *)
Inductive Task (A : Type) : Type :=
  | Done (a : A)
  | Seg (stores : option (string * CachedRecord)) (act : World → St (C := C) → St (C := C)) (next : World → Http → Xrpc → Task A).
Arguments Done {A} a.
Arguments Seg {A} stores act next.

Fixpoint bind {A B} (t : Task A) (k : A → Task B) : Task B :=
  match t with
  | Done a => k a
  | Seg stores act next => Seg stores act (λ w http x, bind (next w http x) k)
  end.
Notation "'let!' x := t 'in' k" := (bind t (λ x, k)) (at level 10, x name, t at level 200, k at level 200).

(** What a segment does to the service. *)
Definition turn (stores : option (string * CachedRecord)) (act : World → St (C := C) → St (C := C)) (w : World) (x : Xrpc) : Xrpc :=
  Slingshot.mkXrpc
    match stores with Some (u, v) => cache_insert u v (Slingshot.x_cache x) | None => Slingshot.x_cache x end
    (act w (Slingshot.x_identity x)).

(** A segment that looks, one that changes the identities, one that stores a record. *)
Definition observe {A} (f : World → Http → Xrpc → A) : Task A := Seg None (λ _ s, s) (λ w http x, Done (f w http x)).
Definition update {A} (f : World → St (C := C) → A * St (C := C)) : Task A :=
  Seg None (λ w s, (f w s).2) (λ w _ x, Done (f w (Slingshot.x_identity x)).1).
Definition store (u : string) (v : CachedRecord) : Task () := Seg (Some (u, v)) (λ _ s, s) (λ _ _ _, Done ()).

(** ** identity.rs *)

(** [self.cache.fetch(key, closure)] of the identities. *)
Definition fetch_identity (key : IdentityKey) (resolve : World → result IdentityError IdentityVal)
    : Task (result IdentityError IdentityVal) :=
  let! entry := observe (λ _ _ x, cache_get (cache (Slingshot.x_identity x)) key) in
  match entry with
  | Some v => Done (Ok v)
  | None =>
      let! resolved := observe (λ w _ _, resolve w) in
      match resolved with
      | Err e => Done (Err e)
      | Ok v => update (λ _ s, (Ok v, insert_val key v s))
      end
  end.

Definition queue_refresh_if (old : bool) (key : IdentityKey) : Task () :=
  if old then update (λ _ s, ((), queue_refresh key s)) else Done ().

Definition now : Task Z := observe (λ w _ _, w_now w).

Definition handle_to_unverified_did (handle : Handle) : Task (result IdentityError (option Did)) :=
  let key := KHandle handle in
  let! entry := fetch_identity key (λ w, fetch_handle w handle) in
  match entry with
  | Err e => Done (Err (FoyerError e))
  | Ok v =>
      let! t := now in
      match data v with
      | DataDoc _ => Done (Err (IdentityValTypeMixup (handle_str handle)))
      | NotFound => let! _ := queue_refresh_if (bool_decide (MIN_NOT_FOUND_TTL ≤ t - last_fetch v)%Z) key in Done (Ok None)
      | DataDid did => let! _ := queue_refresh_if (bool_decide (MIN_TTL ≤ t - last_fetch v)%Z) key in Done (Ok (Some did))
      end
  end.

Definition did_to_partial_mini_doc (did : Did) : Task (result IdentityError (option PartialMiniDoc)) :=
  let key := KDid did in
  let! entry := fetch_identity key (λ w, fetch_did w did) in
  match entry with
  | Err e => Done (Err (FoyerError e))
  | Ok v =>
      let! t := now in
      match data v with
      | DataDid _ => Done (Err (IdentityValTypeMixup (did_str did)))
      | NotFound => let! _ := queue_refresh_if (bool_decide (MIN_NOT_FOUND_TTL ≤ t - last_fetch v)%Z) key in Done (Ok None)
      | DataDoc doc => let! _ := queue_refresh_if (bool_decide (MIN_TTL ≤ t - last_fetch v)%Z) key in Done (Ok (Some doc))
      end
  end.

Definition handle_to_did (handle : Handle) : Task (result IdentityError (option Did)) :=
  let! r := handle_to_unverified_did handle in
  match r with
  | Err e => Done (Err e)
  | Ok None => Done (Ok None)
  | Ok (Some did) =>
      let! r := did_to_partial_mini_doc did in
      match r with
      | Err e => Done (Err e)
      | Ok None => Done (Ok None)
      | Ok (Some doc) =>
          if negb (bool_decide (unverified_handle doc = handle)) then Done (Ok None) else Done (Ok (Some did))
      end
  end.

Definition did_to_pds (did : Did) : Task (result IdentityError (option string)) :=
  let! r := did_to_partial_mini_doc did in
  match r with
  | Err e => Done (Err e)
  | Ok None => Done (Ok None)
  | Ok (Some doc) => Done (Ok (Some (pds doc)))
  end.

(** A turn of the loop of [run_refresher]: the insertion follows the answer of
    the resolver without an await, the queue is locked before and after. *)
Definition complete (key : IdentityKey) : Task (result IdentityError ()) :=
  update (λ _ s, complete_refresh key s).
Definition refresh_turn : Task (result IdentityError ()) :=
  let! key := observe (λ _ _ x, peek_refresh (Slingshot.x_identity x)) in
  match key with
  | None => Done (Ok ())
  | Some (KHandle handle as key) =>
      let! _ := update (λ w s, ((),
        match w_handle w handle with
        | Ok did => insert_val key (mkVal (w_now w) (DataDid did)) s
        | Err ResolveNotFound => insert_val key (mkVal (w_now w) NotFound) s
        | Err ResolveOther => s
        end)) in
      complete key
  | Some (KDid did as key) =>
      let! refreshed := update (λ w s,
        match w_did w did with
        | Ok did_doc =>
            if negb (bool_decide (doc_id did_doc = did_str did)) then (false, s)
            else match try_from did_doc with
                 | Err _ => (false, s)
                 | Ok mini_doc => (true, insert_val key (mkVal (w_now w) (DataDoc mini_doc)) s)
                 end
        | Err ResolveNotFound => (true, insert_val key (mkVal (w_now w) NotFound) s)
        | Err ResolveOther => (true, s)
        end) in
      if (refreshed : bool) then complete key else Done (Ok ())
  end.

(** ** record.rs *)

Fixpoint request_loop (fuel : nat) (pds : string) (did : Did) (collection : Nsid) (rkey : RecordKey) (cid : option Cid)
    : Task (option (result RecordError HttpOutcome)) :=
  match fuel with
  | O => Done None
  | S fuel =>
      let! res := observe (λ _ http _, http pds (Slingshot.record_params did collection rkey cid)) in
      match res with
      | UrlInvalid => Done (Some (Err RecUrlParseError))
      | SendFailed => Done (Some (Err RecSendError))
      | BadRequestStatus None => Done (Some (Err RecUpstreamBadBadNotGoodRequest))
      | BadRequestStatus (Some err) =>
          if bool_decide (er_error err = "NotFound") && bool_decide (is_Some cid)
          then request_loop fuel pds did collection rkey None
          else Done (Some (Err (RecUpstreamBadRequest err)))
      | res => Done (Some (Ok res))
      end
  end.

Definition repo_get_record (did : Did) (collection : Nsid) (rkey : RecordKey) (cid : option Cid)
    : Task (result RecordError CachedRecord) :=
  let! r := did_to_pds did in
  match r with
  | Err e => Done (Err (RecIdentityError e))
  | Ok None => Done (Err (RecNotFound "could not get pds for DID"))
  | Ok (Some pds) =>
      let! res := request_loop 2 pds did collection rkey cid in
      Done match res with
      | None => Err RecSendError
      | Some (Err e) => Err e
      | Some (Ok res) => Slingshot.record_of_response cid_from_str res
      end
  end.

(** ** server.rs *)

(** [self.cache.fetch(at_uri, closure)] of the records. *)
Definition fetch_record (at_uri : string) (closure : Task (result RecordError CachedRecord)) : Task (result RecordError CachedRecord) :=
  let! entry := observe (λ _ _ x, cache_get (Slingshot.x_cache x) at_uri) in
  match entry with
  | Some v => Done (Ok v)
  | None =>
      let! fetched := closure in
      match fetched with
      | Err e => Done (Err e)
      | Ok v => (let! _ := store at_uri v in Done (Ok v))
      end
  end.

(** What is made of the entry, or of the error. *)
Definition record_reply (at_uri : string) (cid : option Cid) (fr : result RecordError CachedRecord) : Response FoundRecordResponseObject :=
  match fr with
  | Err (RecUpstreamBadRequest err) =>
      RespBadRequest (xrpc_error (er_error err) ("Upstream bad request: " +:+ er_message err))
  | Err _ => Slingshot.sorry
  | Ok (Found raw) =>
      if negb (is_json (rr_record raw)) then RespPanic
      else if match cid with Some c => negb (bool_decide (c = rr_cid raw)) | None => false end
      then RespBadRequest (xrpc_error "RecordNotFound" "A record was found but its CID did not match that requested")
      else RespOk (mkFoundRecord at_uri (Some (cid_str (rr_cid raw))) (rr_record raw))
  | Ok Deleted => RespBadRequest (xrpc_error "RecordNotFound" "This record was deleted")
  end.

Definition serve_record (did : Did) (collection : Nsid) (rkey : RecordKey) (cid : option Cid) : Task (Response FoundRecordResponseObject) :=
  let at_uri := Slingshot.record_uri did collection rkey in
  let! fr := fetch_record at_uri (repo_get_record did collection rkey cid) in
  Done (record_reply at_uri cid fr).

Definition repo_did (repo : string) : Task (result (Response FoundRecordResponseObject) Did) :=
  match Slingshot.did_new repo with
  | Some did => Done (Ok did)
  | None =>
      match handle_new repo with
      | None => Done (Err (RespBadRequest (xrpc_error "InvalidRequest" "repo was not a valid DID or handle")))
      | Some handle =>
          let! r := handle_to_did handle in
          Done match r with
          | Ok (Some did) => Ok did
          | Ok None => Err (RespBadRequest (xrpc_error "InvalidRequest" "Could not resolve handle repo to a DID"))
          | Err _ => Err (RespServerError (xrpc_error "ResolutionFailed" "errored while trying to resolve handle to DID"))
          end
      end
  end.

Definition get_record_impl (repo collection rkey : string) (cid : option string) : Task (Response FoundRecordResponseObject) :=
  let! r := repo_did repo in
  match r with
  | Err r => Done r
  | Ok did =>
      match Slingshot.nsid_new collection with
      | None => Done (RespBadRequest (xrpc_error "InvalidRequest" "invalid NSID for collection"))
      | Some collection =>
          match Slingshot.rkey_new rkey with
          | None => Done (RespBadRequest (xrpc_error "InvalidRequest" "invalid rkey"))
          | Some rkey =>
              match cid with
              | None => serve_record did collection rkey None
              | Some cid =>
                  match cid_from_str cid with
                  | None => Done (RespBadRequest (xrpc_error "InvalidRequest" "invalid CID"))
                  | Some cid => serve_record did collection rkey (Some cid)
                  end
              end
          end
      end
  end.

Definition get_uri_record (at_uri : string) (cid : option string) : Task (Response FoundRecordResponseObject) :=
  match AtUri.parse_at_uri at_uri with
  | None => Done Slingshot.bad_at_uri
  | Some normalized =>
      match strip_prefix "at://" normalized with
      | None => Done Slingshot.bad_at_uri
      | Some rest =>
          match split_once "/" rest with
          | None => Done Slingshot.bad_at_uri
          | Some (repo, rest) =>
              match split_once "/" rest with
              | None => Done Slingshot.bad_at_uri
              | Some (collection, rest) =>
                  let rkey := match split_once "?" rest with Some (rkey, _) => rkey | None => rest end in
                  get_record_impl repo collection rkey cid
              end
          end
      end
  end.

Definition resolve_handle (handle : string) : Task (Response FoundDidResponseObject) :=
  match handle_new handle with
  | None => Done (RespBadRequest (xrpc_error "InvalidRequest" "not a valid handle"))
  | Some handle =>
      let! r := handle_to_did handle in
      match r with
      | Err _ => Done (RespServerError (xrpc_error "Failed" "Could not resolve handle"))
      | Ok None => Done (RespBadRequest (xrpc_error "HandleNotFound" "Could not resolve handle to a DID"))
      | Ok (Some alleged_did) =>
          let! r := did_to_partial_mini_doc alleged_did in
          match r with
          | Err _ => Done (RespServerError (xrpc_error "Failed" "Could not fetch DID doc"))
          | Ok None => Done (RespBadRequest (xrpc_error "HandleNotFound" "Resolved handle but could not find DID doc for the DID"))
          | Ok (Some partial_doc) =>
              if negb (bool_decide (unverified_handle partial_doc = handle))
              then Done (RespBadRequest (xrpc_error "HandleNotFound" "Resolved handle failed bi-directional validation"))
              else Done (RespOk (mkFoundDid (did_str alleged_did)))
          end
      end
  end.

Definition mini_identifier (identifier : string) : Task (result (Response MiniDocResponseObject) (Did * option Handle)) :=
  match Slingshot.did_new identifier with
  | Some did => Done (Ok (did, None))
  | None =>
      match handle_new identifier with
      | None => Done (Err (Slingshot.invalid "identifier was not a valid DID or handle"))
      | Some alleged_handle =>
          let! r := handle_to_did alleged_handle in
          match r with
          | Ok (Some did) => Done (Ok (did, Some alleged_handle))
          | Ok None => Done (Err (Slingshot.invalid "Could not resolve handle identifier to a DID"))
          | Err _ => Done (Err (Slingshot.invalid "errored while trying to resolve handle to DID"))
          end
      end
  end.

Definition resolve_mini_id (identifier : string) : Task (Response MiniDocResponseObject) :=
  let! r := mini_identifier identifier in
  match r with
  | Err r => Done r
  | Ok (did, maybe_handle) =>
      let! r := did_to_partial_mini_doc did in
      match r with
      | Err _ => Done (Slingshot.invalid "failed to get DID doc")
      | Ok None => Done (Slingshot.invalid "failed to find DID doc")
      | Ok (Some partial_doc) =>
          let answer handle :=
            RespOk (mkMiniDocResponse (did_str did) handle (pds partial_doc) (signing_key partial_doc)) in
          match maybe_handle with
          | Some h =>
              Done (answer (if bool_decide (h = unverified_handle partial_doc) then handle_str h else "handle.invalid"))
          | None =>
              let! r := handle_to_did (unverified_handle partial_doc) in
              match r with
              | Err _ => Done (Slingshot.invalid "failed to get did doc's handle")
              | Ok None => Done (Slingshot.invalid "failed to resolve did doc's handle")
              | Ok (Some handle_did) =>
                  Done (answer (if bool_decide (handle_did = did) then handle_str (unverified_handle partial_doc)
                                else "handle.invalid"))
              end
          end
      end
  end.

(** ** Without interruption *)

Fixpoint run_alone {A} (w : World) (http : Http) (t : Task A) (x : Xrpc) : A * Xrpc :=
  match t with
  | Done a => (a, x)
  | Seg stores act next => run_alone w http (next w http x) (turn stores act w x)
  end.

Lemma alone_bind {A B} w http (t : Task A) (k : A → Task B) x :
  run_alone w http (bind t k) x = let '(a, x) := run_alone w http t x in run_alone w http (k a) x.
Proof. revert x. induction t as [a|stores act next IH]; intros x; simpl; [done|]. apply IH. Qed.

(** A step on the identities alone. *)
Definition lift {A} (f : St (C := C) → A * St (C := C)) (x : Xrpc) : A * Xrpc :=
  let '(a, s) := f (Slingshot.x_identity x) in (a, Slingshot.mkXrpc (Slingshot.x_cache x) s).

Lemma alone_observe {A} w http (f : World → Http → Xrpc → A) x : run_alone w http (observe f) x = (f w http x, x).
Proof. by destruct x. Qed.

Lemma alone_update {A} w http (f : World → St (C := C) → A * St (C := C)) x : run_alone w http (update f) x = lift (f w) x.
Proof. unfold lift. simpl. unfold turn. by destruct (f w _). Qed.

Lemma alone_fetch_identity w http key resolve x :
  run_alone w http (fetch_identity key resolve) x =
  lift (λ s, let '(r, c) := cache_fetch key (resolve w) (cache s) in (r, with_cache c s)) x.
Proof.
  unfold fetch_identity, lift, cache_fetch. rewrite alone_bind, alone_observe.
  destruct x as [rc [c q]]. cbn [Slingshot.x_identity Slingshot.x_cache cache]. destruct (cache_get c key); [done|].
  rewrite alone_bind, alone_observe. by destruct (resolve w).
Qed.

Lemma alone_queue_refresh w http old key x : run_alone w http (queue_refresh_if old key) x = lift (λ s, ((), refresh_if old key s)) x.
Proof. destruct x as [rc s]. by destruct old. Qed.

Lemma alone_unverified w http h x :
  run_alone w http (handle_to_unverified_did h) x = lift (Identity.handle_to_unverified_did w h) x.
Proof.
  unfold handle_to_unverified_did, Identity.handle_to_unverified_did. rewrite alone_bind, alone_fetch_identity. unfold lift.
  destruct (cache_fetch _ _ _) as [[v|e] c]; [|done]. rewrite alone_bind. unfold now. rewrite alone_observe.
  destruct (data v); rewrite ?alone_bind, ?alone_queue_refresh; done.
Qed.

Lemma alone_doc w http d x : run_alone w http (did_to_partial_mini_doc d) x = lift (Identity.did_to_partial_mini_doc w d) x.
Proof.
  unfold did_to_partial_mini_doc, Identity.did_to_partial_mini_doc. rewrite alone_bind, alone_fetch_identity. unfold lift.
  destruct (cache_fetch _ _ _) as [[v|e] c]; [|done]. rewrite alone_bind. unfold now. rewrite alone_observe.
  destruct (data v); rewrite ?alone_bind, ?alone_queue_refresh; done.
Qed.

Lemma alone_handle_to_did w http h x : run_alone w http (handle_to_did h) x = lift (Identity.handle_to_did w h) x.
Proof.
  unfold handle_to_did, Identity.handle_to_did. rewrite alone_bind, alone_unverified. unfold lift.
  destruct (Identity.handle_to_unverified_did w h _) as [[[did|]|e] s]; [|done|done]. rewrite alone_bind, alone_doc. unfold lift.
  cbn [Slingshot.x_identity Slingshot.x_cache]. destruct (Identity.did_to_partial_mini_doc w did s) as [[[doc|]|e] s']; [|done|done].
  by destruct (negb _).
Qed.

Lemma alone_did_to_pds w http d x : run_alone w http (did_to_pds d) x = lift (Identity.did_to_pds w d) x.
Proof.
  unfold did_to_pds, Identity.did_to_pds. rewrite alone_bind, alone_doc. unfold lift.
  by destruct (Identity.did_to_partial_mini_doc w d _) as [[[doc|]|e] s].
Qed.

Lemma alone_refresh_turn w http x : run_alone w http refresh_turn x = lift (Identity.refresh_turn w) x.
Proof.
  unfold refresh_turn, Identity.refresh_turn, complete. rewrite alone_bind, alone_observe. unfold lift at 1.
  destruct x as [rc s]. cbn [Slingshot.x_identity Slingshot.x_cache]. destruct (peek_refresh s) as [[h|d]|]; [| |done].
  - rewrite alone_bind, alone_update. unfold lift at 1. rewrite alone_update. by destruct (w_handle w h) as [did|[]].
  - rewrite alone_bind, alone_update. unfold lift at 1. destruct (w_did w d) as [dd|[]]; [|by rewrite alone_update..].
    destruct (negb _); [done|]. destruct (try_from dd); [by rewrite alone_update|done].
Qed.

Lemma alone_request_loop w http fuel pds did collection rkey cid x :
  run_alone w http (request_loop fuel pds did collection rkey cid) x =
  (Slingshot.request_loop fuel (http pds) did collection rkey cid, x).
Proof.
  revert cid; induction fuel as [|fuel IH]; intros cid; cbn [request_loop Slingshot.request_loop]; [done|].
  rewrite alone_bind, alone_observe. destruct (http pds _) as [| |[err|]| |]; try done. by destruct (_ && _).
Qed.

Lemma alone_repo_get_record w http did collection rkey cid x :
  run_alone w http (repo_get_record did collection rkey cid) x =
  lift (Slingshot.repo_get_record cid_from_str w http did collection rkey cid) x.
Proof.
  unfold repo_get_record, Slingshot.repo_get_record. rewrite alone_bind, alone_did_to_pds. unfold lift.
  destruct (Identity.did_to_pds w did _) as [[[p|]|e] s]; [|done|done]. rewrite alone_bind, alone_request_loop. done.
Qed.

Lemma alone_serve_record w http did collection rkey cid x :
  run_alone w http (serve_record did collection rkey cid) x =
  Slingshot.serve_record cid_from_str is_json w http did collection rkey cid x.
Proof.
  unfold serve_record, fetch_record, Slingshot.serve_record, cache_fetch. rewrite !alone_bind, alone_observe.
  destruct x as [rc s]. cbn [Slingshot.x_identity Slingshot.x_cache].
  destruct (cache_get rc _) as [v|] eqn:E; [by destruct v|]. rewrite alone_bind, alone_repo_get_record. unfold lift.
  cbn [Slingshot.x_identity Slingshot.x_cache]. by destruct (Slingshot.repo_get_record _ _ _ _ _ _ _ s) as [[v|e] s'].
Qed.

Lemma alone_repo_did w http repo x : run_alone w http (repo_did repo) x = Slingshot.repo_did w repo x.
Proof.
  unfold repo_did, Slingshot.repo_did. destruct (Slingshot.did_new repo); [done|]. destruct (handle_new repo) as [h|]; [|done].
  rewrite alone_bind, alone_handle_to_did. unfold lift. by destruct (Identity.handle_to_did w h _) as [r s].
Qed.

Lemma alone_get_record w http repo collection rkey cid x :
  run_alone w http (get_record_impl repo collection rkey cid) x =
  Slingshot.get_record_impl cid_from_str is_json w http repo collection rkey cid x.
Proof.
  unfold get_record_impl, Slingshot.get_record_impl. rewrite alone_bind, alone_repo_did.
  destruct (Slingshot.repo_did w repo x) as [[did|r] x1]; [|done]. destruct (Slingshot.nsid_new collection); [|done].
  destruct (Slingshot.rkey_new rkey); [|done]. destruct cid as [cid|]; [destruct (cid_from_str cid); [|done]|]; apply alone_serve_record.
Qed.

Lemma alone_get_uri_record w http at_uri cid x :
  run_alone w http (get_uri_record at_uri cid) x = Slingshot.get_uri_record cid_from_str is_json w http at_uri cid x.
Proof.
  unfold get_uri_record, Slingshot.get_uri_record. destruct (AtUri.parse_at_uri at_uri) as [n|]; [|done].
  destruct (strip_prefix "at://" n) as [rest|]; [|done]. destruct (split_once "/" rest) as [[repo rest']|]; [|done].
  destruct (split_once "/" rest') as [[collection rest'']|]; [|done]. apply alone_get_record.
Qed.

Lemma alone_resolve_handle w http h x : run_alone w http (resolve_handle h) x = lift (Slingshot.resolve_handle w h) x.
Proof.
  unfold resolve_handle, Slingshot.resolve_handle. destruct (handle_new h) as [handle|]; [|by destruct x].
  rewrite alone_bind, alone_handle_to_did. unfold lift. destruct (Identity.handle_to_did w handle _) as [[[d|]|e] s]; [|done|done].
  rewrite alone_bind, alone_doc. unfold lift. cbn [Slingshot.x_identity Slingshot.x_cache].
  destruct (Identity.did_to_partial_mini_doc w d s) as [[[doc|]|e] s']; [|done|done]. by destruct (negb _).
Qed.

Lemma alone_mini_identifier w http i x : run_alone w http (mini_identifier i) x = lift (Slingshot.mini_identifier w i) x.
Proof.
  unfold mini_identifier, Slingshot.mini_identifier. destruct (Slingshot.did_new i); [by destruct x|].
  destruct (handle_new i) as [h|]; [|by destruct x]. rewrite alone_bind, alone_handle_to_did. unfold lift.
  by destruct (Identity.handle_to_did w h _) as [[[d|]|e] s].
Qed.

Lemma alone_resolve_mini_id w http i x : run_alone w http (resolve_mini_id i) x = lift (Slingshot.resolve_mini_id w i) x.
Proof.
  unfold resolve_mini_id, Slingshot.resolve_mini_id. rewrite alone_bind, alone_mini_identifier. unfold lift.
  destruct (Slingshot.mini_identifier w i _) as [[[did mh]|r] s]; [|done]. rewrite alone_bind, alone_doc. unfold lift.
  cbn [Slingshot.x_identity Slingshot.x_cache]. destruct (Identity.did_to_partial_mini_doc w did s) as [[[doc|]|e] s1]; [|done|done].
  destruct mh as [h|]; [done|]. rewrite alone_bind, alone_handle_to_did. unfold lift. cbn [Slingshot.x_identity Slingshot.x_cache].
  by destruct (Identity.handle_to_did w _ s1) as [[[d|]|e] s2].
Qed.
End Tasks.
#[global] Arguments Done {C R A} a.
#[global] Arguments Seg {C R A} stores act next.
End Tasks.
