(* ===== verification/SlingshotService.v ===== *)
(** * slingshot: the service over time (slingshot/src/server.rs, consumer.rs)

    The routes of the server with their parameters, the document that makes it
    an appview, and its runs: the consumer takes events of the stream, clients
    ask, their requests and the refresher run segment by segment (SlingshotTasks),
    the caches forget, and the process restarts with what its disk still holds.
    Shown here: every record that is served is one that the stream or its
    repository's server told, and since it was stored, or since the last restart,
    nothing about it had come from the stream; that an event which comes while a
    request waits for upstream is overwritten by the older answer; and that
    without interruption the tasks are the handlers of SlingshotServer. *)

From S2P Require Import Prelude RustStr LinksAtUri UfosDbTypes UfosBatch.
From S2P Require Import SlingshotIdentity SlingshotServer SlingshotTasks.
Import Identity Tasks.

Module SlingshotRuns.

(** ** Routes *)

Record AppViewService : Type := mkAppViewService { avs_id : string; avs_type : string; avs_endpoint : string }.
Record AppViewDoc : Type := mkAppViewDoc { avd_id : string; avd_service : AppViewService }.

Definition get_did_doc (domain : string) : AppViewDoc :=
  mkAppViewDoc ("did:web:" +:+ domain) (mkAppViewService "#slingshot" "SlingshotRecordProxy" ("https://" +:+ domain)).

Inductive Reply : Type :=
  | RecordReply (r : Response FoundRecordResponseObject)
  | HandleReply (r : Response FoundDidResponseObject)
  | MiniReply (r : Response MiniDocResponseObject)
  | DidDocReply (doc : AppViewDoc)
  | StaticIndex
  | OpenApiSpec
  | NoRoute.

(** Where the server listens. *)
Inductive Listening : Type :=
  | Acme (address domain : string) (contact certs : option string)
  | Plain (address : string).

(** The choices of [serve]: the url in the api description, and the listener. *)
Definition server_url (domain : option string) : string :=
  match domain with Some h => "https://" +:+ h | None => "http://localhost:3000" end.
Definition listener (domain acme_contact certs : option string) : Listening :=
  match domain with
  | Some domain => Acme "0.0.0.0:443" domain acme_contact certs
  | None => Plain "127.0.0.1:3000"
  end.

(** What a bad parameter is answered with; [err] is poem's text. *)
Definition bad_request_handler {A} (err : string) : Response A :=
  RespBadRequest (xrpc_error "InvalidRequest" ("Bad request, here's some info that maybe should not be exposed: " +:+ err)).

Section Service.
Context `{AtriumIdentity, Atrium, FluentUri}.
Context {C : Type} `{FoyerCache C IdentityKey IdentityVal}.
Context {R : Type} `{FoyerCache R string CachedRecord}.
Context (cid_from_str : string → option Cid) (is_json : string → bool).
(** poem's text for a parameter that is missing. *)
Context (missing : string → string).

Abbreviation Http := (string → list (string * string) → HttpOutcome).
Abbreviation Xrpc := (Slingshot.Xrpc (C := C) (R := R)).

Definition required {A} (name : string) (params : gmap string string) (wrap : Response A → Reply) (x : Xrpc)
    (k : string → Reply * Xrpc) : Reply * Xrpc :=
  match params !! name with
  | Some v => k v
  | None => (wrap (bad_request_handler (missing name)), x)
  end.

Definition on_record (r : Response FoundRecordResponseObject * Xrpc) : Reply * Xrpc := (RecordReply r.1, r.2).
Definition on_identity {A} (wrap : Response A → Reply) (x : Xrpc) (r : Response A * St (C := C)) : Reply * Xrpc :=
  (wrap r.1, Slingshot.mkXrpc (Slingshot.x_cache x) r.2).

(** The routes of [serve] and the operations of the api. *)
Definition route (domain : option string) (w : World) (http : Http) (path : string) (params : gmap string string) (x : Xrpc)
    : Reply * Xrpc :=
  if decide (path = "/xrpc/com.atproto.repo.getRecord") then
    required "repo" params RecordReply x (λ repo,
      required "collection" params RecordReply x (λ collection,
        required "rkey" params RecordReply x (λ rkey,
          on_record (Slingshot.get_record_impl cid_from_str is_json w http repo collection rkey (params !! "cid") x))))
  else if decide (path = "/xrpc/com.bad-example.repo.getUriRecord") then
    required "at_uri" params RecordReply x (λ at_uri,
      on_record (Slingshot.get_uri_record cid_from_str is_json w http at_uri (params !! "cid") x))
  else if decide (path = "/xrpc/com.atproto.identity.resolveHandle") then
    required "handle" params HandleReply x (λ handle,
      on_identity HandleReply x (Slingshot.resolve_handle w handle (Slingshot.x_identity x)))
  else if decide (path = "/xrpc/com.bad-example.identity.resolveMiniDoc") then
    required "identifier" params MiniReply x (λ identifier,
      on_identity MiniReply x (Slingshot.resolve_mini_id w identifier (Slingshot.x_identity x)))
  else if decide (path = "/") then (StaticIndex, x)
  else if decide (path = "/openapi") then (OpenApiSpec, x)
  else if decide (path = "/.well-known/did.json") then
    (match domain with Some domain => DidDocReply (get_did_doc domain) | None => NoRoute end, x)
  else (NoRoute, x).

(** The same, as a task. *)
Definition map_task {A B} (f : A → B) (t : Task (C := C) (R := R) A) : Task (C := C) (R := R) B := bind t (λ a, Done (f a)).
Definition required_task {A} (name : string) (params : gmap string string) (wrap : Response A → Reply)
    (k : string → Task (C := C) (R := R) Reply) : Task (C := C) (R := R) Reply :=
  match params !! name with
  | Some v => k v
  | None => Done (wrap (bad_request_handler (missing name)))
  end.
Definition route_task (domain : option string) (path : string) (params : gmap string string) : Task (C := C) (R := R) Reply :=
  if decide (path = "/xrpc/com.atproto.repo.getRecord") then
    required_task "repo" params RecordReply (λ repo,
      required_task "collection" params RecordReply (λ collection,
        required_task "rkey" params RecordReply (λ rkey,
          map_task RecordReply (Tasks.get_record_impl cid_from_str is_json repo collection rkey (params !! "cid")))))
  else if decide (path = "/xrpc/com.bad-example.repo.getUriRecord") then
    required_task "at_uri" params RecordReply (λ at_uri,
      map_task RecordReply (Tasks.get_uri_record cid_from_str is_json at_uri (params !! "cid")))
  else if decide (path = "/xrpc/com.atproto.identity.resolveHandle") then
    required_task "handle" params HandleReply (λ handle, map_task HandleReply (Tasks.resolve_handle handle))
  else if decide (path = "/xrpc/com.bad-example.identity.resolveMiniDoc") then
    required_task "identifier" params MiniReply (λ identifier, map_task MiniReply (Tasks.resolve_mini_id identifier))
  else if decide (path = "/") then Done StaticIndex
  else if decide (path = "/openapi") then Done OpenApiSpec
  else if decide (path = "/.well-known/did.json") then
    Done match domain with Some domain => DidDocReply (get_did_doc domain) | None => NoRoute end
  else Done NoRoute.

(** A request that no other task interrupts, in a world that stays the same, is
    answered as by the sequential handlers, whose theorems then hold of it; and
    a turn of the refresher does what the sequential one does. *)
Theorem undisturbed_as_sequential domain w http path params (x : Xrpc) :
  run_alone w http (route_task domain path params) x = route domain w http path params x ∧
  run_alone w http Tasks.refresh_turn x =
    (let '(r, s) := Identity.refresh_turn w (Slingshot.x_identity x) in (r, Slingshot.mkXrpc (Slingshot.x_cache x) s)).
Proof.
  split; [|apply alone_refresh_turn]. unfold route_task, route, required_task, required, map_task, on_record, on_identity.
  repeat (case_decide; [|]); try done.
  - destruct (params !! "repo") as [repo|]; [|done]. destruct (params !! "collection") as [collection|]; [|done].
    destruct (params !! "rkey") as [rkey|]; [|done]. rewrite alone_bind, alone_get_record. by destruct (Slingshot.get_record_impl _ _ _ _ _ _ _ _ _).
  - destruct (params !! "at_uri") as [at_uri|]; [|done]. rewrite alone_bind, alone_get_uri_record. by destruct (Slingshot.get_uri_record _ _ _ _ _ _ _).
  - destruct (params !! "handle") as [h|]; [|done]. rewrite alone_bind, alone_resolve_handle. unfold lift. by destruct (Slingshot.resolve_handle _ _ _).
  - destruct (params !! "identifier") as [i|]; [|done]. rewrite alone_bind, alone_resolve_mini_id. unfold lift. by destruct (Slingshot.resolve_mini_id _ _ _).
Qed.

(** ** Runs *)

(** What happens, the newest first: an event of the stream; a segment of a
    request or of the refresher, with the clock, resolvers and servers it saw
    and the record it stored in the cache;
    the reply to a request, right after the last segment of its task; and a
    restart of the process. *)
Inductive Step : Type :=
  | Told (e : JetstreamEvent)
  | Ran (w : World) (http : Http) (stored : option (string * CachedRecord))
  | Replied (path : string) (params : gmap string string) (reply : Reply)
  | Restarted.

(** What an event says about a record. *)
Definition told (event : JetstreamEvent) : option (string * CachedRecord) :=
  match ev_kind event, ev_commit event with
  | KCommit, Some commit =>
      let at_uri := Slingshot.record_uri (ev_did event) (ce_collection commit) (ce_rkey commit) in
      match ce_operation commit, ce_record commit, ce_cid commit with
      | OpDelete, _, _ => Some (at_uri, Deleted)
      | _, Some record, Some cid => Some (at_uri, Found (mkRawRecord (mkCid cid) record))
      | _, _, _ => None
      end
  | _, _ => None
  end.

(** The service: its caches and queue, the requests in flight, the refresher
    until it ends with an error, and the states it was in before. *)
Record Running : Type := mkRunning {
  rn_x : Xrpc;
  rn_pool : list (string * gmap string string * Task (C := C) (R := R) Reply);
  rn_refresher : option (Task (C := C) (R := R) (result IdentityError ()));
  rn_past : list Xrpc
}.

(** A request that is done leaves the pool with its reply. *)
Definition settle_request (path : string) (params : gmap string string) (t : Task (C := C) (R := R) Reply)
    : list (string * gmap string string * Task (C := C) (R := R) Reply) * list Step :=
  match t with
  | Done reply => ([], [Replied path params reply])
  | Seg _ _ _ => ([(path, params, t)], [])
  end.

(** The loop of the refresher begins another turn, or ends. *)
Definition next_turn (t : Task (C := C) (R := R) (result IdentityError ())) : option (Task (C := C) (R := R) (result IdentityError ())) :=
  match t with
  | Done (Ok _) => Some Tasks.refresh_turn
  | Done (Err _) => None
  | Seg _ _ _ => Some t
  end.

(** From empty caches on.  Requests come and are given up at any time, any task
    in flight may run its next segment, and the caches may forget.  A restart
    loses the tasks and the refresh queue; the caches, which are on disk, then
    hold values that they held at some time before, also outdated ones. *)
Inductive runs (domain : option string) : Running → list Step → Prop :=
  | run_start c ci :
      (∀ u, cache_get c u = None) → (∀ k, cache_get ci k = None) →
      runs domain (mkRunning (Slingshot.mkXrpc c (mkSt ci (mkRefresh [] ∅))) [] (Some Tasks.refresh_turn) []) []
  | run_told s tr e :
      runs domain s tr →
      runs domain (mkRunning (Slingshot.mkXrpc (Slingshot.consume_event e (Slingshot.x_cache (rn_x s))) (Slingshot.x_identity (rn_x s)))
        (rn_pool s) (rn_refresher s) (rn_x s :: rn_past s)) (Told e :: tr)
  | run_asked s tr path params :
      runs domain s tr →
      runs domain (mkRunning (rn_x s) (rn_pool s ++ (settle_request path params (route_task domain path params)).1)
        (rn_refresher s) (rn_past s)) ((settle_request path params (route_task domain path params)).2 ++ tr)
  | run_segment s tr w http l1 path params stores act next l2 :
      runs domain s tr → rn_pool s = l1 ++ (path, params, Seg stores act next) :: l2 →
      runs domain (mkRunning (turn stores act w (rn_x s)) (l1 ++ (settle_request path params (next w http (rn_x s))).1 ++ l2)
        (rn_refresher s) (rn_x s :: rn_past s)) ((settle_request path params (next w http (rn_x s))).2 ++ Ran w http stores :: tr)
  | run_gave_up s tr l1 request l2 :
      runs domain s tr → rn_pool s = l1 ++ request :: l2 →
      runs domain (mkRunning (rn_x s) (l1 ++ l2) (rn_refresher s) (rn_past s)) tr
  | run_refresher s tr w http stores act next :
      runs domain s tr → rn_refresher s = Some (Seg stores act next) →
      runs domain (mkRunning (turn stores act w (rn_x s)) (rn_pool s) (next_turn (next w http (rn_x s))) (rn_x s :: rn_past s))
        (Ran w http stores :: tr)
  | run_forgot s tr c ci :
      runs domain s tr →
      (∀ u v, cache_get c u = Some v → cache_get (Slingshot.x_cache (rn_x s)) u = Some v) →
      (∀ k v, cache_get ci k = Some v → cache_get (cache (Slingshot.x_identity (rn_x s))) k = Some v) →
      runs domain (mkRunning (Slingshot.mkXrpc c (with_cache ci (Slingshot.x_identity (rn_x s))))
        (rn_pool s) (rn_refresher s) (rn_x s :: rn_past s)) tr
  | run_restarted s tr c ci :
      runs domain s tr →
      (∀ u v, cache_get c u = Some v → ∃ x, x ∈ rn_x s :: rn_past s ∧ cache_get (Slingshot.x_cache x) u = Some v) →
      (∀ k v, cache_get ci k = Some v → ∃ x, x ∈ rn_x s :: rn_past s ∧ cache_get (cache (Slingshot.x_identity x)) k = Some v) →
      runs domain (mkRunning (Slingshot.mkXrpc c (mkSt ci (mkRefresh [] ∅))) [] (Some Tasks.refresh_turn) (rn_x s :: rn_past s)) (Restarted :: tr).

(** The worlds that the segments of a run saw. *)
Definition worlds (tr : list Step) : list World := omap (λ s, match s with Ran w _ _ => Some w | _ => None end) tr.

(** The server that a document of [did] named. *)
Definition pds_of (seen : list World) (did : Did) (p : string) : Prop :=
  ∃ w dd doc, w ∈ seen ∧ w_did w did = Ok dd ∧ doc_id dd = did_str did ∧ try_from dd = Ok doc ∧ pds doc = p.

(** In a segment, the server that a document of the DID had named by then
    answered a request for the record with [data]. *)
Definition upstream (tr : list Step) (did : Did) (collection : Nsid) (rkey : RecordKey) (data : RecordResponseObject) : Prop :=
  ∃ later w http stored earlier p cid, tr = later ++ Ran w http stored :: earlier ∧ pds_of (worlds earlier) did p ∧
    http p (Slingshot.record_params did collection rkey cid) = SuccessStatus (Some data).

(** It answered that the record at [u] is [v]. *)
Definition answered (tr : list Step) (u : string) (v : CachedRecord) : Prop :=
  ∃ did collection rkey data c c', u = Slingshot.record_uri did collection rkey ∧ upstream tr did collection rkey data ∧
    ro_cid data = Some c ∧ cid_from_str c = Some c' ∧ v = Found (mkRawRecord c' (ro_value data)).

(** A step that stores [v] for [u]: an event that says so, or a segment, after
    it was answered. *)
Definition gives (step : Step) (earlier : list Step) (u : string) (v : CachedRecord) : Prop :=
  match step with
  | Told e => told e = Some (u, v)
  | Ran _ _ stored => stored = Some (u, v) ∧ answered earlier u v
  | Replied _ _ _ | Restarted => False
  end.

(** The stream says something about [u]. *)
Definition about (u : string) (step : Step) : Prop :=
  match step with Told e => ∃ v, told e = Some (u, v) | _ => False end.

(** Since the first of these steps, or since the last restart, the stream has
    said nothing about [u]. *)
Fixpoint unheard (u : string) (later : list Step) : Prop :=
  match later with
  | [] => True
  | Restarted :: _ => True
  | s :: later => ¬ about u s ∧ unheard u later
  end.

(** [v] was given for [u], and not contradicted by the stream since. *)
Definition given (tr : list Step) (u : string) (v : CachedRecord) : Prop :=
  ∃ later step earlier, tr = later ++ step :: earlier ∧ gives step earlier u v.
Definition fresh (tr : list Step) (u : string) (v : CachedRecord) : Prop :=
  ∃ later step earlier, tr = later ++ step :: earlier ∧ gives step earlier u v ∧ unheard u later.

(** Repository, collection and key that a request asks for. *)
Definition uri_parts (at_uri : string) : option (string * string * string) :=
  normalized ← AtUri.parse_at_uri at_uri;
  rest ← strip_prefix "at://" normalized;
  '(repo, rest) ← split_once "/" rest;
  '(collection, rest) ← split_once "/" rest;
  Some (repo, collection, match split_once "?" rest with Some (rkey, _) => rkey | None => rest end).

Definition target_of (path : string) (params : gmap string string) : option (string * string * string) :=
  if decide (path = "/xrpc/com.atproto.repo.getRecord") then
    repo ← params !! "repo"; collection ← params !! "collection"; rkey ← params !! "rkey"; Some (repo, collection, rkey)
  else params !! "at_uri" ≫= uri_parts.

(** The DID that a repository parameter names. *)
Definition names (seen : list World) (repo : string) (did : Did) : Prop :=
  Slingshot.did_new repo = Some did ∨ ∃ h, handle_new repo = Some h ∧ verified seen h did.

(** ** What the caches hold *)

Section Fresh.
Context `{!FoyerLaws C IdentityKey IdentityVal, !FoyerLaws R string CachedRecord}.

Lemma worlds_mono tr tr' : tr `suffix_of` tr' → worlds tr ⊆ worlds tr'.
Proof. intros [l ->] w. unfold worlds. rewrite omap_app, elem_of_app. by right. Qed.

Lemma pds_of_mono seen seen' did p : seen ⊆ seen' → pds_of seen did p → pds_of seen' did p.
Proof. intros Hs (w & dd & doc & Hw & Hr). exists w, dd, doc. split; [by apply Hs|done]. Qed.

Lemma answered_mono tr tr' u v : tr `suffix_of` tr' → answered tr u v → answered tr' u v.
Proof.
  intros [l ->] (did & collection & rkey & data & c & c' & Hu & (later & w & http & stored & earlier & p & cid & -> & Hp) & Hr).
  exists did, collection, rkey, data, c, c'. split_and!; [done| |apply Hr..]. exists (l ++ later), w, http, stored, earlier, p, cid.
  by rewrite <- app_assoc.
Qed.

Lemma consume_told e (c : R) :
  Slingshot.consume_event e c = match told e with Some (u, v) => cache_insert u v c | None => c end.
Proof.
  unfold Slingshot.consume_event, told. destruct (ev_kind e); try done. destruct (ev_commit e) as [commit|]; [|done].
  by destruct (ce_operation commit), (ce_record commit), (ce_cid commit).
Qed.

Lemma fresh_cons s tr u v : ¬ about u s → fresh tr u v → fresh (s :: tr) u v.
Proof.
  intros Hs (later & f & earlier & -> & Hg & Hl). exists (s :: later), f, earlier. split_and!; [done|done|]. by destruct s.
Qed.

Lemma fresh_now s tr u v : gives s tr u v → fresh (s :: tr) u v.
Proof. intros Hg. by exists [], s, tr. Qed.

Lemma given_mono tr tr' u v : tr `suffix_of` tr' → given tr u v → given tr' u v.
Proof. intros [l ->] (later & f & earlier & -> & Hg). exists (l ++ later), f, earlier. by rewrite <- app_assoc. Qed.

Lemma fresh_given tr u v : fresh tr u v → given tr u v.
Proof. intros (later & f & earlier & ? & ? & _). by exists later, f, earlier. Qed.

Lemma given_fresh tr u v : given tr u v → fresh (Restarted :: tr) u v.
Proof. intros (later & f & earlier & -> & Hg). by exists (Restarted :: later), f, earlier. Qed.

(** The records in the cache are fresh, the identities in order. *)
Definition cache_fresh (tr : list Step) (c : R) : Prop := ∀ u v, cache_get c u = Some v → fresh tr u v.
Definition inv (tr : list Step) (x : Xrpc) : Prop :=
  cache_fresh tr (Slingshot.x_cache x) ∧ good (worlds tr) (Slingshot.x_identity x).

Lemma told_fresh e tr c : cache_fresh tr c → cache_fresh (Told e :: tr) (Slingshot.consume_event e c).
Proof.
  intros Hc u v. rewrite consume_told. destruct (told e) as [[u' v']|] eqn:Et; intros Hg.
  - apply cache_get_insert in Hg as [[-> ->]|[Hne Hg]]; [by apply fresh_now|].
    apply fresh_cons; [|by apply Hc]. intros [v2 Hv]. cbn in Hv. rewrite Et in Hv. congruence.
  - apply fresh_cons; [|by apply Hc]. intros [v2 Hv]. cbn in Hv. by rewrite Et in Hv.
Qed.

Lemma inv_replied path params reply tr x : inv tr x → inv (Replied path params reply :: tr) x.
Proof. intros [Hc Hs]. split; [|done]. intros u v Hg. apply fresh_cons; [by intros []|by apply Hc]. Qed.

Lemma inv_turn w http stores act tr x :
  inv tr x → (∀ u v, stores = Some (u, v) → answered tr u v) →
  good (w :: worlds tr) (act w (Slingshot.x_identity x)) → inv (Ran w http stores :: tr) (turn stores act w x).
Proof.
  intros [Hc Hs] Hst Hg. split; [|done]. unfold turn. cbn [Slingshot.x_cache]. destruct stores as [[u v]|]; intros u' v' Hget.
  - apply cache_get_insert in Hget as [[-> ->]|[_ Hget]]; [apply fresh_now; split; [done|by apply Hst]|].
    apply fresh_cons; [by intros []|by apply Hc].
  - apply fresh_cons; [by intros []|by apply Hc].
Qed.

(** ** What a task keeps *)

(** Whatever others do between its segments, as long as they keep the
    invariant, so does each segment: it stores only what was answered; and when
    the task is done, [Q] holds of the steps so far and of its result. *)
Fixpoint wp {A} (t : Task (C := C) (R := R) A) (Q : list Step → A → Prop) (tr : list Step) : Prop :=
  match t with
  | Done a => Q tr a
  | Seg stores act next =>
      (∀ u v, stores = Some (u, v) → answered tr u v) ∧
      ∀ tr' w http x, tr `suffix_of` tr' → inv tr' x →
        good (w :: worlds tr') (act w (Slingshot.x_identity x)) ∧ wp (next w http x) Q (Ran w http stores :: tr')
  end.

Lemma wp_bind {A B} (t : Task (C := C) (R := R) A) (k : A → Task (C := C) (R := R) B) P Q tr :
  wp t P tr → (∀ tr' a, tr `suffix_of` tr' → P tr' a → wp (k a) Q tr') → wp (bind t k) Q tr.
Proof.
  revert tr. induction t as [a|stores act next IH]; intros tr Ht Hk; [by apply Hk|]. destruct Ht as [Hst Ht].
  split; [done|]. intros tr' w http x Hsuf Hx. destruct (Ht tr' w http x Hsuf Hx) as [Hg Hn]. split; [done|].
  apply IH; [done|]. intros tr2 a Hsuf2. apply Hk. etrans; [exact Hsuf|]. etrans; [|exact Hsuf2]. by apply suffix_cons_r.
Qed.

Lemma wp_conseq {A} (t : Task (C := C) (R := R) A) (P Q : list Step → A → Prop) tr :
  wp t P tr → (∀ tr' a, tr `suffix_of` tr' → P tr' a → Q tr' a) → wp t Q tr.
Proof.
  revert tr. induction t as [a|stores act next IH]; intros tr Ht Hk; [by apply Hk|]. destruct Ht as [Hst Ht].
  split; [done|]. intros tr' w http x Hsuf Hx. destruct (Ht tr' w http x Hsuf Hx) as [Hg Hn]. split; [done|].
  apply IH; [done|]. intros tr2 a Hsuf2. apply Hk. etrans; [exact Hsuf|]. etrans; [|exact Hsuf2]. by apply suffix_cons_r.
Qed.

Lemma wp_observe {A} (f : World → Http → Xrpc → A) (Q : list Step → A → Prop) tr :
  (∀ tr' w http x, tr `suffix_of` tr' → inv tr' x → Q (Ran w http None :: tr') (f w http x)) → wp (observe f) Q tr.
Proof.
  intros Hf. split; [done|]. intros tr' w http x Hsuf Hx. split; [|by apply Hf]. destruct Hx as [_ Hx].
  eapply good_mono; [|exact Hx]. by right.
Qed.

Lemma wp_update {A} (f : World → St (C := C) → A * St (C := C)) (Q : list Step → A → Prop) tr :
  (∀ tr' w http s, tr `suffix_of` tr' → good (w :: worlds tr') s →
     good (w :: worlds tr') (f w s).2 ∧ Q (Ran w http None :: tr') (f w s).1) → wp (update f) Q tr.
Proof.
  intros Hf. split; [done|]. intros tr' w http x Hsuf [_ Hx]. apply Hf; [done|]. eapply good_mono; [|exact Hx]. by right.
Qed.

(** A task that waits is not bothered by what happened meanwhile. *)
Definition pending {A} (t : Task (C := C) (R := R) A) (Q : list Step → A → Prop) (tr : list Step) : Prop :=
  match t with Done _ => False | Seg _ _ _ => wp t Q tr end.

Lemma pending_mono {A} (t : Task (C := C) (R := R) A) Q tr tr' : tr `suffix_of` tr' → pending t Q tr → pending t Q tr'.
Proof.
  intros Hsuf. destruct t as [a|stores act next]; [done|]. intros [Hst Ht]. split; [intros u v Hu; by apply (answered_mono tr), Hst|].
  intros tr2 w http x Hsuf2. apply Ht. by trans tr'.
Qed.

(** *** Identities *)

Lemma fetch_identity_wp key resolve tr :
  (∀ seen w v, w ∈ seen → resolve w = Ok v → origin seen key v) →
  wp (fetch_identity key resolve) (λ tr' r, ∀ v, r = Ok v → origin (worlds tr') key v) tr.
Proof.
  intros Hr. apply (wp_bind _ _ (λ tr' e, ∀ v, e = Some v → origin (worlds tr') key v)).
  { apply wp_observe. intros tr' w http x _ [_ [Hs _]] v Hv. by apply (origin_mono (worlds tr')), Hs; [by right|]. }
  intros tr1 [v|] _ He; [by intros v' [= <-]; apply He|].
  apply (wp_bind _ _ (λ tr' e, ∀ v, e = Ok v → origin (worlds tr') key v)).
  { apply wp_observe. intros tr' w http x _ _ v. apply Hr. by left. }
  intros tr2 [v|e] _ Hv; [|by intros v']. apply wp_update. intros tr3 w http s Hsuf [Hs Hq]. cbn [fst snd].
  assert (Ho : origin (w :: worlds tr3) key v).
  { eapply origin_mono; [|by apply Hv]. intros w' Hw'. right. by apply (worlds_mono tr2). }
  split; [|by intros v' [= <-]]. split; [by apply sourced_insert|done].
Qed.

Lemma queue_refresh_wp old key tr : wp (queue_refresh_if old key) (λ _ _, True) tr.
Proof. destruct old; [|done]. apply wp_update. intros tr' w http s _ Hg. split; [by apply good_queue|done]. Qed.

Lemma unverified_wp h tr :
  wp (Tasks.handle_to_unverified_did h) (λ tr' r, ∀ d, r = Ok (Some d) → ∃ w, w ∈ worlds tr' ∧ w_handle w h = Ok d) tr.
Proof.
  eapply wp_bind; [apply fetch_identity_wp; intros seen w v; apply fetch_handle_origin|].
  intros tr1 [v|e] _ Hv; [|done]. eapply (wp_bind _ _ (λ _ _, True)); [by apply wp_observe|]. intros tr2 t Hs2 _.
  destruct (Hv v eq_refl) as (w & Hw & _ & Hd). destruct (data v); [| |done].
  - eapply wp_bind; [apply queue_refresh_wp|]. by intros tr3 [] _ _.
  - eapply wp_bind; [apply queue_refresh_wp|]. intros tr3 [] Hs3 _ d' [= <-]. exists w. split; [|done].
    eapply worlds_mono; [exact Hs3|]. by eapply worlds_mono.
Qed.

(** A document of the DID that a resolver answered. *)
Definition doc_of (seen : list World) (d : Did) (doc : PartialMiniDoc) : Prop :=
  ∃ w dd, w ∈ seen ∧ w_did w d = Ok dd ∧ doc_id dd = did_str d ∧ try_from dd = Ok doc.

Lemma doc_wp d tr :
  wp (Tasks.did_to_partial_mini_doc d) (λ tr' r, ∀ doc, r = Ok (Some doc) → doc_of (worlds tr') d doc) tr.
Proof.
  eapply wp_bind; [apply fetch_identity_wp; intros seen w v; apply fetch_did_origin|].
  intros tr1 [v|e] _ Hv; [|done]. eapply (wp_bind _ _ (λ _ _, True)); [by apply wp_observe|]. intros tr2 t Hs2 _.
  destruct (Hv v eq_refl) as (w & Hw & _ & Hd). destruct (data v); [|done|].
  - eapply wp_bind; [apply queue_refresh_wp|]. by intros tr3 [] _ _.
  - eapply wp_bind; [apply queue_refresh_wp|]. intros tr3 [] Hs3 _ d' [= <-]. destruct Hd as (dd & Hd). exists w, dd. split; [|done].
    eapply worlds_mono; [exact Hs3|]. by eapply worlds_mono.
Qed.

Lemma handle_wp h tr : wp (Tasks.handle_to_did h) (λ tr' r, ∀ d, r = Ok (Some d) → verified (worlds tr') h d) tr.
Proof.
  eapply wp_bind; [apply unverified_wp|]. intros tr1 [[d|]|e] _ Hd; [|done|done].
  eapply wp_bind; [apply doc_wp|]. intros tr2 [[doc|]|e] Hs2 Hdoc; [|done|done].
  case_bool_decide as Hh; [|done]. intros d' [= <-]. split.
  - destruct (Hd d eq_refl) as (w & Hw & E). exists w. split; [|done]. by eapply worlds_mono.
  - destruct (Hdoc doc eq_refl) as (w & dd & ? & ? & ? & ?). by exists w, dd, doc.
Qed.

Lemma pds_wp d tr : wp (Tasks.did_to_pds d) (λ tr' r, ∀ p, r = Ok (Some p) → pds_of (worlds tr') d p) tr.
Proof.
  eapply wp_bind; [apply doc_wp|]. intros tr1 [[doc|]|e] _ Hdoc; [|done|done]. intros p [= <-].
  destruct (Hdoc doc eq_refl) as (w & dd & ? & ? & ? & ?). by exists w, dd, doc.
Qed.

Lemma complete_good seen key (s : St (C := C)) : good seen s → good seen (complete_refresh key s).2.
Proof.
  intros [Hc [Hnd Hq]]. unfold complete_refresh. destruct (queue (refresh_queue s)) as [|k rest] eqn:E.
  { split; [done|]. split; cbn; [constructor|]. intros k. rewrite elem_of_difference, <- Hq. set_solver. }
  apply NoDup_cons in Hnd as [Hk Hnd].
  assert (Hin : in_step (mkRefresh rest (items (refresh_queue s) ∖ {[k]}))).
  { split; [done|]. intros j. cbn. rewrite elem_of_difference, elem_of_singleton, <- Hq, elem_of_cons. naive_solver. }
  case_bool_decide as Hkey; cbn [negb]; [subst k|by split].
  case_decide as Hd; [by split|]. destruct Hd. apply Hq. by left.
Qed.

Lemma complete_wp key tr : wp (Tasks.complete key) (λ _ _, True) tr.
Proof. apply wp_update. intros tr' w http s _ Hg. split; [by apply complete_good|done]. Qed.

Lemma refresh_turn_wp tr : wp Tasks.refresh_turn (λ _ _, True) tr.
Proof.
  assert (Hins : ∀ seen key v (s : St (C := C)), good seen s → origin seen key v → good seen (insert_val key v s)).
  { intros seen key v s [Hc Hq] Hv. split; [by apply sourced_insert|done]. }
  eapply (wp_bind _ _ (λ _ _, True)); [by apply wp_observe|]. intros tr1 [[h|d]|] _ _; [| |done].
  - eapply (wp_bind _ _ (λ _ _, True)); [|intros tr2 [] _ _; apply complete_wp]. apply wp_update. intros tr' w http s _ Hg. cbn [fst snd].
    split; [|done]. assert (Hw : w ∈ w :: worlds tr') by (by left).
    destruct (w_handle w h) as [d|[]] eqn:E; [| |done]; (apply Hins; [done|]); by exists w.
  - eapply (wp_bind _ _ (λ _ _, True)); [|intros tr2 [] _ _; [apply complete_wp|done]]. apply wp_update. intros tr' w http s _ Hg.
    split; [|done]. assert (Hw : w ∈ w :: worlds tr') by (by left).
    destruct (w_did w d) as [dd|[]] eqn:E; [| |done]; [|apply Hins; [done|]; by exists w].
    case_bool_decide as Hid; cbn [negb]; [|done]. destruct (try_from dd) as [doc|] eqn:Ht; [|done]. cbn [fst snd].
    apply Hins; [done|]. exists w. split_and!; [done|done|]. by exists dd.
Qed.

(** *** Records *)

Lemma request_loop_wp fuel p did collection rkey cid tr :
  pds_of (worlds tr) did p →
  wp (Tasks.request_loop fuel p did collection rkey cid)
    (λ tr' r, ∀ data, r = Some (Ok (SuccessStatus (Some data))) → upstream tr' did collection rkey data) tr.
Proof.
  revert cid tr; induction fuel as [|fuel IH]; intros cid tr Hp; cbn [Tasks.request_loop]; [done|].
  apply (wp_bind _ _ (λ tr' r, pds_of (worlds tr') did p ∧ ∀ data, r = SuccessStatus (Some data) → upstream tr' did collection rkey data)).
  - apply wp_observe. intros tr' w http x Hsuf _. assert (Hp' : pds_of (worlds tr') did p) by (eapply pds_of_mono; [by apply worlds_mono|done]).
    split; [eapply pds_of_mono; [|exact Hp']; by right|]. intros data Hd. by exists [], w, http, None, tr', p, cid.
  - intros tr' res _ [Hp' Hr]. destruct res as [| |[err|]| |[data|]]; try done.
    + destruct (_ && _); [by apply IH|done].
    + intros data' [= <-]. by apply Hr.
Qed.

Lemma repo_get_record_wp did collection rkey cid tr :
  wp (Tasks.repo_get_record cid_from_str did collection rkey cid)
    (λ tr' r, ∀ v, r = Ok v → answered tr' (Slingshot.record_uri did collection rkey) v) tr.
Proof.
  eapply wp_bind; [apply pds_wp|]. intros tr1 [[p|]|e] _ Hp; [|done|done].
  eapply wp_bind; [by apply request_loop_wp, Hp|]. intros tr2 [[res|e]|] _ Hd; [|done|done]. intros v.
  unfold Slingshot.record_of_response. destruct res as [| | | |[data|]]; try done.
  destruct (ro_cid data) as [c|] eqn:Ec; [|done]. destruct (cid_from_str c) as [c'|] eqn:Ec'; [|done]. intros [= <-].
  exists did, collection, rkey, data, c, c'. split_and!; try done. by apply Hd.
Qed.

Lemma fetch_record_wp u closure tr :
  (∀ tr, wp closure (λ tr' r, ∀ v, r = Ok v → answered tr' u v) tr) →
  wp (fetch_record u closure) (λ tr' r, ∀ v, r = Ok v → fresh tr' u v) tr.
Proof.
  intros Hc. apply (wp_bind _ _ (λ tr' e, ∀ v, e = Some v → fresh tr' u v)).
  { apply wp_observe. intros tr' w http x _ [Hx _] v Hv. apply fresh_cons; [by intros []|by apply Hx]. }
  intros tr1 [v|] _ He; [by intros v' [= <-]; apply He|].
  eapply wp_bind; [apply Hc|]. intros tr2 [v|e] _ Hv; [|done]. specialize (Hv v eq_refl).
  apply (wp_bind _ _ (λ tr' _, fresh tr' u v)); [|by intros tr3 [] _ Hf v' [= <-]].
  split; [by intros u' v' [= <- <-]|]. intros tr3 w http x Hsuf [_ Hg]. split; [eapply good_mono; [|exact Hg]; by right|].
  apply fresh_now. split; [done|]. by eapply answered_mono.
Qed.

Definition deleted_reply : Response FoundRecordResponseObject := RespBadRequest (xrpc_error "RecordNotFound" "This record was deleted").

(** What a reply about the record at [u] may say. *)
Record told_truth (tr : list Step) (u : string) (r : Response FoundRecordResponseObject) : Prop := {
  tt_found obj : r = RespOk obj →
    fr_uri obj = u ∧ ∃ c, fr_cid obj = Some (cid_str c) ∧ fresh tr u (Found (mkRawRecord c (fr_value obj)));
  tt_deleted : r = deleted_reply → fresh tr u Deleted
}.

Lemma serve_record_wp did collection rkey cid tr :
  wp (Tasks.serve_record cid_from_str is_json did collection rkey cid)
    (λ tr' r, told_truth tr' (Slingshot.record_uri did collection rkey) r) tr.
Proof.
  eapply wp_bind; [apply fetch_record_wp; intros tr'; apply repo_get_record_wp|]. intros tr1 fr _ Hfr. cbn [wp].
  unfold record_reply. destruct fr as [[raw|]|err].
  - specialize (Hfr _ eq_refl). destruct (negb (is_json _)); [by constructor|].
    destruct (match cid with Some c => _ | None => _ end); [by constructor|]. constructor; [|done]. intros obj [= <-]. cbn [fr_uri fr_cid fr_value].
    split; [done|]. exists (rr_cid raw). split; [done|]. by destruct raw.
  - constructor; [done|]. intros _. by apply Hfr.
  - destruct err; by constructor.
Qed.

(** What a reply about the record of a request may say. *)
Definition reply_fresh (tr : list Step) (target : option (string * string * string)) (r : Response FoundRecordResponseObject) : Prop :=
  (∀ obj, r = RespOk obj →
     ∃ repo collection rkey did c, target = Some (repo, collection, rkey) ∧ names (worlds tr) repo did ∧
       fr_uri obj = Slingshot.record_uri did (mkNsid collection) (mkRecordKey rkey) ∧ fr_cid obj = Some (cid_str c) ∧
       fresh tr (fr_uri obj) (Found (mkRawRecord c (fr_value obj)))) ∧
  (r = deleted_reply →
     ∃ repo collection rkey did, target = Some (repo, collection, rkey) ∧ names (worlds tr) repo did ∧
       fresh tr (Slingshot.record_uri did (mkNsid collection) (mkRecordKey rkey)) Deleted).

Lemma names_mono seen seen' repo did : seen ⊆ seen' → names seen repo did → names seen' repo did.
Proof.
  intros Hs [Hd|(h & Hh & (w & Hw & E) & w' & dd & doc & Hw' & Hr)]; [by left|]. right. exists h. split; [done|]. split.
  - exists w. split; [by apply Hs|done].
  - exists w', dd, doc. split; [by apply Hs|done].
Qed.

Lemma repo_did_wp repo tr :
  wp (Tasks.repo_did repo) (λ tr' r, match r with
    | Ok did => names (worlds tr') repo did
    | Err r => (∀ obj, r ≠ RespOk obj) ∧ r ≠ deleted_reply
    end) tr.
Proof.
  unfold Tasks.repo_did. destruct (Slingshot.did_new repo) as [did|] eqn:Ed; [by left|].
  destruct (handle_new repo) as [h|] eqn:Eh; [|done]. eapply wp_bind; [apply handle_wp|].
  intros tr1 [[did|]|e] _ Hv; [|done|done]. right. exists h. split; [done|]. by apply Hv.
Qed.

Lemma get_record_wp repo collection rkey cid tr :
  wp (Tasks.get_record_impl cid_from_str is_json repo collection rkey cid)
    (λ tr' r, reply_fresh tr' (Some (repo, collection, rkey)) r) tr.
Proof.
  assert (Hno : ∀ tr' r, (∀ obj, r ≠ RespOk obj) → r ≠ deleted_reply → reply_fresh tr' (Some (repo, collection, rkey)) r)
    by (intros tr' r H1' H2'; split; naive_solver).
  eapply wp_bind; [apply repo_did_wp|]. intros tr1 [did|r] _ Hn; [|by destruct Hn; apply Hno].
  unfold Slingshot.nsid_new. destruct (nsid_valid collection); [|by apply Hno].
  unfold Slingshot.rkey_new. destruct (rkey_valid rkey); [|by apply Hno].
  assert (Hserve : ∀ cid', wp (Tasks.serve_record cid_from_str is_json did (mkNsid collection) (mkRecordKey rkey) cid')
    (λ tr' r, reply_fresh tr' (Some (repo, collection, rkey)) r) tr1).
  { intros cid'. eapply wp_conseq; [apply serve_record_wp|]. intros tr2 r Hsuf [Hf Hd]. apply worlds_mono in Hsuf. split.
    - intros obj Ho. destruct (Hf obj Ho) as (Eu & c & Hcid & Hfr). exists repo, collection, rkey, did, c. rewrite Eu.
      split_and!; try done. by eapply names_mono.
    - intros Ho. exists repo, collection, rkey, did. split_and!; [done|by eapply names_mono|by apply Hd]. }
  destruct cid as [cid|]; [|apply Hserve]. destruct (cid_from_str cid); [apply Hserve|by apply Hno].
Qed.

Lemma get_uri_record_parts at_uri cid :
  Tasks.get_uri_record (C := C) (R := R) cid_from_str is_json at_uri cid =
  match uri_parts at_uri with
  | Some (repo, collection, rkey) => Tasks.get_record_impl cid_from_str is_json repo collection rkey cid
  | None => Done Slingshot.bad_at_uri
  end.
Proof.
  unfold Tasks.get_uri_record, uri_parts. destruct (AtUri.parse_at_uri at_uri) as [n|]; cbn [mbind option_bind]; [|done].
  destruct (strip_prefix "at://" n) as [rest|]; cbn [mbind option_bind]; [|done].
  destruct (split_once "/" rest) as [[repo rest']|]; cbn [mbind option_bind]; [|done].
  by destruct (split_once "/" rest') as [[collection rest'']|].
Qed.

(** The identity handlers keep the identities in order. *)
Lemma resolve_handle_wp h tr : wp (Tasks.resolve_handle h) (λ _ _, True) tr.
Proof.
  unfold Tasks.resolve_handle. destruct (handle_new h) as [handle|]; [|done].
  eapply wp_bind; [apply handle_wp|]. intros tr1 [[d|]|e] _ _; [|done|done].
  eapply wp_bind; [apply doc_wp|]. intros tr2 [[doc|]|e] _ _; [|done|done]. by destruct (negb _).
Qed.

Lemma resolve_mini_wp i tr : wp (Tasks.resolve_mini_id i) (λ _ _, True) tr.
Proof.
  apply (wp_bind _ _ (λ _ _, True)).
  { unfold Tasks.mini_identifier. destruct (Slingshot.did_new i); [done|]. destruct (handle_new i) as [h|]; [|done].
    eapply wp_bind; [apply handle_wp|]. by intros tr1 [[d|]|e] _ _. }
  intros tr1 [[d mh]|r] _ _; [|done]. eapply wp_bind; [apply doc_wp|]. intros tr2 [[doc|]|e] _ _; [|done|done].
  destruct mh; [done|]. eapply wp_bind; [apply handle_wp|]. by intros tr3 [[d'|]|e] _ _.
Qed.

(** What a reply to a request may say. *)
Definition true_reply (path : string) (params : gmap string string) (tr : list Step) (reply : Reply) : Prop :=
  ∀ r, reply = RecordReply r → reply_fresh tr (target_of path params) r.

Lemma route_wp domain path params tr :
  wp (route_task domain path params) (true_reply path params) tr.
Proof.
  assert (Hbad : ∀ tr t err, reply_fresh tr t (bad_request_handler err)) by (intros tr' t err; by split).
  unfold route_task, required_task, map_task, true_reply, target_of.
  destruct (decide (path = "/xrpc/com.atproto.repo.getRecord")) as [->|_].
  { destruct (params !! "repo") as [repo|]; [|by intros r [= <-]].
    destruct (params !! "collection") as [collection|]; [|by intros r [= <-]].
    destruct (params !! "rkey") as [rkey|]; [|by intros r [= <-]]. cbn [mbind option_bind].
    eapply wp_bind; [apply get_record_wp|]. by intros tr1 r _ Hr r' [= <-]. }
  destruct (decide (path = "/xrpc/com.bad-example.repo.getUriRecord")) as [->|_].
  { destruct (params !! "at_uri") as [at_uri|]; [|by intros r [= <-]]. cbn [mbind option_bind].
    rewrite get_uri_record_parts. destruct (uri_parts at_uri) as [[[repo collection] rkey]|]; [|by intros r [= <-]].
    eapply wp_bind; [apply get_record_wp|]. by intros tr1 r _ Hr r' [= <-]. }
  repeat case_decide; try done.
  - destruct (params !! "handle"); [|done]. eapply wp_bind; [apply resolve_handle_wp|done].
  - destruct (params !! "identifier"); [|done]. eapply wp_bind; [apply resolve_mini_wp|done].
  - by destruct domain.
Qed.

(** ** Every run *)

(** What a state holds was stored at some time. *)
Definition remembered (tr : list Step) (x : Xrpc) : Prop :=
  (∀ u v, cache_get (Slingshot.x_cache x) u = Some v → given tr u v) ∧
  sourced (worlds tr) (cache (Slingshot.x_identity x)).

Lemma remembered_mono tr tr' x : tr `suffix_of` tr' → remembered tr x → remembered tr' x.
Proof.
  intros Hs [Hc Hi]. split; [intros u v Hv; by eapply given_mono, Hc|].
  intros k v Hv. by eapply origin_mono, Hi; [apply worlds_mono|].
Qed.

Lemma inv_remembered tr x : inv tr x → remembered tr x.
Proof. intros [Hc [Hs _]]. split; [|done]. intros u v Hv. by apply fresh_given, Hc. Qed.

Definition truthful (tr : list Step) : Prop :=
  ∀ later path params reply earlier, tr = later ++ Replied path params reply :: earlier → true_reply path params earlier reply.

Lemma truthful_cons s tr :
  truthful tr → match s with Replied path params reply => true_reply path params tr reply | _ => True end → truthful (s :: tr).
Proof. intros Ht Hs [|s' later] path params reply earlier [= -> E]; [by subst|]. by eapply Ht. Qed.

Record kept (s : Running) (tr : list Step) : Prop := {
  k_state : inv tr (rn_x s);
  k_pool : Forall (λ '(path, params, t), pending t (true_reply path params) tr) (rn_pool s);
  k_refresher : ∀ t, rn_refresher s = Some t → pending t (λ _ _, True) tr;
  k_past : Forall (remembered tr) (rn_past s);
  k_replies : truthful tr
}.

Lemma pool_mono tr tr' pool :
  tr `suffix_of` tr' →
  Forall (λ '(path, params, t), pending t (true_reply path params) tr) pool →
  Forall (λ '(path, params, t), pending t (true_reply path params) tr') pool.
Proof. intros Hs Hp. eapply Forall_impl; [exact Hp|]. intros [[path params] t]. by apply pending_mono. Qed.

Lemma past_mono tr tr' past : tr `suffix_of` tr' → Forall (remembered tr) past → Forall (remembered tr') past.
Proof. intros Hs Hp. eapply Forall_impl; [exact Hp|]. intros x. by apply remembered_mono. Qed.

(** One more step, with the state and the tasks it leads to. *)
Lemma kept_step s tr step x pool refresher :
  kept s tr → inv (step :: tr) x →
  match step with Replied path params reply => true_reply path params tr reply | _ => True end →
  Forall (λ '(path, params, t), pending t (true_reply path params) (step :: tr)) pool →
  (∀ t, refresher = Some t → pending t (λ _ _, True) (step :: tr)) →
  kept (mkRunning x pool refresher (rn_x s :: rn_past s)) (step :: tr).
Proof.
  intros [Hx Hp Hr Hpast Hrep] Hi Hstep Hpool Href. assert (Hs : tr `suffix_of` step :: tr) by (by apply suffix_cons_r).
  constructor; cbn [rn_x rn_pool rn_refresher rn_past]; [done|done|done| |by apply truthful_cons].
  constructor; [by apply (remembered_mono tr), inv_remembered|by eapply past_mono].
Qed.

(** A request that was waiting, or came in, is settled. *)
Lemma kept_settle tr x l1 l2 refresher past path params t :
  kept (mkRunning x (l1 ++ l2) refresher past) tr → wp t (true_reply path params) tr →
  kept (mkRunning x (l1 ++ (settle_request path params t).1 ++ l2) refresher past) ((settle_request path params t).2 ++ tr).
Proof.
  intros [Hx Hp Hr Hpast Hrep] Ht. destruct t as [reply|stores act next]; cbn [settle_request fst snd app] in *.
  - assert (Hs : tr `suffix_of` Replied path params reply :: tr) by (by apply suffix_cons_r).
    constructor; cbn [rn_x rn_pool rn_refresher rn_past] in *; [by apply inv_replied|by eapply pool_mono| |by eapply past_mono|by apply truthful_cons].
    intros t Et. by eapply pending_mono, Hr.
  - constructor; cbn [rn_x rn_pool rn_refresher rn_past] in *; try done. rewrite Forall_app in Hp |- *. destruct Hp as [Hp1 Hp2].
    split; [done|]. by constructor.
Qed.

Lemma refresher_waits tr : pending Tasks.refresh_turn (λ _ _, True) tr.
Proof. exact (refresh_turn_wp tr). Qed.

Lemma next_turn_pending t tr t' : wp t (λ _ _, True) tr → next_turn t = Some t' → pending t' (λ _ _, True) tr.
Proof.
  destruct t as [[|]|stores act next]; cbn [next_turn]; intros Ht [= <-]; [apply refresher_waits|done].
Qed.

Lemma good_start seen (ci : C) : sourced seen ci → good seen (mkSt ci (mkRefresh [] ∅)).
Proof. intros Hs. split; [done|]. split; simpl; [constructor|set_solver]. Qed.

Lemma kept_forgot s tr c ci :
  kept s tr →
  (∀ u v, cache_get c u = Some v → cache_get (Slingshot.x_cache (rn_x s)) u = Some v) →
  (∀ k v, cache_get ci k = Some v → cache_get (cache (Slingshot.x_identity (rn_x s))) k = Some v) →
  kept (mkRunning (Slingshot.mkXrpc c (with_cache ci (Slingshot.x_identity (rn_x s))))
    (rn_pool s) (rn_refresher s) (rn_x s :: rn_past s)) tr.
Proof.
  intros [Hx Hp Hr Hpast Hrep] Hc Hci. constructor; cbn [rn_x rn_pool rn_refresher rn_past]; [|done|done| |done].
  - destruct Hx as [Hf [Hs Hq]]. split; [intros u v Hu; by apply Hf, Hc|]. split; [|done]. intros k v Hk. by apply Hs, Hci.
  - constructor; [by apply inv_remembered|done].
Qed.

Lemma inv_restarted s tr c ci :
  kept s tr →
  (∀ u v, cache_get c u = Some v → ∃ x, x ∈ rn_x s :: rn_past s ∧ cache_get (Slingshot.x_cache x) u = Some v) →
  (∀ k v, cache_get ci k = Some v → ∃ x, x ∈ rn_x s :: rn_past s ∧ cache_get (cache (Slingshot.x_identity x)) k = Some v) →
  inv (Restarted :: tr) (Slingshot.mkXrpc c (mkSt ci (mkRefresh [] ∅))).
Proof.
  intros [Hx _ _ Hpast _] Hc Hci.
  assert (Hall : ∀ x, x ∈ rn_x s :: rn_past s → remembered tr x).
  { intros x [->|Hin]%elem_of_cons; [by apply inv_remembered|]. by eapply Forall_forall in Hpast. }
  split.
  - intros u v Hu. destruct (Hc u v Hu) as (x & Hin & Hv). apply given_fresh. by apply (Hall x Hin).
  - apply good_start. intros k v Hk. destruct (Hci k v Hk) as (x & Hin & Hv). by apply (Hall x Hin).
Qed.

Lemma kept_refresher_mono s tr step :
  kept s tr → ∀ t, rn_refresher s = Some t → pending t (λ _ _, True) (step :: tr).
Proof. intros Hk t Et. eapply pending_mono; [by apply suffix_cons_r|]. by eapply k_refresher. Qed.

Lemma kept_pool_mono s tr step :
  kept s tr → Forall (λ '(path, params, t), pending t (true_reply path params) (step :: tr)) (rn_pool s).
Proof. intros Hk. eapply pool_mono; [by apply suffix_cons_r|]. apply (k_pool _ _ Hk). Qed.

Lemma runs_kept domain s tr : runs domain s tr → kept s tr.
Proof.
  induction 1 as [c ci Hc Hci|s tr e _ IH|s tr path params _ IH|s tr w http l1 path params stores act next l2 _ IH Ep|s tr l1 rq l2 _ IH Ep
    |s tr w http stores act next _ IH Er|s tr c ci _ IH Hc Hci|s tr c ci _ IH Hc Hci].
  - constructor; cbn [rn_x rn_pool rn_refresher rn_past]; [|constructor| |constructor|by intros []].
    + split; [intros u v Hu; cbn in Hu; by rewrite Hc in Hu|]. apply good_start. intros k v Hk. by rewrite Hci in Hk.
    + intros t [= <-]. apply refresher_waits.
  - apply kept_step; [done| |done|by apply kept_pool_mono|by apply kept_refresher_mono].
    destruct (k_state _ _ IH) as [Hc Hs]. split; [by apply told_fresh|done].
  - rewrite <- (app_nil_r (settle_request _ _ _).1). apply kept_settle; [|apply route_wp]. rewrite app_nil_r. by destruct s.
  - pose proof (k_pool _ _ IH) as Hpool. rewrite Ep, Forall_app, Forall_cons in Hpool. destruct Hpool as (_ & Ht & _).
    destruct Ht as [Hst Ht]. destruct (Ht tr w http (rn_x s) (reflexivity _) (k_state _ _ IH)) as [Hg Hn].
    apply kept_settle; [|done]. apply kept_step; [done|by apply inv_turn; [apply (k_state _ _ IH)|..]|done| |by apply kept_refresher_mono].
    pose proof (kept_pool_mono s tr (Ran w http stores) IH) as Hp. rewrite Ep, Forall_app, Forall_cons in Hp. apply Forall_app. by destruct Hp as (? & _ & ?).
  - destruct IH as [Hx Hp Hr Hpast Hrep]. constructor; cbn [rn_x rn_pool rn_refresher rn_past]; try done.
    rewrite Ep, Forall_app, Forall_cons in Hp. apply Forall_app. by destruct Hp as (? & _ & ?).
  - destruct (k_refresher _ _ IH _ Er) as [Hst Ht]. destruct (Ht tr w http (rn_x s) (reflexivity _) (k_state _ _ IH)) as [Hg Hn].
    apply kept_step; [done|by apply inv_turn; [apply (k_state _ _ IH)|..]|done|by apply kept_pool_mono|].
    intros t Et. by eapply next_turn_pending.
  - by apply kept_forgot.
  - apply kept_step; [done|by apply (inv_restarted s)|done|constructor|]. intros t [= <-]. apply refresher_waits.
Qed.

(** C21. Served records are fresh: in every run, in which events of the stream,
    the segments of any number of requests and of the refresher, and restarts
    interleave at every await, a record that was served is one that the stream
    told, or that the server of its repository, which a document of its DID had
    named, answered in a segment before it was stored in the cache; and since it
    was stored, or since the last restart of the service, the stream had said
    nothing about it.  Its uri is the one asked for, the repository given by its
    DID or by a handle verified for that DID, and its CID is the one given with
    it.  A record is said to be deleted only when the stream said so, with
    nothing about it since then or since the last restart. *)
Theorem served_records_fresh domain s tr later path params r earlier :
  runs domain s tr → tr = later ++ Replied path params (RecordReply r) :: earlier →
  (∀ obj, r = RespOk obj →
     ∃ repo collection rkey did c, target_of path params = Some (repo, collection, rkey) ∧ names (worlds earlier) repo did ∧
       fr_uri obj = Slingshot.record_uri did (mkNsid collection) (mkRecordKey rkey) ∧ fr_cid obj = Some (cid_str c) ∧
       fresh earlier (fr_uri obj) (Found (mkRawRecord c (fr_value obj)))) ∧
  (r = deleted_reply →
     ∃ repo collection rkey did e l1 l2, target_of path params = Some (repo, collection, rkey) ∧ names (worlds earlier) repo did ∧
       earlier = l1 ++ Told e :: l2 ∧ told e = Some (Slingshot.record_uri did (mkNsid collection) (mkRecordKey rkey), Deleted) ∧
       unheard (Slingshot.record_uri did (mkNsid collection) (mkRecordKey rkey)) l1).
Proof.
  intros Hr%runs_kept Etr. destruct (k_replies _ _ Hr _ _ _ _ _ Etr r eq_refl) as [Hf Hd]. split; [done|].
  intros E. destruct (Hd E) as (repo & collection & rkey & did & Ht & Hn & l1 & step & l2 & El & Hg & Hu).
  destruct step as [e|w http stored|p q rp|]; [|destruct Hg as [_ Ha]; by destruct Ha as (? & ? & ? & ? & ? & ? & ? & ? & ? & ? & [=])|done|done].
  by exists repo, collection, rkey, did, e, l1, l2.
Qed.

End Fresh.
End Service.

(** ** A concrete service *)

#[local] Existing Instance Identity.map_cache.
#[local] Existing Instance Identity.map_cache_laws.
#[local] Existing Instance Identity.dotted_handles.
#[local] Existing Instance AtUri.plain_uri.
#[local] Existing Instance Slingshot.record_cache.
#[local] Existing Instance Slingshot.record_cache_laws.
#[local] Existing Instance Slingshot.plain_ids.

Definition get_record_path : string := "/xrpc/com.atproto.repo.getRecord".
Definition ask_for (cid : option string) : gmap string string :=
  let params := <["repo" := "alice.test"]> (<["collection" := "app.post"]> {["rkey" := "r"]}) in
  match cid with Some c => <["cid" := c]> params | None => params end.
Definition request (http : string → list (string * string) → HttpOutcome) (now : Z) (cid : option string)
    (x : Slingshot.Xrpc (C := gmap IdentityKey IdentityVal) (R := gmap string CachedRecord)) :=
  route Slingshot.plain_cid Slingshot.braces id None (sample_world now) http get_record_path (ask_for cid) x.

(** *** Runs that are computed *)

Abbreviation Sample := (Running (C := gmap IdentityKey IdentityVal) (R := gmap string CachedRecord)).

Definition hear (e : JetstreamEvent) (p : Sample * list Step) : Sample * list Step :=
  let '(s, tr) := p in
  (mkRunning (Slingshot.mkXrpc (Slingshot.consume_event e (Slingshot.x_cache (rn_x s))) (Slingshot.x_identity (rn_x s)))
     (rn_pool s) (rn_refresher s) (rn_x s :: rn_past s), Told e :: tr).
Definition ask (params : gmap string string) (p : Sample * list Step) : Sample * list Step :=
  let '(s, tr) := p in
  let settled := settle_request get_record_path params (route_task Slingshot.plain_cid Slingshot.braces id None get_record_path params) in
  (mkRunning (rn_x s) (rn_pool s ++ settled.1) (rn_refresher s) (rn_past s), settled.2 ++ tr).
(** The oldest request in flight runs a segment. *)
Definition poll (w : World) (http : string → list (string * string) → HttpOutcome) (p : Sample * list Step) : Sample * list Step :=
  let '(s, tr) := p in
  match rn_pool s with
  | (path, params, Seg stores act next) :: l2 =>
      let settled := settle_request path params (next w http (rn_x s)) in
      (mkRunning (turn stores act w (rn_x s)) (settled.1 ++ l2) (rn_refresher s) (rn_x s :: rn_past s), settled.2 ++ Ran w http stores :: tr)
  | _ => p
  end.
(** The process ends, and starts with the caches it had. *)
Definition restart (p : Sample * list Step) : Sample * list Step :=
  let '(s, tr) := p in
  (mkRunning (Slingshot.mkXrpc (Slingshot.x_cache (rn_x s)) (mkSt (cache (Slingshot.x_identity (rn_x s))) (mkRefresh [] ∅)))
     [] (Some Tasks.refresh_turn) (rn_x s :: rn_past s), Restarted :: tr).
Definition started : Sample * list Step := (mkRunning Slingshot.empty_xrpc [] (Some Tasks.refresh_turn) [], []).

Definition sample_runs (p : Sample * list Step) : Prop := runs Slingshot.plain_cid Slingshot.braces id None p.1 p.2.

Lemma started_runs : sample_runs started.
Proof. apply run_start; intros k; apply lookup_empty. Qed.
Lemma hear_runs e p : sample_runs p → sample_runs (hear e p).
Proof. destruct p as [s tr]. intros Hr. by apply (run_told _ _ _ None s tr). Qed.
Lemma ask_runs params p : sample_runs p → sample_runs (ask params p).
Proof. destruct p as [s tr]. intros Hr. by apply (run_asked _ _ _ None s tr). Qed.
Lemma poll_runs w http p : sample_runs p → sample_runs (poll w http p).
Proof.
  destruct p as [s tr]. intros Hr. unfold poll. destruct (rn_pool s) as [|[[path params] [r|stores act next]] l2] eqn:Ep; [done|done|].
  exact (run_segment _ _ _ None s tr w http [] path params stores act next l2 Hr Ep).
Qed.
Lemma restart_runs p : sample_runs p → sample_runs (restart p).
Proof. destruct p as [s tr]. intros Hr. apply (run_restarted _ _ _ None s tr); [done|..]; intros k v Hv; exists (rn_x s); (split; [by left|done]). Qed.

Definition polls (n : nat) (now : Z) (http : string → list (string * string) → HttpOutcome) (p : Sample * list Step) : Sample * list Step := Nat.iter n (poll (sample_world now) http) p.
Lemma polls_runs n now (http : string → list (string * string) → HttpOutcome) p : sample_runs p → sample_runs (polls n now http p).
Proof. intros Hr. induction n as [|n IH]; [done|]. by apply poll_runs. Qed.

Definition replies (tr : list Step) : list Reply := omap (λ s, match s with Replied _ _ r => Some r | _ => None end) tr.
Definition found_reply (cid value : string) : Reply :=
  RecordReply (RespOk (mkFoundRecord "at://did:plc:alice/app.post/r" (Some cid) value)).

(** The record is created on the stream, and asked for; while a second request
    resolves the handle, the record is deleted. *)
Definition run1 := polls 9 1 Slingshot.sample_http (ask (ask_for None) (hear (Slingshot.sample_event OpCreate) started)).
Definition run2 := polls 3 2 Slingshot.sample_http (hear (Slingshot.sample_event OpDelete) (polls 2 2 Slingshot.sample_http (ask (ask_for None) run1))).

Lemma run2_runs : sample_runs run2.
Proof. apply polls_runs, hear_runs, polls_runs, ask_runs, polls_runs, ask_runs, hear_runs, started_runs. Qed.

Lemma served_records_fresh_witness :
  replies run2.2 = [RecordReply deleted_reply; found_reply "bafy1" "{1}"] ∧
  ∃ repo collection rkey did e l1 l2, target_of get_record_path (ask_for None) = Some (repo, collection, rkey) ∧
    names (worlds (tl run2.2)) repo did ∧ tl run2.2 = l1 ++ Told e :: l2 ∧
    told e = Some (Slingshot.record_uri did (mkNsid collection) (mkRecordKey rkey), Deleted) ∧
    unheard (Slingshot.record_uri did (mkNsid collection) (mkRecordKey rkey)) l1.
Proof.
  split; [vm_compute; reflexivity|].
  apply (served_records_fresh Slingshot.plain_cid Slingshot.braces id None run2.1 run2.2 [] get_record_path (ask_for None) deleted_reply (tl run2.2)
    run2_runs); [vm_compute; reflexivity|reflexivity].
Defined.

(** An event that comes while a request waits for the server of the repository
    is lost: the answer, which is older, is stored over it.  A request that is
    made after the event, and any number of them, gets the deleted record. *)
Definition overtaken := polls 1 1 Slingshot.sample_http (hear (Slingshot.sample_event OpDelete)
  (polls 12 1 Slingshot.sample_http (ask (ask_for None) started))).
Theorem event_overwritten :
  let after := polls 5 2 Slingshot.sample_http (ask (ask_for None) overtaken) in
  sample_runs after ∧
  replies overtaken.2 = [found_reply "bafy2" "{2}"] ∧
  replies after.2 = [found_reply "bafy2" "{2}"; found_reply "bafy2" "{2}"] ∧
  told (Slingshot.sample_event OpDelete) = Some ("at://did:plc:alice/app.post/r", Deleted).
Proof.
  split; [apply polls_runs, ask_runs, polls_runs, hear_runs, polls_runs, ask_runs, started_runs|]. vm_compute. done.
Qed.

(** The caches outlive the process: what was stored before a restart is served
    after it, although the stream is read from its live end again. *)
Theorem restart_serves_cached :
  let after := polls 5 2 Slingshot.sample_http (ask (ask_for None) (restart run1)) in
  sample_runs after ∧ replies after.2 = [found_reply "bafy1" "{1}"; found_reply "bafy1" "{1}"].
Proof.
  split; [apply polls_runs, ask_runs, restart_runs, polls_runs, ask_runs, hear_runs, started_runs|]. vm_compute. done.
Qed.

(** A server that still has the version before the last. *)
Definition keeping_http (p : string) (q : list (string * string)) : HttpOutcome :=
  if decide (("cid", "bafy1") ∈ q) then SuccessStatus (Some (mkRecordResponse (Some "bafy1") "{1}"))
  else SuccessStatus (Some (mkRecordResponse (Some "bafy2") "{2}")).

(** A version that was asked for by its CID is cached as the record: a later
    request without a CID, which is for the most recent version, gets the old
    one, and a request for the most recent CID is refused. *)
Theorem old_version_cached :
  let x := (request keeping_http 1 (Some "bafy1") Slingshot.empty_xrpc).2 in
  (request keeping_http 1 None Slingshot.empty_xrpc).1 =
    RecordReply (RespOk (mkFoundRecord "at://did:plc:alice/app.post/r" (Some "bafy2") "{2}")) ∧
  (request keeping_http 2 None x).1 = RecordReply (RespOk (mkFoundRecord "at://did:plc:alice/app.post/r" (Some "bafy1") "{1}")) ∧
  (request keeping_http 2 (Some "bafy2") x).1 =
    RecordReply (RespBadRequest (xrpc_error "RecordNotFound" "A record was found but its CID did not match that requested")).
Proof. vm_compute. done. Qed.
End SlingshotRuns.
