(* ===== verification/WhoAmITasks.v ===== *)
(** * who-am-i: tasks to be picked up (who-am-i/src/expiring_task_map.rs)

    A task is put into a map under a random key, with the guard of a
    cancellation token; a second task sleeps on the token and removes the entry
    when nobody has.  Both work on one shared map, so that the sleeping tasks
    are part of the state and are polled in any order.  Tokens are numbers.
    Shown here: the machinery implements a plain map whose entries have a
    deadline. *)

From S2P Require Import Prelude.

Module TaskMap.
Section TaskMap.
Context {T : Type} (expiration : N).

(** [(DropGuard, JoinHandle<T>)]; the handle is the task. *)
Record Entry : Type := mkEntry { e_token : nat; e_task : T }.

(** A sleeping task: its token, the key it would remove and when it wakes. *)
Record Cleanup : Type := mkCleanup { cl_token : nat; cl_key : string; cl_deadline : N }.

Record St : Type := mkSt {
  tmap : gmap string Entry;
  cleanups : list Cleanup;
  cancelled : gset nat;
  shutdown : bool;
  next_token : nat
}.

Definition init : St := mkSt ∅ [] ∅ false 0.

(** Tokens are children of the token of the whole service. *)
Definition is_cancelled (t : nat) (s : St) : bool := shutdown s || bool_decide (t ∈ cancelled s).

(** What dropping the guard of an entry cancels. *)
Definition dropped (o : option Entry) : gset nat := match o with Some e => {[e_token e]} | None => ∅ end.

(** [key]: the random characters, [now]: the clock. *)
Definition dispatch (now : N) (key : string) (task : T) (s : St) : string * St :=
  let t := next_token s in
  (key, mkSt (<[key := mkEntry t task]> (tmap s)) (cleanups s ++ [mkCleanup t key (now + expiration)])
    (dropped (tmap s !! key) ∪ cancelled s) (shutdown s) (S t)).

Definition take (key : string) (s : St) : option T * St :=
  match tmap s !! key with
  | Some e => (Some (e_task e), mkSt (delete key (tmap s)) (cleanups s) ({[e_token e]} ∪ cancelled s) (shutdown s) (next_token s))
  | None => (None, s)
  end.

(** A sleeping task is polled: cancellation comes first. *)
Definition poll (now : N) (i : nat) (s : St) : St :=
  match cleanups s !! i with
  | None => s
  | Some c =>
      let rest := delete i (cleanups s) in
      if is_cancelled (cl_token c) s then mkSt (tmap s) rest (cancelled s) (shutdown s) (next_token s)
      else if (cl_deadline c <=? now)%N then
        mkSt (delete (cl_key c) (tmap s)) rest ({[cl_token c]} ∪ dropped (tmap s !! cl_key c) ∪ cancelled s) (shutdown s) (next_token s)
      else s
  end.

Definition shut_down (s : St) : St := mkSt (tmap s) (cleanups s) (cancelled s) true (next_token s).

(** ** A map with deadlines *)

Abbreviation Spec := (gmap string (T * N)).

(** Entry, token and sleeping task belong together. *)
Record refines (s : St) (a : Spec) : Prop := {
  rf_entry k : e_task <$> (tmap s !! k) = fst <$> (a !! k);
  rf_live k e : tmap s !! k = Some e → (e_token e ∉ cancelled s) ∧ e_token e < next_token s ∧
    (shutdown s = false → ∃ dl, mkCleanup (e_token e) k dl ∈ cleanups s);
  rf_unique k k' e e' : tmap s !! k = Some e → tmap s !! k' = Some e' → e_token e = e_token e' → k = k';
  rf_cleanup c : c ∈ cleanups s → cl_token c < next_token s ∧
    ((cl_token c ∉ cancelled s) → ∃ t, tmap s !! cl_key c = Some (mkEntry (cl_token c) t) ∧ a !! cl_key c = Some (t, cl_deadline c));
  rf_cancelled t : t ∈ cancelled s → t < next_token s;
  rf_tokens : NoDup (map cl_token (cleanups s))
}.

Lemma refines_init : refines init ∅.
Proof.
  constructor; simpl; intros; try (by rewrite ?lookup_empty in *); try set_solver. constructor.
Qed.

Lemma cleanup_of s a k e dl : refines s a → tmap s !! k = Some e → mkCleanup (e_token e) k dl ∈ cleanups s → a !! k = Some (e_task e, dl).
Proof.
  intros R He Hc. destruct (rf_cleanup s a R _ Hc) as [_ Hl]. destruct (rf_live s a R k e He) as (Hno & _).
  destruct (Hl Hno) as (t & Ht & Ha). cbn [cl_key cl_token cl_deadline] in *. rewrite He in Ht. injection Ht as ->. done.
Qed.

Lemma dispatch_refines now key task s a :
  refines s a → refines (dispatch now key task s).2 (<[key := (task, (now + expiration)%N)]> a).
Proof.
  intros R. unfold dispatch. cbn [snd]. constructor; cbn [tmap cleanups cancelled shutdown next_token].
  - intros k. destruct (decide (key = k)) as [->|Hne]; [by rewrite !lookup_insert_eq|]. rewrite !lookup_insert_ne by done. apply (rf_entry s a R).
  - intros k e He. destruct (decide (key = k)) as [->|Hne].
    + rewrite lookup_insert_eq in He. injection He as <-. cbn [e_token]. split_and!; [|lia|].
      * intros [Hd|Hc]%elem_of_union; [|apply (rf_cancelled s a R) in Hc; lia]. unfold dropped in Hd. destruct (tmap s !! k) as [e|] eqn:E; [|set_solver].
        apply elem_of_singleton in Hd. destruct (rf_live s a R k e E) as (_ & Hlt & _). lia.
      * intros _. exists (now + expiration)%N. apply elem_of_app. right. by left.
    + rewrite lookup_insert_ne in He by done. destruct (rf_live s a R k e He) as (Hno & Hlt & Hcl). split_and!; [|lia|].
      * intros [Hd|Hc]%elem_of_union; [|done]. unfold dropped in Hd. destruct (tmap s !! key) as [e'|] eqn:E; [|set_solver].
        apply elem_of_singleton in Hd. apply Hne. symmetry. by apply (rf_unique s a R k key e e').
      * intros Hs. destruct (Hcl Hs) as [dl Hdl]. exists dl. apply elem_of_app. by left.
  - intros k k' e e' He He' Et. destruct (decide (k = key)) as [->|Hk], (decide (k' = key)) as [->|Hk']; [done| | |].
    + rewrite lookup_insert_eq in He. injection He as <-. rewrite lookup_insert_ne in He' by done. destruct (rf_live s a R k' e' He') as (_ & Hlt & _). simpl in Et. lia.
    + rewrite lookup_insert_eq in He'. injection He' as <-. rewrite lookup_insert_ne in He by done. destruct (rf_live s a R k e He) as (_ & Hlt & _). simpl in Et. lia.
    + rewrite lookup_insert_ne in He, He' by done. by apply (rf_unique s a R k k' e e').
  - intros c [Hc| ->%list_elem_of_singleton]%elem_of_app.
    + destruct (rf_cleanup s a R c Hc) as [Hlt Hl]. split; [lia|]. intros [Hd Hno]%not_elem_of_union. destruct (Hl Hno) as (t & Ht & Ha). exists t.
      assert (Hne : key ≠ cl_key c) by (intros E; rewrite E, Ht in Hd; set_solver). by rewrite !lookup_insert_ne.
    + cbn [cl_token cl_key cl_deadline]. split; [lia|]. intros _. exists task. by rewrite !lookup_insert_eq.
  - intros t [Hd|Hc]%elem_of_union; [|apply (rf_cancelled s a R) in Hc; lia]. unfold dropped in Hd. destruct (tmap s !! key) as [e|] eqn:E; [|set_solver].
    apply elem_of_singleton in Hd as ->. destruct (rf_live s a R key e E) as (_ & Hlt & _). lia.
  - rewrite map_app. apply NoDup_app. split_and!; [apply (rf_tokens s a R)| |apply NoDup_singleton].
    intros t (c & -> & Hc)%list_elem_of_fmap. cbn [map cl_token]. rewrite list_elem_of_singleton. destruct (rf_cleanup s a R c Hc) as [Hlt _]. lia.
Qed.

(** Removing an entry whose token gets cancelled. *)
Lemma remove_refines s a k e cs gone :
  refines s a → tmap s !! k = Some e → {[e_token e]} ⊆ gone → gone ⊆ {[e_token e]} ∪ cancelled s →
  sublist cs (cleanups s) → (∀ c, c ∈ cleanups s → cl_token c ≠ e_token e → c ∈ cs) →
  refines (mkSt (delete k (tmap s)) cs (gone ∪ cancelled s) (shutdown s) (next_token s)) (delete k a).
Proof.
  intros R He Hg Hg' Hsub Hkeep. destruct (rf_live s a R k e He) as (Hno & Hlt & _).
  constructor; cbn [tmap cleanups cancelled shutdown next_token].
  - intros x. destruct (decide (k = x)) as [->|Hne]; [by rewrite !lookup_delete_eq|]. rewrite !lookup_delete_ne by done. apply (rf_entry s a R).
  - intros x ex Hx. apply lookup_delete_Some in Hx as [Hne Hx]. destruct (rf_live s a R x ex Hx) as (Hnx & Hltx & Hcl).
    assert (Htok : e_token ex ≠ e_token e) by (intros E; by apply Hne, (rf_unique s a R k x e ex)). split_and!; [set_solver|done|].
    intros Hs. destruct (Hcl Hs) as [dl Hdl]. exists dl. by apply Hkeep.
  - intros x x' ex ex' [_ Hx]%lookup_delete_Some [_ Hx']%lookup_delete_Some. by apply (rf_unique s a R).
  - intros c Hc. assert (Hin : c ∈ cleanups s) by (eapply elem_of_submseteq; [exact Hc|by apply sublist_submseteq]). destruct (rf_cleanup s a R c Hin) as [Hc' Hl]. split; [done|].
    intros Hnc. destruct Hl as (t & Ht & Ha); [set_solver|]. exists t. assert (Hne : k ≠ cl_key c) by (intros E; rewrite <- E, He in Ht; injection Ht as ->; set_solver). by rewrite !lookup_delete_ne.
  - intros t Ht. assert (t = e_token e ∨ t ∈ cancelled s) as [->|Hc] by set_solver; [done|by apply (rf_cancelled s a R)].
  - eapply sublist_NoDup; [apply (rf_tokens s a R)|by apply (fmap_sublist cl_token)].
Qed.

Lemma take_refines key s a : refines s a → (take key s).1 = fst <$> (a !! key) ∧ refines (take key s).2 (delete key a).
Proof.
  intros R. pose proof (rf_entry s a R key) as He. unfold take. destruct (tmap s !! key) as [e|] eqn:E; cbn [fst snd].
  - split; [by rewrite <- He|]. apply (remove_refines s a key e); [done|done|done|set_solver|done|done].
  - split; [by rewrite <- He|]. destruct (a !! key) as [[t dl]|] eqn:Ea; [done|]. by rewrite delete_id.
Qed.

Lemma lookup_delete_split {A} (l : list A) i x : l !! i = Some x → ∃ l1 l2, l = l1 ++ x :: l2 ∧ delete i l = l1 ++ l2.
Proof.
  intros Hi. exists (firstn i l), (drop (S i) l). split; [by rewrite take_drop_middle|by rewrite delete_take_drop].
Qed.

(** A poll does nothing to the map, or removes an entry whose time is over. *)
Lemma drop_cleanup_refines s a i c :
  refines s a → cleanups s !! i = Some c → is_cancelled (cl_token c) s = true →
  refines (mkSt (tmap s) (delete i (cleanups s)) (cancelled s) (shutdown s) (next_token s)) a.
Proof.
  intros R Hi Hc. destruct (lookup_delete_split _ _ _ Hi) as (l1 & l2 & El & Ed).
  constructor; cbn [tmap cleanups cancelled shutdown next_token].
  - apply (rf_entry s a R).
  - intros k e He. destruct (rf_live s a R k e He) as (Hno & Hlt & Hcl). split_and!; [done|done|]. intros Hs. destruct (Hcl Hs) as [dl Hdl]. exists dl.
    unfold is_cancelled in Hc. rewrite Hs in Hc. cbn [orb] in Hc. apply bool_decide_eq_true in Hc. rewrite Ed. rewrite El in Hdl.
    rewrite !elem_of_app, elem_of_cons in *. destruct Hdl as [?|[E|?]]; [tauto| |tauto]. rewrite <- E in Hc. done.
  - apply (rf_unique s a R).
  - intros c' Hc'. apply (rf_cleanup s a R). rewrite El. rewrite Ed in Hc'. rewrite !elem_of_app, elem_of_cons in *. tauto.
  - apply (rf_cancelled s a R).
  - eapply sublist_NoDup; [apply (rf_tokens s a R)|apply (fmap_sublist cl_token), sublist_delete].
Qed.

Lemma poll_refines now i s a :
  refines s a → refines (poll now i s) a ∨ ∃ k t dl, a !! k = Some (t, dl) ∧ (dl ≤ now)%N ∧ refines (poll now i s) (delete k a).
Proof.
  intros R. unfold poll. destruct (cleanups s !! i) as [c|] eqn:Hi; [|by left].
  destruct (is_cancelled (cl_token c) s) eqn:Hc; [left; by eapply drop_cleanup_refines|].
  destruct (N.leb_spec (cl_deadline c) now) as [Hle|]; [|by left]. right.
  unfold is_cancelled in Hc. apply orb_false_iff in Hc as [Hsh Hc]. apply bool_decide_eq_false in Hc.
  destruct (rf_cleanup s a R c (list_elem_of_lookup_2 _ _ _ Hi)) as [Hlt Hl]. destruct (Hl Hc) as (t & Ht & Ha).
  exists (cl_key c), t, (cl_deadline c). split_and!; [done|done|].
  rewrite Ht. cbn [dropped]. apply (remove_refines s a (cl_key c) (mkEntry (cl_token c) t)); cbn [e_token]; [done|done|set_solver|set_solver|apply sublist_delete|].
  destruct (lookup_delete_split _ _ _ Hi) as (l1 & l2 & El & Ed). intros c' Hc' Hne. rewrite Ed. rewrite El in Hc'.
  rewrite !elem_of_app, elem_of_cons in *. destruct Hc' as [?|[->|?]]; tauto.
Qed.

Lemma shut_down_refines s a : refines s a → refines (shut_down s) a.
Proof.
  intros R. constructor; cbn [shut_down tmap cleanups cancelled shutdown next_token]; try apply R.
  intros k e He. destruct (rf_live s a R k e He) as (? & ? & _). done.
Qed.

(** ** Runs *)

(** What can be seen of a step: a dispatch, and what a take returned. *)
Inductive Event : Type :=
  | Dispatched (key : string) (task : T) (at_ : N)
  | Taken (key : string) (result : option T).
Definition event_key (e : Event) : string := match e with Dispatched k _ _ | Taken k _ => k end.

(** The clock goes on, requests come in, sleeping tasks are polled and the
    service is shut down, in any order; newest event first. *)
Inductive run : N → St → list Event → Prop :=
  | run_init now : run now init []
  | run_tick now now' s tr : run now s tr → (now ≤ now')%N → run now' s tr
  | run_dispatch now s tr key task : run now s tr → run now (dispatch now key task s).2 (Dispatched key task now :: tr)
  | run_take now s tr key : run now s tr → run now (take key s).2 (Taken key (take key s).1 :: tr)
  | run_poll now s tr i : run now s tr → run now (poll now i s) tr
  | run_shutdown now s tr : run now s tr → run now (shut_down s) tr.

(** The same of the map with deadlines: an entry can go once its time is over. *)
Inductive spec_run : N → Spec → list Event → Prop :=
  | spec_init now : spec_run now ∅ []
  | spec_tick now now' a tr : spec_run now a tr → (now ≤ now')%N → spec_run now' a tr
  | spec_dispatch now a tr key task : spec_run now a tr →
      spec_run now (<[key := (task, (now + expiration)%N)]> a) (Dispatched key task now :: tr)
  | spec_take now a tr key : spec_run now a tr → spec_run now (delete key a) (Taken key (fst <$> (a !! key)) :: tr)
  | spec_expire now a tr k t dl : spec_run now a tr → a !! k = Some (t, dl) → (dl ≤ now)%N → spec_run now (delete k a) tr.

Lemma run_refines now s tr : run now s tr → ∃ a, spec_run now a tr ∧ refines s a.
Proof.
  induction 1 as [now|now now' s tr _ (a & Ha & R) Hle|now s tr key task _ (a & Ha & R)|now s tr key _ (a & Ha & R)|now s tr i _ (a & Ha & R)|now s tr _ (a & Ha & R)].
  - exists ∅. split; [constructor|apply refines_init].
  - exists a. split; [by eapply spec_tick|done].
  - eexists. split; [by apply spec_dispatch|by apply dispatch_refines].
  - destruct (take_refines key s a R) as [Hr R']. exists (delete key a). rewrite Hr. split; [by apply spec_take|done].
  - destruct (poll_refines now i s a R) as [R'|(k & t & dl & Hk & Hdl & R')]; [by exists a|]. exists (delete k a). split; [by eapply spec_expire|done].
  - exists a. split; [done|by apply shut_down_refines].
Qed.

(** The newest event of a key. *)
Definition newest (k : string) (tr : list Event) : option Event := head (filter (λ e, event_key e = k) tr).

Lemma spec_newest now a tr : spec_run now a tr →
  ∀ k t dl, a !! k = Some (t, dl) → ∃ at_, newest k tr = Some (Dispatched k t at_) ∧ dl = (at_ + expiration)%N.
Proof.
  induction 1 as [now|now now' a tr _ IH _|now a tr key task _ IH|now a tr key _ IH|now a tr key t' dl' _ IH _ _]; intros k t dl Hk; unfold newest in *.
  - by rewrite lookup_empty in Hk.
  - by apply IH.
  - rewrite filter_cons. cbn [event_key]. destruct (decide (key = k)) as [->|Hne].
    + rewrite lookup_insert_eq in Hk. injection Hk as <- <-. by eexists.
    + rewrite lookup_insert_ne in Hk by done. by apply IH.
  - apply lookup_delete_Some in Hk as [Hne Hk]. rewrite filter_cons, decide_False by done. by apply IH.
  - apply lookup_delete_Some in Hk as [Hne Hk]. by apply IH.
Qed.

(** ** Everything sleeping is polled *)

Definition poll_all (now : N) (s : St) : St := foldr (poll now) s (seq 0 (length (cleanups s))).

Lemma poll_waits now s i :
  (cleanups (poll now i s) = delete i (cleanups s)) ∨
  (poll now i s = s ∧ ∀ c, cleanups s !! i = Some c → (now < cl_deadline c)%N).
Proof.
  unfold poll. destruct (cleanups s !! i) as [c|] eqn:Hi; [|by right].
  destruct (is_cancelled (cl_token c) s); [by left|]. destruct (N.leb_spec (cl_deadline c) now); [by left|]. right. split; [done|]. by intros ? [= <-].
Qed.

Lemma polls_pending now n : ∀ s i, i + n = length (cleanups s) →
  ∃ rest, cleanups (foldr (poll now) s (seq i n)) = firstn i (cleanups s) ++ rest ∧ Forall (λ c, (now < cl_deadline c)%N) rest.
Proof.
  induction n as [|n IH]; intros s i Hlen; cbn [seq foldr].
  { exists []. split; [|constructor]. by rewrite app_nil_r, take_ge by lia. }
  destruct (IH s (S i)) as (rest & Hr & Hp); [lia|]. set (s' := foldr (poll now) s (seq (S i) n)) in *.
  destruct (lookup_lt_is_Some_2 (cleanups s) i) as [c Hc]; [lia|].
  rewrite (take_S_r _ _ c Hc), <- app_assoc in Hr. cbn [app] in Hr.
  assert (Hlen' : length (firstn i (cleanups s)) = i) by (rewrite length_take; lia).
  destruct (poll_waits now s' i) as [Hd|[Hsame Hdl]].
  - exists rest. split; [|done]. rewrite Hd, Hr, delete_take_drop. rewrite take_app_length' by done. f_equal.
    rewrite drop_app_ge by lia. rewrite Hlen'. replace (S i - i) with 1 by lia. done.
  - exists (c :: rest). rewrite Hsame, Hr. split; [done|]. constructor; [|done]. apply Hdl. rewrite Hr, lookup_app_r by lia. by rewrite Hlen', Nat.sub_diag.
Qed.

Lemma polls_refine now l : ∀ s a, refines s a →
  ∃ a', refines (foldr (poll now) s l) a' ∧ a' ⊆ a ∧ ∀ k t dl, a !! k = Some (t, dl) → (now < dl)%N → a' !! k = Some (t, dl).
Proof.
  induction l as [|i l IH]; intros s a R; cbn [foldr]; [by exists a|]. destruct (IH s a R) as (a1 & R1 & Hs1 & Hk1).
  destruct (poll_refines now i _ a1 R1) as [R2|(k & t & dl & Hk & Hdl & R2)]; [by exists a1|]. exists (delete k a1). split_and!; [done| |].
  - etransitivity; [apply delete_subseteq|done].
  - intros k' t' dl' Hk' Hlt. rewrite lookup_delete_ne; [by apply Hk1|]. intros ->. specialize (Hk1 k' t' dl' Hk' Hlt). rewrite Hk in Hk1. injection Hk1 as -> ->. lia.
Qed.

Lemma poll_shutdown now i s : shutdown (poll now i s) = shutdown s.
Proof. unfold poll. destruct (cleanups s !! i); [|done]. by repeat case_match. Qed.

(** C28. The map of tasks with its sleeping tasks implements a map with deadlines: in
    every run, over any order of requests, wake-ups and shutdown, what takes
    return is what that map returns; a take returns a task only if it was
    dispatched under that key, and neither taken nor replaced since.  As long
    as the service is not shut down, polling the sleeping tasks leaves exactly
    the entries whose time is not over. *)
Theorem task_map_expires (now : N) (s : St) (tr : list Event) :
  run now s tr →
  (∃ a, spec_run now a tr ∧ refines s a) ∧
  (∀ key task, (take key s).1 = Some task → ∃ at_, newest key tr = Some (Dispatched key task at_)) ∧
  (shutdown s = false → ∀ key,
     match (take key (poll_all now s)).1 with
     | Some task => ∃ at_, newest key tr = Some (Dispatched key task at_) ∧ (now < at_ + expiration)%N
     | None => (take key s).1 = None ∨ ∃ task at_, newest key tr = Some (Dispatched key task at_) ∧ (at_ + expiration ≤ now)%N
     end).
Proof.
  intros Hrun. destruct (run_refines now s tr Hrun) as (a & Ha & R). pose proof (spec_newest now a tr Ha) as Hnew. split_and!.
  - by exists a.
  - intros key task. destruct (take_refines key s a R) as [-> _]. destruct (a !! key) as [[t dl]|] eqn:E; [|done]. intros [= <-].
    destruct (Hnew key t dl E) as (at_ & Hn & _). by exists at_.
  - intros Hsh key. unfold poll_all. destruct (polls_refine now (seq 0 (length (cleanups s))) s a R) as (a' & R' & Hsub & Hkeep).
    destruct (polls_pending now (length (cleanups s)) s 0 eq_refl) as (rest & Hcl & Hp). cbn [firstn app] in Hcl.
    set (s' := foldr (poll now) s (seq 0 (length (cleanups s)))) in *.
    assert (Hsh' : shutdown s' = false).
    { unfold s'. rewrite <- Hsh. generalize (seq 0 (length (cleanups s))). intros l. induction l as [|i l IH]; [done|]. cbn [foldr]. by rewrite poll_shutdown. }
    destruct (take_refines key s' a' R') as [-> _], (take_refines key s a R) as [-> _]. destruct (a' !! key) as [[t dl]|] eqn:E'; cbn [fmap option_fmap option_map fst].
    + pose proof (lookup_weaken _ _ _ _ E' Hsub) as E. destruct (Hnew key t dl E) as (at_ & Hn & ->). exists at_. split; [done|].
      pose proof (rf_entry s' a' R' key) as He. rewrite E' in He. destruct (tmap s' !! key) as [e|] eqn:Et; [|done].
      destruct (rf_live s' a' R' key e Et) as (_ & _ & Hc). destruct (Hc Hsh') as [dl Hdl]. pose proof (cleanup_of s' a' key e dl R' Et Hdl) as Hcd.
      rewrite E' in Hcd. injection Hcd as _ <-. rewrite Hcl in Hdl. rewrite Forall_forall in Hp. exact (Hp _ Hdl).
    + destruct (a !! key) as [[t dl]|] eqn:E; [|by left]. right. destruct (Hnew key t dl E) as (at_ & Hn & ->). exists t, at_. split; [done|].
      destruct (N.le_gt_cases (at_ + expiration) now) as [|Hlt]; [done|]. by rewrite (Hkeep key t _ E Hlt) in E'.
Qed.
End TaskMap.

Lemma task_map_expires_witness :
  (take "k" (poll_all 20 (dispatch 15 1 "k" 7 init).2)).1 = (None : option nat) ∧
  ∃ at_, newest "k" [Dispatched "k" 7 1] = Some (Dispatched "k" 7 at_).
Proof.
  destruct (task_map_expires 15 20 (dispatch 15 1 "k" 7 init).2 [Dispatched "k" 7 1%N]) as (_ & Ht & _).
  - apply (run_tick 15 1 20); [|lia]. apply (run_dispatch 15 1 init [] "k" 7), run_init.
  - split; [reflexivity|]. apply (Ht "k" 7). reflexivity.
Defined.
End TaskMap.
