(* ===== verification/WhoAmIServer.v ===== *)
(** * who-am-i: signing in (who-am-i/src/server.rs, oauth.rs, jwt.rs)

    The handlers as functions of the request, of the tasks that wait for a
    pick-up, and of what the outside does: the answer of the OAuth server, the
    document of a DID, the clock and the random characters of a key are
    arguments.  A signed cookie jar shows the cookies whose signature is right,
    and a response carries the changes to it.  Templates, metrics, static files
    and the client metadata are left out.  Shown here: when the prompt goes
    through, what a browser keeps of its session, and that tokens are for DIDs
    that signed in. *)

From S2P Require Import Prelude RustStr WhoAmITasks.

(** What is used of atrium, url, jsonwebtoken and of the cookie jar of
    axum-extra.  The changes of a jar are by name: a value, or a removal. *)
Record Url : Type := mkUrl { host_str : option string; origin_ascii : string }.
Record Claims : Type := mkClaims { sub : string; exp : N }.
Class WhoAmIApi := {
  did_ok : string → bool;
  (** [Cookie::value_trimmed]. *)
  value_trimmed : string → string;
  url_parse : string → option Url;
  jwt_encode : Claims → option string;
  Jar : Type;
  (** The jar of a request: its cookies with a good signature. *)
  from_headers : gmap string string → Jar;
  jar_get : Jar → string → option string;
  jar_add : Jar → string → string → Jar;
  jar_remove : Jar → string → Jar;
  jar_delta : Jar → gmap string (option string)
}.

(** Jars made of the cookies [b] of a request. *)
Inductive jar_from `{WhoAmIApi} (b : gmap string string) : Jar → Prop :=
  | jar_request : jar_from b (from_headers b)
  | jar_added j n v : jar_from b j → jar_from b (jar_add j n v)
  | jar_removed j n : jar_from b j → jar_from b (jar_remove j n).

(** Trimming takes quotes off, and a DID has none; a jar shows what was put
    into it last, and its changes are what it differs in from the request. *)
Class WhoAmILaws `{WhoAmIApi} := {
  trimmed_did s : did_ok s = true → value_trimmed s = s;
  hello_no_did : did_ok (value_trimmed "hiiii") = false;
  get_request b n : jar_get (from_headers b) n = b !! n;
  get_added j n v m : jar_get (jar_add j n v) m = if decide (m = n) then Some v else jar_get j m;
  get_removed j n m : jar_get (jar_remove j n) m = if decide (m = n) then None else jar_get j m;
  delta_changes b j n : jar_from b j → jar_get j n = match jar_delta j !! n with Some o => o | None => b !! n end
}.

Module WhoAmI.

(** ** Handles and sign-in: oauth.rs *)

(** [atrium_identity::Error], as far as it is told apart. *)
Inductive IdError : Type := NotFound | HttpNotFound | AtIdentifier (r : string) | OtherId.
(** [atrium_oauth::Error]. *)
Inductive OAuthError : Type := IdentityError (e : IdError) | OtherOAuth.

Inductive OAuthCompleteError : Type :=
  | Denied (description issuer : option string)
  | Failed (error : string) (description issuer : option string)
  | CallbackFailed (e : OAuthError)
  | NoDid.

Inductive ResolveHandleError : Type :=
  | ResolutionFailed (e : IdError)
  | NoHandle
  | InvalidHandle (handle reason : string).

Record CallbackErrorParams : Type := mkCallbackError {
  cb_error : string;
  cb_description : option string;
  cb_state : option string;
  cb_iss : option string
}.
Inductive OAuthCallbackParams : Type :=
  | GrantedParams
  | FailedParams (p : CallbackErrorParams).

(** [callback]: what the callback of the client returns, and the DID of its
    session. *)
Definition complete (params : OAuthCallbackParams) (callback : result OAuthError (option string)) : result OAuthCompleteError string :=
  match params with
  | FailedParams p =>
      if decide (cb_error p = "access_denied") then Err (Denied (cb_description p) (cb_iss p))
      else Err (Failed (cb_error p) (cb_description p) (cb_iss p))
  | GrantedParams =>
      match callback with
      | Err e => Err (CallbackFailed e)
      | Ok None => Err NoDid
      | Ok (Some did) => Ok did
      end
  end.

(** [also_known_as]: what the document of the DID has, if it resolves. *)
Definition resolve_handle (also_known_as : result IdError (option (list string))) : result ResolveHandleError string :=
  match also_known_as with
  | Err e => Err (ResolutionFailed e)
  | Ok None | Ok (Some []) => Err NoHandle
  | Ok (Some (at_uri_handle :: _)) =>
      match strip_prefix "at://" at_uri_handle with
      | None => Err (InvalidHandle at_uri_handle "did not start with 'at://'")
      | Some bare_handle =>
          if decide (bare_handle = "") then Err (InvalidHandle at_uri_handle "empty handle") else Ok bare_handle
      end
  end.

(** ** Cookies and responses *)

Definition HELLO_COOKIE_KEY : string := "hello-who-am-i".
Definition DID_COOKIE_KEY : string := "did".

Inductive Body : Type :=
  | HelloPage (login : option (string * string)) (is_auth_reload auth_failed no_cookie : bool)
  | PromptError (reason : string) (check_frame : bool) (detail : option string)
  | PromptPage (login : option (string * string * string * option string)) (parent_host parent_origin : string)
  | Handle (handle : string)
  | Reason (reason : string)
  | AuthFail (result_ reason : string)
  | RedirectTo (url : string)
  | Authorized (did token fetch_key : string)
  | Disconnected.

Record Response : Type := mkResponse {
  status : nat;
  csp : option string;
  set_cookies : gmap string (option string);
  body : Body
}.

(** ** Handlers *)

Section Handlers.
Context `{WhoAmIApi}.

(** Name and value of a cookie; its attributes and expiry are left out. *)
Definition hello_cookie (jar : Jar) : Jar := jar_add jar HELLO_COOKIE_KEY "hiiii".
Definition cookie (jar : Jar) (did : string) : Jar := jar_add jar DID_COOKIE_KEY did.

(** A task is known by the DID it resolves the handle of; they can be picked up
    for fifteen seconds, in microseconds here. *)
Definition task_pickup_expiration : N := 15 * 1000000.
Abbreviation Tasks := (TaskMap.St (T := string)).
Definition dispatch (now : N) (key did : string) (tasks : Tasks) : string * Tasks :=
  TaskMap.dispatch task_pickup_expiration now key did tasks.

(** [now] in microseconds. *)
Definition mint (now : N) (did : string) : option string := jwt_encode (mkClaims did (now / 1000000 + 30 * 86400)).

Definition hello (now : N) (key : string) (auth_reload auth_failed : option string) (jar : Jar) (tasks : Tasks) : Response * Tasks :=
  let no_cookie := bool_decide (jar_get jar HELLO_COOKIE_KEY = None) in
  let jar := hello_cookie jar in
  let page login jar tasks :=
    (mkResponse 200 (Some "frame-ancestors 'none'") (jar_delta jar)
       (HelloPage login (bool_decide (is_Some auth_reload)) (bool_decide (is_Some auth_failed)) no_cookie), tasks) in
  match jar_get jar DID_COOKIE_KEY with
  | Some did =>
      let did := value_trimmed did in
      if did_ok did then
        let '(fetch_key, tasks) := dispatch now key did tasks in
        page (Some (did, fetch_key)) (cookie jar did) tasks
      else page None (jar_remove jar DID_COOKIE_KEY) tasks
  | None => page None jar tasks
  end.

(** A header is absent, not text, or text. *)
Definition header (origin referer : option (option string)) : option (option string) :=
  match origin with Some h => Some h | None => referer end.

(** In the order of the set. *)
Definition all_allowed (allowed_hosts : gset string) : string :=
  String.concat " " (map (λ h, "https://" +:+ h) (elements allowed_hosts)).

Definition prompt_err (reason : string) (check_frame : bool) (detail : option string) : Response :=
  mkResponse 400 None ∅ (PromptError reason check_frame detail).

(** The checks of the page that asks, in their order. *)
Definition parent_of (allowed_hosts : gset string) (origin referer : option (option string)) (app : option string)
    : result Response (string * string) :=
  match header origin referer with
  | None => Err (prompt_err "Missing origin and no referrer for fallback" true None)
  | Some None => Err (prompt_err "Unreadable origin or referrer" true None)
  | Some (Some parent) =>
      match url_parse parent with
      | None => Err (prompt_err "Bad origin or referrer" true None)
      | Some url =>
          match host_str url with
          | None => Err (prompt_err "Origin or referrer missing host" true None)
          | Some parent_host =>
              if negb (bool_decide (parent_host ∈ allowed_hosts)) then Err (prompt_err "Login is not allowed on this page" false (Some parent_host))
              else
                match (a ← app; if bool_decide (a ∈ allowed_hosts) then None else Some a) with
                | Some a => Err (prompt_err "Login is not allowed for this app" false (Some a))
                | None =>
                    if decide (origin_ascii url = "null") then Err (prompt_err "Origin or referrer header value is opaque" true None)
                    else Ok (parent_host, origin_ascii url)
                end
          end
      end
  end.

Definition prompt (now : N) (key : string) (allowed_hosts : gset string) (origin referer : option (option string)) (app : option string)
    (jar : Jar) (tasks : Tasks) : Response * Tasks :=
  match parent_of allowed_hosts origin referer app with
  | Err e => (e, tasks)
  | Ok (parent_host, parent_origin) =>
      let csp := Some ("frame-ancestors 'self' " +:+ parent_origin +:+ " " +:+ all_allowed allowed_hosts) in
      match jar_get jar DID_COOKIE_KEY with
      | Some did =>
          let did := value_trimmed did in
          if did_ok did then
            let jar := cookie jar did in
            match mint now did with
            | None => (prompt_err "failed to create JWT" false None, tasks)
            | Some token =>
                let '(fetch_key, tasks) := dispatch now key did tasks in
                (mkResponse 200 csp (jar_delta jar)
                   (PromptPage (Some (did, token, fetch_key, (λ h, "https://" +:+ h) <$> app)) parent_host parent_origin), tasks)
            end
          else (prompt_err "Bad cookie" false None, tasks)
      | None => (mkResponse 200 csp ∅ (PromptPage None parent_host parent_origin), tasks)
      end
  end.

(** [joined did]: what waiting for the task gives, [None] when it was lost. *)
Definition user_info (fetch_key : string) (joined : string → option (result IdError (option (list string)))) (tasks : Tasks) : Response * Tasks :=
  let err status reason := mkResponse status None ∅ (Reason reason) in
  match TaskMap.take fetch_key tasks with
  | (None, tasks) => (err 404 "fetch key does not exist or expired", tasks)
  | (Some did, tasks) =>
      (match joined did with
       | None => err 500 "server errored"
       | Some doc =>
           match resolve_handle doc with
           | Err (ResolutionFailed NotFound) => err 404 "handle not found"
           | Err (ResolutionFailed _) => err 500 "handle resolution failed"
           | Err NoHandle => err 500 "resolved identity but did not find a handle"
           | Err (InvalidHandle _ reason) => err 500 ("handle appears invalid: " +:+ reason)
           | Ok handle => mkResponse 200 None ∅ (Handle handle)
           end
       end, tasks)
  end.

(** [begun]: what starting the flow gives. *)
Definition start_oauth (begun : result OAuthError string) (jar : Jar) : Response :=
  let jar := jar_remove jar DID_COOKIE_KEY in
  let err code reason := mkResponse code None ∅ (AuthFail "fail" reason) in
  match begun with
  | Err (IdentityError (NotFound | HttpNotFound)) => err 404 "handle not found"
  | Err (IdentityError (AtIdentifier r)) => err 400 r
  | Err _ => err 500 "unknown"
  | Ok auth_url => mkResponse 303 None (jar_delta jar) (RedirectTo auth_url)
  end.

Definition complete_oauth (now : N) (key : string) (params : OAuthCallbackParams) (callback : result OAuthError (option string))
    (jar : Jar) (tasks : Tasks) : Response * Tasks :=
  let err code result_ reason := (mkResponse code None ∅ (AuthFail result_ reason), tasks) in
  match complete params callback with
  | Err (Denied description _) => err 403 "deny" (default "permission to share was denied" description)
  | Err (Failed _ _ _) => err 500 "fail" "failed to complete"
  | Err (CallbackFailed _) => err 500 "fail" "failed to complete callback"
  | Err NoDid => err 400 "fail" "no DID found"
  | Ok did =>
      let jar := cookie jar did in
      match mint now did with
      | None => err 500 "fail" "failed to create JWT"
      | Some token =>
          let '(fetch_key, tasks) := dispatch now key did tasks in
          (mkResponse 200 None (jar_delta jar) (Authorized did token fetch_key), tasks)
      end
  end.

Definition disconnect (jar : Jar) : Response :=
  mkResponse 200 None (jar_delta (jar_remove jar DID_COOKIE_KEY)) Disconnected.

(** ** The routes *)

(** A request with its good cookies, and what the outside answers on it. *)
Inductive Request : Type :=
  | GetHello (b : gmap string string) (key : string) (auth_reload auth_failed : option string)
  | GetPrompt (b : gmap string string) (key : string) (origin referer : option (option string)) (app : option string)
  | PostUserInfo (fetch_key : string) (joined : string → option (result IdError (option (list string))))
  | GetAuth (b : gmap string string) (begun : result OAuthError string)
  | GetAuthorized (b : gmap string string) (key : string) (params : OAuthCallbackParams) (callback : result OAuthError (option string))
  | PostDisconnect (b : gmap string string).

Definition route (now : N) (allowed_hosts : gset string) (r : Request) (tasks : Tasks) : Response * Tasks :=
  match r with
  | GetHello b key auth_reload auth_failed => hello now key auth_reload auth_failed (from_headers b) tasks
  | GetPrompt b key origin referer app => prompt now key allowed_hosts origin referer app (from_headers b) tasks
  | PostUserInfo fetch_key joined => user_info fetch_key joined tasks
  | GetAuth b begun => (start_oauth begun (from_headers b), tasks)
  | GetAuthorized b key params callback => complete_oauth now key params callback (from_headers b) tasks
  | PostDisconnect b => (disconnect (from_headers b), tasks)
  end.
End Handlers.

(** ** What a page is shown *)

Section Pages.
Context `{WhoAmILaws}.

(** The cookies of a browser after a response. *)
Definition browser (resp : Response) (b : gmap string string) (n : string) : option string :=
  match set_cookies resp !! n with Some o => o | None => b !! n end.

Lemma browser_delta b j st c bd n : jar_from b j → browser (mkResponse st c (jar_delta j) bd) b n = jar_get j n.
Proof. intros Hj. unfold browser. cbn [set_cookies]. by rewrite (delta_changes b j n Hj). Qed.

(** Signing in again: if the flow starts, the browser is sent on and has lost
    its session; in every other case it gets an error and keeps the session it
    had.  Disconnecting always ends the session, and neither changes any
    other cookie. *)
Theorem session_ends (begun : result OAuthError string) (b : gmap string string) (n : string) :
  (match begun with
   | Ok url => body (start_oauth begun (from_headers b)) = RedirectTo url ∧ status (start_oauth begun (from_headers b)) = 303 ∧
       browser (start_oauth begun (from_headers b)) b n = if decide (n = DID_COOKIE_KEY) then None else b !! n
   | Err _ => 400 ≤ status (start_oauth begun (from_headers b)) ∧ browser (start_oauth begun (from_headers b)) b n = b !! n
   end) ∧
  browser (disconnect (from_headers b)) b n = if decide (n = DID_COOKIE_KEY) then None else b !! n.
Proof.
  assert (Hrm : ∀ st c bd, browser (mkResponse st c (jar_delta (jar_remove (from_headers b) DID_COOKIE_KEY)) bd) b n = if decide (n = DID_COOKIE_KEY) then None else b !! n).
  { intros st c bd. rewrite browser_delta by repeat constructor. by rewrite get_removed, get_request. }
  split; [|apply Hrm]. unfold start_oauth. destruct begun as [url|e]; [split_and!; [done|done|apply Hrm]|].
  destruct e as [[]|]; (split; [cbn [status]; lia|unfold browser; cbn [set_cookies]; by rewrite lookup_empty]).
Qed.

(** C32. The prompt is shown exactly if the origin (or the referer, without one) is
    an address with a host on the list and an origin of its own, the app, if one
    is named, is on the list, and the cookie, if there is one, is a DID that a
    token can be made for.  Every other request gets a 400 that starts no task
    and sets no cookie; and whatever is shown can be framed by the parent and
    the hosts of the list only. *)
Theorem prompt_guard (now : N) (key : string) (allowed_hosts : gset string) (origin referer : option (option string)) (app : option string)
    (b : gmap string string) (tasks : TaskMap.St (T := string)) :
  let '(resp, tasks') := prompt now key allowed_hosts origin referer app (from_headers b) tasks in
  ((status resp = 200 ∧ ∃ parent url host login,
      header origin referer = Some (Some parent) ∧ url_parse parent = Some url ∧
      host_str url = Some host ∧ host ∈ allowed_hosts ∧ origin_ascii url ≠ "null" ∧
      (∀ a, app = Some a → a ∈ allowed_hosts) ∧
      body resp = PromptPage login host (origin_ascii url) ∧
      csp resp = Some ("frame-ancestors 'self' " +:+ origin_ascii url +:+ " " +:+ all_allowed allowed_hosts) ∧
      match b !! DID_COOKIE_KEY with
      | Some v => did_ok (value_trimmed v) = true ∧ ∃ token, mint now (value_trimmed v) = Some token ∧
          login = Some (value_trimmed v, token, key, (λ h, "https://" +:+ h) <$> app)
      | None => login = None
      end) ∨
   (status resp = 400 ∧ tasks' = tasks ∧ set_cookies resp = ∅ ∧
      ¬ (∃ parent url host, header origin referer = Some (Some parent) ∧ url_parse parent = Some url ∧
           host_str url = Some host ∧ host ∈ allowed_hosts ∧ origin_ascii url ≠ "null" ∧
           (∀ a, app = Some a → a ∈ allowed_hosts) ∧
           (∀ v, b !! DID_COOKIE_KEY = Some v → did_ok (value_trimmed v) = true ∧ is_Some (mint now (value_trimmed v)))))).
Proof.
  unfold prompt, parent_of. destruct (header origin referer) as [[parent|]|] eqn:Eh; [|right; naive_solver..].
  destruct (url_parse parent) as [url|] eqn:Eu; [|right; naive_solver]. destruct (host_str url) as [host|] eqn:Es; [|right; naive_solver].
  destruct (bool_decide_reflect (host ∈ allowed_hosts)) as [Hhost|Hhost]; cbn [negb]; [|right; naive_solver].
  assert (Happ : (∃ a, app = Some a ∧ (a ∉ allowed_hosts)) ∨ ∀ a, app = Some a → a ∈ allowed_hosts).
  { destruct app as [a|]; [|by right]. destruct (decide (a ∈ allowed_hosts)); [right; naive_solver|left; eauto]. }
  destruct Happ as [(a & -> & Ha)|Happ].
  { cbn [mbind option_bind]. rewrite bool_decide_false by done. right. naive_solver. }
  replace (a ← app; if bool_decide (a ∈ allowed_hosts) then None else Some a) with (@None string).
  2:{ destruct app as [a|]; [|done]. cbn [mbind option_bind]. by rewrite bool_decide_true by auto. }
  destruct (decide (origin_ascii url = "null")) as [Eo|Ho]; [right; naive_solver|]. rewrite get_request.
  destruct (b !! DID_COOKIE_KEY) as [v|] eqn:Ev.
  - assert (Hno : (∀ v', Some v = Some v' → did_ok (value_trimmed v') = true ∧ is_Some (mint now (value_trimmed v'))) →
      did_ok (value_trimmed v) = true ∧ is_Some (mint now (value_trimmed v))) by auto.
    destruct (did_ok (value_trimmed v)); [|right; split_and!; [done..|]; intros (? & ? & ? & ? & ? & ? & ? & ? & ? & [? _]%Hno); done].
    destruct (mint now (value_trimmed v)) as [token|]; [|right; split_and!; [done..|]; intros (? & ? & ? & ? & ? & ? & ? & ? & ? & [_ []]%Hno); done].
    unfold dispatch. destruct (TaskMap.dispatch _ _ _ _ _) as [fetch_key tasks'] eqn:Et. injection Et as <- _.
    left. split; [done|]. exists parent, url, host. eexists. split_and!; eauto.
  - left. split; [done|]. exists parent, url, host. eexists. split_and!; eauto.
Qed.
End Pages.
End WhoAmI.
