(* ===== verification/WhoAmISessions.v ===== *)
(** * who-am-i: who gets a token (who-am-i/src/server.rs)

    Runs of the service: requests, the sleeping tasks and the clock in any
    order.  A client can present, under any name, every value the service has
    signed so far and no other: the signature of a cookie covers its value
    only.  Shown here: a token, and the handle behind a fetch key, are always
    those of a DID that an OAuth callback has vouched for before. *)

From S2P Require Import Prelude RustStr WhoAmITasks WhoAmIServer.

Module Sessions.
Export WhoAmI.

(** ** Runs *)

Definition request_cookies (r : Request) : gmap string string :=
  match r with
  | GetHello b _ _ _ | GetPrompt b _ _ _ _ | GetAuth b _ | GetAuthorized b _ _ _ | PostDisconnect b => b
  | PostUserInfo _ _ => ∅
  end.

(** The DID of a completed callback. *)
Definition signs_in (r : Request) (did : string) : Prop :=
  match r with GetAuthorized _ _ params callback => complete params callback = Ok did | _ => False end.

(** What was served when; newest first. *)
Record Served : Type := mkServed { sv_now : N; sv_request : Request; sv_response : Response }.
Definition verified (tr : list Served) (did : string) : Prop := ∃ e, e ∈ tr ∧ signs_in (sv_request e) did.
Definition issued (tr : list Served) (v : string) : Prop :=
  ∃ e n, e ∈ tr ∧ set_cookies (sv_response e) !! n = Some (Some v).

Section Runs.
Context `{WhoAmIApi}.

(** Cookies are not forged, and the session of a callback has a proper DID. *)
Definition admissible (tr : list Served) (r : Request) : Prop :=
  (∀ n v, request_cookies r !! n = Some v → issued tr v) ∧ (∀ did, signs_in r did → did_ok did = true).

Inductive serves (allowed_hosts : gset string) : N → TaskMap.St (T := string) → list Served → Prop :=
  | serves_init now : serves allowed_hosts now TaskMap.init []
  | serves_tick now now' tasks tr : serves allowed_hosts now tasks tr → (now ≤ now')%N → serves allowed_hosts now' tasks tr
  | serves_poll now tasks tr i : serves allowed_hosts now tasks tr → serves allowed_hosts now (TaskMap.poll now i tasks) tr
  | serves_request now tasks tr r : serves allowed_hosts now tasks tr → admissible tr r →
      serves allowed_hosts now (route now allowed_hosts r tasks).2 (mkServed now r (route now allowed_hosts r tasks).1 :: tr).
End Runs.

(** The token of a page. *)
Definition token_of (resp : Response) : option (string * string) :=
  match body resp with
  | PromptPage (Some (did, token, _, _)) _ _ | Authorized did token _ => Some (did, token)
  | _ => None
  end.

(** ** What a response may hold *)

Section Sound.
Context {A : WhoAmIApi} {L : WhoAmILaws}.

(** [V]: the DIDs that signed in. *)
Definition tasks_of (V : string → Prop) (tasks : TaskMap.St (T := string)) : Prop :=
  ∀ k e, TaskMap.tmap tasks !! k = Some e → V (TaskMap.e_task e).
Definition signed (V : string → Prop) (v : string) : Prop := V v ∨ v = "hiiii".

Record sound (V : string → Prop) (now : N) (r : Request) (out : Response * TaskMap.St (T := string)) : Prop := {
  sd_cookies n v : set_cookies out.1 !! n = Some (Some v) → signed V v;
  sd_token did token : token_of out.1 = Some (did, token) → V did ∧ mint now did = Some token;
  sd_handle h : body out.1 = Handle h →
    ∃ did key joined doc, V did ∧ r = PostUserInfo key joined ∧ joined did = Some doc ∧ resolve_handle doc = Ok h;
  sd_tasks : tasks_of V out.2
}.

(** A jar made of the request, with signed values only. *)
Definition jar_signed (V : string → Prop) (b : gmap string string) (j : Jar) : Prop :=
  jar_from b j ∧ ∀ n v, jar_get j n = Some v → signed V v.

Lemma delta_signed V b j : jar_signed V b j → ∀ n v, jar_delta j !! n = Some (Some v) → signed V v.
Proof. intros [Hj Hs] n v Hd. apply (Hs n). by rewrite (delta_changes b j n Hj), Hd. Qed.

Lemma request_signed V b : (∀ n v, b !! n = Some v → signed V v) → jar_signed V b (from_headers b).
Proof. intros Hb. split; [constructor|]. intros n v. rewrite get_request. apply Hb. Qed.

Lemma add_signed V b j m w : jar_signed V b j → signed V w → jar_signed V b (jar_add j m w).
Proof. intros [Hj Hs] Hw. split; [by constructor|]. intros n v. rewrite get_added. destruct (decide _); [by intros [= <-]|apply Hs]. Qed.

Lemma remove_signed V b j m : jar_signed V b j → jar_signed V b (jar_remove j m).
Proof. intros [Hj Hs]. split; [by constructor|]. intros n v. rewrite get_removed. destruct (decide _); [done|apply Hs]. Qed.

Lemma did_cookie V v : (∀ did, V did → did_ok did = true) → signed V v → did_ok (value_trimmed v) = true → V (value_trimmed v).
Proof. intros HV [Hv| ->] Hok; [by rewrite trimmed_did by auto|]. by rewrite hello_no_did in Hok. Qed.

Lemma dispatch_tasks (V : string → Prop) now key did tasks : V did → tasks_of V tasks → tasks_of V (dispatch now key did tasks).2.
Proof.
  intros Hd Ht k e. unfold dispatch, TaskMap.dispatch. cbn [snd TaskMap.tmap]. intros [[_ <-]|[_ He]]%lookup_insert_Some; [done|by apply (Ht k)].
Qed.

Lemma poll_tasks V now i tasks : tasks_of V tasks → tasks_of V (TaskMap.poll now i tasks).
Proof.
  intros Ht k e. unfold TaskMap.poll. repeat case_match; cbn [TaskMap.tmap]; try apply Ht. intros [_ He]%lookup_delete_Some. by apply (Ht k).
Qed.

(** A response without a token, handle or cookie. *)
Lemma sound_plain V now r resp tasks :
  set_cookies resp = ∅ → token_of resp = None → (∀ h, body resp ≠ Handle h) → tasks_of V tasks → sound V now r (resp, tasks).
Proof.
  intros Hc Ht Hh Hts. constructor; cbn [fst snd]; [by rewrite Hc|by rewrite Ht|intros h E; by destruct (Hh h)|done].
Qed.

Create HintDb signed.
Hint Resolve request_signed add_signed remove_signed : signed.
Hint Extern 1 (signed _ "hiiii") => by right : signed.
Hint Extern 2 (signed _ _) => by left : signed.
Ltac signed_jar := eapply delta_signed; auto with signed.

Context (V : string → Prop) (HV : ∀ did, V did → did_ok did = true).
Context (b : gmap string string) (Hb : ∀ n v, b !! n = Some v → signed V v).

Lemma hello_sound now r key ar af tasks : tasks_of V tasks → sound V now r (hello now key ar af (from_headers b) tasks).
Proof using L HV Hb.
  intros Ht. unfold hello, hello_cookie, cookie. rewrite get_added, decide_False, get_request by done.
  destruct (b !! DID_COOKIE_KEY) as [v|] eqn:Ev; [|constructor; cbn; [signed_jar|done..]].
  destruct (did_ok (value_trimmed v)) eqn:Ed; [|constructor; cbn; [signed_jar|done..]].
  pose proof (did_cookie V v HV (Hb _ _ Ev) Ed) as Hd. pose proof (dispatch_tasks V now key (value_trimmed v) tasks Hd Ht) as Ht'.
  destruct (dispatch now key (value_trimmed v) tasks) as [k tasks']. constructor; cbn; [signed_jar|done..].
Qed.

Lemma prompt_sound now r key hosts origin referer app tasks :
  tasks_of V tasks → sound V now r (prompt now key hosts origin referer app (from_headers b) tasks).
Proof using L HV Hb.
  intros Ht. unfold prompt, cookie. destruct (parent_of hosts origin referer app) as [[h o]|e] eqn:Ep.
  - rewrite get_request. destruct (b !! DID_COOKIE_KEY) as [v|] eqn:Ev; [|by apply sound_plain].
    destruct (did_ok (value_trimmed v)) eqn:Ed; [|by apply sound_plain]. destruct (mint now (value_trimmed v)) as [token|] eqn:Em; [|by apply sound_plain].
    pose proof (did_cookie V v HV (Hb _ _ Ev) Ed) as Hd. pose proof (dispatch_tasks V now key (value_trimmed v) tasks Hd Ht) as Ht'.
    destruct (dispatch now key (value_trimmed v) tasks) as [k tasks']. constructor; cbn; [signed_jar|by intros ? ? [= <- <-]|done|done].
  - assert (He : ∃ reason c d, e = prompt_err reason c d).
    { unfold parent_of in Ep. repeat case_match; simplify_eq; eauto. }
    destruct He as (? & ? & ? & ->). by apply sound_plain.
Qed.

Lemma complete_oauth_sound now r key params callback tasks :
  (∀ did, complete params callback = Ok did → V did) → tasks_of V tasks →
  sound V now r (complete_oauth now key params callback (from_headers b) tasks).
Proof using L Hb.
  intros Hp Ht. unfold complete_oauth, cookie. destruct (complete params callback) as [did|[]] eqn:Ec; [|by apply sound_plain..].
  destruct (mint now did) as [token|] eqn:Em; [|by apply sound_plain]. specialize (Hp did eq_refl).
  pose proof (dispatch_tasks V now key did tasks Hp Ht) as Ht'. destruct (dispatch now key did tasks) as [k tasks'].
  constructor; cbn; [signed_jar|by intros ? ? [= <- <-]|done|done].
Qed.

Lemma session_sound now r begun tasks :
  tasks_of V tasks → sound V now r (start_oauth begun (from_headers b), tasks) ∧ sound V now r (disconnect (from_headers b), tasks).
Proof using L Hb.
  intros Ht. split; [|constructor; cbn; [signed_jar|done..]]. unfold start_oauth.
  destruct begun as [url|[[]|]]; [|by apply sound_plain..]. constructor; cbn; [signed_jar|done..].
Qed.
End Sound.

Lemma user_info_sound `{WhoAmIApi} (V : string → Prop) now key joined tasks :
  tasks_of V tasks → sound V now (PostUserInfo key joined) (user_info key joined tasks).
Proof.
  intros Ht. unfold user_info, TaskMap.take. destruct (TaskMap.tmap tasks !! key) as [e|] eqn:Ek; [|by apply sound_plain].
  assert (Ht' : tasks_of V (TaskMap.mkSt (delete key (TaskMap.tmap tasks)) (TaskMap.cleanups tasks) ({[TaskMap.e_token e]} ∪ TaskMap.cancelled tasks)
    (TaskMap.shutdown tasks) (TaskMap.next_token tasks))) by (intros k x; cbn [TaskMap.tmap]; intros [_ Hx]%lookup_delete_Some; by apply (Ht k)).
  destruct (joined (TaskMap.e_task e)) as [doc|] eqn:Ej; [|by apply sound_plain].
  destruct (resolve_handle doc) as [h|[[]| |]] eqn:Er; try by apply sound_plain.
  constructor; [done|done| |done]. intros h' [= <-]. exists (TaskMap.e_task e), key, joined, doc. split_and!; [by apply (Ht key)|done..].
Qed.

(** ** Every run *)

Section Invariant.
Context `{WhoAmILaws}.

Lemma route_sound V hosts now r tasks :
  (∀ did, V did → did_ok did = true) → (∀ n v, request_cookies r !! n = Some v → signed V v) → (∀ did, signs_in r did → V did) →
  tasks_of V tasks → sound V now r (route now hosts r tasks).
Proof.
  intros HV Hb Hs Ht. destruct r; cbn [route request_cookies signs_in] in *;
    eauto using hello_sound, prompt_sound, complete_oauth_sound, user_info_sound.
  - by apply session_sound.
  - by apply (session_sound V b Hb now _ (Ok "")).
Qed.

Lemma verified_cons e tr did : verified (e :: tr) did ↔ signs_in (sv_request e) did ∨ verified tr did.
Proof. unfold verified. set_solver. Qed.

Lemma signed_mono (V W : string → Prop) v : (∀ did, V did → W did) → signed V v → signed W v.
Proof. intros HVW [Hv| ->]; [left; auto|by right]. Qed.

Lemma tasks_mono (V W : string → Prop) tasks : (∀ did, V did → W did) → tasks_of V tasks → tasks_of W tasks.
Proof. intros HVW Ht k e He. by eapply HVW, Ht. Qed.

Record safe (tasks : TaskMap.St (T := string)) (tr : list Served) : Prop := {
  sf_dids did : verified tr did → did_ok did = true;
  sf_issued v : issued tr v → signed (verified tr) v;
  sf_running : tasks_of (verified tr) tasks;
  sf_past later e earlier : tr = later ++ e :: earlier →
    ∃ tasks', sound (verified (e :: earlier)) (sv_now e) (sv_request e) (sv_response e, tasks')
}.

Lemma request_safe hosts now tasks tr r :
  safe tasks tr → admissible tr r → safe (route now hosts r tasks).2 (mkServed now r (route now hosts r tasks).1 :: tr).
Proof.
  intros [Hd Hi Ht Hp] [Hc Hs]. set (e := mkServed now r (route now hosts r tasks).1).
  assert (Hmono : ∀ did, verified tr did → verified (e :: tr) did) by (intros did Hv; apply verified_cons; by right).
  assert (Hd' : ∀ did, verified (e :: tr) did → did_ok did = true) by (intros did [Hv|Hv]%verified_cons; auto).
  assert (So : sound (verified (e :: tr)) now r (route now hosts r tasks)).
  { apply route_sound; [done| | |by eapply tasks_mono].
    - intros n v Hn. eapply signed_mono, Hi, Hc; [done|exact Hn].
    - intros did Hsi. apply verified_cons. by left. }
  constructor; [done| |apply So|].
  - intros v (x & n & [->|Hx]%elem_of_cons & Hv); [by eapply (sd_cookies _ _ _ _ So)|]. eapply signed_mono, Hi; [done|]. by exists x, n.
  - intros [|x later] x' earlier [= <- Etr]; [subst earlier|].
    + exists (route now hosts r tasks).2. unfold e. cbn [sv_now sv_request sv_response]. by destruct (route now hosts r tasks).
    + by eapply Hp.
Qed.

Lemma serves_safe hosts now tasks tr : serves hosts now tasks tr → safe tasks tr.
Proof.
  induction 1 as [now|now now' tasks tr _ IH _|now tasks tr i _ IH|now tasks tr r _ IH Hr]; [| |destruct IH; constructor; auto using poll_tasks|by apply request_safe].
  - constructor.
    + by intros did (e & He%elem_of_nil & _).
    + by intros v (e & n & He%elem_of_nil & _).
    + intros k e. cbn. by rewrite lookup_empty.
    + by intros [] e earlier.
  - done.
Qed.

(** C23. In every run of the service, over any order of requests, wake-ups and clock,
    a page with a token is shown only for a DID that an OAuth callback returned
    in this or in an earlier request, and the token is the one minted for that
    DID at that time; and a handle is told only as the one in the document of
    such a DID.  Clients can replay every cookie ever signed, under any name. *)
Theorem tokens_for_verified (hosts : gset string) (now : N) (tasks : TaskMap.St (T := string)) (tr later earlier : list Served) (e : Served) :
  serves hosts now tasks tr → tr = later ++ e :: earlier →
  (∀ did token, token_of (sv_response e) = Some (did, token) →
     verified (e :: earlier) did ∧ jwt_encode (mkClaims did (sv_now e / 1000000 + 2592000)) = Some token) ∧
  (∀ h, body (sv_response e) = Handle h → ∃ did key joined doc, verified earlier did ∧
     sv_request e = PostUserInfo key joined ∧ joined did = Some doc ∧ resolve_handle doc = Ok h).
Proof.
  intros Hrun Htr. destruct (sf_past _ _ (serves_safe _ _ _ _ Hrun) _ _ _ Htr) as [tasks' So]. split.
  - exact (sd_token _ _ _ _ So).
  - intros h Hh. destruct (sd_handle _ _ _ _ So h Hh) as (did & key & joined & doc & [Hs|Hv]%verified_cons & Er & Hj & Hr); [by rewrite Er in Hs|].
    by exists did, key, joined, doc.
Qed.
End Invariant.
End Sessions.
