(* ===== verification/WhoAmIRuns.v ===== *)
(** * who-am-i: concrete runs

    The interfaces of who-am-i are implemented by small functions, and the
    theorems about the sign-in are applied to runs with them: a user signs in,
    and is greeted by the prompt of an allowed page. *)

From S2P Require Import Prelude RustStr WhoAmITasks WhoAmIServer WhoAmISessions.

Module SignIn.
Export WhoAmI.

#[local] Instance api : WhoAmIApi := {|
  did_ok s := match strip_prefix "did:" s with Some _ => true | None => false end;
  value_trimmed s := s;
  url_parse s := match strip_prefix "https://" s with Some h => Some (mkUrl (Some h) s) | None => None end;
  jwt_encode c := Some ("jwt:" +:+ sub c);
  Jar := gmap string string * gmap string (option string);
  from_headers b := (b, ∅);
  jar_get j n := match j.2 !! n with Some o => o | None => j.1 !! n end;
  jar_add j n v := (j.1, <[n := Some v]> j.2);
  jar_remove j n := (j.1, <[n := None]> j.2);
  jar_delta j := j.2
|}.

#[local] Instance laws : WhoAmILaws.
Proof.
  constructor; try done.
  - intros j n v m. cbn. destruct (decide (m = n)) as [->|]; [by rewrite lookup_insert_eq|by rewrite lookup_insert_ne].
  - intros j n m. cbn. destruct (decide (m = n)) as [->|]; [by rewrite lookup_insert_eq|by rewrite lookup_insert_ne].
  - intros b j n Hj. cbn. assert (Eb : j.1 = b) by (by induction Hj). by rewrite Eb.
Qed.

Definition hosts : gset string := {["app.example"]}.
Definition session : gmap string string := {["did" := "did:plc:a"]}.
Definition sign_in : Request := GetAuthorized ∅ "key1" GrantedParams (Ok (Some "did:plc:a")).
Definition ask : Request := GetPrompt session "key2" (Some (Some "https://app.example")) None None.
Definition after_sign_in := route 0 hosts sign_in TaskMap.init.
Definition asked := route 0 hosts ask after_sign_in.2.
Definition trace : list Sessions.Served := [Sessions.mkServed 0 ask asked.1; Sessions.mkServed 0 sign_in after_sign_in.1].

Lemma session_ends_witness :
  browser (start_oauth (Err OtherOAuth) (from_headers session)) session "did" = Some "did:plc:a" ∧
  browser (start_oauth (Ok "https://pds.example") (from_headers session)) session "did" = None.
Proof.
  destruct (session_ends (Err OtherOAuth) session "did") as [[_ He] _].
  destruct (session_ends (Ok "https://pds.example") session "did") as [(_ & _ & Hk) _].
  split; [exact He|exact Hk].
Defined.

Lemma prompt_guard_witness :
  status (prompt 0 "key2" hosts (Some (Some "https://app.example")) None None (from_headers session) TaskMap.init).1 = 200 ∧
  status (prompt 0 "key2" hosts (Some (Some "https://other.example")) None None (from_headers session) TaskMap.init).1 = 400.
Proof.
  pose proof (prompt_guard 0 "key2" hosts (Some (Some "https://app.example")) None None session TaskMap.init) as Hyes.
  pose proof (prompt_guard 0 "key2" hosts (Some (Some "https://other.example")) None None session TaskMap.init) as Hno.
  split.
  - destruct (prompt 0 "key2" hosts (Some (Some "https://app.example")) _ _ _ _) as [resp t] eqn:E. destruct Hyes as [[Hs _]|[Hs _]]; [exact Hs|].
    vm_compute in E. injection E as <- _. discriminate.
  - destruct (prompt 0 "key2" hosts (Some (Some "https://other.example")) _ _ _ _) as [resp t] eqn:E. destruct Hno as [[Hs _]|[Hs _]]; [|exact Hs].
    vm_compute in E. injection E as <- _. discriminate.
Defined.

Lemma trace_served : Sessions.serves hosts 0 asked.2 trace.
Proof.
  apply (Sessions.serves_request hosts 0 after_sign_in.2 [Sessions.mkServed 0 sign_in after_sign_in.1] ask).
  - apply (Sessions.serves_request hosts 0 TaskMap.init [] sign_in); [constructor|]. split; [done|]. by intros did [= <-].
  - split; [|done]. intros n v. cbn. unfold session. intros [<- <-]%lookup_singleton_Some.
    exists (Sessions.mkServed 0 sign_in after_sign_in.1), "did". split; [by left|reflexivity].
Qed.

Lemma tokens_for_verified_witness :
  Sessions.token_of asked.1 = Some ("did:plc:a", "jwt:did:plc:a") ∧ Sessions.verified trace "did:plc:a".
Proof.
  assert (Ht : Sessions.token_of asked.1 = Some ("did:plc:a", "jwt:did:plc:a")) by reflexivity. split; [exact Ht|].
  destruct (Sessions.tokens_for_verified hosts 0 asked.2 trace [] [Sessions.mkServed 0 sign_in after_sign_in.1]
    (Sessions.mkServed 0 ask asked.1) trace_served eq_refl) as [Hv _].
  exact (proj1 (Hv _ _ Ht)).
Defined.
End SignIn.
