(* ===== verification/Shutdown.v ===== *)
(** * Starting and stopping the services
      (spacedust/src/main.rs, slingshot/src/main.rs, slingshot/src/healthcheck.rs, ufos/src/main.rs, who-am-i/src/main.rs)

    The mains of spacedust and slingshot start their tasks in a [JoinSet] and
    wait for ctrl-c or for a task to end; then every task is asked to stop and
    has some time to do so, and what is left is aborted.  The main of ufos waits
    for its consumer only.  Shown here: such a process ends, on time, with no
    task left, and only when it was asked to or a task ended; and which tasks
    are cut off. *)

From S2P Require Import Prelude.

Module Mains.

(** ** A JoinSet under a token *)

Inductive Task : Type := Alive | Exited (ok : bool).
#[global] Instance Task_eq_dec : EqDecision Task.
Proof. solve_decision. Defined.

Inductive Phase : Type := Serving | Draining (deadline : Z) | Bye.
#[global] Instance Phase_eq_dec : EqDecision Phase.
Proof. solve_decision. Defined.

(** [aborted] are the tasks that [tasks.shutdown()] found alive. *)
Record Main : Type := mkMain {
  token : bool;
  tasks : gmap string Task;
  phase : Phase;
  aborted : list string
}.

(** The time a service gives its tasks, in seconds, the tasks it starts, and
    those it spawns on the way out. *)
Record Plan : Type := mkPlan {
  pl_tasks : list string;
  pl_closing : list string;
  pl_grace : Z
}.

Definition spawn (names : list string) (ts : gmap string Task) : gmap string Task :=
  foldl (λ ts name, <[name := Alive]> ts) ts names.

Definition main_start (p : Plan) : Main := mkMain false (spawn (pl_tasks p) ∅) Serving [].

Definition spacedust : Plan := mkPlan ["server"; "consumer"; "delay"] [] 3.
Definition slingshot (healthcheck : option string) : Plan :=
  mkPlan (["identity"; "server"; "consumer"] ++ (match healthcheck with Some _ => ["healthcheck"] | None => [] end)) ["firehose cache"] 30.

(** What happens: ctrl-c, a task returns or panics, main is polled.  [pick] says
    which ready branch [select!] takes, [joined] which finished task [join_next]
    returns. *)
Inductive Event : Type :=
  | CtrlC
  | Exit (name : string) (ok : bool)
  | Poll (now : Z) (pick : bool) (joined : string).

Definition exited (ts : gmap string Task) (name : string) : bool :=
  match ts !! name with Some (Exited _) => true | _ => false end.
Definition alive (ts : gmap string Task) : gmap string Task := filter (λ e, e.2 = Alive) ts.

(** The first [select!]: the token, or a task that ended. *)
Definition poll_serving (p : Plan) (now : Z) (pick : bool) (joined : string) (m : Main) : Main :=
  let drain ts := mkMain true (spawn (pl_closing p) ts) (Draining (now + pl_grace p)) (aborted m) in
  if token m && (pick || negb (exited (tasks m) joined)) then drain (tasks m)
  else if exited (tasks m) joined then drain (delete joined (tasks m))
  else m.

(** The second: join everything, or the time is over. *)
Definition poll_draining (now deadline : Z) (m : Main) : Main :=
  let rest := alive (tasks m) in
  if decide (rest = ∅) then mkMain (token m) ∅ Bye (aborted m)
  else if decide (deadline ≤ now)%Z then mkMain (token m) ∅ Bye (aborted m ++ (map_to_list rest).*1)
  else mkMain (token m) rest (Draining deadline) (aborted m).

Definition step (p : Plan) (m : Main) (e : Event) : Main :=
  match e with
  | CtrlC => mkMain true (tasks m) (phase m) (aborted m)
  | Exit name ok =>
      match tasks m !! name with
      | Some Alive => mkMain (token m) (<[name := Exited ok]> (tasks m)) (phase m) (aborted m)
      | _ => m
      end
  | Poll now pick joined =>
      match phase m with
      | Serving => poll_serving p now pick joined m
      | Draining deadline => poll_draining now deadline m
      | Bye => m
      end
  end.
Definition run (p : Plan) (es : list Event) : Main := foldl (step p) (main_start p) es.

(** ** The process ends *)

Section Runs.
Context (p : Plan).

(** Somebody asked for the end. *)
Definition asks (e : Event) : bool :=
  match e with CtrlC => true | Exit name _ => bool_decide (name ∈ pl_tasks p) | Poll _ _ _ => false end.

Lemma spawn_lookup names ts name :
  spawn names ts !! name = if decide (name ∈ names) then Some Alive else ts !! name.
Proof.
  unfold spawn. revert ts; induction names as [|n names IH]; intros ts; [done|]. cbn [foldl]. rewrite IH.
  destruct (decide (name ∈ names)) as [Hin|Hin]; [by rewrite decide_True by (by right)|].
  destruct (decide (name = n)) as [->|Hne].
  - rewrite lookup_insert_eq, decide_True by (by left). done.
  - rewrite lookup_insert_ne by done. rewrite decide_False by (rewrite elem_of_cons; naive_solver). done.
Qed.

Record inv (m : Main) : Prop := {
  inv_token : phase m ≠ Serving → token m = true;
  inv_gone : phase m = Bye → tasks m = ∅;
  inv_serving : phase m = Serving → ∀ name, is_Some (tasks m !! name) ↔ name ∈ pl_tasks p;
  inv_aborted : phase m ≠ Bye → aborted m = []
}.

Lemma inv_start : inv (main_start p).
Proof.
  constructor; simpl; try done. intros _ name. rewrite spawn_lookup. destruct (decide _) as [?|Hn]; [by split|].
  rewrite lookup_empty. split; [by intros [? ?]|done].
Qed.

Lemma inv_step m e : inv m → inv (step p m e).
Proof.
  intros Hm. pose proof Hm as [Ht Hg Hs Ha]. destruct e as [|name ok|now pick joined]; simpl.
  - constructor; simpl; auto.
  - destruct (tasks m !! name) as [[]|] eqn:E; [|done|done]. constructor; simpl; auto.
    + intros Hb. rewrite (Hg Hb), lookup_empty in E. done.
    + intros Hb name'. rewrite <- (Hs Hb name'). destruct (decide (name' = name)) as [->|Hne].
      * rewrite lookup_insert_eq, E. split; eauto.
      * by rewrite lookup_insert_ne.
  - destruct (phase m) as [|deadline|] eqn:E; [| |done].
    + unfold poll_serving. destruct (token m && _); [|destruct (exited _ _); [|done]]; constructor; simpl; auto; done.
    + unfold poll_draining. destruct (decide _); [|destruct (decide _)]; constructor; simpl; auto; try done; intros _; apply Ht; done.
Qed.
Lemma inv_run es : inv (run p es).
Proof.
  unfold run. induction es as [|e es IH] using rev_ind; [apply inv_start|]. rewrite foldl_app. by apply inv_step.
Qed.

(** Main leaves its first wait only for a reason. *)
Lemma unasked es : Forall (λ e, asks e = false) es →
  phase (run p es) = Serving ∧ token (run p es) = false ∧ ∀ name, name ∈ pl_tasks p → tasks (run p es) !! name = Some Alive.
Proof.
  unfold run. induction es as [|e es IH] using rev_ind.
  { intros _. simpl. split_and!; [done|done|]. intros name Hn. by rewrite spawn_lookup, decide_True. }
  intros [Hes [He _]%Forall_cons]%Forall_app. rewrite foldl_app. cbn [foldl]. destruct (IH Hes) as (Hp & Ht & Ha).
  set (m := foldl _ _ es) in *. assert (Hi : inv m) by apply inv_run. destruct e as [|name ok|now pick joined]; simpl in *; [done| |].
  - destruct (tasks m !! name) as [[]|] eqn:E; [|done|done]. apply bool_decide_eq_false in He.
    destruct He. apply (inv_serving m Hi Hp). by rewrite E.
  - rewrite Hp. unfold poll_serving. rewrite Ht. simpl. unfold exited. destruct (tasks m !! joined) as [[]|] eqn:E; [done| |done].
    assert (Hj : joined ∈ pl_tasks p) by (apply (inv_serving m Hi Hp); by rewrite E). rewrite (Ha _ Hj) in E. done.
Qed.

(** A poll that finds a reason starts the shutdown, if [join_next] returns a
    task that ended when there is one. *)
Definition fair (m : Main) (joined : string) : Prop := (∃ name, exited (tasks m) name = true) → exited (tasks m) joined = true.

Lemma asked_drains m now pick joined :
  phase m = Serving → fair m joined → token m = true ∨ (∃ name, exited (tasks m) name = true) →
  phase (step p m (Poll now pick joined)) = Draining (now + pl_grace p).
Proof.
  intros Hp Hf Hr. simpl. rewrite Hp. unfold poll_serving. destruct (exited (tasks m) joined) eqn:Ej.
  - by destruct (token m), pick.
  - destruct Hr as [->|Hr]; [by destruct pick|]. apply Hf in Hr. congruence.
Qed.

Lemma draining_stays d es m : phase m = Draining d → phase (foldl (step p) m es) = Draining d ∨ phase (foldl (step p) m es) = Bye.
Proof.
  intros Hm. induction es as [|e es IH] using rev_ind; [by left|]. rewrite foldl_app. cbn [foldl].
  revert IH. generalize (foldl (step p) m es). intros m' [Hm'|Hm'].
  - destruct e as [|name ok|now pick joined]; simpl; [by left|destruct (tasks m' !! name) as [[]|]; by left|]. rewrite Hm'.
    unfold poll_draining. destruct (decide _); [by right|]. destruct (decide _); [by right|by left].
  - destruct e as [|name ok|now pick joined]; simpl; [by right|destruct (tasks m' !! name) as [[]|]; by right|]. rewrite Hm'. by right.
Qed.
Lemma deadline_ends d now pick joined m :
  phase m = Draining d ∨ phase m = Bye → (d ≤ now)%Z ∨ alive (tasks m) = ∅ → phase (step p m (Poll now pick joined)) = Bye.
Proof.
  intros [Hm|Hm] Hd; simpl; rewrite Hm; [|done]. unfold poll_draining. destruct (decide _); [done|].
  destruct Hd as [Hd|Hd]; [|done]. by rewrite decide_True.
Qed.

(** C36. The process ends when it should, and leaves nothing behind.  While
    nobody asks (no ctrl-c, no task of the service ends), main waits with all
    tasks running.  Once main has seen the token cancelled or a task ended,
    every task is asked to stop, and whatever happens then, the process has
    ended when main is next polled after the grace period, or earlier if all
    tasks are done.  When it has ended no task is left; tasks are aborted only
    on the way out. *)
Theorem main_shuts_down es1 :
  let m1 := run p es1 in
  (Forall (λ e, asks e = false) es1 → phase m1 = Serving ∧ token m1 = false ∧ ∀ name, name ∈ pl_tasks p → tasks m1 !! name = Some Alive) ∧
  (∀ t1 pick1 j1, phase m1 = Serving → fair m1 j1 → token m1 = true ∨ (∃ name, exited (tasks m1) name = true) →
     ∀ es2, let m2 := run p (es1 ++ Poll t1 pick1 j1 :: es2) in
       token m2 = true ∧
       ∀ t2 pick2 j2, (t1 + pl_grace p ≤ t2)%Z ∨ alive (tasks m2) = ∅ → phase (run p (es1 ++ Poll t1 pick1 j1 :: es2 ++ [Poll t2 pick2 j2])) = Bye) ∧
  (phase m1 = Bye → tasks m1 = ∅ ∧ token m1 = true) ∧
  (phase m1 ≠ Bye → aborted m1 = []).
Proof.
  cbv zeta. pose proof (inv_run es1) as Hi. split_and!.
  - apply unasked.
  - intros t1 pick1 j1 Hp Hf Hr es2. pose proof (asked_drains (run p es1) t1 pick1 j1 Hp Hf Hr) as Hd.
    pose proof (draining_stays _ es2 _ Hd) as Hstay.
    assert (E : run p (es1 ++ Poll t1 pick1 j1 :: es2) = foldl (step p) (step p (run p es1) (Poll t1 pick1 j1)) es2) by (unfold run; by rewrite foldl_app).
    split.
    + apply (inv_token _ (inv_run _)). rewrite E. by destruct Hstay as [-> | ->].
    + intros t2 pick2 j2 Ht. rewrite app_comm_cons, app_assoc. unfold run at 1. rewrite foldl_app. fold (run p (es1 ++ Poll t1 pick1 j1 :: es2)).
      cbn [foldl]. apply (deadline_ends (t1 + pl_grace p)); [by rewrite E|done].
  - intros Hb. split; [by apply (inv_gone _ Hi)|]. apply (inv_token _ Hi). by rewrite Hb.
  - apply (inv_aborted _ Hi).
Qed.
End Runs.

(** ** healthcheck.rs *)

Inductive Health : Type := Sending | Sleeping (wake : Z) | Stopped.

(** One poll of the task: [responded] if the request is answered or failed.  The
    sleep between two requests does not look at the token. *)
Definition healthcheck_poll (now : Z) (cancelled responded pick : bool) (h : Health) : Health :=
  match h with
  | Sending =>
      if responded && (pick || negb cancelled) then Sleeping (now + 51)
      else if cancelled then Stopped else Sending
  | Sleeping wake => if decide (wake ≤ now)%Z then Sending else h
  | Stopped => Stopped
  end.

(** A health check that waits for its answer stops when it is asked to. *)
Lemma healthcheck_stops now pick : healthcheck_poll now true false pick Sending = Stopped.
Proof. by destruct pick. Qed.

(** Ctrl-c, and all tasks but the health check are done. *)
Definition leaving (t1 : Z) : list Event :=
  [CtrlC; Poll t1 true ""; Exit "identity" true; Exit "server" true; Exit "consumer" true; Exit "firehose cache" true].

Lemma leaving_state t1 : ∃ ts, run (slingshot (Some "url")) (leaving t1) = mkMain true ts (Draining (t1 + 30)) [] ∧
  (map_to_list (alive ts)).*1 = ["healthcheck"] ∧ alive ts ≠ ∅.
Proof. eexists. split; [reflexivity|]. split; [by vm_compute|]. intros E. by vm_compute in E. Qed.

(** One that sleeps does not, for up to 51 seconds, and main gives its tasks 30:
    after a ping less than 21 seconds before the shutdown it is still asleep at
    the deadline, whatever it is polled with; main then waits the whole grace
    period for it, although all other tasks are done, and aborts it. *)
Theorem healthcheck_cut_off t0 t1 polls :
  (t0 ≤ t1 < t0 + 21)%Z → Forall (λ x : Z * bool * bool * bool, x.1.1.1 ≤ t1 + 30)%Z polls →
  foldl (λ h x, healthcheck_poll x.1.1.1 x.1.1.2 x.1.2 x.2 h) (healthcheck_poll t0 false true true Sending) polls = Sleeping (t0 + 51) ∧
  (∀ t pick j, (t < t1 + 30)%Z → phase (run (slingshot (Some "url")) (leaving t1 ++ [Poll t pick j])) = Draining (t1 + 30)) ∧
  aborted (run (slingshot (Some "url")) (leaving t1 ++ [Poll (t1 + 30) true ""])) = ["healthcheck"].
Proof.
  intros Ht Hp. destruct (leaving_state t1) as (ts & E & Ha & Hne). unfold run in *. setoid_rewrite foldl_app. rewrite E.
  cbn [foldl step phase]. unfold poll_draining. cbn [tasks token aborted]. split_and!.
  - change (healthcheck_poll t0 false true true Sending) with (Sleeping (t0 + 51)). induction Hp as [|x polls Hx Hp IH]; [done|].
    cbn [foldl healthcheck_poll]. rewrite decide_False by (cbn beta in Hx; lia). exact IH.
  - intros t pick j Hlt. by rewrite (decide_False (P := alive ts = ∅)), decide_False by (done || lia).
  - rewrite (decide_False (P := alive ts = ∅)), decide_True by (done || lia). cbn [aborted]. by rewrite Ha.
Qed.

(** ** ufos: [go] *)

Record Go : Type := mkGo {
  whatever_tasks : gmap string Task;
  consumer_tasks : gmap string Task;
  outcome : option (result string ())
}.

(** [--pause-writer] serves only; connecting, and preparing the background
    tasks, can fail, which drops what was started. *)
Definition go_start (pause_writer connected : bool) : Go :=
  if pause_writer then mkGo (spawn ["server"] ∅) ∅ None
  else if connected then mkGo (spawn ["server"; "rollup"; "status"] ∅) (spawn ["consumer"] ∅) None
  else mkGo ∅ ∅ (Some (Err "could not start the consumer")).

Definition exits (name : string) (ok : bool) (ts : gmap string Task) : gmap string Task :=
  match ts !! name with Some Alive => <[name := Exited ok]> ts | _ => ts end.

(** [join_all] waits for every task of its set. *)
Definition go_poll (pause_writer : bool) (g : Go) : Go :=
  match outcome g with
  | Some _ => g
  | None =>
      if pause_writer then
        if decide (alive (whatever_tasks g) = ∅)
        then mkGo ∅ ∅ (Some (if decide (filter (λ e : string * Task, e.2 = Exited false) (whatever_tasks g) = ∅) then Ok () else Err "server ended"))
        else g
      else if decide (alive (consumer_tasks g) = ∅) then mkGo ∅ ∅ (Some (Ok ())) else g
  end.
Definition go_step (pause_writer : bool) (g : Go) (e : option (string * bool)) : Go :=
  match e with
  | Some (name, ok) => mkGo (exits name ok (whatever_tasks g)) (exits name ok (consumer_tasks g)) (outcome g)
  | None => go_poll pause_writer g
  end.

Lemma exits_other name ok (ts : gmap string Task) x : x ≠ name → exits name ok ts !! x = ts !! x.
Proof. intros Hne. unfold exits. destruct (ts !! name) as [[]|]; try done. by rewrite lookup_insert_ne. Qed.

Lemma go_inv es :
  let g := foldl (go_step false) (go_start false true) es in
  (outcome g = None ∧ ∃ t, consumer_tasks g = {["consumer" := t]} ∧ (t = Alive ↔ ∀ ok, Some ("consumer", ok) ∉ es)) ∨
  (outcome g = Some (Ok ()) ∧ whatever_tasks g = ∅ ∧ consumer_tasks g = ∅ ∧ ∃ ok, Some ("consumer", ok) ∈ es).
Proof.
  cbv zeta. induction es as [|e es IH] using rev_ind.
  { left. split; [done|]. exists Alive. split; [done|]. split; [|done]. intros _ ok. apply not_elem_of_nil. }
  rewrite foldl_app. cbn [foldl]. revert IH. generalize (foldl (go_step false) (go_start false true) es). intros g.
  intros [(Ho & t & Hc & Ht)|(Ho & Hw & Hc & ok & Hok)].
  - destruct e as [[name ok]|]; simpl.
    + left. split; [done|]. rewrite Hc. unfold exits. destruct (decide (name = "consumer")) as [->|Hne].
      * rewrite lookup_singleton_eq. assert (Hin : ¬ ∀ ok', Some ("consumer", ok') ∉ es ++ [Some ("consumer", ok)])
          by (intros Hn; apply (Hn ok), elem_of_app; right; by left).
        destruct t as [|ok0].
        -- exists (Exited ok). split; [by rewrite insert_singleton_eq|]. naive_solver.
        -- exists (Exited ok0). split; [done|]. naive_solver.
      * rewrite lookup_singleton_ne by done. exists t. split; [done|]. rewrite Ht. split; intros Hn ok'.
        -- rewrite not_elem_of_app. split; [done|]. intros [= E _]%list_elem_of_singleton. by subst name.
        -- specialize (Hn ok'). rewrite not_elem_of_app in Hn. by destruct Hn.
    + unfold go_poll. rewrite Ho, Hc. destruct t as [|ok0].
      * left. rewrite decide_False by (intros E; by vm_compute in E). split; [done|]. exists Alive. split; [done|]. split; [|done].
        intros _ ok'. rewrite not_elem_of_app. split; [by apply Ht|]. by intros [=]%list_elem_of_singleton.
      * right. rewrite decide_True by (by vm_compute). split_and!; [done|done|done|].
        destruct (decide (Some ("consumer", true) ∈ es)) as [Hin|H1]; [exists true; apply elem_of_app; by left|].
        destruct (decide (Some ("consumer", false) ∈ es)) as [Hin|H2]; [exists false; apply elem_of_app; by left|].
        exfalso. assert (Exited ok0 = Alive) by (apply Ht; by intros []). done.
  - right. assert (Hin : ∃ ok, Some ("consumer", ok) ∈ es ++ [e]) by (exists ok; apply elem_of_app; by left).
    destruct e as [[name ok']|]; simpl; [rewrite Hw, Hc|unfold go_poll; by rewrite Ho]. by rewrite Ho.
Qed.

(** With the writer on, the process lives exactly as long as its consumer: that
    the server, the rollup or the status task end changes nothing, whatever the
    order; when the consumer has ended the next poll ends the others. *)
Theorem go_follows_consumer es :
  let g := foldl (go_step false) (go_start false true) es in
  ((∀ ok, Some ("consumer", ok) ∉ es) → outcome g = None ∧ consumer_tasks g !! "consumer" = Some Alive) ∧
  (∀ ok, Some ("consumer", ok) ∈ es → outcome (go_step false g None) = Some (Ok ()) ∧ whatever_tasks (go_step false g None) = ∅).
Proof.
  cbv zeta. pose proof (go_inv es) as Hinv. cbv zeta in Hinv. revert Hinv.
  generalize (foldl (go_step false) (go_start false true) es). intros g [(Ho & t & Hc & Ht)|(Ho & Hw & Hc & ok & Hok)]; split.
  - intros Hn. rewrite Hc, lookup_singleton_eq. apply Ht in Hn as ->. done.
  - intros ok Hok. destruct t as [|ok0]; [destruct (proj1 Ht eq_refl ok Hok)|]. simpl. unfold go_poll. rewrite Ho, Hc.
    by rewrite decide_True by (by vm_compute).
  - intros Hn. by destruct (Hn ok).
  - intros _ _. simpl. unfold go_poll. by rewrite Ho.
Qed.

(** ** who-am-i: the arguments *)

Record Args : Type := mkArgs {
  arg_base_url : option string;
  arg_bind : string;
  arg_dev : bool;
  arg_oauth_private_key : option string;
  arg_allowed_hosts : list string
}.

(** The base url to serve, or the panic of the start. *)
Definition check_args (a : Args) : result string string :=
  let base := match arg_base_url a with
              | Some url => Ok url
              | None => if arg_dev a then Ok ("http://" +:+ arg_bind a) else Err "not in --dev mode so --base-url is required"
              end in
  base ←? base;
  if negb (arg_dev a) && bool_decide (arg_oauth_private_key a = None) then Err "--at-oauth-key is required except in --dev"
  else if bool_decide (arg_allowed_hosts a = []) then Err "at least one --allowed-host host must be set"
  else Ok base.

(** The service starts exactly with a host to allow and, unless in dev mode, a
    base url and a key. *)
Lemma check_args_ok a base : check_args a = Ok base ↔
  arg_allowed_hosts a ≠ [] ∧
  (arg_base_url a = Some base ∨ arg_base_url a = None ∧ arg_dev a = true ∧ base = "http://" +:+ arg_bind a) ∧
  (arg_dev a = true ∨ is_Some (arg_oauth_private_key a)).
Proof.
  unfold check_args. destruct a as [[url|] bind [] [key|] [|h hosts]]; simpl; naive_solver.
Qed.

(** ** Concrete runs *)

(** The delay task of spacedust fails; the others stop when asked. *)
Lemma main_shuts_down_witness :
  phase (run spacedust ([Exit "delay" false] ++ Poll 5 false "delay" :: [Exit "server" true; Exit "consumer" true] ++ [Poll 6 true ""])) = Bye.
Proof.
  refine (proj2 (proj1 (proj2 (main_shuts_down spacedust [Exit "delay" false])) 5%Z false "delay" _ _ _ [Exit "server" true; Exit "consumer" true]) 6%Z true "" _).
  - reflexivity.
  - intros _. reflexivity.
  - right. exists "delay". reflexivity.
  - right. vm_compute. reflexivity.
Defined.

Lemma healthcheck_cut_off_witness :
  aborted (run (slingshot (Some "url")) (leaving 10 ++ [Poll (10 + 30) true ""])) = ["healthcheck"].
Proof. apply (healthcheck_cut_off 0 10 []); [lia|constructor]. Defined.
End Mains.
