(* ===== verification/WhoAmIKeys.v ===== *)
(** * who-am-i: start-up, keys and client metadata
      (who-am-i/src/main.rs, jwt.rs, oauth.rs, server.rs)

    From the arguments to a running server: the key that signs tokens, the key
    of the OAuth client, the documents that publish both, and the routes.  The
    key formats, signatures and the OAuth client of atrium are behind an
    interface.  Shown here: whatever the service was started with, it publishes
    no private key, and every token it ever hands out verifies with the one
    published key of its id and names a DID that signed in; and the documents
    and pages that its client metadata points to are routes of the server. *)

From S2P Require Import Prelude RustStr Bytes RocksApi WhoAmITasks.
From S2P Require Import WhoAmIServer WhoAmISessions WhoAmIRuns Shutdown.

(** ** Third-party types *)

Inductive Class_ : Type := Signing | Encryption.

(** [jose_jwk::Key]: an elliptic curve key with or without its private part
    [d], or a key of another kind. *)
Inductive JwkKey (PublicKey PrivateKey : Type) : Type :=
  | Ec (xy : PublicKey) (d : option PrivateKey)
  | OtherKey.
#[global] Arguments Ec {PublicKey PrivateKey} xy d.
#[global] Arguments OtherKey {PublicKey PrivateKey}.

Record Jwk (K : Type) : Type := mkJwk { jwk_key : K; kid : option string; cls : option Class_ }.
#[global] Arguments mkJwk {K} _ _ _.
#[global] Arguments jwk_key {K} _.
#[global] Arguments kid {K} _.
#[global] Arguments cls {K} _.

Inductive Algorithm : Type := ES256 | OtherAlgorithm.
Record Header : Type := mkHeader { alg : Algorithm; hdr_kid : option string }.
#[global] Instance Algorithm_eq_dec : EqDecision Algorithm.
Proof. solve_decision. Defined.
#[global] Instance Header_eq_dec : EqDecision Header.
Proof. solve_decision. Defined.

(** What [OAuthClient::new] is given, and what the client tells about itself. *)
Inductive AuthMethod : Type := PrivateKeyJwt | NoAuth.
Inductive GrantType : Type := AuthorizationCode | RefreshToken.
Inductive Scope : Type := Atproto | OtherScope.
Inductive ClientMetadata : Type :=
  | AtprotoClientMetadata (client_id : string) (client_uri : option string) (redirect_uris : list string)
      (token_endpoint_auth_method : AuthMethod) (grant_types : list GrantType) (scopes : list Scope)
      (jwks_uri : option string) (token_endpoint_auth_signing_alg : option string)
  | AtprotoLocalhostClientMetadata (redirect_uris : option (list string)) (scopes : option (list Scope)).
Record OAuthClientMetadata : Type := mkMetadata {
  md_client_id : string;
  md_redirect_uris : list string;
  md_jwks_uri : option string
}.

Class KeyApi : Type := {
  PrivateKey : Type;
  PublicKey : Type;
  public : PrivateKey → PublicKey;
  utf8_ok : string → bool;
  (** jsonwebtoken's [EncodingKey::from_ec_pem], p256's [from_pkcs8_pem]. *)
  from_ec_pem : string → option PrivateKey;
  from_pkcs8_pem : string → option PrivateKey;
  key_from : PrivateKey → JwkKey PublicKey PrivateKey;
  sign : PrivateKey → Header → Claims → option string;
  (** What a client does with a token and a published key. *)
  verify : PublicKey → string → option (Header * Claims);
  OAuthClient : Type;
  client_new : ClientMetadata → option (list (Jwk (JwkKey PublicKey PrivateKey))) → option OAuthClient;
  client_md : OAuthClient → OAuthClientMetadata;
  client_jwks : OAuthClient → list (Jwk (JwkKey PublicKey PrivateKey));
  cookie_key_ok : string → bool
}.

Section Public.
Context `{KeyApi}.
(** A key as it may be shown to anyone. *)
Definition is_public (j : Jwk (JwkKey PublicKey PrivateKey)) : Prop :=
  match jwk_key j with Ec _ d => d = None | OtherKey => False end.
Definition by_kid (id : string) (js : list (Jwk (JwkKey PublicKey PrivateKey))) : list (Jwk (JwkKey PublicKey PrivateKey)) :=
  filter (λ j, kid j = Some id) js.
End Public.

(** Both parsers read the same key from the same file; a signature verifies
    with the public half; atrium keeps the metadata it is given and publishes
    the public halves of its keys. *)
Class KeyLaws `{KeyApi} : Type := {
  same_pem s k k' : from_ec_pem s = Some k → from_pkcs8_pem s = Some k' → k' = k;
  key_from_ec k : key_from k = Ec (public k) (Some k);
  verify_sign k h c t : sign k h c = Some t → verify (public k) t = Some (h, c);
  md_confidential id uri redirects am gt sc jwks sa keys c :
    client_new (AtprotoClientMetadata id uri redirects am gt sc jwks sa) keys = Some c →
    client_md c = mkMetadata id redirects jwks;
  md_localhost redirects sc keys c :
    client_new (AtprotoLocalhostClientMetadata (Some redirects) sc) keys = Some c → md_redirect_uris (client_md c) = redirects;
  jwks_public md keys c : client_new md keys = Some c → Forall is_public (client_jwks c);
  jwks_kids md keys c : client_new md keys = Some c → map kid (client_jwks c) = map kid (default [] keys)
}.

Module Keys.

(** ** Tokens: jwt.rs *)

Inductive TokensSetupError : Type := ReadPrivateKey | PrivateKeyError | ReadJwks | DecodeJwks.
Inductive AuthSetupError : Type := AtriumClientError | HickoryResolverError.
Inductive SetupFailure : Type :=
  | TokensFailed (e : TokensSetupError)
  | AuthFailed (e : AuthSetupError)
  | Panics (msg : string).

Section Setup.
Context `{KeyApi}.
Abbreviation PublishedKey := (Jwk (JwkKey PublicKey PrivateKey)).

Record Tokens : Type := mkTokens { encoding_key : PrivateKey; tokens_jwk : PublishedKey }.

(** [fs::read] of the file is an argument. *)
Definition from_files (read : string → option string) (priv_f : string) : result SetupFailure Tokens :=
  match read priv_f with
  | None => Err (TokensFailed ReadPrivateKey)
  | Some private_key_data =>
      match from_ec_pem private_key_data with
      | None => Err (TokensFailed PrivateKeyError)
      | Some encoding_key =>
          if negb (utf8_ok private_key_data) then Err (Panics "from_utf8")
          else match from_pkcs8_pem private_key_data with
               | None => Err (Panics "to get private key")
               | Some secret_key =>
                   let jwk := mkJwk (key_from secret_key) (Some "who-am-i-00") (Some Signing) in
                   match jwk_key jwk with
                   | Ec xy _ => Ok (mkTokens encoding_key (mkJwk (Ec xy None) (kid jwk) (cls jwk)))
                   | OtherKey => Err (Panics "not implemented")
                   end
               end
      end
  end.

(** The part of [mint] after the claims are made. *)
Definition encode_claims (self : Tokens) (claims : Claims) : option string :=
  sign (encoding_key self) (mkHeader ES256 (Some "who-am-i-00")) claims.

(** ** The OAuth client: oauth.rs *)

Definition READONLY_SCOPE : list Scope := [Atproto].

Definition oauth_new (read : string → option string) (dns_ok : bool) (oauth_private_key : option string) (base : string)
    : result SetupFailure OAuthClient :=
  if negb dns_ok then Err (AuthFailed HickoryResolverError)
  else
    match oauth_private_key with
    | Some path =>
        match read path with
        | None => Err (Panics "read")
        | Some key_contents =>
            if negb (utf8_ok key_contents) then Err (Panics "from_utf8")
            else match from_pkcs8_pem key_contents with
                 | None => Err (Panics "to get private key")
                 | Some secret_key =>
                     let key := mkJwk (key_from secret_key) (Some "at-oauth-00") (Some Signing) in
                     match client_new
                             (AtprotoClientMetadata (base +:+ "/client-metadata.json") (Some base) [base +:+ "/authorized"]
                                PrivateKeyJwt [AuthorizationCode; RefreshToken] READONLY_SCOPE
                                (Some (base +:+ "/.well-known/jwks.json")) (Some "ES256"))
                             (Some [key]) with
                     | Some client => Ok client
                     | None => Err (AuthFailed AtriumClientError)
                     end
                 end
        end
    | None =>
        match client_new (AtprotoLocalhostClientMetadata (Some ["http://127.0.0.1:9997/authorized"]) (Some READONLY_SCOPE)) None with
        | Some client => Ok client
        | None => Err (AuthFailed AtriumClientError)
        end
    end.

(** ** The server: server.rs *)

Inductive Endpoint : Type :=
  | HelloPage | Favicon | Css | PromptPage | UserInfo | ClientMetadataDoc | StartOAuth | CompleteOAuth | Disconnect | JwksDoc.

(** Method, path and handler. *)
Definition routes : list (string * string * Endpoint) :=
  [("GET", "/", HelloPage); ("GET", "/favicon.ico", Favicon); ("GET", "/style.css", Css); ("GET", "/prompt", PromptPage);
   ("POST", "/user-info", UserInfo); ("GET", "/client-metadata.json", ClientMetadataDoc); ("GET", "/auth", StartOAuth);
   ("GET", "/authorized", CompleteOAuth); ("POST", "/disconnect", Disconnect); ("GET", "/.well-known/jwks.json", JwksDoc)].

Record AppState : Type := mkApp {
  app_tokens : Tokens;
  app_oauth : OAuthClient;
  app_allowed_hosts : gset string
}.

(** What a start finds around it: files, name servers, templates. *)
Record Env : Type := mkEnv { env_read : string → option string; env_dns : bool; env_templates : bool }.

(** [serve] up to the listener. *)
Definition serve_state (env : Env) (app_secret : string) (oauth_private_key : option string) (tokens : Tokens)
    (base : string) (allowed_hosts : list string) : result SetupFailure AppState :=
  if negb (env_templates env) then Err (Panics "templates")
  else
    oauth ←? oauth_new (env_read env) (env_dns env) oauth_private_key base;
    if negb (cookie_key_ok app_secret) then Err (Panics "cookie key")
    else Ok (mkApp tokens oauth (list_to_set allowed_hosts)).

Definition client_metadata (app : AppState) : OAuthClientMetadata := client_md (app_oauth app).

Definition jwks (app : AppState) : list PublishedKey := client_jwks (app_oauth app) ++ [tokens_jwk (app_tokens app)].

(** ** main.rs *)

Definition start (env : Env) (args : Mains.Args) (app_secret jwt_private_key : string) : result SetupFailure AppState :=
  match Mains.check_args args with
  | Err msg => Err (Panics msg)
  | Ok base =>
      tokens ←? from_files (env_read env) jwt_private_key;
      serve_state env app_secret (Mains.arg_oauth_private_key args) tokens base (Mains.arg_allowed_hosts args)
  end.
End Setup.
(** ** What is published *)

Section Published.
Context `{KeyLaws}.

Lemma from_files_ok read f tokens : from_files read f = Ok tokens →
  tokens_jwk tokens = mkJwk (Ec (public (encoding_key tokens)) None) (Some "who-am-i-00") (Some Signing).
Proof.
  unfold from_files. destruct (read f) as [data|]; [|done]. destruct (from_ec_pem data) as [k|] eqn:Ek; [|done].
  destruct (utf8_ok data); [|done]. cbn [negb]. destruct (from_pkcs8_pem data) as [k'|] eqn:Ek'; [|done]. cbn zeta. cbn [jwk_key kid cls].
  rewrite (same_pem _ _ _ Ek Ek'), key_from_ec. by intros [= <-].
Qed.

(** The client of a start, with the ids of its keys. *)
Lemma oauth_new_ok read dns key base client : oauth_new read dns key base = Ok client →
  Forall is_public (client_jwks client) ∧
  map kid (client_jwks client) = match key with Some _ => [Some "at-oauth-00"] | None => [] end ∧
  match key with
  | Some _ => client_md client = mkMetadata (base +:+ "/client-metadata.json") [base +:+ "/authorized"] (Some (base +:+ "/.well-known/jwks.json"))
  | None => md_redirect_uris (client_md client) = ["http://127.0.0.1:9997/authorized"]
  end.
Proof.
  unfold oauth_new. destruct dns; [|done]. cbn [negb]. destruct key as [path|].
  - destruct (read path) as [data|]; [|done]. destruct (utf8_ok data); [|done]. cbn [negb].
    destruct (from_pkcs8_pem data) as [k|]; [|done]. cbn zeta. destruct (client_new _ _) as [c|] eqn:E; [|done]. intros [= <-].
    split_and!; [by eapply jwks_public|by rewrite (jwks_kids _ _ _ E)|by eapply md_confidential].
  - destruct (client_new _ _) as [c|] eqn:E; [|done]. intros [= <-].
    split_and!; [by eapply jwks_public|by rewrite (jwks_kids _ _ _ E)|by eapply md_localhost].
Qed.

Lemma start_ok env args secret keyfile app : start env args secret keyfile = Ok app →
  ∃ base, Mains.check_args args = Ok base ∧ from_files (env_read env) keyfile = Ok (app_tokens app) ∧
    oauth_new (env_read env) (env_dns env) (Mains.arg_oauth_private_key args) base = Ok (app_oauth app) ∧
    app_allowed_hosts app = list_to_set (Mains.arg_allowed_hosts args).
Proof.
  unfold start. destruct (Mains.check_args args) as [base|]; [|done].
  destruct (from_files _ _) as [tokens|]; [|done]. cbn [result_bind]. unfold serve_state.
  destruct (env_templates env); [|done]. cbn [negb]. destruct (oauth_new _ _ _ _) as [c|] eqn:E; [|done]. cbn [result_bind].
  destruct (cookie_key_ok secret); [|done]. cbn [negb]. intros [= <-]. by exists base.
Qed.

Lemma by_kid_other id js : (∀ j, j ∈ js → kid j ≠ Some id) → by_kid id js = [].
Proof.
  intros Hj. unfold by_kid. induction js as [|j js IH]; [done|]. rewrite filter_cons_False by (apply Hj; by left).
  apply IH. intros j' Hj'. apply Hj. by right.
Qed.

Lemma jwks_ok env args secret keyfile app : start env args secret keyfile = Ok app →
  Forall is_public (jwks app) ∧
  by_kid "who-am-i-00" (jwks app) = [mkJwk (Ec (public (encoding_key (app_tokens app))) None) (Some "who-am-i-00") (Some Signing)].
Proof.
  intros (base & _ & Ht & Ho & _)%start_ok. apply from_files_ok in Ht. apply oauth_new_ok in Ho as (Hp & Hk & _).
  unfold jwks. rewrite Ht. split.
  - apply Forall_app. split; [done|]. by constructor.
  - unfold by_kid. rewrite filter_app. fold (by_kid "who-am-i-00" (client_jwks (app_oauth app))). rewrite by_kid_other; [done|].
    intros j Hj%list_elem_of_In%(in_map kid)%list_elem_of_In. rewrite Hk in Hj.
    destruct (Mains.arg_oauth_private_key args); [|by apply not_elem_of_nil in Hj]. apply list_elem_of_singleton in Hj. by rewrite Hj.
Qed.

(** C22. The keys and tokens of a running service: whatever it was started
    with, none of the keys it publishes has its private part; and in every run
    of it, a token on any page verifies with the one published key that has the
    id of its header, to the claims that it expires in thirty days and is for a
    DID that an OAuth callback returned in this or in an earlier request. *)
Theorem tokens_verify_publicly `{WhoAmILaws} env args secret keyfile app now tasks tr later earlier e :
  start env args secret keyfile = Ok app →
  (∀ c, jwt_encode c = encode_claims (app_tokens app) c) →
  Sessions.serves (app_allowed_hosts app) now tasks tr → tr = later ++ e :: earlier →
  Forall is_public (jwks app) ∧
  ∀ did token, Sessions.token_of (Sessions.sv_response e) = Some (did, token) →
    ∃ xy, by_kid "who-am-i-00" (jwks app) = [mkJwk (Ec xy None) (Some "who-am-i-00") (Some Signing)] ∧
      verify xy token = Some (mkHeader ES256 (Some "who-am-i-00"), mkClaims did (Sessions.sv_now e / 1000000 + 30 * 86400)) ∧
      Sessions.verified (e :: earlier) did.
Proof.
  intros Hs Henc Hrun Htr. destruct (jwks_ok _ _ _ _ _ Hs) as [Hpub Hkid]. split; [done|]. intros did token Ht.
  destruct (Sessions.sf_past _ _ (Sessions.serves_safe _ _ _ _ Hrun) _ _ _ Htr) as [tasks' So].
  destruct (Sessions.sd_token _ _ _ _ So did token Ht) as [Hv Hm]. unfold WhoAmI.mint in Hm. rewrite Henc in Hm.
  eexists. split_and!; [exact Hkid| |done]. by eapply verify_sign.
Qed.

(** The client metadata of a service with a key points to itself: its id, its
    key set and its redirect are the base url and a path that has a route, to
    the handler that answers with that document or completes the sign-in. *)
Theorem metadata_served env args secret keyfile app key :
  start env args secret keyfile = Ok app → Mains.arg_oauth_private_key args = Some key →
  ∃ base, Mains.check_args args = Ok base ∧
    ∃ p1 p2 p3, client_metadata app = mkMetadata (base +:+ p1) [base +:+ p2] (Some (base +:+ p3)) ∧
      ("GET", p1, ClientMetadataDoc) ∈ routes ∧ ("GET", p2, CompleteOAuth) ∈ routes ∧ ("GET", p3, JwksDoc) ∈ routes.
Proof.
  intros (base & Ha & _ & Ho & _)%start_ok Hkey. exists base. split; [done|]. rewrite Hkey in Ho. apply oauth_new_ok in Ho as (_ & _ & Hmd).
  eexists _, _, _. split; [exact Hmd|]. unfold routes. rewrite !elem_of_cons. split_and!; naive_solver.
Qed.

(** In dev mode a key that is given is not ignored: the service is the same
    confidential client as without dev mode, for the base url it has. *)
Theorem dev_key_used env args secret keyfile app key :
  Mains.arg_dev args = true → Mains.arg_oauth_private_key args = Some key → start env args secret keyfile = Ok app →
  md_client_id (client_metadata app) ≠ "" ∧ map kid (client_jwks (app_oauth app)) = [Some "at-oauth-00"] ∧
  is_Some (md_jwks_uri (client_metadata app)).
Proof.
  intros _ Hkey (base & Ha & _ & Ho & _)%start_ok. rewrite Hkey in Ho. apply oauth_new_ok in Ho as (_ & Hk & Hmd).
  unfold client_metadata. rewrite Hmd. cbn [md_client_id md_jwks_uri]. split_and!; [|done|by eexists]. by destruct base.
Qed.

(** Without a key, the redirect is to port 9997, wherever the server is bound. *)
Theorem dev_redirect_fixed env args secret keyfile app :
  Mains.arg_oauth_private_key args = None → start env args secret keyfile = Ok app →
  md_redirect_uris (client_metadata app) = ["http://127.0.0.1:9997/authorized"].
Proof. intros Hkey (base & _ & _ & Ho & _)%start_ok. rewrite Hkey in Ho. by apply oauth_new_ok in Ho as (_ & _ & Hmd). Qed.
End Published.

(** ** A concrete service *)

#[local] Instance plain_keys : KeyApi := {|
  PrivateKey := string;
  PublicKey := string;
  public k := "pub-" +:+ k;
  utf8_ok _ := true;
  from_ec_pem := strip_prefix "PEM:";
  from_pkcs8_pem := strip_prefix "PEM:";
  key_from k := Ec ("pub-" +:+ k) (Some k);
  sign k h c := if decide (h = mkHeader ES256 (Some "who-am-i-00") ∧ (exp c < u64_bound)%N)
                then Some ("pub-" +:+ k +:+ Reference.enc_u64 (exp c) +:+ sub c) else None;
  verify xy t := r ← strip_prefix xy t; '(e, s) ← Reference.dec_u64 r; Some (mkHeader ES256 (Some "who-am-i-00"), mkClaims s e);
  OAuthClient := OAuthClientMetadata * list (Jwk (JwkKey string string));
  client_new md keys :=
    Some (match md with
          | AtprotoClientMetadata id _ redirects _ _ _ jwks _ => mkMetadata id redirects jwks
          | AtprotoLocalhostClientMetadata redirects _ => mkMetadata "http://localhost" (default [] redirects) None
          end,
          map (λ j, mkJwk (Ec (match jwk_key j with Ec xy _ => xy | OtherKey => "" end) None) (kid j) (cls j)) (default [] keys));
  client_md := fst;
  client_jwks := snd;
  cookie_key_ok s := true
|}.

#[local] Instance plain_key_laws : KeyLaws.
Proof.
  constructor.
  - intros s k k'. cbn. congruence.
  - done.
  - intros k h c t. cbn. case_decide as Hd; [|done]. destruct Hd as [-> Hb]. intros [= <-].
    rewrite <- (str_app_assoc "pub-" k). rewrite strip_prefix_app. cbn [mbind option_bind].
    rewrite Reference.dec_enc_u64 by done. by destruct c.
  - by intros ?????????? [= <-].
  - by intros ???? [= <-].
  - intros md keys c [= <-]. cbn. apply Forall_forall. intros j (j' & -> & _)%list_elem_of_fmap. done.
  - intros md keys c [= <-]. cbn. rewrite map_map. done.
Qed.

Definition files (f : string) : option string :=
  if decide (f = "jwt.pem") then Some "PEM:k1" else if decide (f = "oauth.pem") then Some "PEM:k2" else None.
Definition args : Mains.Args := Mains.mkArgs (Some "https://who.example") "0.0.0.0:80" false (Some "oauth.pem") ["app.example"].
Definition tokens : Tokens := mkTokens ("k1" : PrivateKey) (mkJwk (Ec ("pub-k1" : PublicKey) None) (Some "who-am-i-00") (Some Signing)).
Definition app : AppState :=
  match start (mkEnv files true true) args "" "jwt.pem" with
  | Ok a => a
  | Err _ => mkApp tokens (mkMetadata "" [] None, []) ∅
  end.

(** The interface of the sign-in with this signing key. *)
#[local] Instance signing_api : WhoAmIApi := {|
  did_ok s := match strip_prefix "did:" s with Some _ => true | None => false end;
  value_trimmed s := s;
  url_parse s := match strip_prefix "https://" s with Some h => Some (mkUrl (Some h) s) | None => None end;
  jwt_encode := encode_claims (app_tokens app);
  Jar := gmap string string * gmap string (option string);
  from_headers b := (b, ∅);
  jar_get j n := match j.2 !! n with Some o => o | None => j.1 !! n end;
  jar_add j n v := (j.1, <[n := Some v]> j.2);
  jar_remove j n := (j.1, <[n := None]> j.2);
  jar_delta j := j.2
|}.
#[local] Instance signing_laws : WhoAmILaws.
Proof.
  constructor; try done.
  - intros j n v m. cbn. destruct (decide (m = n)) as [->|]; [by rewrite lookup_insert_eq|by rewrite lookup_insert_ne].
  - intros j n m. cbn. destruct (decide (m = n)) as [->|]; [by rewrite lookup_insert_eq|by rewrite lookup_insert_ne].
  - intros b j n Hj. cbn. assert (Eb : j.1 = b) by (by induction Hj). by rewrite Eb.
Qed.

(** A user signs in, and the prompt of an allowed page shows the token. *)
Definition signed_in := WhoAmI.route 0 (app_allowed_hosts app) SignIn.sign_in TaskMap.init.
Definition shown := WhoAmI.route 0 (app_allowed_hosts app) SignIn.ask signed_in.2.
Definition service_trace : list Sessions.Served :=
  [Sessions.mkServed 0 SignIn.ask shown.1; Sessions.mkServed 0 SignIn.sign_in signed_in.1].

Lemma service_trace_served : Sessions.serves (app_allowed_hosts app) 0 shown.2 service_trace.
Proof.
  apply (Sessions.serves_request (app_allowed_hosts app) 0 signed_in.2 [Sessions.mkServed 0 SignIn.sign_in signed_in.1] SignIn.ask).
  - apply (Sessions.serves_request (app_allowed_hosts app) 0 TaskMap.init [] SignIn.sign_in); [constructor|]. split; [done|]. by intros did [= <-].
  - split; [|done]. intros n v. cbn. unfold SignIn.session. intros [<- <-]%lookup_singleton_Some.
    exists (Sessions.mkServed 0 SignIn.sign_in signed_in.1), "did". split; [by left|vm_compute; reflexivity].
Qed.

Lemma tokens_verify_publicly_witness :
  ∃ token, Sessions.token_of shown.1 = Some ("did:plc:a", token) ∧
    verify "pub-k1" token = Some (mkHeader ES256 (Some "who-am-i-00"), mkClaims "did:plc:a" 2592000).
Proof.
  assert (Henc : ∀ c, jwt_encode c = encode_claims (app_tokens app) c) by reflexivity.
  destruct (Sessions.token_of shown.1) as [[did token]|] eqn:Et; [|vm_compute in Et; discriminate].
  destruct (tokens_verify_publicly (mkEnv files true true) args "" "jwt.pem" app 0 shown.2 service_trace []
              [Sessions.mkServed 0 SignIn.sign_in signed_in.1] (Sessions.mkServed 0 SignIn.ask shown.1) eq_refl Henc
              service_trace_served eq_refl) as [_ Ht].
  destruct (Ht did token Et) as (xy & Hk & Hv & _). exists token.
  assert (xy = "pub-k1") as -> by (vm_compute in Hk; congruence).
  assert (did = "did:plc:a") as -> by (vm_compute in Et; congruence). split; [reflexivity|exact Hv].
Defined.

Lemma metadata_served_witness : md_client_id (client_metadata app) = "https://who.example/client-metadata.json".
Proof.
  destruct (metadata_served (mkEnv files true true) args "" "jwt.pem" app "oauth.pem" eq_refl eq_refl) as (base & _ & _). reflexivity.
Defined.
End Keys.
